(* ===== verification/_CoqProject ===== *)
-Q . S2P
Prelude.v
Bytes.v
BigSize.v
Tlv.v
Sha256.v
Blake2b.v
Bech32.v
Checksum.v
Address.v
Base58.v
AddressSafety.v
ScriptPubKey.v
Bolt11.v
TxPolicy.v
Merkle.v
Utf8.v
Lnurl.v
Codec.v
Fields.v
Signing.v
Disclosure.v
PyInt.v
Redis.v
Window.v
RateLimit.v
InboundRate.v
Breaker.v
PathBreaker.v
PathPost.v
Json.v
PyJson.v
PyTime.v
AuditLog.v
AuditChain.v
AuditSafety.v
PyFloat.v
FloatExact.v
ChannelMix.v
ChannelMixPlan.v
Bootstrap.v
BootstrapMin.v
MixRun.v
Prog.v
MixTask.v
MixSafety.v
MixHistory.v
MixParallel.v
MixExecute.v
MixOneRun.v
Idem.v
SendOnchain.v
SendOnce.v
SendSafety.v
Swap.v
SwapWorld.v
SwapSafety.v
SwapOrder.v
SwapRuns.v
SwapLive.v
AnonState.v
AnonTick.v
AnonProbe.v
HopLog.v
AnonHops.v
AnonReverse.v
HopLogic.v
HopSafety.v
ReverseSafety.v
AnonLoop.v
AnonSafety.v
AnonRecovery.v
AnonBudget.v
AnonSweep.v
AnonExit.v
