(* ===== verification/Prelude.v ===== *)
(** * Agent Wallet: a verification library

    Agent Wallet (src/) is a self-hosted Bitcoin and Lightning wallet service
    in Python: REST API and dashboard over LND, Boltz swaps, BOLT 12 offers
    with an inbound responder, spend limits, a tamper-evident audit log, and
    an "anonymize" orchestrator that drives mixing sessions through swap and
    Lightning hops. This library translates the parts with logic of their own
    into executable definitions and proves what makes them correct.

    ** Parts, files and sources

    Foundations.
    - [Prelude]: exceptions and the [result] monad, tactics, list and option
      lemmas. [Bytes], [PyInt], [PyTime], [Utf8], [Json], [PyJson]: bytes and
      big-endian integers, int(), isoformat()/fromisoformat(), the strict
      codecs, json.dumps, and JSON values as Python reads them (truthiness,
      get, int, strip). [Sha256], [Blake2b]: hashlib, checked on the published
      vectors. [Redis], [Window]: sorted sets with key expiry and failing
      round trips; sums over a sliding window.

    BOLT 12 wire format (src/app/services/bolt12/).
    - [BigSize] bigsize.py; [Tlv] tlv.py; [Bech32] bech32_nochk.py; [Merkle]
      merkle.py; [Codec] codec.py; [Fields] fields.py (Offer, InvoiceRequest,
      Invoice); [Signing] signing.py over a type class of BIP-340 with its
      documented laws; [Disclosure] selective_disclosure.py. Codec calls
      Bech32, Tlv and Merkle; Fields calls Codec; Signing and Disclosure call
      Fields and Merkle, as in the source.

    Limits and resilience.
    - [RateLimit] core/rate_limit.py and [InboundRate]
      bolt12/inbound_rate_limit.py: the Lua scripts and their callers.
      [Breaker] core/resilience.py: the circuit breaker with its asyncio lock
      as a labelled transition system, and with_retry. [PathBreaker] and
      [PathPost] bolt12/path_postprocess.py: the breaker registry and the
      blinded-path pipeline.

    Payments.
    - [Prog]: handlers as programs over the calls they make, and a small logic
      of protocols over them ([Protocol], [wp]). [PyFloat]: floats as binary64.
    - [Idem] core/idempotency.py: reservation, replay, pending slots and
      release. [SendOnchain] the send-onchain handler
      of api/payments.py with send_coins and the POST path of
      services/lnd_service.py and the error classification of core/utils.py.
      [SendOnce]: Redis with expiry, LND, and a pool of requests whose calls
      interleave; [SendSafety]: the theorems. [TxPolicy]
      anonymize/txpolicy.py and the claim check of cooperative_claim.py, on
      the bytes of a serialized transaction.

    Channel mix.
    - [ChannelMix] and [Bootstrap]: services/channel_mix_planner.py with the
      catalog records of small_channel_peers.py: peer selection, capacities,
      seeds, fees, the bootstrap simulation, the search for the deposit and
      the schedule. [FloatExact]: the roundings of the planner are exact for
      the amounts it meets. [ChannelMixPlan], [BootstrapMin]: the theorems.
    - [MixRun] models/channel_mix_run.py, [MixTask]
      tasks/channel_mix_tasks.py: a tick of a run in both modes as a program
      of calls, and the stop request. [MixSafety]: the bootstrap executor
      against a protocol in which every call may answer anything, raise, or be
      the last. [MixHistory]: runs from their request on, and an interpreter
      under given answers; [MixParallel]: the parallel executor.
    - [MixExecute] services/channel_mix_plan_token.py and the execute
      endpoints of api/channel_mix.py and dashboard/api.py; [MixOneRun]: those
      requests interleaved over the table of runs with its advisory lock.

    Boltz reverse swaps.
    - [Swap] models/boltz_swap.py, the lifecycle of services/boltz_service.py
      (advance_swap, claims, retries, backfill, recovery, cancellation), the
      task of tasks/boltz_tasks.py, lookup_payment and send_payment_v2 of
      services/lnd_service.py and the swap endpoints of api/cold_storage.py.
      [SwapWorld]: the row under concurrent sessions with flushes, row locks,
      failing statements and dying workers. [SwapSafety] the protocol every
      request keeps, [SwapOrder] the lifecycle, [SwapRuns] the theorems over
      runs, [SwapLive] completion.

    Addresses and invoices (src/app/core/).
    - [Checksum] the bech32 checksum and regrouping, [Address] and [Base58]
      validation.py, [AddressSafety] its theorems; [Lnurl] bech32_lnurl.py;
      [Bolt11] bolt11.py; [ScriptPubKey] the scripts of addresses in
      services/chain/electrum_protocol.py.

    Audit log.
    - [AuditLog] models/audit_log.py: rows and their keyed hash. [AuditChain]
      services/audit_service.py: append, paged verification, signed
      high-water row, retention, re-anchoring. [AuditSafety]: its theorems.

    Anonymize orchestrator (src/app/services/anonymize/).
    - [AnonState]: the row, the transition graph, the two status-writing
      methods, reason classes. [AnonTick]: tick.py, the collectors and the
      router. [AnonProbe]: reconciliation_probe.py, the probe of
      tick_runners.py, startup_reconciliation.py and the session endpoints of
      dashboard/api.py. [HopLog]: hop_idempotency.py and the crash model.
      [AnonHops]: hops/submarine.py, ln_self_pay.py, bolt12_pay.py.
      [AnonReverse]: hops/reverse.py with its helpers of cooperative_claim.py,
      boltz_request.py and tor.py.
      [AnonLoop]: per_session_loop.py, the dispatch of hop_dispatcher.py, and
      the interface [HopBody] the loop relies on (a body follows the graph,
      or completes or fails a session that pays an offer), with the
      dispatcher and the modelled bodies as instances.
    - [HopLogic]: a small program logic (triples with a crash condition).
      [HopSafety], [ReverseSafety], [AnonSafety], [AnonRecovery], [AnonBudget],
      [AnonSweep], [AnonExit]: the theorems.

    ** How code becomes definitions

    A method that may raise returns [result]; one that mutates an object and
    then raises returns the object as it is left. Database rows are records, a
    commit writes the working copy to the durable one, and tables are lists
    with distinct ids. Text columns are lists of code points. A hop body is a
    program in the monad [M] of [HopLog]: every adapter call and every commit
    spends one unit of the process's remaining life, and a process whose life
    is spent dies there, so a statement about all lives covers a crash at
    every point. Times are microseconds. Loops of the source are structural
    recursions where they have one, and carry fuel otherwise: the fuel of
    decode_stream, decode, the retry loop and the verification pages is the
    length of what is left to read, and the theorems show it is never spent.
    The search for the deposit halves 48 times and the simulation has at most
    40 rounds, as in the source; 48 are enough for targets up to 2^40 sats. Float
    results are stated for amounts below 2^45 sats (requests are limited to
    10^9). The draws of random.Random, pow and the Unicode case mapping are
    parameters of the planner. A program of [Prog] is finite data, so ticks
    and requests end by construction.

    ** What is proved

    - Wire format: decoders accept exactly the encodings and invert the
      encoders ([bigsize_decode_iff], [decode_stream_correct],
      [bech32_decode_iff], [codec_decode_iff], [offer_reencode],
      [invoice_reencode]); the recursive Merkle fold is level-by-level
      pairing; roots bind the signed records; signing and disclosure are
      complete and sound.
    - Limits: window bounds under any interleaving and any Redis failure;
      nothing is charged for a refused or rolled-back payment.
    - Payments: requests with one idempotency key make at most one send LND
      did not refuse and all answer alike, while audit writes succeed and the
      reservation lasts; what is posted was charged first
      and keeps the limits; a replay is the same request. A cooperative claim
      that passes pays the destination; the txid is the hash of the stripped
      serialization.
    - Channel mix: the plan spreads exactly the target; the deposit found is
      the smallest that reaches the target in the simulation. Over any
      failures and crashes a bootstrap run records every open LND
      acknowledged, except one per tick that ends between the acknowledgement
      and the commit behind it, and its row is a sound ledger; a parallel run
      records every open and swap when its ticks complete one after another; at most one run is
      live. Also what goes wrong: a failing audit write makes the parallel
      executor open a channel on every tick, a tick that dies while it seeds
      leaves a run that never ends, overlapping ticks seed a channel twice,
      and the v1 endpoint answers with an ended run for ever.
    - Swaps: at most one claim script runs at a time and none is started once
      a claim is stored, under any interleaving, failure and crash; a stored
      id is never emptied and has its broadcast time; without overlap the
      status only moves forward, except that a task out of retries fails a
      cancelled swap; a paid swap is claimed and completed when the services
      answer. Also what overlapping requests undo: a cancelled swap may be
      paid, a stored claim id replaced.
    - Addresses and invoices: the check lets exactly the encodings of witness
      programs and Base58Check payloads through, and no burst of up to six
      wrong characters; a script belongs to one address; LNURL decoding inverts the encoding; the payment hash
      and the amount of an invoice are read exactly.
    - Breakers: one probe per half-open episode; with_retry refines an
      automaton of three states, the third that of a probe cancelled in a
      sleep; the runs in which the lock is lost.
    - Paths: the pipeline's result against a specification of the paths that
      are fit, its bounds and its report.
    - Audit: verification succeeds exactly on valid chains; every honest
      history verifies, writers between the two commits of a re-anchoring
      included, while reads of the newest row succeed; a head pins its
      history; what truncation is and is not detected. Also what breaks a
      chain: an entry after a failed read, a retention run inside the second
      transaction of a re-anchoring.
    - Orchestrator: the lockup is funded at most once and a session pays one
      invoice to itself, whatever crashes occur; the reverse exit pays one
      invoice in parts the fallback allows, and every claim it stores or
      broadcasts pays the destination; every writer of the status
      follows the graph, except that a session that pays a BOLT 12 offer may
      be completed from EXITING; a sweep over the table does what its
      specification says; resumptions are bounded. Also what does not work: a
      session that has been parked and pays no offer never completes, one that exits through a reverse swap
      is never confirmed with the claim adapter as it is bound, an on-chain session never gets funded,
      the Liquid dwell is never entered, a long delay is failed, and the
      BOLT 12 exit may pay twice.

    ** What is not modelled

    Network clients and subprocesses (LND, Boltz, Tor, Electrum, the Rust
    gateway) are parameters where a modelled function calls them, and are not
    modelled themselves. Floats inside JSON columns, log lines, metrics and
    operator alerts are left out.
    Of the orchestrator, the Liquid body is assumed to keep [HopBody] and the
    private-channel one is left out, as are quotes, admission, coin control
    and output planning. Channel-mix ticks of one run overlap only in the
    example that shows what overlapping does. The other REST routers, the
    dashboard's rendering and authentication, the Braiins workflow, the BOLT 12
    responder, configuration and database set-up are not modelled: they are
    routing, declarations and message pumps over the parts above. *)
From stdpp Require Export base tactics list strings numbers option gmap sorting.
From Stdlib Require Export ZArith Lia.
From Stdlib Require Export Strings.Byte Strings.Ascii.

#[global] Set Default Goal Selector "!".
Global Open Scope Z_scope.

(** ** Python exceptions and fallible computations

    A function of the source that may raise is a function into [result].
    [exn] lists the exception classes the modelled code raises, with the
    literal part of the message (the text before the first interpolated
    value of an f-string). *)

Inductive exn :=
  | ValueError (msg : string)
  | KeyError (msg : string)
  | OverflowError (msg : string)
  | TypeError (msg : string)
  | UnicodeDecodeError
  | UnicodeEncodeError
  | AssertionError
  | RedisError
  | RuntimeError (msg : string)
  | AttributeError
  | IllegalStateTransitionError
  | IndexError
  | ZeroDivisionError
  | IntegrityError
  | MultipleResultsFound
  | HTTPException (status_code : Z)
  | TxEnvelopePolicyError (msg : string)
  | ClaimTxValidationError (msg : string)
  | Bolt12FormatError (msg : string)
  | Bolt12DecodeError (msg : string)
  | OutOfFuel.

Inductive result (A : Type) :=
  | Ok (a : A)
  | Err (e : exn).
Arguments Ok {A} a.
Arguments Err {A} e.

Global Instance result_ret : MRet result := fun A a => Ok a.
Global Instance result_bind : MBind result := fun A B f m =>
  match m with Ok a => f a | Err e => Err e end.
Global Instance result_fmap : FMap result := fun A B f m =>
  match m with Ok a => Ok (f a) | Err e => Err e end.

Global Instance exn_eq_dec : EqDecision exn.
Proof. solve_decision. Defined.
Global Instance result_eq_dec {A} `{EqDecision A} : EqDecision (result A).
Proof. solve_decision. Defined.

Definition is_ok {A} (r : result A) : bool :=
  match r with Ok _ => true | Err _ => false end.

Lemma bind_Ok {A B} (m : result A) (f : A -> result B) b :
  (m ≫= f) = Ok b <-> exists a, m = Ok a /\ f a = Ok b.
Proof. destruct m as [a|e]; simpl; naive_solver. Qed.

(** A value and an error of the left operand; as rewrites, so that no
    conversion has to look into the operands. *)
Lemma bind_of_Ok {A B} (a : A) (f : A -> result B) : (Ok a ≫= f) = f a.
Proof. done. Qed.

Lemma bind_of_Err {A B} e (f : A -> result B) : (Err e ≫= f) = Err e.
Proof. done. Qed.

Lemma bind_Err {A B} (m : result A) (f : A -> result B) e :
  (m ≫= f) = Err e <-> m = Err e \/ exists a, m = Ok a /\ f a = Err e.
Proof. destruct m as [a|e']; simpl; naive_solver. Qed.

Lemma fmap_Ok {A B} (m : result A) (f : A -> B) b :
  f <$> m = Ok b <-> exists a, m = Ok a /\ f a = b.
Proof. destruct m as [a|e]; simpl; naive_solver. Qed.

(** [mapM] over [result], evaluated left to right, as a Python
    comprehension over a fallible expression is. *)
Fixpoint mapR {A B} (f : A -> result B) (l : list A) : result (list B) :=
  match l with
  | [] => Ok []
  | x :: l => y ← f x; ys ← mapR f l; Ok (y :: ys)
  end.

Lemma mapR_Ok {A B} (f : A -> result B) l ys :
  mapR f l = Ok ys <-> Forall2 (fun x y => f x = Ok y) l ys.
Proof.
  revert ys. induction l as [|x l IH]; intros ys; simpl.
  - split; [intros [= <-]; constructor|]. by inversion 1.
  - rewrite bind_Ok. setoid_rewrite bind_Ok. split.
    + intros (y & Hy & zs & Hzs & [= <-]). constructor; [done|]. by apply IH.
    + inversion 1 as [|? y ? zs Hy Hzs]; subst. exists y. split; [done|].
      exists zs. split; [by apply IH|done].
Qed.

Lemma mapR_length {A B} (f : A -> result B) l ys :
  mapR f l = Ok ys -> length ys = length l.
Proof. intros H%mapR_Ok. symmetry. by eapply Forall2_length. Qed.

(** ** Automation *)

(** Split every [m ≫= f = Ok _] of the context into its steps. *)
Ltac inv_ok :=
  repeat match goal with
    | H : (_ ≫= _) = Ok _ |- _ => apply bind_Ok in H; destruct H as (? & ? & H)
    | H : (_ <$> _) = Ok _ |- _ => apply fmap_Ok in H; destruct H as (? & ? & H)
    | H : Ok _ = Ok _ |- _ => injection H as H; subst
    | H : Err _ = Ok _ |- _ => discriminate H
    | H : Ok _ = Err _ |- _ => discriminate H
    end.

(** Case analysis on the scrutinee of a [match] or [if] of a hypothesis. *)
Ltac case_hyp H :=
  match type of H with
  | context [match ?x with _ => _ end] =>
      lazymatch x with context [match _ with _ => _ end] => fail | _ => idtac end;
      let E := fresh "E" in destruct x eqn:E
  end; try discriminate H.

(** Boolean comparisons of [Z] and [nat] to propositions, everywhere. *)
Ltac bool_to_prop :=
  repeat match goal with
    | H : (_ && _)%bool = true |- _ => apply andb_prop in H; destruct H
    | H : (_ || _)%bool = false |- _ => apply orb_false_elim in H; destruct H
    | H : negb _ = true |- _ => apply negb_true_iff in H
    | H : negb _ = false |- _ => apply negb_false_iff in H
    | H : (_ =? _) = true |- _ => apply Z.eqb_eq in H
    | H : (_ =? _) = false |- _ => apply Z.eqb_neq in H
    | H : (_ <? _) = true |- _ => apply Z.ltb_lt in H
    | H : (_ <? _) = false |- _ => apply Z.ltb_ge in H
    | H : (_ <=? _) = true |- _ => apply Z.leb_le in H
    | H : (_ <=? _) = false |- _ => apply Z.leb_gt in H
    | H : bool_decide _ = true |- _ => apply bool_decide_eq_true in H
    | H : bool_decide _ = false |- _ => apply bool_decide_eq_false in H
    end.

(** [lia] with division and remainder by constants. *)
Ltac dlia := Z.to_euclidean_division_equations; lia.

Create HintDb wallet discriminated.

(** ** Lists *)

Lemma drop_app_at {A} (l k : list A) : drop (length l) (l ++ k) = k.
Proof. by rewrite drop_app_length. Qed.

Lemma take_app_at {A} (l k : list A) : take (length l) (l ++ k) = l.
Proof. by rewrite take_app_length. Qed.

Lemma drop_split_at {A} (l : list A) i j :
  drop i l = take j (drop i l) ++ drop (i + j) l.
Proof. rewrite <- drop_drop. by rewrite take_drop. Qed.

Lemma last_snoc_inv {A} (l : list A) : l = [] \/ exists k x, l = k ++ [x].
Proof.
  destruct l as [|x l _] using rev_ind; [by left|right; eauto].
Qed.

Lemma Forall_filter_intro {A} (P : A -> Prop) (f : A -> bool) l :
  Forall P l -> Forall P (List.filter f l).
Proof.
  rewrite !List.Forall_forall. intros H x [Hx _]%List.filter_In. auto.
Qed.

Lemma NoDup_map_filter {A B} (g : A -> B) (f : A -> bool) l :
  NoDup (map g l) -> NoDup (map g (List.filter f l)).
Proof.
  induction l as [|x l IH]; [done|]. cbn [map List.filter]. intros [Hx Hd]%NoDup_cons.
  destruct (f x); [|auto]. cbn [map]. apply NoDup_cons. split; [|auto].
  intros Hin. apply Hx. apply list_elem_of_fmap in Hin as (y & -> & Hy).
  apply list_elem_of_In, List.filter_In in Hy as [Hy _].
  apply list_elem_of_fmap_2. by apply list_elem_of_In.
Qed.

(** Strictly ascending lists of integers (the order BOLT 12 puts on TLV
    types): a boolean check on neighbours and the logical notion. *)
Fixpoint ascending (l : list Z) : bool :=
  match l with
  | x :: ((y :: _) as k) => (x <? y) && ascending k
  | _ => true
  end.

Lemma ascending_sorted l : ascending l = true <-> StronglySorted Z.lt l.
Proof.
  split.
  - intros H. apply Sorted_StronglySorted; [intros ???; lia|].
    induction l as [|x [|y l] IH]; [constructor|by repeat constructor|].
    simpl in H. apply andb_prop in H as [?%Z.ltb_lt ?].
    constructor; [auto|]. by constructor.
  - induction 1 as [|x l Hs IH Hx]; [done|]. destruct l as [|y l]; [done|].
    simpl. apply andb_true_intro. split; [|done].
    apply Forall_inv in Hx. lia.
Qed.

Lemma ascending_NoDup l : ascending l = true -> NoDup l.
Proof.
  rewrite ascending_sorted. induction 1 as [|x l _ IH Hx]; constructor; [|done].
  intros Hin. rewrite Forall_forall in Hx. apply Hx in Hin. lia.
Qed.

Lemma ascending_cons x l :
  ascending (x :: l) = true <-> Forall (Z.lt x) l /\ ascending l = true.
Proof.
  rewrite !ascending_sorted. split.
  - inversion 1; subst; done.
  - intros [??]. by constructor.
Qed.
