(* ===== verification/Bytes.v ===== *)
(** * Bytes: Python [bytes], big-endian integers and hex text

    [bytes] of the source are lists of [Byte.byte]; [int.from_bytes],
    [int.to_bytes], slicing, [bytes <=], [bytes.hex] and
    [bytes.fromhex] are written out here. *)
From S2P Require Import Prelude.

Abbreviation bytes := (list Byte.byte).

Global Instance byte_eq_dec : EqDecision Byte.byte := Byte.byte_eq_dec.

Definition b2z (b : byte) : Z := Z.of_N (Byte.to_N b).

(** The low eight bits of an integer, [x & 0xFF]. *)
Definition z2b (z : Z) : byte :=
  match Byte.of_N (Z.to_N (z mod 256)) with Some b => b | None => x00 end.

Lemma b2z_range b : 0 <= b2z b < 256.
Proof. unfold b2z. pose proof (Byte.to_N_bounded b). lia. Qed.

Lemma z2b_b2z b : z2b (b2z b) = b.
Proof.
  unfold z2b. rewrite Z.mod_small by apply b2z_range.
  unfold b2z. by rewrite N2Z.id, Byte.of_to_N.
Qed.

Lemma b2z_z2b z : b2z (z2b z) = z mod 256.
Proof.
  unfold z2b. pose proof (Z.mod_pos_bound z 256 ltac:(lia)) as Hz.
  destruct (Byte.of_N _) as [b|] eqn:E.
  - unfold b2z. apply Byte.to_of_N in E. rewrite E. lia.
  - apply Byte.of_N_None_iff in E. lia.
Qed.

Lemma b2z_inj b c : b2z b = b2z c -> b = c.
Proof. intros H. by rewrite <- (z2b_b2z b), <- (z2b_b2z c), H. Qed.

(** ** Big-endian integers *)

(** [int.from_bytes(data, "big")] *)
Definition from_be (data : bytes) : Z :=
  foldl (fun acc b => acc * 256 + b2z b) 0 data.

(** The [n] low bytes of [z], most significant first. *)
Fixpoint be_bytes (n : nat) (z : Z) : bytes :=
  match n with
  | O => []
  | S n => be_bytes n (z / 256) ++ [z2b z]
  end.

(** [z.to_bytes(n, "big")], which raises when [z] does not fit. *)
Definition to_bytes (z : Z) (n : nat) : result bytes :=
  if (z <? 0) || (256 ^ Z.of_nat n <=? z) then Err (OverflowError "int too big to convert")
  else Ok (be_bytes n z).

Lemma from_be_snoc data b : from_be (data ++ [b]) = from_be data * 256 + b2z b.
Proof. unfold from_be. by rewrite foldl_snoc. Qed.

Lemma pow256_S n : 256 ^ Z.of_nat (S n) = 256 * 256 ^ Z.of_nat n.
Proof. rewrite Nat2Z.inj_succ, Z.pow_succ_r; lia. Qed.

Lemma pow256_pos n : 0 < 256 ^ Z.of_nat n.
Proof. apply Z.pow_pos_nonneg; lia. Qed.

Lemma from_be_range data : 0 <= from_be data < 256 ^ Z.of_nat (length data).
Proof.
  induction data as [|b data IH] using rev_ind; [done|].
  rewrite from_be_snoc, length_app. simpl.
  replace (length data + 1)%nat with (S (length data)) by lia.
  rewrite pow256_S. pose proof (b2z_range b). lia.
Qed.

Lemma length_be_bytes n z : length (be_bytes n z) = n.
Proof.
  revert z. induction n as [|n IH]; intros z; [done|].
  simpl. rewrite length_app, IH. simpl. lia.
Qed.

Lemma from_be_be_bytes n z :
  0 <= z < 256 ^ Z.of_nat n -> from_be (be_bytes n z) = z.
Proof.
  revert z. induction n as [|n IH]; intros z Hz; [simpl in *; unfold from_be; simpl; lia|].
  rewrite pow256_S in Hz. simpl. rewrite from_be_snoc, b2z_z2b, IH.
  - pose proof (Z.div_mod z 256). lia.
  - split; [apply Z.div_pos; lia|]. apply Z.div_lt_upper_bound; lia.
Qed.

Lemma be_bytes_from_be data : be_bytes (length data) (from_be data) = data.
Proof.
  induction data as [|b data IH] using rev_ind; [done|].
  rewrite from_be_snoc, length_app. simpl.
  replace (length data + 1)%nat with (S (length data)) by lia. simpl.
  pose proof (b2z_range b) as Hb.
  rewrite Z.div_add_l, Z.div_small, Z.add_0_r, IH by lia. f_equal. f_equal.
  apply b2z_inj. rewrite b2z_z2b, Z.add_comm, Z_mod_plus_full.
  by rewrite Z.mod_small.
Qed.

Lemma to_bytes_fits z n :
  0 <= z < 256 ^ Z.of_nat n -> to_bytes z n = Ok (be_bytes n z).
Proof.
  intros [Hlo Hhi]. unfold to_bytes.
  apply Z.ltb_ge in Hlo. apply Z.leb_gt in Hhi. by rewrite Hlo, Hhi.
Qed.

Lemma from_be_inj d e : length d = length e -> from_be d = from_be e -> d = e.
Proof.
  intros Hl Hv. rewrite <- (be_bytes_from_be d), <- (be_bytes_from_be e).
  by rewrite Hl, Hv.
Qed.

(** A number with a non-zero leading byte needs all its bytes. *)
Lemma from_be_cons b data :
  from_be (b :: data) = b2z b * 256 ^ Z.of_nat (length data) + from_be data.
Proof.
  induction data as [|c data IH] using rev_ind; [unfold from_be; simpl; lia|].
  rewrite app_comm_cons, !from_be_snoc, IH, length_app. simpl.
  replace (length data + 1)%nat with (S (length data)) by lia.
  rewrite pow256_S. lia.
Qed.

(** ** Slices and comparison *)

(** [data[i:j]] for non-negative bounds. *)
Definition slice {A} (data : list A) (i j : nat) : list A := take (j - i) (drop i data).

(** [a <= b] on bytes: lexicographic order. *)
Fixpoint bytes_le (a b : bytes) : bool :=
  match a, b with
  | [], _ => true
  | _ :: _, [] => false
  | x :: a, y :: b =>
      if b2z x <? b2z y then true
      else if b2z y <? b2z x then false
      else bytes_le a b
  end.

Lemma bytes_le_total a b : bytes_le a b = true \/ bytes_le b a = true.
Proof.
  revert b. induction a as [|x a IH]; intros [|y b]; simpl; auto.
  destruct (Z.ltb_spec (b2z x) (b2z y)), (Z.ltb_spec (b2z y) (b2z x)); auto; lia.
Qed.

Lemma bytes_le_antisym a b : bytes_le a b = true -> bytes_le b a = true -> a = b.
Proof.
  revert b. induction a as [|x a IH]; intros [|y b]; simpl; try done.
  destruct (Z.ltb_spec (b2z x) (b2z y)), (Z.ltb_spec (b2z y) (b2z x)); try done; try lia.
  intros ??. f_equal; [apply b2z_inj; lia|auto].
Qed.

(** ** Hex text *)

(** One hex digit of [bytes.hex()] (lower case). *)
Definition hex_digit (z : Z) : ascii :=
  ascii_of_N (Z.to_N (if z <? 10 then 48 + z else 87 + z)).

(** [data.hex()] *)
Fixpoint hex (data : bytes) : string :=
  match data with
  | [] => EmptyString
  | b :: data => String (hex_digit (b2z b / 16)) (String (hex_digit (b2z b mod 16)) (hex data))
  end.

(** The value of a hex digit of either case. *)
Definition hex_value (c : ascii) : option Z :=
  let z := Z.of_N (N_of_ascii c) in
  if (48 <=? z) && (z <=? 57) then Some (z - 48)
  else if (97 <=? z) && (z <=? 102) then Some (z - 87)
  else if (65 <=? z) && (z <=? 70) then Some (z - 55)
  else None.

(** The ASCII whitespace [bytes.fromhex] skips between bytes. *)
Definition is_ascii_space (c : ascii) : bool :=
  let z := Z.of_N (N_of_ascii c) in (z =? 32) || ((9 <=? z) && (z <=? 13)).

(** [bytes.fromhex(s)]: whitespace may precede a byte but not split one. *)
Fixpoint fromhex (s : string) : result bytes :=
  match s with
  | EmptyString => Ok []
  | String c s =>
      if is_ascii_space c then fromhex s
      else match s with
           | EmptyString => Err (ValueError "non-hexadecimal number found in fromhex() arg")
           | String d s =>
               match hex_value c, hex_value d with
               | Some hi, Some lo => rest ← fromhex s; Ok (z2b (hi * 16 + lo) :: rest)
               | _, _ => Err (ValueError "non-hexadecimal number found in fromhex() arg")
               end
           end
  end.

Lemma hex_digit_ok z :
  0 <= z < 16 -> hex_value (hex_digit z) = Some z /\ is_ascii_space (hex_digit z) = false.
Proof.
  intros Hz.
  assert (forallb (fun z => bool_decide (hex_value (hex_digit z) = Some z) &&
                            negb (is_ascii_space (hex_digit z))) (seqZ 0 16) = true) as HF
    by (vm_compute; reflexivity).
  rewrite List.forallb_forall in HF.
  assert (In z (seqZ 0 16)) as Hin by (apply list_elem_of_In, elem_of_seqZ; lia).
  specialize (HF z Hin). by bool_to_prop.
Qed.

Lemma fromhex_hex data : fromhex (hex data) = Ok data.
Proof.
  induction data as [|b data IH]; [done|]. pose proof (b2z_range b) as Hb.
  destruct (hex_digit_ok (b2z b / 16)) as [Hhi Hns].
  { split; [apply Z.div_pos; lia|]. apply Z.div_lt_upper_bound; lia. }
  destruct (hex_digit_ok (b2z b mod 16)) as [Hlo _]; [apply Z.mod_pos_bound; lia|].
  cbn [hex fromhex]. rewrite Hns, Hhi, Hlo, IH. cbn.
  replace (b2z b / 16 * 16 + b2z b mod 16) with (b2z b)
    by (pose proof (Z.div_mod (b2z b) 16); lia).
  by rewrite z2b_b2z.
Qed.
