(* ===== verification/BigSize.v ===== *)
(** * BigSize: variable-length integers (app/services/bolt12/bigsize.py)

    [encode] / [decode] / [encoded_length] of the source. [decode] reads at
    an offset of a larger buffer, as the source does, and returns the value
    with the offset after it. *)
From S2P Require Import Prelude Bytes.

(** ** Operations *)

Definition encode (n : Z) : result bytes :=
  if n <? 0 then Err (ValueError "BigSize values must be non-negative")
  else if n <? 0xFD then Ok [z2b n]
  else if n <? 0x10000 then b ← to_bytes n 2; Ok (xfd :: b)
  else if n <? 0x100000000 then b ← to_bytes n 4; Ok (xfe :: b)
  else if n <? 0x10000000000000000 then b ← to_bytes n 8; Ok (xff :: b)
  else Err (ValueError "BigSize value exceeds 64 bits").

Definition decode (data : bytes) (offset : nat) : result (Z * nat) :=
  match data !! offset with
  | None => Err (Bolt12DecodeError "BigSize: unexpected end of stream")
  | Some head =>
      if b2z head <? 0xFD then Ok (b2z head, (offset + 1)%nat)
      else if b2z head =? 0xFD then
        if (length data <? offset + 3)%nat
        then Err (Bolt12DecodeError "BigSize: truncated 3-byte form")
        else let v := from_be (slice data (offset + 1) (offset + 3)) in
             if v <? 0xFD then Err (Bolt12DecodeError "BigSize: non-canonical 3-byte encoding")
             else Ok (v, (offset + 3)%nat)
      else if b2z head =? 0xFE then
        if (length data <? offset + 5)%nat
        then Err (Bolt12DecodeError "BigSize: truncated 5-byte form")
        else let v := from_be (slice data (offset + 1) (offset + 5)) in
             if v <? 0x10000 then Err (Bolt12DecodeError "BigSize: non-canonical 5-byte encoding")
             else Ok (v, (offset + 5)%nat)
      else
        if (length data <? offset + 9)%nat
        then Err (Bolt12DecodeError "BigSize: truncated 9-byte form")
        else let v := from_be (slice data (offset + 1) (offset + 9)) in
             if v <? 0x100000000 then Err (Bolt12DecodeError "BigSize: non-canonical 9-byte encoding")
             else Ok (v, (offset + 9)%nat)
  end.

Definition encoded_length (n : Z) : nat :=
  if n <? 0xFD then 1%nat
  else if n <? 0x10000 then 3%nat
  else if n <? 0x100000000 then 5%nat
  else 9%nat.

(** ** Lemmas *)

(** The encoder, with [to_bytes] discharged: it is total below 2^64. *)
Lemma encode_cases n e :
  encode n = Ok e <->
  (0 <= n < 0xFD /\ e = [z2b n]) \/
  (0xFD <= n < 0x10000 /\ e = xfd :: be_bytes 2 n) \/
  (0x10000 <= n < 0x100000000 /\ e = xfe :: be_bytes 4 n) \/
  (0x100000000 <= n < 0x10000000000000000 /\ e = xff :: be_bytes 8 n).
Proof.
  unfold encode.
  destruct (Z.ltb_spec n 0); [split; [done|naive_solver lia]|].
  destruct (Z.ltb_spec n 0xFD); [split; [intros [= <-]; by left|naive_solver lia]|].
  destruct (Z.ltb_spec n 0x10000).
  { rewrite to_bytes_fits by (change (256 ^ Z.of_nat 2) with 0x10000; lia). simpl.
    split; [intros [= <-]; right; by left|naive_solver lia]. }
  destruct (Z.ltb_spec n 0x100000000).
  { rewrite to_bytes_fits by (change (256 ^ Z.of_nat 4) with 0x100000000; lia).
    cbn [mbind result_bind].
    split; [intros [= <-]; right; right; by left|naive_solver lia]. }
  destruct (Z.ltb_spec n 0x10000000000000000); [|split; [done|naive_solver lia]].
  rewrite to_bytes_fits by (change (256 ^ Z.of_nat 8) with 0x10000000000000000; lia).
  cbn [mbind result_bind].
  split; [intros [= <-]; right; right; by right|naive_solver lia].
Qed.

Lemma encode_total n : 0 <= n < 2 ^ 64 -> exists e, encode n = Ok e.
Proof.
  intros Hn. change (2 ^ 64) with 0x10000000000000000 in Hn.
  setoid_rewrite encode_cases.
  destruct (Z.lt_ge_cases n 0xFD); [eexists; left; split; [lia|done]|].
  destruct (Z.lt_ge_cases n 0x10000); [eexists; right; left; split; [lia|done]|].
  destruct (Z.lt_ge_cases n 0x100000000); eexists; right; right;
    [left|right]; (split; [lia|done]).
Qed.

Lemma encode_range n e : encode n = Ok e -> 0 <= n < 2 ^ 64.
Proof. intros H%encode_cases. change (2 ^ 64) with 0x10000000000000000. naive_solver lia. Qed.

Lemma encode_length n e : encode n = Ok e -> length e = encoded_length n.
Proof.
  intros H%encode_cases. unfold encoded_length.
  destruct H as [[? ->]|[[? ->]|[[? ->]|[? ->]]]]; cbn [length];
    rewrite ?length_be_bytes; repeat case_match; bool_to_prop; lia.
Qed.

Lemma encode_nonempty n e : encode n = Ok e -> (1 <= length e)%nat.
Proof.
  intros ->%encode_length. unfold encoded_length. repeat case_match; lia.
Qed.

(** [slice] reads back a block placed after a prefix. *)
Lemma slice_mid {A} (pre mid post : list A) i j :
  i = length pre -> j = (length pre + length mid)%nat ->
  slice (pre ++ mid ++ post) i j = mid.
Proof.
  intros -> ->. unfold slice. rewrite drop_app_at.
  replace (length pre + length mid - length pre)%nat with (length mid) by lia.
  apply take_app_at.
Qed.

(** A block whose first byte is [h], read inside a larger buffer. *)
Lemma head_mid {A} (pre body post : list A) h :
  (pre ++ (h :: body) ++ post) !! length pre = Some h.
Proof. by rewrite lookup_app_r, Nat.sub_diag by lia. Qed.

Lemma body_mid {A} (pre body post : list A) h j :
  j = (length pre + 1 + length body)%nat ->
  slice (pre ++ (h :: body) ++ post) (length pre + 1) j = body.
Proof.
  intros ->. rewrite <- app_comm_cons, cons_middle, app_assoc.
  apply slice_mid; rewrite length_app; simpl; lia.
Qed.

(** The three wide forms differ only in their width and lower bound. *)
Ltac wide_form k bound :=
  change (b2z _) with (Z.of_N (Byte.to_N xfd)) || change (b2z _) with (Z.of_N (Byte.to_N xfe))
    || change (b2z _) with (Z.of_N (Byte.to_N xff));
  cbn [Byte.to_N Z.of_N Z.ltb Z.eqb Z.compare Pos.compare Pos.compare_cont Pos.eqb];
  rewrite (body_mid _ (be_bytes k _)) by (rewrite length_be_bytes; lia);
  rewrite from_be_be_bytes by (cbn -[Z.lt Z.le]; lia);
  rewrite !length_app; cbn [length]; rewrite length_be_bytes;
  repeat case_match; bool_to_prop;
  repeat match goal with H : (_ <? _)%nat = true |- _ => apply Nat.ltb_lt in H end;
  solve [lia | do 2 f_equal; lia].

Lemma decode_encode n e pre post :
  encode n = Ok e ->
  decode (pre ++ e ++ post) (length pre) = Ok (n, (length pre + length e)%nat).
Proof.
  intros H%encode_cases.
  destruct H as [[? ->]|[[? ->]|[[? ->]|[? ->]]]]; unfold decode; rewrite head_mid.
  - rewrite b2z_z2b, Z.mod_small by lia.
    destruct (Z.ltb_spec n 0xFD); [done|lia].
  - wide_form 2%nat 0xFD.
  - wide_form 4%nat 0x10000.
  - wide_form 8%nat 0x100000000.
Qed.

(** What a wide form reads, as a suffix of the buffer. *)
Lemma wide_read (data : bytes) off h k :
  data !! off = Some h -> (off + S k <= length data)%nat ->
  let body := slice data (off + 1) (off + S k) in
  length body = k /\ drop off data = (h :: body) ++ drop (off + S k) data.
Proof.
  intros Hh Hk body. subst body. unfold slice.
  replace (off + S k - (off + 1))%nat with k by lia. split.
  - rewrite length_take, length_drop. lia.
  - rewrite (drop_S _ _ _ Hh). simpl. f_equal.
    rewrite (drop_split_at data (S off) k).
    by replace (off + 1)%nat with (S off) by lia; replace (S off + k)%nat with (off + S k)%nat by lia.
Qed.

Lemma wide_sound (data : bytes) off h k :
  data !! off = Some h -> (off + S k <= length data)%nat ->
  let v := from_be (slice data (off + 1) (off + S k)) in
  0 <= v < 256 ^ Z.of_nat k /\
  drop off data = (h :: be_bytes k v) ++ drop (off + S k) data.
Proof.
  intros Hh Hk v. destruct (wide_read _ _ _ _ Hh Hk) as [Hl Hd].
  pose proof (from_be_range (slice data (off + 1) (off + S k))) as Hr.
  rewrite Hl in Hr. split; [done|]. rewrite Hd. do 2 f_equal.
  subst v. symmetry. rewrite <- Hl at 1. apply be_bytes_from_be.
Qed.

Lemma decode_sound data off v off' :
  decode data off = Ok (v, off') ->
  exists e, encode v = Ok e /\ off' = (off + length e)%nat /\
            drop off data = e ++ drop off' data /\ (off' <= length data)%nat.
Proof.
  unfold decode. intros H. destruct (data !! off) as [h|] eqn:Hh; [|done].
  pose proof (b2z_range h) as Hr. pose proof (lookup_lt_Some _ _ _ Hh) as Hlt.
  repeat case_hyp H; injection H as <- <-; bool_to_prop;
    repeat match goal with H : (_ <? _)%nat = false |- _ => apply Nat.ltb_ge in H end.
  - exists [h]. split; [|split; [done|split; [|lia]]]; last by rewrite (drop_S _ _ _ Hh), Nat.add_1_r.
    apply encode_cases. left. rewrite z2b_b2z. split; [lia|done].
  - destruct (wide_sound data off h 2) as [Hv Hd]; [done|lia|].
    assert (h = xfd) as -> by (by apply b2z_inj).
    eexists. split; [|split; [|by split; [apply Hd|]]]; [|done].
    apply encode_cases. right; left. split; [|done]. split; [done|]. apply Hv.
  - destruct (wide_sound data off h 4) as [Hv Hd]; [done|lia|].
    assert (h = xfe) as -> by (by apply b2z_inj).
    eexists. split; [|split; [|by split; [apply Hd|]]]; [|done].
    apply encode_cases. right; right; left. split; [|done]. split; [done|]. apply Hv.
  - destruct (wide_sound data off h 8) as [Hv Hd]; [done|lia|].
    assert (h = xff) as -> by (apply b2z_inj; change (b2z xff) with 255; lia).
    eexists. split; [|split; [|by split; [apply Hd|]]]; [|done].
    apply encode_cases. right; right; right. split; [|done]. split; [done|]. apply Hv.
Qed.

Lemma decode_at data off v e :
  encode v = Ok e -> drop off data = e ++ drop (off + length e) data ->
  decode data off = Ok (v, (off + length e)%nat).
Proof.
  intros He Hd. pose proof (encode_nonempty _ _ He) as Hne.
  assert (off <= length data)%nat as Hoff.
  { apply (f_equal length) in Hd. rewrite length_app, !length_drop in Hd. lia. }
  assert (length (take off data) = off) as Hlen by (rewrite length_take; lia).
  pose proof (decode_encode v e (take off data) (drop (off + length e) data) He) as H.
  by rewrite Hlen, <- Hd, take_drop in H.
Qed.

#[export] Hint Resolve encode_nonempty encode_range : wallet.

(** ** Properties *)

(** BigSize decoding is exactly the inverse of encoding: reading at
    [off] yields [v] and the next offset precisely when the buffer holds at
    [off] the canonical encoding of [v], which is [encoded_length v] bytes
    long. So every 64-bit value round-trips and no value has a second,
    non-canonical form that is accepted. *)
Theorem bigsize_decode_iff data off v off' :
  decode data off = Ok (v, off') <->
  exists e, encode v = Ok e /\ length e = encoded_length v /\
            off' = (off + length e)%nat /\ (off' <= length data)%nat /\
            drop off data = e ++ drop off' data.
Proof.
  split.
  - intros (e & He & Ho & Hd & Hl)%decode_sound.
    exists e. auto using encode_length.
  - intros (e & He & _ & -> & Hl & Hd).
    by apply decode_at.
Qed.
