(* ===== verification/Tlv.v ===== *)
(** * TLV records and streams (app/services/bolt12/tlv.py)

    A stream is the concatenation of [BigSize(type) || BigSize(length) ||
    value] records in strictly ascending type order. *)
From S2P Require Import Prelude Bytes BigSize.

Definition SIG_TYPE_MIN : Z := 240.
Definition SIG_TYPE_MAX : Z := 1000.

Definition is_signature_type (tlv_type : Z) : bool :=
  (SIG_TYPE_MIN <=? tlv_type) && (tlv_type <=? SIG_TYPE_MAX).

Record TLVRecord := mkTLV { tlv_type : Z; tlv_value : bytes }.

Global Instance TLVRecord_eq_dec : EqDecision TLVRecord.
Proof. solve_decision. Defined.

(** ** Operations *)

Definition encode_record (r : TLVRecord) : result bytes :=
  if tlv_type r <? 0 then Err (ValueError "TLV type must be non-negative")
  else
    t ← BigSize.encode (tlv_type r);
    l ← BigSize.encode (Z.of_nat (length (tlv_value r)));
    Ok (t ++ l ++ tlv_value r).

Definition is_signature (r : TLVRecord) : bool := is_signature_type (tlv_type r).

Definition type_bytes (r : TLVRecord) : result bytes := BigSize.encode (tlv_type r).

(** [cap is not None and x > cap] *)
Definition exceeds (x : Z) (cap : option Z) : bool :=
  match cap with Some m => m <? x | None => false end.

(** The [while offset < n] loop of [decode_stream], one record a turn;
    [out] and [last_type] are its loop variables. *)
Fixpoint decode_loop (fuel : nat) (data : bytes) (max_records max_value_bytes : option Z)
    (offset : nat) (last_type : option Z) (out : list TLVRecord)
    : result (list TLVRecord) :=
  match fuel with
  | O => Err OutOfFuel
  | S fuel =>
      if (offset <? length data)%nat then
        '(ty, offset) ← BigSize.decode data offset;
        '(len, offset) ← BigSize.decode data offset;
        if exceeds len max_value_bytes
        then Err (Bolt12DecodeError "TLV: record of type ")
        else if Z.of_nat (length data) <? Z.of_nat offset + len
        then Err (Bolt12DecodeError "TLV: value of type ")
        else
          let value := slice data offset (offset + Z.to_nat len) in
          let offset := (offset + Z.to_nat len)%nat in
          if (match last_type with Some l => ty =? l | None => false end)
          then Err (Bolt12DecodeError "TLV: duplicate type ")
          else if (match last_type with Some l => ty <? l | None => false end)
          then Err (Bolt12DecodeError "TLV: type ")
          else if (match max_records with Some m => m <=? Z.of_nat (length out) | None => false end)
          then Err (Bolt12DecodeError "TLV: record count exceeds cap ")
          else decode_loop fuel data max_records max_value_bytes offset (Some ty)
                 (out ++ [mkTLV ty value])
      else Ok out
  end.

(** Every turn consumes at least two bytes, so one turn per byte is enough. *)
Definition decode_stream (data : bytes) (max_records max_value_bytes : option Z)
    : result (list TLVRecord) :=
  decode_loop (S (length data)) data max_records max_value_bytes 0 None [].

Definition encode_stream (records : list TLVRecord) : result bytes :=
  @concat byte <$> mapR encode_record records.

(** ** Well-formed streams *)

(** Types follow each other in strictly ascending order, after [last]. *)
Definition ordered_after (last : option Z) (rs : list TLVRecord) : Prop :=
  ascending (map tlv_type rs) = true /\
  match last, rs with
  | Some l, r :: _ => l < tlv_type r
  | _, _ => True
  end.

(** The caps a decoder was given, on the records that follow [n] others. *)
Definition within_caps (mr mv : option Z) (n : nat) (rs : list TLVRecord) : Prop :=
  (forall m, mr = Some m -> rs <> [] -> Z.of_nat (n + length rs) <= m) /\
  (forall m, mv = Some m -> Forall (fun r => Z.of_nat (length (tlv_value r)) <= m) rs).

(** ** Lemmas *)

Lemma encode_record_Ok r e :
  encode_record r = Ok e <->
  exists t l, BigSize.encode (tlv_type r) = Ok t /\
    BigSize.encode (Z.of_nat (length (tlv_value r))) = Ok l /\
    e = t ++ l ++ tlv_value r.
Proof.
  unfold encode_record. split.
  - intros H. case_hyp H. inv_ok. eauto 6.
  - intros (t & l & Ht & Hl & ->).
    pose proof (encode_range _ _ Ht). destruct (Z.ltb_spec (tlv_type r) 0); [lia|].
    by rewrite Ht, Hl.
Qed.

Lemma encode_stream_nil d : encode_stream [] = Ok d <-> d = [].
Proof. unfold encode_stream; simpl. naive_solver. Qed.

Lemma encode_stream_cons r rs d :
  encode_stream (r :: rs) = Ok d <->
  exists e d', encode_record r = Ok e /\ encode_stream rs = Ok d' /\ d = e ++ d'.
Proof.
  unfold encode_stream. rewrite fmap_Ok. setoid_rewrite fmap_Ok. simpl.
  setoid_rewrite bind_Ok. setoid_rewrite bind_Ok. split.
  - intros (ls & (e & He & es & Hes & [= <-]) & <-). simpl. eauto 8.
  - intros (e & d' & He & (es & Hes & <-) & ->). exists (e :: es). eauto 8.
Qed.

Lemma encode_stream_length rs d : encode_stream rs = Ok d -> (length rs <= length d)%nat.
Proof.
  revert d. induction rs as [|r rs IH]; intros d; [lia || (simpl; lia)|].
  intros (e & d' & (t & l & Ht & _ & ->)%encode_record_Ok & Hd & ->)%encode_stream_cons.
  apply IH in Hd. apply encode_nonempty in Ht. rewrite !length_app. simpl. lia.
Qed.

Lemma ordered_after_cons last r rs :
  ordered_after last (r :: rs) <->
  match last with Some l => l < tlv_type r | None => True end /\
  ordered_after (Some (tlv_type r)) rs.
Proof.
  unfold ordered_after. cbn [map]. destruct rs as [|s rs]; cbn [map ascending].
  - destruct last; naive_solver.
  - rewrite andb_true_iff, Z.ltb_lt. destruct last; naive_solver.
Qed.

Lemma within_caps_cons mr mv n r rs :
  within_caps mr mv n (r :: rs) <->
  (forall m, mr = Some m -> Z.of_nat n < m) /\
  (forall m, mv = Some m -> Z.of_nat (length (tlv_value r)) <= m) /\
  within_caps mr mv (S n) rs.
Proof.
  unfold within_caps. simpl. setoid_rewrite Forall_cons. split.
  - intros [H1 H2]. repeat split; intros m Hm; try (specialize (H2 m Hm); naive_solver).
    + specialize (H1 m Hm). lia || (specialize (H1 ltac:(done)); lia).
    + intros _. specialize (H1 m Hm ltac:(done)). lia.
  - intros (H1 & H2 & H3 & H4). split; intros m Hm; [|naive_solver].
    intros _. specialize (H1 m Hm). destruct rs as [|s rs]; [simpl; lia|].
    specialize (H3 m Hm ltac:(done)). lia.
Qed.

(** One record read by the loop body, as a block of the buffer. *)
Lemma record_block data off ty off1 len off2 :
  BigSize.decode data off = Ok (ty, off1) ->
  BigSize.decode data off1 = Ok (len, off2) ->
  Z.of_nat off2 + len <= Z.of_nat (length data) ->
  let r := mkTLV ty (slice data off2 (off2 + Z.to_nat len)) in
  exists e, encode_record r = Ok e /\ Z.of_nat (length (tlv_value r)) = len /\
            drop off data = e ++ drop (off2 + Z.to_nat len) data.
Proof.
  intros (t & Ht & -> & Hd1 & _)%decode_sound (l & Hl & -> & Hd2 & Hle)%decode_sound Hlen r.
  pose proof (encode_range _ _ Hl) as Hr.
  set (o2 := (off + length t + length l)%nat) in *.
  assert (Z.of_nat (length (tlv_value r)) = len) as Hv.
  { subst r. cbn [tlv_value]. unfold slice. rewrite length_take, length_drop. lia. }
  exists (t ++ l ++ tlv_value r). split.
  - apply encode_record_Ok. exists t, l. rewrite Hv. done.
  - split; [done|]. rewrite Hd1, Hd2, <- !app_assoc. do 2 f_equal.
    rewrite (drop_split_at data o2 (Z.to_nat len)) at 1. f_equal.
    subst r. cbn [tlv_value]. unfold slice. by rewrite Nat.add_comm, Nat.add_sub.
Qed.

(** One turn of the loop, its guards as propositions. *)
Lemma decode_loop_step fuel data mr mv off last out res :
  (off < length data)%nat ->
  decode_loop (S fuel) data mr mv off last out = Ok res <->
  exists ty off1 len off2,
    BigSize.decode data off = Ok (ty, off1) /\ BigSize.decode data off1 = Ok (len, off2) /\
    Z.of_nat off2 + len <= Z.of_nat (length data) /\
    (forall m, mv = Some m -> len <= m) /\
    (forall m, mr = Some m -> Z.of_nat (length out) < m) /\
    (match last with Some l => l < ty | None => True end) /\
    decode_loop fuel data mr mv (off2 + Z.to_nat len) (Some ty)
      (out ++ [mkTLV ty (slice data off2 (off2 + Z.to_nat len))]) = Ok res.
Proof.
  intros Hlt. cbn [decode_loop]. apply Nat.ltb_lt in Hlt as ->.
  split.
  - intros H. apply bind_Ok in H as ([ty off1] & D1 & H).
    apply bind_Ok in H as ([len off2] & D2 & H).
    exists ty, off1, len, off2. repeat case_hyp H; simplify_eq; bool_to_prop;
      repeat split; try done; try lia.
    all: intros m Hm; subst; simpl in *; simplify_eq; bool_to_prop; lia.
  - intros (ty & off1 & len & off2 & -> & D2 & Hle & Hv & Hr & Hl & H).
    cbn [mbind result_bind]. rewrite D2. cbn [mbind result_bind].
    destruct (exceeds len mv) eqn:E.
    { destruct mv as [m|]; [|done]. specialize (Hv m eq_refl). simpl in E. bool_to_prop. lia. }
    destruct (Z.ltb_spec (Z.of_nat (length data)) (Z.of_nat off2 + len)); [lia|].
    destruct (match last with Some l => ty =? l | None => false end) eqn:E1.
    { destruct last; [|done]. bool_to_prop. lia. }
    destruct (match last with Some l => ty <? l | None => false end) eqn:E2.
    { destruct last; [|done]. bool_to_prop. lia. }
    destruct mr as [m|]; [|done]. specialize (Hr m eq_refl).
    destruct (Z.leb_spec m (Z.of_nat (length out))); [lia|done].
Qed.

Lemma decode_loop_sound fuel data mr mv off last out res :
  (off <= length data)%nat ->
  decode_loop fuel data mr mv off last out = Ok res ->
  exists rs, res = out ++ rs /\ encode_stream rs = Ok (drop off data) /\
             ordered_after last rs /\ within_caps mr mv (length out) rs.
Proof.
  revert off last out. induction fuel as [|fuel IH]; intros off last out Hoff H; [done|].
  destruct (Nat.lt_ge_cases off (length data)) as [Hlt|Hge].
  - apply decode_loop_step in H as (ty & off1 & len & off2 & D1 & D2 & Hle & Hv & Hr & Hl & H); [|done].
    destruct (record_block _ _ _ _ _ _ D1 D2 Hle) as (e & He & Hlen & Hd).
    apply IH in H as (rs & -> & Hrs & Hord & Hcap).
    + eexists (_ :: rs). rewrite <- app_assoc. split; [done|].
      rewrite length_app, Nat.add_1_r in Hcap.
      rewrite encode_stream_cons, ordered_after_cons, within_caps_cons, Hlen. eauto 10.
    + apply decode_sound in D2 as (l & Hl2 & _). pose proof (encode_range _ _ Hl2). lia.
  - cbn [decode_loop] in H. destruct (Nat.ltb_spec off (length data)); [lia|].
    injection H as <-. exists []. rewrite app_nil_r, drop_ge by done.
    repeat split; try done. by destruct last.
Qed.

Lemma decode_loop_complete fuel data mr mv off last out rs :
  (length rs < fuel)%nat -> (off <= length data)%nat ->
  encode_stream rs = Ok (drop off data) ->
  ordered_after last rs -> within_caps mr mv (length out) rs ->
  decode_loop fuel data mr mv off last out = Ok (out ++ rs).
Proof.
  revert off last out rs.
  induction fuel as [|fuel IH]; intros off last out rs Hf Hoff Henc Hord Hcap; [lia|].
  destruct rs as [|r rs].
  - apply encode_stream_nil in Henc. cbn [decode_loop].
    apply (f_equal length) in Henc. rewrite length_drop in Henc. simpl in Henc.
    destruct (Nat.ltb_spec off (length data)); [lia|]. by rewrite app_nil_r.
  - apply encode_stream_cons in Henc as (e & d & He & Hd & Hdrop).
    apply encode_record_Ok in He as (t & l & Ht & Hl & ->).
    apply ordered_after_cons in Hord as [Hlast Hord].
    apply within_caps_cons in Hcap as (Hr & Hv & Hcap).
    assert (length data - off = length t + length l + length (tlv_value r) + length d)%nat as HL
      by (rewrite <- length_drop, Hdrop, !length_app; lia).
    pose proof (encode_nonempty _ _ Ht).
    apply decode_loop_step; [lia|].
    exists (tlv_type r), (off + length t)%nat, (Z.of_nat (length (tlv_value r))),
      (off + length t + length l)%nat.
    rewrite Nat2Z.id.
    assert (drop (off + length t) data = l ++ tlv_value r ++ d) as D1
      by (rewrite <- drop_drop, Hdrop, <- !app_assoc; apply drop_app_at).
    assert (drop (off + length t + length l) data = tlv_value r ++ d) as D2
      by (rewrite <- drop_drop, D1; apply drop_app_at).
    split; [|split]; [| |split; [lia|split; [done|split; [done|split; [done|]]]]].
    + apply decode_at; [done|]. by rewrite D1, Hdrop, <- !app_assoc.
    + apply decode_at; [done|]. by rewrite D1, D2.
    + replace (slice data _ _) with (tlv_value r).
      * destruct r as [ty v]. cbn [tlv_type tlv_value] in *.
        rewrite (IH _ _ _ rs); [by rewrite <- app_assoc|simpl in Hf; lia|lia| |done|].
        -- rewrite <- drop_drop, D2, drop_app_at. done.
        -- by rewrite length_app, Nat.add_1_r.
      * unfold slice. rewrite D2.
        replace (_ + length (tlv_value r) - _)%nat with (length (tlv_value r)) by lia.
        by rewrite take_app_at.
Qed.

Lemma decode_stream_iff data mr mv rs :
  decode_stream data mr mv = Ok rs <->
  encode_stream rs = Ok data /\ ascending (map tlv_type rs) = true /\ within_caps mr mv 0 rs.
Proof.
  unfold decode_stream. split.
  - intros H. apply decode_loop_sound in H as (rs' & -> & ? & [? _] & ?); [done|lia].
  - intros (He & Ha & Hc). apply (decode_loop_complete _ _ _ _ _ _ []); try done.
    + apply encode_stream_length in He. lia.
    + lia.
Qed.

(** The loop never runs out of turns: it stops by itself. *)
Lemma bigsize_decode_fuel data off : BigSize.decode data off <> Err OutOfFuel.
Proof. unfold BigSize.decode. repeat case_match; done. Qed.

Lemma decode_loop_fuel fuel data mr mv off last out :
  (length data - off < fuel)%nat ->
  decode_loop fuel data mr mv off last out <> Err OutOfFuel.
Proof.
  revert off last out. induction fuel as [|fuel IH]; intros off last out Hf H; [lia|].
  cbn [decode_loop] in H. destruct (Nat.ltb_spec off (length data)) as [Hlt|]; [|done].
  apply bind_Err in H as [H|([ty off1] & D1 & H)]; [by apply bigsize_decode_fuel in H|].
  apply bind_Err in H as [H|([len off2] & D2 & H)]; [by apply bigsize_decode_fuel in H|].
  apply decode_sound in D1 as (t & Ht & -> & _). apply encode_nonempty in Ht.
  apply decode_sound in D2 as (l & Hl & -> & _).
  repeat case_hyp H; (eapply IH; [|exact H]; lia).
Qed.

(** ** Properties *)

(** C25. [decode_stream] accepts exactly the streams [encode_stream] produces
    from records in strictly ascending type order that respect the caps, and
    returns those records: decoding inverts encoding, every accepted byte
    string is the canonical encoding of its records, and types never repeat
    or go backwards. It always stops, with records or a decode error. *)
Theorem decode_stream_correct data mr mv :
  decode_stream data mr mv <> Err OutOfFuel /\
  forall rs, decode_stream data mr mv = Ok rs <->
    encode_stream rs = Ok data /\ ascending (map tlv_type rs) = true /\ within_caps mr mv 0 rs.
Proof.
  split; [apply decode_loop_fuel; lia|]. intros rs. apply decode_stream_iff.
Qed.
