(* ===== verification/Sha256.v ===== *)
(** * SHA-256 and HMAC-SHA-256 (Python's [hashlib] and [hmac])

    The hash the source takes from the Python standard library, executable,
    so that Merkle roots and audit chains evaluate on concrete inputs. The
    round constants are computed from their definition: the first 32
    fractional bits of the cube (square) roots of the first primes. *)
From S2P Require Import Prelude Bytes.

(** ** Constants *)

(** Integer root: the largest [r] with [r ^ k <= n], bit by bit from [2^b]. *)
Fixpoint root_search (k n : Z) (b : nat) (r : Z) : Z :=
  let r' := r + 2 ^ Z.of_nat b in
  let r := if r' ^ k <=? n then r' else r in
  match b with O => r | S b => root_search k n b r end.

(** Primes below [n], by trial division. *)
Definition is_prime (p : Z) : bool :=
  (2 <=? p) && forallb (fun d => negb (p mod d =? 0)) (seqZ 2 (p - 2)).

Definition primes_below (n : Z) : list Z := List.filter is_prime (seqZ 0 n).

Definition round_constants : list Z := Eval vm_compute in
  map (fun p => root_search 3 (p * 2 ^ 96) 36 0 mod 2 ^ 32) (primes_below 312).

Definition initial_words : list Z := Eval vm_compute in
  map (fun p => root_search 2 (p * 2 ^ 64) 36 0 mod 2 ^ 32) (primes_below 20).

(** ** 32-bit words *)

Definition w32 (x : Z) : Z := Z.land x 0xFFFFFFFF.
Definition add32 (x y : Z) : Z := w32 (x + y).
Definition rotr (n x : Z) : Z := w32 (Z.lor (Z.shiftr x n) (Z.shiftl x (32 - n))).
Definition not32 (x : Z) : Z := Z.lxor x 0xFFFFFFFF.

Definition big_sigma0 (x : Z) : Z := Z.lxor (rotr 2 x) (Z.lxor (rotr 13 x) (rotr 22 x)).
Definition big_sigma1 (x : Z) : Z := Z.lxor (rotr 6 x) (Z.lxor (rotr 11 x) (rotr 25 x)).
Definition small_sigma0 (x : Z) : Z := Z.lxor (rotr 7 x) (Z.lxor (rotr 18 x) (Z.shiftr x 3)).
Definition small_sigma1 (x : Z) : Z := Z.lxor (rotr 17 x) (Z.lxor (rotr 19 x) (Z.shiftr x 10)).
Definition choose (x y z : Z) : Z := Z.lxor (Z.land x y) (Z.land (not32 x) z).
Definition majority (x y z : Z) : Z :=
  Z.lxor (Z.land x y) (Z.lxor (Z.land x z) (Z.land y z)).

(** ** Compression *)

Record digest_state := mkDigest {
  da : Z; db : Z; dc : Z; dd : Z; de : Z; df : Z; dg : Z; dh : Z }.

Definition initial_state : digest_state :=
  let h i := nth i initial_words 0 in
  mkDigest (h 0%nat) (h 1%nat) (h 2%nat) (h 3%nat) (h 4%nat) (h 5%nat) (h 6%nat) (h 7%nat).

(** The message schedule, built newest word first. *)
Fixpoint extend_schedule (n : nat) (rev_w : list Z) : list Z :=
  match n with
  | O => rev_w
  | S n =>
      let w i := nth i rev_w 0 in
      let next := add32 (add32 (small_sigma1 (w 1%nat)) (w 6%nat))
                        (add32 (small_sigma0 (w 14%nat)) (w 15%nat)) in
      extend_schedule n (next :: rev_w)
  end.

Definition round (s : digest_state) (kw : Z * Z) : digest_state :=
  let t1 := add32 (add32 (dh s) (big_sigma1 (de s)))
                  (add32 (choose (de s) (df s) (dg s)) (add32 (fst kw) (snd kw))) in
  let t2 := add32 (big_sigma0 (da s)) (majority (da s) (db s) (dc s)) in
  mkDigest (add32 t1 t2) (da s) (db s) (dc s) (add32 (dd s) t1) (de s) (df s) (dg s).

Definition compress (s : digest_state) (block : list Z) : digest_state :=
  let w := List.rev (extend_schedule 48 (List.rev block)) in
  let r := foldl round s (zip round_constants w) in
  mkDigest (add32 (da s) (da r)) (add32 (db s) (db r)) (add32 (dc s) (dc r))
           (add32 (dd s) (dd r)) (add32 (de s) (de r)) (add32 (df s) (df r))
           (add32 (dg s) (dg r)) (add32 (dh s) (dh r)).

(** Big-endian words of four bytes. *)
Fixpoint be_words (data : bytes) : list Z :=
  match data with
  | a :: b :: c :: d :: rest => from_be [a; b; c; d] :: be_words rest
  | _ => []
  end.

Fixpoint compress_all (fuel : nat) (s : digest_state) (words : list Z) : digest_state :=
  match fuel, words with
  | S fuel, _ :: _ => compress_all fuel (compress s (take 16 words)) (drop 16 words)
  | _, _ => s
  end.

Definition pad (msg : bytes) : bytes :=
  let n := Z.of_nat (length msg) in
  msg ++ x80 :: replicate (Z.to_nat ((55 - n) mod 64)) x00 ++ be_bytes 8 (8 * n).

(** [hashlib.sha256(data).digest()] *)
Definition sha256 (data : bytes) : bytes :=
  let words := be_words (pad data) in
  let s := compress_all (length words) initial_state words in
  concat (map (be_bytes 4) [da s; db s; dc s; dd s; de s; df s; dg s; dh s]).

(** [hmac.new(key, msg, hashlib.sha256).digest()] *)
Definition hmac_sha256 (key msg : bytes) : bytes :=
  let key := if (64 <? length key)%nat then sha256 key else key in
  let key := key ++ replicate (64 - length key) x00 in
  let mask v := map (fun b => z2b (Z.lxor (b2z b) v)) key in
  sha256 (mask 0x5c ++ sha256 (mask 0x36 ++ msg)).

(** ** Facts *)

Lemma length_sha256 data : length (sha256 data) = 32%nat.
Proof. unfold sha256. cbn [map concat]. by rewrite !length_app, !length_be_bytes. Qed.

Lemma length_hmac key msg : length (hmac_sha256 key msg) = 32%nat.
Proof. apply length_sha256. Qed.

Arguments sha256 : simpl never.
Arguments hmac_sha256 : simpl never.

(** The digests of FIPS 180-4's one- and two-block messages and of the
    first HMAC vector of RFC 4231. *)
Definition ascii_bytes (s : string) : bytes := String.list_byte_of_string s.

Example sha256_abc :
  hex (sha256 (ascii_bytes "abc")) =
  "ba7816bf8f01cfea414140de5dae2223b00361a396177a9cb410ff61f20015ad"%string.
Proof. vm_compute. reflexivity. Qed.

Example sha256_two_blocks :
  hex (sha256 (ascii_bytes "abcdbcdecdefdefgefghfghighijhijkijkljklmklmnlmnomnopnopq")) =
  "248d6a61d20638b8e5c026930c3e6039a33ce45964ff2167f6ecedd419db06c1"%string.
Proof. vm_compute. reflexivity. Qed.

Example hmac_rfc4231 :
  hex (hmac_sha256 (replicate 20 x0b) (ascii_bytes "Hi There")) =
  "b0344c61d8db38535ca8afceaf0bf12b881dc200c9833da726e9376c2e32cff7"%string.
Proof. vm_compute. reflexivity. Qed.
