(* ===== verification/Blake2b.v ===== *)
(** * BLAKE2b, unkeyed, with a chosen digest size

    [hashlib.blake2b(data, digest_size=n).digest()] (RFC 7693), which the
    hop bodies use to derive stable nonces. Words are integers below 2^64.
    The examples are digests of the Python implementation. *)
From S2P Require Import Prelude Bytes Sha256.

Definition w64 (x : Z) : Z := Z.land x 0xFFFFFFFFFFFFFFFF.
Definition rotr64 (n x : Z) : Z := w64 (Z.lor (Z.shiftr x n) (Z.shiftl x (64 - n))).

(** Fractional parts of the square roots of the first eight primes. *)
Definition blake_iv : list Z := Eval vm_compute in
  map (fun p => Z.sqrt (p * 2 ^ 128) mod 2 ^ 64) (take 8 (primes_below 20)).

Definition blake_sigma : list (list nat) :=
  [ [0;1;2;3;4;5;6;7;8;9;10;11;12;13;14;15]; [14;10;4;8;9;15;13;6;1;12;0;2;11;7;5;3];
    [11;8;12;0;5;2;15;13;10;14;3;6;7;1;9;4]; [7;9;3;1;13;12;11;14;2;6;5;10;4;0;15;8];
    [9;0;5;7;2;4;10;15;14;1;11;12;6;8;3;13]; [2;12;6;10;0;11;8;3;4;13;7;5;15;14;1;9];
    [12;5;1;15;14;13;4;10;0;7;6;3;9;2;8;11]; [13;11;7;14;12;1;3;9;5;0;15;4;8;6;2;10];
    [6;15;14;9;11;3;0;8;12;2;13;7;1;4;10;5]; [10;2;8;4;7;6;1;5;15;11;9;14;3;12;13;0];
    [0;1;2;3;4;5;6;7;8;9;10;11;12;13;14;15]; [14;10;4;8;9;15;13;6;1;12;0;2;11;7;5;3] ]%nat.

Definition word (v : list Z) (i : nat) : Z := nth i v 0.

Definition blake_mix (v : list Z) (a b c d : nat) (x y : Z) : list Z :=
  let va := w64 (word v a + word v b + x) in
  let vd := rotr64 32 (Z.lxor (word v d) va) in
  let vc := w64 (word v c + vd) in
  let vb := rotr64 24 (Z.lxor (word v b) vc) in
  let va := w64 (va + vb + y) in
  let vd := rotr64 16 (Z.lxor vd va) in
  let vc := w64 (vc + vd) in
  let vb := rotr64 63 (Z.lxor vb vc) in
  <[a := va]> (<[b := vb]> (<[c := vc]> (<[d := vd]> v))).

Definition blake_round (m : list Z) (v : list Z) (s : list nat) : list Z :=
  let at_ i := word m (nth i s 0%nat) in
  let v := blake_mix v 0 4 8 12 (at_ 0%nat) (at_ 1%nat) in
  let v := blake_mix v 1 5 9 13 (at_ 2%nat) (at_ 3%nat) in
  let v := blake_mix v 2 6 10 14 (at_ 4%nat) (at_ 5%nat) in
  let v := blake_mix v 3 7 11 15 (at_ 6%nat) (at_ 7%nat) in
  let v := blake_mix v 0 5 10 15 (at_ 8%nat) (at_ 9%nat) in
  let v := blake_mix v 1 6 11 12 (at_ 10%nat) (at_ 11%nat) in
  let v := blake_mix v 2 7 8 13 (at_ 12%nat) (at_ 13%nat) in
  blake_mix v 3 4 9 14 (at_ 14%nat) (at_ 15%nat).

Definition blake_compress (h m : list Z) (t : Z) (last : bool) : list Z :=
  let v := h ++ blake_iv in
  let v := <[12%nat := Z.lxor (word v 12) (w64 t)]> v in
  let v := <[13%nat := Z.lxor (word v 13) (Z.shiftr t 64)]> v in
  let v := if last then <[14%nat := Z.lxor (word v 14) 0xFFFFFFFFFFFFFFFF]> v else v in
  let v := foldl (blake_round m) v blake_sigma in
  imap (fun i x => Z.lxor x (Z.lxor (word v i) (word v (i + 8)))) h.

(** Little-endian words of a 128-byte block *)
Definition le_words (block : bytes) : list Z :=
  map (fun i => from_be (reverse (slice block (8 * i) (8 * i + 8)))) (seq 0 16).

Definition zero_pad (n : nat) (b : bytes) : bytes := b ++ replicate (n - length b) x00.

Fixpoint blake_blocks (fuel : nat) (h : list Z) (t : Z) (data : bytes) : list Z :=
  match fuel with
  | O => h
  | S fuel =>
      if (length data <=? 128)%nat
      then blake_compress h (le_words (zero_pad 128 data)) (t + Z.of_nat (length data)) true
      else blake_blocks fuel (blake_compress h (le_words (take 128 data)) (t + 128) false) (t + 128) (drop 128 data)
  end.

Definition blake2b (digest_size : nat) (data : bytes) : bytes :=
  let h := match blake_iv with
           | h0 :: rest => Z.lxor h0 (Z.lxor 0x01010000 (Z.of_nat digest_size)) :: rest
           | [] => []
           end in
  let h := blake_blocks (S (length data)) h 0 data in
  take digest_size (concat (map (fun w => reverse (be_bytes 8 w)) h)).

Example blake2b_abc : hex (blake2b 16 (ascii_bytes "abc")) = "cf4ab791c62b8d2b2109c90275287816".
Proof. vm_compute. reflexivity. Qed.

Example blake2b_two_blocks :
  hex (blake2b 16 (map z2b (seqZ 0 200))) = "61479efa6267fea757b3f881e2979bbc".
Proof. vm_compute. reflexivity. Qed.


Lemma length_compress h m t last : length (blake_compress h m t last) = length h.
Proof. unfold blake_compress. apply length_imap. Qed.

Lemma length_blake2b n data : (n <= 64)%nat -> length (blake2b n data) = n.
Proof.
  intros Hn. unfold blake2b. rewrite length_take.
  assert (Hb : forall fuel h t d, length (blake_blocks fuel h t d) = length h).
  { induction fuel as [|fuel IH]; intros h t d; cbn [blake_blocks]; [done|].
    destruct (length d <=? 128)%nat; rewrite ?IH, ?length_compress; done. }
  assert (Hw : forall l, length (concat (map (fun w => reverse (be_bytes 8 w)) l)) = (8 * length l)%nat).
  { induction l as [|w l IH]; cbn [map concat length]; [done|]. rewrite length_app, length_reverse, length_be_bytes, IH. lia. }
  rewrite Hw, Hb. cbn [length blake_iv]. lia.
Qed.
