(* ===== verification/Bech32.v ===== *)
(** * bech32 without checksum (app/services/bolt12/bech32_nochk.py)

    A Python [str] is a list of [ascii], that is of code points below 256:
    the alphabet, the separator and the whitespace all are, and [str.lower]
    is written out on that range. The 5-bit/8-bit regroupings keep the
    source's unbounded accumulator. *)
From S2P Require Import Prelude Bytes.

Abbreviation pystr := (list ascii).

Definition str (s : string) : pystr := String.list_ascii_of_string s.

Definition ord (c : ascii) : Z := Z.of_N (N_of_ascii c).
Definition chr (z : Z) : ascii := ascii_of_N (Z.to_N z).

(** [c.lower()] on code points below 256. *)
Definition lower_char (c : ascii) : ascii :=
  let z := ord c in
  if (65 <=? z) && (z <=? 90) then chr (z + 32)
  else if (192 <=? z) && (z <=? 222) && negb (z =? 215) then chr (z + 32)
  else c.

(** ** Alphabet *)

Definition _CHARSET : pystr := str "qpzry9x8gf2tvdw0s3jn54khce6mua7l".

Fixpoint index_of (c : ascii) (l : pystr) (i : Z) : option Z :=
  match l with
  | [] => None
  | d :: l => if bool_decide (c = d) then Some i else index_of c l (i + 1)
  end.

(** [_CHARSET_REV.get(c)] *)
Definition _CHARSET_REV (c : ascii) : option Z := index_of c _CHARSET 0.

Definition KNOWN_HRPS : list pystr := [str "lno"; str "lnr"; str "lni"].

Definition _WHITESPACE : pystr := [chr 32; chr 9; chr 13; chr 10].

Definition _MAX_INPUT_LEN : Z := 8192.

Definition is_ws (c : ascii) : bool := bool_decide (c ∈ _WHITESPACE).

(** ** Operations *)

(** [while j < n and s[j] in _WHITESPACE: j += 1] *)
Fixpoint skip_ws (s : pystr) : pystr :=
  match s with
  | c :: s' => if is_ws c then skip_ws s' else s
  | [] => []
  end.

(** The scan of [_strip_continuations], on the rest of the input. *)
Fixpoint strip_loop (fuel : nat) (out s : pystr) : result pystr :=
  match fuel with
  | O => Err OutOfFuel
  | S fuel =>
      match s with
      | [] => Ok out
      | c :: s =>
          if bool_decide (c = "+"%char) then
            if bool_decide (out = []) then Err (Bolt12FormatError "bech32: leading '+'")
            else match skip_ws s with
                 | [] => Err (Bolt12FormatError "bech32: trailing '+'")
                 | (d :: _) as rest =>
                     if bool_decide (d = "+"%char) || is_ws d
                     then Err (Bolt12FormatError "bech32: '+' not followed by data char")
                     else strip_loop fuel out rest
                 end
          else if is_ws c then Err (Bolt12FormatError "bech32: stray whitespace")
          else strip_loop fuel (out ++ [c]) s
      end
  end.

Definition _strip_continuations (s : pystr) : result pystr :=
  strip_loop (S (length s)) [] s.

(** [while bits >= 8: bits -= 8; out.append((acc >> bits) & 0xFF)] *)
Fixpoint drain8 (fuel : nat) (acc bits : Z) (out : bytes) : Z * bytes :=
  match fuel with
  | O => (bits, out)
  | S fuel =>
      if 8 <=? bits
      then drain8 fuel acc (bits - 8) (out ++ [z2b (Z.shiftr acc (bits - 8))])
      else (bits, out)
  end.

Fixpoint convert_5_loop (data5 : list Z) (acc bits : Z) (out : bytes)
    : result (Z * Z * bytes) :=
  match data5 with
  | [] => Ok (acc, bits, out)
  | v :: data5 =>
      if (v <? 0) || (32 <=? v) then Err (Bolt12FormatError "bech32: 5-bit value out of range")
      else
        let acc := Z.lor (Z.shiftl acc 5) v in
        let '(bits, out) := drain8 (Z.to_nat (bits + 5)) acc (bits + 5) out in
        convert_5_loop data5 acc bits out
  end.

Definition _convert_5_to_8 (data5 : list Z) : result bytes :=
  '(acc, bits, out) ← convert_5_loop data5 0 0 [];
  if 5 <=? bits then Err (Bolt12FormatError "bech32: excess bits after decoding")
  else if (0 <? bits) && negb (Z.land acc (Z.shiftl 1 bits - 1) =? 0)
  then Err (Bolt12FormatError "bech32: non-zero padding bits")
  else Ok out.

(** [while bits >= 5: bits -= 5; out.append((acc >> bits) & 0x1F)] *)
Fixpoint drain5 (fuel : nat) (acc bits : Z) (out : list Z) : Z * list Z :=
  match fuel with
  | O => (bits, out)
  | S fuel =>
      if 5 <=? bits
      then drain5 fuel acc (bits - 5) (out ++ [Z.land (Z.shiftr acc (bits - 5)) 0x1F])
      else (bits, out)
  end.

Fixpoint convert_8_loop (data : bytes) (acc bits : Z) (out : list Z) : Z * Z * list Z :=
  match data with
  | [] => (acc, bits, out)
  | b :: data =>
      let acc := Z.lor (Z.shiftl acc 8) (b2z b) in
      let '(bits, out) := drain5 (Z.to_nat (bits + 8)) acc (bits + 8) out in
      convert_8_loop data acc bits out
  end.

Definition _convert_8_to_5 (data : bytes) : list Z :=
  let '(acc, bits, out) := convert_8_loop data 0 0 [] in
  if 0 <? bits then out ++ [Z.land (Z.shiftl acc (5 - bits)) 0x1F] else out.

(** [s.rfind(c)], the index of the last occurrence; [None] for [-1]. *)
Fixpoint rfind (c : ascii) (s : pystr) : option nat :=
  match s with
  | [] => None
  | d :: s =>
      match rfind c s with
      | Some i => Some (S i)
      | None => if bool_decide (d = c) then Some O else None
      end
  end.

Definition has_lower (s : pystr) : bool :=
  existsb (fun c => (97 <=? ord c) && (ord c <=? 122)) s.
Definition has_upper (s : pystr) : bool :=
  existsb (fun c => (65 <=? ord c) && (ord c <=? 90)) s.

Definition char_value (c : ascii) : result Z :=
  match _CHARSET_REV c with
  | Some v => Ok v
  | None => Err (Bolt12FormatError "bech32: invalid data char ")
  end.

Definition decode (s : pystr) : result (pystr * bytes) :=
  if bool_decide (s = []) then Err (Bolt12FormatError "bech32: empty string")
  else if _MAX_INPUT_LEN <? Z.of_nat (length s) then Err (Bolt12FormatError "bech32: input too long (")
  else if has_lower s && has_upper s then Err (Bolt12FormatError "bech32: mixed case")
  else
    normalised ← _strip_continuations (map lower_char s);
    match rfind "1"%char normalised with
    | None | Some O => Err (Bolt12FormatError "bech32: missing or misplaced separator '1'")
    | Some sep =>
        let hrp := take sep normalised in
        let data_part := drop (S sep) normalised in
        if negb (bool_decide (hrp ∈ KNOWN_HRPS)) then Err (Bolt12FormatError "bech32: unknown HRP ")
        else if bool_decide (data_part = []) then Err (Bolt12FormatError "bech32: empty data part")
        else
          data5 ← mapR char_value data_part;
          payload ← _convert_5_to_8 data5;
          Ok (hrp, payload)
    end.

(** [_CHARSET[v]]; the values come from [_convert_8_to_5] and are in range. *)
Definition charset_at (v : Z) : ascii := nth (Z.to_nat v) _CHARSET "q"%char.

Definition encode (hrp : pystr) (payload : bytes) : result pystr :=
  if negb (bool_decide (hrp ∈ KNOWN_HRPS)) then Err (Bolt12FormatError "bech32: unknown HRP ")
  else Ok (hrp ++ str "1" ++ map charset_at (_convert_8_to_5 payload)).

(** ** Regrouping: the accumulator as one big number *)

Lemma lor_shiftl_add a v k :
  0 <= k -> 0 <= v < 2 ^ k -> Z.lor (Z.shiftl a k) v = a * 2 ^ k + v.
Proof.
  intros Hk Hv. rewrite <- Z.shiftl_mul_pow2 by done.
  rewrite <- Z.lxor_lor, <- Z.add_nocarry_lxor; [done| |].
  all: apply Z.bits_inj'; intros i Hi; rewrite Z.land_spec, Z.bits_0.
  all: destruct (Z.lt_ge_cases i k); [by rewrite Z.shiftl_spec_low|].
  all: replace v with (v mod 2 ^ k) by (apply Z.mod_small; lia).
  all: by rewrite Z.mod_pow2_bits_high, andb_false_r by lia.
Qed.

Lemma land_31 z : Z.land z 0x1F = z mod 32.
Proof. change 0x1F with (Z.ones 5). by rewrite Z.land_ones by lia. Qed.

Definition is_group (v : Z) : Prop := 0 <= v < 32.

(** Base-32 numerals, most significant group first. *)
Definition unb32 (l : list Z) : Z := foldl (fun acc v => acc * 32 + v) 0 l.

Fixpoint b32 (n : nat) (z : Z) : list Z :=
  match n with
  | O => []
  | S n => b32 n (z / 32) ++ [z mod 32]
  end.

Lemma unb32_snoc l v : unb32 (l ++ [v]) = unb32 l * 32 + v.
Proof. unfold unb32. by rewrite foldl_snoc. Qed.

Lemma pow32_S n : 32 ^ Z.of_nat (S n) = 32 * 32 ^ Z.of_nat n.
Proof. rewrite Nat2Z.inj_succ, Z.pow_succ_r; lia. Qed.

Lemma unb32_range l : Forall is_group l -> 0 <= unb32 l < 32 ^ Z.of_nat (length l).
Proof.
  induction l as [|v l IH] using rev_ind; [done|].
  intros [Hl Hv]%Forall_app. apply Forall_inv in Hv. unfold is_group in Hv.
  rewrite unb32_snoc, length_app, Nat.add_1_r, pow32_S. specialize (IH Hl). lia.
Qed.

Lemma length_b32 n z : length (b32 n z) = n.
Proof. revert z. induction n; intros z; simpl; rewrite ?length_app, ?IHn; simpl; lia. Qed.

Lemma b32_groups n z : Forall is_group (b32 n z).
Proof.
  revert z. induction n as [|n IH]; intros z; simpl; [done|].
  apply Forall_app. split; [done|]. constructor; [|done].
  apply Z.mod_pos_bound. lia.
Qed.

Lemma unb32_b32 n z : 0 <= z < 32 ^ Z.of_nat n -> unb32 (b32 n z) = z.
Proof.
  revert z. induction n as [|n IH]; intros z Hz; [simpl in *; unfold unb32; simpl; lia|].
  rewrite pow32_S in Hz. simpl. rewrite unb32_snoc, IH.
  - pose proof (Z.div_mod z 32). lia.
  - split; [apply Z.div_pos; lia|]. apply Z.div_lt_upper_bound; lia.
Qed.

Lemma b32_unb32 l : Forall is_group l -> b32 (length l) (unb32 l) = l.
Proof.
  induction l as [|v l IH] using rev_ind; [done|].
  intros [Hl Hv]%Forall_app. apply Forall_inv in Hv. unfold is_group in Hv.
  rewrite unb32_snoc, length_app, Nat.add_1_r. simpl.
  rewrite Z.div_add_l, Z.div_small, Z.add_0_r, (IH Hl) by lia.
  by rewrite Z.add_comm, Z_mod_plus_full, Z.mod_small by lia.
Qed.

(** Dividing a shifted number by a larger power drops what was shifted in. *)
Lemma div_shift a v s r :
  0 <= s -> 0 <= r -> 0 <= v < 2 ^ s -> (a * 2 ^ s + v) / 2 ^ (r + s) = a / 2 ^ r.
Proof.
  intros Hs Hr Hv. rewrite Z.pow_add_r, (Z.mul_comm (2 ^ r)) by lia.
  rewrite <- Z.div_div by lia. by rewrite Z.div_add_l, (Z.div_small v), Z.add_0_r by lia.
Qed.

Lemma be_bytes_S m z r :
  0 <= r -> be_bytes m (z / 2 ^ (r + 8)) ++ [z2b (Z.shiftr z r)] = be_bytes (S m) (z / 2 ^ r).
Proof.
  intros Hr. simpl. rewrite Z.shiftr_div_pow2 by done. f_equal.
  rewrite Z.div_div by lia. by rewrite Z.pow_add_r by lia.
Qed.

Lemma b32_S m z r :
  0 <= r -> b32 m (z / 2 ^ (r + 5)) ++ [Z.land (Z.shiftr z r) 0x1F] = b32 (S m) (z / 2 ^ r).
Proof.
  intros Hr. rewrite land_31. simpl. rewrite Z.shiftr_div_pow2 by done. f_equal.
  rewrite Z.div_div by lia. by rewrite Z.pow_add_r by lia.
Qed.

(** The state after [k] groups: [5 k mod 8] bits pending, the rest out. *)
Definition bits5 (k : nat) : Z := 5 * Z.of_nat k mod 8.
Definition out5 (l : list Z) : bytes :=
  be_bytes (Z.to_nat (5 * Z.of_nat (length l) / 8)) (unb32 l / 2 ^ bits5 (length l)).

Lemma convert_5_step l v :
  is_group v ->
  drain8 (Z.to_nat (bits5 (length l) + 5)) (unb32 (l ++ [v])) (bits5 (length l) + 5) (out5 l) =
  (bits5 (length (l ++ [v])), out5 (l ++ [v])).
Proof.
  intros Hv. unfold out5. rewrite length_app, Nat.add_1_r.
  set (k := length l). assert (0 <= bits5 k < 8) as Hb by (apply Z.mod_pos_bound; lia).
  assert (unb32 (l ++ [v]) / 2 ^ (bits5 k + 5) = unb32 l / 2 ^ bits5 k) as Hdiv
    by (rewrite unb32_snoc; apply (div_shift _ _ 5); [lia|lia|exact Hv]).
  assert (exists fuel, Z.to_nat (bits5 k + 5) = S (S fuel)) as [fuel ->]
    by (exists (Z.to_nat (bits5 k + 3)); lia).
  cbn [drain8]. destruct (Z.leb_spec 8 (bits5 k + 5)).
  - destruct (Z.leb_spec 8 (bits5 k + 5 - 8)); [lia|].
    assert (bits5 (S k) = bits5 k + 5 - 8) as Hs by (unfold bits5 in *; dlia).
    rewrite <- Hs in *. f_equal. rewrite <- Hdiv.
    replace (bits5 k + 5) with (bits5 (S k) + 8) by lia.
    rewrite be_bytes_S by lia. f_equal. unfold bits5 in *. dlia.
  - assert (bits5 (S k) = bits5 k + 5) as -> by (unfold bits5 in *; dlia).
    f_equal. rewrite Hdiv. f_equal. unfold bits5 in *. dlia.
Qed.

Lemma convert_5_loop_spec l pre :
  Forall is_group l ->
  convert_5_loop l (unb32 pre) (bits5 (length pre)) (out5 pre) =
  Ok (unb32 (pre ++ l), bits5 (length (pre ++ l)), out5 (pre ++ l)).
Proof.
  revert pre. induction l as [|v l IH]; intros pre Hl; [by rewrite app_nil_r|].
  apply Forall_cons in Hl as [Hv Hl]. cbn [convert_5_loop].
  destruct ((v <? 0) || (32 <=? v)) eqn:Hbad.
  { unfold is_group in Hv. apply orb_prop in Hbad as []; bool_to_prop; lia. }
  rewrite (lor_shiftl_add _ v 5) by (unfold is_group in Hv; lia).
  change (2 ^ 5) with 32. rewrite <- unb32_snoc, convert_5_step by done.
  rewrite IH by done. by rewrite <- app_assoc.
Qed.

Lemma convert_5_start l :
  Forall is_group l -> convert_5_loop l 0 0 [] = Ok (unb32 l, bits5 (length l), out5 l).
Proof. apply (convert_5_loop_spec l []). Qed.

Lemma convert_5_loop_groups l acc bits out r :
  convert_5_loop l acc bits out = Ok r -> Forall is_group l.
Proof.
  revert acc bits out. induction l as [|v l IH]; intros acc bits out H; [done|].
  cbn [convert_5_loop] in H. destruct ((v <? 0) || (32 <=? v)) eqn:E; [done|].
  destruct (drain8 _ _ _ _) as [bits' out']. bool_to_prop.
  constructor; [unfold is_group; lia|eauto].
Qed.

(** What [_convert_5_to_8] accepts and returns. *)
Lemma convert_5_to_8_Ok l data :
  _convert_5_to_8 l = Ok data <->
  Forall is_group l /\ bits5 (length l) < 5 /\ unb32 l mod 2 ^ bits5 (length l) = 0 /\
  data = out5 l.
Proof.
  unfold _convert_5_to_8.
  assert (0 <= bits5 (length l) < 8) as Hb by (apply Z.mod_pos_bound; lia).
  assert (forall z, Z.land z (Z.shiftl 1 (bits5 (length l)) - 1) = z mod 2 ^ bits5 (length l))
    as Hland.
  { intros z. by rewrite <- Z.land_ones by lia. }
  split.
  - intros H. apply bind_Ok in H as ([[acc bits] out] & H1 & H).
    pose proof (convert_5_loop_groups _ _ _ _ _ H1) as Hg.
    rewrite convert_5_start in H1 by done. injection H1 as <- <- <-. rewrite Hland in H.
    destruct (Z.leb_spec 5 (bits5 (length l))); [done|].
    destruct (Z.ltb_spec 0 (bits5 (length l))); simpl in H.
    + destruct (Z.eqb_spec (unb32 l mod 2 ^ bits5 (length l)) 0); [|done].
      injection H as <-. done.
    + injection H as <-. split; [done|]. split; [lia|]. split; [|done].
      replace (bits5 (length l)) with 0 by lia. apply Z.mod_1_r.
  - intros (Hg & Hlt & Hz & ->).
    rewrite (convert_5_start l Hg). cbn [mbind result_bind]. rewrite Hland, Hz.
    destruct (Z.leb_spec 5 (bits5 (length l))); [lia|].
    by rewrite andb_false_r.
Qed.

(** The state after [n] bytes: [8 n mod 5] bits pending. *)
Definition bits8 (n : nat) : Z := 8 * Z.of_nat n mod 5.
Definition out8 (d : bytes) : list Z :=
  b32 (Z.to_nat (8 * Z.of_nat (length d) / 5)) (from_be d / 2 ^ bits8 (length d)).

Lemma convert_8_step d b :
  drain5 (Z.to_nat (bits8 (length d) + 8)) (from_be (d ++ [b])) (bits8 (length d) + 8) (out8 d) =
  (bits8 (length (d ++ [b])), out8 (d ++ [b])).
Proof.
  unfold out8. rewrite length_app, Nat.add_1_r.
  set (n := length d). assert (0 <= bits8 n < 5) as Hb by (apply Z.mod_pos_bound; lia).
  assert (from_be (d ++ [b]) / 2 ^ (bits8 n + 8) = from_be d / 2 ^ bits8 n) as Hdiv
    by (rewrite from_be_snoc; apply (div_shift _ _ 8); [lia|lia|apply b2z_range]).
  assert (exists fuel, Z.to_nat (bits8 n + 8) = S (S (S fuel))) as [fuel ->]
    by (exists (Z.to_nat (bits8 n + 5)); lia).
  cbn [drain5]. destruct (Z.leb_spec 5 (bits8 n + 8)); [|lia].
  rewrite <- Hdiv.
  assert (forall m z, b32 m (z / 2 ^ (bits8 n + 8)) ++ [Z.land (Z.shiftr z (bits8 n + 8 - 5)) 31]
                      = b32 (S m) (z / 2 ^ (bits8 n + 8 - 5))) as ->
    by (intros; rewrite <- b32_S by lia; do 4 f_equal; lia).
  destruct (Z.leb_spec 5 (bits8 n + 8 - 5)).
  - destruct (Z.leb_spec 5 (bits8 n + 8 - 5 - 5)); [lia|].
    assert (bits8 (S n) = bits8 n + 8 - 5 - 5) as Hs by (unfold bits8 in *; dlia).
    rewrite <- Hs. f_equal.
    replace (bits8 n + 8 - 5) with (bits8 (S n) + 5) by lia.
    rewrite b32_S by lia. f_equal. unfold bits8 in *. dlia.
  - assert (bits8 (S n) = bits8 n + 8 - 5) as -> by (unfold bits8 in *; dlia).
    f_equal. f_equal. unfold bits8 in *. dlia.
Qed.

Lemma convert_8_loop_spec d pre :
  convert_8_loop d (from_be pre) (bits8 (length pre)) (out8 pre) =
  (from_be (pre ++ d), bits8 (length (pre ++ d)), out8 (pre ++ d)).
Proof.
  revert pre. induction d as [|b d IH]; intros pre; [by rewrite app_nil_r|].
  cbn [convert_8_loop]. rewrite (lor_shiftl_add _ (b2z b) 8) by (try lia; apply b2z_range).
  change (2 ^ 8) with 256. rewrite <- from_be_snoc, convert_8_step.
  rewrite IH. by rewrite <- app_assoc.
Qed.

Lemma convert_8_start d :
  convert_8_loop d 0 0 [] = (from_be d, bits8 (length d), out8 d).
Proof. apply (convert_8_loop_spec d []). Qed.

(** The number of groups for [n] bytes and the padding bits in the last. *)
Definition groups (n : nat) : nat := Z.to_nat ((8 * Z.of_nat n + 4) / 5).
Definition padding (n : nat) : Z := 5 * Z.of_nat (groups n) - 8 * Z.of_nat n.

Lemma padding_range n : 0 <= padding n < 5.
Proof. unfold padding, groups. dlia. Qed.

Lemma convert_8_to_5_spec d :
  _convert_8_to_5 d = b32 (groups (length d)) (from_be d * 2 ^ padding (length d)).
Proof.
  unfold _convert_8_to_5. rewrite convert_8_start. unfold out8. set (n := length d).
  assert (0 <= bits8 n < 5) as Hb by (apply Z.mod_pos_bound; lia).
  destruct (Z.ltb_spec 0 (bits8 n)).
  - assert (padding n = 5 - bits8 n) as -> by (unfold padding, groups, bits8 in *; dlia).
    assert (groups n = S (Z.to_nat (8 * Z.of_nat n / 5))) as ->
      by (unfold groups, bits8 in *; dlia).
    cbn [b32]. rewrite land_31, Z.shiftl_mul_pow2 by lia. f_equal. f_equal.
    replace 32 with (2 ^ (5 - bits8 n) * 2 ^ bits8 n)
      by (rewrite <- Z.pow_add_r by lia; replace (5 - bits8 n + bits8 n) with 5 by lia; done).
    rewrite (Z.mul_comm (from_be d)).
    by rewrite Z.div_mul_cancel_l by (apply Z.pow_nonzero; lia).
  - assert (padding n = 0) as -> by (unfold padding, groups, bits8 in *; dlia).
    replace (bits8 n) with 0 by lia. rewrite Z.div_1_r, Z.mul_1_r. f_equal.
    unfold groups, bits8 in *. dlia.
Qed.

Lemma pow_bits n m : 2 ^ (8 * Z.of_nat n) = 256 ^ Z.of_nat n /\ 2 ^ (5 * Z.of_nat m) = 32 ^ Z.of_nat m.
Proof. by rewrite !Z.pow_mul_r by lia. Qed.

(** Regrouping to 5 bits and back is the identity on bytes... *)
Lemma convert_8_5_8 d : _convert_5_to_8 (_convert_8_to_5 d) = Ok d.
Proof.
  pose proof (padding_range (length d)) as Hp. rewrite convert_8_to_5_spec.
  set (n := length d) in *.
  assert (bits5 (groups n) = padding n) as Hbits by (unfold bits5, padding, groups in *; dlia).
  assert (0 <= from_be d * 2 ^ padding n < 32 ^ Z.of_nat (groups n)) as Hr.
  { pose proof (from_be_range d) as Hd. fold n in Hd.
    destruct (pow_bits n (groups n)) as [H1 H2]. rewrite <- H2.
    replace (5 * Z.of_nat (groups n)) with (8 * Z.of_nat n + padding n) by (unfold padding; lia).
    rewrite Z.pow_add_r, H1 by lia. nia. }
  apply convert_5_to_8_Ok. rewrite length_b32, Hbits, unb32_b32 by done.
  repeat split; [apply b32_groups|lia|apply Z.mod_mul; apply Z.pow_nonzero; lia|].
  unfold out5. rewrite length_b32, Hbits, unb32_b32 by done.
  rewrite Z.div_mul by (apply Z.pow_nonzero; lia).
  replace (Z.to_nat _) with n by (unfold padding, groups in *; dlia).
  symmetry. apply be_bytes_from_be.
Qed.

(** ... and on every group sequence the decoder accepts. *)
Lemma convert_5_8_5 l d : _convert_5_to_8 l = Ok d -> _convert_8_to_5 d = l.
Proof.
  intros (Hg & Hlt & Hz & ->)%convert_5_to_8_Ok. rewrite convert_8_to_5_spec.
  unfold out5. rewrite length_be_bytes.
  set (k := length l) in *. set (m := Z.to_nat (5 * Z.of_nat k / 8)).
  assert (0 <= bits5 k < 8) as Hb by (apply Z.mod_pos_bound; lia).
  assert (groups m = k) as Hk by (unfold groups, m, bits5 in *; dlia).
  assert (padding m = bits5 k) as -> by (unfold padding; rewrite Hk; unfold m, bits5 in *; dlia).
  rewrite from_be_be_bytes.
  - rewrite Hk. replace (unb32 l / 2 ^ bits5 k * 2 ^ bits5 k) with (unb32 l).
    + by apply b32_unb32.
    + pose proof (Z.div_mod (unb32 l) (2 ^ bits5 k) ltac:(apply Z.pow_nonzero; lia)). lia.
  - pose proof (unb32_range l Hg) as Hr. fold k in Hr. destruct (pow_bits m k) as [H1 H2].
    rewrite <- H2 in Hr.
    replace (5 * Z.of_nat k) with (8 * Z.of_nat m + bits5 k) in Hr by (unfold m, bits5 in *; dlia).
    rewrite Z.pow_add_r, H1 in Hr by lia.
    split; [apply Z.div_pos; lia|]. apply Z.div_lt_upper_bound; lia.
Qed.

Lemma convert_8_to_5_groups d : Forall is_group (_convert_8_to_5 d).
Proof. rewrite convert_8_to_5_spec. apply b32_groups. Qed.

Lemma convert_8_to_5_nil d : _convert_8_to_5 d = [] <-> d = [].
Proof.
  split; [|by intros ->]. rewrite convert_8_to_5_spec. intros H%(f_equal length).
  rewrite length_b32 in H. simpl in H. apply length_zero_iff_nil. unfold groups in H. dlia.
Qed.

(** ** Characters *)

Lemma char_value_at v : is_group v -> char_value (charset_at v) = Ok v.
Proof.
  intros Hv.
  assert (forallb (fun v => bool_decide (char_value (charset_at v) = Ok v)) (seqZ 0 32) = true)
    as HF by (vm_compute; reflexivity).
  rewrite List.forallb_forall in HF.
  assert (In v (seqZ 0 32)) as Hin by (apply list_elem_of_In, elem_of_seqZ; unfold is_group in Hv; lia).
  specialize (HF v Hin). by bool_to_prop.
Qed.

Lemma index_of_Some c l i j :
  index_of c l i = Some j ->
  i <= j < i + Z.of_nat (length l) /\ forall d, nth (Z.to_nat (j - i)) l d = c.
Proof.
  revert i. induction l as [|x l IH]; intros i H; [done|]. simpl in H.
  case_bool_decide; [injection H as <-; subst x|].
  - split; [simpl; lia|]. intros d. by rewrite Z.sub_diag.
  - apply IH in H as [Hr Hn]. split; [simpl; lia|]. intros d.
    replace (Z.to_nat (j - i)) with (S (Z.to_nat (j - (i + 1)))) by lia. apply Hn.
Qed.

Lemma char_value_Ok c v : char_value c = Ok v -> charset_at v = c /\ is_group v.
Proof.
  unfold char_value, _CHARSET_REV. intros H. destruct (index_of _ _ _) eqn:E; [|done].
  injection H as ->. apply index_of_Some in E as [Hr Hn].
  change (length _CHARSET) with 32%nat in Hr.
  split; [unfold charset_at; rewrite <- (Z.sub_0_r v); apply Hn|unfold is_group; lia].
Qed.

Lemma mapR_char_value l : Forall is_group l -> mapR char_value (map charset_at l) = Ok l.
Proof.
  intros Hl. apply mapR_Ok. induction Hl as [|v l Hv _ IH]; constructor; [|done].
  by apply char_value_at.
Qed.

Lemma mapR_char_value_inv s l :
  mapR char_value s = Ok l -> map charset_at l = s /\ Forall is_group l.
Proof.
  intros H%mapR_Ok. induction H as [|c v s l Hc _ [IH1 IH2]]; [done|].
  apply char_value_Ok in Hc as [<- Hv]. simpl. rewrite IH1. auto.
Qed.

(** [c.upper()] on ASCII letters. *)
Definition upper_char (c : ascii) : ascii :=
  if (97 <=? ord c) && (ord c <=? 122) then chr (ord c - 32) else c.

(** What the decoder needs of a character of an encoded string. *)
Definition plain_char (c : ascii) : bool :=
  bool_decide (lower_char c = c) && bool_decide (lower_char (upper_char c) = c) &&
  negb (is_ws c) && negb (bool_decide (c = "+"%char)) &&
  negb ((65 <=? ord c) && (ord c <=? 90)) &&
  negb ((97 <=? ord (upper_char c)) && (ord (upper_char c) <=? 122)).

Lemma plain_char_spec c :
  plain_char c = true ->
  lower_char c = c /\ lower_char (upper_char c) = c /\ is_ws c = false /\ c <> "+"%char /\
  (65 <=? ord c) && (ord c <=? 90) = false /\
  (97 <=? ord (upper_char c)) && (ord (upper_char c) <=? 122) = false.
Proof.
  unfold plain_char. intros H.
  repeat match goal with
    | H : (_ && _)%bool = true |- _ => apply andb_prop in H; destruct H
    | H : negb _ = true |- _ => apply negb_true_iff in H
    | H : bool_decide _ = true |- _ => apply bool_decide_eq_true in H
    | H : bool_decide _ = false |- _ => apply bool_decide_eq_false in H
    end.
  done.
Qed.

Lemma charset_plain v : is_group v -> plain_char (charset_at v) = true /\ charset_at v <> "1"%char.
Proof.
  intros Hv.
  assert (forallb (fun v => plain_char (charset_at v) && negb (bool_decide (charset_at v = "1"%char)))
            (seqZ 0 32) = true) as HF by (vm_compute; reflexivity).
  rewrite List.forallb_forall in HF.
  assert (In v (seqZ 0 32)) as Hin by (apply list_elem_of_In, elem_of_seqZ; unfold is_group in Hv; lia).
  specialize (HF v Hin). by bool_to_prop.
Qed.

Lemma known_hrp_plain hrp :
  hrp ∈ KNOWN_HRPS -> forallb plain_char hrp = true /\ length hrp = 3%nat.
Proof.
  unfold KNOWN_HRPS. rewrite !elem_of_cons, elem_of_nil.
  intros [->|[->|[->|[]]]]; split; vm_compute; reflexivity.
Qed.

Lemma encode_Ok hrp p n :
  encode hrp p = Ok n <->
  hrp ∈ KNOWN_HRPS /\ n = hrp ++ "1"%char :: map charset_at (_convert_8_to_5 p).
Proof.
  unfold encode. destruct (bool_decide _) eqn:E; bool_to_prop; simpl; naive_solver.
Qed.

Lemma encode_plain hrp p n : encode hrp p = Ok n -> forallb plain_char n = true.
Proof.
  intros [[Hh _]%known_hrp_plain ->]%encode_Ok.
  rewrite forallb_app, Hh. cbn [forallb]. change (plain_char "1"%char) with true. simpl.
  apply List.forallb_forall. intros c (v & <- & Hv)%in_map_iff.
  pose proof (convert_8_to_5_groups p) as Hg. rewrite List.Forall_forall in Hg.
  by apply charset_plain, Hg.
Qed.

(** ** Continuations and the separator *)

Lemma strip_loop_plain fuel out s rest :
  forallb plain_char s = true ->
  strip_loop (length s + fuel) out (s ++ rest) = strip_loop fuel (out ++ s) rest.
Proof.
  revert out. induction s as [|c s IH]; intros out H; [by rewrite app_nil_r|].
  cbn [forallb] in H. apply andb_prop in H as [Hc Hs].
  apply plain_char_spec in Hc as (_ & _ & Hw & Hp & _).
  cbn [length Nat.add app strip_loop].
  rewrite bool_decide_eq_false_2, Hw by done. rewrite IH by done. by rewrite <- app_assoc.
Qed.

Lemma strip_plain s : forallb plain_char s = true -> _strip_continuations s = Ok s.
Proof.
  intros H. unfold _strip_continuations.
  pose proof (strip_loop_plain 1 [] s [] H) as E. by rewrite Nat.add_1_r, app_nil_r in E.
Qed.

Lemma skip_ws_app ws s : forallb is_ws ws = true ->
  skip_ws (ws ++ s) = skip_ws s.
Proof.
  induction ws as [|c ws IH]; [done|]. cbn [forallb app skip_ws]. intros H.
  bool_to_prop. rewrite H. auto.
Qed.

Lemma strip_continued a ws b :
  a <> [] -> b <> [] -> forallb plain_char a = true -> forallb plain_char b = true ->
  forallb is_ws ws = true ->
  _strip_continuations (a ++ "+"%char :: ws ++ b) = Ok (a ++ b).
Proof.
  intros Ha Hb Pa Pb Hws. unfold _strip_continuations.
  replace (S (length (a ++ _))) with (length a + S (length b + S (length ws)))%nat
    by (rewrite !length_app; simpl; rewrite length_app; lia).
  rewrite strip_loop_plain by done. cbn [strip_loop app].
  rewrite bool_decide_eq_true_2 by done.
  rewrite bool_decide_eq_false_2 by done. rewrite skip_ws_app by done.
  destruct b as [|c b]; [done|]. pose proof Pb as Pb'. cbn [forallb] in Pb'.
  apply andb_prop in Pb' as [Hc _]. apply plain_char_spec in Hc as (_ & _ & Hw & Hp & _).
  cbn [skip_ws]. rewrite Hw, bool_decide_eq_false_2, Hw by done. cbn [orb].
  pose proof (strip_loop_plain (S (length ws)) a (c :: b) [] Pb) as E.
  by rewrite app_nil_r in E.
Qed.

Lemma rfind_None c s : rfind c s = None <-> c ∉ s.
Proof.
  induction s as [|d s IH]; simpl.
  - split; [intros _; apply not_elem_of_nil|done].
  - rewrite not_elem_of_cons. destruct (rfind c s) as [i|].
    + split; [done|]. intros [_ H]. by apply IH in H.
    + case_bool_decide; naive_solver.
Qed.

Lemma rfind_last c a b : c ∉ b -> rfind c (a ++ c :: b) = Some (length a).
Proof.
  intros Hb%rfind_None. induction a as [|d a IH]; simpl.
  - by rewrite Hb, bool_decide_eq_true_2.
  - by rewrite IH.
Qed.

Lemma rfind_Some c s i :
  rfind c s = Some i -> s = take i s ++ c :: drop (S i) s.
Proof.
  revert i. induction s as [|d s IH]; intros i H; [done|]. simpl in H.
  destruct (rfind c s) as [j|].
  - injection H as <-. simpl. f_equal. by apply IH.
  - case_bool_decide; [|done]. injection H as <-. by subst.
Qed.

Lemma decode_iff s hrp p :
  decode s = Ok (hrp, p) <->
  s <> [] /\ Z.of_nat (length s) <= _MAX_INPUT_LEN /\ has_lower s && has_upper s = false /\
  p <> [] /\ exists n, _strip_continuations (map lower_char s) = Ok n /\ encode hrp p = Ok n.
Proof.
  unfold decode. split.
  - intros H. case_bool_decide; [done|].
    destruct (Z.ltb_spec _MAX_INPUT_LEN (Z.of_nat (length s))); [done|].
    destruct (has_lower s && has_upper s) eqn:Hc; [done|].
    apply bind_Ok in H as (n & Hn & H).
    destruct (rfind _ n) as [[|i]|] eqn:Hf; try done. apply rfind_Some in Hf.
    case_bool_decide as Hk; [|done]. cbn [negb] in H. case_bool_decide as Hd; [done|].
    apply bind_Ok in H as (d5 & H5 & H). apply bind_Ok in H as (pl & H8 & H).
    injection H as <- <-. apply mapR_char_value_inv in H5 as [H5 _].
    apply convert_5_8_5 in H8. subst d5.
    repeat split; try done.
    + intros ->. apply Hd. by rewrite <- H5.
    + exists n. split; [done|]. apply encode_Ok. split; [done|]. by rewrite H5.
  - intros (Hs & Hlen & Hc & Hp & n & Hn & He).
    rewrite bool_decide_eq_false_2 by done.
    destruct (Z.ltb_spec _MAX_INPUT_LEN (Z.of_nat (length s))); [lia|].
    rewrite Hc, Hn. cbn [mbind result_bind]. apply encode_Ok in He as [Hk ->].
    destruct (known_hrp_plain _ Hk) as [_ Hl].
    pose proof (convert_8_to_5_groups p) as Hg.
    rewrite rfind_last, Hl.
    2: { intros (v & Hv & Hin)%list_elem_of_fmap. rewrite Forall_forall in Hg.
         by eapply charset_plain; [apply Hg|]. }
    rewrite <- Hl, take_app_at, bool_decide_eq_true_2 by done. cbn [negb].
    rewrite cons_middle, app_assoc.
    replace (S (length hrp)) with (length (hrp ++ ["1"%char])) by (rewrite length_app; simpl; lia).
    rewrite drop_app_at, bool_decide_eq_false_2.
    + rewrite mapR_char_value by done. cbn [mbind result_bind]. by rewrite convert_8_5_8.
    + intros E%map_eq_nil. by apply convert_8_to_5_nil in E.
Qed.

(** ** Properties *)

Lemma lower_plain s : forallb plain_char s = true -> map lower_char s = s.
Proof.
  induction s as [|c s IH]; [done|]. cbn [forallb map]. intros [Hc Hs]%andb_prop.
  apply plain_char_spec in Hc as (-> & _). by rewrite IH.
Qed.

Lemma lower_upper_plain s :
  forallb plain_char s = true -> map lower_char (map upper_char s) = s.
Proof.
  induction s as [|c s IH]; [done|]. cbn [forallb map]. intros [Hc Hs]%andb_prop.
  apply plain_char_spec in Hc as (_ & -> & _). by rewrite IH.
Qed.

Lemma plain_case s :
  forallb plain_char s = true -> has_upper s = false /\ has_lower (map upper_char s) = false.
Proof.
  induction s as [|c s IH]; [done|]. cbn [forallb]. intros [Hc Hs]%andb_prop.
  apply plain_char_spec in Hc as (_ & _ & _ & _ & Hu & Hl).
  unfold has_upper, has_lower in *. cbn [existsb map]. rewrite Hu, Hl. by apply IH.
Qed.

(** ASCII whitespace is neither upper case nor changed by [lower]. *)
Lemma ws_case ws :
  forallb is_ws ws = true -> map lower_char ws = ws /\ has_upper ws = false.
Proof.
  induction ws as [|c ws IH]; [done|]. cbn [forallb]. intros [Hc Hs]%andb_prop.
  destruct (IH Hs) as [E1 E2]. unfold has_upper in *. cbn [map existsb]. rewrite E1, E2.
  unfold is_ws, _WHITESPACE in Hc. apply bool_decide_eq_true in Hc.
  repeat (apply elem_of_cons in Hc as [->|Hc]; [by vm_compute|]).
  by apply not_elem_of_nil in Hc.
Qed.

(** A bech32 string decodes to [(hrp, payload)] exactly when it is
    non-empty, at most 8192 characters, not of mixed case, and, lower-cased
    and with its [+] continuations removed, equal to the encoding of a
    non-empty [payload] under [hrp]. In particular no two payloads share a
    string and non-zero padding, unknown prefixes and stray characters are
    all refused. *)
Theorem bech32_decode_iff s hrp payload :
  decode s = Ok (hrp, payload) <->
  s <> [] /\ Z.of_nat (length s) <= _MAX_INPUT_LEN /\ has_lower s && has_upper s = false /\
  payload <> [] /\
  exists n, _strip_continuations (map lower_char s) = Ok n /\ encode hrp payload = Ok n.
Proof. apply decode_iff. Qed.

(** The three forms in which a payload travels all decode to it: the
    encoded string itself, its upper-case form (QR codes), and the string
    broken anywhere by a [+] with any run of whitespace after it. *)
Theorem bech32_transport_forms hrp payload n a b ws :
  encode hrp payload = Ok n -> payload <> [] ->
  n = a ++ b -> a <> [] -> b <> [] -> forallb is_ws ws = true ->
  Z.of_nat (length n + 1 + length ws) <= _MAX_INPUT_LEN ->
  decode n = Ok (hrp, payload) /\
  decode (map upper_char n) = Ok (hrp, payload) /\
  decode (a ++ "+"%char :: ws ++ b) = Ok (hrp, payload).
Proof.
  intros He Hp Hn Ha Hb Hws Hlen.
  pose proof (encode_plain _ _ _ He) as HP. destruct (plain_case _ HP) as [Hup Hlo].
  assert (n <> []) as Hne by (subst n; by destruct a).
  repeat split; apply decode_iff; rewrite ?length_map.
  - rewrite Hup, andb_false_r, lower_plain by done.
    split; [done|]. split; [lia|]. eauto 6 using strip_plain.
  - rewrite Hlo, lower_upper_plain by done.
    split; [by destruct n|]. split; [lia|]. eauto 6 using strip_plain.
  - rewrite Hn, forallb_app in HP. apply andb_prop in HP as [Pa Pb].
    destruct (ws_case _ Hws) as [Hwl Hwu], (plain_case _ Pa) as [Hua _], (plain_case _ Pb) as [Hub _].
    split; [by destruct a|]. rewrite length_app. cbn [length].
    rewrite length_app. rewrite Hn, length_app in Hlen. split; [lia|].
    split.
    { unfold has_upper in *. rewrite existsb_app. cbn [existsb]. rewrite existsb_app.
      rewrite Hua, Hub, Hwu. change (ord "+"%char) with 43. by rewrite andb_false_r. }
    split; [done|]. exists n. split; [|done].
    rewrite map_app. cbn [map]. rewrite map_app, Hwl, !lower_plain by done.
    change (lower_char "+"%char) with "+"%char. rewrite Hn. by apply strip_continued.
Qed.

Lemma bech32_transport_forms_witness :
  encode (str "lno") [x01; x02] = Ok (str "lno1qypq") /\
  decode (str "LNO1QYPQ") = Ok (str "lno", [x01; x02]) /\
  decode (str "lno1q+" ++ [chr 10; chr 32] ++ str "ypq") = Ok (str "lno", [x01; x02]).
Proof.
  split; [vm_compute; reflexivity|].
  apply (bech32_transport_forms (str "lno") [x01; x02] (str "lno1qypq")
           (str "lno1q") (str "ypq") [chr 10; chr 32]);
    vm_compute; try reflexivity; discriminate.
Defined.
