(* ===== verification/Checksum.v ===== *)
(** * The bech32 checksum

    [_bech32_polymod], [_bech32_hrp_expand] and [_convertbits] of
    core/validation.py; core/bech32_lnurl.py has the same three functions
    under its own names. The checksum state is a 30-bit number and a step is
    linear over exclusive or, so six groups can always be chosen to reach any
    constant, in exactly one way, and an error confined to six neighbouring
    groups changes the result. *)
From S2P Require Import Prelude Bytes Bech32.

Definition GEN : list Z := [0x3B6A57B2; 0x26508E6D; 0x1EA119FA; 0x3D4233DD; 0x2A1462B3].

(** [for i in range(5): chk ^= gen[i] if ((b >> i) & 1) else 0] *)
Fixpoint feed (gen : list Z) (b chk : Z) : Z :=
  match gen with
  | [] => chk
  | g :: gen => feed gen (Z.shiftr b 1) (Z.lxor chk (if Z.land b 1 =? 0 then 0 else g))
  end.

Definition polymod_step (chk v : Z) : Z :=
  let b := Z.shiftr chk 25 in
  feed GEN b (Z.lxor (Z.shiftl (Z.land chk 0x1FFFFFF) 5) v).

Definition _bech32_polymod (values : list Z) : Z := foldl polymod_step 1 values.

Definition _bech32_hrp_expand (hrp : pystr) : list Z :=
  map (fun x => Z.shiftr (ord x) 5) hrp ++ [0] ++ map (fun x => Z.land (ord x) 31) hrp.

(** [while bits >= tobits: bits -= tobits; ret.append((acc >> bits) & maxv)] *)
Fixpoint drain (fuel : nat) (tobits acc bits : Z) (ret : list Z) : Z * list Z :=
  match fuel with
  | O => (bits, ret)
  | S fuel =>
      if tobits <=? bits
      then drain fuel tobits acc (bits - tobits)
             (ret ++ [Z.land (Z.shiftr acc (bits - tobits)) (Z.shiftl 1 tobits - 1)])
      else (bits, ret)
  end.

Fixpoint convert_loop (frombits tobits : Z) (data : list Z) (acc bits : Z) (ret : list Z)
    : option (Z * Z * list Z) :=
  match data with
  | [] => Some (acc, bits, ret)
  | value :: data =>
      if (value <? 0) || negb (Z.shiftr value frombits =? 0) then None
      else
        let acc := Z.lor (Z.shiftl acc frombits) value in
        let '(bits, ret) := drain (Z.to_nat (bits + frombits)) tobits acc (bits + frombits) ret in
        convert_loop frombits tobits data acc bits ret
  end.

Definition _convertbits (data : list Z) (frombits tobits : Z) (pad : bool) : option (list Z) :=
  '(acc, bits, ret) ← convert_loop frombits tobits data 0 0 [];
  let maxv := Z.shiftl 1 tobits - 1 in
  if pad then
    Some (if bits =? 0 then ret else ret ++ [Z.land (Z.shiftl acc (tobits - bits)) maxv])
  else if (frombits <=? bits) || negb (Z.land (Z.shiftl acc (tobits - bits)) maxv =? 0) then None
  else Some ret.

(** ** Regrouping to bytes *)

(** To bytes without padding it is the conversion of the BOLT 12 decoder. *)
Lemma drain_bytes fuel acc bits out :
  drain fuel 8 acc bits (map b2z out) = let '(bits, out) := drain8 fuel acc bits out in (bits, map b2z out).
Proof.
  revert bits out. induction fuel as [|fuel IH]; intros bits out; simpl; [done|].
  case_match; [|done]. rewrite <- IH, map_app. simpl. do 3 f_equal.
  change (Z.shiftl 1 8 - 1) with (Z.ones 8). by rewrite Z.land_ones, b2z_z2b by lia.
Qed.

Lemma group_test v : (v <? 0) || negb (Z.shiftr v 5 =? 0) = (v <? 0) || (32 <=? v).
Proof.
  destruct (Z.ltb_spec v 0) as [H|H]; [done|]. simpl. rewrite Z.shiftr_div_pow2 by lia. change (2 ^ 5) with 32.
  destruct (Z.leb_spec 32 v); destruct (Z.eqb_spec (v / 32) 0); simpl; try done; exfalso.
  - pose proof (Z.div_le_mono 32 v 32 ltac:(lia) ltac:(lia)) as Hd. rewrite Z.div_same in Hd; lia.
  - rewrite Z.div_small in n; lia.
Qed.

Lemma convert_loop_bytes l : forall acc bits out,
  convert_loop 5 8 l acc bits (map b2z out) =
  match convert_5_loop l acc bits out with Ok (acc, bits, out) => Some (acc, bits, map b2z out) | Err _ => None end.
Proof.
  induction l as [|v l IH]; intros acc bits out; cbn [convert_loop convert_5_loop]; [done|].
  rewrite group_test. destruct ((v <? 0) || (32 <=? v)); [done|]. cbv zeta. rewrite drain_bytes.
  destruct (drain8 _ _ _ out) as [bits' out']. apply IH.
Qed.

Lemma convertbits_5_8 l :
  _convertbits l 5 8 false = match _convert_5_to_8 l with Ok d => Some (map b2z d) | Err _ => None end.
Proof.
  unfold _convertbits, _convert_5_to_8.
  change (convert_loop 5 8 l 0 0 []) with (convert_loop 5 8 l 0 0 (map b2z [])). rewrite convert_loop_bytes.
  destruct (convert_5_loop l 0 0 []) as [[[acc bits] out]|e] eqn:E; [|done].
  pose proof (convert_5_loop_groups _ _ _ _ _ E) as Hg. rewrite convert_5_start in E by done. injection E as <- <- <-.
  assert (0 <= bits5 (length l) < 8) as Hb by (apply Z.mod_pos_bound; lia). set (b := bits5 (length l)) in *.
  simpl. destruct (Z.leb_spec 5 b); [done|]. simpl.
  change (Z.shiftl 1 8 - 1) with (Z.ones 8). rewrite Z.land_ones, Z.shiftl_mul_pow2 by lia.
  replace (2 ^ 8) with (2 ^ b * 2 ^ (8 - b)) by (rewrite <- Z.pow_add_r by lia; f_equal; lia).
  pose proof (Z.pow_pos_nonneg 2 (8 - b) ltac:(lia) ltac:(lia)). pose proof (Z.pow_pos_nonneg 2 b ltac:(lia) ltac:(lia)).
  rewrite Z.mul_mod_distr_r by lia.
  replace (Z.land (unb32 l) (Z.shiftl 1 b - 1)) with (unb32 l mod 2 ^ b) by (rewrite <- Z.land_ones by lia; done).
  destruct (Z.eqb_spec (unb32 l mod 2 ^ b) 0) as [->|Hn]; [by rewrite andb_false_r|].
  destruct (Z.eqb_spec (unb32 l mod 2 ^ b * 2 ^ (8 - b)) 0); [nia|].
  destruct (Z.ltb_spec 0 b); [done|]. replace b with 0 in Hn by lia. by rewrite Z.mod_1_r in Hn.
Qed.

(** ** The step is linear *)

Lemma feed_xor gen : forall b chk d, feed gen b (Z.lxor chk d) = Z.lxor (feed gen b chk) d.
Proof.
  induction gen as [|g gen IH]; intros b chk d; simpl; [done|]. rewrite <- IH. f_equal.
  rewrite !Z.lxor_assoc. f_equal. apply Z.lxor_comm.
Qed.

Lemma feed_split gen b chk : feed gen b chk = Z.lxor (feed gen b 0) chk.
Proof. by rewrite <- feed_xor, Z.lxor_0_l. Qed.

Lemma land_1 b : Z.land b 1 = Z.b2z (Z.testbit b 0).
Proof. change 1 with (Z.ones 1). by rewrite Z.land_ones, Z.bit0_mod by lia. Qed.

Lemma feed_linear gen : forall a b, feed gen (Z.lxor a b) 0 = Z.lxor (feed gen a 0) (feed gen b 0).
Proof.
  induction gen as [|g gen IH]; intros a b; simpl; [done|].
  rewrite !(feed_split gen _ (Z.lxor 0 _)), Z.shiftr_lxor, IH, !Z.lxor_0_l, !land_1, Z.lxor_spec.
  set (x := feed gen (Z.shiftr a 1) 0). set (y := feed gen (Z.shiftr b 1) 0).
  destruct (Z.testbit a 0), (Z.testbit b 0); simpl; rewrite ?Z.lxor_0_r, ?Z.lxor_assoc; try done.
  - rewrite (Z.lxor_comm g), Z.lxor_assoc, Z.lxor_nilpotent. by rewrite Z.lxor_0_r.
  - f_equal. apply Z.lxor_comm.
Qed.

Definition mask (chk : Z) : Z := Z.shiftl (Z.land chk 0x1FFFFFF) 5.

Lemma step_eq chk v : polymod_step chk v = Z.lxor (feed GEN (Z.shiftr chk 25) 0) (Z.lxor (mask chk) v).
Proof. unfold polymod_step. by rewrite feed_split. Qed.

Lemma mask_linear a b : mask (Z.lxor a b) = Z.lxor (mask a) (mask b).
Proof.
  unfold mask. rewrite <- Z.shiftl_lxor. f_equal. apply Z.bits_inj'. intros i Hi.
  rewrite !Z.lxor_spec, !Z.land_spec, Z.lxor_spec. by destruct (Z.testbit a i), (Z.testbit b i), (Z.testbit 0x1FFFFFF i).
Qed.

Lemma step_linear a b v w : polymod_step (Z.lxor a b) (Z.lxor v w) = Z.lxor (polymod_step a v) (polymod_step b w).
Proof.
  rewrite !step_eq, Z.shiftr_lxor, feed_linear, mask_linear.
  set (p := feed GEN (Z.shiftr a 25) 0). set (q := feed GEN (Z.shiftr b 25) 0).
  apply Z.bits_inj'. intros i Hi. rewrite !Z.lxor_spec.
  by destruct (Z.testbit p i), (Z.testbit q i), (Z.testbit (mask a) i), (Z.testbit (mask b) i), (Z.testbit v i), (Z.testbit w i).
Qed.

Lemma fold_linear vs : forall ws a b, length vs = length ws ->
  foldl polymod_step (Z.lxor a b) (zip_with Z.lxor vs ws) =
  Z.lxor (foldl polymod_step a vs) (foldl polymod_step b ws).
Proof.
  induction vs as [|v vs IH]; intros [|w ws] a b H; simpl in *; try done. rewrite step_linear. apply IH. lia.
Qed.

(** ** The state is a 30-bit number *)

Definition is_state (z : Z) : Prop := 0 <= z < 2 ^ 30.

Lemma bit_above n x i : 0 <= n <= i -> 0 <= x < 2 ^ n -> Z.testbit x i = false.
Proof. intros Hi Hx. rewrite <- (Z.mod_small x (2 ^ n)) by lia. apply Z.mod_pow2_bits_high. lia. Qed.

Lemma lxor_range n a b : 0 <= n -> 0 <= a < 2 ^ n -> 0 <= b < 2 ^ n -> 0 <= Z.lxor a b < 2 ^ n.
Proof.
  intros Hn Ha Hb. split; [apply Z.lxor_nonneg; lia|].
  assert (E : Z.lxor a b = Z.lxor a b mod 2 ^ n); [|rewrite E; apply Z.mod_pos_bound; lia].
  apply Z.bits_inj'. intros i Hi. destruct (Z.lt_ge_cases i n); [by rewrite Z.mod_pow2_bits_low|].
  rewrite Z.mod_pow2_bits_high, Z.lxor_spec by lia. by rewrite !(bit_above n) by lia.
Qed.

(** The 32 values the top bits can add: no two agree modulo 32. *)
Lemma feed_table b : 0 <= b < 32 ->
  is_state (feed GEN b 0) /\ (feed GEN b 0 mod 32 = 0 -> b = 0).
Proof.
  intros Hb.
  assert (H : forallb (fun b => bool_decide (0 <= feed GEN b 0 < 2 ^ 30) &&
    ((b =? 0) || negb (feed GEN b 0 mod 32 =? 0))) (seqZ 0 32) = true) by (vm_compute; reflexivity).
  rewrite List.forallb_forall in H. specialize (H b ltac:(apply list_elem_of_In, elem_of_seqZ; lia)).
  apply andb_prop in H as [H1%bool_decide_eq_true H2]. split; [done|]. intros E. rewrite E in H2. simpl in H2. lia.
Qed.

Lemma top_range z : is_state z -> 0 <= Z.shiftr z 25 < 32.
Proof.
  unfold is_state. intros H. rewrite Z.shiftr_div_pow2 by lia.
  split; [apply Z.div_pos; lia|apply Z.div_lt_upper_bound; lia].
Qed.

Lemma mask_mod z : mask z = (z mod 2 ^ 25) * 32.
Proof. unfold mask. change 0x1FFFFFF with (Z.ones 25). by rewrite Z.land_ones, Z.shiftl_mul_pow2 by lia. Qed.

Lemma mask_range z : is_state (mask z).
Proof. rewrite mask_mod. pose proof (Z.mod_pos_bound z (2 ^ 25) ltac:(lia)). unfold is_state. lia. Qed.

Lemma step_range chk v : is_state chk -> is_group v -> is_state (polymod_step chk v).
Proof.
  intros Hc Hv. rewrite step_eq. pose proof (mask_range chk).
  apply lxor_range; [lia|by apply feed_table, top_range|]. apply lxor_range; [lia|done|]. unfold is_group in Hv. lia.
Qed.

Lemma fold_range vs : forall s, is_state s -> Forall is_group vs -> is_state (foldl polymod_step s vs).
Proof. induction vs; intros s Hs Hv; inversion Hv; subst; simpl; auto using step_range. Qed.

(** A step loses nothing. *)
Lemma step_zero z : is_state z -> polymod_step z 0 = 0 -> z = 0.
Proof.
  intros Hz. rewrite step_eq, Z.lxor_0_r. intros E%Z.lxor_eq.
  assert (Hb : Z.shiftr z 25 = 0).
  { apply feed_table; [by apply top_range|]. rewrite E, mask_mod. apply Z.mod_mul. lia. }
  rewrite Hb, mask_mod in E. change (feed GEN 0 0) with 0 in E. rewrite Z.shiftr_div_pow2 in Hb by lia.
  pose proof (Z.div_mod z (2 ^ 25)). lia.
Qed.

Lemma step_inj a b v : is_state a -> is_state b -> polymod_step a v = polymod_step b v -> a = b.
Proof.
  intros Ha Hb E. apply Z.lxor_eq, step_zero; [apply lxor_range; [lia|done|done]|].
  pose proof (step_linear a b v v) as H. by rewrite E, !Z.lxor_nilpotent in H.
Qed.

Lemma fold_inj vs : forall a b,
  is_state a -> is_state b -> Forall is_group vs -> foldl polymod_step a vs = foldl polymod_step b vs -> a = b.
Proof.
  induction vs as [|v vs IH]; intros a b Ha Hb Hv E; inversion Hv; subst; [done|].
  apply (step_inj a b v); [done|done|]. apply IH; auto using step_range.
Qed.

(** ** Six groups *)

Lemma step_small a v : 0 <= a < 2 ^ 25 -> is_group v -> polymod_step a v = a * 32 + v.
Proof.
  intros Ha Hv. rewrite step_eq, Z.shiftr_div_pow2, Z.div_small by lia. change (feed GEN 0 0) with 0.
  unfold is_group in Hv. rewrite Z.lxor_0_l. unfold mask. change 0x1FFFFFF with (Z.ones 25).
  rewrite Z.land_ones, Z.mod_small by lia. change 32 with (2 ^ 5). rewrite <- (lor_shiftl_add a v 5) by lia.
  rewrite <- Z.lxor_lor; [done|]. apply Z.bits_inj'. intros i Hi. rewrite Z.land_spec, Z.bits_0.
  destruct (Z.lt_ge_cases i 5); [by rewrite Z.shiftl_spec_low|].
  by rewrite (bit_above 5 v), andb_false_r by lia.
Qed.

Lemma fold_small vs : (length vs <= 6)%nat -> Forall is_group vs -> foldl polymod_step 0 vs = unb32 vs.
Proof.
  induction vs as [|v vs IH] using rev_ind; [done|]. rewrite length_app. simpl. intros Hl [Hvs Hv]%Forall_app.
  rewrite foldl_snoc, unb32_snoc, IH by (done || lia). apply step_small; [|by inversion Hv].
  pose proof (unb32_range vs Hvs). assert (32 ^ Z.of_nat (length vs) <= 32 ^ 5) by (apply Z.pow_le_mono_r; lia). lia.
Qed.

Lemma fold_six s vs : (length vs <= 6)%nat -> Forall is_group vs ->
  foldl polymod_step s vs = Z.lxor (foldl polymod_step s (replicate (length vs) 0)) (unb32 vs).
Proof.
  intros Hl Hv. rewrite <- fold_small by done. rewrite <- fold_linear by apply length_replicate.
  rewrite Z.lxor_0_r. f_equal. clear. induction vs as [|v vs IH]; simpl; [done|]. by rewrite <- IH, Z.lxor_0_l.
Qed.

(** The checksum for a constant. *)
Definition checksum_of (const : Z) (values : list Z) : list Z :=
  b32 6 (Z.lxor (_bech32_polymod (values ++ replicate 6 0)) const).

(** Six groups reach the constant exactly when they are the checksum. *)
Lemma checksum_unique const values cs :
  is_state const -> Forall is_group values -> Forall is_group cs -> length cs = 6%nat ->
  _bech32_polymod (values ++ cs) = const <-> cs = checksum_of const values.
Proof.
  intros Hc Hv Hg Hl. unfold checksum_of, _bech32_polymod. rewrite !foldl_app, (fold_six _ cs) by (done || lia).
  rewrite Hl. set (z := foldl polymod_step (foldl polymod_step 1 values) (replicate 6 0)).
  assert (Hz : is_state z).
  { apply fold_range; [apply fold_range; [done|done]|]. by apply Forall_replicate. }
  assert (Hr : 0 <= Z.lxor z const < 32 ^ Z.of_nat 6) by (apply (lxor_range 30); [lia|done|done]).
  split.
  - intros <-. rewrite <- Z.lxor_assoc, Z.lxor_nilpotent, Z.lxor_0_l, <- Hl. by rewrite b32_unb32.
  - intros ->. rewrite unb32_b32 by done. by rewrite <- Z.lxor_assoc, Z.lxor_nilpotent, Z.lxor_0_l.
Qed.

Lemma checksum_groups const values : Forall is_group (checksum_of const values) /\ length (checksum_of const values) = 6%nat.
Proof. split; [apply b32_groups|apply length_b32]. Qed.

(** Two words that differ within six neighbouring groups have different
    checksums. *)
Lemma burst_detected a m m' c :
  Forall is_group (a ++ m ++ c) -> Forall is_group m' -> length m' = length m -> (length m <= 6)%nat ->
  _bech32_polymod (a ++ m ++ c) = _bech32_polymod (a ++ m' ++ c) -> m = m'.
Proof.
  unfold _bech32_polymod. rewrite !Forall_app, !foldl_app. intros (Ha & Hm & Hc) Hm' Hl H6 E.
  assert (Hs : is_state (foldl polymod_step 1 a)) by (by apply fold_range).
  apply fold_inj in E; [|by apply fold_range..|done].
  rewrite (fold_six _ m), (fold_six _ m'), Hl in E by (done || lia).
  rewrite <- (b32_unb32 m), <- (b32_unb32 m'), Hl by done. f_equal.
  apply (f_equal (Z.lxor (foldl polymod_step (foldl polymod_step 1 a) (replicate (length m) 0)))) in E.
  by rewrite <- !Z.lxor_assoc, Z.lxor_nilpotent, !Z.lxor_0_l in E.
Qed.

Lemma expand_groups hrp : Forall is_group (_bech32_hrp_expand hrp).
Proof.
  unfold _bech32_hrp_expand. rewrite !Forall_app. split_and!.
  - apply Forall_map, Forall_forall. intros c _. unfold is_group, ord. rewrite Z.shiftr_div_pow2 by lia.
    pose proof (N_ascii_bounded c). split; [apply Z.div_pos; lia|apply Z.div_lt_upper_bound; lia].
  - by repeat constructor.
  - apply Forall_map, Forall_forall. intros c _. rewrite land_31. apply Z.mod_pos_bound. lia.
Qed.
