(* ===== verification/Address.v ===== *)
(** * Bitcoin addresses (core/validation.py)

    Segwit addresses with their bech32 or bech32m checksum, Base58Check
    addresses, and the check by network that every outgoing request passes.
    A Python [str] is a list of code points below 256 as in the BOLT 12
    decoder; the patterns of [re.match] are written out as tests, [$]
    including its match before a final newline. *)
From S2P Require Import Prelude Bytes Sha256 Bech32 Checksum.

(** ** Segwit *)

Definition _BECH32_CONST : Z := 1.
Definition _BECH32M_CONST : Z := 0x2BC830A3.

Definition _bech32_verify_checksum (hrp : pystr) (data : list Z) : option Z :=
  let polymod := _bech32_polymod (_bech32_hrp_expand hrp ++ data) in
  if polymod =? _BECH32_CONST then Some _BECH32_CONST
  else if polymod =? _BECH32M_CONST then Some _BECH32M_CONST
  else None.

(** [c.upper() == c] on code points below 256 *)
Definition upper_fixed (c : ascii) : bool :=
  let z := ord c in
  negb (((97 <=? z) && (z <=? 122)) || (z =? 181) || ((223 <=? z) && negb (z =? 247))).

Definition mixed_case (s : pystr) : bool := negb (bool_decide (map lower_char s = s)) && negb (forallb upper_fixed s).

(** The groups of a data part: [_BECH32_CHARSET.find(c)] of each character. *)
Fixpoint groups_of (s : pystr) : option (list Z) :=
  match s with
  | [] => Some []
  | c :: s => idx ← _CHARSET_REV c; data ← groups_of s; Some (idx :: data)
  end.

Definition _bech32_decode (addr : pystr) : option (pystr * list Z * Z) :=
  if mixed_case addr then None
  else
    let addr := map lower_char addr in
    match rfind "1"%char addr with
    | None | Some O => None
    | Some pos =>
        if (length addr <? pos + 7)%nat || (90 <? length addr)%nat then None
        else
          let hrp := take pos addr in
          data ← groups_of (drop (S pos) addr);
          encoding ← _bech32_verify_checksum hrp data;
          Some (hrp, take (length data - 6) data, encoding)
    end.

Definition _validate_segwit_address (hrp addr : pystr) : bool :=
  match _bech32_decode addr with
  | None => false
  | Some (dec_hrp, data, encoding) =>
      if negb (bool_decide (dec_hrp = hrp)) then false
      else match data with
           | [] => false
           | witness_version :: rest =>
               match _convertbits rest 5 8 false with
               | None => false
               | Some witness_program =>
                   let prog_len := length witness_program in
                   if (prog_len <? 2)%nat || (40 <? prog_len)%nat then false
                   else if (witness_version =? 0) && negb (prog_len =? 20)%nat && negb (prog_len =? 32)%nat then false
                   else if (witness_version =? 0) && negb (encoding =? _BECH32_CONST) then false
                   else if (1 <=? witness_version) && negb (encoding =? _BECH32M_CONST) then false
                   else if 16 <? witness_version then false
                   else true
               end
           end
  end.

(** ** Base58Check *)

Definition _B58_ALPHABET : pystr := str "123456789ABCDEFGHJKLMNPQRSTUVWXYZabcdefghijkmnopqrstuvwxyz".

Fixpoint b58_value (v : pystr) (acc : Z) : option Z :=
  match v with
  | [] => Some acc
  | c :: v => idx ← index_of c _B58_ALPHABET 0; b58_value v (acc * 58 + idx)
  end.

Fixpoint leading_ones (v : pystr) : nat :=
  match v with
  | c :: v => if bool_decide (c = "1"%char) then S (leading_ones v) else O
  | [] => O
  end.

Definition bit_length (n : Z) : Z := if n =? 0 then 0 else Z.log2 n + 1.

Definition _b58decode (v : pystr) : result (option bytes) :=
  if bool_decide (v = []) then Ok None
  else if negb (forallb (fun c => ord c <? 128) v) then Err UnicodeEncodeError
  else match b58_value v 0 with
       | None => Ok None
       | Some acc =>
           let body := if acc =? 0 then [] else be_bytes (Z.to_nat ((bit_length acc + 7) / 8)) acc in
           Ok (Some (replicate (leading_ones v) x00 ++ body))
       end.

Definition _validate_base58check (addr : pystr) : bool :=
  match _b58decode addr with
  | Ok (Some raw) =>
      if negb (length raw =? 25)%nat then false
      else
        let payload := take 21 raw in
        let checksum := drop 21 raw in
        bool_decide (checksum = take 4 (sha256 (sha256 payload)))
  | _ => false
  end.

(** ** Patterns *)

Definition between (a b : ascii) (c : ascii) : bool := (ord a <=? ord c) && (ord c <=? ord b).

(** [[a-zA-HJ-NP-Z0-9]] *)
Definition segwit_class (c : ascii) : bool :=
  between "a" "z" c || between "A" "H" c || between "J" "N" c || between "P" "Z" c || between "0" "9" c.

(** [[a-km-zA-HJ-NP-Z1-9]] *)
Definition b58_class (c : ascii) : bool :=
  between "a" "k" c || between "m" "z" c || between "A" "H" c || between "J" "N" c || between "P" "Z" c ||
  between "1" "9" c.

(** [class{lo,hi}$] on the rest of the subject *)
Definition run_of (class : ascii -> bool) (lo hi : nat) (s : pystr) : bool :=
  let body := match last s with
              | Some c => if bool_decide (c = chr 10) then take (length s - 1) s else s
              | None => s
              end in
  forallb class body && (lo <=? length body)%nat && (length body <=? hi)%nat.

Fixpoint strip_prefix (p s : pystr) : option pystr :=
  match p, s with
  | [], _ => Some s
  | a :: p, b :: s => if bool_decide (a = b) then strip_prefix p s else None
  | _, [] => None
  end.

Definition looks_segwit (hrp addr : pystr) : bool :=
  match strip_prefix (hrp ++ str "1") addr with Some rest => run_of segwit_class 25 87 rest | None => false end.

Definition looks_base58 (firsts addr : pystr) : bool :=
  match addr with c :: rest => bool_decide (c ∈ firsts) && run_of b58_class 25 34 rest | [] => false end.

(** ** The check *)

(** The three networks differ in the segwit prefix and the first characters
    of their Base58 addresses. *)
Definition validate_on (hrp firsts address : pystr) (bad_checksum bad_format : string) : result pystr :=
  if looks_segwit hrp address then
    if _validate_segwit_address hrp address then Ok address else Err (ValueError bad_checksum)
  else if looks_base58 firsts address then
    if _validate_base58check address then Ok address else Err (ValueError bad_checksum)
  else Err (ValueError bad_format).

(** [network] is [settings.bitcoin_network]. *)
Definition validate_bitcoin_address (network : string) (address : pystr) : result pystr :=
  if String.eqb network "bitcoin" then
    validate_on (str "bc") (str "13") address "Invalid Bitcoin mainnet address (bad checksum)"
      "Invalid Bitcoin mainnet address (must start with bc1, 1, or 3)"
  else if String.eqb network "testnet" || String.eqb network "signet" then
    validate_on (str "tb") (str "mn2") address "Invalid testnet/signet address (bad checksum)"
      "Invalid testnet/signet address (must start with tb1, m, n, or 2)"
  else if String.eqb network "regtest" then
    validate_on (str "bcrt") (str "mn2") address "Invalid regtest address (bad checksum)"
      "Invalid regtest address (must start with bcrt1, m, n, or 2)"
  else Ok address.

Example bip173_p2wpkh :
  validate_bitcoin_address "bitcoin" (str "bc1qw508d6qejxtdg4y5r3zarvary0c5xw7kv8f3t4") =
  Ok (str "bc1qw508d6qejxtdg4y5r3zarvary0c5xw7kv8f3t4").
Proof. vm_compute. reflexivity. Qed.

Example genesis_p2pkh :
  validate_bitcoin_address "bitcoin" (str "1A1zP1eP5QGefi2DMPTfTL5SLmv7DivfNa") =
  Ok (str "1A1zP1eP5QGefi2DMPTfTL5SLmv7DivfNa").
Proof. vm_compute. reflexivity. Qed.

(** ** Segwit addresses are encodings of witness programs *)

(** BIP-173 and BIP-350: version, program, checksum constant by version. *)
Definition const_of (ver : Z) : Z := if ver =? 0 then _BECH32_CONST else _BECH32M_CONST.

Definition witness_program (ver : Z) (prog : bytes) : Prop :=
  0 <= ver <= 16 /\ (2 <= length prog <= 40)%nat /\ (ver = 0 -> length prog = 20%nat \/ length prog = 32%nat).

Definition segwit_groups (hrp : pystr) (ver : Z) (prog : bytes) : list Z :=
  let data := ver :: _convert_8_to_5 prog in
  data ++ checksum_of (const_of ver) (_bech32_hrp_expand hrp ++ data).

Definition segwit_encode (hrp : pystr) (ver : Z) (prog : bytes) : pystr :=
  hrp ++ "1"%char :: map charset_at (segwit_groups hrp ver prog).

Lemma groups_of_iff s l : groups_of s = Some l <-> map charset_at l = s /\ Forall is_group l.
Proof.
  assert (Hc : forall c v, _CHARSET_REV c = Some v <-> char_value c = Ok v).
  { intros c v. unfold char_value. destruct (_CHARSET_REV c); naive_solver. }
  split.
  - revert l. induction s as [|c s IH]; intros l H; simpl in H; [by injection H as <-|].
    destruct (_CHARSET_REV c) as [v|] eqn:E; [|done]. destruct (groups_of s) as [l'|]; [|done].
    injection H as <-. apply Hc, char_value_Ok in E as [<- Hv]. destruct (IH l' eq_refl) as [<- ?]. simpl. auto.
  - intros [<- Hl]. induction Hl as [|v l Hv _ IH]; simpl; [done|].
    apply char_value_at, Hc in Hv as ->. simpl. by rewrite IH.
Qed.

Lemma const_state ver : is_state (const_of ver).
Proof. unfold const_of, is_state, _BECH32_CONST, _BECH32M_CONST. case_match; lia. Qed.

(** The checksum test, on a data part whose last six groups are the
    checksum. *)
Lemma verify_groups hrp data cs enc :
  Forall is_group (data ++ cs) -> length cs = 6%nat ->
  _bech32_verify_checksum hrp (data ++ cs) = Some enc <->
  (enc = _BECH32_CONST \/ enc = _BECH32M_CONST) /\ cs = checksum_of enc (_bech32_hrp_expand hrp ++ data).
Proof.
  intros [Hd Hc]%Forall_app Hl. unfold _bech32_verify_checksum. rewrite app_assoc.
  assert (Hu : forall e, is_state e -> _bech32_polymod ((_bech32_hrp_expand hrp ++ data) ++ cs) = e <->
    cs = checksum_of e (_bech32_hrp_expand hrp ++ data)).
  { intros e He. apply checksum_unique; [done| |done|done]. apply Forall_app. split; [apply expand_groups|done]. }
  pose proof (const_state 0) as H1. pose proof (const_state 1) as H2.
  change (const_of 0) with _BECH32_CONST in H1. change (const_of 1) with _BECH32M_CONST in H2.
  pose proof (Hu _ H1) as U1. pose proof (Hu _ H2) as U2.
  destruct (Z.eqb_spec (_bech32_polymod ((_bech32_hrp_expand hrp ++ data) ++ cs)) _BECH32_CONST) as [E1|N1].
  - split; [intros [= <-]; split; [by left|by apply U1]|].
    intros [[->| ->] H]; [done|]. apply U2 in H. rewrite E1 in H. done.
  - destruct (Z.eqb_spec (_bech32_polymod ((_bech32_hrp_expand hrp ++ data) ++ cs)) _BECH32M_CONST) as [E2|N2].
    + split; [intros [= <-]; split; [by right|by apply U2]|]. intros [[->| ->] H]; [|done]. by apply U1 in H.
    + split; [done|]. intros [[->| ->] H]; [by apply U1 in H|by apply U2 in H].
Qed.

Lemma segwit_groups_ok hrp ver prog : 0 <= ver <= 16 -> Forall is_group (segwit_groups hrp ver prog).
Proof.
  intros Hv. unfold segwit_groups. apply Forall_app. split; [|apply checksum_groups].
  constructor; [unfold is_group; lia|apply convert_8_to_5_groups].
Qed.

Lemma segwit_data_plain hrp ver prog : 0 <= ver <= 16 -> "1"%char ∉ map charset_at (segwit_groups hrp ver prog).
Proof.
  intros Hv Hin. apply list_elem_of_fmap in Hin as (v & E & Hin).
  pose proof (proj1 (Forall_forall _ _) (segwit_groups_ok hrp ver prog Hv) v Hin) as Hg.
  by apply charset_plain in Hg as [_ []].
Qed.

Lemma charset_not_1 l : Forall is_group l -> "1"%char ∉ map charset_at l.
Proof.
  intros Hl Hin. apply list_elem_of_fmap in Hin as (v & E & Hin).
  pose proof (proj1 (Forall_forall _ _) Hl v Hin) as Hg. by apply charset_plain in Hg as [_ []].
Qed.

Lemma drop_middle {A} (l : list A) x k : drop (S (length l)) (l ++ x :: k) = k.
Proof. induction l as [|y l IH]; [done|]. exact IH. Qed.

(** What [_bech32_decode] accepts and returns. *)
Lemma checked_decode_iff addr hrp data enc :
  _bech32_decode addr = Some (hrp, data, enc) <->
  mixed_case addr = false /\ hrp <> [] /\ (length addr <= 90)%nat /\ Forall is_group data /\
  (enc = _BECH32_CONST \/ enc = _BECH32M_CONST) /\
  map lower_char addr = hrp ++ "1"%char :: map charset_at (data ++ checksum_of enc (_bech32_hrp_expand hrp ++ data)).
Proof.
  unfold _bech32_decode. rewrite <- (length_map lower_char addr). set (a := map lower_char addr).
  destruct (mixed_case addr); [naive_solver|]. split.
  - intros H. destruct (rfind _ a) as [[|pos]|] eqn:Hf; try done. apply rfind_Some in Hf.
    destruct ((length a <? _)%nat || _) eqn:Hlen; [done|]. apply orb_false_iff in Hlen as [H7 H90].
    destruct (groups_of _) as [gs|] eqn:Hg; [|done]. simpl in H. apply groups_of_iff in Hg as [Hd Hg].
    destruct (_bech32_verify_checksum _ gs) as [e|] eqn:Hv; [|done]. simpl in H. injection H as <- <- <-.
    assert (Hl : (6 <= length gs)%nat).
    { pose proof (f_equal length Hd) as L. rewrite length_map, length_drop in L. apply Nat.ltb_ge in H7. lia. }
    rewrite <- (take_drop (length gs - 6) gs) in Hv, Hg, Hd.
    assert (L6 : length (drop (length gs - 6) gs) = 6%nat) by (rewrite length_drop; lia).
    apply verify_groups in Hv as [He Hcs]; [|done|done]. apply Forall_app in Hg as [Hg _].
    split_and!; try done.
    + intros E%(f_equal length). rewrite length_take in E. apply Nat.ltb_ge in H7. cbn [length] in E. lia.
    + apply Nat.ltb_ge in H90. lia.
    + rewrite Hf at 1. by rewrite <- Hd, <- Hcs.
  - intros (_ & Hh & H90 & Hg & He & E). set (cs := checksum_of enc (_bech32_hrp_expand hrp ++ data)) in *.
    destruct (checksum_groups enc (_bech32_hrp_expand hrp ++ data)) as [Hcg Hcl]. fold cs in Hcg, Hcl.
    assert (Hall : Forall is_group (data ++ cs)) by (by apply Forall_app).
    rewrite E, rfind_last by (by apply charset_not_1). destruct hrp as [|c hrp]; [done|]. cbn [length].
    set (h := c :: hrp) in *.
    assert (Hlen : length (h ++ "1"%char :: map charset_at (data ++ cs)) = (S (length hrp) + 7 + length data)%nat).
    { rewrite length_app. simpl. rewrite length_map, length_app. lia. }
    rewrite E in H90. rewrite Hlen in H90 |- *.
    rewrite (proj2 (Nat.ltb_ge _ _)), (proj2 (Nat.ltb_ge _ _)) by lia. cbn [orb].
    change (S (length hrp)) with (length h).
    rewrite take_app_length, drop_middle.
    rewrite (proj2 (groups_of_iff _ (data ++ cs))) by done. simpl.
    rewrite (proj2 (verify_groups h data cs enc Hall Hcl)) by done. simpl.
    rewrite length_app, Hcl, Nat.add_sub, take_app_length. done.
Qed.

Lemma convert_program rest prog :
  _convertbits rest 5 8 false = Some prog <-> exists d, prog = map b2z d /\ rest = _convert_8_to_5 d.
Proof.
  rewrite convertbits_5_8. split.
  - destruct (_convert_5_to_8 rest) as [d|] eqn:E; [|done]. intros [= <-]. exists d. by rewrite (convert_5_8_5 _ _ E).
  - intros (d & -> & ->). by rewrite convert_8_5_8.
Qed.

(** A segwit address is accepted exactly when it is the encoding of a
    witness program, up to case. *)
Lemma segwit_iff hrp addr : hrp <> [] ->
  _validate_segwit_address hrp addr = true <->
  mixed_case addr = false /\ (length addr <= 90)%nat /\
  exists ver prog, witness_program ver prog /\ map lower_char addr = segwit_encode hrp ver prog.
Proof.
  intros Hh. unfold _validate_segwit_address. split.
  - destruct (_bech32_decode addr) as [[[h data] enc]|] eqn:Hd; [|done].
    apply checked_decode_iff in Hd as (Hm & _ & H90 & Hg & He & E).
    case_bool_decide; [subst h|done]. destruct data as [|ver rest]; [done|]. cbn [negb].
    destruct (_convertbits rest 5 8 false) as [p|] eqn:Hc; [|done]. apply convert_program in Hc as (d & -> & ->).
    rewrite length_map. inversion Hg as [|? ? Hv _]; subst. unfold is_group in Hv.
    destruct (Nat.ltb_spec (length d) 2), (Nat.ltb_spec 40 (length d)); try done. cbn [orb].
    destruct (Nat.eqb_spec (length d) 20), (Nat.eqb_spec (length d) 32), (Z.eqb_spec ver 0); try done; cbn [andb negb].
    all: repeat (case_match; [done|]); intros _; split_and!; [done|done|]; exists ver, d.
    all: unfold witness_program; split; [lia|]; rewrite E; unfold segwit_encode, segwit_groups.
    all: assert (const_of ver = enc) as ->; [|done]; unfold const_of; case_match; lia.
  - intros (Hm & H90 & ver & prog & (Hv & Hp & H0) & E).
    assert (_bech32_decode addr = Some (hrp, ver :: _convert_8_to_5 prog, const_of ver)) as ->.
    { apply checked_decode_iff. split_and!; try done.
      - constructor; [unfold is_group; lia|apply convert_8_to_5_groups].
      - unfold const_of. case_match; auto. }
    rewrite bool_decide_true by done. cbn [negb].
    rewrite (proj2 (convert_program _ (map b2z prog))) by eauto. rewrite length_map.
    rewrite !(proj2 (Nat.ltb_ge _ _)) by lia. cbn [orb]. unfold const_of.
    destruct (Z.eqb_spec ver 0) as [->|N]; simpl.
    + by destruct H0 as [->| ->].
    + rewrite andb_false_r. by rewrite (proj2 (Z.ltb_ge _ _)) by lia.
Qed.

Lemma strip_prefix_app p s : strip_prefix p (p ++ s) = Some s.
Proof. induction p as [|c p IH]; simpl; [by destruct s|]. by rewrite bool_decide_true. Qed.

Lemma strip_prefix_Some p s r : strip_prefix p s = Some r -> s = p ++ r.
Proof.
  revert s. induction p as [|a p IH]; intros s; simpl; [by destruct s; intros [= ->]|].
  destruct s as [|b s]; [done|]. case_bool_decide; [|done]. intros ->%IH. by subst.
Qed.
