(* ===== verification/Base58.v ===== *)
(** * Base58 numerals

    The reference the decoder of core/validation.py is compared with: a run
    of zero bytes is written as a run of [1], the rest as the base-58 numeral
    of its value. [_b58decode] inverts it. *)
From S2P Require Import Prelude Bytes Sha256 Bech32 Checksum Address.

(** ** Leading elements *)

Section lead.
Context {A : Type} `{EqDecision A}.

Fixpoint lead (x : A) (l : list A) : nat :=
  match l with y :: l => if bool_decide (y = x) then S (lead x l) else O | [] => O end.

Lemma lead_split x (l : list A) : exists n (r : list A), l = replicate n x ++ r /\ head r <> Some x.
Proof.
  induction l as [|y l (n & r & -> & H)]; [by exists O, []|].
  destruct (decide (y = x)) as [->|N]; [by exists (S n), r|]. exists O. eexists. split; [done|]. by intros [= ->].
Qed.

Lemma lead_app x n r : head r <> Some x -> lead x (replicate n x ++ r) = n.
Proof.
  intros H. induction n as [|n IH]; simpl; [|by rewrite bool_decide_true, IH].
  destruct r as [|y r]; [done|]. simpl. rewrite bool_decide_false; [done|]. naive_solver.
Qed.
End lead.

(** ** Numerals *)

Definition is_digit58 (d : Z) : Prop := 0 <= d < 58.

Definition unb58 (ds : list Z) : Z := foldl (fun acc d => acc * 58 + d) 0 ds.

Lemma unb58_snoc ds d : unb58 (ds ++ [d]) = unb58 ds * 58 + d.
Proof. unfold unb58. by rewrite foldl_snoc. Qed.

Fixpoint b58_digits (fuel : nat) (n : Z) : list Z :=
  match fuel with
  | O => []
  | S fuel => if n =? 0 then [] else b58_digits fuel (n / 58) ++ [n mod 58]
  end.

Lemma unb58_nonneg ds : Forall is_digit58 ds -> 0 <= unb58 ds.
Proof.
  induction ds as [|d ds IH] using rev_ind; [done|]. intros [H1 H2]%Forall_app. rewrite unb58_snoc.
  specialize (IH H1). inversion H2; subst. unfold is_digit58 in *. lia.
Qed.

Lemma half_58 fuel n : 0 <= n < 2 ^ Z.of_nat (S fuel) -> 0 <= n / 58 < 2 ^ Z.of_nat fuel.
Proof.
  rewrite Nat2Z.inj_succ, Z.pow_succ_r by lia. intros H.
  split; [apply Z.div_pos; lia|]. apply Z.div_lt_upper_bound; lia.
Qed.

Lemma b58_digits_ok fuel : forall n, 0 <= n < 2 ^ Z.of_nat fuel ->
  unb58 (b58_digits fuel n) = n /\ Forall is_digit58 (b58_digits fuel n) /\ head (b58_digits fuel n) <> Some 0.
Proof.
  induction fuel as [|fuel IH]; intros n Hn; simpl; [simpl in Hn; unfold unb58; simpl; split_and!; [lia|done|done]|].
  destruct (Z.eqb_spec n 0) as [->|N]; [done|]. destruct (IH (n / 58)) as (V & D & H); [by apply half_58|].
  pose proof (Z.mod_pos_bound n 58 ltac:(lia)) as Hm. split_and!.
  - rewrite unb58_snoc, V. pose proof (Z.div_mod n 58). lia.
  - apply Forall_app. split; [done|]. by constructor.
  - destruct (b58_digits fuel (n / 58)) as [|d ds] eqn:E; [|done]. simpl. intros [= Hz].
    unfold unb58 in V. simpl in V. pose proof (Z.div_mod n 58). lia.
Qed.

(** A numeral without a leading zero is the numeral of its value. *)
Lemma b58_digits_canonical ds : forall fuel,
  Forall is_digit58 ds -> head ds <> Some 0 -> unb58 ds < 2 ^ Z.of_nat fuel -> b58_digits fuel (unb58 ds) = ds.
Proof.
  induction ds as [|d ds IH] using rev_ind; intros fuel.
  { intros _ _ _. by destruct fuel. }
  rewrite unb58_snoc. intros [Hds Hd]%Forall_app Hh Hf. inversion Hd as [|? ? Hd' _]; subst. unfold is_digit58 in Hd'.
  pose proof (unb58_nonneg ds Hds) as Hn.
  assert (Hpos : unb58 ds * 58 + d <> 0).
  { destruct ds as [|e ds']; [unfold unb58; simpl in *; intros E; apply Hh; f_equal; lia|].
    intros E. assert (Hz : unb58 (e :: ds') = 0) by lia.
    specialize (IH 0%nat Hds Hh ltac:(simpl; lia)). done. }
  destruct fuel as [|fuel]; [simpl in Hf; lia|]. simpl. rewrite (proj2 (Z.eqb_neq _ _)) by lia.
  rewrite Z.div_add_l, Z.div_small, Z.add_0_r by lia.
  rewrite Z.add_comm, Z_mod_plus_full, Z.mod_small by lia. f_equal.
  destruct ds as [|e ds']; [by destruct fuel|]. apply IH; [done|done|].
  rewrite Nat2Z.inj_succ, Z.pow_succ_r in Hf by lia. lia.
Qed.

(** ** Bytes *)

Lemma from_be_zeros n r : from_be (replicate n x00 ++ r) = from_be r.
Proof. induction n as [|n IH]; [done|]. simpl. rewrite from_be_cons, IH. change (b2z x00) with 0. lia. Qed.

(** The shortest byte string of a number. *)
Definition minimal_bytes (n : Z) : bytes := if n =? 0 then [] else be_bytes (Z.to_nat ((bit_length n + 7) / 8)) n.

Lemma minimal_length n k : 256 ^ Z.of_nat k <= n < 256 ^ Z.of_nat (S k) -> Z.to_nat ((bit_length n + 7) / 8) = S k.
Proof.
  intros Hn. rewrite Nat2Z.inj_succ in Hn. change 256 with (2 ^ 8) in Hn. rewrite <- !Z.pow_mul_r in Hn by lia.
  assert (Hpos : 0 < n) by (pose proof (Z.pow_pos_nonneg 2 (8 * Z.of_nat k)); lia).
  unfold bit_length. rewrite (proj2 (Z.eqb_neq _ _)) by lia.
  pose proof (Z.log2_le_mono _ _ (proj1 Hn)) as H1. rewrite Z.log2_pow2 in H1 by lia.
  pose proof (proj1 (Z.log2_lt_pow2 n _ Hpos) (proj2 Hn)) as H2.
  pose proof (Z.div_mod (Z.log2 n + 1 + 7) 8). pose proof (Z.mod_pos_bound (Z.log2 n + 1 + 7) 8). lia.
Qed.

Lemma b2z_zero b : b2z b = 0 -> b = x00.
Proof. intros H. rewrite <- (z2b_b2z b), H. done. Qed.

Lemma minimal_from_be r : head r <> Some x00 -> minimal_bytes (from_be r) = r.
Proof.
  intros Hh. destruct r as [|b r]; [done|]. unfold minimal_bytes.
  assert (Hb : 1 <= b2z b).
  { pose proof (b2z_range b). assert (b2z b <> 0); [|lia]. intros E%b2z_zero. by subst. }
  pose proof (from_be_range (b :: r)) as Hr. pose proof (from_be_range r) as Hr'.
  assert (Hlow : 256 ^ Z.of_nat (length r) <= from_be (b :: r)) by (rewrite from_be_cons; nia).
  pose proof (Z.pow_pos_nonneg 256 (Z.of_nat (length r))).
  rewrite (proj2 (Z.eqb_neq _ _)) by lia. rewrite (minimal_length _ (length r)); [|split; [done|apply Hr]].
  apply (be_bytes_from_be (b :: r)).
Qed.

Lemma from_be_minimal n : 0 <= n -> from_be (minimal_bytes n) = n /\ head (minimal_bytes n) <> Some x00.
Proof.
  intros Hn. unfold minimal_bytes. destruct (Z.eqb_spec n 0) as [->|N]; [done|].
  set (k := Z.to_nat (Z.log2 n / 8)).
  assert (Hk : 256 ^ Z.of_nat k <= n < 256 ^ Z.of_nat (S k)).
  { rewrite Nat2Z.inj_succ. change 256 with (2 ^ 8). rewrite <- !Z.pow_mul_r by lia.
    pose proof (Z.log2_nonneg n). pose proof (Z.log2_spec n ltac:(lia)) as [H1 H2].
    pose proof (Z.div_mod (Z.log2 n) 8). pose proof (Z.mod_pos_bound (Z.log2 n) 8).
    assert (Z.of_nat k = Z.log2 n / 8) as -> by (unfold k; rewrite Z2Nat.id; [done|apply Z.div_pos; lia]).
    split; [transitivity (2 ^ Z.log2 n); [apply Z.pow_le_mono_r; lia|done]|].
    eapply Z.lt_le_trans; [exact H2|]. apply Z.pow_le_mono_r; lia. }
  rewrite (minimal_length n k Hk). pose proof (from_be_be_bytes (S k) n ltac:(lia)) as E. split; [done|].
  destruct (be_bytes (S k) n) as [|b l] eqn:El; [done|]. intros [= ->].
  rewrite from_be_cons in E. change (b2z x00) with 0 in E. pose proof (from_be_range l) as Hl.
  pose proof (length_be_bytes (S k) n) as L. rewrite El in L. simpl in L. injection L as L. rewrite L in Hl. lia.
Qed.

(** ** The decoder *)

Definition b58_at (d : Z) : ascii := nth (Z.to_nat d) _B58_ALPHABET "1"%char.

(** The reference encoding. *)
Definition b58encode (raw : bytes) : pystr :=
  replicate (lead x00 raw) "1"%char ++ map b58_at (b58_digits (8 * length raw) (from_be raw)).

Lemma b58_index d : is_digit58 d ->
  index_of (b58_at d) _B58_ALPHABET 0 = Some d /\ ord (b58_at d) < 128 /\ (b58_at d = "1"%char -> d = 0).
Proof.
  intros Hd.
  assert (H : forallb (fun d => bool_decide (index_of (b58_at d) _B58_ALPHABET 0 = Some d) && (ord (b58_at d) <? 128) &&
    (negb (bool_decide (b58_at d = "1"%char)) || (d =? 0))) (seqZ 0 58) = true) by (vm_compute; reflexivity).
  rewrite List.forallb_forall in H. unfold is_digit58 in Hd.
  specialize (H d ltac:(apply list_elem_of_In, elem_of_seqZ; lia)).
  apply andb_prop in H as [[H1 H2]%andb_prop H3]. split_and!; [by apply bool_decide_eq_true in H1|lia|].
  intros E. rewrite bool_decide_true in H3 by done. simpl in H3. lia.
Qed.

(** A string of the alphabet and its digits. *)
Lemma b58_value_iff v : forall acc n,
  b58_value v acc = Some n <->
  exists ds, v = map b58_at ds /\ Forall is_digit58 ds /\ n = foldl (fun acc d => acc * 58 + d) acc ds.
Proof.
  induction v as [|c v IH]; intros acc n; cbn [b58_value].
  - split; [intros [= <-]; by exists []|]. intros ([|d ds] & E & _ & ->); [done|done].
  - split.
    + destruct (index_of c _B58_ALPHABET 0) as [d|] eqn:E; cbn [mbind option_bind]; [|done]. intros (ds & -> & Hds & ->)%IH.
      apply index_of_Some in E as [Hd Hn]. exists (d :: ds). split; [|split; [|done]].
      * simpl. f_equal. unfold b58_at. rewrite <- (Hn "1"%char). by rewrite Z.sub_0_r.
      * constructor; [|done]. unfold is_digit58. change (length _B58_ALPHABET) with 58%nat in Hd. lia.
    + intros ([|d ds] & E & Hds & ->); [done|]. injection E as -> ->. inversion Hds as [|? ? Hd Hds']; subst.
      rewrite (proj1 (b58_index d Hd)). cbn [mbind option_bind]. apply IH. eauto.
Qed.

Lemma ones_zeros n : replicate n "1"%char = map b58_at (replicate n 0).
Proof. induction n as [|n IH]; [done|]. simpl. by rewrite IH. Qed.

Lemma lead_digits ds : Forall is_digit58 ds -> leading_ones (map b58_at ds) = lead 0 ds.
Proof.
  induction 1 as [|d ds Hd _ IH]; simpl; [done|]. destruct (b58_index d Hd) as (_ & _ & H1).
  case_bool_decide as E1; case_bool_decide as E2; [by rewrite IH|by apply H1 in E1|subst; by destruct E1|done].
Qed.

Lemma unb58_zeros n ds : unb58 (replicate n 0 ++ ds) = unb58 ds.
Proof. unfold unb58. rewrite foldl_app. f_equal. by induction n. Qed.

Lemma from_be_bits raw : 0 <= from_be raw < 2 ^ Z.of_nat (8 * length raw).
Proof.
  pose proof (from_be_range raw) as H. change 256 with (2 ^ 8) in H. rewrite <- Z.pow_mul_r in H by lia.
  by rewrite Nat2Z.inj_mul.
Qed.

(** What the decoder makes of a string of digits. *)
Lemma b58decode_digits ds : ds <> [] -> Forall is_digit58 ds ->
  _b58decode (map b58_at ds) = Ok (Some (replicate (lead 0 ds) x00 ++ minimal_bytes (unb58 ds))).
Proof.
  intros Hne Hds. unfold _b58decode. rewrite bool_decide_false by (by destruct ds).
  assert (Hascii : forallb (fun c => ord c <? 128) (map b58_at ds) = true).
  { clear Hne. induction Hds as [|d ds Hd _ IH]; simpl; [done|].
    rewrite IH, andb_true_r. pose proof (b58_index d Hd). lia. }
  rewrite Hascii. cbn [negb].
  rewrite (proj2 (b58_value_iff (map b58_at ds) 0 (unb58 ds))) by eauto. by rewrite lead_digits.
Qed.

(** The decoder accepts exactly the encodings and inverts them. *)
Lemma b58decode_iff s raw : _b58decode s = Ok (Some raw) <-> s <> [] /\ s = b58encode raw.
Proof.
  split.
  - intros H. assert (Hs : exists ds, s <> [] /\ s = map b58_at ds /\ Forall is_digit58 ds).
    { unfold _b58decode in H. case_bool_decide; [done|]. destruct (negb _); [done|].
      destruct (b58_value s 0) as [n|] eqn:E; [|done]. apply b58_value_iff in E as (ds & -> & Hds & _). eauto. }
    destruct Hs as (ds & Hne & -> & Hds). rewrite b58decode_digits in H by (done || by destruct ds).
    injection H as <-. split; [done|]. destruct (lead_split 0 ds) as (z & r & -> & Hh).
    apply Forall_app in Hds as [_ Hds]. rewrite lead_app, unb58_zeros by done.
    pose proof (unb58_nonneg r Hds) as Hn. destruct (from_be_minimal _ Hn) as [Hv Hm].
    pose proof (from_be_bits (replicate z x00 ++ minimal_bytes (unb58 r))) as Hb.
    unfold b58encode. rewrite (lead_app x00 z), from_be_zeros, Hv by done. rewrite from_be_zeros, Hv in Hb.
    by rewrite b58_digits_canonical, ones_zeros, <- map_app by (done || lia).
  - intros [Hne ->]. unfold b58encode in *. destruct (b58_digits_ok _ _ (from_be_bits raw)) as (Hv & Hd & H0).
    set (ds := b58_digits (8 * length raw) (from_be raw)) in *. clearbody ds. rewrite ones_zeros, <- map_app in *.
    rewrite b58decode_digits.
    + rewrite lead_app, unb58_zeros, Hv by done. do 2 f_equal. destruct (lead_split x00 raw) as (z & r & -> & Hh).
      by rewrite lead_app, from_be_zeros, minimal_from_be.
    + by intros E'; rewrite E' in Hne.
    + apply Forall_app. split; [|done]. by apply Forall_replicate.
Qed.

Lemma b58encode_nil raw : b58encode raw = [] -> raw = [].
Proof.
  unfold b58encode. intros [H1 H2]%app_eq_nil. destruct (lead_split x00 raw) as (z & r & -> & Hh).
  rewrite lead_app in H1 by done. destruct z as [|z]; [|done]. cbn [replicate app] in *.
  destruct (b58_digits_ok _ _ (from_be_bits r)) as (Hv & _ & _). apply map_eq_nil in H2. rewrite H2 in Hv.
  rewrite <- (minimal_from_be r) by done. by rewrite <- Hv.
Qed.

(** ** Base58Check *)

(** A Base58Check address of a version byte and a 20-byte hash. *)
Definition base58check (payload : bytes) : pystr := b58encode (payload ++ take 4 (sha256 (sha256 payload))).

Lemma base58check_iff addr :
  _validate_base58check addr = true <-> exists payload, length payload = 21%nat /\ addr = base58check payload.
Proof.
  unfold _validate_base58check, base58check. split.
  - destruct (_b58decode addr) as [[raw|]|] eqn:E; try done. apply b58decode_iff in E as [_ ->].
    destruct (Nat.eqb_spec (length raw) 25) as [L|]; [|done]. cbn [negb]. intros H%bool_decide_eq_true.
    exists (take 21 raw). split; [rewrite length_take; lia|]. by rewrite <- H, take_drop.
  - intros (p & L & ->). set (c := take 4 (sha256 (sha256 p))).
    assert (Lc : length c = 4%nat) by (unfold c; rewrite length_take, length_sha256; done).
    rewrite (proj2 (b58decode_iff _ (p ++ c))).
    + rewrite length_app, L, Lc. cbn [Nat.eqb Nat.add negb].
      rewrite take_app_length', drop_app_length' by done. by rewrite bool_decide_true.
    + split; [|done]. intros E%b58encode_nil%(f_equal length). rewrite length_app, L in E. done.
Qed.
