(* ===== verification/AddressSafety.v ===== *)
(** * What the address check lets through

    Exactly the encodings of witness programs of at least 11 bytes and of
    Base58Check payloads with an expected first character; and no address
    that differs from a valid one in six neighbouring characters. *)
From S2P Require Import Prelude Bytes Sha256 Bech32 Checksum Address Base58.

(** Prefix and first Base58 characters of a network. *)
Definition network_params (network : string) : option (pystr * pystr) :=
  if String.eqb network "bitcoin" then Some (str "bc", str "13")
  else if String.eqb network "testnet" || String.eqb network "signet" then Some (str "tb", str "mn2")
  else if String.eqb network "regtest" then Some (str "bcrt", str "mn2")
  else None.

(** What the proofs use of the three prefixes. *)
Definition prefix_ok (hrp firsts : pystr) : Prop :=
  (exists c t, hrp = c :: t /\ upper_fixed c = false /\ c ∉ firsts) /\ map lower_char hrp = hrp /\ (length hrp <= 4)%nat.

Lemma params_ok network hrp firsts address :
  network_params network = Some (hrp, firsts) ->
  prefix_ok hrp firsts /\ exists bad1 bad2, validate_bitcoin_address network address = validate_on hrp firsts address bad1 bad2.
Proof.
  unfold network_params, validate_bitcoin_address. intros H.
  repeat (case_match; [injection H as <- <-; split; [|by eexists _, _]; split; [|by vm_compute; auto]|]); [..|done].
  all: eexists _, _; split_and!; [reflexivity|reflexivity|]; apply (bool_decide_unpack _); reflexivity.
Qed.

(** ** Characters *)

Lemma charset_class v : is_group v -> segwit_class (charset_at v) = true /\ lower_char (charset_at v) = charset_at v.
Proof.
  intros Hv.
  assert (H : forallb (fun v => segwit_class (charset_at v) && bool_decide (lower_char (charset_at v) = charset_at v))
    (seqZ 0 32) = true) by (vm_compute; reflexivity).
  rewrite List.forallb_forall in H. unfold is_group in Hv.
  specialize (H v ltac:(apply list_elem_of_In, elem_of_seqZ; lia)).
  by apply andb_prop in H as [? ?%bool_decide_eq_true].
Qed.

Lemma alphabet_class d : is_digit58 d -> b58_class (b58_at d) = true.
Proof.
  intros Hd.
  assert (H : forallb (fun d => b58_class (b58_at d)) (seqZ 0 58) = true) by (vm_compute; reflexivity).
  rewrite List.forallb_forall in H. unfold is_digit58 in Hd.
  apply (H d ltac:(apply list_elem_of_In, elem_of_seqZ; lia)).
Qed.

(** A run whose characters are in a class that excludes the newline. *)
Lemma run_of_plain class lo hi s :
  class (chr 10) = false -> forallb class s = true ->
  run_of class lo hi s = (lo <=? length s)%nat && (length s <=? hi)%nat.
Proof.
  intros Hn Hs. unfold run_of.
  assert (match last s with Some c => if bool_decide (c = chr 10) then take (length s - 1) s else s | None => s end = s) as ->.
  { destruct (last s) as [c|] eqn:E; [|done]. rewrite bool_decide_false; [done|]. intros ->.
    apply last_Some_elem_of in E. rewrite List.forallb_forall in Hs. apply list_elem_of_In, Hs in E. by rewrite Hn in E. }
  by rewrite Hs.
Qed.

(** ** The segwit branch *)

Lemma lower_encode hrp ver prog : map lower_char hrp = hrp -> 0 <= ver <= 16 ->
  map lower_char (segwit_encode hrp ver prog) = segwit_encode hrp ver prog.
Proof.
  intros Hh Hv. unfold segwit_encode. rewrite map_app, Hh. cbn [map]. do 2 f_equal.
  pose proof (segwit_groups_ok hrp ver prog Hv) as Hg.
  induction Hg as [|v l Hv' _ IH]; simpl; [done|]. rewrite IH. f_equal. by apply charset_class.
Qed.

Lemma groups_length hrp ver prog :
  length (segwit_groups hrp ver prog) = (7 + length (_convert_8_to_5 prog))%nat.
Proof.
  unfold segwit_groups. rewrite length_app. cbn [length].
  destruct (checksum_groups (const_of ver) (_bech32_hrp_expand hrp ++ ver :: _convert_8_to_5 prog)) as [_ ->]. lia.
Qed.

(** Program lengths as the pattern sees them. *)
Lemma pattern_length hrp ver prog : (2 <= length prog <= 40)%nat ->
  (25 <= length (segwit_groups hrp ver prog))%nat /\ (length (segwit_groups hrp ver prog) <= 87)%nat <->
  (11 <= length prog)%nat.
Proof. intros H. rewrite groups_length, convert_8_to_5_spec, length_b32. unfold groups. dlia. Qed.

Lemma segwit_encode_length hrp ver prog : (length hrp <= 4)%nat -> (2 <= length prog <= 40)%nat ->
  (length (segwit_encode hrp ver prog) <= 90)%nat.
Proof.
  intros Hh H. unfold segwit_encode. rewrite length_app. cbn [length].
  rewrite length_map, groups_length, convert_8_to_5_spec, length_b32. unfold groups. dlia.
Qed.

Lemma looks_encoded hrp ver prog : 0 <= ver <= 16 -> (2 <= length prog <= 40)%nat ->
  looks_segwit hrp (segwit_encode hrp ver prog) = true <-> (11 <= length prog)%nat.
Proof.
  intros Hv Hp. unfold looks_segwit, segwit_encode. change (?h ++ "1"%char :: ?l) with (h ++ str "1" ++ l).
  rewrite app_assoc, strip_prefix_app, run_of_plain; [|done|].
  - rewrite length_map, <- (pattern_length hrp ver prog Hp), andb_true_iff, !Nat.leb_le. done.
  - pose proof (segwit_groups_ok hrp ver prog Hv) as Hg.
    induction Hg as [|v l Hv' _ IH]; simpl; [done|]. apply andb_true_intro. split; [by apply charset_class|done].
Qed.

(** An address that starts with a lower-case prefix is not upper case. *)
Lemma prefixed_lower hrp firsts address : prefix_ok hrp firsts -> looks_segwit hrp address = true ->
  mixed_case address = false -> map lower_char address = address.
Proof.
  intros [(c & t & -> & Hc & _) _]. unfold looks_segwit, mixed_case.
  destruct (strip_prefix _ address) as [r|] eqn:E; [|done]. apply strip_prefix_Some in E. intros _.
  case_bool_decide as El; [done|]. subst. simpl. by rewrite Hc.
Qed.

Lemma segwit_branch hrp firsts address : prefix_ok hrp firsts ->
  looks_segwit hrp address && _validate_segwit_address hrp address = true <->
  exists ver prog, witness_program ver prog /\ (11 <= length prog)%nat /\ address = segwit_encode hrp ver prog.
Proof.
  intros Hok. pose proof Hok as [(c & t & Hh & _) [Hl H4]]. assert (Hne : hrp <> []) by by rewrite Hh.
  rewrite andb_true_iff, (segwit_iff hrp address Hne). split.
  - intros (Hlooks & Hm & _ & ver & prog & Hw & E). rewrite (prefixed_lower hrp firsts) in E by done.
    exists ver, prog. subst address. pose proof Hw as (Hv & Hp & _). by apply looks_encoded in Hlooks.
  - intros (ver & prog & Hw & H11 & ->). pose proof Hw as (Hv & Hp & _). pose proof (lower_encode hrp ver prog Hl Hv) as E.
    split; [by apply looks_encoded|]. split_and!.
    + unfold mixed_case. by rewrite bool_decide_true.
    + by apply segwit_encode_length.
    + by exists ver, prog.
Qed.

(** ** The Base58 branch *)

Lemma encode_class raw : forallb b58_class (b58encode raw) = true.
Proof.
  unfold b58encode. destruct (b58_digits_ok _ _ (from_be_bits raw)) as (_ & Hd & _).
  rewrite forallb_app. apply andb_true_intro. split.
  { induction (lead x00 raw) as [|n IH]; [done|]. cbn [replicate forallb]. by rewrite IH. }
  induction Hd as [|d l Hd _ IH]; cbn [map forallb]; [done|]. by rewrite alphabet_class, IH.
Qed.

Lemma base58_branch firsts address :
  looks_base58 firsts address && _validate_base58check address = true <->
  exists payload, length payload = 21%nat /\ address = base58check payload /\
    (exists c, head address = Some c /\ c ∈ firsts) /\ (26 <= length address <= 35)%nat.
Proof.
  rewrite andb_true_iff, base58check_iff.
  assert (H : forall payload, address = base58check payload ->
    looks_base58 firsts address = true <-> (exists c, head address = Some c /\ c ∈ firsts) /\ (26 <= length address <= 35)%nat).
  { intros payload E. pose proof (encode_class (payload ++ take 4 (sha256 (sha256 payload)))) as Hc.
    fold (base58check payload) in Hc. rewrite <- E in Hc. clear E. destruct address as [|c rest]; simpl; [naive_solver lia|].
    apply andb_prop in Hc as [_ Hc]. rewrite run_of_plain, !andb_true_iff, !Nat.leb_le, bool_decide_eq_true by done.
    naive_solver lia. }
  split.
  - intros (Hl & payload & L & E). exists payload. by apply (H payload E) in Hl as [??].
  - intros (payload & L & E & Hc). split; [by apply (H payload E)|by exists payload].
Qed.

(** ** Theorems *)

Lemma no_segwit_prefix hrp firsts address c : prefix_ok hrp firsts ->
  head address = Some c -> c ∈ firsts -> looks_segwit hrp address = false.
Proof.
  intros [(d & t & -> & _ & Hd) _] Hc Hin. unfold looks_segwit. destruct (strip_prefix _ address) as [r|] eqn:E; [|done].
  apply strip_prefix_Some in E. subst address. injection Hc as ->. done.
Qed.

(** The two forms of an accepted address. *)
Lemma address_cases network hrp firsts address :
  network_params network = Some (hrp, firsts) ->
  (validate_bitcoin_address network address = Ok address <->
   looks_segwit hrp address && _validate_segwit_address hrp address = true \/
   looks_base58 firsts address && _validate_base58check address = true) /\
  (validate_bitcoin_address network address = Ok address \/
   exists msg, validate_bitcoin_address network address = Err (ValueError msg)).
Proof.
  intros Hnet. destruct (params_ok _ _ _ address Hnet) as (Hok & bad1 & bad2 & ->). unfold validate_on.
  destruct (looks_segwit hrp address) eqn:Hs; simpl.
  - assert (looks_base58 firsts address = false) as ->; [|destruct (_validate_segwit_address _ _); naive_solver].
    apply not_true_is_false. intros Hb. destruct address as [|c rest]; [done|]. simpl in Hb.
    apply andb_prop in Hb as [Hb%bool_decide_eq_true _]. by rewrite (no_segwit_prefix hrp firsts _ c) in Hs.
  - destruct (looks_base58 firsts address), (_validate_base58check address); naive_solver.
Qed.

Lemma address_form network hrp firsts address :
  network_params network = Some (hrp, firsts) -> validate_bitcoin_address network address = Ok address ->
  (exists ver prog, witness_program ver prog /\ (11 <= length prog)%nat /\ address = segwit_encode hrp ver prog) \/
  (exists c, head address = Some c /\ c ∈ firsts).
Proof.
  intros Hnet H. destruct (params_ok _ _ _ address Hnet) as [Hok _].
  apply (proj1 (address_cases _ _ _ _ Hnet)) in H as [H|H].
  - left. by apply (segwit_branch hrp firsts).
  - right. by apply base58_branch in H as (? & _ & _ & ? & _).
Qed.

(** C22. On each known network the check returns an address unchanged exactly
    when it is the bech32 or bech32m encoding, with the network's prefix, of
    a witness program of 11 to 40 bytes that is valid for its version, or the
    Base58Check encoding of 21 bytes with an expected first character; every
    other string raises [ValueError]. *)
Theorem address_accepted_iff network hrp firsts address :
  network_params network = Some (hrp, firsts) ->
  (validate_bitcoin_address network address = Ok address <->
   (exists ver prog, witness_program ver prog /\ (11 <= length prog)%nat /\ address = segwit_encode hrp ver prog) \/
   (exists payload, length payload = 21%nat /\ address = base58check payload /\
      (exists c, head address = Some c /\ c ∈ firsts) /\ (26 <= length address <= 35)%nat)) /\
  (validate_bitcoin_address network address = Ok address \/
   exists msg, validate_bitcoin_address network address = Err (ValueError msg)).
Proof.
  intros Hnet. destruct (params_ok _ _ _ address Hnet) as [Hok _].
  rewrite <- (segwit_branch hrp firsts address Hok), <- base58_branch. by apply address_cases.
Qed.

Definition p2wpkh : pystr := str "bc1qw508d6qejxtdg4y5r3zarvary0c5xw7kv8f3t4".

Lemma address_accepted_iff_witness :
  network_params "bitcoin" = Some (str "bc", str "13") /\
  ((exists ver prog, witness_program ver prog /\ (11 <= length prog)%nat /\ p2wpkh = segwit_encode (str "bc") ver prog) \/
   (exists payload, length payload = 21%nat /\ p2wpkh = base58check payload /\
      (exists c, head p2wpkh = Some c /\ c ∈ str "13") /\ (26 <= length p2wpkh <= 35)%nat)).
Proof.
  split; [reflexivity|]. apply (address_accepted_iff "bitcoin" (str "bc") (str "13") p2wpkh eq_refl). vm_compute. reflexivity.
Defined.

Lemma charset_inj l k : Forall is_group l -> Forall is_group k -> map charset_at l = map charset_at k -> l = k.
Proof.
  intros Hl Hk E. assert (Some l = Some k) as [= ->]; [|done].
  rewrite <- (proj2 (groups_of_iff (map charset_at l) l)) by done. by apply groups_of_iff.
Qed.

(** The checksum equation of an encoded address. *)
Lemma encoded_checksum hrp ver prog : 0 <= ver <= 16 ->
  _bech32_polymod (_bech32_hrp_expand hrp ++ segwit_groups hrp ver prog) = const_of ver.
Proof.
  intros Hv. unfold segwit_groups. set (data := ver :: _convert_8_to_5 prog). rewrite app_assoc.
  destruct (checksum_groups (const_of ver) (_bech32_hrp_expand hrp ++ data)) as [Hg Hl].
  apply checksum_unique; [apply const_state| |done|done|done].
  apply Forall_app. split; [apply expand_groups|]. constructor; [unfold is_group; lia|apply convert_8_to_5_groups].
Qed.

(** Cutting the groups of an encoded address as its text is cut. *)
Lemma groups_cut hrp ver prog v pre m post : 0 <= ver <= 16 ->
  segwit_encode hrp ver prog = hrp ++ "1"%char :: charset_at v :: pre ++ m ++ post -> is_group v ->
  exists gp gm gq, segwit_groups hrp ver prog = v :: gp ++ gm ++ gq /\ ver = v /\
    pre = map charset_at gp /\ m = map charset_at gm /\ post = map charset_at gq /\
    Forall is_group gp /\ Forall is_group gm /\ Forall is_group gq.
Proof.
  intros Hv E Hg. apply app_inv_head in E. apply (f_equal tail) in E. cbn [tail] in E. pose proof (segwit_groups_ok hrp ver prog Hv) as Hall.
  assert (Eg : exists gs, segwit_groups hrp ver prog = ver :: gs) by by eexists.
  destruct Eg as [gs Eg]. rewrite Eg in E, Hall |- *. cbn [map] in E. injection E as E1 E2.
  inversion Hall as [|? ? Hv' Hgs]; subst.
  assert (ver = v) as <-.
  { assert ([ver] = [v]) as [= ->]; [|done]. apply charset_inj; [by constructor|by constructor|]. simpl. by f_equal. }
  apply map_eq_app in E2 as (gp & r & -> & <- & E2). apply map_eq_app in E2 as (gm & gq & -> & <- & <-).
  rewrite !Forall_app in Hgs. destruct Hgs as (? & ? & ?). by exists gp, gm, gq.
Qed.

(** C23. A burst of errors never passes: two accepted addresses that share the
    prefix, the separator, the version symbol and everything else outside a
    window of at most six neighbouring characters are equal. *)
Theorem address_burst_detected network hrp firsts v pre m m' post :
  network_params network = Some (hrp, firsts) -> is_group v -> length m' = length m -> (length m <= 6)%nat ->
  let whole x := hrp ++ "1"%char :: charset_at v :: pre ++ x ++ post in
  validate_bitcoin_address network (whole m) = Ok (whole m) ->
  validate_bitcoin_address network (whole m') = Ok (whole m') -> m = m'.
Proof.
  intros Hnet Hv Hl H6 whole A B. pose proof (params_ok _ _ _ [] Hnet) as [Hok _].
  assert (HS : forall x, validate_bitcoin_address network (whole x) = Ok (whole x) ->
    exists prog, 0 <= v <= 16 /\ exists gp gm gq, segwit_groups hrp v prog = v :: gp ++ gm ++ gq /\
      pre = map charset_at gp /\ x = map charset_at gm /\ post = map charset_at gq /\
      Forall is_group gp /\ Forall is_group gm /\ Forall is_group gq).
  { intros x Hx. destruct (address_form network hrp firsts _ Hnet Hx) as [(ver & prog & (Hver & _) & _ & E)|(c & Hc & Hin)].
    - symmetry in E. apply groups_cut in E as (gp & gm & gq & E & -> & H); [|done|done]. eauto 10.
    - destruct Hok as [(d & t & -> & _ & Hd) _]. injection Hc as ->. done. }
  apply HS in A as (p & Hr & gp & gm & gq & E & -> & -> & -> & F1 & F2 & F3).
  apply HS in B as (p' & _ & gp' & gm' & gq' & E' & Ep & -> & Eq & F1' & F2' & F3').
  pose proof (charset_inj _ _ F1 F1' Ep) as <-. pose proof (charset_inj _ _ F3 F3' Eq) as <-. f_equal.
  rewrite length_map in H6. rewrite !length_map in Hl.
  pose proof (encoded_checksum hrp v p Hr) as C. pose proof (encoded_checksum hrp v p' Hr) as C'.
  rewrite E in C. rewrite E' in C'.
  apply (burst_detected (_bech32_hrp_expand hrp ++ v :: gp) gm gm' gq); [|done|done|done|].
  - rewrite !Forall_app. split_and!; try done; [apply expand_groups|by constructor].
  - by rewrite <- !app_assoc; cbn [app]; rewrite C, C'.
Qed.

(** The BIP-173 example, and with two characters exchanged. *)
Definition swapped : pystr := str "bc1qw50d86qejxtdg4y5r3zarvary0c5xw7kv8f3t4".

Lemma address_burst_detected_witness :
  str "8d" = str "8d" /\ validate_bitcoin_address "bitcoin" swapped <> Ok swapped.
Proof.
  split.
  - apply (address_burst_detected "bitcoin" (str "bc") (str "13") 0 (str "w50") (str "8d") (str "8d")
             (str "6qejxtdg4y5r3zarvary0c5xw7kv8f3t4"));
      [reflexivity|unfold is_group; lia|reflexivity|simpl; lia|vm_compute; reflexivity|vm_compute; reflexivity].
  - intros H. enough (str "8d" = str "d8") by discriminate.
    apply (address_burst_detected "bitcoin" (str "bc") (str "13") 0 (str "w50") (str "8d") (str "d8")
             (str "6qejxtdg4y5r3zarvary0c5xw7kv8f3t4"));
      [reflexivity|unfold is_group; lia|reflexivity|simpl; lia|vm_compute; reflexivity|exact H].
Defined.
