(* ===== verification/ScriptPubKey.v ===== *)
(** * Address to output script (services/chain/electrum_protocol.py)

    The wallet's second address decoder, used to check where a claim
    transaction pays. It is independent of core/validation.py: its own
    segwit and Base58Check decoding, and the script of each address kind.
    [_polymod], [_hrp_expand] and [_convertbits] are the same code as in
    validation.py and are those of the file Checksum. *)
From S2P Require Import Prelude Bytes Sha256 Bech32 Checksum Address Base58 AddressSafety.

(** ** Segwit *)

Definition _decode_segwit (addr : pystr) : option (pystr * Z * bytes) :=
  if bool_decide (addr = []) then None
  else if mixed_case addr then None
  else
    let addr := map lower_char addr in
    if (90 <? length addr)%nat || (length addr <? 8)%nat then None
    else match rfind "1"%char addr with
         | None | Some O => None
         | Some pos =>
             if (length addr <? pos + 7)%nat then None
             else
               let hrp := take pos addr in
               data ← groups_of (drop (S pos) addr);
               if (length data <? 6)%nat then None
               else match data with
                    | [] => None
                    | witver :: rest =>
                        if 16 <? witver then None
                        else
                          let expected_const := if witver =? 0 then _BECH32_CONST else _BECH32M_CONST in
                          if negb (_bech32_polymod (_bech32_hrp_expand hrp ++ data) =? expected_const) then None
                          else
                            decoded ← _convertbits (take (length rest - 6) rest) 5 8 false;
                            let witprog := map z2b decoded in
                            let n := length witprog in
                            if (n <? 2)%nat || (40 <? n)%nat then None
                            else if (witver =? 0) && negb ((n =? 20)%nat || (n =? 32)%nat) then None
                            else Some (hrp, witver, witprog)
                    end
         end.

(** ** Base58Check *)

Fixpoint b58_loop (s : pystr) (n : Z) : result (option Z) :=
  match s with
  | [] => Ok (Some n)
  | ch :: s =>
      if 128 <=? ord ch then Err UnicodeEncodeError
      else match index_of ch _B58_ALPHABET 0 with
           | None => Ok None
           | Some idx => b58_loop s (n * 58 + idx)
           end
  end.

Definition _b58_decode (s : pystr) : result (option bytes) :=
  if bool_decide (s = []) then Ok None
  else
    n ← b58_loop s 0;
    Ok (match n with
        | None => None
        | Some n =>
            let size := (bit_length n + 7) / 8 in
            let full := be_bytes (Z.to_nat (if size =? 0 then 1 else size)) n in
            Some (replicate (leading_ones s) x00 ++ full)
        end).

(** The version byte and the rest of the payload. *)
Definition _decode_base58check (addr : pystr) : result (option (byte * bytes)) :=
  raw ← _b58_decode addr;
  Ok (match raw with
      | None => None
      | Some raw =>
          if (length raw <? 5)%nat then None
          else
            let payload := take (length raw - 4) raw in
            let checksum := drop (length raw - 4) raw in
            if negb (bool_decide (take 4 (sha256 (sha256 payload)) = checksum)) then None
            else if negb (length payload =? 21)%nat then None
            else match payload with v :: h => Some (v, h) | [] => None end
      end).

(** ** The script *)

Record prefixes := mkPrefixes { bech32_hrp : pystr; p2pkh_version : byte; p2sh_version : byte }.

Definition _NETWORK_PREFIXES (network : string) : option prefixes :=
  if String.eqb network "bitcoin" then Some (mkPrefixes (str "bc") x00 x05)
  else if String.eqb network "testnet" || String.eqb network "signet" then Some (mkPrefixes (str "tb") x6f xc4)
  else if String.eqb network "regtest" then Some (mkPrefixes (str "bcrt") x6f xc4)
  else None.

Definition segwit_script (witver : Z) (witprog : bytes) : bytes :=
  let op_n := if witver =? 0 then 0 else 0x50 + witver in
  z2b op_n :: z2b (Z.of_nat (length witprog)) :: witprog.

Definition p2pkh_script (h : bytes) : bytes := [x76; xa9; x14] ++ h ++ [x88; xac].
Definition p2sh_script (h : bytes) : bytes := [xa9; x14] ++ h ++ [x87].

Definition address_to_script_pubkey (address : pystr) (network : string) : result bytes :=
  if bool_decide (address = []) then Err (ValueError "address must be a non-empty string")
  else match _NETWORK_PREFIXES network with
       | None => Err (ValueError "unsupported network")
       | Some prefixes =>
           match _decode_segwit address with
           | Some (hrp, witver, witprog) =>
               if negb (bool_decide (hrp = bech32_hrp prefixes)) then Err (ValueError "address HRP does not match network")
               else Ok (segwit_script witver witprog)
           | None =>
               b58 ← _decode_base58check address;
               match b58 with
               | Some (version, payload) =>
                   if bool_decide (version = p2pkh_version prefixes) then Ok (p2pkh_script payload)
                   else if bool_decide (version = p2sh_version prefixes) then Ok (p2sh_script payload)
                   else Err (ValueError "unsupported base58check version")
               | None => Err (ValueError "unrecognised address format")
               end
           end
       end.

Example bip173_script :
  address_to_script_pubkey (str "bc1qw508d6qejxtdg4y5r3zarvary0c5xw7kv8f3t4") "bitcoin" =
  fromhex "0014751e76e8199196d454941c45d1b3a323f1433bd6".
Proof. vm_compute. reflexivity. Qed.

Example genesis_script :
  address_to_script_pubkey (str "1A1zP1eP5QGefi2DMPTfTL5SLmv7DivfNa") "bitcoin" =
  fromhex "76a91462e907b15cbf27d5425399ebf6f0fb50ebb88f1888ac".
Proof. vm_compute. reflexivity. Qed.

(** ** What the decoders accept *)

(** The decoder is the strict bech32 decoder followed by the rules for
    witness programs. *)
Lemma decode_segwit_bech32 addr :
  _decode_segwit addr =
  match _bech32_decode addr with
  | Some (hrp, ver :: rest, enc) =>
      if (16 <? ver) || negb (enc =? const_of ver) then None
      else
        decoded ← _convertbits rest 5 8 false;
        let n := length decoded in
        if (n <? 2)%nat || (40 <? n)%nat then None
        else if (ver =? 0) && negb ((n =? 20)%nat || (n =? 32)%nat) then None
        else Some (hrp, ver, map z2b decoded)
  | _ => None
  end.
Proof.
  unfold _decode_segwit, _bech32_decode. case_bool_decide as Hn; [by subst|].
  destruct (mixed_case addr); [done|]. set (a := map lower_char addr).
  destruct (rfind _ a) as [[|pos]|] eqn:Hf; [by case_match|..|by case_match].
  destruct (Nat.ltb_spec 90 (length a)) as [H90|H90]; [by rewrite orb_true_r|]. rewrite orb_false_r. cbn [orb].
  destruct (Nat.ltb_spec (length a) (S pos + 7)) as [H7|H7]; [by case_match|].
  rewrite (proj2 (Nat.ltb_ge (length a) 8)) by lia.
  destruct (groups_of (drop (S (S pos)) a)) as [gs|] eqn:Hg; [|done]. simpl.
  assert (Hl : (6 <= length gs)%nat).
  { apply groups_of_iff in Hg as [Hd _]. apply (f_equal length) in Hd. rewrite length_map, length_drop in Hd. lia. }
  rewrite (proj2 (Nat.ltb_ge _ _)) by lia. destruct gs as [|ver gs]; [simpl in Hl; lia|].
  unfold _bech32_verify_checksum. fold (const_of ver).
  set (h := take (S pos) a). set (pm := _bech32_polymod (_bech32_hrp_expand h ++ ver :: gs)).
  replace (length (ver :: gs) - 6)%nat with (length gs - 5)%nat by (simpl; lia).
  destruct (Nat.eq_dec (length gs) 5) as [E5|N5].
  { rewrite E5. change (take (5 - 6) gs) with (@nil Z). change (take (5 - 5) (ver :: gs)) with (@nil Z).
    repeat case_match; simplify_eq; done. }
  replace (length gs - 5)%nat with (S (length gs - 6)) by (simpl in Hl; lia). cbn [take].
  assert (HC : const_of ver = _BECH32_CONST \/ const_of ver = _BECH32M_CONST) by (unfold const_of; case_match; auto).
  destruct (Z.eqb_spec pm _BECH32_CONST) as [E1|N1].
  - rewrite E1. cbn -[_BECH32_CONST const_of _convertbits]. destruct (16 <? ver); [done|]. cbn [orb]. case_match; [done|].
    destruct (_convertbits _ _ _ _) as [d|]; [|done]. simpl. by rewrite length_map.
  - destruct (Z.eqb_spec pm _BECH32M_CONST) as [E2|N2].
    + rewrite E2. cbn -[_BECH32M_CONST const_of _convertbits]. destruct (16 <? ver); [done|]. cbn [orb]. case_match; [done|].
      destruct (_convertbits _ _ _ _) as [d|]; [|done]. simpl. by rewrite length_map.
    + simpl. destruct (16 <? ver); [done|]. destruct (Z.eqb_spec pm (const_of ver)) as [E|]; [|done].
      destruct HC; congruence.
Qed.

(** It accepts exactly the encodings of witness programs, up to case. *)
Lemma decode_segwit_iff addr hrp ver prog :
  _decode_segwit addr = Some (hrp, ver, prog) <->
  mixed_case addr = false /\ (length addr <= 90)%nat /\ hrp <> [] /\ witness_program ver prog /\
  map lower_char addr = segwit_encode hrp ver prog.
Proof.
  rewrite decode_segwit_bech32. split.
  - destruct (_bech32_decode addr) as [[[h [|v rest]] enc]|] eqn:Hd; [done| |done].
    apply checked_decode_iff in Hd as (Hm & Hh & H90 & Hg & He & E).
    destruct (Z.ltb_spec 16 v); [done|]. destruct (Z.eqb_spec enc (const_of v)) as [->|]; [|done]. cbn [orb negb].
    destruct (_convertbits rest 5 8 false) as [p|] eqn:Hc; [|done]. apply convert_program in Hc as (d & -> & ->). simpl.
    rewrite length_map. inversion Hg as [|? ? Hv _]; subst. unfold is_group in Hv.
    destruct (Nat.ltb_spec (length d) 2), (Nat.ltb_spec 40 (length d)); try done. cbn [orb].
    destruct (_ && _) eqn:Hz; [done|]. intros [= <- <- <-]. rewrite map_map, (map_ext _ id), map_id by apply z2b_b2z.
    split_and!; try done. unfold witness_program. split_and!; try lia. intros ->. cbn [Z.eqb andb] in Hz.
    destruct (Nat.eqb_spec (length d) 20), (Nat.eqb_spec (length d) 32); auto. done.
  - intros (Hm & H90 & Hh & (Hv & Hp & H0) & E).
    assert (_bech32_decode addr = Some (hrp, ver :: _convert_8_to_5 prog, const_of ver)) as ->.
    { apply checked_decode_iff. split_and!; try done.
      - constructor; [unfold is_group; lia|apply convert_8_to_5_groups].
      - unfold const_of. case_match; auto. }
    rewrite (proj2 (Z.ltb_ge _ _)), Z.eqb_refl by lia. cbn [orb negb].
    rewrite (proj2 (convert_program _ (map b2z prog))) by eauto. simpl. rewrite length_map.
    rewrite !(proj2 (Nat.ltb_ge _ _)) by lia. cbn [orb]. rewrite map_map, (map_ext _ id), map_id by apply z2b_b2z.
    destruct (Z.eqb_spec ver 0) as [->|N]; [|done]. by destruct (H0 eq_refl) as [->| ->].
Qed.

(** The two Base58 decoders agree except on a string of ones, to whose
    value 0 this one gives a byte. *)
Lemma b58_loop_value s m : forall n,
  b58_loop s n = Ok (Some m) <-> forallb (fun c => ord c <? 128) s = true /\ b58_value s n = Some m.
Proof.
  induction s as [|c s IH]; intros n; cbn [b58_loop b58_value forallb]; [naive_solver|].
  destruct (Z.leb_spec 128 (ord c)), (Z.ltb_spec (ord c) 128); try lia; [naive_solver|]. cbn [andb].
  destruct (index_of c _B58_ALPHABET 0) as [i|]; cbn; [apply IH|naive_solver].
Qed.

(** The width in bytes of a positive number is positive. *)
Lemma width_pos n : 0 < n -> (bit_length n + 7) / 8 =? 0 = false.
Proof.
  intros Hn. apply Z.eqb_neq. unfold bit_length. rewrite (proj2 (Z.eqb_neq n 0)) by lia.
  pose proof (Z.log2_nonneg n). dlia.
Qed.

Lemma b58_value_nonneg s n : b58_value s 0 = Some n -> 0 <= n.
Proof. intros (ds & _ & Hd & ->)%b58_value_iff. by apply unb58_nonneg. Qed.

Lemma b58_decode_iff s raw :
  _b58_decode s = Ok (Some raw) <->
  s <> [] /\ (from_be raw <> 0 /\ s = b58encode raw \/
              b58_value s 0 = Some 0 /\ raw = replicate (S (leading_ones s)) x00).
Proof.
  assert (HZ : forall n, replicate n x00 ++ [x00] = replicate (S n) x00) by (intros n; by rewrite replicate_S_end).
  split.
  - unfold _b58_decode. case_bool_decide as Hs; [done|]. intros H. split; [done|].
    apply bind_Ok in H as (n & Hn & [= Hr]). destruct n as [n|]; [|done]. injection Hr as <-.
    apply b58_loop_value in Hn as [Ha Hn]. pose proof (b58_value_nonneg _ _ Hn) as H0.
    destruct (Z.eqb_spec n 0) as [->|N]; [right; split; [done|apply HZ]|]. left.
    rewrite width_pos by lia. fold (minimal_bytes n).
    assert (E : be_bytes (Z.to_nat ((bit_length n + 7) / 8)) n = minimal_bytes n).
    { unfold minimal_bytes. by rewrite (proj2 (Z.eqb_neq n 0)). }
    rewrite E, from_be_zeros, (proj1 (from_be_minimal n H0)). split; [done|]. apply b58decode_iff.
    unfold _b58decode. rewrite bool_decide_false by done. rewrite Ha. cbn [negb]. by rewrite Hn.
  - intros [Hs [[N E]|[Hv ->]]]; unfold _b58_decode; rewrite bool_decide_false by done.
    + pose proof (proj2 (b58decode_iff s raw) (conj Hs E)) as H. unfold _b58decode in H.
      rewrite bool_decide_false in H by done. destruct (forallb _ s) eqn:Ha; [|done]. cbn [negb] in H.
      destruct (b58_value s 0) as [n|] eqn:Hn; [|done]. rewrite (proj2 (b58_loop_value s n 0)), bind_of_Ok by done.
      injection H as H. pose proof (b58_value_nonneg _ _ Hn) as H0. destruct (Z.eqb_spec n 0) as [->|N0].
      * exfalso. apply N. by rewrite <- H, from_be_zeros.
      * by rewrite width_pos, H by lia.
    + assert (Ha : forallb (fun c => ord c <? 128) s = true).
      { apply b58_value_iff in Hv as (ds & -> & Hd & _). clear Hs.
        induction Hd as [|d ds Hd _ IH]; simpl; [done|]. rewrite IH, andb_true_r. pose proof (b58_index d Hd). lia. }
      rewrite (proj2 (b58_loop_value s 0 0)), bind_of_Ok by done. do 2 f_equal. apply HZ.
Qed.

Lemma zero_raw raw : from_be raw = 0 -> raw = replicate (length raw) x00.
Proof.
  intros H. destruct (lead_split x00 raw) as (z & r & -> & Hh). rewrite from_be_zeros in H.
  pose proof (minimal_from_be r Hh) as E. rewrite H in E. simpl in E. subst r.
  by rewrite app_nil_r, length_replicate.
Qed.

(** The 21 zero bytes do not have a zero checksum. *)
Lemma zero_checksum : take 4 (sha256 (sha256 (replicate 21 x00))) <> replicate 4 x00.
Proof. vm_compute. discriminate. Qed.

#[local] Opaque sha256.

(** It accepts exactly the Base58Check encodings of 21 bytes. *)
Lemma decode_base58check_iff addr v h :
  _decode_base58check addr = Ok (Some (v, h)) <-> length h = 20%nat /\ addr = base58check (v :: h).
Proof.
  unfold _decode_base58check, base58check. split.
  - intros H. apply bind_Ok in H as ([raw|] & Hd & H); [|done]. injection H as H.
    destruct (Nat.ltb_spec (length raw) 5); [done|]. case_bool_decide as Hc; [|done]. cbn [negb] in H.
    destruct (Nat.eqb_spec (length (take (length raw - 4) raw)) 21) as [L|]; [|done]. cbn [negb] in H.
    destruct (take (length raw - 4) raw) as [|v' h'] eqn:E; [done|]. injection H as -> ->.
    assert (Lr : length raw = 25%nat).
    { pose proof (f_equal length E) as L'. rewrite length_take in L'. simpl in *. lia. }
    split; [simpl in L; lia|]. rewrite Hc, <- E, take_drop.
    apply b58_decode_iff in Hd as [_ [[_ ->]|[_ Hz]]]; [done|]. exfalso.
    rewrite Hz, length_replicate in Lr. rewrite Hz, length_replicate, Lr in Hc, E. rewrite <- E in Hc.
    by apply zero_checksum in Hc.
  - intros [L ->]. set (p := v :: h). set (c := take 4 (sha256 (sha256 p))).
    assert (Lc : length c = 4%nat) by (unfold c; rewrite length_take, length_sha256; done).
    assert (Lp : length p = 21%nat) by (simpl; lia).
    rewrite (proj2 (b58_decode_iff _ (p ++ c))), bind_of_Ok.
    + rewrite length_app, Lp, Lc. change (21 + 4 - 4)%nat with 21%nat. cbn [Nat.ltb Nat.leb Nat.add].
      rewrite take_app_length', drop_app_length' by done. rewrite bool_decide_true by done. cbn [negb].
      by rewrite Lp.
    + split; [intros E%b58encode_nil%(f_equal length); by rewrite length_app, Lp in E|]. left. split; [|done].
      intros Z%zero_raw. rewrite length_app, Lp, Lc in Z. apply zero_checksum.
      assert (p = replicate 21 x00) as Ep.
      { apply (f_equal (take 21)) in Z. by rewrite take_app_length' in Z by done. }
      assert (c = replicate 4 x00) as Ec.
      { apply (f_equal (drop 21)) in Z. by rewrite drop_app_length' in Z by done. }
      by rewrite <- Ec, <- Ep.
Qed.

(** ** The script determines the address *)

(** An address and its script, by kind. *)
Inductive pays (p : prefixes) (address : pystr) (spk : bytes) : Prop :=
  | pays_segwit ver prog :
      witness_program ver prog -> mixed_case address = false -> (length address <= 90)%nat ->
      map lower_char address = segwit_encode (bech32_hrp p) ver prog -> spk = segwit_script ver prog -> pays p address spk
  | pays_pkh h :
      length h = 20%nat -> address = base58check (p2pkh_version p :: h) -> spk = p2pkh_script h -> pays p address spk
  | pays_sh h :
      length h = 20%nat -> address = base58check (p2sh_version p :: h) -> spk = p2sh_script h -> pays p address spk.

Lemma prefixes_ok network p :
  _NETWORK_PREFIXES network = Some p -> bech32_hrp p <> [] /\ p2pkh_version p <> p2sh_version p.
Proof. unfold _NETWORK_PREFIXES. repeat case_match; intros [= <-]; done. Qed.

Lemma script_pays address network p spk :
  _NETWORK_PREFIXES network = Some p -> address_to_script_pubkey address network = Ok spk -> pays p address spk.
Proof.
  intros Hp. unfold address_to_script_pubkey. case_bool_decide; [done|]. rewrite Hp.
  destruct (_decode_segwit address) as [[[hrp ver] prog]|] eqn:Hs.
  - apply decode_segwit_iff in Hs as (Hm & H90 & _ & Hw & E). case_bool_decide; [subst|done]. intros [= <-].
    by eapply pays_segwit.
  - intros H'. apply bind_Ok in H' as ([[v h]|] & Hd & H'); [|done]. apply decode_base58check_iff in Hd as [L ->].
    repeat case_bool_decide; subst; [|..|done]; injection H' as <-; [by eapply pays_pkh|by eapply pays_sh].
Qed.

Lemma witness_script_inj ver prog ver' prog' :
  witness_program ver prog -> witness_program ver' prog' -> segwit_script ver prog = segwit_script ver' prog' ->
  ver = ver' /\ prog = prog'.
Proof.
  intros ([Hv Hv'] & _) ([Hw Hw'] & _) [= E _ ->]. split; [|done].
  apply (f_equal b2z) in E. rewrite !b2z_z2b in E.
  rewrite !Z.mod_small in E by (destruct (ver =? 0), (ver' =? 0); lia).
  destruct (Z.eqb_spec ver 0), (Z.eqb_spec ver' 0); lia.
Qed.

(** No witness script starts like the Base58 scripts. *)
Lemma segwit_script_head ver prog : 0 <= ver <= 16 -> exists b t, segwit_script ver prog = b :: t /\ b <> x76 /\ b <> xa9.
Proof.
  intros Hv. eexists _, _. split; [reflexivity|]. split; intros E%(f_equal b2z); rewrite b2z_z2b in E.
  all: rewrite Z.mod_small in E by (destruct (ver =? 0); lia); destruct (Z.eqb_spec ver 0); cbn in E; lia.
Qed.

Lemma pays_same p a b spk :
  bech32_hrp p <> [] -> pays p a spk -> pays p b spk -> a = b \/ map lower_char a = map lower_char b.
Proof.
  intros Hh [ver prog Hw _ _ E Es|h L -> Es|h L -> Es] [ver' prog' Hw' _ _ E' F|h' L' -> F|h' L' -> F]; rewrite Es in F.
  all: try (pose proof (segwit_script_head ver prog ltac:(apply Hw)) as (c & t & Ec & N1 & N2); rewrite Ec in F; by injection F).
  all: try (pose proof (segwit_script_head ver' prog' ltac:(apply Hw')) as (c & t & Ec & N1 & N2); rewrite Ec in F; by injection F).
  all: try done.
  - apply witness_script_inj in F as [-> ->]; [|done|done]. right. by rewrite E, E'.
  - left. injection F as F. apply app_inj_1 in F as [-> _]; [done|lia].
  - left. injection F as F. apply app_inj_1 in F as [-> _]; [done|lia].
Qed.

(** C20. An output script belongs to one address: two addresses of a network
    with the same script are the same, up to the case of a segwit address;
    and every segwit address [validate_bitcoin_address] accepts has one. *)
Theorem script_determines_address network a b spk :
  address_to_script_pubkey a network = Ok spk ->
  (address_to_script_pubkey b network = Ok spk -> a = b \/ map lower_char a = map lower_char b) /\
  (forall hrp firsts c, network_params network = Some (hrp, firsts) ->
     validate_bitcoin_address network c = Ok c -> looks_segwit hrp c = true ->
     exists spk', address_to_script_pubkey c network = Ok spk').
Proof.
  intros Ha. split.
  - intros Hb. destruct (_NETWORK_PREFIXES network) as [p|] eqn:Hp.
    + apply (pays_same p _ _ spk); [by apply (prefixes_ok network)|by eapply script_pays|by eapply script_pays].
    + unfold address_to_script_pubkey in Ha. rewrite Hp in Ha. by case_bool_decide.
  - intros hrp firsts c Hn Hc Hl. destruct (params_ok _ _ _ c Hn) as [Hok _]. pose proof Hok as [(d & t & Hd & _) _].
    assert (exists ver prog, witness_program ver prog /\ (11 <= length prog)%nat /\ c = segwit_encode hrp ver prog)
      as (ver & prog & Hw & _ & Ec).
    { apply (segwit_branch hrp firsts c Hok). apply (proj1 (address_cases _ _ _ _ Hn)) in Hc as [H|H]; [done|].
      apply base58_branch in H as (? & _ & _ & (x & Hx & Hin) & _). by rewrite (no_segwit_prefix hrp firsts c x) in Hl. }
    pose proof Hw as (Hv & Hlen & _). destruct Hok as (_ & Hlow & H4).
    assert (Hs : _decode_segwit c = Some (hrp, ver, prog)).
    { apply decode_segwit_iff. subst c. pose proof (lower_encode hrp ver prog Hlow Hv) as E. split_and!; try done.
      - unfold mixed_case. by rewrite bool_decide_true.
      - by apply segwit_encode_length.
      - by rewrite Hd. }
    unfold address_to_script_pubkey. rewrite bool_decide_false by (intros ->; by rewrite Hd in Ec).
    assert (exists p, _NETWORK_PREFIXES network = Some p /\ bech32_hrp p = hrp) as (p & -> & Eh).
    { clear -Hn. unfold network_params in Hn. unfold _NETWORK_PREFIXES. repeat case_match; simplify_eq; eauto. }
    rewrite Hs, Eh, bool_decide_true by done. eauto.
Qed.

Lemma script_determines_address_witness :
  exists spk, address_to_script_pubkey (str "BC1QW508D6QEJXTDG4Y5R3ZARVARY0C5XW7KV8F3T4") "bitcoin" = Ok spk /\
    exists spk', address_to_script_pubkey p2wpkh "bitcoin" = Ok spk'.
Proof.
  eexists. split; [vm_compute; reflexivity|].
  eapply (script_determines_address "bitcoin" (str "BC1QW508D6QEJXTDG4Y5R3ZARVARY0C5XW7KV8F3T4") []);
    [vm_compute; reflexivity|reflexivity|vm_compute; reflexivity|reflexivity].
Defined.
