(* ===== verification/Bolt11.v ===== *)
(** * BOLT 11 invoices without a node (core/bolt11.py)

    The payment hash and the amount of an invoice read from its text, on the
    recovery paths where LND cannot be asked. A Python [str] is a list of
    code points below 256; on that range [\d] is 0 to 9. *)
From S2P Require Import Prelude Bytes Bech32 Checksum Address.

(** ** Text *)

(** [str.isspace] below 256 *)
Definition is_space (c : ascii) : bool :=
  let z := ord c in ((9 <=? z) && (z <=? 13)) || ((28 <=? z) && (z <=? 32)) || (z =? 133) || (z =? 160).

Fixpoint lstrip (s : pystr) : pystr :=
  match s with c :: t => if is_space c then lstrip t else s | [] => [] end.

Definition strip (s : pystr) : pystr := rev (lstrip (rev (lstrip s))).

(** ** Payment hash *)

Fixpoint _to_5bit (s : pystr) (out : list Z) : list Z :=
  match s with
  | [] => out
  | c :: s => match _CHARSET_REV c with Some idx => _to_5bit s (out ++ [idx]) | None => [] end
  end.

Fixpoint from_5bit_loop (values : list Z) (acc bits : Z) (out : bytes) : bytes :=
  match values with
  | [] => out
  | v :: values =>
      let acc := Z.lor (Z.shiftl acc 5) v in
      let '(bits, out) := drain8 (Z.to_nat (bits + 5)) acc (bits + 5) out in
      from_5bit_loop values acc bits out
  end.

Definition _from_5bit_bytes (values : list Z) : bytes := from_5bit_loop values 0 0 [].

(** The loop over tagged fields, on [tagged[i:]]. *)
Fixpoint field_loop (fuel : nat) (rest : pystr) : option string :=
  match fuel with
  | O => None
  | S fuel =>
      match rest with
      | tag_char :: length_high_c :: length_low_c :: body =>
          length_high ← _CHARSET_REV length_high_c;
          length_low ← _CHARSET_REV length_low_c;
          let field_5bit_count := Z.to_nat (length_high * 32 + length_low) in
          if (length body <? field_5bit_count)%nat then None
          else if bool_decide (tag_char = "p"%char) && (field_5bit_count =? 52)%nat then
            let payload := _from_5bit_bytes (_to_5bit (take field_5bit_count body) []) in
            if (length payload <? 32)%nat then None else Some (hex (take 32 payload))
          else field_loop fuel (drop field_5bit_count body)
      | _ => None
      end
  end.

Definition payment_hash_from_bolt11 (invoice : pystr) : option string :=
  if bool_decide (invoice = []) then None
  else
    let inv := map lower_char (strip invoice) in
    match strip_prefix (str "ln") inv with
    | None => None
    | Some _ =>
        match rfind "1"%char inv with
        | None => None
        | Some sep =>
            let data_part := drop (S sep) inv in
            if bool_decide (data_part = []) then None
            else if (length data_part <? 6 + 7 + 104)%nat then None
            else
              let data_chars := take (length data_part - 6) data_part in
              let tagged := drop 7 (take (length data_chars - 104) data_chars) in
              field_loop (S (length tagged)) tagged
        end
    end.

(** ** Amount *)

(** [_HRP_MULTIPLIER_MSAT_PER_DIGIT]; [None] is the entry of [p]. *)
Definition _HRP_MULTIPLIER_MSAT_PER_DIGIT (multiplier : option ascii) : option Z :=
  match multiplier with
  | None => Some 100000000000
  | Some c =>
      if bool_decide (c = "m"%char) then Some 100000000
      else if bool_decide (c = "u"%char) then Some 100000
      else if bool_decide (c = "n"%char) then Some 100
      else None
  end.

Fixpoint span (p : ascii -> bool) (s : pystr) : pystr * pystr :=
  match s with
  | c :: t => if p c then let '(a, b) := span p t in (c :: a, b) else ([], s)
  | [] => ([], [])
  end.

Definition is_lower (c : ascii) : bool := between "a" "z" c.
Definition is_dec (c : ascii) : bool := between "0" "9" c.
Definition is_mult (c : ascii) : bool := bool_decide (c ∈ str "munp").

(** The end of the subject, or a final newline. *)
Definition at_end (s : pystr) : bool := bool_decide (s = []) || bool_decide (s = [chr 10]).

(** [_HRP_AMOUNT_RE.match(hrp)]: the groups. Letters and digits are disjoint,
    so the reluctant [[a-z]+?] stops at the first digit. *)
Definition _HRP_AMOUNT_RE (hrp : pystr) : option (pystr * option ascii) :=
  rest ← strip_prefix (str "ln") hrp;
  let '(letters, rest) := span is_lower rest in
  let '(digits, rest) := span is_dec rest in
  if bool_decide (letters = []) || bool_decide (digits = []) || (14 <? length digits)%nat then None
  else match rest with
       | c :: tail => if is_mult c && at_end tail then Some (digits, Some c)
                      else if at_end rest then Some (digits, None) else None
       | [] => Some (digits, None)
       end.

Definition int_of (digits : pystr) : Z := foldl (fun acc c => acc * 10 + (ord c - 48)) 0 digits.

Definition principal_sats_from_bolt11 (invoice : pystr) : option Z :=
  if bool_decide (invoice = []) then None
  else
    let inv := map lower_char (strip invoice) in
    match rfind "1"%char inv with
    | None | Some O => None
    | Some sep =>
        '(digits, multiplier) ← _HRP_AMOUNT_RE (take sep inv);
        let value := int_of digits in
        msat ← match multiplier with
               | Some "p"%char => if value mod 10 =? 0 then Some (value / 10) else None
               | m => per_digit ← _HRP_MULTIPLIER_MSAT_PER_DIGIT m; Some (value * per_digit)
               end;
        if msat mod 1000 =? 0 then Some (msat / 1000) else None
    end.

Example principal_ex :
  map principal_sats_from_bolt11 [str "lnbc2500u1pvjluez"; str "lnbc20m1qqq"; str "lnbc1qqq"; str "lnbc15p1qqq"; str "lnbc10n1qqq"] =
  [Some 250000; Some 2000000; None; None; Some 1].
Proof. vm_compute. reflexivity. Qed.

Lemma rfind_rest c s i : rfind c s = Some i -> c ∉ drop (S i) s.
Proof.
  revert i. induction s as [|d s IH]; intros i H; [done|]. simpl in H. destruct (rfind c s) as [j|] eqn:E.
  - injection H as <-. by apply IH.
  - case_bool_decide; [|done]. injection H as <-. by apply rfind_None.
Qed.

(** ** Invoices as BOLT 11 writes them *)

(** A tagged field: its tag and data as 5-bit groups. *)
Record field := mkField { f_tag : Z; f_data : list Z }.

Definition field_ok (f : field) : Prop :=
  is_group (f_tag f) /\ Forall is_group (f_data f) /\ (length (f_data f) < 1024)%nat.

Definition field_groups (f : field) : list Z :=
  let n := Z.of_nat (length (f_data f)) in f_tag f :: n / 32 :: n mod 32 :: f_data f.

(** The data part: timestamp, fields, signature, checksum. *)
Definition invoice_groups (ts : list Z) (fs : list field) (sig cs : list Z) : list Z :=
  ts ++ concat (map field_groups fs) ++ sig ++ cs.

(** A field of tag [p] and 52 groups. *)
Definition is_hash (f : field) : bool := (f_tag f =? 1) && (length (f_data f) =? 52)%nat.

Lemma charset_rev v : is_group v -> _CHARSET_REV (charset_at v) = Some v.
Proof. intros Hv. pose proof (char_value_at v Hv) as H. unfold char_value in H. case_match; naive_solver. Qed.

Lemma to_5bit_groups l : forall out, Forall is_group l -> _to_5bit (map charset_at l) out = out ++ l.
Proof.
  induction l as [|v l IH]; intros out Hl; cbn [map _to_5bit]; [by rewrite app_nil_r|].
  inversion Hl; subst. rewrite charset_rev, IH by done. by rewrite <- app_assoc.
Qed.

Lemma from_5bit_eq l : forall acc bits out r, convert_5_loop l acc bits out = Ok r -> from_5bit_loop l acc bits out = r.2.
Proof.
  induction l as [|v l IH]; intros acc bits out r; cbn [convert_5_loop from_5bit_loop]; [by intros [= <-]|].
  case_match; [done|]. cbv zeta. destruct (drain8 _ _ _ out). apply IH.
Qed.

Lemma from_5bit_out l : Forall is_group l -> _from_5bit_bytes l = out5 l.
Proof. intros Hl. unfold _from_5bit_bytes. by rewrite (from_5bit_eq _ _ _ _ _ (convert_5_start l Hl)). Qed.

Lemma field_groups_ok f : field_ok f -> Forall is_group (field_groups f).
Proof.
  intros (Ht & Hd & Hl). unfold field_groups. constructor; [done|]. constructor.
  - split; [apply Z.div_pos; lia|apply Z.div_lt_upper_bound; lia].
  - constructor; [apply Z.mod_pos_bound; lia|done].
Qed.

Lemma tag_p v : is_group v -> bool_decide (charset_at v = "p"%char) = (v =? 1).
Proof.
  intros Hv. assert (H : forallb (fun v => Bool.eqb (bool_decide (charset_at v = "p"%char)) (v =? 1)) (seqZ 0 32) = true)
    by (vm_compute; reflexivity).
  rewrite List.forallb_forall in H. unfold is_group in Hv.
  apply Bool.eqb_prop, H, list_elem_of_In, elem_of_seqZ. lia.
Qed.

(** One round of the loop on an encoded field. *)
Lemma field_step fuel f rest : field_ok f ->
  field_loop (S fuel) (map charset_at (field_groups f ++ rest)) =
  if is_hash f then Some (hex (out5 (f_data f))) else field_loop fuel (map charset_at rest).
Proof.
  intros Hok. pose proof (field_groups_ok f Hok) as Hg. destruct Hok as (Ht & Hd & Hl).
  unfold field_groups in *. inversion Hg as [|? ? _ Hg1]; subst. inversion Hg1 as [|? ? Hh Hg2]; subst.
  inversion Hg2 as [|? ? Hlo _]; subst. cbn [map app field_loop]. rewrite !charset_rev by done. cbn [mbind option_bind].
  set (n := length (f_data f)) in *.
  replace (Z.to_nat (Z.of_nat n / 32 * 32 + Z.of_nat n mod 32)) with n by (pose proof (Z.div_mod (Z.of_nat n) 32); lia).
  rewrite length_map, length_app, (proj2 (Nat.ltb_ge _ _)) by lia. rewrite tag_p by done. unfold is_hash. fold n.
  rewrite map_app, take_app_length', drop_app_length' by (by rewrite length_map).
  destruct ((f_tag f =? 1) && (n =? 52)%nat) eqn:E; [|done]. apply andb_prop in E as [_ E%Nat.eqb_eq].
  rewrite to_5bit_groups, app_nil_l, from_5bit_out by done.
  assert (L : length (out5 (f_data f)) = 32%nat) by (unfold out5; rewrite length_be_bytes; fold n; rewrite E; done).
  rewrite L. cbn [Nat.ltb Nat.leb]. by rewrite firstn_all2 by lia.
Qed.

Lemma fields_walk fs : forall fuel, Forall field_ok fs -> (length fs < fuel)%nat ->
  field_loop fuel (map charset_at (concat (map field_groups fs))) =
  (fun f => hex (out5 (f_data f))) <$> List.find is_hash fs.
Proof.
  induction fs as [|f fs IH]; intros fuel Hok Hf; (destruct fuel as [|fuel]; [simpl in Hf; lia|]); [done|].
  inversion Hok; subst. cbn [map concat List.find]. rewrite field_step by done.
  destruct (is_hash f); [done|]. apply IH; [done|]. simpl in Hf. lia.
Qed.

Lemma fields_groups_ok fs : Forall field_ok fs -> Forall is_group (concat (map field_groups fs)).
Proof.
  induction 1 as [|f fs Hf _ IH]; [constructor|]. cbn [map concat]. apply Forall_app. split; [by apply field_groups_ok|done].
Qed.

Lemma fields_fuel fs : (length fs <= length (concat (map field_groups fs)))%nat.
Proof. induction fs as [|f fs IH]; simpl; [done|]. rewrite length_app. lia. Qed.

(** The part of an invoice the loop reads. *)
Lemma tagged_part ts fs sig cs hrp :
  length ts = 7%nat -> length sig = 104%nat -> length cs = 6%nat ->
  let data := map charset_at (invoice_groups ts fs sig cs) in
  drop 7 (take (length (take (length data - 6) data) - 104) (take (length data - 6) data)) =
  map charset_at (concat (map field_groups fs)) /\ (117 <= length data)%nat /\ hrp ++ "1"%char :: data <> [].
Proof.
  intros Ht Hs Hc data. unfold data, invoice_groups. rewrite !map_app, !app_assoc. set (F := map charset_at (concat _)).
  assert (E : forall l : list ascii, (length (l ++ map charset_at cs) - 6 = length l)%nat)
    by (intros l; rewrite length_app, length_map; lia).
  rewrite E, take_app_length.
  assert (E2 : forall l : list ascii, (length (l ++ map charset_at sig) - 104 = length l)%nat)
    by (intros l; rewrite length_app, length_map; lia).
  rewrite E2, take_app_length, drop_app_length' by (by rewrite length_map).
  split_and!; [done| |by destruct hrp]. rewrite !length_app, !length_map. lia.
Qed.

(** C24. The payment hash read from an invoice. For every text that, stripped
    and lower-cased, is a prefix beginning with [ln], the separator and the
    groups of a timestamp, tagged fields, a signature and a checksum, the
    function returns the hash of the first [p] field of 52 groups, and [None]
    if there is none: other fields, also [p] fields of other lengths and
    whatever the signature contains, are passed over. A field made from a
    32-byte hash gives back that hash. *)
Theorem payment_hash_correct invoice hrp ts fs sig cs :
  length ts = 7%nat -> length sig = 104%nat -> length cs = 6%nat ->
  Forall is_group ts -> Forall field_ok fs -> Forall is_group sig -> Forall is_group cs ->
  invoice <> [] -> map lower_char (strip invoice) = str "ln" ++ hrp ++ "1"%char :: map charset_at (invoice_groups ts fs sig cs) ->
  (List.find is_hash fs = None -> payment_hash_from_bolt11 invoice = None) /\
  (forall f h, List.find is_hash fs = Some f -> f_data f = _convert_8_to_5 h ->
     payment_hash_from_bolt11 invoice = Some (hex h)).
Proof.
  intros Ht Hs Hc Gt Gf Gs Gc Hne E.
  assert (H : payment_hash_from_bolt11 invoice = (fun f => hex (out5 (f_data f))) <$> List.find is_hash fs).
  { unfold payment_hash_from_bolt11. rewrite bool_decide_false by done. rewrite E, strip_prefix_app, app_assoc.
    rewrite rfind_last.
    2: { apply charset_not_1. unfold invoice_groups. rewrite !Forall_app. split_and!; try done. by apply fields_groups_ok. }
    rewrite drop_middle. destruct (tagged_part ts fs sig cs hrp Ht Hs Hc) as (-> & Hl & _).
    rewrite bool_decide_false by (intros E'; rewrite E' in Hl; simpl in Hl; lia).
    rewrite (proj2 (Nat.ltb_ge _ _)) by (simpl; lia).
    apply fields_walk; [done|]. rewrite length_map. pose proof (fields_fuel fs). lia. }
  rewrite H. split; [by intros ->|]. intros f h -> Ef. cbn [fmap option_fmap option_map]. do 2 f_equal.
  rewrite Ef. pose proof (convert_8_5_8 h) as R. apply convert_5_to_8_Ok in R as (_ & _ & _ & R). by rewrite <- R.
Qed.

Definition demo_hash : bytes := replicate 31 x07 ++ [xff].
Definition demo_fields : list field := [mkField 13 [1; 2]; mkField 1 [5]; mkField 1 (_convert_8_to_5 demo_hash)].
Definition demo_invoice : pystr :=
  str " LN" ++ str "bc20m" ++ "1"%char :: map charset_at (invoice_groups (replicate 7 0) demo_fields (replicate 104 1) (replicate 6 3)).

Lemma payment_hash_correct_witness : payment_hash_from_bolt11 demo_invoice = Some (hex demo_hash).
Proof.
  refine (proj2 (payment_hash_correct demo_invoice (str "bc20m") (replicate 7 0) demo_fields (replicate 104 1) (replicate 6 3)
                   _ _ _ _ _ _ _ _ _) (mkField 1 (_convert_8_to_5 demo_hash)) demo_hash _ _).
  - reflexivity.
  - reflexivity.
  - reflexivity.
  - apply Forall_replicate. unfold is_group. lia.
  - unfold demo_fields, field_ok, is_group. repeat constructor; vm_compute; (reflexivity || discriminate || lia).
  - apply Forall_replicate. unfold is_group. lia.
  - apply Forall_replicate. unfold is_group. lia.
  - discriminate.
  - vm_compute. reflexivity.
  - reflexivity.
  - reflexivity.
Defined.

(** ** The amount *)

(** An amount of a human-readable part in tenths of a millisatoshi. *)
Definition unit_of (multiplier : option ascii) : Z :=
  match multiplier with
  | None => 10 ^ 12
  | Some "m"%char => 10 ^ 9
  | Some "u"%char => 10 ^ 6
  | Some "n"%char => 10 ^ 3
  | Some _ => 1
  end.

(** [ln], a currency, an amount of 1 to 14 digits, a multiplier. *)
Definition hrp_amount (hrp digits : pystr) (multiplier : option ascii) : Prop :=
  exists currency tail, hrp = str "ln" ++ currency ++ digits ++ option_list multiplier ++ tail /\
    currency <> [] /\ forallb is_lower currency = true /\ forallb is_dec digits = true /\
    (1 <= length digits <= 14)%nat /\ (forall c, multiplier = Some c -> is_mult c = true) /\ at_end tail = true.

Definition head_not (p : ascii -> bool) (s : pystr) : Prop := forall c, head s = Some c -> p c = false.

Lemma span_app p a b : forallb p a = true -> head_not p b -> span p (a ++ b) = (a, b).
Proof.
  intros Ha Hb. induction a as [|c a IH]; simpl in *.
  - destruct b as [|c b]; [done|]. simpl. by rewrite (Hb c).
  - apply andb_prop in Ha as [-> Ha]. by rewrite IH.
Qed.

Lemma span_inv p s a b : span p s = (a, b) -> s = a ++ b /\ forallb p a = true.
Proof.
  revert a b. induction s as [|c s IH]; intros a b; simpl; [by intros [= <- <-]|].
  destruct (p c) eqn:E; [|by intros [= <- <-]]. destruct (span p s) as [a' b']. intros [= <- <-].
  destruct (IH a' b' eq_refl) as [-> ?]. simpl. by rewrite E.
Qed.

(** Which classes the characters of a human-readable part are in. *)
Lemma class_disjoint c : (is_dec c = true -> is_lower c = false) /\ (is_mult c = true -> is_dec c = false).
Proof.
  unfold is_dec, is_lower, is_mult, between. split.
  - change (ord "a"%char) with 97. change (ord "0"%char) with 48. change (ord "9"%char) with 57. lia.
  - intros H%bool_decide_eq_true. repeat (apply elem_of_cons in H as [->|H]; [done|]). by apply not_elem_of_nil in H.
Qed.

Lemma at_end_cases s : at_end s = true <-> s = [] \/ s = [chr 10].
Proof. unfold at_end. rewrite orb_true_iff, !bool_decide_eq_true. done. Qed.

Lemma hrp_amount_iff hrp digits m : _HRP_AMOUNT_RE hrp = Some (digits, m) <-> hrp_amount hrp digits m.
Proof.
  unfold _HRP_AMOUNT_RE. split.
  - destruct (strip_prefix _ hrp) as [rest|] eqn:Hp; [|done]. cbn [mbind option_bind]. apply strip_prefix_Some in Hp as ->.
    destruct (span is_lower rest) as [cur rest1] eqn:E1. apply span_inv in E1 as [-> Hcur].
    destruct (span is_dec rest1) as [ds rest2] eqn:E2. apply span_inv in E2 as [-> Hds].
    case_bool_decide as Ec; [done|]. case_bool_decide as Ed; [done|]. cbn [orb].
    destruct (Nat.ltb_spec 14 (length ds)); [done|].
    assert (Hd : (1 <= length ds <= 14)%nat) by (destruct ds; [done|simpl in *; lia]).
    destruct rest2 as [|c tail]; [intros [= <- <-]; by exists cur, []|].
    destruct (is_mult c && at_end tail) eqn:Em.
    + intros [= <- <-]. apply andb_prop in Em as [Em Et]. exists cur, tail. split_and!; try done; try lia. by intros ? [= <-].
    + destruct (at_end (c :: tail)) eqn:Et; [|done]. intros [= <- <-]. by exists cur, (c :: tail).
  - intros (cur & tail & -> & Hne & Hcur & Hds & Hl & Hm & Ht). rewrite strip_prefix_app. cbn [mbind option_bind].
    apply at_end_cases in Ht.
    assert (Hd : head_not is_lower (digits ++ option_list m ++ tail)).
    { destruct digits as [|d digits]; [simpl in Hl; lia|]. intros c [= <-]. apply andb_prop in Hds as [Hd _].
      by apply class_disjoint. }
    rewrite (span_app is_lower) by done.
    assert (Hr : head_not is_dec (option_list m ++ tail)).
    { destruct m as [c|]; intros d; simpl.
      { intros [= <-]. by apply class_disjoint, Hm. }
      destruct Ht as [->| ->]; [done|by intros [= <-]]. }
    rewrite (span_app is_dec) by done.
    assert (digits <> []) by (intros ->; simpl in Hl; lia). rewrite !bool_decide_false by done.
    cbn [orb]. rewrite (proj2 (Nat.ltb_ge _ _)) by lia. destruct m as [c|]; simpl.
    + by rewrite (Hm c eq_refl), (proj2 (at_end_cases tail) Ht).
    + by destruct Ht as [->| ->].
Qed.

(** The source's arithmetic, in tenths of a millisatoshi. *)
Lemma sats_exact value m n : (forall c, m = Some c -> is_mult c = true) -> 0 <= value ->
  (msat ← match m with
          | Some "p"%char => if value mod 10 =? 0 then Some (value / 10) else None
          | m => per_digit ← _HRP_MULTIPLIER_MSAT_PER_DIGIT m; Some (value * per_digit)
          end;
   if msat mod 1000 =? 0 then Some (msat / 1000) else None) = Some n <-> value * unit_of m = n * 10 ^ 4.
Proof.
  intros Hm Hv.
  assert (Hdiv : forall msat, (if msat mod 1000 =? 0 then Some (msat / 1000) else None) = Some n <-> msat = n * 1000).
  { intros msat. pose proof (Z.div_mod msat 1000). pose proof (Z.mod_pos_bound msat 1000).
    destruct (Z.eqb_spec (msat mod 1000) 0).
    - split; [intros [= <-]; lia|]. intros E. f_equal. lia.
    - split; [done|]. lia. }
  destruct m as [c|]; [|etransitivity; [apply (Hdiv (value * 100000000000))|]; change (unit_of None) with (10 ^ 12); lia].
  specialize (Hm c eq_refl). unfold is_mult in Hm. apply bool_decide_eq_true in Hm.
  repeat (apply elem_of_cons in Hm as [->|Hm]; [|]); [..|by apply not_elem_of_nil in Hm].
  - etransitivity; [apply (Hdiv (value * 100000000))|]. change (unit_of _) with (10 ^ 9). lia.
  - etransitivity; [apply (Hdiv (value * 100000))|]. change (unit_of _) with (10 ^ 6). lia.
  - etransitivity; [apply (Hdiv (value * 100))|]. change (unit_of _) with (10 ^ 3). lia.
  - change (unit_of _) with 1. pose proof (Z.div_mod value 10). pose proof (Z.mod_pos_bound value 10).
    destruct (Z.eqb_spec (value mod 10) 0); cbn [mbind option_bind]; [rewrite Hdiv; lia|]. split; [done|]. lia.
Qed.

Lemma int_of_nonneg digits : forallb is_dec digits = true -> 0 <= int_of digits.
Proof.
  unfold int_of. induction digits as [|c digits IH] using rev_ind; [done|]. rewrite forallb_app, foldl_snoc.
  intros [H1 H2]%andb_prop. specialize (IH H1). simpl in H2. unfold is_dec, between in H2.
  change (ord "0"%char) with 48 in H2. change (ord "9"%char) with 57 in H2. lia.
Qed.

(** The amount of an invoice, exactly: [n] satoshis are returned exactly
    when the text before the last [1] is [ln], a currency, an amount of 1 to
    14 digits and an optional multiplier whose value is [n] satoshis to the
    tenth of a millisatoshi. Amounts that are not whole satoshis and texts of
    any other form give [None]. *)
Theorem principal_exact invoice n :
  principal_sats_from_bolt11 invoice = Some n <->
  invoice <> [] /\ exists hrp data digits m,
    map lower_char (strip invoice) = hrp ++ "1"%char :: data /\ ("1"%char ∉ data) /\
    hrp_amount hrp digits m /\ int_of digits * unit_of m = n * 10 ^ 4.
Proof.
  assert (Hamt : forall hrp digits m, hrp_amount hrp digits m -> 0 <= int_of digits /\ forall c, m = Some c -> is_mult c = true).
  { intros hrp digits m (cur & tail & _ & _ & _ & Hd & _ & Hm & _). split; [by apply int_of_nonneg|done]. }
  unfold principal_sats_from_bolt11. case_bool_decide as Hne; [naive_solver|]. split.
  - destruct (rfind _ _) as [[|sep]|] eqn:Hf; try done. pose proof (rfind_Some _ _ _ Hf) as Hs.
    destruct (_HRP_AMOUNT_RE _) as [[digits m]|] eqn:Hr; [|done]. cbn [mbind option_bind]. intros H.
    apply hrp_amount_iff in Hr. destruct (Hamt _ _ _ Hr) as [Hn Hm]. apply (sats_exact _ m n Hm Hn) in H.
    split; [done|]. eexists _, _, digits, m. split_and!; [exact Hs| |exact Hr|exact H]. by apply (rfind_rest _ _ _ Hf).
  - intros (_ & hrp & data & digits & m & -> & Hd & Hr & Hv). rewrite rfind_last by done.
    destruct (Hamt _ _ _ Hr) as [Hn Hm]. assert (Hlen : length hrp <> O).
    { destruct Hr as (cur & tail & -> & _). done. }
    destruct (length hrp) as [|l] eqn:El; [done|]. rewrite <- El, take_app_length.
    rewrite (proj2 (hrp_amount_iff hrp digits m) Hr). cbn [mbind option_bind]. by apply (sats_exact _ m n Hm Hn).
Qed.
