(* ===== verification/TxPolicy.v ===== *)
(** * Transaction envelope checks

    anonymize/txpolicy.py and the claim check of cooperative_claim.py, on
    the raw bytes of a transaction. Reads past the end are Python's: an
    index raises, a slice is cut short. Offsets are integers, since a length
    prefix may name any 64-bit number. *)
From S2P Require Import Prelude Bytes Sha256.

Definition ANONYMIZE_TX_NVERSION : Z := 2.
Definition ANONYMIZE_TX_NSEQUENCE : Z := 0xFFFFFFFD.

(** ** Reading *)

Definition size (data : bytes) : Z := Z.of_nat (length data).

(** [data[i:]] and [data[i:j]], for [0 <= i] *)
Definition from_offset (data : bytes) (i : Z) : bytes :=
  if size data <=? i then [] else drop (Z.to_nat i) data.

Definition sub (data : bytes) (i j : Z) : bytes :=
  take (Z.to_nat (Z.min (j - i) (size data))) (from_offset data i).

(** [data[i]] *)
Definition byte_at (data : bytes) (i : Z) : result Z :=
  match from_offset data i with
  | b :: _ => Ok (b2z b)
  | [] => Err IndexError
  end.

(** [int.from_bytes(data, "little")] *)
Definition from_le (data : bytes) : Z := from_be (rev data).

Definition _read_u32_le (data : bytes) (offset : Z) : Z := from_le (sub data offset (offset + 4)).

(** The value and the number of bytes consumed. *)
Definition _read_varint (data : bytes) (offset : Z) : result (Z * Z) :=
  first ← byte_at data offset;
  if first <? 0xFD then Ok (first, 1)
  else if first =? 0xFD then Ok (from_le (sub data (offset + 1) (offset + 3)), 3)
  else if first =? 0xFE then Ok (from_le (sub data (offset + 1) (offset + 5)), 5)
  else Ok (from_le (sub data (offset + 1) (offset + 9)), 9).

(** [for _ in range(n)] over items that follow each other. Every item reads
    a byte at its own offset or later and moves on, so after one turn per
    byte the next read raises: that is what the last turn of the fuel does. *)
Fixpoint loop {X} (item : Z -> result (Z * X)) (fuel : nat) (n offset : Z) : result (Z * list X) :=
  if n <=? 0 then Ok (offset, [])
  else match fuel with
       | O => Err IndexError
       | S fuel =>
           '(offset, x) ← item offset;
           '(offset, xs) ← loop item fuel (n - 1) offset;
           Ok (offset, x :: xs)
       end.

Definition range_loop {X} (raw : bytes) (item : Z -> result (Z * X)) (n offset : Z) : result (Z * list X) :=
  loop item (S (length raw)) n offset.

(** One input, with its nSequence; one output; one witness stack. *)
Definition input_at (raw : bytes) (offset : Z) : result (Z * Z) :=
  '(sig_len, sig_size) ← _read_varint raw (offset + 36);
  let offset := offset + 36 + sig_size + sig_len in
  Ok (offset + 4, _read_u32_le raw offset).

Definition output_at (raw : bytes) (offset : Z) : result (Z * unit) :=
  '(spk_len, spk_size) ← _read_varint raw (offset + 8);
  Ok (offset + 8 + spk_size + spk_len, tt).

Definition witness_item_at (raw : bytes) (offset : Z) : result (Z * unit) :=
  '(item_len, item_size) ← _read_varint raw offset;
  Ok (offset + item_size + item_len, tt).

Definition witness_at (raw : bytes) (offset : Z) : result (Z * unit) :=
  '(stack_len, stack_len_size) ← _read_varint raw offset;
  '(offset, _) ← range_loop raw (witness_item_at raw) stack_len (offset + stack_len_size);
  Ok (offset, tt).

(** ** txpolicy.py *)

Definition read_hex (tx_hex : string) : result bytes :=
  match fromhex tx_hex with
  | Ok raw => Ok raw
  | Err _ => Err (TxEnvelopePolicyError "tx_hex is not valid hex")
  end.

(** The marker and flag of a witness serialisation after nVersion. *)
Definition has_witness_marker (raw : bytes) : result bool :=
  a ← byte_at raw 4;
  if a =? 0 then b ← byte_at raw 5; Ok (b =? 1) else Ok false.

(** From behind the input count to nLockTime, as both functions below write
    it out: the sequences, and the ends of inputs, outputs and witnesses. *)
Definition walk (raw : bytes) (has_witness : bool) (n_inputs offset : Z) : result (list Z * Z * Z * Z) :=
  '(inputs_end, sequences) ← range_loop raw (input_at raw) n_inputs offset;
  '(n_outputs, n_out_size) ← _read_varint raw inputs_end;
  '(outputs_end, _) ← range_loop raw (output_at raw) n_outputs (inputs_end + n_out_size);
  '(offset, _) ← (if has_witness then range_loop raw (witness_at raw) n_inputs outputs_end else Ok (outputs_end, []));
  Ok (sequences, inputs_end, outputs_end, offset).

Definition compute_txid_from_hex (tx_hex : string) : result string :=
  raw ← read_hex tx_hex;
  if size raw <? 10 then Err (TxEnvelopePolicyError "tx_hex too short to be a valid Bitcoin tx")
  else
    has_witness ← has_witness_marker raw;
    let inputs_start := if has_witness : bool then 6 else 4 in
    '(n_inputs, n_inputs_size) ← _read_varint raw inputs_start;
    '(_, inputs_end, outputs_end, offset) ← walk raw has_witness n_inputs (inputs_start + n_inputs_size);
    if size raw <? offset + 4 then Err (TxEnvelopePolicyError "truncated tx - nLockTime missing")
    else
      let locktime := sub raw offset (offset + 4) in
      let stripped := sub raw 0 4 ++ sub raw inputs_start inputs_end ++ sub raw inputs_end outputs_end ++ locktime in
      Ok (hex (rev (sha256 (sha256 stripped)))).

Definition assert_envelope_policy (tx_hex : string) (expected_n_locktime : option Z) (expected_n_sequence : Z)
    : result unit :=
  raw ← read_hex tx_hex;
  if size raw <? 10 then Err (TxEnvelopePolicyError "tx_hex too short to be a valid Bitcoin tx")
  else if negb (_read_u32_le raw 0 =? ANONYMIZE_TX_NVERSION) then Err (TxEnvelopePolicyError "nVersion")
  else
    has_witness ← has_witness_marker raw;
    let offset := if has_witness : bool then 6 else 4 in
    '(n_inputs, n_inputs_size) ← _read_varint raw offset;
    if n_inputs =? 0 then Err (TxEnvelopePolicyError "tx has zero inputs")
    else
      '(sequences, _, _, offset) ← walk raw has_witness n_inputs (offset + n_inputs_size);
      if size raw <? offset + 4 then Err (TxEnvelopePolicyError "truncated tx - nLockTime missing")
      else
        let n_locktime := _read_u32_le raw offset in
        if negb (forallb (fun s => s =? expected_n_sequence) sequences)
        then Err (TxEnvelopePolicyError "input(s) have nSequence")
        else match expected_n_locktime with
             | Some t => if n_locktime =? t then Ok tt else Err (TxEnvelopePolicyError "nLockTime")
             | None => Ok tt
             end.

(** [sorted(prevouts, key=lambda t: (t[0], t[1]))] compared with the list *)
Definition prevout_le (a b : bytes * Z) : bool :=
  if bool_decide (a.1 = b.1) then a.2 <=? b.2 else bytes_le a.1 b.1.

Definition prevout_order (a b : bytes * Z) : Prop := prevout_le a b = true.

Global Instance prevout_order_dec a b : Decision (prevout_order a b).
Proof. unfold prevout_order. apply _. Defined.

Definition assert_bip69_ordering_inputs (prevout_tuples : list (bytes * Z)) : result unit :=
  match prevout_tuples with
  | [] => Ok tt
  | _ =>
      if bool_decide (merge_sort prevout_order prevout_tuples = prevout_tuples) then Ok tt
      else Err (TxEnvelopePolicyError "inputs are not BIP-69-sorted")
  end.

(** ** cooperative_claim.py *)

Definition validate_cooperative_claim_tx (tx_hex expected_output_script_hex : string) (band : Z * Z)
    (expected_n_locktime : option Z) : result unit :=
  match assert_envelope_policy tx_hex expected_n_locktime ANONYMIZE_TX_NSEQUENCE with
  | Err (TxEnvelopePolicyError m) => Err (ClaimTxValidationError m)
  | Err e => Err e
  | Ok _ =>
      match fromhex tx_hex with
      | Err _ => Err (ClaimTxValidationError "tx_hex is not valid hex")
      | Ok raw =>
          has_witness ← has_witness_marker raw;
          let offset := if has_witness : bool then 6 else 4 in
          '(n_inputs, n_inputs_size) ← _read_varint raw offset;
          if negb (n_inputs =? 1) then Err (ClaimTxValidationError "must have exactly 1 input")
          else
            '(offset, _) ← range_loop raw (input_at raw) n_inputs (offset + n_inputs_size);
            '(n_outputs, n_out_size) ← _read_varint raw offset;
            let offset := offset + n_out_size in
            if negb (n_outputs =? 1) then Err (ClaimTxValidationError "must have exactly 1 output")
            else
              let output_value_sat := from_le (sub raw offset (offset + 8)) in
              let offset := offset + 8 in
              '(spk_len, spk_size) ← _read_varint raw offset;
              let offset := offset + spk_size in
              let actual_spk := sub raw offset (offset + spk_len) in
              expected_spk ← fromhex expected_output_script_hex;
              if negb (bool_decide (actual_spk = expected_spk))
              then Err (ClaimTxValidationError "scriptPubKey does not match expected destination")
              else if negb ((band.1 <=? output_value_sat) && (output_value_sat <=? band.2))
              then Err (ClaimTxValidationError "output value outside band")
              else Ok tt
      end
  end.

(** ** Slices *)

Lemma from_offset_drop data i : 0 <= i -> from_offset data i = drop (Z.to_nat i) data.
Proof.
  intros Hi. unfold from_offset, size. destruct (Z.leb_spec (Z.of_nat (length data)) i) as [H|H]; [|done].
  rewrite drop_ge; [done|lia].
Qed.

Lemma sub_slice data i j : 0 <= i -> sub data i j = take (Z.to_nat (j - i)) (drop (Z.to_nat i) data).
Proof.
  intros Hi. unfold sub. rewrite from_offset_drop by done.
  destruct (Z.le_gt_cases (j - i) (size data)) as [H|H]; [by rewrite Z.min_l|].
  rewrite Z.min_r by lia. unfold size in *. rewrite !take_ge; [done| |]; rewrite length_drop; lia.
Qed.

Lemma sub_mid pre m suf i j : size pre = i -> j = i + size m -> sub (pre ++ m ++ suf) i j = m.
Proof.
  unfold size. intros <- ->. rewrite sub_slice by lia.
  replace (Z.to_nat (Z.of_nat (length pre))) with (length pre) by lia.
  rewrite drop_app_length. replace (Z.to_nat _) with (length m) by lia. apply take_app_length.
Qed.

Lemma size_sub data i j : 0 <= i <= j -> j <= size data -> size (sub data i j) = j - i.
Proof. intros Hi Hj. rewrite sub_slice by lia. unfold size in *. rewrite length_take, length_drop. lia. Qed.

Lemma sub_app data i j k : 0 <= i <= j -> j <= k -> sub data i k = sub data i j ++ sub data j k.
Proof.
  intros Hi Hj. rewrite !sub_slice by lia.
  replace (Z.to_nat (k - i)) with (Z.to_nat (j - i) + Z.to_nat (k - j))%nat by lia.
  rewrite <- take_take_drop, drop_drop. do 3 f_equal. lia.
Qed.

Lemma sub_full data : sub data 0 (size data) = data.
Proof. rewrite sub_slice by lia. unfold size. rewrite Z.sub_0_r, Nat2Z.id. by rewrite take_ge. Qed.

(** A slice in the middle. *)
Lemma split_at data i j :
  0 <= i <= j -> j <= size data -> data = sub data 0 i ++ sub data i j ++ sub data j (size data).
Proof. intros Hi Hj. rewrite <- !sub_app by lia. by rewrite sub_full. Qed.

Lemma byte_at_mid pre b suf i : size pre = i -> byte_at (pre ++ b :: suf) i = Ok (b2z b).
Proof.
  unfold size. intros <-. unfold byte_at. rewrite from_offset_drop by lia.
  by rewrite Nat2Z.id, drop_app_length.
Qed.

Lemma byte_at_Ok data i v :
  0 <= i -> byte_at data i = Ok v -> i < size data /\ exists b, v = b2z b /\ sub data i (i + 1) = [b].
Proof.
  intros Hi. unfold byte_at. destruct (from_offset data i) as [|b l] eqn:E; [done|]. intros [= <-].
  rewrite from_offset_drop in E by done. split.
  - assert (H : length (drop (Z.to_nat i) data) <> 0%nat) by (by rewrite E).
    rewrite length_drop in H. unfold size. lia.
  - exists b. split; [done|]. rewrite sub_slice, E by done. by replace (Z.to_nat (i + 1 - i)) with 1%nat by lia.
Qed.

(** ** Little-endian integers *)

Definition le_bytes (n : nat) (v : Z) : bytes := rev (be_bytes n v).

Lemma from_le_range d : 0 <= from_le d < 256 ^ size d.
Proof. unfold from_le, size. pose proof (from_be_range (rev d)) as H. by rewrite length_rev in H. Qed.

Lemma from_le_le_bytes n v : 0 <= v < 256 ^ Z.of_nat n -> from_le (le_bytes n v) = v.
Proof. intros H. unfold from_le, le_bytes. rewrite rev_involutive. by apply from_be_be_bytes. Qed.

(** ** The grammar of a transaction *)

(** A length prefix; nothing asks for the shortest form. *)
Inductive varint (v : Z) : bytes -> Prop :=
  | varint_1 : 0 <= v < 0xFD -> varint v [z2b v]
  | varint_3 d : size d = 2 -> v = from_le d -> varint v (z2b 0xFD :: d)
  | varint_5 d : size d = 4 -> v = from_le d -> varint v (z2b 0xFE :: d)
  | varint_9 d : size d = 8 -> v = from_le d -> varint v (z2b 0xFF :: d).

Lemma size_app (a b : bytes) : size (a ++ b) = size a + size b.
Proof. unfold size. rewrite length_app. lia. Qed.

Lemma size_cons (b : byte) (l : bytes) : size (b :: l) = 1 + size l.
Proof. unfold size. cbn [length]. lia. Qed.

Lemma size_nonneg (a : bytes) : 0 <= size a.
Proof. unfold size. lia. Qed.

Lemma sub_after pre b m suf i j :
  i = size pre + 1 -> j = i + size m -> sub (pre ++ b :: m ++ suf) i j = m.
Proof.
  intros Hi Hj. change (b :: m ++ suf) with ([b] ++ m ++ suf). rewrite (assoc app).
  apply sub_mid; [|done]. rewrite size_app. by rewrite Hi.
Qed.

Lemma read_varint_mid v vb pre suf : varint v vb -> _read_varint (pre ++ vb ++ suf) (size pre) = Ok (v, size vb).
Proof.
  intros H. unfold _read_varint. destruct H as [Hv|d Hd ->|d Hd ->|d Hd ->]; cbn [app];
    rewrite byte_at_mid by done; rewrite bind_of_Ok, b2z_z2b.
  - rewrite Z.mod_small by lia. destruct (Z.ltb_spec v 0xFD); [done|lia].
  - change (0xFD mod 256 <? 0xFD) with false. change (0xFD mod 256 =? 0xFD) with true. cbn match.
    rewrite size_cons, Hd. do 3 f_equal.
    apply sub_after; lia.
  - change (0xFE mod 256 <? 0xFD) with false. change (0xFE mod 256 =? 0xFD) with false.
    change (0xFE mod 256 =? 0xFE) with true. cbn match. rewrite size_cons, Hd. do 3 f_equal.
    apply sub_after; lia.
  - change (0xFF mod 256 <? 0xFD) with false. change (0xFF mod 256 =? 0xFD) with false.
    change (0xFF mod 256 =? 0xFE) with false. cbn match. rewrite size_cons, Hd. do 3 f_equal.
    apply sub_after; lia.
Qed.

Lemma read_varint_Ok raw off v n :
  0 <= off -> _read_varint raw off = Ok (v, n) ->
  off < size raw /\ 1 <= n <= 9 /\ 0 <= v /\ (off + n <= size raw -> varint v (sub raw off (off + n))).
Proof.
  intros Hoff H. unfold _read_varint in H. apply bind_Ok in H as (first & Hb & H).
  destruct (byte_at_Ok raw off first Hoff Hb) as (Hlt & b & -> & Hsub). split; [done|].
  pose proof (b2z_range b) as Hr.
  assert (Hlong : forall m, off + 1 + m <= size raw -> 0 <= m ->
    sub raw off (off + (1 + m)) = b :: sub raw (off + 1) (off + (1 + m)) /\
    size (sub raw (off + 1) (off + (1 + m))) = m).
  { intros m Hm Hm0. rewrite (sub_app raw off (off + 1)) by lia. rewrite Hsub. split; [done|].
    rewrite size_sub; lia. }
  assert (Hle : forall m, 0 <= from_le m) by (intros m; apply from_le_range).
  destruct (Z.ltb_spec (b2z b) 0xFD).
  { injection H as <- <-. split; [lia|]. split; [lia|]. intros _. rewrite Hsub.
    assert (V : varint (b2z b) [z2b (b2z b)]) by (constructor; lia). by rewrite z2b_b2z in V. }
  destruct (Z.eqb_spec (b2z b) 0xFD) as [E|E].
  { injection H as <- <-. split; [lia|]. split; [apply Hle|]. intros Hs.
    destruct (Hlong 2) as [El Hsz]; [lia|lia|]. change (1 + 2) with 3 in El, Hsz. rewrite El. rewrite <- (z2b_b2z b), E. by constructor. }
  destruct (Z.eqb_spec (b2z b) 0xFE) as [E'|E'].
  { injection H as <- <-. split; [lia|]. split; [apply Hle|]. intros Hs.
    destruct (Hlong 4) as [El Hsz]; [lia|lia|]. change (1 + 4) with 5 in El, Hsz. rewrite El. rewrite <- (z2b_b2z b), E'. by constructor. }
  injection H as <- <-. split; [lia|]. split; [apply Hle|]. intros Hs.
  destruct (Hlong 8) as [El Hsz]; [lia|lia|]. change (1 + 8) with 9 in El, Hsz. rewrite El. rewrite <- (z2b_b2z b). replace (b2z b) with 0xFF by lia.
  by constructor.
Qed.

(** ** Items in a row *)

(** [item] reads exactly the words of [G]: soundness up to the end of the
    data, completeness, and the exception behind the end. *)
Class Reads {X} (raw : bytes) (item : Z -> result (Z * X)) (G : X -> bytes -> Prop) : Prop := {
  reads_Ok off off' x : 0 <= off -> item off = Ok (off', x) ->
    off < off' /\ off < size raw /\ (off' <= size raw -> G x (sub raw off off'));
  reads_mid pre bs suf x : raw = pre ++ bs ++ suf -> G x bs -> item (size pre) = Ok (size pre + size bs, x);
  reads_end off : size raw <= off -> item off = Err IndexError
}.

Section loops.
Context {X} (raw : bytes) (item : Z -> result (Z * X)) (G : X -> bytes -> Prop) `{!Reads raw item G}.

(** More fuel than bytes changes nothing. *)
Lemma loop_fuel fuel k n off :
  0 <= off -> size raw - off <= Z.of_nat fuel -> loop item (fuel + k) n off = loop item fuel n off.
Proof.
  revert n off. induction fuel as [|fuel IH]; intros n off Hoff Hf.
  - destruct k as [|k]; [done|]. cbn [loop Nat.add]. destruct (n <=? 0); [done|].
    by rewrite reads_end by lia.
  - cbn [loop Nat.add]. destruct (n <=? 0); [done|]. destruct (item off) as [[off' x]|e] eqn:E; [|done].
    destruct (reads_Ok off off' x Hoff E) as (Hlt & _). rewrite !bind_of_Ok, IH by lia. done.
Qed.

Lemma loop_Ok fuel n off off' xs :
  0 <= off -> loop item fuel n off = Ok (off', xs) ->
  off <= off' /\ Z.of_nat (length xs) = Z.max 0 n /\
  (off' <= size raw -> exists ss, Forall2 G xs ss /\ sub raw off off' = concat ss).
Proof.
  revert n off off' xs. induction fuel as [|fuel IH]; intros n off off' xs Hoff; cbn [loop];
    destruct (Z.leb_spec n 0) as [Hn|Hn].
  1, 3: intros [= <- <-]; split; [lia|]; split; [simpl; lia|]; intros _; exists [];
        (split; [constructor|]); rewrite sub_slice by lia; by rewrite Z.sub_diag.
  { done. }
  intros H. apply bind_Ok in H as ([o1 x] & H1 & H). apply bind_Ok in H as ([o2 ys] & H2 & H). injection H as <- <-.
  destruct (reads_Ok off o1 x Hoff H1) as (Hlt & _ & HG).
  destruct (IH (n - 1) o1 o2 ys ltac:(lia) H2) as (Hle & Hlen & Hss).
  split; [lia|]. split; [cbn [length]; lia|]. intros Ho2. destruct (Hss Ho2) as (ss & HF & Hcat).
  exists (sub raw off o1 :: ss). split; [constructor; [apply HG; lia|done]|].
  rewrite (sub_app raw off o1) by lia. cbn [concat]. by rewrite Hcat.
Qed.

Lemma item_nonempty pre bs suf x : raw = pre ++ bs ++ suf -> G x bs -> 0 < size bs.
Proof.
  intros Hraw HG. pose proof (reads_mid pre bs suf x Hraw HG) as E.
  apply reads_Ok in E; [lia|apply size_nonneg].
Qed.

Lemma loop_mid fuel xs ss pre suf :
  Forall2 G xs ss -> raw = pre ++ concat ss ++ suf -> (length xs <= fuel)%nat ->
  loop item fuel (Z.of_nat (length xs)) (size pre) = Ok (size pre + size (concat ss), xs).
Proof.
  revert xs ss pre. induction fuel as [|fuel IH]; intros xs ss pre HF Hraw Hlen.
  { destruct HF as [|x s xs ss]; [|simpl in Hlen; lia]. cbn [loop length concat]. by rewrite Z.add_0_r. }
  destruct HF as [|x s xs ss HG HF]; [cbn [loop length concat]; by rewrite Z.add_0_r|].
  cbn [loop length concat] in *. destruct (Z.leb_spec (Z.of_nat (S (length xs))) 0); [lia|].
  assert (Hraw1 : raw = pre ++ s ++ (concat ss ++ suf)) by (rewrite Hraw; by rewrite <- (assoc app)).
  rewrite (reads_mid pre s (concat ss ++ suf) x Hraw1 HG), bind_of_Ok.
  replace (Z.of_nat (S (length xs)) - 1) with (Z.of_nat (length xs)) by lia.
  assert (Hraw2 : raw = (pre ++ s) ++ concat ss ++ suf) by (rewrite Hraw1; by rewrite (assoc app)).
  pose proof (IH xs ss (pre ++ s) HF Hraw2 ltac:(lia)) as E. rewrite size_app in E.
  rewrite E, bind_of_Ok, size_app. by rewrite Z.add_assoc.
Qed.

Lemma items_fit xs ss pre suf : Forall2 G xs ss -> raw = pre ++ concat ss ++ suf -> (length xs <= length raw)%nat.
Proof.
  intros HF Hraw. assert (H : (length xs <= length (concat ss))%nat).
  { revert pre Hraw. induction HF as [|x s xs ss HG HF IH]; intros pre Hraw; [done|]. cbn [concat length] in *.
    assert (Hraw1 : raw = pre ++ s ++ (concat ss ++ suf)) by (rewrite Hraw; by rewrite <- (assoc app)).
    pose proof (item_nonempty pre s _ x Hraw1 HG) as Hs. unfold size in Hs.
    specialize (IH (pre ++ s)). rewrite Hraw1 in IH at 1. rewrite (assoc app) in IH.
    specialize (IH eq_refl). rewrite length_app. lia. }
  rewrite Hraw, !length_app. lia.
Qed.

Lemma range_loop_mid xs ss pre suf :
  Forall2 G xs ss -> raw = pre ++ concat ss ++ suf ->
  range_loop raw item (Z.of_nat (length xs)) (size pre) = Ok (size pre + size (concat ss), xs).
Proof. intros HF Hraw. eapply loop_mid; [done|done|]. pose proof (items_fit xs ss pre suf HF Hraw). lia. Qed.
End loops.

(** ** Blocks: a head, a length prefix, the body it announces, a tail *)

Definition block (head body tail bs : bytes) : Prop :=
  exists vb, varint (size body) vb /\ bs = head ++ vb ++ body ++ tail.

Lemma block_Ok raw off k t l n :
  0 <= off -> 0 <= k -> 0 <= t -> _read_varint raw (off + k) = Ok (l, n) ->
  let o := off + k + n + l in
  off < o + t /\ off < size raw /\
  (o + t <= size raw ->
   block (sub raw off (off + k)) (sub raw (off + k + n) o) (sub raw o (o + t)) (sub raw off (o + t)) /\
   size (sub raw off (off + k)) = k /\ size (sub raw o (o + t)) = t).
Proof.
  intros Hoff Hk Ht H. destruct (read_varint_Ok raw (off + k) l n ltac:(lia) H) as (Hlt & Hn & Hl & Hv). cbn zeta.
  split; [lia|]. split; [lia|]. intros Hend. split; [|split; rewrite size_sub; lia].
  exists (sub raw (off + k) (off + k + n)). split; [rewrite size_sub by lia|].
  - replace (off + k + n + l - (off + k + n)) with l by lia. apply Hv. lia.
  - rewrite (sub_app raw off (off + k)) by lia. rewrite (sub_app raw (off + k) (off + k + n)) by lia.
    by rewrite (sub_app raw (off + k + n) (off + k + n + l)) by lia.
Qed.

Lemma block_mid raw pre suf head body tail bs :
  raw = pre ++ bs ++ suf -> block head body tail bs ->
  exists n, let k := size head in
    _read_varint raw (size pre + k) = Ok (size body, n) /\ size bs = k + n + size body + size tail /\
    sub raw (size pre) (size pre + k) = head /\
    sub raw (size pre + k + n) (size pre + k + n + size body) = body /\
    sub raw (size pre + k + n + size body) (size pre + k + n + size body + size tail) = tail.
Proof.
  intros Hraw (vb & Hv & ->). exists (size vb). cbn zeta.
  assert (E0 : raw = pre ++ head ++ (vb ++ body ++ tail ++ suf)) by (rewrite Hraw, <- !(assoc app); done).
  assert (E1 : raw = (pre ++ head) ++ vb ++ (body ++ tail ++ suf)) by (rewrite Hraw, <- !(assoc app); done).
  assert (E2 : raw = (pre ++ head ++ vb) ++ body ++ (tail ++ suf)) by (rewrite Hraw, <- !(assoc app); done).
  assert (E3 : raw = (pre ++ head ++ vb ++ body) ++ tail ++ suf) by (rewrite Hraw, <- !(assoc app); done).
  split; [|split; [rewrite !size_app; lia|split; [|split]]].
  - rewrite E1, <- size_app. by apply read_varint_mid.
  - rewrite E0. by apply sub_mid.
  - rewrite E2. apply sub_mid; [rewrite !size_app; lia|done].
  - rewrite E3. apply sub_mid; [rewrite !size_app; lia|done].
Qed.

Lemma read_varint_end raw off : size raw <= off -> _read_varint raw off = Err IndexError.
Proof.
  intros H. unfold _read_varint, byte_at, from_offset. by destruct (Z.leb_spec (size raw) off); [|lia].
Qed.

(** ** The items of a transaction *)

(** Inputs are named by their nSequence. *)
Definition input_bytes (seq : Z) (bs : bytes) : Prop :=
  exists head script tail, size head = 36 /\ size tail = 4 /\ block head script tail bs /\ seq = from_le tail.

Definition output_bytes (_ : unit) (bs : bytes) : Prop := exists value script, size value = 8 /\ block value script [] bs.

Definition witness_item_bytes (_ : unit) (bs : bytes) : Prop := exists d, block [] d [] bs.

(** A counted sequence of items. *)
Definition counted {X} (G : X -> bytes -> Prop) (xs : list X) (bs : bytes) : Prop :=
  exists nb ss, varint (Z.of_nat (length xs)) nb /\ Forall2 G xs ss /\ bs = nb ++ concat ss.

Definition witness_bytes (_ : unit) (bs : bytes) : Prop := exists ws, counted witness_item_bytes ws bs.

Lemma sub_nil raw i : sub raw i i = [].
Proof. unfold sub. rewrite Z.sub_diag, Z.min_l by apply size_nonneg. done. Qed.

#[export] Instance input_Reads raw : Reads raw (input_at raw) input_bytes.
Proof.
  unfold input_at, _read_u32_le. split.
  - intros off off' x Hoff H. apply bind_Ok in H as ([l n] & H1 & [= <- <-]).
    destruct (block_Ok raw off 36 4 l n) as (Hlt & Hsz & Hb); [done|lia|lia|done|].
    split; [done|]. split; [done|]. intros Hend. destruct (Hb Hend) as (B & ? & ?). by eexists _, _, _.
  - intros pre bs suf x Hraw (head & script & tail & Hh & Ht & B & ->).
    destruct (block_mid raw pre suf head script tail bs Hraw B) as (n & R & Hsz & _ & _ & Htail).
    rewrite Hh, Ht in *. rewrite R, bind_of_Ok, Htail. do 2 f_equal. lia.
  - intros off H. by rewrite read_varint_end by lia.
Qed.

#[export] Instance output_Reads raw : Reads raw (output_at raw) output_bytes.
Proof.
  unfold output_at. split.
  - intros off off' [] Hoff H. apply bind_Ok in H as ([l n] & H1 & [= <-]).
    destruct (block_Ok raw off 8 0 l n) as (Hlt & Hsz & Hb); [done|lia|lia|done|]. rewrite Z.add_0_r in *.
    split; [done|]. split; [done|]. intros Hend. destruct (Hb Hend) as (B & ? & _).
    rewrite sub_nil in B. by eexists _, _.
  - intros pre bs suf [] Hraw (value & script & Hh & B).
    destruct (block_mid raw pre suf value script [] bs Hraw B) as (n & R & Hsz & _).
    rewrite Hh in *. change (size []) with 0 in Hsz. rewrite R, bind_of_Ok. do 2 f_equal. lia.
  - intros off H. by rewrite read_varint_end by lia.
Qed.

#[export] Instance witness_item_Reads raw : Reads raw (witness_item_at raw) witness_item_bytes.
Proof.
  unfold witness_item_at. split.
  - intros off off' [] Hoff H. apply bind_Ok in H as ([l n] & H1 & [= <-]).
    destruct (block_Ok raw off 0 0 l n) as (Hlt & Hsz & Hb); [done|lia|lia|by rewrite Z.add_0_r|].
    rewrite !Z.add_0_r in *. split; [done|]. split; [done|]. intros Hend. destruct (Hb Hend) as (B & _).
    rewrite !sub_nil in B. by eexists.
  - intros pre bs suf [] Hraw (d & B).
    destruct (block_mid raw pre suf [] d [] bs Hraw B) as (n & R & Hsz & _).
    change (size []) with 0 in R, Hsz. rewrite Z.add_0_r in R. rewrite R, bind_of_Ok. do 2 f_equal. lia.
  - intros off H. by rewrite read_varint_end by lia.
Qed.

(** A counted sequence is read by its count and a loop. *)
Section counted.
Context {X} (raw : bytes) (item : Z -> result (Z * X)) (G : X -> bytes -> Prop) `{!Reads raw item G}.

Lemma counted_Ok off n sz off' xs :
  0 <= off -> _read_varint raw off = Ok (n, sz) -> range_loop raw item n (off + sz) = Ok (off', xs) ->
  off < off' /\ off < size raw /\ Z.of_nat (length xs) = n /\ (off' <= size raw -> counted G xs (sub raw off off')).
Proof.
  intros Hoff H1 H2. destruct (read_varint_Ok raw off n sz Hoff H1) as (Hlt & Hsz & Hn & Hv).
  apply (loop_Ok raw item G) in H2 as (Hle & Hlen & Hss); [|lia].
  assert (Hlen' : Z.of_nat (length xs) = n) by lia. split; [lia|]. split; [done|]. split; [done|]. intros Hend.
  destruct (Hss Hend) as (ss & HF & Hcat). exists (sub raw off (off + sz)), ss.
  split; [rewrite Hlen'; apply Hv; lia|]. split; [done|]. by rewrite (sub_app raw off (off + sz)), Hcat by lia.
Qed.

Lemma counted_mid pre bs suf xs :
  raw = pre ++ bs ++ suf -> counted G xs bs ->
  exists sz, _read_varint raw (size pre) = Ok (Z.of_nat (length xs), sz) /\
    range_loop raw item (Z.of_nat (length xs)) (size pre + sz) = Ok (size pre + size bs, xs).
Proof.
  intros Hraw (nb & ss & Hv & HF & ->). exists (size nb). split.
  - rewrite Hraw, <- (assoc app). by apply read_varint_mid.
  - rewrite <- size_app. rewrite (range_loop_mid raw item G xs ss (pre ++ nb) suf HF).
    + rewrite !size_app. do 2 f_equal. lia.
    + rewrite Hraw. by rewrite <- !(assoc app).
Qed.
End counted.

#[export] Instance witness_Reads raw : Reads raw (witness_at raw) witness_bytes.
Proof.
  unfold witness_at. split.
  - intros off off' [] Hoff H. apply bind_Ok in H as ([n sz] & H1 & H). apply bind_Ok in H as ([o xs] & H2 & [= <-]).
    destruct (counted_Ok raw (witness_item_at raw) witness_item_bytes off n sz o xs Hoff H1 H2) as (? & ? & _ & Hc).
    split; [done|]. split; [done|]. intros Hend. exists xs. auto.
  - intros pre bs suf [] Hraw (ws & Hc).
    destruct (counted_mid raw (witness_item_at raw) witness_item_bytes pre bs suf ws Hraw Hc) as (sz & H1 & H2).
    by rewrite H1, bind_of_Ok, H2, bind_of_Ok.
  - intros off H. by rewrite read_varint_end by lia.
Qed.

(** ** Transactions *)

(** Inputs and outputs as sections of bytes, the sequences of the inputs,
    and the witness section of a witness serialisation. *)
Record tx := mkTx {
  tx_version : bytes;
  tx_inputs : bytes;
  tx_sequences : list Z;
  tx_outputs : bytes;
  tx_witness : option bytes;
  tx_locktime : bytes
}.

Definition marker : bytes := [z2b 0; z2b 1].

Definition witness_section (n : nat) (bs : bytes) : Prop :=
  exists (ws : list unit) ss, length ws = n /\ Forall2 witness_bytes ws ss /\ bs = concat ss.

Definition well_formed (t : tx) : Prop :=
  size (tx_version t) = 4 /\ counted input_bytes (tx_sequences t) (tx_inputs t) /\
  (exists outs, counted output_bytes outs (tx_outputs t)) /\ size (tx_locktime t) = 4 /\
  match tx_witness t with
  | Some w => witness_section (length (tx_sequences t)) w
  | None => take 2 (tx_inputs t ++ tx_outputs t) <> marker
  end.

Definition tx_bytes (t : tx) : bytes :=
  tx_version t ++ match tx_witness t with Some _ => marker | None => [] end ++ tx_inputs t ++ tx_outputs t ++
  default [] (tx_witness t) ++ tx_locktime t.

(** What the transaction identifier is the hash of. *)
Definition stripped_bytes (t : tx) : bytes := tx_version t ++ tx_inputs t ++ tx_outputs t ++ tx_locktime t.

Lemma counted_nonempty {X} (G : X -> bytes -> Prop) xs bs : counted G xs bs -> 1 <= size bs.
Proof.
  intros (nb & ss & Hv & _ & ->). rewrite size_app. pose proof (size_nonneg (concat ss)).
  destruct Hv as [?|d ? ?|d ? ?|d ? ?]; rewrite size_cons; [change (size []) with 0; lia|pose proof (size_nonneg d); lia..].
Qed.

Lemma marker_read raw : 6 <= size raw -> has_witness_marker raw = Ok (bool_decide (sub raw 4 6 = marker)).
Proof.
  intros Hsz. unfold has_witness_marker.
  assert (Hb : forall i, 0 <= i < 6 -> exists b, byte_at raw i = Ok (b2z b) /\ sub raw i (i + 1) = [b]).
  { intros i Hi. pose proof (size_sub raw i (i + 1) ltac:(lia) ltac:(lia)) as H.
    destruct (sub raw i (i + 1)) as [|b [|]] eqn:E; [unfold size in H; cbn [length] in H; lia| |unfold size in H; cbn [length] in H; lia].
    exists b. split; [|done]. pose proof (split_at raw i (i + 1) ltac:(lia) ltac:(lia)) as Hr. rewrite E in Hr.
    rewrite Hr. apply byte_at_mid. rewrite size_sub; lia. }
  destruct (Hb 4 ltac:(lia)) as (a & Ha & Sa). destruct (Hb 5 ltac:(lia)) as (b & Hb5 & Sb).
  rewrite Ha, bind_of_Ok. rewrite (sub_app raw 4 5) by lia. change (4 + 1) with 5 in Sa. change (5 + 1) with 6 in Sb.
  rewrite Sa, Sb. unfold marker. cbn [app].
  destruct (Z.eqb_spec (b2z a) 0) as [E|E].
  - rewrite Hb5, bind_of_Ok. f_equal. apply eq_bool_prop_intro. rewrite !Is_true_true, bool_decide_eq_true, Z.eqb_eq.
    rewrite <- (z2b_b2z a), E. split; [|intros [= ->]; by rewrite b2z_z2b].
    intros Eb. by rewrite <- (z2b_b2z b), Eb.
  - f_equal. symmetry. apply bool_decide_eq_false. intros [= -> _]. by rewrite b2z_z2b in E.
Qed.

(** What the walk has seen when the locktime still fits. *)
Definition walked (raw : bytes) (hw : bool) (seqs : list Z) (ie oe off : Z) : tx :=
  let start := if hw then 6 else 4 in
  mkTx (sub raw 0 4) (sub raw start ie) seqs (sub raw ie oe) (if hw then Some (sub raw oe off) else None)
    (sub raw off (off + 4)).

Lemma walk_Ok raw hw n sz seqs ie oe off :
  let start := if hw : bool then 6 else 4 in
  6 <= size raw -> has_witness_marker raw = Ok hw -> _read_varint raw start = Ok (n, sz) ->
  walk raw hw n (start + sz) = Ok (seqs, ie, oe, off) -> off + 4 <= size raw ->
  let t := walked raw hw seqs ie oe off in
  well_formed t /\ raw = tx_bytes t ++ sub raw (off + 4) (size raw) /\ Z.of_nat (length seqs) = n /\
  start < ie < oe /\ oe <= off.
Proof.
  cbn zeta. intros Hsz Hm Hn H Hend. unfold walk in H.
  apply bind_Ok in H as ([o1 xs] & H1 & H). apply bind_Ok in H as ([m msz] & Hm2 & H).
  apply bind_Ok in H as ([o2 ys] & H2 & H). apply bind_Ok in H as ([o3 ws] & H3 & H). injection H as <- <- <- <-.
  set (start := if hw then 6 else 4) in *. assert (Hst : 4 <= start <= 6) by (by destruct hw).
  destruct (counted_Ok raw (input_at raw) input_bytes start n sz o1 xs ltac:(lia) Hn H1) as (L1 & _ & Hlen & C1).
  destruct (counted_Ok raw (output_at raw) output_bytes o1 m msz o2 ys ltac:(lia) Hm2 H2) as (L2 & _ & _ & C2).
  rewrite marker_read in Hm by done. injection Hm as Hm.
  assert (Hw : o2 <= o3 /\ (hw = true -> witness_section (length xs) (sub raw o2 o3)) /\ (hw = false -> o3 = o2)).
  { destruct hw; [|injection H3 as <- _; split; [lia|done]].
    apply (loop_Ok raw (witness_at raw) witness_bytes) in H3 as (L3 & Hl3 & Hss); [|lia].
    split; [done|]. split; [|done]. intros _. destruct (Hss ltac:(lia)) as (ss & HF & Hcat).
    exists ws, ss. split; [lia|done]. }
  destruct Hw as (L3 & Hwit & Hnw).
  assert (Hbytes : raw = sub raw 0 4 ++ (sub raw 4 start ++ sub raw start o1 ++ sub raw o1 o2 ++ sub raw o2 o3 ++
     sub raw o3 (o3 + 4)) ++ sub raw (o3 + 4) (size raw)).
  { rewrite <- (sub_app raw o2), <- (sub_app raw o1), <- (sub_app raw start), <- (sub_app raw 4) by lia.
    apply split_at; lia. }
  split; [|split; [|split; [done|lia]]].
  - split; [apply size_sub; lia|]. split; [apply C1; lia|]. split; [exists ys; apply C2; lia|].
    split; [cbn; rewrite size_sub; lia|]. cbn [walked tx_witness tx_sequences tx_inputs tx_outputs]. fold start.
    destruct hw; [by apply Hwit|]. apply bool_decide_eq_false in Hm. intros E. apply Hm.
    rewrite <- (sub_app raw start) in E by (subst start; lia). subst start. rewrite <- E, !sub_slice by lia.
    rewrite take_take. f_equal. lia.
  - unfold tx_bytes, walked. cbn [tx_version tx_witness tx_inputs tx_outputs tx_locktime]. fold start.
    rewrite Hbytes at 1. rewrite <- !(assoc app). f_equal. subst start. destruct hw.
    + apply bool_decide_eq_true in Hm. by rewrite Hm.
    + rewrite (Hnw eq_refl), !sub_nil. done.
Qed.

(** The sections of a serialised transaction and where they start. *)
Lemma tx_sections t rest :
  let m := match tx_witness t with Some _ => marker | None => [] end in
  let w := default [] (tx_witness t) in
  let a := tx_version t ++ m in let b := a ++ tx_inputs t in let c := b ++ tx_outputs t in let d := c ++ w in
  tx_bytes t ++ rest = tx_version t ++ m ++ (tx_inputs t ++ tx_outputs t ++ w ++ tx_locktime t ++ rest) /\
  tx_bytes t ++ rest = a ++ tx_inputs t ++ (tx_outputs t ++ w ++ tx_locktime t ++ rest) /\
  tx_bytes t ++ rest = b ++ tx_outputs t ++ (w ++ tx_locktime t ++ rest) /\
  tx_bytes t ++ rest = c ++ w ++ (tx_locktime t ++ rest) /\
  tx_bytes t ++ rest = d ++ tx_locktime t ++ rest.
Proof. cbn zeta. unfold tx_bytes. repeat split; by rewrite <- !(assoc app). Qed.

Lemma marker_mid t rest :
  well_formed t -> has_witness_marker (tx_bytes t ++ rest) = Ok match tx_witness t with Some _ => true | None => false end.
Proof.
  intros (Hv & Hin & (outs & Hout) & Hl & Hw). destruct (tx_sections t rest) as (E0 & _).
  pose proof (counted_nonempty _ _ _ Hin) as Nin. pose proof (counted_nonempty _ _ _ Hout) as Nout.
  rewrite marker_read by (rewrite E0, !size_app; destruct (tx_witness t); unfold size in *; lia).
  f_equal. rewrite E0. destruct (tx_witness t) as [w|].
  - apply bool_decide_eq_true. by apply sub_mid.
  - apply bool_decide_eq_false. intros E. apply Hw. rewrite <- E, sub_slice by lia.
    change (Z.to_nat (6 - 4)) with 2%nat. replace (Z.to_nat 4) with (length (tx_version t)) by (unfold size in Hv; lia).
    rewrite drop_app_length. cbn [app]. rewrite (assoc app (tx_inputs t)).
    rewrite (take_app_le (tx_inputs t ++ tx_outputs t)); [done|].
    rewrite length_app. unfold size in *. lia.
Qed.

Lemma walk_mid raw t rest :
  well_formed t -> raw = tx_bytes t ++ rest ->
  exists hw sz ie oe off,
    let start := if hw : bool then 6 else 4 in
    10 <= size raw /\ has_witness_marker raw = Ok hw /\
    _read_varint raw start = Ok (Z.of_nat (length (tx_sequences t)), sz) /\
    walk raw hw (Z.of_nat (length (tx_sequences t))) (start + sz) = Ok (tx_sequences t, ie, oe, off) /\
    off + 4 <= size raw /\ walked raw hw (tx_sequences t) ie oe off = t.
Proof.
  intros Hwf Hraw. pose proof (marker_mid t rest Hwf) as Hmark. rewrite <- Hraw in Hmark.
  destruct Hwf as (Hv & Hin & (outs & Hout) & Hl & Hw).
  destruct (tx_sections t rest) as (E0 & E1 & E2 & E3 & E4). rewrite <- Hraw in E0, E1, E2, E3, E4.
  pose proof (counted_nonempty _ _ _ Hin) as Nin. pose proof (counted_nonempty _ _ _ Hout) as Nout.
  set (m := match tx_witness t with Some _ => marker | None => [] end) in *.
  set (w := default [] (tx_witness t)) in *.
  set (hw := match tx_witness t with Some _ => true | None => false end) in *.
  set (start := if hw then 6 else 4). set (ie := start + size (tx_inputs t)). set (oe := ie + size (tx_outputs t)).
  assert (Hm : size (tx_version t ++ m) = start) by (rewrite size_app, Hv; subst m start hw; by destruct (tx_witness t)).
  assert (Hie : size ((tx_version t ++ m) ++ tx_inputs t) = ie) by (by rewrite size_app, Hm).
  assert (Hoe : size (((tx_version t ++ m) ++ tx_inputs t) ++ tx_outputs t) = oe) by (by rewrite size_app, Hie).
  assert (Hoff : size ((((tx_version t ++ m) ++ tx_inputs t) ++ tx_outputs t) ++ w) = oe + size w)
    by (by rewrite size_app, Hoe).
  assert (Hsz : size raw = oe + size w + 4 + size rest) by (rewrite E4, !size_app in *; lia).
  destruct (counted_mid raw (input_at raw) input_bytes _ _ _ _ E1 Hin) as (sz & R1 & R2). rewrite Hm in R1, R2.
  destruct (counted_mid raw (output_at raw) output_bytes _ _ _ _ E2 Hout) as (osz & R3 & R4). rewrite Hie in R3, R4.
  exists hw, sz, ie, oe, (oe + size w). cbn zeta. fold start.
  pose proof (size_nonneg rest). pose proof (size_nonneg w).
  split; [subst ie oe start; destruct hw; lia|]. split; [done|]. split; [done|]. split; [|split; [lia|]].
  - unfold walk. rewrite R2, bind_of_Ok. fold ie. rewrite R3, bind_of_Ok. fold oe in R4. rewrite R4, bind_of_Ok.
    subst hw w. destruct (tx_witness t) as [ws|]; cbn [default] in *; [|by rewrite bind_of_Ok, Z.add_0_r].
    destruct Hw as (us & ss & <- & HF & ->).
    pose proof (range_loop_mid raw (witness_at raw) witness_bytes us ss _ _ HF E3) as R5. rewrite Hoe in R5.
    by rewrite R5, bind_of_Ok.
  - unfold walked. fold start.
    assert (S0 : sub raw 0 4 = tx_version t) by (rewrite E0; by apply (sub_mid [] _ _)).
    assert (S1 : sub raw start ie = tx_inputs t) by (rewrite E1; by apply sub_mid).
    assert (S2 : sub raw ie oe = tx_outputs t) by (rewrite E2; by apply sub_mid).
    assert (S3 : sub raw oe (oe + size w) = w) by (rewrite E3; by apply sub_mid).
    assert (S4 : sub raw (oe + size w) (oe + size w + 4) = tx_locktime t) by (rewrite E4; apply sub_mid; [done|lia]).
    rewrite S0, S1, S2, S3, S4. subst hw w. by destruct t as [? ? ? ? [?|] ?].
Qed.

(** ** What the checks accept *)

(** [raw] starts with a serialisation of [t]; nothing looks behind it. *)
Definition encodes (raw : bytes) (t : tx) : Prop := well_formed t /\ exists rest, raw = tx_bytes t ++ rest.

Lemma Ok_inj {A} (a b : A) : Ok a = Ok b -> a = b.
Proof. by intros [=]. Qed.

#[local] Opaque sha256 hex.

(** C21. The identifier of exactly the data that starts with a transaction is the
    reversed double hash of the transaction without its witnesses. *)
Theorem txid_correct tx_hex raw h :
  fromhex tx_hex = Ok raw ->
  compute_txid_from_hex tx_hex = Ok h <->
  exists t, encodes raw t /\ h = hex (rev (sha256 (sha256 (stripped_bytes t)))).
Proof.
  intros Hraw. unfold compute_txid_from_hex, read_hex. rewrite Hraw, bind_of_Ok. split.
  - destruct (Z.ltb_spec (size raw) 10); [done|]. intros R. apply bind_Ok in R as (hw & Hm & R).
    apply bind_Ok in R as ([n sz] & Hn & R). apply bind_Ok in R as ([[[seqs ie] oe] off] & Hwalk & R).
    destruct (Z.ltb_spec (size raw) (off + 4)); [done|]. apply Ok_inj in R. subst h.
    destruct (walk_Ok raw hw n sz seqs ie oe off) as (Hwf & Hb & _); [lia|done|done|done|lia|].
    exists (walked raw hw seqs ie oe off). split; [split; [done|by eexists]|done].
  - intros (t & (Hwf & rest & Hb) & ->).
    destruct (walk_mid raw t rest Hwf Hb) as (hw & sz & ie & oe & off & Hsz & Hm & Hn & Hwalk & Hend & Ht).
    destruct (Z.ltb_spec (size raw) 10); [lia|]. rewrite Hm, bind_of_Ok. cbn zeta. rewrite Hn, bind_of_Ok, Hwalk, bind_of_Ok.
    destruct (Z.ltb_spec (size raw) (off + 4)); [lia|]. rewrite <- (f_equal stripped_bytes Ht). done.
Qed.

(** The envelope check accepts exactly the data that starts with a version-2
    transaction with at least one input, all of whose inputs carry the
    expected nSequence, and the expected nLockTime if one is given. *)
Theorem envelope_iff tx_hex raw locktime seq :
  fromhex tx_hex = Ok raw ->
  assert_envelope_policy tx_hex locktime seq = Ok tt <->
  exists t, encodes raw t /\ from_le (tx_version t) = 2 /\ tx_sequences t <> [] /\
    Forall (eq seq) (tx_sequences t) /\ (forall l, locktime = Some l -> from_le (tx_locktime t) = l).
Proof.
  intros Hraw. unfold assert_envelope_policy, read_hex, _read_u32_le. rewrite Hraw, bind_of_Ok.
  change (0 + 4) with 4. unfold ANONYMIZE_TX_NVERSION. split.
  - destruct (Z.ltb_spec (size raw) 10); [done|]. destruct (Z.eqb_spec (from_le (sub raw 0 4)) 2) as [Hv|]; [|done].
    cbn [negb]. intros H1. apply bind_Ok in H1 as (hw & Hm & H1). apply bind_Ok in H1 as ([n sz] & Hn & H1).
    destruct (Z.eqb_spec n 0) as [|Hn0]; [done|]. apply bind_Ok in H1 as ([[[seqs ie] oe] off] & Hwalk & H1).
    destruct (Z.ltb_spec (size raw) (off + 4)); [done|]. destruct (forallb _ seqs) eqn:Hall; [|done].
    destruct (walk_Ok raw hw n sz seqs ie oe off) as (Hwf & Hb & Hlen & _); [lia|done|done|done|lia|].
    exists (walked raw hw seqs ie oe off). split; [split; [done|by eexists]|]. split; [done|].
    split; [intros E; cbn in E; subst seqs; cbn in Hlen; lia|]. split.
    + apply Forall_forall. intros x Hx. rewrite forallb_forall in Hall. apply list_elem_of_In, Hall in Hx. cbn in *. lia.
    + intros l ->. cbn [negb] in H1. destruct (Z.eqb_spec (from_le (sub raw off (off + 4))) l); done.
  - intros (t & (Hwf & rest & Hb) & Hv & Hne & Hall & Hl).
    destruct (walk_mid raw t rest Hwf Hb) as (hw & sz & ie & oe & off & Hsz & Hm & Hn & Hwalk & Hend & Ht).
    destruct (Z.ltb_spec (size raw) 10); [lia|]. rewrite <- Ht in Hv, Hl. cbn [tx_version tx_locktime walked] in Hv, Hl.
    rewrite Hv. cbn [negb Z.eqb]. cbn match. rewrite Hm, bind_of_Ok. cbn zeta. rewrite Hn, bind_of_Ok.
    destruct (Z.eqb_spec (Z.of_nat (length (tx_sequences t))) 0) as [E|]; [destruct (tx_sequences t); done|].
    rewrite Hwalk, bind_of_Ok. destruct (Z.ltb_spec (size raw) (off + 4)); [lia|].
    assert (forallb (fun s => s =? seq) (tx_sequences t) = true) as ->.
    { apply forallb_forall. intros x Hx. rewrite Forall_forall in Hall. apply list_elem_of_In, Hall in Hx. lia. }
    cbn [negb]. destruct locktime as [l|]; [|done]. rewrite (Hl l eq_refl), Z.eqb_refl. done.
Qed.

(** One turn of a loop is the item itself. *)
Lemma range_loop_1 {X} raw (item : Z -> result (Z * X)) off :
  range_loop raw item 1 off = ('(o, x) ← item off; Ok (o, [x])).
Proof.
  unfold range_loop. cbn [loop Z.leb Z.compare]. destruct (item off) as [[o x]|e]; [|done].
  rewrite !bind_of_Ok. by destruct (length raw).
Qed.

(** The single output of a claim: its value and its script. *)
Definition single_output (bs : bytes) (value : Z) (script : bytes) : Prop :=
  exists nb amount, varint 1 nb /\ size amount = 8 /\ from_le amount = value /\
    exists out, block amount script [] out /\ bs = nb ++ out.

(** Whatever [validate_cooperative_claim_tx] lets through is a version-2
    transaction with one input that opts in to replacement and one output,
    which pays the expected script an amount within the band. *)
Lemma claim_decodes tx_hex raw spk_hex lo hi locktime :
  fromhex tx_hex = Ok raw ->
  validate_cooperative_claim_tx tx_hex spk_hex (lo, hi) locktime = Ok tt ->
  exists t value script, encodes raw t /\ from_le (tx_version t) = 2 /\
    tx_sequences t = [ANONYMIZE_TX_NSEQUENCE] /\ single_output (tx_outputs t) value script /\
    fromhex spk_hex = Ok script /\ lo <= value <= hi.
Proof.
  intros Hraw H. unfold validate_cooperative_claim_tx in H.
  destruct (assert_envelope_policy tx_hex locktime ANONYMIZE_TX_NSEQUENCE) as [[]|[]] eqn:Henv; try done.
  apply (envelope_iff tx_hex raw locktime ANONYMIZE_TX_NSEQUENCE Hraw) in Henv as (t & [Hwf [rest Hb]] & Hv & _ & Hall & _).
  destruct (walk_mid raw t rest Hwf Hb) as (hw & sz & ie & oe & off & Hsz & Hm & Hn & Hwalk & Hend & Ht).
  rewrite Hraw, Hm, bind_of_Ok in H. cbn zeta in H. rewrite Hn, bind_of_Ok in H.
  destruct (Z.eqb_spec (Z.of_nat (length (tx_sequences t))) 1) as [Hone|]; [|done]. cbn [negb] in H.
  set (start := if hw then 6 else 4) in *.
  assert (Hie : 0 <= ie < oe /\ oe <= off).
  { destruct (walk_Ok raw hw _ sz _ ie oe off ltac:(lia) Hm Hn Hwalk Hend) as (_ & _ & _ & ? & ?).
    destruct hw; lia. }
  unfold walk in Hwalk. apply bind_Ok in Hwalk as ([o1 xs] & H1 & Hwalk).
  apply bind_Ok in Hwalk as ([m msz] & H2 & Hwalk). apply bind_Ok in Hwalk as ([o2 ys] & H3 & Hwalk).
  apply bind_Ok in Hwalk as ([o3 ws] & H4 & [= -> -> -> ->]).
  rewrite H1, bind_of_Ok in H. rewrite H2, bind_of_Ok in H. destruct (Z.eqb_spec m 1) as [->|]; [|done]. cbn [negb] in H.
  rewrite range_loop_1 in H3. apply bind_Ok in H3 as ([o []] & H3 & E3). injection E3 as -> _. unfold output_at in H3.
  apply bind_Ok in H3 as ([l n] & R & [= <-]). rewrite R, bind_of_Ok in H.
  apply bind_Ok in H as (script & Hspk & H). destruct (bool_decide_reflect
    (sub raw (ie + msz + 8 + n) (ie + msz + 8 + n + l) = script)) as [Hs|]; [|done].
  destruct (read_varint_Ok raw ie 1 msz ltac:(lia) H2) as (_ & Hmsz & _ & Hvar).
  destruct (block_Ok raw (ie + msz) 8 0 l n) as (Hlt & _ & Hblk); [lia|lia|lia|done|].
  rewrite Z.add_0_r in *. destruct (Hblk ltac:(lia)) as (B & Hamt & _). rewrite sub_nil, Hs in B.
  exists t, (from_le (sub raw (ie + msz) (ie + msz + 8))), script.
  split; [by split; [|exists rest]|]. split; [done|]. split.
  { destruct (tx_sequences t) as [|q [|]]; [done| |cbn in Hone; lia]. apply Forall_cons in Hall as [<- _]. done. }
  split; [|split; [done|]].
  - exists (sub raw ie (ie + msz)), (sub raw (ie + msz) (ie + msz + 8)). split; [apply Hvar; lia|].
    split; [done|]. split; [done|]. eexists. split; [exact B|]. rewrite <- Ht. cbn [walked tx_outputs].
    by rewrite (sub_app raw ie (ie + msz)) by lia.
  - cbn [negb fst snd] in H. destruct (_ && _) eqn:Hband; [|done]. bool_to_prop. lia.
Qed.

(** ... and every such transaction passes, whatever its locktime. *)
Lemma claim_encodes tx_hex raw spk_hex lo hi t value script :
  fromhex tx_hex = Ok raw -> encodes raw t -> from_le (tx_version t) = 2 ->
  tx_sequences t = [ANONYMIZE_TX_NSEQUENCE] -> single_output (tx_outputs t) value script ->
  fromhex spk_hex = Ok script -> lo <= value <= hi ->
  validate_cooperative_claim_tx tx_hex spk_hex (lo, hi) None = Ok tt.
Proof.
  intros Hraw Henc Hv Hseq (nb & amount & Hnb & Hamt & <- & out & Hblk & Hout) Hspk Hband.
  assert (Henv : assert_envelope_policy tx_hex None ANONYMIZE_TX_NSEQUENCE = Ok tt).
  { apply (envelope_iff tx_hex raw None ANONYMIZE_TX_NSEQUENCE Hraw). exists t. rewrite Hseq.
    split; [done|]. split; [done|]. split; [done|]. split; [by apply Forall_singleton|done]. }
  destruct Henc as [Hwf [rest Hb]].
  destruct (walk_mid raw t rest Hwf Hb) as (hw & sz & ie & oe & off & Hsz & Hm & Hn & Hwalk & Hend & Ht).
  assert (Hie : 0 <= ie < oe /\ oe <= off).
  { destruct (walk_Ok raw hw _ sz _ ie oe off ltac:(lia) Hm Hn Hwalk Hend) as (_ & _ & _ & ? & ?). destruct hw; lia. }
  rewrite <- Ht in Hout. cbn [walked tx_outputs] in Hout.
  pose proof (split_at raw ie oe ltac:(lia) ltac:(lia)) as Er. rewrite Hout in Er.
  assert (Hpre : size (sub raw 0 ie) = ie) by (rewrite size_sub; lia).
  set (pre := sub raw 0 ie) in *. set (suf := sub raw oe (size raw)) in *. clearbody pre suf.
  pose proof (read_varint_mid 1 nb pre (out ++ suf) Hnb) as R1. rewrite (assoc app nb), <- Er, Hpre in R1.
  destruct (block_mid raw (pre ++ nb) suf amount script [] out) as (n & R2 & _ & S1 & S2 & _); [by rewrite Er, <- !(assoc app)|done|].
  rewrite size_app, Hpre, Hamt in R2, S1, S2.
  unfold validate_cooperative_claim_tx. rewrite Henv, Hraw, Hm, bind_of_Ok. cbn zeta. rewrite Hn, bind_of_Ok.
  rewrite Hseq in Hwalk |- *. change (Z.of_nat (length [ANONYMIZE_TX_NSEQUENCE]) =? 1) with true. cbn [negb].
  unfold walk in Hwalk. apply bind_Ok in Hwalk as ([o1 xs] & H1 & Hwalk).
  apply bind_Ok in Hwalk as ([m msz] & _ & Hwalk). apply bind_Ok in Hwalk as ([o2 ys] & _ & Hwalk).
  apply bind_Ok in Hwalk as ([o3 ws] & _ & [= -> -> _ _]).
  rewrite H1, bind_of_Ok, R1, bind_of_Ok. cbn [Z.eqb Pos.eqb negb].
  rewrite R2, bind_of_Ok, Hspk, bind_of_Ok, S1, S2. rewrite bool_decide_eq_true_2 by done. cbn [negb fst snd].
  by rewrite (proj2 (Z.leb_le lo _)), (proj2 (Z.leb_le _ hi)) by lia.
Qed.

(** Only hexadecimal text passes. *)
Lemma claim_is_hex tx_hex spk_hex band locktime :
  validate_cooperative_claim_tx tx_hex spk_hex band locktime = Ok tt -> exists raw, fromhex tx_hex = Ok raw.
Proof.
  unfold validate_cooperative_claim_tx, assert_envelope_policy, read_hex.
  destruct (fromhex tx_hex) as [raw|e]; [by exists raw|]. by destruct e.
Qed.

(** A transaction with an input is longer than a transaction id. *)
Lemma spend_size raw t seq : encodes raw t -> tx_sequences t = [seq] -> 32 < size raw.
Proof.
  intros [(Hv & (nb & ss & _ & Hss & Hin) & _) [rest ->]] Hseq. rewrite Hseq in Hss.
  apply Forall2_cons_inv_l in Hss as (i & ss' & (head & script & tail & Hh & Ht & (vb & _ & ->) & _) & Hnil & ->).
  apply Forall2_nil_inv_l in Hnil as ->. unfold tx_bytes. rewrite Hin. cbn [concat].
  rewrite !size_app, Hv, Hh, Ht. repeat match goal with |- context [size ?x] =>
    pose proof (size_nonneg x); generalize dependent (size x); intros end. lia.
Qed.

(** ** Examples *)

(** The coinbase of the first block. *)
Definition genesis_tx : string :=
  "01000000010000000000000000000000000000000000000000000000000000000000000000ffffffff4d04ffff001d0104455468652054696d65732030332f4a616e2f32303039204368616e63656c6c6f72206f6e206272696e6b206f66207365636f6e64206261696c6f757420666f722062616e6b73ffffffff0100f2052a01000000434104678afdb0fe5548271967f1a67130b7105cd6a828e03909a67962e0ea1f61deb649f6bc3f4cef38c4f35504e51ec112de5c384df7ba0b8d578a4c702b6bf11d5fac00000000".

Definition raw_of (tx_hex : string) : bytes := match fromhex tx_hex with Ok raw => raw | Err _ => [] end.

Lemma txid_correct_witness :
  exists t, encodes (raw_of genesis_tx) t /\
    "4a5e1e4baab89f3a32518a88c31bc87f618f76673e2cc77ab2127b7afdeda33b"%string =
      hex (rev (sha256 (sha256 (stripped_bytes t)))).
Proof. apply (txid_correct genesis_tx (raw_of genesis_tx)); vm_compute; reflexivity. Defined.

(** A witness spend of one input to one output of 10000 sat. *)
Definition demo_claim : string :=
  "0200000000010100000000000000000000000000000000000000000000000000000000000000000000000000fdffffff0110270000000000000251200101aa00000000".

Example demo_claim_decodes :
  exists t value script, encodes (raw_of demo_claim) t /\ from_le (tx_version t) = 2 /\
    tx_sequences t = [ANONYMIZE_TX_NSEQUENCE] /\ single_output (tx_outputs t) value script /\
    fromhex "5120" = Ok script /\ 9000 <= value <= 11000.
Proof. apply (claim_decodes demo_claim _ "5120" 9000 11000 None); vm_compute; reflexivity. Qed.

(** Data cut off inside an input raises [IndexError], not the policy error
    the callers catch. *)
Example truncated_input_index_error :
  assert_envelope_policy "0200000001000000000000" None ANONYMIZE_TX_NSEQUENCE = Err IndexError.
Proof. vm_compute. reflexivity. Qed.
