(* ===== verification/Merkle.v ===== *)
(** * Merkle root and signature digest (app/services/bolt12/merkle.py) *)
From S2P Require Import Prelude Bytes Sha256 BigSize Tlv.

(** ** Operations *)

Definition _sha256 (data : bytes) : bytes := sha256 data.

Definition tagged_hash (tag msg : bytes) : bytes :=
  let th := _sha256 tag in _sha256 (th ++ th ++ msg).

Definition LnBranch : bytes := ascii_bytes "LnBranch".
Definition LnLeaf : bytes := ascii_bytes "LnLeaf".
Definition LnNonce : bytes := ascii_bytes "LnNonce".

Definition _branch (a b : bytes) : bytes :=
  let '(lo, hi) := if bytes_le a b then (a, b) else (b, a) in
  tagged_hash LnBranch (lo ++ hi).

Definition _pair_with_nonce (leaf nonce : bytes) : bytes := _branch leaf nonce.

(** [pow2 = 1; while pow2 * 2 <= n: pow2 *= 2] *)
Fixpoint grow_pow2 (fuel n pow2 : nat) : nat :=
  match fuel with
  | O => pow2
  | S fuel => if (pow2 * 2 <=? n)%nat then grow_pow2 fuel n (pow2 * 2) else pow2
  end.

(** Where [_fold] cuts a list of [n] nodes. *)
Definition split_at (n : nat) : nat :=
  let pow2 := grow_pow2 n n 1 in
  if (pow2 =? n)%nat then (n / 2)%nat else pow2.

Fixpoint fold_nodes (fuel : nat) (nodes : list bytes) : result bytes :=
  match fuel with
  | O => Err OutOfFuel
  | S fuel =>
      match nodes with
      | [] => Err (ValueError "merkle: empty node list")
      | [x] => Ok x
      | _ =>
          let split := split_at (length nodes) in
          left ← fold_nodes fuel (take split nodes);
          right ← fold_nodes fuel (drop split nodes);
          Ok (_branch left right)
      end
  end.

(** Each half is shorter than the list, so its length bounds the depth. *)
Definition _fold (nodes : list bytes) : result bytes := fold_nodes (S (length nodes)) nodes.

(** The paired hash of one record under the stream's nonce tag. *)
Definition paired_hash (nonce_tag : bytes) (r : TLVRecord) : result bytes :=
  e ← encode_record r;
  t ← type_bytes r;
  Ok (_pair_with_nonce (tagged_hash LnLeaf e) (tagged_hash nonce_tag t)).

Definition non_signature (records : list TLVRecord) : list TLVRecord :=
  List.filter (fun r => negb (is_signature_type (tlv_type r))) records.

Definition merkle_root (records : list TLVRecord) : result bytes :=
  let non_sig := non_signature records in
  match non_sig with
  | [] => Err (ValueError "merkle: no non-signature TLV records")
  | first :: _ =>
      first_tlv_encoding ← encode_record first;
      paired ← mapR (paired_hash (LnNonce ++ first_tlv_encoding)) non_sig;
      _fold paired
  end.

(** [s.encode("ascii")] of a message or field name. *)
Definition encode_ascii (s : list ascii) : result bytes :=
  if forallb (fun c => (N_of_ascii c <? 128)%N) s
  then Ok (map byte_of_ascii s) else Err UnicodeEncodeError.

Definition signature_message_hash (message_name field_name : list ascii)
    (merkle_root_bytes : bytes) : result bytes :=
  if negb (length merkle_root_bytes =? 32)%nat
  then Err (ValueError "merkle root must be 32 bytes")
  else
    m ← encode_ascii message_name;
    f ← encode_ascii field_name;
    Ok (tagged_hash (ascii_bytes "lightning" ++ m ++ f) merkle_root_bytes).

(** ** The cut *)

Lemma grow_pow2_spec fuel n k :
  (2 ^ k <= n)%nat -> (n < 2 ^ k * 2 ^ fuel)%nat ->
  exists j, grow_pow2 fuel n (2 ^ k) = (2 ^ j)%nat /\ (2 ^ j <= n < 2 ^ S j)%nat.
Proof.
  revert k. induction fuel as [|fuel IH]; intros k Hk Hn; [simpl in Hn; lia|].
  cbn [grow_pow2]. destruct (Nat.leb_spec (2 ^ k * 2) n).
  - replace (2 ^ k * 2)%nat with (2 ^ S k)%nat in * by (simpl; lia).
    apply IH; [done|]. replace (2 ^ S k * 2 ^ fuel)%nat with (2 ^ k * 2 ^ S fuel)%nat; [done|].
    simpl. lia.
  - exists k. split; [done|]. simpl. lia.
Qed.

(** A list of at least two nodes is cut at the largest power of two below
    its length. *)
Lemma split_at_spec n :
  (2 <= n)%nat -> exists j, split_at n = (2 ^ j)%nat /\ (2 ^ j < n <= 2 ^ S j)%nat.
Proof.
  intros Hn. unfold split_at.
  destruct (grow_pow2_spec n n 0) as (j & Hj & Hlo & Hhi).
  { simpl. lia. }
  { simpl. pose proof (Nat.pow_gt_lin_r 2 n). lia. }
  change (2 ^ 0)%nat with 1%nat in Hj. rewrite Hj.
  destruct (Nat.eqb_spec (2 ^ j) n) as [<-|Hne].
  - destruct j as [|j]; [simpl in Hn; lia|]. exists j. split.
    + rewrite Nat.pow_succ_r', Nat.mul_comm. apply Nat.div_mul. lia.
    + pose proof (Nat.pow_nonzero 2 j). simpl. lia.
  - exists j. split; [done|]. simpl in *. lia.
Qed.

Lemma split_at_range n : (2 <= n)%nat -> (1 <= split_at n < n)%nat.
Proof.
  intros (j & -> & Hlo & _)%split_at_spec. pose proof (Nat.pow_nonzero 2 j). lia.
Qed.

(** ** [_fold] as the hash of a tree

    The recursion of [_fold] builds a binary tree over the node list; the
    tree is made explicit so that statements can speak of its leaves. *)

Inductive tree (A : Type) :=
  | Tip (a : A)
  | Node (l r : tree A).
Arguments Tip {A} a.
Arguments Node {A} l r.

Fixpoint tips {A} (t : tree A) : list A :=
  match t with Tip a => [a] | Node l r => tips l ++ tips r end.

Fixpoint tree_hash {A} (f : A -> bytes) (t : tree A) : bytes :=
  match t with
  | Tip a => f a
  | Node l r => _branch (tree_hash f l) (tree_hash f r)
  end.

Lemma fold_nodes_step fuel (nodes : list bytes) :
  (2 <= length nodes)%nat ->
  fold_nodes (S fuel) nodes =
  (l ← fold_nodes fuel (take (split_at (length nodes)) nodes);
   r ← fold_nodes fuel (drop (split_at (length nodes)) nodes); Ok (_branch l r)).
Proof. destruct nodes as [|x [|y nodes]]; simpl; [lia|lia|done]. Qed.

Fixpoint build_tree {A} (fuel : nat) (xs : list A) : option (tree A) :=
  match fuel with
  | O => None
  | S fuel =>
      match xs with
      | [] => None
      | [x] => Some (Tip x)
      | _ =>
          let split := split_at (length xs) in
          l ← build_tree fuel (take split xs);
          r ← build_tree fuel (drop split xs);
          Some (Node l r)
      end
  end.

Lemma build_tree_step {A} fuel (xs : list A) :
  (2 <= length xs)%nat ->
  build_tree (S fuel) xs =
  (l ← build_tree fuel (take (split_at (length xs)) xs);
   r ← build_tree fuel (drop (split_at (length xs)) xs); Some (Node l r)).
Proof. destruct xs as [|x [|y xs]]; simpl; [lia|lia|done]. Qed.

(** Every non-empty node list folds, to the hash of a tree whose tips are
    the nodes in order; the shape depends on the length only. *)
Lemma fold_nodes_tree {A} (f : A -> bytes) fuel (xs : list A) :
  xs <> [] -> (length xs < fuel)%nat ->
  exists t, build_tree fuel xs = Some t /\ tips t = xs /\
            fold_nodes fuel (map f xs) = Ok (tree_hash f t).
Proof.
  revert xs. induction fuel as [|fuel IH]; intros xs Hne Hf; [lia|].
  destruct (decide (length xs < 2)%nat) as [Hlt|Hge].
  - destruct xs as [|x [|y xs]]; simpl in Hlt; [done| |lia].
    exists (Tip x). done.
  - pose proof (split_at_range (length xs) ltac:(lia)) as Hs.
    rewrite fold_nodes_step by (rewrite length_map; lia). rewrite build_tree_step by lia.
    rewrite length_map, firstn_map, skipn_map.
    destruct (IH (take (split_at (length xs)) xs)) as (tl & -> & Htl & ->).
    { intros E%(f_equal length). rewrite length_take in E. simpl in E. lia. }
    { rewrite length_take. lia. }
    destruct (IH (drop (split_at (length xs)) xs)) as (tr & -> & Htr & ->).
    { intros E%(f_equal length). rewrite length_drop in E. simpl in E. lia. }
    { rewrite length_drop. lia. }
    exists (Node tl tr). simpl. by rewrite Htl, Htr, take_drop.
Qed.

(** ** Level-by-level pairing

    The BOLT 12 description of the same root: combine neighbours, carry an
    odd last node up unchanged, and repeat. *)

Fixpoint pair_level (nodes : list bytes) : list bytes :=
  match nodes with
  | a :: b :: rest => _branch a b :: pair_level rest
  | _ => nodes
  end.

Fixpoint rounds (k : nat) (nodes : list bytes) : list bytes :=
  match k with O => nodes | S k => rounds k (pair_level nodes) end.

Lemma pair_level_app n l r :
  length l = (2 * n)%nat ->
  pair_level (l ++ r) = pair_level l ++ pair_level r /\ length (pair_level l) = n.
Proof.
  revert l. induction n as [|n IH]; intros l Hl.
  - destruct l; [done|simpl in Hl; lia].
  - destruct l as [|a [|b l]]; simpl in Hl; [lia|lia|]. simpl.
    destruct (IH l) as [-> ->]; [lia|]. done.
Qed.

Lemma rounds_app k l r :
  length l = (2 ^ k)%nat -> rounds k (l ++ r) = rounds k l ++ rounds k r.
Proof.
  revert l r. induction k as [|k IH]; intros l r Hl; [done|].
  cbn [rounds]. destruct (pair_level_app (2 ^ k) l r) as [-> Hl']; [simpl in Hl; lia|].
  by apply IH.
Qed.

Lemma rounds_single k x : rounds k [x] = [x].
Proof. induction k; done. Qed.

Lemma rounds_add j k nodes : rounds (j + k) nodes = rounds k (rounds j nodes).
Proof. revert nodes. induction j as [|j IH]; intros nodes; simpl; auto. Qed.

Lemma fold_nodes_rounds fuel nodes h k :
  fold_nodes fuel nodes = Ok h -> (length nodes <= 2 ^ k)%nat -> rounds k nodes = [h].
Proof.
  revert nodes h k. induction fuel as [|fuel IH]; intros nodes h k Hf Hk; [done|].
  destruct (decide (length nodes < 2)%nat) as [Hlt|Hge].
  - destruct nodes as [|x [|y nodes]]; simpl in Hlt; [done| |lia].
    injection Hf as <-. apply rounds_single.
  - rewrite fold_nodes_step in Hf by lia.
    apply bind_Ok in Hf as (hl & Hl & Hf). apply bind_Ok in Hf as (hr & Hr & [= <-]).
    destruct (split_at_spec (length nodes)) as (j & Hj & Hlo & Hhi); [lia|].
    rewrite Hj in *.
    assert (exists i, k = (j + S i)%nat) as [i ->].
    { exists (k - S j)%nat. enough (j < k)%nat by lia.
      apply (Nat.pow_lt_mono_r_iff 2); lia. }
    rewrite <- (take_drop (2 ^ j) nodes), rounds_add, rounds_app by (rewrite length_take; lia).
    rewrite (IH _ hl j Hl), (IH _ hr j Hr) by (rewrite ?length_take, ?length_drop; simpl in *; lia).
    simpl. apply rounds_single.
Qed.

#[local] Opaque sha256.

(** ** Binding: what a root determines

    Statements about hash values hold up to collisions of SHA-256. Here a
    collision is not an abstract possibility but one among an explicit list
    of strings, the inputs the two computations hash. *)

Definition no_collision (inputs : list bytes) : Prop :=
  forall x y, x ∈ inputs -> y ∈ inputs -> sha256 x = sha256 y -> x = y.

Definition tag_input (tag msg : bytes) : bytes := sha256 tag ++ sha256 tag ++ msg.

Definition branch_input (a b : bytes) : bytes :=
  tag_input LnBranch (if bytes_le a b then a ++ b else b ++ a).

(** A tip of a (possibly partly redacted) tree: a record given by its nonce
    tag, encoding and type bytes, or a bare hash. *)
Inductive tip :=
  | Revealed (nonce_tag enc ty : bytes)
  | Hidden (h : bytes).

Definition tip_hash (x : tip) : bytes :=
  match x with
  | Revealed n e t => _pair_with_nonce (tagged_hash LnLeaf e) (tagged_hash n t)
  | Hidden h => h
  end.

(** Everything hashed to compute a tree's root from its tips. *)
Fixpoint tree_inputs (t : tree tip) : list bytes :=
  match t with
  | Tip (Revealed n e ty) =>
      [LnBranch; LnLeaf; n; tag_input LnLeaf e; tag_input n ty;
       branch_input (tagged_hash LnLeaf e) (tagged_hash n ty)]
  | Tip (Hidden _) => []
  | Node l r =>
      LnBranch :: branch_input (tree_hash tip_hash l) (tree_hash tip_hash r)
      :: tree_inputs l ++ tree_inputs r
  end.

Definition nonce_tagged (x : tip) : Prop :=
  match x with Revealed n _ _ => exists e, n = LnNonce ++ e | Hidden _ => True end.

Definition is_revealed (x : tip) : Prop :=
  match x with Revealed _ _ _ => True | Hidden _ => False end.

Lemma tagged_hash_input tag msg : tagged_hash tag msg = sha256 (tag_input tag msg).
Proof. done. Qed.

Lemma branch_hash_input a b : _branch a b = sha256 (branch_input a b).
Proof. unfold _branch, branch_input. by destruct (bytes_le a b). Qed.

Lemma length_tagged_hash tag msg : length (tagged_hash tag msg) = 32%nat.
Proof. apply length_sha256. Qed.

Lemma length_branch a b : length (_branch a b) = 32%nat.
Proof. rewrite branch_hash_input. apply length_sha256. Qed.

Lemma tag_input_inj tag tag' m m' :
  tag_input tag m = tag_input tag' m' -> sha256 tag = sha256 tag' /\ m = m'.
Proof.
  unfold tag_input. intros H.
  apply app_inj_1 in H as [H1 H]; [|by rewrite !length_sha256].
  by apply app_inj_1 in H as [_ H]; [|by rewrite !length_sha256].
Qed.

Lemma branch_input_inj a b c d :
  length a = 32%nat \/ length b = 32%nat -> length c = 32%nat -> length d = 32%nat ->
  branch_input a b = branch_input c d -> (a = c /\ b = d) \/ (a = d /\ b = c).
Proof.
  unfold branch_input. intros Ha Hc Hd [_ H]%tag_input_inj.
  assert (length a = 32%nat /\ length b = 32%nat) as [Ha' Hb].
  { apply (f_equal length) in H. destruct (bytes_le a b), (bytes_le c d);
      rewrite !length_app in H; lia. }
  destruct (bytes_le a b), (bytes_le c d); apply app_inj_1 in H as [-> ->]; auto; lia.
Qed.

(** The three tags are pairwise different whatever follows [LnNonce]. *)
Lemma tags_differ e : LnLeaf <> LnBranch /\ LnLeaf <> LnNonce ++ e /\ LnBranch <> LnNonce ++ e.
Proof. repeat split; done. Qed.

(** Membership of a concrete string in a list of hash inputs. *)
Ltac in_inputs :=
  cbn [tree_inputs]; repeat (rewrite elem_of_app || rewrite elem_of_cons); tauto.

Definition solid (t : tree tip) : Prop :=
  match t with Tip (Hidden _) => False | _ => True end.

Lemma solid_top t :
  solid t -> exists a b, tree_hash tip_hash t = sha256 (branch_input a b) /\
    branch_input a b ∈ tree_inputs t /\ LnBranch ∈ tree_inputs t.
Proof.
  destruct t as [[n e ty|h]|l r]; [intros _| done |intros _]; simpl.
  - unfold _pair_with_nonce. rewrite branch_hash_input. do 2 eexists.
    split; [done|]. split; in_inputs.
  - rewrite branch_hash_input. do 2 eexists. split; [done|]. split; in_inputs.
Qed.

Lemma solid_length t : solid t -> length (tree_hash tip_hash t) = 32%nat.
Proof. intros (a & b & -> & _)%solid_top. apply length_sha256. Qed.

Lemma all_revealed_solid t : Forall is_revealed (tips t) -> solid t.
Proof. destruct t as [[]|]; simpl; [done| |done]. by inversion 1. Qed.

Lemma revealed_solid n e ty t : Revealed n e ty ∈ tips t -> solid t.
Proof.
  destruct t as [[]|]; simpl; [done| |done]. rewrite list_elem_of_singleton. done.
Qed.

(** Under [no_collision], hashes with different tags differ. *)
Lemma same_hash_same_tag ins tag m tag' m' :
  no_collision ins -> tag ∈ ins -> tag' ∈ ins ->
  tag_input tag m ∈ ins -> tag_input tag' m' ∈ ins ->
  sha256 (tag_input tag m) = sha256 (tag_input tag' m') -> tag = tag' /\ m = m'.
Proof.
  intros Hnc H1 H2 H3 H4 H. apply Hnc in H; [|done|done].
  apply tag_input_inj in H as [H ->]. split; [by apply Hnc|done].
Qed.

(** A solid subtree never has the hash of a leaf or nonce. *)
Lemma solid_not_tagged ins u tag m :
  no_collision ins -> solid u -> tree_inputs u ⊆ ins -> tag ∈ ins -> tag_input tag m ∈ ins ->
  tag <> LnBranch -> tree_hash tip_hash u <> tagged_hash tag m.
Proof.
  intros Hnc (a & b & -> & Hin & HB)%solid_top Hsub Ht Hm Hne H.
  apply (same_hash_same_tag ins LnBranch _ tag m) in H as [H _]; auto.
Qed.

(** Equal branches have equal children, in one order or the other. *)
Lemma branch_children ins a b c d :
  no_collision ins -> branch_input a b ∈ ins -> branch_input c d ∈ ins ->
  length a = 32%nat \/ length b = 32%nat -> length c = 32%nat -> length d = 32%nat ->
  _branch a b = _branch c d -> (a = c /\ b = d) \/ (a = d /\ b = c).
Proof.
  rewrite !branch_hash_input. intros Hnc H1 H2 Ha Hc Hd H.
  apply Hnc in H; [|done|done]. by apply branch_input_inj.
Qed.

(** A revealed tip against the tree [t] of an actual stream. *)
Lemma tip_bound ins t n e ty :
  no_collision ins -> tree_inputs t ⊆ ins -> tree_inputs (Tip (Revealed n e ty)) ⊆ ins ->
  Forall is_revealed (tips t) -> Forall nonce_tagged (tips t) ->
  tree_hash tip_hash t = tip_hash (Revealed n e ty) ->
  exists n' ty', Revealed n' e ty' ∈ tips t.
Proof.
  intros Hnc Ht Hu Hrev Hnt H. unfold tip_hash, _pair_with_nonce in H. symmetry in H.
  destruct t as [[n' e' ty'|h]|l r]; [| by inversion Hrev|]; cbn [tree_hash tips] in *.
  - apply Forall_inv in Hnt as [e0 ->]. destruct (tags_differ e0) as (_ & HLN & _).
    apply (branch_children ins) in H; [|done|apply Hu; in_inputs|apply Ht; in_inputs|
      left; apply length_tagged_hash|apply length_tagged_hash..].
    destruct H as [[H _]|[H _]]; rewrite !tagged_hash_input in H;
      apply (same_hash_same_tag ins) in H as [Ht' He]; try done;
      try (apply Hu; in_inputs); try (apply Ht; in_inputs).
    exists (LnNonce ++ e0), ty'. subst e'. by apply list_elem_of_singleton.
  - apply Forall_app in Hrev as [Hl%all_revealed_solid Hr%all_revealed_solid].
    assert (tree_inputs l ⊆ ins /\ tree_inputs r ⊆ ins) as [Hil Hir]
      by (split; intros x Hx; apply Ht; in_inputs).
    apply (branch_children ins) in H; [|done|apply Hu; in_inputs|apply Ht; in_inputs|
      left; apply length_tagged_hash|by apply solid_length..].
    exfalso. destruct H as [[H _]|[H _]]; symmetry in H; revert H;
      apply (solid_not_tagged ins); try done; try (apply Hu; in_inputs).
Qed.

(** Every record revealed by a tree with the root of an actual stream is a
    record of that stream. *)
Lemma tree_bound ins u : forall t,
  no_collision ins -> tree_inputs t ⊆ ins -> tree_inputs u ⊆ ins ->
  Forall is_revealed (tips t) -> Forall nonce_tagged (tips t) ->
  tree_hash tip_hash t = tree_hash tip_hash u ->
  forall n e ty, Revealed n e ty ∈ tips u -> exists n' ty', Revealed n' e ty' ∈ tips t.
Proof.
  induction u as [x|ul IHl ur IHr]; intros t Hnc Ht Hu Hrev Hnt H n e ty Hin.
  { apply list_elem_of_singleton in Hin as <-. by eapply tip_bound. }
  assert (tree_inputs ul ⊆ ins /\ tree_inputs ur ⊆ ins) as [Hil Hir]
    by (split; intros x Hx; apply Hu; in_inputs).
  assert (solid ul \/ solid ur) as Hs.
  { apply elem_of_app in Hin as [?%revealed_solid|?%revealed_solid]; auto. }
  assert (length (tree_hash tip_hash ul) = 32%nat \/ length (tree_hash tip_hash ur) = 32%nat)
    as Hlen by (destruct Hs as [?%solid_length|?%solid_length]; auto).
  symmetry in H. destruct t as [[n' e' ty'|h]|tl tr]; [|by inversion Hrev|]; cbn [tree_hash tips] in *.
  - exfalso. apply Forall_inv in Hnt as [e0 ->]. destruct (tags_differ e0) as (HLB & _ & HBN).
    unfold tip_hash, _pair_with_nonce in H.
    apply (branch_children ins) in H; [|done|apply Hu; in_inputs|apply Ht; in_inputs|done|
      apply length_tagged_hash..].
    assert (forall w, solid w -> tree_inputs w ⊆ ins ->
      tree_hash tip_hash w <> tagged_hash LnLeaf e' /\
      tree_hash tip_hash w <> tagged_hash (LnNonce ++ e0) ty') as Hno.
    { intros w Hw Hiw. split; apply (solid_not_tagged ins); try done; apply Ht; in_inputs. }
    destruct Hs as [Hs|Hs], H as [[H1 H2]|[H1 H2]];
      destruct (Hno _ Hs ltac:(assumption)); auto.
  - apply Forall_app in Hrev as [Hrl Hrr], Hnt as [Hnl Hnr].
    assert (tree_inputs tl ⊆ ins /\ tree_inputs tr ⊆ ins) as [Htl Htr]
      by (split; intros x Hx; apply Ht; in_inputs).
    apply (branch_children ins) in H; [|done|apply Hu; in_inputs|apply Ht; in_inputs|done|
      apply solid_length, all_revealed_solid; done..].
    setoid_rewrite elem_of_app.
    apply elem_of_app in Hin as [Hin|Hin]; destruct H as [[H1 H2]|[H1 H2]].
    + destruct (IHl tl Hnc Htl Hil Hrl Hnl (eq_sym H1) _ _ _ Hin) as (n' & ty' & ?). eauto.
    + destruct (IHl tr Hnc Htr Hil Hrr Hnr (eq_sym H1) _ _ _ Hin) as (n' & ty' & ?). eauto.
    + destruct (IHr tr Hnc Htr Hir Hrr Hnr (eq_sym H2) _ _ _ Hin) as (n' & ty' & ?). eauto.
    + destruct (IHr tl Hnc Htl Hir Hrl Hnl (eq_sym H2) _ _ _ Hin) as (n' & ty' & ?). eauto.
Qed.

(** ** Streams *)

(** The encoding of a record, empty where it has none. *)
Definition enc (r : TLVRecord) : bytes :=
  match encode_record r with Ok e => e | Err _ => [] end.
Definition enc_type (r : TLVRecord) : bytes :=
  match type_bytes r with Ok t => t | Err _ => [] end.

Definition record_tip (nonce_tag : bytes) (r : TLVRecord) : tip :=
  Revealed nonce_tag (enc r) (enc_type r).

(** The nonce tag of a stream and the strings its root computation hashes. *)
Definition nonce_tag_of (records : list TLVRecord) : bytes :=
  match non_signature records with [] => LnNonce | r :: _ => LnNonce ++ enc r end.

Definition stream_tree (records : list TLVRecord) : option (tree tip) :=
  let tips := map (record_tip (nonce_tag_of records)) (non_signature records) in
  build_tree (S (length tips)) tips.

Definition root_inputs (records : list TLVRecord) : list bytes :=
  match stream_tree records with Some t => tree_inputs t | None => [] end.

Lemma paired_hash_Ok n r h :
  paired_hash n r = Ok h -> encode_record r = Ok (enc r) /\ h = tip_hash (record_tip n r).
Proof.
  unfold paired_hash. intros H. apply bind_Ok in H as (e & He & H).
  apply bind_Ok in H as (t & Ht & [= <-]).
  unfold record_tip, enc, enc_type. by rewrite He, Ht.
Qed.

Lemma merkle_root_tree records h :
  merkle_root records = Ok h ->
  Forall (fun r => encode_record r = Ok (enc r)) (non_signature records) /\
  exists t, stream_tree records = Some t /\
    tips t = map (record_tip (nonce_tag_of records)) (non_signature records) /\
    h = tree_hash tip_hash t.
Proof.
  unfold merkle_root, stream_tree, nonce_tag_of. intros H.
  destruct (non_signature records) as [|r rs] eqn:E; [done|].
  apply bind_Ok in H as (e & He & H). apply bind_Ok in H as (ps & Hps & H).
  assert (enc r = e) as -> by (unfold enc; by rewrite He).
  set (n := LnNonce ++ e) in *. apply mapR_Ok in Hps.
  assert (ps = map tip_hash (map (record_tip n) (r :: rs)) /\
          Forall (fun r => encode_record r = Ok (enc r)) (r :: rs)) as [-> Henc].
  { clear -Hps. induction Hps as [|x y xs ys [Hx ->]%paired_hash_Ok _ [-> IH]]; auto. }
  split; [done|]. unfold _fold in H. rewrite length_map in H.
  destruct (fold_nodes_tree tip_hash (S (length (map (record_tip n) (r :: rs))))
              (map (record_tip n) (r :: rs))) as (t & Hb & Ht & Hf); [done|lia|].
  rewrite H in Hf. injection Hf as ->. eauto.
Qed.

Lemma stream_tips_ok n l :
  Forall is_revealed (map (record_tip (LnNonce ++ n)) l) /\
  Forall nonce_tagged (map (record_tip (LnNonce ++ n)) l).
Proof. induction l; simpl; split; constructor; simpl; try tauto; eauto. Qed.

Lemma nonce_tag_form records : exists n, nonce_tag_of records = LnNonce ++ n.
Proof.
  unfold nonce_tag_of. destruct (non_signature records); [exists []; by rewrite app_nil_r|eauto].
Qed.

(** BigSize encodings are prefix-free, so record encodings are injective. *)
Lemma encode_prefix_free a b x y ea eb :
  BigSize.encode a = Ok ea -> BigSize.encode b = Ok eb -> ea ++ x = eb ++ y -> a = b /\ x = y.
Proof.
  intros Ha Hb H.
  pose proof (decode_encode a ea [] x Ha) as Da. pose proof (decode_encode b eb [] y Hb) as Db.
  cbn [app] in *. rewrite H, Db in Da. injection Da as <- Hl.
  rewrite Ha in Hb. injection Hb as ->. by apply app_inv_head in H.
Qed.

Lemma encode_record_inj r r' e : encode_record r = Ok e -> encode_record r' = Ok e -> r = r'.
Proof.
  intros (t & l & Ht & Hl & ->)%encode_record_Ok (t' & l' & Ht' & Hl' & H)%encode_record_Ok.
  destruct (encode_prefix_free _ _ _ _ _ _ Ht Ht' H) as [Hty H'].
  destruct (encode_prefix_free _ _ _ _ _ _ Hl Hl' H') as [_ Hv].
  destruct r, r'; simpl in *; congruence.
Qed.

(** Every record revealed by a tree with a stream's root is in the stream. *)
Lemma stream_bound records u :
  merkle_root records = Ok (tree_hash tip_hash u) ->
  no_collision (root_inputs records ++ tree_inputs u) ->
  forall n e ty, Revealed n e ty ∈ tips u ->
  exists r, r ∈ non_signature records /\ encode_record r = Ok e.
Proof.
  intros (Henc & t & Hst & Htips & Hh)%merkle_root_tree Hnc n e ty Hin.
  unfold root_inputs in Hnc. rewrite Hst in Hnc.
  destruct (nonce_tag_form records) as [n0 Hn0].
  destruct (stream_tips_ok n0 (non_signature records)) as [Hrev Hnt].
  rewrite <- Hn0, <- Htips in Hrev, Hnt.
  destruct (tree_bound (tree_inputs t ++ tree_inputs u) u t Hnc) with (n := n) (e := e) (ty := ty)
    as (n' & ty' & Hin'); try done.
  { intros x. rewrite elem_of_app. by left. }
  { intros x. rewrite elem_of_app. by right. }
  rewrite Htips in Hin'. apply list_elem_of_fmap in Hin' as (r & Hr & Hin').
  injection Hr as _ -> _. exists r. split; [done|].
  rewrite Forall_forall in Henc. by apply Henc.
Qed.

(** Strictly ascending lists with the same members are equal. *)
Lemma ascending_ext (rs ss : list TLVRecord) :
  ascending (map tlv_type rs) = true -> ascending (map tlv_type ss) = true ->
  (forall r, r ∈ rs <-> r ∈ ss) -> rs = ss.
Proof.
  revert ss. induction rs as [|r rs IH]; intros [|s ss] Hr Hs Heq.
  - done.
  - destruct (not_elem_of_nil s). apply Heq. left.
  - destruct (not_elem_of_nil r). apply Heq. left.
  - cbn [map] in Hr, Hs. apply ascending_cons in Hr as [Hr Hr'], Hs as [Hs Hs'].
    rewrite Forall_forall in Hr, Hs.
    assert (forall x, x ∈ rs -> tlv_type r < tlv_type x) as Hr1
      by (intros x Hx; apply Hr, list_elem_of_fmap; eauto).
    assert (forall x, x ∈ ss -> tlv_type s < tlv_type x) as Hs1
      by (intros x Hx; apply Hs, list_elem_of_fmap; eauto).
    assert (r = s) as <-.
    { assert (r ∈ s :: ss) as [?|H1]%elem_of_cons by (apply Heq; left); [done|].
      assert (s ∈ r :: rs) as [?|H2]%elem_of_cons by (apply Heq; left); [done|].
      apply Hs1 in H1. apply Hr1 in H2. lia. }
    f_equal. apply IH; [done|done|]. intros x. specialize (Heq x).
    rewrite !elem_of_cons in Heq. split; intros Hx.
    + destruct (proj1 Heq (or_intror Hx)) as [->|]; [apply Hr1 in Hx; lia|done].
    + destruct (proj2 Heq (or_intror Hx)) as [->|]; [apply Hs1 in Hx; lia|done].
Qed.

(** ** Properties *)

(** C26. The recursive fold (cut at the largest power of two below the
    length) never fails on a non-empty node list and computes the root
    BOLT 12 describes: combine neighbours level by level, an odd last node
    carried up. [length xs] rounds always suffice. *)
Theorem fold_is_level_pairing x xs :
  exists h, _fold (x :: xs) = Ok h /\ rounds (length xs) (x :: xs) = [h].
Proof.
  destruct (fold_nodes_tree id (S (length (x :: xs))) (x :: xs)) as (t & _ & _ & Hf); [done|lia|].
  rewrite List.map_id in Hf. eexists. split; [exact Hf|].
  eapply fold_nodes_rounds; [exact Hf|]. simpl.
  pose proof (Nat.pow_gt_lin_r 2 (length xs)). lia.
Qed.

(** C27. A Merkle root determines the signed content: two streams with
    records in ascending type order and the same root have the same
    non-signature records, unless SHA-256 collides on two of the strings
    hashed for them. In particular signature records never affect the root. *)
Theorem merkle_root_binding rs ss h :
  merkle_root rs = Ok h -> merkle_root ss = Ok h ->
  ascending (map tlv_type (non_signature rs)) = true ->
  ascending (map tlv_type (non_signature ss)) = true ->
  no_collision (root_inputs rs ++ root_inputs ss) ->
  non_signature rs = non_signature ss.
Proof.
  intros Hr Hs Har Has Hnc.
  assert (forall a b, merkle_root a = Ok h -> merkle_root b = Ok h ->
    no_collision (root_inputs a ++ root_inputs b) ->
    forall r, r ∈ non_signature b -> r ∈ non_signature a) as Hsub.
  { intros a b Ha Hb Hab r Hin.
    destruct (merkle_root_tree _ _ Hb) as (Henc & t & Hst & Htips & ->).
    unfold root_inputs in Hab at 2. rewrite Hst in Hab.
    destruct (stream_bound a t Ha Hab (nonce_tag_of b) (enc r) (enc_type r)) as (r' & Hin' & He).
    - rewrite Htips. apply list_elem_of_fmap. by exists r.
    - rewrite Forall_forall in Henc. specialize (Henc r Hin).
      by rewrite (encode_record_inj _ _ _ Henc He). }
  apply ascending_ext; [done|done|]. intros r. split; intros Hin.
  - eapply Hsub; [exact Hs|exact Hr| |done].
    intros x y Hx Hy. apply Hnc; rewrite elem_of_app in *; tauto.
  - eapply Hsub; [exact Hr|exact Hs|done|done].
Qed.

(** Deciding [no_collision] on a concrete list. *)
Definition no_collisionb (ins : list bytes) : bool :=
  let table := map (fun x => (x, sha256 x)) ins in
  forallb (fun '(x, hx) => forallb (fun '(y, hy) =>
    implb (bool_decide (hx = hy)) (bool_decide (x = y))) table) table.

Lemma no_collisionb_spec ins : no_collisionb ins = true -> no_collision ins.
Proof.
  unfold no_collisionb. intros H x y Hx Hy Hxy.
  rewrite List.forallb_forall in H.
  specialize (H (x, sha256 x)). rewrite in_map_iff in H.
  specialize (H ltac:(exists x; split; [done|by apply list_elem_of_In])).
  cbn beta iota in H. rewrite List.forallb_forall in H.
  specialize (H (y, sha256 y)). rewrite in_map_iff in H.
  specialize (H ltac:(exists y; split; [done|by apply list_elem_of_In])).
  cbn beta iota in H. rewrite (bool_decide_eq_true_2 _ Hxy) in H. simpl in H.
  by apply bool_decide_eq_true in H.
Qed.

Definition example_stream : list TLVRecord := [mkTLV 8 [x07]; mkTLV 22 [x02]].

Lemma merkle_root_binding_witness :
  non_signature (example_stream ++ [mkTLV 240 (replicate 64 x05)]) = non_signature example_stream.
Proof.
  eapply merkle_root_binding with
    (h := match merkle_root example_stream with Ok h => h | Err _ => [] end);
    [vm_compute; reflexivity..|].
  apply no_collisionb_spec. vm_compute. reflexivity.
Defined.

(** The second vector of tests/vectors/bolt12/signature-test.json. *)
Example merkle_vector_n1 :
  hex <$> merkle_root [mkTLV 1 [x03; xe8]; mkTLV 2 [x00; x00; x01; x00; x00; x02; x00; x03]] =
  Ok "c3774abbf4815aa54ccaa026bff6581f01f3be5fe814c620a252534f434bc0d1"%string.
Proof. vm_compute. reflexivity. Qed.
