(* ===== verification/Utf8.v ===== *)
(** * Text codecs of the Python standard library

    [bytes.decode("utf-8")], [str.encode("utf-8")] and their ["ascii"]
    variants, strict error handling. A Python [str] of arbitrary text is a
    list of code points. *)
From S2P Require Import Prelude Bytes.
From Stdlib Require Import Wf_nat.

Abbreviation ustr := (list Z).

(** ** UTF-8 *)

Definition is_surrogate (c : Z) : bool := (0xD800 <=? c) && (c <=? 0xDFFF).

Definition utf8_encode_char (c : Z) : result bytes :=
  if (c <? 0) || (0x10FFFF <? c) || is_surrogate c then Err UnicodeEncodeError
  else if c <? 0x80 then Ok [z2b c]
  else if c <? 0x800 then Ok [z2b (0xC0 + c / 64); z2b (0x80 + c mod 64)]
  else if c <? 0x10000 then
    Ok [z2b (0xE0 + c / 4096); z2b (0x80 + c / 64 mod 64); z2b (0x80 + c mod 64)]
  else
    Ok [z2b (0xF0 + c / 262144); z2b (0x80 + c / 4096 mod 64);
        z2b (0x80 + c / 64 mod 64); z2b (0x80 + c mod 64)].

Definition utf8_encode (s : ustr) : result bytes := @concat byte <$> mapR utf8_encode_char s.

(** A continuation byte's six bits. *)
Definition cont (b : byte) : option Z :=
  if (0x80 <=? b2z b) && (b2z b <=? 0xBF) then Some (b2z b - 0x80) else None.

Definition utf8_valid (lo c : Z) : bool :=
  (lo <=? c) && (c <=? 0x10FFFF) && negb (is_surrogate c).

Fixpoint utf8_decode (data : bytes) : result ustr :=
  match data with
  | [] => Ok []
  | b0 :: rest =>
      let h := b2z b0 in
      if h <? 0x80 then s ← utf8_decode rest; Ok (h :: s)
      else if (0xC0 <=? h) && (h <=? 0xDF) then
        match rest with
        | b1 :: rest =>
            match cont b1 with
            | Some c1 =>
                let c := (h - 0xC0) * 64 + c1 in
                if utf8_valid 0x80 c then s ← utf8_decode rest; Ok (c :: s)
                else Err UnicodeDecodeError
            | None => Err UnicodeDecodeError
            end
        | [] => Err UnicodeDecodeError
        end
      else if (0xE0 <=? h) && (h <=? 0xEF) then
        match rest with
        | b1 :: b2 :: rest =>
            match cont b1, cont b2 with
            | Some c1, Some c2 =>
                let c := ((h - 0xE0) * 64 + c1) * 64 + c2 in
                if utf8_valid 0x800 c then s ← utf8_decode rest; Ok (c :: s)
                else Err UnicodeDecodeError
            | _, _ => Err UnicodeDecodeError
            end
        | _ => Err UnicodeDecodeError
        end
      else if (0xF0 <=? h) && (h <=? 0xF7) then
        match rest with
        | b1 :: b2 :: b3 :: rest =>
            match cont b1, cont b2, cont b3 with
            | Some c1, Some c2, Some c3 =>
                let c := (((h - 0xF0) * 64 + c1) * 64 + c2) * 64 + c3 in
                if utf8_valid 0x10000 c then s ← utf8_decode rest; Ok (c :: s)
                else Err UnicodeDecodeError
            | _, _, _ => Err UnicodeDecodeError
            end
        | _ => Err UnicodeDecodeError
        end
      else Err UnicodeDecodeError
  end.

(** ** ASCII *)

Definition ascii_encode (s : ustr) : result bytes :=
  if forallb (fun c => (0 <=? c) && (c <? 128)) s then Ok (map z2b s) else Err UnicodeEncodeError.

Definition ascii_decode (data : bytes) : result ustr :=
  if forallb (fun b => b2z b <? 128) data then Ok (map b2z data) else Err UnicodeDecodeError.

(** ** Round trips *)

Lemma cont_Some b c : cont b = Some c -> 0 <= c < 64 /\ b = z2b (0x80 + c).
Proof.
  unfold cont. intros H. case_hyp H. injection H as <-. bool_to_prop.
  split; [lia|]. replace (0x80 + _) with (b2z b) by lia. by rewrite z2b_b2z.
Qed.

Lemma z2b_of b z : b2z b = z -> z2b z = b.
Proof. intros <-. apply z2b_b2z. Qed.

(** A decoded character re-encodes to the bytes it came from. *)
Lemma utf8_encode_valid2 b0 c1 :
  0xC0 <= b2z b0 <= 0xDF -> 0 <= c1 < 64 ->
  utf8_valid 0x80 ((b2z b0 - 0xC0) * 64 + c1) = true ->
  utf8_encode_char ((b2z b0 - 0xC0) * 64 + c1) = Ok [b0; z2b (0x80 + c1)].
Proof.
  intros Hb Hc Hv. unfold utf8_valid in Hv. bool_to_prop. unfold utf8_encode_char.
  set (c := _ + c1) in *.
  destruct (Z.ltb_spec c 0), (Z.ltb_spec 0x10FFFF c); try (subst c; lia). rewrite H0. simpl.
  destruct (Z.ltb_spec c 0x80), (Z.ltb_spec c 0x800); try (subst c; lia).
  do 3 f_equal; [apply z2b_of; subst c; dlia|]. do 3 f_equal. subst c. dlia.
Qed.

Lemma utf8_encode_valid3 b0 c1 c2 :
  0xE0 <= b2z b0 <= 0xEF -> 0 <= c1 < 64 -> 0 <= c2 < 64 ->
  utf8_valid 0x800 (((b2z b0 - 0xE0) * 64 + c1) * 64 + c2) = true ->
  utf8_encode_char (((b2z b0 - 0xE0) * 64 + c1) * 64 + c2) =
  Ok [b0; z2b (0x80 + c1); z2b (0x80 + c2)].
Proof.
  intros Hb Hc Hc2 Hv. unfold utf8_valid in Hv. bool_to_prop. unfold utf8_encode_char.
  set (c := _ + c2) in *.
  destruct (Z.ltb_spec c 0), (Z.ltb_spec 0x10FFFF c); try (subst c; lia). rewrite H0. simpl.
  destruct (Z.ltb_spec c 0x80), (Z.ltb_spec c 0x800), (Z.ltb_spec c 0x10000); try (subst c; lia).
  do 2 f_equal; [apply z2b_of; subst c; dlia|].
  f_equal; [do 2 f_equal; subst c; dlia|]. do 3 f_equal. subst c. dlia.
Qed.

Lemma utf8_encode_valid4 b0 c1 c2 c3 :
  0xF0 <= b2z b0 <= 0xF7 -> 0 <= c1 < 64 -> 0 <= c2 < 64 -> 0 <= c3 < 64 ->
  utf8_valid 0x10000 ((((b2z b0 - 0xF0) * 64 + c1) * 64 + c2) * 64 + c3) = true ->
  utf8_encode_char ((((b2z b0 - 0xF0) * 64 + c1) * 64 + c2) * 64 + c3) =
  Ok [b0; z2b (0x80 + c1); z2b (0x80 + c2); z2b (0x80 + c3)].
Proof.
  intros Hb Hc Hc2 Hc3 Hv. unfold utf8_valid in Hv. bool_to_prop. unfold utf8_encode_char.
  set (c := _ + c3) in *.
  destruct (Z.ltb_spec c 0), (Z.ltb_spec 0x10FFFF c); try (subst c; lia). rewrite H0. simpl.
  destruct (Z.ltb_spec c 0x80), (Z.ltb_spec c 0x800), (Z.ltb_spec c 0x10000); try (subst c; lia).
  do 2 f_equal; [apply z2b_of; subst c; dlia|].
  f_equal; [do 2 f_equal; subst c; dlia|].
  f_equal; [do 2 f_equal; subst c; dlia|]. do 3 f_equal. subst c. dlia.
Qed.

Lemma utf8_encode_cons c s e d :
  utf8_encode_char c = Ok e -> utf8_encode s = Ok d -> utf8_encode (c :: s) = Ok (e ++ d).
Proof.
  unfold utf8_encode. intros He (es & Hes & <-)%fmap_Ok. simpl. by rewrite He, Hes.
Qed.

Lemma utf8_decode_encode data : forall s, utf8_decode data = Ok s -> utf8_encode s = Ok data.
Proof.
  induction data as [data IH] using (induction_ltof1 _ (@length byte)). unfold ltof in IH.
  intros s H. destruct data as [|b0 rest]; [by injection H as <-|].
  cbn [utf8_decode] in H. pose proof (b2z_range b0).
  repeat case_hyp H; bool_to_prop;
    apply bind_Ok in H as (s' & Hs & [= <-]); apply IH in Hs; try (simpl; lia);
    repeat match goal with E : cont _ = Some _ |- _ => apply cont_Some in E as [? ->] end.
  - change (b0 :: rest) with ([b0] ++ rest). apply utf8_encode_cons; [|done].
    unfold utf8_encode_char, is_surrogate.
    destruct (Z.ltb_spec (b2z b0) 0), (Z.ltb_spec 0x10FFFF (b2z b0)),
      (Z.leb_spec 0xD800 (b2z b0)), (Z.ltb_spec (b2z b0) 0x80); try lia.
    simpl. by rewrite z2b_b2z.
  - match goal with |- _ = Ok (b0 :: ?b1 :: ?r) => change (b0 :: b1 :: r) with ([b0; b1] ++ r) end.
    apply utf8_encode_cons; [apply utf8_encode_valid2; solve [lia | assumption]|done].
  - match goal with |- _ = Ok (b0 :: ?b1 :: ?b2 :: ?r) =>
      change (b0 :: b1 :: b2 :: r) with ([b0; b1; b2] ++ r) end.
    apply utf8_encode_cons; [apply utf8_encode_valid3; solve [lia | assumption]|done].
  - match goal with |- _ = Ok (b0 :: ?b1 :: ?b2 :: ?b3 :: ?r) =>
      change (b0 :: b1 :: b2 :: b3 :: r) with ([b0; b1; b2; b3] ++ r) end.
    apply utf8_encode_cons; [apply utf8_encode_valid4; solve [lia | assumption]|done].
Qed.

Lemma ascii_decode_encode data s : ascii_decode data = Ok s -> ascii_encode s = Ok data.
Proof.
  unfold ascii_decode, ascii_encode. intros H. case_hyp H. injection H as <-.
  assert (forallb (fun c => (0 <=? c) && (c <? 128)) (map b2z data) = true) as ->.
  { revert E. induction data as [|b data IH]; [done|]. simpl.
    intros [H1 H2]%andb_prop. rewrite IH, H1 by done. pose proof (b2z_range b).
    destruct (Z.leb_spec 0 (b2z b)); [done|lia]. }
  f_equal. rewrite map_map. erewrite map_ext; [apply map_id|]. apply z2b_b2z.
Qed.

Example utf8_euro : utf8_encode [0x20AC; 0x41] = Ok [xe2; x82; xac; x41] /\
  utf8_decode [xe2; x82; xac; x41] = Ok [0x20AC; 0x41] /\
  utf8_decode [xc0; x80] = Err UnicodeDecodeError /\ utf8_decode [xed; xa0; x80] = Err UnicodeDecodeError.
Proof. vm_compute. done. Qed.
