(* ===== verification/Lnurl.v ===== *)
(** * LNURL strings (core/bech32_lnurl.py)

    [decode_lnurl]: bech32 with prefix [lnurl], no limit of 90 characters,
    and a UTF-8 payload. The module's [_polymod], [_hrp_expand] and
    [_convertbits] are those of core/validation.py. *)
From S2P Require Import Prelude Bytes Utf8 Bech32 Checksum Address.

Definition _MAX_LNURL_LEN : nat := 2048.

Definition lnurl_hrp : pystr := str "lnurl".

(** [bytes(values)] of values below 256 *)
Definition to_bytes_list (l : list Z) : bytes := map z2b l.

Definition decode_lnurl (s : pystr) : option ustr :=
  if bool_decide (s = []) then None
  else if (_MAX_LNURL_LEN <? length s)%nat then None
  else if mixed_case s then None
  else
    let s := map lower_char s in
    match rfind "1"%char s with
    | None | Some O => None
    | Some pos =>
        if (length s <? pos + 7)%nat then None
        else if negb (bool_decide (take pos s = lnurl_hrp)) then None
        else
          data ← groups_of (drop (S pos) s);
          if negb (_bech32_polymod (_bech32_hrp_expand (take pos s) ++ data) =? _BECH32_CONST) then None
          else
            decoded_bytes ← _convertbits (take (length data - 6) data) 5 8 false;
            match utf8_decode (to_bytes_list decoded_bytes) with Ok url => Some url | Err _ => None end
    end.

(** The encoding of LUD-01. *)
Definition encode_lnurl (payload : bytes) : pystr :=
  let data := _convert_8_to_5 payload in
  lnurl_hrp ++ "1"%char :: map charset_at (data ++ checksum_of _BECH32_CONST (_bech32_hrp_expand lnurl_hrp ++ data)).

Lemma to_bytes_list_b2z d : to_bytes_list (map b2z d) = d.
Proof. unfold to_bytes_list. rewrite map_map. rewrite <- (map_id d) at 2. apply map_ext. apply z2b_b2z. Qed.

Lemma lnurl_checksum data : Forall is_group data ->
  _bech32_polymod (_bech32_hrp_expand lnurl_hrp ++ data ++ checksum_of _BECH32_CONST (_bech32_hrp_expand lnurl_hrp ++ data)) =
  _BECH32_CONST.
Proof.
  intros Hd. destruct (checksum_groups _BECH32_CONST (_bech32_hrp_expand lnurl_hrp ++ data)) as [Hg Hl].
  rewrite app_assoc. apply checksum_unique; [apply (const_state 0)| |done|done|done].
  apply Forall_app. split; [apply expand_groups|done].
Qed.

(** What the function does to a lower-case string with its parts found. *)
Lemma lnurl_parts s hrp gs :
  s <> [] -> (length s <= 2048)%nat -> mixed_case s = false -> Forall is_group gs -> hrp <> [] ->
  map lower_char s = hrp ++ "1"%char :: map charset_at gs ->
  decode_lnurl s =
  if (length gs <? 6)%nat || negb (bool_decide (hrp = lnurl_hrp)) then None
  else if negb (_bech32_polymod (_bech32_hrp_expand hrp ++ gs) =? _BECH32_CONST) then None
  else match _convert_5_to_8 (take (length gs - 6) gs) with
       | Ok d => match utf8_decode d with Ok url => Some url | Err _ => None end
       | Err _ => None
       end.
Proof.
  intros Hne Hlen Hm Hg Hh E. unfold decode_lnurl. rewrite bool_decide_false, Hm by done.
  rewrite (proj2 (Nat.ltb_ge _ _)) by done. rewrite E, rfind_last by by apply charset_not_1.
  destruct hrp as [|c hrp]; [done|]. cbn [length]. set (h := c :: hrp). change (S (length hrp)) with (length h).
  rewrite take_app_length, drop_middle, length_app. cbn [length]. rewrite length_map.
  rewrite (proj2 (groups_of_iff _ gs)) by done. cbn [mbind option_bind]. rewrite convertbits_5_8.
  destruct (Nat.ltb_spec (length h + S (length gs)) (length h + 7)), (Nat.ltb_spec (length gs) 6); try lia; [done|].
  cbn [orb]. case_match; [done|]. case_match; [done|].
  destruct (_convert_5_to_8 _); [|done]. cbn [mbind option_bind]. by rewrite to_bytes_list_b2z.
Qed.

(** An LNURL string decodes to a URL exactly when it has at most 2048
    characters, is not of mixed case, and, lower-cased, is the bech32
    encoding with prefix [lnurl] of bytes that are the URL's UTF-8 text. *)
Theorem lnurl_decode_iff s url :
  decode_lnurl s = Some url <->
  (length s <= 2048)%nat /\ mixed_case s = false /\
  exists payload, utf8_decode payload = Ok url /\ map lower_char s = encode_lnurl payload.
Proof.
  split.
  - intros H.
    assert (Hparts : exists hrp gs, s <> [] /\ (length s <= 2048)%nat /\ mixed_case s = false /\ Forall is_group gs /\
      hrp <> [] /\ map lower_char s = hrp ++ "1"%char :: map charset_at gs).
    { unfold decode_lnurl in H. case_bool_decide; [done|]. destruct (Nat.ltb_spec _MAX_LNURL_LEN (length s)); [done|].
      destruct (mixed_case s); [done|]. destruct (rfind _ _) as [[|pos]|] eqn:Hf; try done. apply rfind_Some in Hf.
      destruct (length _ <? _)%nat; [done|]. case_bool_decide as Eh; [|done]. cbn [negb] in H.
      destruct (groups_of _) as [gs|] eqn:Hg; [|done]. apply groups_of_iff in Hg as [Hd Hg].
      exists lnurl_hrp, gs. split_and!; try done. rewrite Hf at 1. by rewrite Eh, Hd. }
    destruct Hparts as (hrp & gs & Hne & Hlen & Hm & Hg & Hh & E). rewrite (lnurl_parts s hrp gs) in H by done.
    destruct (Nat.ltb_spec (length gs) 6) as [|H6]; [done|]. cbn [orb] in H. case_bool_decide; [subst hrp|done]. cbn [negb] in H.
    destruct (Z.eqb_spec (_bech32_polymod (_bech32_hrp_expand lnurl_hrp ++ gs)) _BECH32_CONST) as [Ep|]; [|done].
    destruct (_convert_5_to_8 _) as [d|] eqn:Ec; [|done]. simpl in H. destruct (utf8_decode d) as [w|] eqn:Ew; [|done].
    injection H as ->. split_and!; [done|done|]. exists d. split; [done|]. apply convert_5_8_5 in Ec.
    rewrite <- (take_drop (length gs - 6) gs) in Ep, Hg, E. apply Forall_app in Hg as [Hg1 Hg2].
    rewrite app_assoc in Ep. apply checksum_unique in Ep;
      [|apply (const_state 0)|by apply Forall_app; split; [apply expand_groups|]|done|rewrite length_drop; lia].
    rewrite E, Ep. unfold encode_lnurl. by rewrite Ec.
  - intros (Hlen & Hm & payload & Hu & E). pose proof (convert_8_to_5_groups payload) as Hd.
    destruct (checksum_groups _BECH32_CONST (_bech32_hrp_expand lnurl_hrp ++ _convert_8_to_5 payload)) as [Hg Hl].
    unfold encode_lnurl in E. assert (Hne : s <> []) by by intros ->.
    rewrite (lnurl_parts s lnurl_hrp _ Hne Hlen Hm (proj2 (Forall_app _ _ _) (conj Hd Hg)) ltac:(done) E).
    rewrite lnurl_checksum by done. rewrite length_app, Hl, (proj2 (Nat.ltb_ge _ _)), bool_decide_true by (done || lia).
    cbn [orb negb]. rewrite Z.eqb_refl, Nat.add_sub, take_app_length. cbn [negb]. by rewrite convert_8_5_8, Hu.
Qed.

(** An LNURL of a short address, and its upper-case form. *)
Example lnurl_ex :
  decode_lnurl (encode_lnurl (String.list_byte_of_string "https://a.io/x")) = Some (map ord (str "https://a.io/x")) /\
  decode_lnurl (map upper_char (encode_lnurl (String.list_byte_of_string "https://a.io/x"))) = Some (map ord (str "https://a.io/x")).
Proof. split; vm_compute; reflexivity. Qed.
