(* ===== verification/Codec.v ===== *)
(** * BOLT 12 strings (app/services/bolt12/codec.py)

    The layer between the bech32 text form and a list of TLV records. *)
From S2P Require Import Prelude Bytes BigSize Tlv Sha256 Bech32 Merkle.

(** ** Operations *)

Record Bolt12String := mkB12 { hrp : pystr; records : list TLVRecord }.

Definition _HRP_TO_MESSAGE (h : pystr) : option pystr :=
  if bool_decide (h = str "lno") then Some (str "offer")
  else if bool_decide (h = str "lnr") then Some (str "invoice_request")
  else if bool_decide (h = str "lni") then Some (str "invoice")
  else None.

Definition message_name (b : Bolt12String) : result pystr :=
  match _HRP_TO_MESSAGE (hrp b) with
  | Some m => Ok m
  | None => Err (KeyError "hrp")
  end.

(** [Bolt12String.merkle_root] *)
Definition string_merkle_root (b : Bolt12String) : result bytes := merkle_root (records b).

Definition signature_digest (b : Bolt12String) (field_name : pystr) : result bytes :=
  m ← message_name b;
  r ← string_merkle_root b;
  signature_message_hash m field_name r.

Definition decode (s : pystr) (max_records max_value_bytes : option Z) : result Bolt12String :=
  '(h, payload) ← Bech32.decode s;
  rs ← decode_stream payload max_records max_value_bytes;
  Ok (mkB12 h rs).

Definition encode (b : Bolt12String) : result pystr :=
  match _HRP_TO_MESSAGE (hrp b) with
  | None => Err (Bolt12FormatError "unknown HRP ")
  | Some _ => payload ← encode_stream (records b); Bech32.encode (hrp b) payload
  end.

(** ** Lemmas *)

Lemma hrp_known h : (exists m, _HRP_TO_MESSAGE h = Some m) <-> h ∈ KNOWN_HRPS.
Proof.
  unfold _HRP_TO_MESSAGE, KNOWN_HRPS. rewrite !elem_of_cons, elem_of_nil.
  repeat case_bool_decide; naive_solver.
Qed.

Lemma codec_encode_Ok b n :
  encode b = Ok n <-> exists p, encode_stream (records b) = Ok p /\ Bech32.encode (hrp b) p = Ok n.
Proof.
  unfold encode. split.
  - intros H. case_hyp H. by apply bind_Ok in H.
  - intros (p & Hp & Hn). pose proof Hn as [Hk _]%Bech32.encode_Ok.
    apply hrp_known in Hk as [m ->]. by rewrite Hp.
Qed.

Lemma encode_stream_nonempty rs p : encode_stream rs = Ok p -> rs <> [] <-> p <> [].
Proof.
  intros H. destruct rs as [|r rs]; [apply encode_stream_nil in H as ->; done|].
  apply encode_stream_length in H. destruct p; simpl in *; [lia|done].
Qed.

(** The digest a signature covers is 32 bytes whenever it exists. *)
Lemma signature_message_hash_length m f r d :
  signature_message_hash m f r = Ok d -> length d = 32%nat.
Proof.
  unfold signature_message_hash. intros H. case_hyp H. inv_ok. apply length_tagged_hash.
Qed.

(** ** Properties *)

(** The codec is a bijection between accepted strings (up to case and
    continuations) and well-formed messages: a string decodes to [b] exactly
    when it has an acceptable frame, [b] is a non-empty stream in ascending
    type order within the caps, and re-encoding [b] gives the normalised
    string. *)
Theorem codec_decode_iff s mr mv b :
  decode s mr mv = Ok b <->
  s <> [] /\ Z.of_nat (length s) <= _MAX_INPUT_LEN /\ has_lower s && has_upper s = false /\
  records b <> [] /\ ascending (map tlv_type (records b)) = true /\ within_caps mr mv 0 (records b) /\
  exists n, _strip_continuations (map lower_char s) = Ok n /\ encode b = Ok n.
Proof.
  unfold decode. rewrite bind_Ok. split.
  - intros ([h p] & Hd & H). apply bind_Ok in H as (rs & Hrs & [= <-]). cbn [records hrp] in *.
    apply decode_iff in Hd as (Hs & Hl & Hc & Hp & n & Hn & He).
    apply decode_stream_iff in Hrs as (Henc & Ha & Hcap).
    do 3 (split; [done|]). split; [by apply (encode_stream_nonempty rs p)|].
    do 2 (split; [done|]). exists n. split; [done|]. apply codec_encode_Ok. eauto.
  - intros (Hs & Hl & Hc & Hne & Ha & Hcap & n & Hn & (p & Hp & He)%codec_encode_Ok).
    exists (hrp b, p). split.
    + apply decode_iff. do 3 (split; [done|]). split; [by apply (encode_stream_nonempty _ p) in Hne|].
      eauto.
    + cbn [mbind result_bind]. rewrite bind_Ok. exists (records b). split; [|by destruct b].
      by apply decode_stream_iff.
Qed.

(** The first vector of tests/vectors/bolt12/format-string-test.json: it
    decodes, re-encodes to itself, and its upper-case form decodes alike. *)
Definition vector_offer : pystr := str
  "lno1pqps7sjqpgtyzm3qv4uxzmtsd3jjqer9wd3hy6tsw35k7msjzfpy7nz5yqcnygrfdej82um5wf5k2uckyypwa3eyt44h6txtxquqh7lz5djge4afgfjn7k4rgrkuag0jsd5xvxg".

Example vector_offer_decodes :
  (b ← decode vector_offer None None; encode b) = Ok vector_offer /\
  (map tlv_type ∘ records <$> decode vector_offer None None) = Ok [8; 10; 18; 22] /\
  (b ← decode (map upper_char vector_offer) None None; encode b) = Ok vector_offer.
Proof. vm_compute. done. Qed.
