(* ===== verification/Fields.v ===== *)
(** * Typed BOLT 12 messages (app/services/bolt12/fields.py)

    [Offer], [InvoiceRequest] and [Invoice] with their parsers and
    serialisers. A parser collects keyword arguments in a dict and builds
    the dataclass from it, as the source does ([kwargs] below). *)
From S2P Require Import Prelude Bytes Utf8 BigSize Tlv Sha256 Bech32 Merkle Codec.

(** ** TLV numbers *)

Definition OFFER_CHAINS : Z := 2.
Definition OFFER_METADATA : Z := 4.
Definition OFFER_CURRENCY : Z := 6.
Definition OFFER_AMOUNT : Z := 8.
Definition OFFER_DESCRIPTION : Z := 10.
Definition OFFER_FEATURES : Z := 12.
Definition OFFER_ABSOLUTE_EXPIRY : Z := 14.
Definition OFFER_PATHS : Z := 16.
Definition OFFER_ISSUER : Z := 18.
Definition OFFER_QUANTITY_MAX : Z := 20.
Definition OFFER_ISSUER_ID : Z := 22.

Definition INVREQ_METADATA : Z := 0.
Definition INVREQ_CHAIN : Z := 80.
Definition INVREQ_AMOUNT : Z := 82.
Definition INVREQ_FEATURES : Z := 84.
Definition INVREQ_QUANTITY : Z := 86.
Definition INVREQ_PAYER_ID : Z := 88.
Definition INVREQ_PAYER_NOTE : Z := 89.
Definition INVREQ_PAYS_PATHS : Z := 90.
Definition INVREQ_BIP353_NAME : Z := 91.

Definition INVOICE_PATHS : Z := 160.
Definition INVOICE_BLINDEDPAY : Z := 162.
Definition INVOICE_CREATED_AT : Z := 164.
Definition INVOICE_RELATIVE_EXPIRY : Z := 166.
Definition INVOICE_PAYMENT_HASH : Z := 168.
Definition INVOICE_AMOUNT : Z := 170.
Definition INVOICE_FALLBACKS : Z := 172.
Definition INVOICE_FEATURES : Z := 174.
Definition INVOICE_NODE_ID : Z := 176.

Definition SIGNATURE : Z := 240.

Definition in_range (lo hi t : Z) : bool := (lo <=? t) && (t <? hi).
Definition OFFER_RANGE (t : Z) : bool := in_range 0 80 t.
Definition INVREQ_RANGE (t : Z) : bool := in_range 0 160 t.
Definition INVOICE_RANGE (t : Z) : bool := in_range 0 240 t.

(** ** Primitive codecs *)

(** [n.bit_length()] *)
Definition bit_length (n : Z) : Z := if n =? 0 then 0 else Z.log2 (Z.abs n) + 1.

Definition encode_tu64 (n : Z) : result bytes :=
  if n <? 0 then Err (ValueError "tu64 must be non-negative")
  else if n =? 0 then Ok []
  else to_bytes n (Z.to_nat ((bit_length n + 7) / 8)).

Definition decode_tu64 (data : bytes) : result Z :=
  if (8 <? length data)%nat then Err (Bolt12FormatError "tu64: value exceeds 8 bytes")
  else match data with
       | [] => Ok 0
       | b :: _ =>
           if b2z b =? 0 then Err (Bolt12FormatError "tu64: leading zero byte not allowed")
           else Ok (from_be data)
       end.

Definition encode_tu32 (n : Z) : result bytes :=
  if (n <? 0) || (0xFFFFFFFF <? n) then Err (ValueError "tu32 out of range") else encode_tu64 n.

Definition decode_tu32 (data : bytes) : result Z :=
  if (4 <? length data)%nat then Err (Bolt12FormatError "tu32: value exceeds 4 bytes")
  else decode_tu64 data.

Definition _check_point (value : bytes) : result unit :=
  if negb (length value =? 33)%nat
  then Err (Bolt12FormatError ": must be a 33-byte compressed pubkey")
  else match value with
       | b :: _ => if (b2z b =? 2) || (b2z b =? 3) then Ok tt
                   else Err (Bolt12FormatError ": invalid compressed-pubkey prefix")
       | [] => Err (Bolt12FormatError ": invalid compressed-pubkey prefix")
       end.

Definition _check_chain_hash (value : bytes) : result unit :=
  if negb (length value =? 32)%nat then Err (Bolt12FormatError ": must be a 32-byte chain hash")
  else Ok tt.

(** ** Keyword arguments *)

Inductive pyval :=
  | PBytes (b : bytes)
  | PStr (s : ustr)
  | PInt (n : Z)
  | PTuple (l : list bytes).

Abbreviation kwargs := (gmap string pyval).

Definition kw_bytes (kw : kwargs) (k : string) : option bytes :=
  match kw !! k with Some (PBytes b) => Some b | _ => None end.
Definition kw_str (kw : kwargs) (k : string) : option ustr :=
  match kw !! k with Some (PStr s) => Some s | _ => None end.
Definition kw_int (kw : kwargs) (k : string) : option Z :=
  match kw !! k with Some (PInt n) => Some n | _ => None end.
Definition kw_tuple (kw : kwargs) (k : string) : list bytes :=
  match kw !! k with Some (PTuple l) => l | _ => [] end.

(** ** Offer *)

Record Offer := mkOffer {
  chains : list bytes;
  metadata : option bytes;
  currency : option ustr;
  amount : option Z;
  description : option ustr;
  features : option bytes;
  absolute_expiry : option Z;
  paths : option bytes;
  issuer : option ustr;
  quantity_max : option Z;
  issuer_id : option bytes;
  unknown_records : list TLVRecord
}.

(** [cls( **kwargs)] with the dataclass defaults. *)
Definition Offer_of (kw : kwargs) (unknown : list TLVRecord) : Offer :=
  mkOffer (kw_tuple kw "chains") (kw_bytes kw "metadata") (kw_str kw "currency")
    (kw_int kw "amount") (kw_str kw "description") (kw_bytes kw "features")
    (kw_int kw "absolute_expiry") (kw_bytes kw "paths") (kw_str kw "issuer")
    (kw_int kw "quantity_max") (kw_bytes kw "issuer_id") unknown.

(** [tuple(v[i : i + 32] for i in range(0, len(v), 32))] *)
Fixpoint chunks32 (fuel : nat) (v : bytes) : list bytes :=
  match fuel, v with
  | S fuel, _ :: _ => take 32 v :: chunks32 fuel (drop 32 v)
  | _, _ => []
  end.

(** The body of the loop of [Offer._from_records]. *)
Definition offer_step (allowed_range : Z -> bool) (st : kwargs * list TLVRecord) (r : TLVRecord)
    : result (kwargs * list TLVRecord) :=
  let '(kw, unknown) := st in
  let t := tlv_type r in
  let v := tlv_value r in
  if t =? OFFER_CHAINS then
    if negb (Z.of_nat (length v) mod 32 =? 0)
    then Err (Bolt12FormatError "offer_chains: length not a multiple of 32")
    else Ok (<["chains" := PTuple (chunks32 (length v) v)]> kw, unknown)
  else if t =? OFFER_METADATA then Ok (<["metadata" := PBytes v]> kw, unknown)
  else if t =? OFFER_CURRENCY then s ← ascii_decode v; Ok (<["currency" := PStr s]> kw, unknown)
  else if t =? OFFER_AMOUNT then n ← decode_tu64 v; Ok (<["amount" := PInt n]> kw, unknown)
  else if t =? OFFER_DESCRIPTION then
    s ← utf8_decode v; Ok (<["description" := PStr s]> kw, unknown)
  else if t =? OFFER_FEATURES then Ok (<["features" := PBytes v]> kw, unknown)
  else if t =? OFFER_ABSOLUTE_EXPIRY then
    n ← decode_tu64 v; Ok (<["absolute_expiry" := PInt n]> kw, unknown)
  else if t =? OFFER_PATHS then Ok (<["paths" := PBytes v]> kw, unknown)
  else if t =? OFFER_ISSUER then s ← utf8_decode v; Ok (<["issuer" := PStr s]> kw, unknown)
  else if t =? OFFER_QUANTITY_MAX then
    n ← decode_tu64 v; Ok (<["quantity_max" := PInt n]> kw, unknown)
  else if t =? OFFER_ISSUER_ID then
    _ ← _check_point v; Ok (<["issuer_id" := PBytes v]> kw, unknown)
  else if allowed_range t || is_signature_type t then Ok (kw, unknown ++ [r])
  else Err (Bolt12FormatError "unexpected TLV type ").

Fixpoint foldR {A B} (f : B -> A -> result B) (b : B) (l : list A) : result B :=
  match l with
  | [] => Ok b
  | a :: l => b' ← f b a; foldR f b' l
  end.

Definition offer_from_records (records : list TLVRecord) (allowed_range : Z -> bool) : result Offer :=
  '(kw, unknown) ← foldR (offer_step allowed_range) (∅, []) records;
  Ok (Offer_of kw unknown).

Definition offer_parse (b12 : Bolt12String) : result Offer :=
  if negb (bool_decide (hrp b12 = str "lno"))
  then Err (Bolt12FormatError "Offer.parse: expected hrp 'lno', got ")
  else offer_from_records (records b12) OFFER_RANGE.

(** [sorted(recs, key=lambda r: r.type)]: Python's sort is stable, and so is
    insertion from the right. *)
Fixpoint insert_by_type (r : TLVRecord) (l : list TLVRecord) : list TLVRecord :=
  match l with
  | [] => [r]
  | s :: l' => if tlv_type r <=? tlv_type s then r :: l else s :: insert_by_type r l'
  end.

Definition sort_by_type (l : list TLVRecord) : list TLVRecord := foldr insert_by_type [] l.

(** The neighbour check of [_sort_and_check]. *)
Fixpoint has_adjacent_duplicate (l : list TLVRecord) : bool :=
  match l with
  | r :: ((s :: _) as l') => (tlv_type r =? tlv_type s) || has_adjacent_duplicate l'
  | _ => false
  end.

Definition _sort_and_check (recs : list TLVRecord) : result (list TLVRecord) :=
  let out := sort_by_type recs in
  if has_adjacent_duplicate out then Err (Bolt12FormatError "duplicate TLV type ") else Ok out.

(** [if field is not None: recs.append(TLVRecord(t, enc(field)))] *)
Definition seg {A} (t : Z) (encode : A -> result bytes) (field : option A) : result (list TLVRecord) :=
  match field with
  | None => Ok []
  | Some a => v ← encode a; Ok [mkTLV t v]
  end.

Definition raw (v : bytes) : result bytes := Ok v.
Definition point (v : bytes) : result bytes := _ ← _check_point v; Ok v.

(** The records [to_records] appends, field by field. *)
Definition offer_segments (o : Offer) : list (result (list TLVRecord)) :=
  [ (match chains o with [] => Ok [] | cs => Ok [mkTLV OFFER_CHAINS (concat cs)] end);
    seg OFFER_METADATA raw (metadata o);
    seg OFFER_CURRENCY ascii_encode (currency o);
    seg OFFER_AMOUNT encode_tu64 (amount o);
    seg OFFER_DESCRIPTION utf8_encode (description o);
    seg OFFER_FEATURES raw (features o);
    seg OFFER_ABSOLUTE_EXPIRY encode_tu64 (absolute_expiry o);
    seg OFFER_PATHS raw (paths o);
    seg OFFER_ISSUER utf8_encode (issuer o);
    seg OFFER_QUANTITY_MAX encode_tu64 (quantity_max o);
    seg OFFER_ISSUER_ID point (issuer_id o);
    Ok (unknown_records o) ].

Definition gather (segs : list (result (list TLVRecord))) : result (list TLVRecord) :=
  @concat TLVRecord <$> mapR id segs.

Definition offer_to_records (o : Offer) : result (list TLVRecord) :=
  recs ← gather (offer_segments o); _sort_and_check recs.

Definition offer_to_bolt12_string (o : Offer) : result Bolt12String :=
  rs ← offer_to_records o; Ok (mkB12 (str "lno") rs).

(** ** InvoiceRequest *)

Record InvoiceRequest := mkInvreq {
  ir_offer : Offer;
  ir_metadata : option bytes;
  ir_chain : option bytes;
  ir_amount : option Z;
  ir_features : option bytes;
  ir_quantity : option Z;
  ir_payer_id : option bytes;
  ir_payer_note : option ustr;
  ir_paths : option bytes;
  ir_bip353_name : option bytes;
  ir_signature : option bytes;
  ir_unknown_records : list TLVRecord
}.

Definition InvoiceRequest_of (offer : Offer) (signature : option bytes) (kw : kwargs)
    (unknown : list TLVRecord) : InvoiceRequest :=
  mkInvreq offer (kw_bytes kw "metadata") (kw_bytes kw "chain") (kw_int kw "amount")
    (kw_bytes kw "features") (kw_int kw "quantity") (kw_bytes kw "payer_id")
    (kw_str kw "payer_note") (kw_bytes kw "paths") (kw_bytes kw "bip353_name") signature unknown.

(** The first loop of [InvoiceRequest.parse]: split the stream by layer. *)
Definition invreq_split_step (st : list TLVRecord * list TLVRecord * option bytes) (r : TLVRecord)
    : result (list TLVRecord * list TLVRecord * option bytes) :=
  let '(offer_records, invreq_only, signature) := st in
  let t := tlv_type r in
  if is_signature_type t then
    if t =? SIGNATURE then
      if negb (length (tlv_value r) =? 64)%nat
      then Err (Bolt12FormatError "signature: must be 64 bytes")
      else Ok (offer_records, invreq_only, Some (tlv_value r))
    else Ok (offer_records, invreq_only ++ [r], signature)
  else if OFFER_RANGE t && negb (t =? INVREQ_METADATA)
  then Ok (offer_records ++ [r], invreq_only, signature)
  else if INVREQ_RANGE t then Ok (offer_records, invreq_only ++ [r], signature)
  else Err (Bolt12FormatError "unexpected TLV type ").

(** The second loop: the request's own fields. *)
Definition invreq_step (st : kwargs * list TLVRecord) (r : TLVRecord)
    : result (kwargs * list TLVRecord) :=
  let '(kw, unknown) := st in
  let t := tlv_type r in
  let v := tlv_value r in
  if t =? INVREQ_METADATA then Ok (<["metadata" := PBytes v]> kw, unknown)
  else if t =? INVREQ_CHAIN then _ ← _check_chain_hash v; Ok (<["chain" := PBytes v]> kw, unknown)
  else if t =? INVREQ_AMOUNT then n ← decode_tu64 v; Ok (<["amount" := PInt n]> kw, unknown)
  else if t =? INVREQ_FEATURES then Ok (<["features" := PBytes v]> kw, unknown)
  else if t =? INVREQ_QUANTITY then n ← decode_tu64 v; Ok (<["quantity" := PInt n]> kw, unknown)
  else if t =? INVREQ_PAYER_ID then _ ← _check_point v; Ok (<["payer_id" := PBytes v]> kw, unknown)
  else if t =? INVREQ_PAYER_NOTE then s ← utf8_decode v; Ok (<["payer_note" := PStr s]> kw, unknown)
  else if t =? INVREQ_PAYS_PATHS then Ok (<["paths" := PBytes v]> kw, unknown)
  else if t =? INVREQ_BIP353_NAME then Ok (<["bip353_name" := PBytes v]> kw, unknown)
  else Ok (kw, unknown ++ [r]).

Definition invreq_parse (b12 : Bolt12String) : result InvoiceRequest :=
  if negb (bool_decide (hrp b12 = str "lnr"))
  then Err (Bolt12FormatError "InvoiceRequest.parse: expected hrp 'lnr', got ")
  else
    '(offer_records, invreq_only, signature) ← foldR invreq_split_step ([], [], None) (records b12);
    offer ← offer_from_records offer_records OFFER_RANGE;
    '(kw, unknown) ← foldR invreq_step (∅, []) invreq_only;
    Ok (InvoiceRequest_of offer signature kw unknown).

Definition invreq_from_offer (offer : Offer) (metadata payer_id : bytes) (amount quantity : option Z)
    (payer_note : option ustr) (chain features paths : option bytes) : result InvoiceRequest :=
  _ ← _check_point payer_id;
  _ ← match chain with Some c => _check_chain_hash c | None => Ok tt end;
  Ok (mkInvreq offer (Some metadata) chain amount features quantity (Some payer_id) payer_note
        paths None None []).

Definition invreq_segments (i : InvoiceRequest) (include_signature : bool)
    : list (result (list TLVRecord)) :=
  [ offer_to_records (ir_offer i);
    seg INVREQ_METADATA raw (ir_metadata i);
    seg INVREQ_CHAIN raw (ir_chain i);
    seg INVREQ_AMOUNT encode_tu64 (ir_amount i);
    seg INVREQ_FEATURES raw (ir_features i);
    seg INVREQ_QUANTITY encode_tu64 (ir_quantity i);
    seg INVREQ_PAYER_ID raw (ir_payer_id i);
    seg INVREQ_PAYER_NOTE utf8_encode (ir_payer_note i);
    seg INVREQ_PAYS_PATHS raw (ir_paths i);
    seg INVREQ_BIP353_NAME raw (ir_bip353_name i);
    Ok (ir_unknown_records i);
    seg SIGNATURE raw (if include_signature then ir_signature i else None) ].

Definition invreq_to_records (i : InvoiceRequest) (include_signature : bool)
    : result (list TLVRecord) :=
  recs ← gather (invreq_segments i include_signature); _sort_and_check recs.

Definition invreq_to_bolt12_string (i : InvoiceRequest) : result Bolt12String :=
  rs ← invreq_to_records i true; Ok (mkB12 (str "lnr") rs).

Definition invreq_signature_digest (i : InvoiceRequest) : result bytes :=
  unsigned ← invreq_to_records i false;
  signature_digest (mkB12 (str "lnr") unsigned) (str "signature").

(** [replace(self, signature=sig)] *)
Definition invreq_set_signature (i : InvoiceRequest) (sig : option bytes) : InvoiceRequest :=
  mkInvreq (ir_offer i) (ir_metadata i) (ir_chain i) (ir_amount i) (ir_features i) (ir_quantity i)
    (ir_payer_id i) (ir_payer_note i) (ir_paths i) (ir_bip353_name i) sig (ir_unknown_records i).

Definition invreq_with_signature (i : InvoiceRequest) (sig : bytes) : result InvoiceRequest :=
  if negb (length sig =? 64)%nat then Err (ValueError "signature must be 64 bytes (BIP-340)")
  else Ok (invreq_set_signature i (Some sig)).

(** ** Invoice *)

Record Invoice := mkInvoice {
  inv_invreq : InvoiceRequest;
  inv_paths : option bytes;
  inv_blindedpay : option bytes;
  inv_created_at : option Z;
  inv_relative_expiry : option Z;
  inv_payment_hash : option bytes;
  inv_amount : option Z;
  inv_fallbacks : option bytes;
  inv_features : option bytes;
  inv_node_id : option bytes;
  inv_signature : option bytes;
  inv_unknown_records : list TLVRecord
}.

Definition Invoice_of (invreq : InvoiceRequest) (signature : option bytes) (kw : kwargs)
    (unknown : list TLVRecord) : Invoice :=
  mkInvoice invreq (kw_bytes kw "paths") (kw_bytes kw "blindedpay") (kw_int kw "created_at")
    (kw_int kw "relative_expiry") (kw_bytes kw "payment_hash") (kw_int kw "amount")
    (kw_bytes kw "fallbacks") (kw_bytes kw "features") (kw_bytes kw "node_id") signature unknown.

Definition invoice_split_step
    (st : list TLVRecord * list TLVRecord * list TLVRecord * option bytes) (r : TLVRecord)
    : result (list TLVRecord * list TLVRecord * list TLVRecord * option bytes) :=
  let '(offer_records, invreq_records, invoice_only, invoice_sig) := st in
  let t := tlv_type r in
  if is_signature_type t then
    if t =? SIGNATURE then
      if negb (length (tlv_value r) =? 64)%nat
      then Err (Bolt12FormatError "signature: must be 64 bytes")
      else Ok (offer_records, invreq_records, invoice_only, Some (tlv_value r))
    else Ok (offer_records, invreq_records, invoice_only ++ [r], invoice_sig)
  else if OFFER_RANGE t && negb (t =? INVREQ_METADATA)
  then Ok (offer_records ++ [r], invreq_records, invoice_only, invoice_sig)
  else if INVREQ_RANGE t then Ok (offer_records, invreq_records ++ [r], invoice_only, invoice_sig)
  else if INVOICE_RANGE t then Ok (offer_records, invreq_records, invoice_only ++ [r], invoice_sig)
  else Err (Bolt12FormatError "unexpected TLV type ").

Definition _check_payment_hash (v : bytes) : result unit :=
  if negb (length v =? 32)%nat then Err (Bolt12FormatError "invoice_payment_hash: must be 32 bytes")
  else Ok tt.

Definition invoice_step (st : kwargs * list TLVRecord) (r : TLVRecord)
    : result (kwargs * list TLVRecord) :=
  let '(kw, unknown) := st in
  let t := tlv_type r in
  let v := tlv_value r in
  if t =? INVOICE_PATHS then Ok (<["paths" := PBytes v]> kw, unknown)
  else if t =? INVOICE_BLINDEDPAY then Ok (<["blindedpay" := PBytes v]> kw, unknown)
  else if t =? INVOICE_CREATED_AT then n ← decode_tu64 v; Ok (<["created_at" := PInt n]> kw, unknown)
  else if t =? INVOICE_RELATIVE_EXPIRY then
    n ← decode_tu32 v; Ok (<["relative_expiry" := PInt n]> kw, unknown)
  else if t =? INVOICE_PAYMENT_HASH then
    _ ← _check_payment_hash v; Ok (<["payment_hash" := PBytes v]> kw, unknown)
  else if t =? INVOICE_AMOUNT then n ← decode_tu64 v; Ok (<["amount" := PInt n]> kw, unknown)
  else if t =? INVOICE_FALLBACKS then Ok (<["fallbacks" := PBytes v]> kw, unknown)
  else if t =? INVOICE_FEATURES then Ok (<["features" := PBytes v]> kw, unknown)
  else if t =? INVOICE_NODE_ID then _ ← _check_point v; Ok (<["node_id" := PBytes v]> kw, unknown)
  else Ok (kw, unknown ++ [r]).

Definition invoice_parse (b12 : Bolt12String) : result Invoice :=
  if negb (bool_decide (hrp b12 = str "lni"))
  then Err (Bolt12FormatError "Invoice.parse: expected hrp 'lni', got ")
  else
    '(offer_records, invreq_records, invoice_only, invoice_sig) ←
      foldR invoice_split_step ([], [], [], None) (records b12);
    offer ← offer_from_records offer_records OFFER_RANGE;
    mirrored ← offer_to_records offer;
    invreq ← invreq_parse (mkB12 (str "lnr") (mirrored ++ invreq_records));
    '(kw, unknown) ← foldR invoice_step (∅, []) invoice_only;
    Ok (Invoice_of invreq invoice_sig kw unknown).

Definition invoice_segments (i : Invoice) (include_signature : bool)
    : list (result (list TLVRecord)) :=
  [ invreq_to_records (inv_invreq i) false;
    seg INVOICE_PATHS raw (inv_paths i);
    seg INVOICE_BLINDEDPAY raw (inv_blindedpay i);
    seg INVOICE_CREATED_AT encode_tu64 (inv_created_at i);
    seg INVOICE_RELATIVE_EXPIRY encode_tu32 (inv_relative_expiry i);
    seg INVOICE_PAYMENT_HASH raw (inv_payment_hash i);
    seg INVOICE_AMOUNT encode_tu64 (inv_amount i);
    seg INVOICE_FALLBACKS raw (inv_fallbacks i);
    seg INVOICE_FEATURES raw (inv_features i);
    seg INVOICE_NODE_ID raw (inv_node_id i);
    Ok (inv_unknown_records i);
    seg SIGNATURE raw (if include_signature then inv_signature i else None) ].

Definition invoice_to_records (i : Invoice) (include_signature : bool) : result (list TLVRecord) :=
  recs ← gather (invoice_segments i include_signature); _sort_and_check recs.

Definition invoice_to_bolt12_string (i : Invoice) : result Bolt12String :=
  rs ← invoice_to_records i true; Ok (mkB12 (str "lni") rs).

Definition invoice_signature_digest (i : Invoice) : result bytes :=
  unsigned ← invoice_to_records i false;
  signature_digest (mkB12 (str "lni") unsigned) (str "signature").

Definition invoice_set_signature (i : Invoice) (sig : option bytes) : Invoice :=
  mkInvoice (inv_invreq i) (inv_paths i) (inv_blindedpay i) (inv_created_at i)
    (inv_relative_expiry i) (inv_payment_hash i) (inv_amount i) (inv_fallbacks i)
    (inv_features i) (inv_node_id i) sig (inv_unknown_records i).

Definition invoice_with_signature (i : Invoice) (sig : bytes) : result Invoice :=
  if negb (length sig =? 64)%nat then Err (ValueError "signature must be 64 bytes (BIP-340)")
  else Ok (invoice_set_signature i (Some sig)).

(** ** Facts about the primitive codecs *)

Lemma bit_length_spec n k :
  0 < n -> 256 ^ Z.of_nat k <= n < 256 ^ Z.of_nat (S k) ->
  Z.to_nat ((bit_length n + 7) / 8) = S k.
Proof.
  intros Hn [Hlo Hhi]. unfold bit_length.
  destruct (Z.eqb_spec n 0) as [|_]; [lia|]. rewrite Z.abs_eq by lia.
  rewrite pow256_S in Hhi.
  assert (Hp : 256 ^ Z.of_nat k = 2 ^ (8 * Z.of_nat k)).
  { rewrite Z.pow_mul_r by lia. done. }
  assert (Hq : 256 * 256 ^ Z.of_nat k = 2 ^ (8 * Z.of_nat k + 8)).
  { rewrite Z.pow_add_r by lia. rewrite Hp. lia. }
  assert (8 * Z.of_nat k <= Z.log2 n) by (apply Z.log2_le_pow2; lia).
  assert (Z.log2 n < 8 * Z.of_nat k + 8) by (apply Z.log2_lt_pow2; lia).
  assert ((Z.log2 n + 1 + 7) / 8 = Z.of_nat k + 1) by dlia. lia.
Qed.

(** [decode_tu64] accepts canonical encodings only. *)
Lemma encode_decode_tu64 v n : decode_tu64 v = Ok n -> encode_tu64 n = Ok v.
Proof.
  unfold decode_tu64, encode_tu64. intros H. case_hyp H.
  destruct v as [|b v]; [by injection H as <-|].
  destruct (Z.eqb_spec (b2z b) 0) as [|Hb]; [discriminate|]. injection H as <-.
  pose proof (b2z_range b). pose proof (from_be_range v). pose proof (pow256_pos (length v)).
  pose proof (from_be_range (b :: v)) as Hr.
  assert (Hlo : 256 ^ Z.of_nat (length v) <= from_be (b :: v)) by (rewrite from_be_cons; nia).
  rewrite (proj2 (Z.ltb_ge _ _)) by lia. rewrite (proj2 (Z.eqb_neq _ _)) by lia.
  rewrite (bit_length_spec _ (length v)) by (simpl length in Hr; lia).
  change (S (length v)) with (length (b :: v)). rewrite to_bytes_fits by lia.
  by rewrite be_bytes_from_be.
Qed.

Lemma encode_decode_tu32 v n : decode_tu32 v = Ok n -> encode_tu32 n = Ok v.
Proof.
  unfold decode_tu32, encode_tu32. intros H. case_hyp H. apply Nat.ltb_ge in E.
  pose proof (encode_decode_tu64 _ _ H) as He.
  assert (Hr : 0 <= n <= 0xFFFFFFFF).
  { unfold decode_tu64 in H. case_hyp H. destruct v as [|b v]; [injection H as <-; lia|].
    case_hyp H. injection H as <-. pose proof (from_be_range (b :: v)).
    assert (256 ^ Z.of_nat (length (b :: v)) <= 256 ^ 4) by (apply Z.pow_le_mono_r; lia). lia. }
  rewrite (proj2 (Z.ltb_ge n 0)), (proj2 (Z.ltb_ge 0xFFFFFFFF n)) by lia. done.
Qed.

Lemma check_point_Ok v u : _check_point v = Ok u -> point v = Ok v.
Proof. unfold point. by intros ->. Qed.

Lemma concat_chunks32 fuel v : (length v <= fuel)%nat -> concat (chunks32 fuel v) = v.
Proof.
  revert v. induction fuel as [|fuel IH]; intros [|b v] Hv; [done|simpl in Hv; lia|done|].
  cbn [chunks32 concat]. rewrite IH.
  - by rewrite take_drop.
  - rewrite length_drop. simpl in *. lia.
Qed.

(** ** Sorting records by type *)

Abbreviation types := (map tlv_type).

Lemma insert_by_type_perm r l : insert_by_type r l ≡ₚ r :: l.
Proof.
  induction l as [|s l IH]; simpl; [done|]. case_match; [done|]. rewrite IH. constructor.
Qed.

Lemma sort_by_type_perm l : sort_by_type l ≡ₚ l.
Proof. induction l as [|r l IH]; simpl; [done|]. by rewrite insert_by_type_perm, IH. Qed.

Lemma types_perm (l k : list TLVRecord) : l ≡ₚ k -> types l ≡ₚ types k.
Proof. intros H. induction H; simpl; [done|by constructor|constructor|by etrans]. Qed.

(** Inserting a new type into an ascending stream keeps it ascending. *)
Lemma insert_by_type_ascending r l :
  ascending (types l) = true -> tlv_type r ∉ types l ->
  ascending (types (insert_by_type r l)) = true.
Proof.
  induction l as [|s l IH]; [done|]. cbn [map insert_by_type].
  intros Hl Hr. rewrite not_elem_of_cons in Hr. destruct Hr as [Hne Hr].
  pose proof (proj1 (ascending_cons _ _) Hl) as [Hs Hl'].
  destruct (Z.leb_spec (tlv_type r) (tlv_type s)) as [Hle|Hlt]; cbn [map];
    apply ascending_cons; (split; [|auto]).
  - constructor; [lia|]. eapply Forall_impl; [exact Hs|]. simpl. lia.
  - apply Forall_forall. intros t Ht.
    rewrite (types_perm _ _ (insert_by_type_perm r l)) in Ht. cbn [map] in Ht.
    apply elem_of_cons in Ht as [->|Ht]; [done|]. rewrite Forall_forall in Hs. auto.
Qed.

Lemma sort_by_type_ascending l : NoDup (types l) -> ascending (types (sort_by_type l)) = true.
Proof.
  induction l as [|r l IH]; [done|]. cbn [map]. intros [Hr Hl]%NoDup_cons.
  cbn [sort_by_type foldr]. fold (sort_by_type l).
  apply insert_by_type_ascending; [auto|].
  by rewrite (types_perm _ _ (sort_by_type_perm l)).
Qed.

Lemma adjacent_step r s l :
  has_adjacent_duplicate (r :: s :: l) = (tlv_type r =? tlv_type s) || has_adjacent_duplicate (s :: l).
Proof. done. Qed.

Lemma ascending_no_adjacent l : ascending (types l) = true -> has_adjacent_duplicate l = false.
Proof.
  induction l as [|r [|s l] IH]; [done|done|]. rewrite adjacent_step. cbn [map ascending].
  intros [Hlt Hl]%andb_prop. rewrite IH by done. bool_to_prop.
  rewrite (proj2 (Z.eqb_neq _ _)) by lia. done.
Qed.

(** On a stream without duplicate types [_sort_and_check] succeeds with the
    one ascending permutation of it. *)
Lemma sort_and_check_nodup l :
  NoDup (types l) ->
  exists out, _sort_and_check l = Ok out /\ out ≡ₚ l /\ ascending (types out) = true.
Proof.
  intros H%sort_by_type_ascending. exists (sort_by_type l). unfold _sort_and_check.
  rewrite ascending_no_adjacent by done. split; [done|]. split; [apply sort_by_type_perm|done].
Qed.

Lemma sort_and_check_ascending l k :
  ascending (types k) = true -> l ≡ₚ k -> _sort_and_check l = Ok k.
Proof.
  intros Hk Hp. destruct (sort_and_check_nodup l) as (out & -> & Ho & Ha).
  { rewrite (types_perm _ _ Hp). by apply ascending_NoDup. }
  f_equal. apply ascending_ext; [done|done|]. intros r. by rewrite Ho, Hp.
Qed.

(** Conversely whatever it returns has no duplicate type. *)
Lemma insert_by_type_sorted r l :
  StronglySorted Z.le (types l) -> StronglySorted Z.le (types (insert_by_type r l)).
Proof.
  induction l as [|s l IH]; cbn [map insert_by_type]; intros Hl; [by repeat constructor|].
  inversion Hl as [|? ? Hl' Hs]; subst.
  destruct (Z.leb_spec (tlv_type r) (tlv_type s)); cbn [map].
  - constructor; [done|]. constructor; [done|]. eapply Forall_impl; [exact Hs|]. simpl. lia.
  - constructor; [auto|]. apply Forall_forall. intros t Ht.
    rewrite (types_perm _ _ (insert_by_type_perm r l)) in Ht. cbn [map] in Ht.
    apply elem_of_cons in Ht as [->|Ht]; [lia|]. rewrite Forall_forall in Hs. auto.
Qed.

Lemma sort_and_check_Ok l out :
  _sort_and_check l = Ok out -> out ≡ₚ l /\ ascending (types out) = true.
Proof.
  unfold _sort_and_check. intros H. case_hyp H. injection H as <-.
  split; [apply sort_by_type_perm|].
  assert (Hs : StronglySorted Z.le (types (sort_by_type l))).
  { clear E. induction l as [|r l IH]; [constructor|]. by apply insert_by_type_sorted. }
  revert Hs E. generalize (sort_by_type l) as k. clear l.
  induction k as [|r [|s k] IH]; [done|done|]. rewrite adjacent_step. cbn [map ascending].
  intros Hs Hd. apply orb_false_elim in Hd as [Hne Hd]. bool_to_prop.
  inversion Hs as [|? ? Hs' Hr]; subst. apply Forall_inv in Hr.
  rewrite (proj2 (Z.ltb_lt _ _)) by lia. by apply IH.
Qed.

(** ** Collecting the records of a message

    [gather] concatenates the segments of a serialiser. Filling one empty
    segment with a record adds that record to the result; which segment a
    record belongs to is decided by its type. *)

Lemma gather_cons s segs recs :
  gather (s :: segs) = Ok recs <->
  exists l k, s = Ok l /\ gather segs = Ok k /\ recs = l ++ k.
Proof.
  unfold gather. split.
  - intros H. apply fmap_Ok in H as (ls & H & <-). cbn [mapR] in H. inv_ok.
    eexists _, _. split; [done|]. split; [|done]. apply fmap_Ok. eauto.
  - intros (l & k & -> & H & ->). apply fmap_Ok in H as (ls & H & <-).
    cbn [mapR]. by rewrite H.
Qed.

Lemma gather_lookup segs i recs l :
  gather segs = Ok recs -> segs !! i = Some (Ok l) -> l ⊆ recs.
Proof.
  revert i recs. induction segs as [|s segs IH]; intros [|i] recs Hg Hi; [done|done| |];
    apply gather_cons in Hg as (l' & k & Hs & Hk & ->); intros r Hr; apply elem_of_app.
  - injection Hi as ->. injection Hs as ->. by left.
  - right. by eapply IH.
Qed.

Lemma gather_lookup_Ok segs i recs s :
  gather segs = Ok recs -> segs !! i = Some s -> exists l, s = Ok l.
Proof.
  revert i recs. induction segs as [|s' segs IH]; intros [|i] recs Hg Hi; [done|done| |];
    apply gather_cons in Hg as (l' & k & Hs & Hk & ->); [|by eapply IH].
  injection Hi as ->. eauto.
Qed.

Lemma gather_update segs i recs l l' add :
  gather segs = Ok recs -> segs !! i = Some (Ok l) -> l' ≡ₚ add ++ l ->
  exists recs', gather (<[i := Ok l']> segs) = Ok recs' /\ recs' ≡ₚ add ++ recs.
Proof.
  intros Hg Hi Hl. revert i recs Hg Hi. induction segs as [|s segs IH]; intros i recs Hg Hi; [done|].
  apply gather_cons in Hg as (k & ks & -> & Hk & ->). destruct i as [|i].
  - injection Hi as [= ->]. exists (l' ++ ks). split; [apply gather_cons; eauto|].
    by rewrite Hl, <- app_assoc.
  - destruct (IH i ks Hk Hi) as (recs' & Hr & Hp). exists (k ++ recs').
    split; [apply gather_cons; eauto|]. rewrite Hp. solve_Permutation.
Qed.

(** A segment whose type is not among the records is empty. *)
Lemma seg_fresh {A} segs i recs t (enc : A -> result bytes) f :
  gather segs = Ok recs -> segs !! i = Some (seg t enc f) -> t ∉ types recs ->
  segs !! i = Some (Ok []).
Proof.
  intros Hg Hi Ht. rewrite Hi. f_equal.
  destruct f as [a|]; [|done]. simpl in *.
  destruct (gather_lookup_Ok _ _ _ _ Hg Hi) as [l Hl]. rewrite Hl in Hi. inv_ok.
  destruct Ht. apply list_elem_of_fmap. exists (mkTLV t x). split; [done|].
  eapply gather_lookup; [exact Hg|exact Hi|]. left.
Qed.

(** ** Parsers as segment fillers

    A parser's step on a record [r] either appends [keep r] to one segment
    of what the serialiser would emit for the object built so far, or
    fails. Run over records of distinct types, the serialiser then emits
    exactly the records read, up to order. *)

Section parse_loop.
Context {St : Type} (step : St -> TLVRecord -> result St).
Context (segs_of : St -> list (result (list TLVRecord))) (keep : TLVRecord -> bool).
Hypothesis step_fills : forall st r st' recs,
  step st r = Ok st' -> gather (segs_of st) = Ok recs -> tlv_type r ∉ types recs ->
  exists recs', gather (segs_of st') = Ok recs' /\ recs' ≡ₚ List.filter keep [r] ++ recs.

Lemma foldR_fills l : forall st st' recs,
  foldR step st l = Ok st' -> gather (segs_of st) = Ok recs -> NoDup (types (recs ++ l)) ->
  exists recs', gather (segs_of st') = Ok recs' /\ recs' ≡ₚ List.filter keep l ++ recs.
Proof using step_fills.
  induction l as [|r l IH]; intros st st' recs Hf Hg Hd; [injection Hf as <-; eauto|].
  cbn [foldR] in Hf. inv_ok.
  rewrite map_app in Hd. cbn [map] in Hd. apply NoDup_app in Hd as (Hd1 & Hd2 & Hd3).
  apply NoDup_cons in Hd3 as [Hr Hd3].
  assert (Hfr : tlv_type r ∉ types recs).
  { intros Hin. destruct (Hd2 _ Hin). left. }
  destruct (step_fills _ _ _ _ H Hg Hfr) as (recs1 & Hg1 & Hp1).
  assert (Hd : NoDup (types (recs1 ++ l))).
  { rewrite (types_perm _ _ (Permutation_app Hp1 (reflexivity l))). rewrite <- app_assoc.
    cbn [List.filter]. destruct (keep r); cbn [app map].
    - rewrite map_app. apply NoDup_cons. split.
      + rewrite elem_of_app. intros [?|?]; [by apply Hfr|done].
      + apply NoDup_app. split; [done|]. split; [|done].
        intros t Ht Hin. destruct (Hd2 t Ht). by right.
    - rewrite map_app. apply NoDup_app. split; [done|]. split; [|done].
      intros t Ht Hin. destruct (Hd2 t Ht). by right. }
  destruct (IH _ _ _ Hf Hg1 Hd) as (recs' & Hg' & Hp'). exists recs'. split; [done|].
  rewrite Hp', Hp1. cbn [List.filter]. destruct (keep r); solve_Permutation.
Qed.
End parse_loop.

(** Segment [i], of the type of [r] and so far empty, is filled with [r]. *)
Lemma fill_at {A} i segs segs' recs r (enc : A -> result bytes) f :
  gather segs = Ok recs -> tlv_type r ∉ types recs ->
  segs !! i = Some (seg (tlv_type r) enc f) -> segs' = <[i := Ok [r]]> segs ->
  exists recs', gather segs' = Ok recs' /\ recs' ≡ₚ [r] ++ recs.
Proof.
  intros Hg Hfr Hi ->. eapply gather_update; [done|by eapply seg_fresh|done].
Qed.

(** A record of unknown type goes to the end of [unknown_records]. *)
Lemma fill_unknown i segs segs' recs r l :
  gather segs = Ok recs -> segs !! i = Some (Ok l) -> segs' = <[i := Ok (l ++ [r])]> segs ->
  exists recs', gather segs' = Ok recs' /\ recs' ≡ₚ [r] ++ recs.
Proof.
  intros Hg Hi ->. eapply gather_update; [done|exact Hi|]. apply Permutation_app_comm.
Qed.

(** Read a field back from the dict a step wrote it to, encoded again by
    one of the canonical codecs. *)
Ltac kw_simpl :=
  cbv [kw_bytes kw_str kw_int kw_tuple];
  repeat first [rewrite lookup_insert_eq | rewrite lookup_insert_ne by done].

Ltac segs_unfold := idtac.

Ltac recode :=
  match goal with
  | H : decode_tu64 _ = Ok _ |- _ => apply encode_decode_tu64 in H; simpl; rewrite H
  | H : decode_tu32 _ = Ok _ |- _ => apply encode_decode_tu32 in H; simpl; rewrite H
  | H : utf8_decode _ = Ok _ |- _ => apply utf8_decode_encode in H; simpl; rewrite H
  | H : ascii_decode _ = Ok _ |- _ => apply ascii_decode_encode in H; simpl; rewrite H
  | H : _check_point _ = Ok _ |- _ => apply check_point_Ok in H; simpl; rewrite H
  | _ => idtac
  end.

(** One branch of a step: if the record has this branch's type, it fills
    segment [i]; otherwise go on with the next branch. *)
Ltac step_branch Hs Hg Hfr i :=
  let E := fresh "E" in
  match type of Hs with context [if ?b then _ else _] => destruct b eqn:E end;
  [ apply Z.eqb_eq in E as ->; inv_ok;
    eapply (fill_at i); [exact Hg|exact Hfr|reflexivity|];
    segs_unfold; simpl; kw_simpl; recode; reflexivity
  | clear E ].

(** The branches that fill segments [i] to [i + n - 1], in turn. *)
Ltac step_branches Hs Hg Hfr i n :=
  lazymatch n with
  | O => idtac
  | S ?n => step_branch Hs Hg Hfr i; step_branches Hs Hg Hfr (S i) n
  end.

(** *** Offer *)

(** The one record a re-encoded offer loses: an [offer_chains] with no
    chain in it, which parses to the default [chains=()]. *)
Definition survives (r : TLVRecord) : bool :=
  negb ((tlv_type r =? OFFER_CHAINS) && bool_decide (tlv_value r = [])).

Definition offer_segs_of (st : kwargs * list TLVRecord) : list (result (list TLVRecord)) :=
  offer_segments (Offer_of st.1 st.2).

Ltac segs_unfold ::= unfold offer_segs_of, offer_segments, Offer_of.

Lemma offer_chains_fill kw unknown v recs :
  gather (offer_segs_of (kw, unknown)) = Ok recs -> OFFER_CHAINS ∉ types recs ->
  exists recs', gather (offer_segs_of (<["chains" := PTuple (chunks32 (length v) v)]> kw, unknown))
    = Ok recs' /\ recs' ≡ₚ List.filter survives [mkTLV OFFER_CHAINS v] ++ recs.
Proof.
  intros Hg Hfr.
  assert (Hi : offer_segs_of (kw, unknown) !! 0%nat = Some (Ok [])).
  { change (offer_segs_of (kw, unknown) !! 0%nat) with
      (Some (match kw_tuple kw "chains" with [] => Ok [] | cs => Ok [mkTLV OFFER_CHAINS (concat cs)] end)).
    destruct (kw_tuple kw "chains") as [|c cs] eqn:Ec; [done|]. destruct Hfr.
    apply (list_elem_of_fmap_2 tlv_type _ (mkTLV OFFER_CHAINS (concat (c :: cs)))).
    apply (gather_lookup _ 0 _ [mkTLV OFFER_CHAINS (concat (c :: cs))] Hg); [|left].
    unfold offer_segs_of, offer_segments. cbn [fst snd Offer_of chains]. by rewrite Ec. }
  destruct (gather_update _ 0 _ _ (List.filter survives [mkTLV OFFER_CHAINS v])
    (List.filter survives [mkTLV OFFER_CHAINS v]) Hg Hi) as (recs' & Hr & Hp).
  { by rewrite app_nil_r. }
  exists recs'. split; [|done]. rewrite <- Hr. f_equal.
  unfold offer_segs_of, offer_segments, Offer_of. simpl. kw_simpl. f_equal.
  destruct v as [|b v]; [done|]. cbn [chunks32 length].
  do 3 f_equal. exact (concat_chunks32 (length (b :: v)) (b :: v) (le_n _)).
Qed.

Lemma offer_step_fills allowed st r st' recs :
  offer_step allowed st r = Ok st' -> gather (offer_segs_of st) = Ok recs ->
  tlv_type r ∉ types recs ->
  exists recs', gather (offer_segs_of st') = Ok recs' /\ recs' ≡ₚ List.filter survives [r] ++ recs.
Proof.
  destruct st as [kw unknown], r as [t v]. unfold offer_step. cbn [tlv_type tlv_value].
  intros Hs Hg Hfr.
  destruct (Z.eqb_spec t OFFER_CHAINS) as [->|Ht].
  { case_hyp Hs. injection Hs as <-. by apply offer_chains_fill. }
  assert (Hk : List.filter survives [mkTLV t v] = [mkTLV t v]).
  { simpl. unfold survives. cbn [tlv_type]. by rewrite (proj2 (Z.eqb_neq _ _) Ht). }
  rewrite Hk. clear Ht Hk.
  step_branches Hs Hg Hfr 1%nat 10%nat.
  case_hyp Hs. injection Hs as <-. by apply (fill_unknown 11 _ _ _ _ unknown Hg).
Qed.

(** Dropping records keeps types distinct. *)
Lemma types_filter_NoDup f l k :
  NoDup (types (l ++ k)) -> NoDup (types (List.filter f l ++ k)).
Proof.
  induction l as [|r l IH]; [done|]. cbn [app map List.filter]. intros [Hr Hd]%NoDup_cons.
  destruct (f r); [|auto]. cbn [app map]. apply NoDup_cons. split; [|auto].
  intros Hin. apply Hr. rewrite !map_app, !elem_of_app in *. destruct Hin as [Hin|Hin]; [left|by right].
  apply list_elem_of_fmap in Hin as (s & -> & Hs). apply list_elem_of_In, List.filter_In in Hs as [Hs _].
  apply list_elem_of_fmap_2. by apply list_elem_of_In.
Qed.

Lemma filter_perm f (l k : list TLVRecord) : l ≡ₚ k -> List.filter f l ≡ₚ List.filter f k.
Proof.
  induction 1; simpl; [done| | |by etrans]; repeat case_match; try done; by constructor.
Qed.

Lemma filter_all f (l : list TLVRecord) : Forall (fun r => f r = true) l -> List.filter f l = l.
Proof. induction 1 as [|r l Hr _ IH]; simpl; [done|]. by rewrite Hr, IH. Qed.

Lemma offer_from_records_emits l allowed o :
  NoDup (types l) -> offer_from_records l allowed = Ok o ->
  exists out, offer_to_records o = Ok out /\ out ≡ₚ List.filter survives l /\
    ascending (types out) = true.
Proof.
  intros Hd H. unfold offer_from_records in H. apply bind_Ok in H as ([kw unknown] & Hf & [= <-]).
  destruct (foldR_fills (offer_step allowed) offer_segs_of survives (offer_step_fills allowed) l
    _ _ [] Hf eq_refl Hd) as (recs & Hg & Hp).
  rewrite app_nil_r in Hp.
  destruct (sort_and_check_nodup recs) as (out & Ho & Hpo & Ha).
  { rewrite (types_perm _ _ Hp). pose proof (types_filter_NoDup survives l []) as Hn.
    rewrite !app_nil_r in Hn. auto. }
  exists out. unfold offer_to_records. unfold offer_segs_of in Hg. cbn [fst snd] in Hg.
  rewrite Hg. split; [exact Ho|]. split; [by rewrite Hpo|done].
Qed.

(** *** InvoiceRequest *)

Definition sig_recs (sig : option bytes) : list TLVRecord :=
  match sig with None => [] | Some s => [mkTLV SIGNATURE s] end.

Lemma seg_signature sig : seg SIGNATURE raw sig = Ok (sig_recs sig).
Proof. by destruct sig. Qed.

Lemma invreq_split_spec l : forall o q sig o' q' sig',
  foldR invreq_split_step (o, q, sig) l = Ok (o', q', sig') ->
  NoDup (types (sig_recs sig ++ l)) -> Forall (fun r => survives r = true) q ->
  o' ++ q' ++ sig_recs sig' ≡ₚ o ++ q ++ sig_recs sig ++ l /\
  Forall (fun r => survives r = true) q'.
Proof.
  induction l as [|r l IH]; intros o q sig o' q' sig' H Hd Hq.
  { injection H as <- <- <-. by rewrite app_nil_r. }
  cbn [foldR] in H. apply bind_Ok in H as ([[o1 q1] sig1] & Hs & H).
  assert (Hd' : NoDup (types (sig_recs sig ++ l))).
  { rewrite map_app in *. cbn [map] in Hd. apply NoDup_app in Hd as (? & Hx & [_ ?]%NoDup_cons).
    apply NoDup_app. split; [done|]. split; [|done]. intros t Ht Hin. apply (Hx t Ht). by right. }
  unfold invreq_split_step in Hs. case_hyp Hs; case_hyp Hs.
  - case_hyp Hs. injection Hs as <- <- <-. apply Z.eqb_eq in E0.
    destruct sig as [s|].
    { simpl in Hd. apply NoDup_cons in Hd as [Hd _]. destruct Hd. rewrite E0. left. }
    assert (Hr : mkTLV SIGNATURE (tlv_value r) = r) by (destruct r; simpl in *; by subst).
    edestruct IH as [Hp HF]; [exact H| |done|].
    { simpl. rewrite <- E0. exact Hd. }
    split; [|done]. rewrite Hp. cbn [sig_recs]. rewrite Hr. done.
  - injection Hs as <- <- <-. edestruct IH as [Hp HF]; [exact H|done| |].
    { apply Forall_app. split; [done|]. repeat constructor. unfold survives, is_signature_type in *.
      bool_to_prop. unfold SIG_TYPE_MIN, OFFER_CHAINS in *. rewrite (proj2 (Z.eqb_neq _ _)) by lia. done. }
    split; [|done]. rewrite Hp. solve_Permutation.
  - injection Hs as <- <- <-. edestruct IH as [Hp HF]; [exact H|done|done|].
    split; [|done]. rewrite Hp. solve_Permutation.
  - case_hyp Hs. injection Hs as <- <- <-. edestruct IH as [Hp HF]; [exact H|done| |].
    { apply Forall_app. split; [done|]. repeat constructor. unfold survives.
      destruct (Z.eqb_spec (tlv_type r) OFFER_CHAINS) as [Ht|]; [|done]. rewrite Ht in E0. done. }
    split; [|done]. rewrite Hp. solve_Permutation.
Qed.

Definition invreq_segs_of (offer : Offer) (sig : option bytes) (st : kwargs * list TLVRecord)
    : list (result (list TLVRecord)) :=
  invreq_segments (InvoiceRequest_of offer sig st.1 st.2) true.

Ltac segs_unfold ::= unfold invreq_segs_of, invreq_segments, InvoiceRequest_of.

Lemma invreq_step_fills offer sig st r st' recs :
  invreq_step st r = Ok st' -> gather (invreq_segs_of offer sig st) = Ok recs ->
  tlv_type r ∉ types recs ->
  exists recs', gather (invreq_segs_of offer sig st') = Ok recs' /\
    recs' ≡ₚ List.filter (fun _ => true) [r] ++ recs.
Proof.
  destruct st as [kw unknown], r as [t v]. unfold invreq_step.
  cbn [tlv_type tlv_value List.filter]. intros Hs Hg Hfr.
  step_branches Hs Hg Hfr 1%nat 9%nat.
  injection Hs as <-. by apply (fill_unknown 10 _ _ _ _ unknown Hg).
Qed.

Lemma filter_true (l : list TLVRecord) : List.filter (fun _ => true) l = l.
Proof. apply filter_all. by apply Forall_forall. Qed.

Lemma types_survive_NoDup l k : NoDup (types l) -> k ≡ₚ List.filter survives l -> NoDup (types k).
Proof.
  intros Hd Hk. rewrite (types_perm _ _ Hk).
  pose proof (types_filter_NoDup survives l []) as Hn. rewrite !app_nil_r in Hn. auto.
Qed.

(** Parsing a request from records of distinct types gives an object that
    serialises to exactly those records, sorted, but for an empty
    [offer_chains]. *)
Lemma invreq_parse_emits b i :
  NoDup (types (records b)) -> invreq_parse b = Ok i ->
  exists out, invreq_to_records i true = Ok out /\ out ≡ₚ List.filter survives (records b) /\
    ascending (types out) = true /\ sig_recs (ir_signature i) ⊆ records b.
Proof.
  intros Hd H. unfold invreq_parse in H. case_hyp H.
  apply bind_Ok in H as ([[o q] sig] & Hsplit & H). apply bind_Ok in H as (offer & Hoff & H).
  apply bind_Ok in H as ([kw unknown] & Hf & [= <-]).
  destruct (invreq_split_spec _ _ _ _ _ _ _ Hsplit Hd) as [Hp HF]; [constructor|].
  simpl in Hp.
  assert (Hd' : NoDup (types (o ++ q ++ sig_recs sig))) by by rewrite (types_perm _ _ Hp).
  assert (Hdo : NoDup (types o)).
  { rewrite map_app in Hd'. by apply NoDup_app in Hd' as [? _]. }
  destruct (offer_from_records_emits _ _ _ Hdo Hoff) as (oout & Ho & Hop & _).
  assert (Hsv : Forall (fun r => survives r = true) (sig_recs sig)).
  { destruct sig; repeat constructor. }
  assert (Hall : List.filter survives (records b) ≡ₚ q ++ oout ++ sig_recs sig).
  { rewrite <- (filter_perm _ _ _ Hp), !List.filter_app.
    rewrite (filter_all _ _ HF), (filter_all _ _ Hsv), Hop. solve_Permutation. }
  destruct (foldR_fills invreq_step (invreq_segs_of offer sig) (fun _ => true)
    (invreq_step_fills offer sig) q _ _ (oout ++ sig_recs sig) Hf) as (recs & Hg & Hpr).
  { unfold invreq_segs_of, invreq_segments, InvoiceRequest_of.
    cbn [fst snd ir_offer ir_signature]. rewrite Ho, seg_signature. by destruct sig. }
  { eapply types_survive_NoDup; [exact Hd|]. rewrite Hall. solve_Permutation. }
  rewrite filter_true, <- Hall in Hpr.
  destruct (sort_and_check_nodup recs) as (out & Hout & Hpo & Ha); [exact (types_survive_NoDup _ _ Hd Hpr)|].
  exists out. unfold invreq_to_records. change (gather (invreq_segments
    (InvoiceRequest_of offer sig kw unknown) true)) with (gather (invreq_segs_of offer sig (kw, unknown))).
  rewrite Hg. split; [exact Hout|]. split; [by rewrite Hpo|]. split; [done|].
  intros r Hr. rewrite <- Hp. cbn in Hr. rewrite !elem_of_app. auto.
Qed.

Lemma invreq_unsigned i :
  ir_signature i = None -> invreq_to_records i false = invreq_to_records i true.
Proof. unfold invreq_to_records, invreq_segments. by intros ->. Qed.

(** *** Invoice *)

Lemma invoice_split_spec l : forall o q v sig o' q' v' sig',
  foldR invoice_split_step (o, q, v, sig) l = Ok (o', q', v', sig') ->
  NoDup (types (sig_recs sig ++ l)) ->
  Forall (fun r => survives r = true /\ tlv_type r < SIG_TYPE_MIN) q ->
  Forall (fun r => survives r = true) v -> Forall (fun r => tlv_type r < SIG_TYPE_MIN) o ->
  o' ++ q' ++ v' ++ sig_recs sig' ≡ₚ o ++ q ++ v ++ sig_recs sig ++ l /\
  Forall (fun r => survives r = true /\ tlv_type r < SIG_TYPE_MIN) q' /\
  Forall (fun r => survives r = true) v' /\ Forall (fun r => tlv_type r < SIG_TYPE_MIN) o'.
Proof.
  assert (Hsv : forall r, tlv_type r <> OFFER_CHAINS -> survives r = true).
  { intros r Hr. unfold survives. by rewrite (proj2 (Z.eqb_neq _ _) Hr). }
  unfold OFFER_CHAINS in Hsv.
  induction l as [|r l IH]; intros o q v sig o' q' v' sig' H Hd Hq Hv Ho.
  { injection H as <- <- <- <-. by rewrite app_nil_r. }
  cbn [foldR] in H. apply bind_Ok in H as ([[[o1 q1] v1] sig1] & Hs & H).
  assert (Hd' : NoDup (types (sig_recs sig ++ l))).
  { rewrite map_app in *. cbn [map] in Hd. apply NoDup_app in Hd as (? & Hx & [_ ?]%NoDup_cons).
    apply NoDup_app. split; [done|]. split; [|done]. intros t Ht Hin. apply (Hx t Ht). by right. }
  unfold invoice_split_step in Hs. case_hyp Hs; case_hyp Hs.
  - case_hyp Hs. injection Hs as <- <- <- <-. apply Z.eqb_eq in E0.
    destruct sig as [s|].
    { simpl in Hd. apply NoDup_cons in Hd as [Hd _]. destruct Hd. rewrite E0. left. }
    assert (Hr : mkTLV SIGNATURE (tlv_value r) = r) by (destruct r; simpl in *; by subst).
    edestruct IH as [Hp HF]; [exact H| |done|done|done|].
    { simpl. rewrite <- E0. exact Hd. }
    split; [|done]. rewrite Hp. cbn [sig_recs]. by rewrite Hr.
  - injection Hs as <- <- <- <-. edestruct IH as [Hp HF]; [exact H|done|done| |done|].
    { apply Forall_app. split; [done|]. repeat constructor. apply Hsv.
      unfold is_signature_type, SIG_TYPE_MIN in *. bool_to_prop. lia. }
    split; [|done]. rewrite Hp. solve_Permutation.
  - injection Hs as <- <- <- <-. edestruct IH as [Hp HF]; [exact H|done|done|done| |].
    { apply Forall_app. split; [done|]. repeat constructor.
      unfold OFFER_RANGE, in_range, SIG_TYPE_MIN in *. bool_to_prop. lia. }
    split; [|done]. rewrite Hp. solve_Permutation.
  - unfold OFFER_RANGE, INVREQ_RANGE, INVREQ_METADATA, INVOICE_RANGE, in_range in *.
    assert (Hne : tlv_type r <> 2) by (intros Hr; by rewrite Hr in E0).
    case_hyp Hs; [|case_hyp Hs]; injection Hs as <- <- <- <-;
      (edestruct IH as [Hp HF]; [exact H|done|..|split; [|exact HF]; rewrite Hp; solve_Permutation]);
      try done; (apply Forall_app; split; [done|]); repeat constructor; auto.
    unfold SIG_TYPE_MIN. bool_to_prop. lia.
Qed.

Definition invoice_segs_of (invreq : InvoiceRequest) (sig : option bytes)
    (st : kwargs * list TLVRecord) : list (result (list TLVRecord)) :=
  invoice_segments (Invoice_of invreq sig st.1 st.2) true.

Ltac segs_unfold ::= unfold invoice_segs_of, invoice_segments, Invoice_of.

Lemma invoice_step_fills invreq sig st r st' recs :
  invoice_step st r = Ok st' -> gather (invoice_segs_of invreq sig st) = Ok recs ->
  tlv_type r ∉ types recs ->
  exists recs', gather (invoice_segs_of invreq sig st') = Ok recs' /\
    recs' ≡ₚ List.filter (fun _ => true) [r] ++ recs.
Proof.
  destruct st as [kw unknown], r as [t v]. unfold invoice_step.
  cbn [tlv_type tlv_value List.filter]. intros Hs Hg Hfr.
  step_branches Hs Hg Hfr 1%nat 9%nat.
  injection Hs as <-. by apply (fill_unknown 10 _ _ _ _ unknown Hg).
Qed.

Lemma survive_all l : Forall (fun r => survives r = true) l -> List.filter survives l = l.
Proof. apply filter_all. Qed.

(** No signature was read from records of the message ranges. *)
Lemma no_sig_recs sig l :
  sig_recs sig ⊆ l -> Forall (fun r => tlv_type r < SIG_TYPE_MIN) l -> sig = None.
Proof.
  destruct sig as [s|]; [|done]. intros Hin HF. rewrite Forall_forall in HF.
  specialize (HF _ (Hin (mkTLV SIGNATURE s) ltac:(left))). done.
Qed.

(** The invoice parser re-reads the offer records it has just serialised;
    nothing but an empty [offer_chains] is lost on the way. *)
Lemma invoice_parse_emits b i :
  NoDup (types (records b)) -> invoice_parse b = Ok i ->
  exists out, invoice_to_records i true = Ok out /\ out ≡ₚ List.filter survives (records b) /\
    ascending (types out) = true.
Proof.
  intros Hd H. unfold invoice_parse in H. case_hyp H.
  apply bind_Ok in H as ([[[o q] v] sig] & Hsplit & H). apply bind_Ok in H as (offer & Hoff & H).
  apply bind_Ok in H as (mirrored & Hm & H). apply bind_Ok in H as (invreq & Hq & H).
  apply bind_Ok in H as ([kw unknown] & Hf & [= <-]).
  destruct (invoice_split_spec _ _ _ _ _ _ _ _ _ Hsplit Hd) as (Hp & HFq & HFv & HFo); [constructor..|].
  simpl in Hp.
  assert (Hd' : NoDup (types (o ++ q ++ v ++ sig_recs sig))) by by rewrite (types_perm _ _ Hp).
  assert (Hdo : NoDup (types o)) by (rewrite map_app in Hd'; by apply NoDup_app in Hd' as [? _]).
  destruct (offer_from_records_emits _ _ _ Hdo Hoff) as (oout & Ho & Hop & _).
  rewrite Ho in Hm. injection Hm as <-.
  assert (Hq' : Forall (fun r => survives r = true) q) by (eapply Forall_impl; [exact HFq|naive_solver]).
  assert (Hdq : NoDup (types (oout ++ q))).
  { rewrite (types_perm _ _ (Permutation_app Hop (reflexivity q))). apply types_filter_NoDup.
    rewrite !app_assoc, <- (app_assoc (o ++ q)), map_app in Hd'. by apply NoDup_app in Hd' as [? _]. }
  destruct (invreq_parse_emits (mkB12 (str "lnr") (oout ++ q)) _ Hdq Hq) as (qout & Hqo & Hqp & _ & Hqs). cbn [records] in Hqp, Hqs.
  assert (Hqn : ir_signature invreq = None).
  { eapply no_sig_recs; [exact Hqs|]. apply Forall_app. split.
    - rewrite Hop. by apply Forall_filter_intro.
    - eapply Forall_impl; [exact HFq|naive_solver]. }
  assert (Hoo : Forall (fun r => survives r = true) oout).
  { rewrite Hop. apply Forall_forall. intros r Hr%list_elem_of_In.
    apply List.filter_In in Hr as [_ Hr]. exact Hr. }
  rewrite List.filter_app, (survive_all q Hq'), (survive_all oout Hoo) in Hqp.
  assert (Hsv : Forall (fun r => survives r = true) (sig_recs sig)) by (destruct sig; repeat constructor).
  assert (Hall : List.filter survives (records b) ≡ₚ v ++ qout ++ sig_recs sig).
  { rewrite <- (filter_perm _ _ _ Hp), !List.filter_app.
    rewrite (survive_all q Hq'), (survive_all v HFv), (survive_all _ Hsv), Hqp, Hop.
    solve_Permutation. }
  destruct (foldR_fills invoice_step (invoice_segs_of invreq sig) (fun _ => true)
    (invoice_step_fills invreq sig) v _ _ (qout ++ sig_recs sig) Hf) as (recs & Hg & Hpr).
  { unfold invoice_segs_of, invoice_segments, Invoice_of. cbn [fst snd inv_invreq inv_signature].
    rewrite invreq_unsigned, Hqo, seg_signature by done. by destruct sig. }
  { eapply types_survive_NoDup; [exact Hd|]. rewrite Hall. solve_Permutation. }
  rewrite filter_true, <- Hall in Hpr.
  destruct (sort_and_check_nodup recs) as (out & Hout & Hpo & Ha);
    [exact (types_survive_NoDup _ _ Hd Hpr)|].
  exists out. unfold invoice_to_records.
  change (gather (invoice_segments (Invoice_of invreq sig kw unknown) true))
    with (gather (invoice_segs_of invreq sig (kw, unknown))).
  rewrite Hg. split; [exact Hout|]. split; [by rewrite Hpo|done].
Qed.

(** What a request serialises to is its segments, sorted. *)
Lemma invreq_to_records_Ok i s out :
  invreq_to_records i s = Ok out ->
  exists recs, gather (invreq_segments i s) = Ok recs /\ out ≡ₚ recs /\ ascending (types out) = true.
Proof.
  unfold invreq_to_records. intros H. apply bind_Ok in H as (recs & Hg & H).
  apply sort_and_check_Ok in H as [??]. eauto.
Qed.

(** The last segment only adds to the records. *)
Lemma gather_snoc segs s recs :
  gather (segs ++ [s]) = Ok recs <-> exists k l, gather segs = Ok k /\ s = Ok l /\ recs = k ++ l.
Proof.
  revert recs. induction segs as [|s' segs IH]; intros recs; cbn [app].
  - rewrite gather_cons. split.
    + intros (l & k & -> & [= <-] & ->). exists [], l. by rewrite app_nil_r.
    + intros (k & l & [= <-] & -> & ->). exists l, []. by rewrite app_nil_r.
  - rewrite gather_cons. split.
    + intros (l & k & -> & Hk & ->). apply IH in Hk as (k' & l' & Hk & -> & ->).
      exists (l ++ k'), l'. rewrite gather_cons, app_assoc. eauto 10.
    + intros (k & l & Hk & -> & ->). apply gather_cons in Hk as (l' & k' & -> & Hk & ->).
      exists l', (k' ++ l). rewrite app_assoc. split; [done|]. split; [|done]. apply IH. eauto.
Qed.

(** The Merkle root ignores signature records. *)
Lemma merkle_root_non_signature rs ss :
  non_signature rs = non_signature ss -> merkle_root rs = merkle_root ss.
Proof. unfold merkle_root. by intros ->. Qed.

Lemma digest_non_signature h rs ss f :
  non_signature rs = non_signature ss ->
  signature_digest (mkB12 h rs) f = signature_digest (mkB12 h ss) f.
Proof.
  intros H. unfold signature_digest, string_merkle_root. cbn [records].
  by rewrite (merkle_root_non_signature _ _ H).
Qed.

Lemma types_filter_ascending f l :
  ascending (types l) = true -> ascending (types (List.filter f l)) = true.
Proof.
  induction l as [|r l IH]; [done|]. cbn [map List.filter]. intros [Hr Hl]%ascending_cons.
  destruct (f r); [|auto]. cbn [map]. apply ascending_cons. split; [|auto].
  apply Forall_forall. intros t (s & -> & Hs)%list_elem_of_fmap.
  apply list_elem_of_In, List.filter_In in Hs as [Hs _].
  rewrite Forall_forall in Hr. apply Hr. apply list_elem_of_fmap_2. by apply list_elem_of_In.
Qed.

(** Two ascending streams that are permutations of each other after
    filtering are equal after filtering. *)
Lemma filter_ascending_eq f l k :
  ascending (types l) = true -> ascending (types k) = true ->
  List.filter f l ≡ₚ List.filter f k -> List.filter f l = List.filter f k.
Proof.
  intros Hl Hk Hp. apply ascending_ext; [by apply types_filter_ascending..|].
  intros r. by rewrite Hp.
Qed.

(** Serialising without the signature succeeds whenever serialising with it
    does, and gives a stream with the same non-signature records. *)
Lemma unsigned_records segs sig rs :
  gather (segs ++ [seg SIGNATURE raw sig]) ≫= _sort_and_check = Ok rs ->
  exists us, gather (segs ++ [seg SIGNATURE raw None]) ≫= _sort_and_check = Ok us /\
    non_signature us = non_signature rs.
Proof.
  intros H. apply bind_Ok in H as (recs & Hg & Hs).
  apply gather_snoc in Hg as (k & l & Hk & Hl & ->). rewrite seg_signature in Hl.
  injection Hl as <-. apply sort_and_check_Ok in Hs as [Hp Ha].
  destruct (sort_and_check_nodup k) as (us & Hus & Hpu & Hau).
  { apply ascending_NoDup in Ha. rewrite (types_perm _ _ Hp), map_app in Ha.
    by apply NoDup_app in Ha as [? _]. }
  exists us. split.
  - replace (gather (segs ++ [seg SIGNATURE raw None])) with (Ok k); [exact Hus|].
    symmetry. apply gather_snoc. exists k, []. by rewrite app_nil_r.
  - apply filter_ascending_eq; [done|done|].
    rewrite (filter_perm _ _ _ Hpu), (filter_perm _ _ _ Hp), List.filter_app.
    destruct sig; by rewrite app_nil_r.
Qed.

(** Records of the offer layer, as [InvoiceRequest.parse] tells them apart. *)
Definition mirrored (r : TLVRecord) : bool :=
  OFFER_RANGE (tlv_type r) && negb (tlv_type r =? INVREQ_METADATA).

Lemma gather_all (P : TLVRecord -> Prop) segs recs :
  gather segs = Ok recs -> Forall (fun s => forall l, s = Ok l -> Forall P l) segs -> Forall P recs.
Proof.
  revert recs. induction segs as [|s segs IH]; intros recs Hg HF; [by injection Hg as <-|].
  apply gather_cons in Hg as (l & k & -> & Hk & ->). apply Forall_cons in HF as [Hl HF].
  apply Forall_app. eauto.
Qed.

Lemma seg_all {A} (P : TLVRecord -> Prop) t (enc : A -> result bytes) f l :
  (forall v, P (mkTLV t v)) -> seg t enc f = Ok l -> Forall P l.
Proof. intros HP H. destruct f; simpl in H; inv_ok; by repeat constructor. Qed.

Lemma filter_none f (l : list TLVRecord) : Forall (fun r => f r = false) l -> List.filter f l = [].
Proof. induction 1 as [|r l Hr _ IH]; simpl; [done|]. by rewrite Hr. Qed.

(** ** Properties *)

(** C28. Re-encoding a parsed offer: for every record stream the TLV decoder
    can deliver (types strictly ascending) that [Offer.parse] accepts,
    [to_bolt12_string] succeeds and returns the very records read, unknown
    ones included, except that an [offer_chains] record with an empty value
    is dropped. *)
Theorem offer_reencode b o :
  ascending (types (records b)) = true -> offer_parse b = Ok o ->
  offer_to_bolt12_string o = Ok (mkB12 (hrp b) (List.filter survives (records b))).
Proof.
  intros Ha H. unfold offer_parse in H. case_hyp H. bool_to_prop.
  destruct (offer_from_records_emits _ _ _ (ascending_NoDup _ Ha) H) as (out & Ho & Hp & Hao).
  unfold offer_to_bolt12_string. rewrite Ho, E. simpl. do 2 f_equal.
  apply ascending_ext; [done|by apply types_filter_ascending|]. intros r. by rewrite Hp.
Qed.

(** Re-encoding a parsed invoice request returns the records read, in
    the same order and with the same signature, but for an empty
    [offer_chains]. *)
Theorem invreq_reencode b i :
  ascending (types (records b)) = true -> invreq_parse b = Ok i ->
  invreq_to_bolt12_string i = Ok (mkB12 (hrp b) (List.filter survives (records b))).
Proof.
  intros Ha H. assert (Hh : hrp b = str "lnr").
  { unfold invreq_parse in H. case_hyp H. by bool_to_prop. }
  destruct (invreq_parse_emits _ _ (ascending_NoDup _ Ha) H) as (out & Ho & Hp & Hao & _).
  unfold invreq_to_bolt12_string. rewrite Ho, Hh. simpl. do 2 f_equal.
  apply ascending_ext; [done|by apply types_filter_ascending|]. intros r. by rewrite Hp.
Qed.

(** Re-encoding a parsed invoice, whose parser goes through a
    re-serialised offer and a synthetic [lnr] request, returns the records
    read, in the same order, but for an empty [offer_chains]. *)
Theorem invoice_reencode b i :
  ascending (types (records b)) = true -> invoice_parse b = Ok i ->
  invoice_to_bolt12_string i = Ok (mkB12 (hrp b) (List.filter survives (records b))).
Proof.
  intros Ha H. assert (Hh : hrp b = str "lni").
  { unfold invoice_parse in H. case_hyp H. by bool_to_prop. }
  destruct (invoice_parse_emits _ _ (ascending_NoDup _ Ha) H) as (out & Ho & Hp & Hao).
  unfold invoice_to_bolt12_string. rewrite Ho, Hh. simpl. do 2 f_equal.
  apply ascending_ext; [done|by apply types_filter_ascending|]. intros r. by rewrite Hp.
Qed.

(** What is signed is what is sent: the digest a payer or a merchant
    signs, computed from the unsigned records, is the digest a reader
    computes from the records of the complete signed message. *)
Theorem signed_digest_is_wire_digest i v rs ss :
  invreq_to_records i true = Ok rs -> invoice_to_records v true = Ok ss ->
  invreq_signature_digest i = signature_digest (mkB12 (str "lnr") rs) (str "signature") /\
  invoice_signature_digest v = signature_digest (mkB12 (str "lni") ss) (str "signature").
Proof.
  intros Hr Hs. split.
  - destruct (unsigned_records (removelast (invreq_segments i true)) _ _ Hr) as (us & Hu & Hn).
    assert (Hu' : invreq_to_records i false = Ok us) by exact Hu.
    unfold invreq_signature_digest. rewrite Hu'. by apply digest_non_signature.
  - destruct (unsigned_records (removelast (invoice_segments v true)) _ _ Hs) as (us & Hu & Hn).
    assert (Hu' : invoice_to_records v false = Ok us) by exact Hu.
    unfold invoice_signature_digest. rewrite Hu'. by apply digest_non_signature.
Qed.

(** [InvoiceRequest.from_offer] mirrors the offer verbatim: the
    offer-layer records of the serialised request, signed or not, are the
    offer's records, no more and no less, in order. *)
Theorem invreq_mirrors_offer offer metadata payer_id amount quantity note chain features paths
    sig sign i os rs :
  offer_to_records offer = Ok os -> Forall (fun r => mirrored r = true) os ->
  invreq_from_offer offer metadata payer_id amount quantity note chain features paths = Ok i ->
  invreq_to_records (invreq_set_signature i sig) sign = Ok rs ->
  List.filter mirrored rs = os.
Proof.
  intros Hos HF Hi Hrs. unfold invreq_from_offer in Hi. inv_ok.
  apply invreq_to_records_Ok in Hrs as (recs & Hg & Hp & Ha).
  unfold invreq_segments in Hg. cbn [invreq_set_signature ir_offer] in Hg.
  apply gather_cons in Hg as (l & rest & Hl & Hg & ->).
  rewrite Hos in Hl. injection Hl as <-.
  apply (gather_all (fun r => mirrored r = false)) in Hg.
  2: { repeat constructor; intros l Hl; try (eapply seg_all; [|exact Hl]; done).
       cbn in Hl. injection Hl as <-. constructor. }
  apply filter_perm with (f := mirrored) in Hp.
  rewrite List.filter_app, (filter_all _ _ HF), (filter_none _ _ Hg), app_nil_r in Hp.
  apply ascending_ext; [by apply types_filter_ascending| |intros r; by rewrite Hp].
  unfold offer_to_records in Hos. apply bind_Ok in Hos as (? & _ & Hos).
  by apply sort_and_check_Ok in Hos as [_ ?].
Qed.

(** ** Witnesses *)

Definition example_point : bytes := x02 :: repeat x11 32.
Definition example_sig : bytes := repeat x5a 64.

Definition offer_wire : Bolt12String := mkB12 (str "lno")
  [mkTLV 2 []; mkTLV 8 [x01; x00]; mkTLV 10 (ascii_bytes "tea"); mkTLV 22 example_point; mkTLV 79 [xff]].
Definition invreq_wire : Bolt12String := mkB12 (str "lnr")
  [mkTLV 0 [x07]; mkTLV 10 (ascii_bytes "tea"); mkTLV 22 example_point; mkTLV 82 [x05];
   mkTLV 88 example_point; mkTLV 240 example_sig].
Definition invoice_wire : Bolt12String := mkB12 (str "lni")
  [mkTLV 0 [x07]; mkTLV 2 []; mkTLV 10 (ascii_bytes "tea"); mkTLV 88 example_point; mkTLV 166 [x1c; x20];
   mkTLV 170 [x05]; mkTLV 240 example_sig; mkTLV 242 [x01]].

Lemma offer_reencode_witness : exists o,
  offer_parse offer_wire = Ok o /\
  offer_to_bolt12_string o = Ok (mkB12 (str "lno") (drop 1 (records offer_wire))).
Proof.
  eexists. split; [vm_compute; reflexivity|].
  refine (offer_reencode offer_wire _ _ _); vm_compute; reflexivity.
Defined.

Lemma invreq_reencode_witness : exists i,
  invreq_parse invreq_wire = Ok i /\ invreq_to_bolt12_string i = Ok invreq_wire.
Proof.
  eexists. split; [vm_compute; reflexivity|].
  refine (invreq_reencode invreq_wire _ _ _); vm_compute; reflexivity.
Defined.

Lemma invoice_reencode_witness : exists i,
  invoice_parse invoice_wire = Ok i /\
  invoice_to_bolt12_string i =
    Ok (mkB12 (str "lni") (mkTLV 0 [x07] :: drop 2 (records invoice_wire))).
Proof.
  eexists. split; [vm_compute; reflexivity|].
  refine (invoice_reencode invoice_wire _ _ _); vm_compute; reflexivity.
Defined.

Definition example_offer : Offer :=
  mkOffer [] None None (Some 256) (Some [116; 101; 97]) None None None None None (Some example_point)
    [mkTLV 79 [xff]].
Definition example_invreq : InvoiceRequest :=
  mkInvreq example_offer (Some [x07]) None (Some 300) None None (Some example_point) None None None
    (Some example_sig) [].
Definition example_invoice : Invoice :=
  mkInvoice example_invreq None None None (Some 7200) None (Some 300) None None None
    (Some example_sig) [mkTLV 242 [x01]].

Lemma signed_digest_is_wire_digest_witness : exists rs ss,
  invreq_signature_digest example_invreq
    = signature_digest (mkB12 (str "lnr") rs) (str "signature") /\
  invoice_signature_digest example_invoice
    = signature_digest (mkB12 (str "lni") ss) (str "signature").
Proof.
  eexists _, _. apply signed_digest_is_wire_digest; vm_compute; reflexivity.
Defined.

Lemma invreq_mirrors_offer_witness : exists os rs,
  offer_to_records example_offer = Ok os /\ List.filter mirrored rs = os.
Proof.
  eexists _, _. split; [vm_compute; reflexivity|].
  eapply (invreq_mirrors_offer example_offer [x07] example_point (Some 300) None None None None None
    (Some example_sig) true).
  - vm_compute; reflexivity.
  - repeat constructor.
  - vm_compute; reflexivity.
  - vm_compute; reflexivity.
Defined.
