(* ===== verification/Signing.v ===== *)
(** * BIP-340 signing of BOLT 12 messages (app/services/bolt12/signing.py)

    The curve arithmetic is coincurve's, a binding to libsecp256k1: it is
    the class [Secp256k1] here, with what its documentation promises in
    [Secp256k1Laws]. The protocol [Bip340Signer] of the source is the class
    of that name, and [SignerOk] what the high-level helpers need of a
    signer; [CoincurveSigner] implements it. *)
From S2P Require Import Prelude Bytes Tlv Sha256 Bech32 Merkle Codec Fields.

(** ** coincurve *)

(** [None] stands for any exception of the native library. *)
Class Secp256k1 := {
  XOnlyKey : Type;
  PublicKeyXOnly : bytes -> option XOnlyKey;
  pk_verify : XOnlyKey -> bytes -> bytes -> option bool;
  PrivateKey : Type;
  PrivateKey_of : bytes -> option PrivateKey;
  pubkey_format : PrivateKey -> bytes;
  sign_schnorr : PrivateKey -> bytes -> bytes
}.

(** A compressed point: 33 bytes with prefix 2 or 3. *)
Definition compressed (p : bytes) : Prop :=
  exists b x, p = b :: x /\ (b2z b = 2 \/ b2z b = 3) /\ length x = 32%nat.

Class Secp256k1Laws (S : Secp256k1) := {
  pubkey_compressed : forall sk, compressed (pubkey_format sk);
  sign_length : forall sk d, length d = 32%nat -> length (sign_schnorr sk d) = 64%nat;
  sign_verifies : forall sk d, length d = 32%nat ->
    exists k, PublicKeyXOnly (drop 1 (pubkey_format sk)) = Some k /\
      pk_verify k (sign_schnorr sk d) d = Some true
}.

(** ** Verification *)

Definition _xonly_from_compressed (point33 : bytes) : result bytes :=
  match point33 with
  | b :: rest =>
      if negb (length point33 =? 33)%nat || negb ((b2z b =? 2) || (b2z b =? 3))
      then Err (ValueError "expected 33-byte compressed pubkey (0x02/0x03 prefix)")
      else Ok rest
  | [] => Err (ValueError "expected 33-byte compressed pubkey (0x02/0x03 prefix)")
  end.

Definition verify_bip340 `{Secp256k1} (pubkey33 message32 signature64 : bytes) : bool :=
  if negb (length message32 =? 32)%nat || negb (length signature64 =? 64)%nat then false
  else match _xonly_from_compressed pubkey33 with
       | Err _ => false
       | Ok xonly =>
           match PublicKeyXOnly xonly with
           | None => false
           | Some pk => match pk_verify pk signature64 message32 with
                        | Some b => b
                        | None => false
                        end
           end
       end.

(** ** Signers *)

Class Bip340Signer (T : Type) := {
  sign : T -> bytes -> result bytes;
  public_key : T -> bytes
}.

(** What [sign_invoice_request] and [sign_invoice] rely on. *)
Class SignerOk (T : Type) `{Secp256k1} `{Bip340Signer T} := {
  public_key_compressed : forall s : T, compressed (public_key s);
  sign_total : forall (s : T) d, length d = 32%nat ->
    exists sig, sign s d = Ok sig /\ verify_bip340 (public_key s) d sig = true
}.

Record CoincurveSigner `{Secp256k1} := mkSigner { _priv : PrivateKey }.
Arguments mkSigner {_} _.

(** [CoincurveSigner.__init__] with a secret; an invalid scalar makes
    coincurve raise [ValueError]. *)
Definition CoincurveSigner_init `{Secp256k1} (secret : bytes) : result CoincurveSigner :=
  if negb (length secret =? 32)%nat then Err (ValueError "secret must be 32 bytes")
  else match PrivateKey_of secret with
       | Some sk => Ok (mkSigner sk)
       | None => Err (ValueError "")
       end.

Definition coincurve_sign `{Secp256k1} (s : CoincurveSigner) (digest32 : bytes) : result bytes :=
  if negb (length digest32 =? 32)%nat then Err (ValueError "digest must be 32 bytes")
  else Ok (sign_schnorr (_priv s) digest32).

Definition coincurve_public_key `{Secp256k1} (s : CoincurveSigner) : bytes := pubkey_format (_priv s).

Global Instance coincurve_signer `{Secp256k1} : Bip340Signer CoincurveSigner :=
  {| sign := coincurve_sign; public_key := coincurve_public_key |}.

(** ** Messages *)

Definition sign_invoice_request `{Bip340Signer T} (invreq : InvoiceRequest) (signer : T)
    : result InvoiceRequest :=
  match ir_payer_id invreq with
  | None => Err (ValueError "invoice_request has no payer_id; cannot sign")
  | Some payer_id =>
      a ← _xonly_from_compressed payer_id;
      b ← _xonly_from_compressed (public_key signer);
      if negb (bool_decide (a = b))
      then Err (ValueError "signer.public_key x-only does not match invreq.payer_id")
      else
        digest ← invreq_signature_digest invreq;
        sig ← sign signer digest;
        Ok (invreq_set_signature invreq (Some sig))
  end.

Definition verify_invoice_request `{Secp256k1} (invreq : InvoiceRequest) : result bool :=
  match ir_payer_id invreq, ir_signature invreq with
  | Some payer_id, Some signature =>
      digest ← invreq_signature_digest invreq;
      Ok (verify_bip340 payer_id digest signature)
  | _, _ => Ok false
  end.

Definition sign_invoice `{Bip340Signer T} (invoice : Invoice) (signer : T) : result Invoice :=
  match inv_node_id invoice with
  | None => Err (ValueError "invoice has no node_id; cannot sign")
  | Some node_id =>
      a ← _xonly_from_compressed node_id;
      b ← _xonly_from_compressed (public_key signer);
      if negb (bool_decide (a = b))
      then Err (ValueError "signer.public_key x-only does not match invoice.node_id")
      else
        digest ← invoice_signature_digest invoice;
        sig ← sign signer digest;
        Ok (invoice_set_signature invoice (Some sig))
  end.

Definition verify_invoice `{Secp256k1} (invoice : Invoice) : result bool :=
  match inv_node_id invoice, inv_signature invoice with
  | Some node_id, Some signature =>
      digest ← invoice_signature_digest invoice;
      Ok (verify_bip340 node_id digest signature)
  | _, _ => Ok false
  end.

(** ** Lemmas *)

#[local] Opaque sha256.

Lemma xonly_Ok p x :
  _xonly_from_compressed p = Ok x <->
  exists b, p = b :: x /\ (b2z b = 2 \/ b2z b = 3) /\ length x = 32%nat.
Proof.
  unfold _xonly_from_compressed. split.
  - intros H. destruct p as [|b p]; [done|]. case_hyp H. injection H as <-.
    apply orb_false_elim in E as [E1 E2]. apply negb_false_iff in E1, E2.
    apply Nat.eqb_eq in E1. apply orb_prop in E2. simpl in E1.
    exists b. split; [done|]. split; [|lia]. rewrite !Z.eqb_eq in E2. done.
  - intros (b & -> & Hb & Hl). cbn [length]. rewrite Hl. simpl.
    destruct Hb as [-> | ->]; done.
Qed.

(** Verification looks at the x coordinate only. *)
Lemma verify_xonly `{Secp256k1} p q d s x :
  _xonly_from_compressed p = Ok x -> _xonly_from_compressed q = Ok x ->
  verify_bip340 p d s = verify_bip340 q d s.
Proof. unfold verify_bip340. by intros -> ->. Qed.

Lemma verify_bip340_lengths `{Secp256k1} p d s :
  verify_bip340 p d s = true -> compressed p /\ length d = 32%nat /\ length s = 64%nat.
Proof.
  unfold verify_bip340. intros Hv. case_hyp Hv. apply orb_false_elim in E as [E1 E2].
  apply negb_false_iff, Nat.eqb_eq in E1, E2.
  destruct (_xonly_from_compressed p) as [x|] eqn:Ex; [|done].
  apply xonly_Ok in Ex as (b & ? & ? & ?). split; [|done]. by exists b, x.
Qed.

(** The production signer is a signer. *)
Global Instance coincurve_ok `{S : Secp256k1, !Secp256k1Laws S} : SignerOk CoincurveSigner.
Proof.
  split; [intros s; apply pubkey_compressed|].
  intros s d Hd. exists (sign_schnorr (_priv s) d). cbn. unfold coincurve_sign. rewrite Hd.
  split; [done|]. unfold verify_bip340. rewrite Hd, sign_length by done. cbn.
  unfold coincurve_public_key.
  destruct (sign_verifies (_priv s) d Hd) as (k & Hk & Hv).
  destruct (pubkey_compressed (_priv s)) as (b & x & Hp & Hb & Hx). rewrite Hp in Hk |- *.
  rewrite (proj2 (xonly_Ok (b :: x) x)) by eauto. cbn in Hk.
  rewrite drop_0 in Hk. by rewrite Hk, Hv.
Qed.

Lemma signature_digest_length b f d : signature_digest b f = Ok d -> length d = 32%nat.
Proof.
  unfold signature_digest. intros H. apply bind_Ok in H as (m & _ & H).
  apply bind_Ok in H as (r & _ & H). by eapply signature_message_hash_length.
Qed.

Lemma invreq_digest_length i d : invreq_signature_digest i = Ok d -> length d = 32%nat.
Proof. unfold invreq_signature_digest. intros H. inv_ok. by eapply signature_digest_length. Qed.

Lemma invoice_digest_length i d : invoice_signature_digest i = Ok d -> length d = 32%nat.
Proof. unfold invoice_signature_digest. intros H. inv_ok. by eapply signature_digest_length. Qed.

(** Attaching a signature does not change what is signed. *)
Lemma invreq_digest_unsigned i sig :
  invreq_signature_digest (invreq_set_signature i sig) = invreq_signature_digest i.
Proof. done. Qed.

Lemma invoice_digest_unsigned i sig :
  invoice_signature_digest (invoice_set_signature i sig) = invoice_signature_digest i.
Proof. done. Qed.

(** The common core of the two signing helpers: a key that agrees with the
    signer's on the x coordinate verifies what the signer signed. *)
Lemma sign_verify_core `{SignerOk T} (s : T) key x d sig :
  _xonly_from_compressed key = Ok x -> _xonly_from_compressed (public_key s) = Ok x ->
  length d = 32%nat -> sign s d = Ok sig -> verify_bip340 key d sig = true.
Proof.
  intros Hk Hp Hd Hs. destruct (sign_total s d Hd) as (sig' & Hs' & Hv).
  rewrite Hs in Hs'. injection Hs' as <-. by rewrite (verify_xonly key (public_key s) _ _ x).
Qed.

(** ** Properties *)

(** Signing with a lawful signer succeeds exactly when the message names a
    key with the signer's x coordinate and has a digest, and the message it
    returns verifies; it differs from the input in the signature only. *)
Theorem sign_invreq_correct `{SignerOk T} (i : InvoiceRequest) (s : T) :
  (forall i', sign_invoice_request i s = Ok i' ->
     verify_invoice_request i' = Ok true /\
     exists sig, i' = invreq_set_signature i (Some sig) /\ length sig = 64%nat) /\
  (is_ok (sign_invoice_request i s) = true <->
     is_ok (invreq_signature_digest i) = true /\
     exists key x, ir_payer_id i = Some key /\ _xonly_from_compressed key = Ok x /\
       _xonly_from_compressed (public_key s) = Ok x).
Proof.
  unfold sign_invoice_request. split; [intros i' Hs|split].
  - destruct (ir_payer_id i) as [key|] eqn:E; [|done]. apply bind_Ok in Hs as (x & Hx & Hs).
    apply bind_Ok in Hs as (y & Hy & Hs). case_bool_decide; [subst y|done].
    apply bind_Ok in Hs as (d & Hd & Hs). apply bind_Ok in Hs as (sig & Hsig & [= <-]).
    pose proof (sign_verify_core s key x d sig Hx Hy (invreq_digest_length _ _ Hd) Hsig) as Hv.
    split; [|exists sig; split; [done|apply (verify_bip340_lengths _ _ _ Hv)]].
    unfold verify_invoice_request. cbn [ir_payer_id ir_signature invreq_set_signature].
    rewrite E, invreq_digest_unsigned, Hd. cbn. by rewrite Hv.
  - intros Hs. destruct (ir_payer_id i) as [key|]; [|done].
    destruct (_xonly_from_compressed key) as [x|] eqn:Ek; [|done].
    destruct (_xonly_from_compressed (public_key s)) as [y|] eqn:Ep; [|done].
    cbn [mbind result_bind] in Hs. case_bool_decide; [subst y|done].
    cbn [mbind result_bind negb] in Hs.
    destruct (invreq_signature_digest i); [|done]. eauto 8.
  - intros [Hd (key & x & -> & -> & Hp)]. rewrite Hp. cbn [mbind result_bind].
    rewrite bool_decide_true by done. cbn [negb].
    destruct (invreq_signature_digest i) as [d|] eqn:Ed; [|done]. cbn [mbind result_bind].
    apply invreq_digest_length in Ed. destruct (sign_total s d Ed) as (sig & -> & _). done.
Qed.

(** The same for invoices and [invoice_node_id]. *)
Theorem sign_invoice_correct `{SignerOk T} (i : Invoice) (s : T) :
  (forall i', sign_invoice i s = Ok i' ->
     verify_invoice i' = Ok true /\
     exists sig, i' = invoice_set_signature i (Some sig) /\ length sig = 64%nat) /\
  (is_ok (sign_invoice i s) = true <->
     is_ok (invoice_signature_digest i) = true /\
     exists key x, inv_node_id i = Some key /\ _xonly_from_compressed key = Ok x /\
       _xonly_from_compressed (public_key s) = Ok x).
Proof.
  unfold sign_invoice. split; [intros i' Hs|split].
  - destruct (inv_node_id i) as [key|] eqn:E; [|done]. apply bind_Ok in Hs as (x & Hx & Hs).
    apply bind_Ok in Hs as (y & Hy & Hs). case_bool_decide; [subst y|done].
    apply bind_Ok in Hs as (d & Hd & Hs). apply bind_Ok in Hs as (sig & Hsig & [= <-]).
    pose proof (sign_verify_core s key x d sig Hx Hy (invoice_digest_length _ _ Hd) Hsig) as Hv.
    split; [|exists sig; split; [done|apply (verify_bip340_lengths _ _ _ Hv)]].
    unfold verify_invoice. cbn [inv_node_id inv_signature invoice_set_signature].
    rewrite E, invoice_digest_unsigned, Hd. cbn. by rewrite Hv.
  - intros Hs. destruct (inv_node_id i) as [key|]; [|done].
    destruct (_xonly_from_compressed key) as [x|] eqn:Ek; [|done].
    destruct (_xonly_from_compressed (public_key s)) as [y|] eqn:Ep; [|done].
    cbn [mbind result_bind] in Hs. case_bool_decide; [subst y|done].
    cbn [mbind result_bind negb] in Hs.
    destruct (invoice_signature_digest i); [|done]. eauto 8.
  - intros [Hd (key & x & -> & -> & Hp)]. rewrite Hp. cbn [mbind result_bind].
    rewrite bool_decide_true by done. cbn [negb].
    destruct (invoice_signature_digest i) as [d|] eqn:Ed; [|done]. cbn [mbind result_bind].
    apply invoice_digest_length in Ed. destruct (sign_total s d Ed) as (sig & -> & _). done.
Qed.

(** ** Witnesses

    A toy curve that satisfies the laws: a signature is the digest twice,
    and the public key of a secret is the secret itself. *)

#[local] Instance toy_curve : Secp256k1 := {|
  XOnlyKey := bytes;
  PublicKeyXOnly := fun x => Some x;
  pk_verify := fun _ sig d => Some (bool_decide (sig = d ++ d));
  PrivateKey := unit;
  PrivateKey_of := fun _ => Some tt;
  pubkey_format := fun _ => example_point;
  sign_schnorr := fun _ d => d ++ d
|}.

#[local] Instance toy_laws : Secp256k1Laws toy_curve.
Proof.
  split.
  - intros sk. exists x02, (repeat x11 32). split; [done|]. split; [by left|done].
  - intros sk d Hd. cbn. rewrite length_app. lia.
  - intros sk d Hd. eexists. split; [reflexivity|]. cbn. by rewrite bool_decide_true.
Qed.

(** On the toy curve a signature signs one digest. *)
Lemma toy_verify_only p d d' :
  length d = 32%nat -> verify_bip340 p d' (d ++ d) = true -> d' = d.
Proof.
  intros Hd H. pose proof (verify_bip340_lengths _ _ _ H) as (_ & Hl & _).
  unfold verify_bip340 in H. case_hyp H. destruct (_xonly_from_compressed p); [|done].
  cbn in H. case_bool_decide as He; [|done]. apply app_inj_1 in He as [-> _]; [done|lia].
Qed.

Definition toy_signer : CoincurveSigner := mkSigner (tt : @PrivateKey toy_curve).

Lemma sign_invreq_correct_witness :
  is_ok (sign_invoice_request example_invreq toy_signer) = true.
Proof.
  apply (sign_invreq_correct example_invreq toy_signer). split; [vm_compute; reflexivity|].
  exists example_point, (repeat x11 32). repeat split; vm_compute; reflexivity.
Defined.

Definition example_node_invoice : Invoice :=
  mkInvoice example_invreq None None None (Some 7200) None (Some 300) None None (Some example_point)
    None [].

Lemma sign_invoice_correct_witness :
  is_ok (sign_invoice example_node_invoice toy_signer) = true.
Proof.
  apply (sign_invoice_correct example_node_invoice toy_signer). split; [vm_compute; reflexivity|].
  exists example_point, (repeat x11 32). repeat split; vm_compute; reflexivity.
Defined.
