(* ===== verification/Disclosure.v ===== *)
(** * Selective-disclosure proofs (app/services/bolt12/selective_disclosure.py)

    [build_proof] and [verify_proof], with the module's own copy of the
    Merkle fold. A [return False] inside a loop is [Ok None] of the loop's
    result; an exception that escapes is [Err]. *)
From S2P Require Import Prelude Bytes BigSize Tlv Sha256 Bech32 Merkle Codec Fields Signing.

#[local] Opaque sha256.

Record ProofStep := mkStep { side : string; hash_hex : string }.

Record RevealedRecord := mkRevealed { rev_type : Z; value_hex : string }.

Definition to_record (r : RevealedRecord) : result TLVRecord :=
  v ← fromhex (value_hex r); Ok (mkTLV (rev_type r) v).

Record SelectiveDisclosureProof := mkProof {
  revealed : list RevealedRecord;
  omitted_paired_hashes : list ProofStep;
  first_tlv_encoding_hex : string;
  proof_message_name : pystr;
  proof_field_name : pystr
}.

(** The loop of [build_proof]. *)
Fixpoint build_loop (nonce_tag : bytes) (reveal_types : gset Z) (rs : list TLVRecord)
    : result (list RevealedRecord * list ProofStep) :=
  match rs with
  | [] => Ok ([], [])
  | r :: rs =>
      if decide (tlv_type r ∈ reveal_types) then
        '(revealed, omitted) ← build_loop nonce_tag reveal_types rs;
        Ok (mkRevealed (tlv_type r) (hex (tlv_value r)) :: revealed, omitted)
      else
        e ← encode_record r;
        t ← type_bytes r;
        let leaf := tagged_hash LnLeaf e in
        let nonce := tagged_hash nonce_tag t in
        let paired := _pair_with_nonce leaf nonce in
        '(revealed, omitted) ← build_loop nonce_tag reveal_types rs;
        Ok (revealed, mkStep "R" (hex paired) :: omitted)
  end.

Definition build_proof (records : list TLVRecord) (reveal_types : gset Z)
    (message_name field_name : pystr) : result SelectiveDisclosureProof :=
  let non_sig := non_signature records in
  match non_sig with
  | [] => Err (ValueError "selective disclosure: no non-signature records")
  | first :: _ =>
      first_encoding ← encode_record first;
      '(revealed, omitted) ← build_loop (LnNonce ++ first_encoding) reveal_types non_sig;
      Ok (mkProof revealed omitted (hex first_encoding) message_name field_name)
  end.

(** [revealed_by_type], or [None] on a duplicate reveal. *)
Fixpoint index_revealed (revs : list RevealedRecord) (m : gmap Z RevealedRecord)
    : option (gmap Z RevealedRecord) :=
  match revs with
  | [] => Some m
  | r :: revs =>
      match m !! rev_type r with
      | Some _ => None
      | None => index_revealed revs (<[rev_type r := r]> m)
      end
  end.

(** The splicing loop of [verify_proof]: the paired hashes and what is left
    of [omitted_iter]. *)
Fixpoint splice (nonce_tag : bytes) (revealed_by_type : gmap Z RevealedRecord)
    (schema : list Z) (omitted_iter : list ProofStep) : result (option (list bytes * list ProofStep)) :=
  match schema with
  | [] => Ok (Some ([], omitted_iter))
  | t :: schema =>
      if is_signature_type t then Ok None
      else
        match revealed_by_type !! t with
        | Some rev =>
            rec ← to_record rev;
            e ← encode_record rec;
            let leaf := tagged_hash LnLeaf e in
            ty ← type_bytes rec;
            let nonce := tagged_hash nonce_tag ty in
            rest ← splice nonce_tag revealed_by_type schema omitted_iter;
            Ok (match rest with
                | Some (paired, it) => Some (_pair_with_nonce leaf nonce :: paired, it)
                | None => None
                end)
        | None =>
            match omitted_iter with
            | [] => Ok None
            | step :: omitted_iter =>
                match fromhex (hash_hex step) with
                | Err _ => Ok None
                | Ok h =>
                    rest ← splice nonce_tag revealed_by_type schema omitted_iter;
                    Ok (match rest with
                        | Some (paired, it) => Some (h :: paired, it)
                        | None => None
                        end)
                end
            end
        end
  end.

(** The module's copy of [merkle._fold]. *)
Fixpoint fold_copy (fuel : nat) (nodes : list bytes) : result bytes :=
  match fuel with
  | O => Err OutOfFuel
  | S fuel =>
      let n := length nodes in
      match nodes with
      | [] => Err (ValueError "selective disclosure: empty node list")
      | [x] => Ok x
      | _ =>
          let pow2 := grow_pow2 n n 1 in
          let split := if (pow2 =? n)%nat then Nat.div n 2 else pow2 in
          left ← fold_copy fuel (take split nodes);
          right ← fold_copy fuel (drop split nodes);
          Ok (_branch left right)
      end
  end.

Definition _fold (nodes : list bytes) : result bytes := fold_copy (S (length nodes)) nodes.

Definition verify_proof `{Secp256k1} (proof : SelectiveDisclosureProof)
    (full_stream_record_types_in_order : list Z) (pubkey33 signature64 : bytes) : result bool :=
  if negb (length pubkey33 =? 33)%nat then Ok false
  else if negb (length signature64 =? 64)%nat then Ok false
  else
    first_encoding ← fromhex (first_tlv_encoding_hex proof);
    if bool_decide (first_encoding = []) then Ok false
    else
      match index_revealed (revealed proof) ∅ with
      | None => Ok false
      | Some revealed_by_type =>
          spliced ← splice (LnNonce ++ first_encoding) revealed_by_type
                      full_stream_record_types_in_order (omitted_paired_hashes proof);
          match spliced with
          | None => Ok false
          | Some (paired, rest) =>
              if negb (bool_decide (rest = [])) then Ok false
              else if negb (forallb (fun rev =>
                       bool_decide (rev_type rev ∈ full_stream_record_types_in_order)) (revealed proof))
              then Ok false
              else if bool_decide (paired = []) then Ok false
              else
                root ← _fold paired;
                digest ← signature_message_hash (proof_message_name proof) (proof_field_name proof) root;
                Ok (verify_bip340 pubkey33 digest signature64)
          end
      end.

(** ** The fold copy *)

Lemma fold_copy_step fuel (nodes : list bytes) :
  (2 <= length nodes)%nat ->
  fold_copy (S fuel) nodes =
  (l ← fold_copy fuel (take (split_at (length nodes)) nodes);
   r ← fold_copy fuel (drop (split_at (length nodes)) nodes); Ok (_branch l r)).
Proof. destruct nodes as [|x [|y nodes]]; simpl; [lia|lia|done]. Qed.

Lemma fold_copy_eq fuel nodes : nodes <> [] -> (length nodes < fuel)%nat ->
  fold_copy fuel nodes = fold_nodes fuel nodes.
Proof.
  revert nodes. induction fuel as [|fuel IH]; intros nodes Hne Hf; [lia|].
  destruct (decide (length nodes < 2)%nat) as [Hlt|Hge].
  { destruct nodes as [|x [|y nodes]]; simpl in Hlt; [done|done|lia]. }
  pose proof (split_at_range (length nodes) ltac:(lia)) as Hs.
  rewrite fold_copy_step, fold_nodes_step by lia.
  rewrite !IH; [done|..]; rewrite ?length_take, ?length_drop; try lia;
    intros E%(f_equal length); rewrite ?length_take, ?length_drop in E; simpl in E; lia.
Qed.

Lemma fold_copy_merkle nodes : nodes <> [] -> _fold nodes = Merkle._fold nodes.
Proof. intros H. apply fold_copy_eq; [done|lia]. Qed.

(** ** Revealed records by type *)

Lemma index_revealed_Some revs : forall m m',
  index_revealed revs m = Some m' ->
  m ⊆ m' /\ forall rev, rev ∈ revs -> m' !! rev_type rev = Some rev.
Proof.
  induction revs as [|r revs IH]; intros m m' H; cbn in H.
  { injection H as <-. split; [done|]. intros rev Hin. by apply elem_of_nil in Hin. }
  destruct (m !! rev_type r) eqn:E; [done|]. apply IH in H as [Hsub Hin]. split.
  - etrans; [|exact Hsub]. by apply insert_subseteq.
  - intros rev [->|Hr]%elem_of_cons; [|auto]. eapply lookup_weaken; [|exact Hsub].
    apply lookup_insert_eq.
Qed.

Definition lookup_type (revs : list RevealedRecord) (t : Z) : option RevealedRecord :=
  List.find (fun r => rev_type r =? t) revs.

Lemma index_revealed_nodup revs : forall m,
  NoDup (map rev_type revs) -> (forall r, r ∈ revs -> m !! rev_type r = None) ->
  exists m', index_revealed revs m = Some m' /\
    forall t, m' !! t = match lookup_type revs t with Some r => Some r | None => m !! t end.
Proof.
  induction revs as [|r revs IH]; intros m Hd Hm; cbn [index_revealed]; [by exists m|].
  cbn [map] in Hd. apply NoDup_cons in Hd as [Hr Hd]. rewrite (Hm r) by left.
  destruct (IH (<[rev_type r:=r]> m) Hd) as (m' & Hi & Hl).
  { intros r' Hr'. rewrite lookup_insert_ne; [apply Hm; by right|].
    intros He. apply Hr. rewrite He. by apply list_elem_of_fmap_2. }
  exists m'. split; [done|]. intros t. rewrite Hl. unfold lookup_type. cbn [List.find].
  destruct (Z.eqb_spec (rev_type r) t) as [Ht|Ht].
  - destruct (List.find _ revs) as [r'|] eqn:E.
    + apply List.find_some in E as [Hin%list_elem_of_In E%Z.eqb_eq]. destruct Hr. rewrite Ht, <- E.
      by apply list_elem_of_fmap_2.
    + subst t. apply lookup_insert_eq.
  - destruct (List.find _ revs); [done|]. by apply lookup_insert_ne.
Qed.

(** ** Splicing an honest proof *)

(** What [build_loop] reveals, record by record. *)
Lemma build_loop_revealed n reveal rs revs om :
  build_loop n reveal rs = Ok (revs, om) ->
  revs = map (fun r => mkRevealed (tlv_type r) (hex (tlv_value r)))
             (List.filter (fun r => bool_decide (tlv_type r ∈ reveal)) rs).
Proof.
  revert revs om. induction rs as [|r rs IH]; intros revs om H; cbn [build_loop] in H.
  { by injection H as <- <-. }
  cbn [List.filter]. destruct (decide (tlv_type r ∈ reveal)) as [Hin|Hin].
  - apply bind_Ok in H as ([revs' om'] & Hb & [= <- <-]). rewrite bool_decide_true by done.
    cbn [map]. by rewrite (IH _ _ Hb).
  - apply bind_Ok in H as (e & _ & H). apply bind_Ok in H as (t & _ & H).
    apply bind_Ok in H as ([revs' om'] & Hb & [= <- <-]). rewrite bool_decide_false by done.
    by apply (IH _ _ Hb).
Qed.

(** Against a table that knows exactly the revealed records, splicing
    recomputes the paired hash of every record of the stream. *)
Lemma splice_honest n reveal m rs : forall revs om extra,
  build_loop n reveal rs = Ok (revs, om) ->
  Forall (fun r => is_signature_type (tlv_type r) = false /\
    m !! tlv_type r = if decide (tlv_type r ∈ reveal)
      then Some (mkRevealed (tlv_type r) (hex (tlv_value r))) else None) rs ->
  splice n m (map tlv_type rs) (om ++ extra)
  = (ps ← mapR (paired_hash n) rs; Ok (Some (ps, extra))).
Proof.
  induction rs as [|r rs IH]; intros revs om extra H HF; cbn [build_loop] in H.
  { by injection H as <- <-. }
  apply Forall_cons in HF as [[Hs Hm] HF]. cbn [map splice mapR]. rewrite Hs, Hm.
  change (paired_hash n r) with (e ← encode_record r; t ← type_bytes r;
    Ok (_pair_with_nonce (tagged_hash LnLeaf e) (tagged_hash n t))).
  destruct (decide (tlv_type r ∈ reveal)) as [Hin|Hin].
  - apply bind_Ok in H as ([revs' om'] & Hb & [= <- <-]).
    unfold to_record. cbn [value_hex rev_type]. rewrite fromhex_hex.
    cbn [mbind result_bind]. replace (mkTLV (tlv_type r) (tlv_value r)) with r by (by destruct r).
    destruct (encode_record r); [|reflexivity]. destruct (type_bytes r); [|reflexivity].
    cbn [mbind result_bind]. rewrite (IH _ _ extra Hb HF). by destruct (mapR (paired_hash n) rs).
  - apply bind_Ok in H as (e & He & H). apply bind_Ok in H as (t & Ht & H).
    apply bind_Ok in H as ([revs' om'] & Hb & [= <- <-]).
    cbn [app hash_hex]. rewrite fromhex_hex, He, Ht. cbn [mbind result_bind].
    rewrite (IH _ _ extra Hb HF). by destruct (mapR (paired_hash n) rs).
Qed.

Lemma non_signature_types records :
  Forall (fun r => is_signature_type (tlv_type r) = false) (non_signature records).
Proof.
  apply Forall_forall. intros r Hr%list_elem_of_In. apply List.filter_In in Hr as [_ Hr].
  by apply negb_true_iff in Hr.
Qed.

Lemma encode_record_nonempty r e : encode_record r = Ok e -> e <> [].
Proof.
  intros (t & l & Ht & _ & ->)%encode_record_Ok H. apply app_nil in H as [-> _].
  apply BigSize.encode_nonempty in Ht. simpl in Ht. lia.
Qed.

(** The table built from an honest proof. *)
Lemma honest_table (reveal : gset Z) rs :
  NoDup (types rs) ->
  exists m, index_revealed (map (fun r => mkRevealed (tlv_type r) (hex (tlv_value r)))
      (List.filter (fun r => bool_decide (tlv_type r ∈ reveal)) rs)) ∅ = Some m /\
    Forall (fun r => m !! tlv_type r = if decide (tlv_type r ∈ reveal)
      then Some (mkRevealed (tlv_type r) (hex (tlv_value r))) else None) rs.
Proof.
  intros Hd. set (f := fun r => mkRevealed _ _).
  set (p := fun r : TLVRecord => bool_decide (tlv_type r ∈ reveal)).
  assert (Hdf : NoDup (map rev_type (map f (List.filter p rs)))).
  { rewrite map_map. change (map (fun x => rev_type (f x)) (List.filter p rs)) with (types (List.filter p rs)).
    pose proof (types_filter_NoDup p rs []) as Hn. rewrite !app_nil_r in Hn. auto. }
  destruct (index_revealed_nodup _ ∅ Hdf) as (m & Hm & Hl); [intros; apply lookup_empty|].
  exists m. split; [done|]. apply Forall_forall. intros r Hr. rewrite Hl, lookup_empty.
  destruct (lookup_type _ _) as [v|] eqn:E; unfold lookup_type in E.
  - apply List.find_some in E as [Hin E%Z.eqb_eq].
    apply List.in_map_iff in Hin as (r' & <- & Hin). apply List.filter_In in Hin as [Hin Hp].
    cbn in E. assert (r' = r) as ->.
    { apply list_elem_of_In in Hin. apply list_elem_of_lookup in Hin as [i Hi], Hr as [j Hj].
      assert (i = j) as ->; [|congruence].
      eapply (NoDup_lookup (types rs)); [done| |]; rewrite list_lookup_fmap.
      - by rewrite Hi.
      - rewrite Hj. cbn. by rewrite E. }
    subst p. cbn in Hp. apply bool_decide_eq_true in Hp. by rewrite decide_True.
  - destruct (decide (tlv_type r ∈ reveal)) as [Hin|]; [|done].
    apply List.find_none with (x := f r) in E; [cbn in E; lia|].
    apply List.in_map, List.filter_In. split; [by apply list_elem_of_In|].
    subst p. cbn. by apply bool_decide_eq_true.
Qed.

(** ** Splicing any accepted proof *)

(** The tips of the tree [verify_proof] hashes: revealed records and bare
    hashes, in schema order. *)
Fixpoint proof_tips (nonce_tag : bytes) (m : gmap Z RevealedRecord) (schema : list Z)
    (omitted : list ProofStep) : list tip :=
  match schema with
  | [] => []
  | t :: schema =>
      match m !! t, omitted with
      | Some rev, _ =>
          match to_record rev with
          | Ok r => record_tip nonce_tag r :: proof_tips nonce_tag m schema omitted
          | Err _ => []
          end
      | None, [] => []
      | None, step :: omitted =>
          match fromhex (hash_hex step) with
          | Ok h => Hidden h :: proof_tips nonce_tag m schema omitted
          | Err _ => []
          end
      end
  end.

Lemma splice_tips n m schema : forall om paired it,
  splice n m schema om = Ok (Some (paired, it)) ->
  paired = map tip_hash (proof_tips n m schema om) /\
  forall t rev, t ∈ schema -> m !! t = Some rev ->
    is_signature_type t = false /\
    exists r, to_record rev = Ok r /\ encode_record r = Ok (enc r) /\
      record_tip n r ∈ proof_tips n m schema om.
Proof.
  induction schema as [|t schema IH]; intros om paired it H; cbn [splice proof_tips] in *.
  { injection H as <- <-. split; [done|]. intros t rev Ht. by apply elem_of_nil in Ht. }
  destruct (is_signature_type t) eqn:Es; [done|].
  destruct (m !! t) as [rev|] eqn:Em.
  - apply bind_Ok in H as (r & Hr & H). apply bind_Ok in H as (e & He & H).
    apply bind_Ok in H as (ty & Hty & H). apply bind_Ok in H as (rest & Hrest & H).
    destruct rest as [[ps it']|]; [|done]. injection H as <- <-.
    destruct (IH _ _ _ Hrest) as [-> Hin]. rewrite Hr.
    assert (enc r = e /\ enc_type r = ty) as [<- <-] by (unfold enc, enc_type; by rewrite He, Hty).
    split; [done|]. intros t' rev' [->|Ht']%elem_of_cons Hrev.
    + rewrite Em in Hrev. injection Hrev as <-. split; [done|]. exists r. split; [done|].
      split; [done|]. left.
    + destruct (Hin _ _ Ht' Hrev) as (? & r' & ? & ? & ?). split; [done|]. exists r'.
      split; [done|]. split; [done|]. by right.
  - destruct om as [|step om]; [done|]. destruct (fromhex (hash_hex step)) as [h|] eqn:Eh; [|done].
    apply bind_Ok in H as (rest & Hrest & H). destruct rest as [[ps it']|]; [|done].
    injection H as <- <-. destruct (IH _ _ _ Hrest) as [-> Hin]. split; [done|].
    intros t' rev' [->|Ht']%elem_of_cons Hrev; [congruence|].
    destruct (Hin _ _ Ht' Hrev) as (? & r' & ? & ? & ?). split; [done|]. exists r'.
    split; [done|]. split; [done|]. by right.
Qed.

(** ** Hash inputs of a verification *)

Definition digest_inputs (message_name field_name : pystr) (root : bytes) : list bytes :=
  match encode_ascii message_name, encode_ascii field_name with
  | Ok m, Ok f => [tag_input (ascii_bytes "lightning" ++ m ++ f) root]
  | _, _ => []
  end.

Definition proof_tree (proof : SelectiveDisclosureProof) (schema : list Z) : option (tree tip) :=
  match fromhex (first_tlv_encoding_hex proof), index_revealed (revealed proof) ∅ with
  | Ok fe, Some m =>
      let ts := proof_tips (LnNonce ++ fe) m schema (omitted_paired_hashes proof) in
      build_tree (S (length ts)) ts
  | _, _ => None
  end.

(** Every string hashed when [proof] is verified, from the leaves to the digest. *)
Definition proof_inputs (proof : SelectiveDisclosureProof) (schema : list Z) : list bytes :=
  match proof_tree proof schema with
  | Some t => tree_inputs t ++ digest_inputs (proof_message_name proof) (proof_field_name proof)
                (tree_hash tip_hash t)
  | None => []
  end.

Lemma message_hash_inputs m f root d :
  signature_message_hash m f root = Ok d ->
  exists tag, digest_inputs m f root = [tag_input tag root] /\ d = sha256 (tag_input tag root).
Proof.
  unfold signature_message_hash, digest_inputs. intros H. case_hyp H.
  apply bind_Ok in H as (a & -> & H). apply bind_Ok in H as (b & -> & [= <-]). eauto.
Qed.

(** An accepted proof hashes to a signed digest through a tree that holds
    every record it reveals. *)
Lemma verify_proof_true `{Secp256k1} proof schema pub sig :
  verify_proof proof schema pub sig = Ok true ->
  exists t d, proof_tree proof schema = Some t /\
    signature_message_hash (proof_message_name proof) (proof_field_name proof)
      (tree_hash tip_hash t) = Ok d /\
    verify_bip340 pub d sig = true /\
    forall rev, rev ∈ revealed proof -> exists n v,
      fromhex (value_hex rev) = Ok v /\
      encode_record (mkTLV (rev_type rev) v) = Ok (enc (mkTLV (rev_type rev) v)) /\
      record_tip n (mkTLV (rev_type rev) v) ∈ tips t.
Proof.
  unfold verify_proof, proof_tree. intros Hv. case_hyp Hv. case_hyp Hv.
  apply bind_Ok in Hv as (fe & -> & Hv). case_hyp Hv.
  destruct (index_revealed (revealed proof) ∅) as [m|] eqn:Em; [|done].
  apply bind_Ok in Hv as ([[paired rest]|] & Hs & Hv); [|done]. case_hyp Hv. case_hyp Hv. case_hyp Hv.
  apply bind_Ok in Hv as (root & Hroot & Hv). apply bind_Ok in Hv as (d & Hd & [= Hv]).
  apply splice_tips in Hs as [Hp Hin]. bool_to_prop.
  set (ts := proof_tips _ _ _ _) in *.
  rewrite (fold_copy_merkle paired) in Hroot by done. subst paired.
  destruct (fold_nodes_tree tip_hash (S (length ts)) ts) as (t & Hb & Ht & Hf);
    [by intros E'; rewrite E' in *|lia|].
  unfold Merkle._fold in Hroot. rewrite length_map, Hf in Hroot. injection Hroot as <-.
  exists t, d. split; [done|]. split; [done|]. split; [done|].
  intros rev Hrev. destruct (index_revealed_Some _ _ _ Em) as [_ Hm].
  assert (Hsc : rev_type rev ∈ schema).
  { rewrite List.forallb_forall in E3. apply list_elem_of_In, E3 in Hrev. by bool_to_prop. }
  destruct (Hin _ _ Hsc (Hm _ Hrev)) as (_ & r & Hr & He & Htip).
  unfold to_record in Hr. apply bind_Ok in Hr as (v & Hv' & [= <-]).
  exists (LnNonce ++ fe), v. rewrite Ht. done.
Qed.

(** ** Properties *)

(** Completeness: a proof built from a signed stream, whatever the set of
    types revealed, verifies exactly when the signature verifies on the
    whole stream; it raises no exception the whole-stream check would not. *)
Theorem disclosure_complete `{Secp256k1} records reveal m f proof pub sig :
  NoDup (types (non_signature records)) -> length pub = 33%nat -> length sig = 64%nat ->
  build_proof records reveal m f = Ok proof ->
  verify_proof proof (types (non_signature records)) pub sig
  = (root ← merkle_root records; digest ← signature_message_hash m f root;
     Ok (verify_bip340 pub digest sig)).
Proof.
  intros Hd Hpub Hsig Hb. unfold build_proof in Hb. pose proof (non_signature_types records) as Hns.
  unfold merkle_root.
  destruct (non_signature records) as [|first rs] eqn:Ens; [done|].
  apply bind_Ok in Hb as (fe & Hfe & Hb). apply bind_Ok in Hb as ([revs om] & Hl & [= <-]).
  unfold verify_proof. rewrite Hpub, Hsig.
  cbn [revealed omitted_paired_hashes first_tlv_encoding_hex proof_message_name proof_field_name].
  rewrite fromhex_hex, Hfe. cbn [Nat.eqb negb mbind result_bind].
  rewrite bool_decide_false by (by eapply encode_record_nonempty).
  pose proof (build_loop_revealed _ _ _ _ _ Hl) as Hr.
  destruct (honest_table reveal _ Hd) as (tbl & Hi & HF). rewrite <- Hr in Hi. rewrite Hi.
  pose proof (splice_honest _ _ tbl _ _ _ [] Hl) as Hsp. rewrite app_nil_r in Hsp.
  rewrite Hsp by (apply Forall_and; done).
  destruct (mapR _ (first :: rs)) as [ps|] eqn:Eps; [|reflexivity]. cbn [mbind result_bind].
  rewrite bool_decide_true by done. cbn [negb].
  replace (forallb _ revs) with true.
  2: { symmetry. apply List.forallb_forall. intros rev Hin. rewrite Hr in Hin.
       apply List.in_map_iff in Hin as (r & <- & Hin). apply List.filter_In in Hin as [Hin _].
       apply bool_decide_eq_true. cbn [rev_type]. apply list_elem_of_fmap_2. by apply list_elem_of_In. }
  assert (Hne : ps <> []).
  { intros ->. apply mapR_length in Eps. simpl in Eps. lia. }
  cbn [negb]. rewrite bool_decide_false by done. rewrite fold_copy_merkle by done.
  destruct (Merkle._fold ps); [|reflexivity]. cbn [mbind result_bind]. reflexivity.
Qed.

(** C29. Soundness: if [verify_proof] accepts and the signature signs one
    digest only, that of the stream [records], then every record the proof
    reveals is a non-signature record of that stream, unless two of the
    listed strings hash alike. The prover's own choice of nonce tag, message
    name, field name, hidden hashes and revealed set does not matter. *)
Theorem disclosure_sound `{Secp256k1} proof schema pub sig records m f root d :
  merkle_root records = Ok root -> signature_message_hash m f root = Ok d ->
  (forall d', verify_bip340 pub d' sig = true -> d' = d) ->
  verify_proof proof schema pub sig = Ok true ->
  no_collision (root_inputs records ++ digest_inputs m f root ++ proof_inputs proof schema) ->
  forall rev, rev ∈ revealed proof -> exists v,
    fromhex (value_hex rev) = Ok v /\ mkTLV (rev_type rev) v ∈ non_signature records.
Proof.
  intros Hroot Hd Honly Hv Hnc rev Hrev.
  destruct (verify_proof_true _ _ _ _ Hv) as (t & d' & Ht & Hd' & Hs & Hrevs).
  apply Honly in Hs as ->. unfold proof_inputs in Hnc. rewrite Ht in Hnc.
  destruct (message_hash_inputs _ _ _ _ Hd) as (tag & Hi & ->).
  destruct (message_hash_inputs _ _ _ _ Hd') as (tag' & Hi' & Heq). rewrite Hi, Hi' in Hnc.
  apply Hnc in Heq; [|rewrite !elem_of_app, !list_elem_of_singleton; tauto..].
  apply tag_input_inj in Heq as [_ ->].
  destruct (Hrevs rev Hrev) as (n & v & Hx & He & Hin). exists v. split; [done|].
  destruct (stream_bound records t Hroot) with (n := n) (e := enc (mkTLV (rev_type rev) v))
    (ty := enc_type (mkTLV (rev_type rev) v)) as (r & Hr & Hre); [|done|].
  { intros x y Hx' Hy'. apply Hnc; rewrite !elem_of_app in *; tauto. }
  by rewrite (encode_record_inj _ _ _ He Hre).
Qed.

(** ** Witnesses *)

#[local] Existing Instance toy_curve.

Definition example_root : bytes := Eval vm_compute in
  match merkle_root example_stream with Ok r => r | Err _ => [] end.
Definition example_digest : bytes := Eval vm_compute in
  match signature_message_hash (str "offer") (str "signature") example_root with
  | Ok d => d | Err _ => [] end.
Definition example_proof : SelectiveDisclosureProof := Eval vm_compute in
  match build_proof example_stream {[8]} (str "offer") (str "signature") with
  | Ok p => p | Err _ => mkProof [] [] "" [] [] end.

Lemma disclosure_complete_witness :
  verify_proof example_proof [8; 22] example_point (example_digest ++ example_digest) = Ok true.
Proof.
  refine (eq_trans (disclosure_complete example_stream {[8]} (str "offer") (str "signature")
    example_proof example_point (example_digest ++ example_digest) _ _ _ _) _).
  - change (types (non_signature example_stream)) with [8; 22]. apply ascending_NoDup. reflexivity.
  - reflexivity.
  - reflexivity.
  - vm_compute. reflexivity.
  - vm_compute. reflexivity.
Defined.

Lemma disclosure_sound_witness :
  exists v, fromhex "07" = Ok v /\ mkTLV 8 v ∈ non_signature example_stream.
Proof.
  refine (disclosure_sound example_proof [8; 22] example_point (example_digest ++ example_digest)
    example_stream (str "offer") (str "signature") example_root example_digest _ _ _ _ _
    (mkRevealed 8 "07") _).
  - vm_compute. reflexivity.
  - vm_compute. reflexivity.
  - intros d'. by apply toy_verify_only.
  - vm_compute. reflexivity.
  - apply no_collisionb_spec. vm_compute. reflexivity.
  - left.
Defined.

(** A malformed proof makes [verify_proof] raise instead of returning
    [False]: a root that is not 32 bytes long, or a nonce seed that is not
    hexadecimal. *)
Lemma verify_proof_raises :
  verify_proof (mkProof [] [mkStep "R" "00"] "0801" (str "offer") (str "signature"))
    [8] example_point example_sig = Err (ValueError "merkle root must be 32 bytes") /\
  is_ok (verify_proof (mkProof [] [] "zz" (str "offer") (str "signature"))
    [8] example_point example_sig) = false.
Proof. split; vm_compute; reflexivity. Qed.
