(* ===== verification/PyInt.v ===== *)
(** * Decimal integers

    Python's [str(n)] and the reading of a leading run of decimal digits
    (Lua's [%d+], Python's [int] on digit strings), with their round trip. *)
From S2P Require Import Prelude.

Definition digit_char (d : Z) : ascii := ascii_of_N (Z.to_N (48 + d)).

Definition is_digit (c : ascii) : bool := ((48 <=? N_of_ascii c) && (N_of_ascii c <=? 57))%N.

Definition digit_val (c : ascii) : Z := Z.of_N (N_of_ascii c) - 48.

Fixpoint dec_loop (fuel : nat) (n : Z) (acc : string) : string :=
  match fuel with
  | O => acc
  | S fuel =>
      let acc' := String (digit_char (n mod 10)) acc in
      if n <? 10 then acc' else dec_loop fuel (n / 10) acc'
  end.

(** Enough fuel: a number has at most as many decimal as binary digits. *)
Definition dec_fuel (n : Z) : nat := S (Z.to_nat (Z.log2 n)).

(** [str(n)] *)
Definition str_of_int (n : Z) : string :=
  if n <? 0 then String "-" (dec_loop (dec_fuel (- n)) (- n) "")
  else dec_loop (dec_fuel n) n "".

(** The value of the longest prefix of digits, how many they are, and the
    rest of the string. *)
Fixpoint read_digits (acc : Z) (count : nat) (s : string) : Z * nat * string :=
  match s with
  | String c s' =>
      if is_digit c then read_digits (acc * 10 + digit_val c) (S count) s' else (acc, count, s)
  | EmptyString => (acc, count, s)
  end.

(** [string.match(s, '^(%d+):')] followed by [tonumber]. *)
Definition leading_amount (s : string) : option Z :=
  match read_digits 0 0 s with
  | (n, S _, String c _) => if Ascii.eqb c ":" then Some n else None
  | _ => None
  end.

Lemma is_digit_char d : 0 <= d < 10 -> is_digit (digit_char d) = true /\ digit_val (digit_char d) = d.
Proof.
  intros Hd. assert (H : d = 0 \/ d = 1 \/ d = 2 \/ d = 3 \/ d = 4 \/ d = 5 \/ d = 6 \/ d = 7 \/ d = 8 \/ d = 9)
    by lia. by repeat destruct H as [->|H]; [..|subst d].
Qed.

Lemma read_digits_step acc count d s :
  0 <= d < 10 ->
  read_digits acc count (String (digit_char d) s) = read_digits (acc * 10 + d) (S count) s.
Proof. intros [H1 H2]%is_digit_char. cbn. by rewrite H1, H2. Qed.

(** Reading back what [dec_loop] writes in front of [s]: the digits read
    so far are shifted by as many places as digits were written. *)
Lemma read_dec_loop fuel : forall n s acc count,
  0 <= n < 10 ^ Z.of_nat fuel -> (0 < fuel)%nat ->
  exists k, (0 < k)%nat /\
    read_digits acc count (dec_loop fuel n s) = read_digits (acc * 10 ^ Z.of_nat k + n) (count + k) s.
Proof.
  induction fuel as [|fuel IH]; intros n s acc count Hn Hf; [lia|]. cbn [dec_loop].
  destruct (Z.ltb_spec n 10) as [Hlt|Hge].
  - exists 1%nat. split; [lia|]. rewrite Z.mod_small by lia. rewrite read_digits_step by lia.
    f_equal; lia.
  - rewrite Nat2Z.inj_succ, Z.pow_succ_r in Hn by lia.
    destruct fuel as [|fuel]; [simpl in Hn; lia|].
    destruct (IH (n / 10) (String (digit_char (n mod 10)) s) acc count) as (k & Hk & ->); [dlia|lia|].
    exists (S k). split; [lia|]. rewrite read_digits_step by dlia.
    rewrite Nat2Z.inj_succ, Z.pow_succ_r by lia. f_equal; [dlia|lia].
Qed.

Lemma dec_fuel_enough n : 0 <= n -> n < 10 ^ Z.of_nat (dec_fuel n).
Proof.
  intros Hn. unfold dec_fuel. destruct (Z.eq_dec n 0) as [->|Hz]; [done|].
  pose proof (Z.log2_spec n ltac:(lia)) as [_ H].
  rewrite Nat2Z.inj_succ, Z2Nat.id by apply Z.log2_nonneg.
  eapply Z.lt_le_trans; [exact H|]. apply Z.pow_le_mono_l.
  pose proof (Z.log2_nonneg n). lia.
Qed.

Lemma dec_loop_app fuel : forall n s t,
  String.append (dec_loop fuel n s) t = dec_loop fuel n (String.append s t).
Proof. induction fuel as [|fuel IH]; intros n s t; cbn [dec_loop]; [done|]. case_match; [done|apply IH]. Qed.

(** A member [f"{amount}:{rest}"] carries its amount. *)
Lemma leading_amount_str n rest :
  0 <= n -> leading_amount (String.append (str_of_int n) (String ":" rest)) = Some n.
Proof.
  intros Hn. unfold str_of_int. rewrite (proj2 (Z.ltb_ge _ _)) by lia.
  rewrite dec_loop_app. unfold leading_amount.
  destruct (read_dec_loop (dec_fuel n) n (String.append "" (String ":" rest)) 0 0) as (k & Hk & ->).
  { split; [done|]. by apply dec_fuel_enough. }
  { unfold dec_fuel. lia. }
  destruct k; [lia|]. reflexivity.
Qed.

Example str_of_int_ex : str_of_int 0 = "0" /\ str_of_int 21000 = "21000" /\ str_of_int (-7) = "-7".
Proof. repeat split. Qed.
