(* ===== verification/Redis.v ===== *)
(** * The part of Redis the rate limiters use

    Sorted sets with key expiry, as the Lua scripts of core/rate_limit.py
    and bolt12/inbound_rate_limit.py use them. Scores and server time are
    integer ticks; the order of members of equal weight never matters to
    the scripts, so a sorted set is a finite map from members to scores. *)
From S2P Require Import Prelude.

Record zkey := mkZ { zmembers : gmap string Z; zexpire : option Z }.

Abbreviation redis := (gmap string zkey).

Definition zempty : zkey := mkZ ∅ None.

(** The value of a key at server time [srv]; an expired key is gone. *)
Definition zget (r : redis) (srv : Z) (key : string) : zkey :=
  match r !! key with
  | Some z => match zexpire z with
              | Some e => if e <=? srv then zempty else z
              | None => z
              end
  | None => zempty
  end.

(** Redis deletes a sorted set that becomes empty, with its expiry. *)
Definition zput (r : redis) (key : string) (z : zkey) : redis :=
  if decide (zmembers z = ∅) then delete key r else <[key := z]> r.

(** [ZREMRANGEBYSCORE key -inf hi] *)
Definition zremrangebyscore (r : redis) (srv : Z) (key : string) (hi : Z) : redis :=
  let z := zget r srv key in
  zput r key (mkZ (filter (fun kv => hi < kv.2) (zmembers z)) (zexpire z)).

(** [ZRANGE key lo +inf BYSCORE] *)
Definition zrange_byscore (r : redis) (srv : Z) (key : string) (lo : Z) : list string :=
  map fst (map_to_list (filter (fun kv => lo <= kv.2) (zmembers (zget r srv key)))).

Definition zcard (r : redis) (srv : Z) (key : string) : Z := Z.of_nat (size (zmembers (zget r srv key))).

Definition zadd (r : redis) (srv : Z) (key : string) (score : Z) (member : string) : redis :=
  let z := zget r srv key in
  zput r key (mkZ (<[member := score]> (zmembers z)) (zexpire z)).

Definition zrem (r : redis) (srv : Z) (key : string) (member : string) : redis :=
  let z := zget r srv key in
  zput r key (mkZ (delete member (zmembers z)) (zexpire z)).

Definition zscore (r : redis) (srv : Z) (key : string) (member : string) : option Z :=
  zmembers (zget r srv key) !! member.

(** [EXPIRE key ttl], [ttl] in ticks *)
Definition expire (r : redis) (srv : Z) (key : string) (ttl : Z) : redis :=
  let z := zget r srv key in
  zput r key (mkZ (zmembers z) (Some (srv + ttl))).

(** ** Frame and lookup lemmas *)

Lemma zput_ne r k k' z : k <> k' -> zput r k z !! k' = r !! k'.
Proof.
  intros H. unfold zput. destruct (decide _); [by apply lookup_delete_ne|by apply lookup_insert_ne].
Qed.

Lemma zput_members r k z m t :
  zmembers z !! m = Some t -> zput r k z !! k = Some z.
Proof.
  intros H. unfold zput. destruct (decide _) as [E|]; [by rewrite E in H|]. apply lookup_insert_eq.
Qed.

(** Operations on one key leave the others alone. *)
Lemma zget_ne r r' srv k : r' !! k = r !! k -> zget r' srv k = zget r srv k.
Proof. unfold zget. by intros ->. Qed.

(** Reading a key right after writing it. *)
Lemma zget_zput r srv k z :
  (forall e, zexpire z = Some e -> srv < e) ->
  zmembers (zget (zput r k z) srv k) = zmembers z /\
  (zmembers z <> ∅ -> zget (zput r k z) srv k = z).
Proof.
  intros He. unfold zput. destruct (decide _) as [E|E]; unfold zget.
  - rewrite lookup_delete_eq, E. done.
  - rewrite lookup_insert_eq. destruct (zexpire z) as [e|]; [|done].
    rewrite (proj2 (Z.leb_gt _ _)); [done|]. by apply He.
Qed.

(** A key that is read as non-empty has not expired. *)
Lemma zget_expire r srv k e : zexpire (zget r srv k) = Some e -> srv < e.
Proof.
  unfold zget. destruct (r !! k) as [z|]; [|done]. destruct (zexpire z) as [e'|] eqn:E.
  - case_match; [done|]. rewrite E. intros [= <-]. by bool_to_prop.
  - by rewrite E.
Qed.

(** ** Weighted sums over a sorted set *)

Section weights.
Context (w : string -> Z).

Definition wsum (m : gmap string Z) : Z := map_fold (fun k _ acc => w k + acc) 0 m.

Definition lsum (l : list string) : Z := foldr (fun m acc => w m + acc) 0 l.

Lemma lsum_perm l k : l ≡ₚ k -> lsum l = lsum k.
Proof. induction 1; simpl; lia. Qed.

Lemma lsum_app l k : lsum (l ++ k) = lsum l + lsum k.
Proof. induction l; simpl; lia. Qed.

Lemma wsum_list m : wsum m = lsum (map fst (map_to_list m)).
Proof.
  unfold wsum, lsum. rewrite map_fold_foldr.
  induction (map_to_list m) as [|[k x] l IH]; simpl; [done|]. by rewrite IH.
Qed.

Hypothesis w_nonneg : forall m, 0 <= w m.

Lemma lsum_nonneg l : 0 <= lsum l.
Proof using w_nonneg. induction l as [|m l IH]; simpl; [lia|]. specialize (w_nonneg m). lia. Qed.

Lemma lsum_filter_le (f : string -> bool) l : lsum (List.filter f l) <= lsum l.
Proof using w_nonneg.
  induction l as [|m l IH]; simpl; [lia|]. specialize (w_nonneg m). destruct (f m); simpl; lia.
Qed.

(** Distinct members of the set weigh no more than the set. *)
Lemma lsum_le_wsum l m :
  NoDup l -> (forall k, k ∈ l -> is_Some (m !! k)) -> lsum l <= wsum m.
Proof using w_nonneg.
  intros Hd Hin. rewrite wsum_list.
  assert (Hsub : l ⊆+ map fst (map_to_list m)).
  { apply NoDup_submseteq; [done|]. intros k Hk. destruct (Hin k Hk) as [x Hx].
    apply list_elem_of_fmap. exists (k, x). split; [done|]. by apply elem_of_map_to_list. }
  apply submseteq_Permutation in Hsub as [k Hp]. rewrite (lsum_perm _ _ Hp), lsum_app.
  pose proof (lsum_nonneg k). lia.
Qed.
End weights.

Lemma lsum_one l : lsum (fun _ => 1) l = Z.of_nat (length l).
Proof. induction l; simpl; lia. Qed.

Lemma wsum_one m : wsum (fun _ => 1) m = Z.of_nat (size m).
Proof. by rewrite wsum_list, lsum_one, length_map, length_map_to_list. Qed.
