(* ===== verification/Window.v ===== *)
(** * Sliding windows

    What a limiter built on one sorted set promises, independent of the
    script that maintains it. [log] records what was admitted and not taken
    back, as (member, time); the limiter's set must hold every entry of the
    log that is still inside the window, and then the weight admitted in
    any window is bounded. The client's and the server's clocks may differ
    by less than [slack]. *)
From S2P Require Import Prelude Redis.

Abbreviation wlog := (list (string * Z)).

Section window.
Context (w : string -> Z) (W slack limit : Z) (key : string).
Hypothesis w_nonneg : forall m, 0 <= w m.

Definition in_window (T : Z) (e : string * Z) : bool := (T - W <? e.2) && (e.2 <=? T).

(** The weight admitted in the window [(T - W, T]]. *)
Definition window_sum (T : Z) (log : wlog) : Z :=
  lsum w (map fst (List.filter (in_window T) log)).

Definition clock_ok (now srv : Z) : Prop := now - slack < srv < now + slack.

(** [z] holds the entry and does not expire while it matters. *)
Definition holds (z : zkey) (m : string) (t : Z) : Prop :=
  zmembers z !! m = Some t /\ forall e, zexpire z = Some e -> t + W + slack < e.

Record window_inv (r : redis) (log : wlog) (now : Z) : Prop := {
  wi_distinct : NoDup (map fst log);
  wi_past : Forall (fun e => e.2 <= now) log;
  wi_stored : forall m t, (m, t) ∈ log -> now - W < t ->
    exists z, r !! key = Some z /\ holds z m t;
  wi_bound : forall T, window_sum T log <= limit
}.

Lemma window_inv_empty r now : 0 <= limit -> window_inv r [] now.
Proof using Type.
  intros Hl. split; [constructor|constructor| |done]. intros m t Hin. by apply elem_of_nil in Hin.
Qed.

(** Inside the window the set has not expired. *)
Lemma stored_view r log now now' srv m t :
  window_inv r log now -> now <= now' -> clock_ok now' srv ->
  (m, t) ∈ log -> now' - W < t ->
  zmembers (zget r srv key) !! m = Some t /\ exists z, r !! key = Some z /\ zget r srv key = z.
Proof using Type.
  intros Hi Hn [_ Hs] Hin Ht.
  destruct (wi_stored _ _ _ Hi m t Hin) as (z & Hz & Hm & He); [lia|].
  assert (Hg : zget r srv key = z).
  { unfold zget. rewrite Hz. destruct (zexpire z) as [e|]; [|done].
    specialize (He e eq_refl). by rewrite (proj2 (Z.leb_gt _ _)) by lia. }
  rewrite Hg. eauto.
Qed.

(** What an operation must keep of the set it read at [srv]: the members
    of [log] inside the window, under an expiry that is the old one, none,
    or at least a window and twice the slack away. *)
Definition retains (r r' : redis) (srv : Z) (log : wlog) (now : Z) : Prop :=
  forall m t, (m, t) ∈ log -> now - W < t -> zmembers (zget r srv key) !! m = Some t ->
  exists z', r' !! key = Some z' /\ zmembers z' !! m = Some t /\
    (zexpire z' = zexpire (zget r srv key) \/
     forall e, zexpire z' = Some e -> srv + W + 2 * slack <= e).

Lemma retained r r' log log' now now' srv m t :
  window_inv r log now -> now <= now' -> clock_ok now' srv -> log' ⊆ log ->
  retains r r' srv log' now' -> (m, t) ∈ log' -> now' - W < t ->
  exists z, r' !! key = Some z /\ holds z m t.
Proof using Type.
  intros Hi Hn Hc Hsub Hr Hin Ht.
  destruct (stored_view _ _ _ _ _ _ _ Hi Hn Hc (Hsub _ Hin) Ht) as [Hv (z & Hz & Hg)].
  destruct (Hr m t Hin Ht Hv) as (z' & Hz' & Hm & He). exists z'. split; [done|]. split; [done|].
  intros e Hee. destruct He as [He|He].
  - destruct (wi_stored _ _ _ Hi m t (Hsub _ Hin)) as (z0 & Hz0 & _ & He0); [lia|].
    apply He0. rewrite Hz in Hz0. injection Hz0 as <-. by rewrite <- Hg, <- He.
  - specialize (He e Hee). pose proof (wi_past _ _ _ Hi) as Hp. rewrite Forall_forall in Hp.
    specialize (Hp (m, t) (Hsub _ Hin)). cbn in Hp. destruct Hc. lia.
Qed.

Lemma window_sum_filter_le T f log : window_sum T (List.filter f log) <= window_sum T log.
Proof using w_nonneg.
  unfold window_sum. induction log as [|e log IH]; simpl; [lia|].
  pose proof (w_nonneg e.1). destruct (f e), (in_window T e) eqn:E; simpl; rewrite ?E; simpl; lia.
Qed.

(** An operation that retains the log (or the part of it that is not taken
    back) keeps the invariant. *)
Lemma inv_retain f r r' log now now' srv :
  window_inv r log now -> now <= now' -> clock_ok now' srv ->
  retains r r' srv (List.filter f log) now' -> window_inv r' (List.filter f log) now'.
Proof using w_nonneg.
  intros Hi Hn Hc Hr. assert (Hsub : List.filter f log ⊆ log).
  { intros e He%list_elem_of_In. apply List.filter_In in He as [He _]. by apply list_elem_of_In. }
  split.
  - apply NoDup_map_filter, (wi_distinct _ _ _ Hi).
  - apply Forall_filter_intro. eapply Forall_impl; [apply (wi_past _ _ _ Hi)|]. simpl. lia.
  - intros m t Hin Ht. by eapply retained.
  - intros T. etrans; [apply window_sum_filter_le|]. apply (wi_bound _ _ _ Hi).
Qed.

Lemma inv_retain_all r r' log now now' srv :
  window_inv r log now -> now <= now' -> clock_ok now' srv ->
  retains r r' srv log now' -> window_inv r' log now'.
Proof using w_nonneg.
  intros Hi Hn Hc Hr.
  assert (Hf : List.filter (fun _ => true) log = log).
  { clear. induction log as [|e log IH]; simpl; [done|]. by rewrite IH. }
  rewrite <- Hf. eapply inv_retain; [done..|by rewrite Hf].
Qed.

(** Entries of the log inside the window weigh no more than the set. *)
Lemma window_le_set r log now now' srv m T :
  window_inv r log now -> now <= now' -> clock_ok now' srv -> now' <= T ->
  (forall k t, zmembers (zget r srv key) !! k = Some t -> now' - W < t -> is_Some (m !! k)) ->
  window_sum T log <= wsum w m.
Proof using w_nonneg.
  intros Hi Hn Hc HT Hm. apply lsum_le_wsum; [done| |].
  - apply NoDup_map_filter, (wi_distinct _ _ _ Hi).
  - intros k Hk. apply list_elem_of_fmap in Hk as ([k' t] & -> & Hk).
    apply list_elem_of_In, List.filter_In in Hk as [Hk%list_elem_of_In Ht].
    unfold in_window in Ht. cbn in Ht. bool_to_prop.
    destruct (stored_view _ _ _ _ _ k' t Hi Hn Hc Hk) as [Hv _]; [lia|].
    eapply Hm; [exact Hv|lia].
Qed.

(** Admission: the new entry is stored, and with it the set weighs no more
    than the limit. *)
Lemma inv_admit r r' log now now' srv m purged :
  window_inv r log now -> now <= now' -> clock_ok now' srv ->
  (forall k t, zmembers (zget r srv key) !! k = Some t -> now' - W < t -> is_Some (purged !! k)) ->
  wsum w purged + w m <= limit -> m ∉ map fst log ->
  retains r r' srv log now' ->
  (exists z, r' !! key = Some z /\ holds z m now') ->
  window_inv r' (log ++ [(m, now')]) now'.
Proof using w_nonneg.
  intros Hi Hn Hc Hp Hl Hm Hr Hz. split.
  - rewrite map_app. apply NoDup_app. split; [apply (wi_distinct _ _ _ Hi)|].
    split; [|apply NoDup_singleton]. intros k Hk ->%list_elem_of_singleton. done.
  - apply Forall_app. split; [|by repeat constructor].
    eapply Forall_impl; [apply (wi_past _ _ _ Hi)|]. simpl. lia.
  - intros k t [Hin|Hin]%elem_of_app Ht; [by eapply retained|].
    apply list_elem_of_singleton in Hin as [= -> ->]. done.
  - intros T. unfold window_sum. rewrite List.filter_app, map_app, lsum_app.
    change (lsum w (map fst (List.filter (in_window T) log))) with (window_sum T log).
    destruct (Z.le_gt_cases now' T) as [HT|HT].
    + pose proof (window_le_set _ _ _ _ _ purged T Hi Hn Hc HT Hp) as Hs.
      pose proof (w_nonneg m). cbn [List.filter]. destruct (in_window T (m, now')); simpl; lia.
    + cbn [List.filter]. unfold in_window at 1. cbn [snd].
      rewrite (proj2 (Z.leb_gt now' T)), andb_false_r by lia. cbn.
      pose proof (wi_bound _ _ _ Hi T). lia.
Qed.

(** Renaming an entry to one of no more weight. *)
Definition rename (old new : string) (log : wlog) : wlog :=
  map (fun e => if decide (e.1 = old) then (new, e.2) else e) log.

Lemma window_sum_rename T old new log :
  w new <= w old -> window_sum T (rename old new log) <= window_sum T log.
Proof using Type.
  intros Hw. unfold window_sum, rename. induction log as [|[k t] log IH]; simpl; [lia|].
  destruct (decide (k = old)) as [->|]; unfold in_window in *; simpl in *; case_match; simpl in *; lia.
Qed.

Lemma inv_rename r r' log now now' srv old new :
  window_inv r log now -> now <= now' -> clock_ok now' srv ->
  w new <= w old -> new ∉ map fst log ->
  (forall m t, (m, t) ∈ log -> now' - W < t -> zmembers (zget r srv key) !! m = Some t ->
    exists z', r' !! key = Some z' /\ zmembers z' !! (if decide (m = old) then new else m) = Some t /\
      (zexpire z' = zexpire (zget r srv key) \/ zexpire z' = None)) ->
  window_inv r' (rename old new log) now'.
Proof using Type.
  intros Hi Hn Hc Hw Hnew Hr. split.
  - pose proof (wi_distinct _ _ _ Hi) as Hd. clear -Hd Hnew. unfold rename.
    induction log as [|[k t] log IH]; [done|]. cbn [map fst] in *.
    apply not_elem_of_cons in Hnew as [Hk Hnew]. apply NoDup_cons in Hd as [He Hd].
    specialize (IH Hnew Hd). apply NoDup_cons. split; [|done].
    intros Hin. apply list_elem_of_fmap in Hin as ([k1 t1] & Heq & Hin).
    apply list_elem_of_fmap in Hin as ([k2 t2] & Heq2 & Hin). cbn in Heq, Heq2.
    apply (list_elem_of_fmap_2 fst) in Hin. cbn in Hin.
    destruct (decide (k = old)), (decide (k2 = old)); simpl in *; simplify_eq; done.
  - apply Forall_map. eapply Forall_impl; [apply (wi_past _ _ _ Hi)|]. intros [k t] Ht. simpl in *.
    destruct (decide _); simpl; lia.
  - intros m t Hin Ht. unfold rename in Hin. apply list_elem_of_fmap in Hin as ([k t'] & Heq & Hin).
    cbn in Heq. assert (t' = t) as -> by (destruct (decide (k = old)); simplify_eq; done).
    destruct (stored_view _ _ _ _ _ k t Hi Hn Hc Hin Ht) as [Hv (z & Hz & Hg)].
    destruct (Hr k t Hin Ht Hv) as (z' & Hz' & Hm & He). exists z'. split; [done|].
    split; [destruct (decide (k = old)); by simplify_eq|]. intros e Hee.
    destruct (wi_stored _ _ _ Hi k t Hin) as (z0 & Hz0 & _ & He0); [lia|].
    rewrite Hz in Hz0. injection Hz0 as <-. destruct He as [He|He]; [|congruence].
    apply He0. by rewrite <- Hg, <- He.
  - intros T. etrans; [by apply window_sum_rename|]. apply (wi_bound _ _ _ Hi).
Qed.
End window.
