(* ===== verification/RateLimit.v ===== *)
(** * Payment rate limits (app/core/rate_limit.py)

    The Lua scripts as functions on [redis], the Python functions around
    them, and [window_inv] for every set they maintain, under arbitrary
    interleaving and Redis failures.

    Time is in ticks of 2^-22 s: a double between 2^30 and 2^31 (any
    [time.time()] from 2004 to 2038) is a multiple of that, so [now - window]
    is exact in the code and here. Amounts are exact below 2^53. *)
From S2P Require Import Prelude PyInt Redis Window.

Definition TICKS : Z := 2 ^ 22.

Record settings := mkSettings {
  lnd_rate_limit_sats : Z;
  lnd_rate_limit_window_seconds : Z;
  lnd_velocity_max_txns : Z;
  lnd_velocity_window_seconds : Z;
  rate_limit_fail_policy : string;
  bolt12_inbound_rate_limit_count : Z;
  bolt12_inbound_rate_limit_per_offer_count : Z;
  bolt12_inbound_rate_limit_global_count : Z;
  bolt12_inbound_rate_limit_window_seconds : Z
}.

(** How a Redis round trip ends: normally, with an exception before the
    script ran, or with one after it ran (a lost reply). *)
Inductive fault := NoFault | FailBefore | FailAfter.

(** What one call reads from its environment: [time.time()], the Redis
    server's clock, [uuid.uuid4().hex], and the outcome of the round trip. *)
Record env := mkEnv { e_now : Z; e_srv : Z; e_hex : string; e_fault : fault }.

(** [await r.eval(script, ...)] *)
Definition eval {A} (f : fault) (script : redis -> A * redis) (r : redis) : result A * redis :=
  match f with
  | NoFault => let '(a, r') := script r in (Ok a, r')
  | FailBefore => (Err RedisError, r)
  | FailAfter => (Err RedisError, snd (script r))
  end.

(** ** Scripts *)

(** The loop of the spend script: members that carry no amount count 0. *)
Definition amount_of (m : string) : Z := match leading_amount m with Some a => a | None => 0 end.

Definition _SPEND_CHECK_SCRIPT (srv : Z) (key : string) (window_start now amount limit : Z)
    (member : string) (ttl : Z) (r : redis) : (bool * Z) * redis :=
  let r := zremrangebyscore r srv key window_start in
  let members := zrange_byscore r srv key window_start in
  let total := foldl (fun total m => match leading_amount m with
                                     | Some amt => total + amt
                                     | None => total
                                     end) 0 members in
  if limit <? total + amount then ((false, total), r)
  else
    let r := zadd r srv key now member in
    let r := expire r srv key ttl in
    ((true, total + amount), r).

(** [_VELOCITY_CHECK_SCRIPT] and [_SIGN_CHECK_SCRIPT] have the same text. *)
Definition _VELOCITY_CHECK_SCRIPT (srv : Z) (key : string) (window_start now max_txns : Z)
    (member : string) (ttl : Z) (r : redis) : (bool * Z) * redis :=
  let r := zremrangebyscore r srv key window_start in
  let count := zcard r srv key in
  if max_txns <=? count then ((false, count), r)
  else
    let r := zadd r srv key now member in
    let r := expire r srv key ttl in
    ((true, count + 1), r).

Definition _RECONCILE_SPEND_SCRIPT (srv : Z) (key old_member new_member : string) (r : redis)
    : bool * redis :=
  match zscore r srv key old_member with
  | None => (false, r)
  | Some score =>
      let r := zrem r srv key old_member in
      (true, zadd r srv key score new_member)
  end.

(** ** Checks *)

Definition spend_key (api_key_id : string) : string := String.append "lwa:spend:" api_key_id.
Definition velocity_key (api_key_id : string) : string := String.append "lwa:velocity:" api_key_id.
Definition sign_key (identity : string) : string := String.append "lwa:sign:" identity.

Definition UNAVAILABLE : string :=
  "Rate limiting unavailable — payments temporarily blocked for safety.".

(** [(allowed, error_message, member_id)]; of a message only its literal
    beginning is kept. *)
Abbreviation verdict := (bool * option string * option string)%type.

(** The [except] branch shared by the two payment checks. *)
Definition on_redis_error (cfg : settings) : verdict :=
  if String.eqb (rate_limit_fail_policy cfg) "open" then (true, None, None)
  else (false, Some UNAVAILABLE, None).

Definition spend_member_of (amount_sats : Z) (hex : string) : string :=
  String.append (str_of_int amount_sats) (String ":" hex).

Definition check_spend_limit (cfg : settings) (e : env) (amount_sats : Z) (api_key_id : string)
    (r : redis) : verdict * redis :=
  let limit := lnd_rate_limit_sats cfg in
  if limit <=? 0 then ((true, None, None), r)
  else
    let now := e_now e in
    let window_start := now - lnd_rate_limit_window_seconds cfg * TICKS in
    let member := spend_member_of amount_sats (e_hex e) in
    let ttl := (lnd_rate_limit_window_seconds cfg + 60) * TICKS in
    match eval (e_fault e) (_SPEND_CHECK_SCRIPT (e_srv e) (spend_key api_key_id) window_start now
                              amount_sats limit member ttl) r with
    | (Ok (allowed, current), r) =>
        if negb allowed then ((false, Some "Cumulative spend limit reached. ", None), r)
        else ((true, None, Some member), r)
    | (Err _, r) => (on_redis_error cfg, r)
    end.

(** [f"{now}:{uuid.uuid4().hex}"]; the text of the float is not modelled,
    the tick count stands for it. *)
Definition stamp_member (e : env) : string :=
  String.append (str_of_int (e_now e)) (String ":" (e_hex e)).

Definition check_velocity_limit (cfg : settings) (e : env) (api_key_id : string) (r : redis)
    : verdict * redis :=
  let max_txns := lnd_velocity_max_txns cfg in
  if max_txns <=? 0 then ((true, None, None), r)
  else
    let now := e_now e in
    let window_start := now - lnd_velocity_window_seconds cfg * TICKS in
    let member := stamp_member e in
    let ttl := (lnd_velocity_window_seconds cfg + 60) * TICKS in
    match eval (e_fault e) (_VELOCITY_CHECK_SCRIPT (e_srv e) (velocity_key api_key_id) window_start
                              now max_txns member ttl) r with
    | (Ok (allowed, current), r) =>
        if negb allowed then ((false, Some "Transaction velocity limit reached. ", None), r)
        else ((true, None, Some member), r)
    | (Err _, r) => (on_redis_error cfg, r)
    end.

(** [_rollback_member]: [ZREM], errors swallowed. *)
Definition _rollback_member (e : env) (key member : string) (r : redis) : redis :=
  snd (eval (e_fault e) (fun r => (tt, zrem r (e_srv e) key member)) r).

Record reservation := mkReservation {
  res_api_key_id : string;
  res_spend_member : option string;
  res_velocity_member : option string;
  res_amount_sats : Z
}.

(** [if member:] is false for [None] and for the empty string. *)
Definition truthy (m : option string) : bool :=
  match m with Some (String _ _) => true | _ => false end.

Definition check_payment_limits (cfg : settings) (e1 e2 e3 : env) (amount_sats : Z)
    (api_key_id : string) (r : redis) : (bool * option string * option reservation) * redis :=
  let '((allowed, error, spend_member), r) := check_spend_limit cfg e1 amount_sats api_key_id r in
  if negb allowed then ((false, error, None), r)
  else
    let '((allowed, error, velocity_member), r) := check_velocity_limit cfg e2 api_key_id r in
    if negb allowed then
      let r := match spend_member with
               | Some m => if truthy spend_member then _rollback_member e3 (spend_key api_key_id) m r else r
               | None => r
               end in
      ((false, error, None), r)
    else ((true, None, Some (mkReservation api_key_id spend_member velocity_member amount_sats)), r).

Definition reconcile_spend_limit (e : env) (res : option reservation) (actual_sats : Z) (r : redis)
    : option reservation * redis :=
  match res with
  | None => (res, r)
  | Some rv =>
      match res_spend_member rv with
      | Some old =>
          if truthy (Some old) then
            let new_member := spend_member_of (Z.max 0 actual_sats) (e_hex e) in
            match eval (e_fault e) (_RECONCILE_SPEND_SCRIPT (e_srv e) (spend_key (res_api_key_id rv))
                                      old new_member) r with
            | (Ok _, r) =>
                (Some (mkReservation (res_api_key_id rv) (Some new_member) (res_velocity_member rv)
                         (res_amount_sats rv)), r)
            | (Err _, r) => (res, r)
            end
          else (res, r)
      | None => (res, r)
      end
  end.

Definition rollback_payment_limits (e1 e2 : env) (res : option reservation) (r : redis) : redis :=
  match res with
  | None => r
  | Some rv =>
      let r := match res_spend_member rv with
               | Some m => if truthy (Some m)
                           then _rollback_member e1 (spend_key (res_api_key_id rv)) m r else r
               | None => r
               end in
      match res_velocity_member rv with
      | Some m => if truthy (Some m)
                  then _rollback_member e2 (velocity_key (res_api_key_id rv)) m r else r
      | None => r
      end
  end.

Definition _SIGN_WINDOW_SECONDS : Z := 3600.

(** [(allowed, error_message)]; fails closed whatever the policy. *)
Definition check_sign_rate_limit (e : env) (identity : string) (max_per_hour : Z) (r : redis)
    : (bool * option string) * redis :=
  if max_per_hour <=? 0 then ((true, None), r)
  else
    let now := e_now e in
    let window_start := now - _SIGN_WINDOW_SECONDS * TICKS in
    let member := stamp_member e in
    match eval (e_fault e) (_VELOCITY_CHECK_SCRIPT (e_srv e) (sign_key identity) window_start now
                              max_per_hour member ((_SIGN_WINDOW_SECONDS + 60) * TICKS)) r with
    | (Ok (allowed, current), r) =>
        if negb allowed then ((false, Some "Sign rate limit reached: "), r) else ((true, None), r)
    | (Err _, r) => ((false, Some "Rate limiting unavailable — sign operations temporarily blocked."), r)
    end.

(** ** Effects of the scripts *)

(** What is left of a set after stale entries are peeled off. *)
Definition purged (r : redis) (srv : Z) (k : string) (ws : Z) : gmap string Z :=
  filter (fun kv => ws < kv.2) (zmembers (zget r srv k)).

Lemma purged_lookup r srv k ws m t :
  purged r srv k ws !! m = Some t <-> zmembers (zget r srv k) !! m = Some t /\ ws < t.
Proof. unfold purged. rewrite map_lookup_filter_Some. done. Qed.

Lemma purge_view r srv k ws :
  zmembers (zget (zremrangebyscore r srv k ws) srv k) = purged r srv k ws.
Proof. unfold zremrangebyscore. apply zget_zput. apply zget_expire. Qed.

Lemma purge_ne r srv k k' ws : k <> k' -> zremrangebyscore r srv k ws !! k' = r !! k'.
Proof. apply zput_ne. Qed.

Lemma purge_at r srv k ws m t :
  purged r srv k ws !! m = Some t ->
  zremrangebyscore r srv k ws !! k = Some (mkZ (purged r srv k ws) (zexpire (zget r srv k))).
Proof. intros H. unfold zremrangebyscore. by eapply zput_members. Qed.

(** [ZADD] then [EXPIRE] after the purge. *)
Definition admitted (r : redis) (srv : Z) (k : string) (ws now : Z) (m : string) (ttl : Z) : redis :=
  expire (zadd (zremrangebyscore r srv k ws) srv k now m) srv k ttl.

Lemma insert_nonempty (m : string) (t : Z) (g : gmap string Z) : <[m := t]> g <> ∅.
Proof. apply insert_non_empty. Qed.

Lemma admitted_at r srv k ws now m ttl :
  admitted r srv k ws now m ttl !! k
  = Some (mkZ (<[m := now]> (purged r srv k ws)) (Some (srv + ttl))).
Proof.
  unfold admitted, expire, zadd.
  set (z := mkZ (<[m := now]> _) _).
  assert (Hz : zget (zput (zremrangebyscore r srv k ws) k z) srv k = z).
  { apply zget_zput; [|apply insert_nonempty]. apply zget_expire. }
  rewrite Hz. unfold z at 1 2. cbn [zmembers]. rewrite purge_view.
  eapply zput_members. cbn. apply lookup_insert_eq.
Qed.

Lemma admitted_ne r srv k k' ws now m ttl : k <> k' -> admitted r srv k ws now m ttl !! k' = r !! k'.
Proof. intros H. unfold admitted, expire, zadd. by rewrite !zput_ne, purge_ne. Qed.

Lemma spend_loop ms acc :
  foldl (fun total m => match leading_amount m with Some amt => total + amt | None => total end) acc ms
  = acc + lsum amount_of ms.
Proof.
  revert acc. induction ms as [|m ms IH]; intros acc; simpl; [lia|]. rewrite IH.
  unfold amount_of. destruct (leading_amount m); lia.
Qed.

Lemma spend_script_spec srv k ws now amount limit m ttl r :
  _SPEND_CHECK_SCRIPT srv k ws now amount limit m ttl r =
  let total := wsum amount_of (purged r srv k ws) in
  if limit <? total + amount then ((false, total), zremrangebyscore r srv k ws)
  else ((true, total + amount), admitted r srv k ws now m ttl).
Proof.
  unfold _SPEND_CHECK_SCRIPT. cbn zeta. rewrite spend_loop. unfold zrange_byscore.
  rewrite purge_view, map_filter_id.
  - rewrite <- wsum_list. done.
  - intros i x [_ Hx]%purged_lookup. simpl. lia.
Qed.

Lemma velocity_script_spec srv k ws now limit m ttl r :
  _VELOCITY_CHECK_SCRIPT srv k ws now limit m ttl r =
  let count := wsum (fun _ => 1) (purged r srv k ws) in
  if limit <? count + 1 then ((false, count), zremrangebyscore r srv k ws)
  else ((true, count + 1), admitted r srv k ws now m ttl).
Proof.
  unfold _VELOCITY_CHECK_SCRIPT, zcard. cbn zeta. rewrite purge_view, wsum_one.
  set (n := Z.of_nat _). destruct (Z.leb_spec limit n), (Z.ltb_spec limit (n + 1)); done || lia.
Qed.

(** ** Each script keeps the window of its own set and of every other *)

Section windows.
Context (w : string -> Z) (Ws limit : Z) (k : string).
Hypothesis w_nonneg : forall m, 0 <= w m.

Local Abbreviation W := (Ws * TICKS).
Local Abbreviation slack := (30 * TICKS).
Local Abbreviation inv := (window_inv w W slack limit k).

Lemma purge_retains r srv log now :
  retains W slack k r (zremrangebyscore r srv k (now - W)) srv log now.
Proof using Type.
  intros m t _ Ht Hv. eexists. split; [eapply purge_at, purged_lookup; eauto|].
  split; [by apply purged_lookup|]. by left.
Qed.

Lemma frame_inv r r' log now now' :
  r' !! k = r !! k -> now <= now' -> inv r log now -> inv r' log now'.
Proof using w_nonneg.
  intros Hk Hn Hi. split.
  - apply (wi_distinct _ _ _ _ _ _ _ _ Hi).
  - eapply Forall_impl; [apply (wi_past _ _ _ _ _ _ _ _ Hi)|]. simpl. lia.
  - intros m t Hin Ht. rewrite Hk. apply (wi_stored _ _ _ _ _ _ _ _ Hi); [done|lia].
  - apply (wi_bound _ _ _ _ _ _ _ _ Hi).
Qed.

Lemma purge_inv r srv log now now' :
  inv r log now -> now <= now' -> clock_ok slack now' srv ->
  inv (zremrangebyscore r srv k (now' - W)) log now'.
Proof using w_nonneg. intros Hi Hn Hc. eapply inv_retain_all; [done..|]. apply purge_retains. Qed.

Lemma admitted_retains r srv log now m :
  m ∉ map fst log ->
  retains W slack k r (admitted r srv k (now - W) now m ((Ws + 60) * TICKS)) srv log now.
Proof using Type.
  intros Hm m' t Hin Ht Hv. eexists. split; [apply admitted_at|]. cbn. split.
  - rewrite lookup_insert_ne; [by apply purged_lookup|].
    intros ->. apply Hm. by apply (list_elem_of_fmap_2 fst) in Hin.
  - right. intros e [= <-]. lia.
Qed.

Lemma admitted_inv r srv log now now' m :
  inv r log now -> now <= now' -> clock_ok slack now' srv -> m ∉ map fst log ->
  wsum w (purged r srv k (now' - W)) + w m <= limit ->
  inv (admitted r srv k (now' - W) now' m ((Ws + 60) * TICKS)) (log ++ [(m, now')]) now'.
Proof using w_nonneg.
  intros Hi Hn Hc Hm Hl. eapply inv_admit; [done..| |exact Hl|done|by apply admitted_retains|].
  - intros k' t Hv Ht. exists t. by apply purged_lookup.
  - eexists. split; [apply admitted_at|]. split; [apply lookup_insert_eq|]. cbn.
    intros e [= <-]. destruct Hc. lia.
Qed.

(** Admission without an entry in the log (a reply that was lost). *)
Lemma admitted_unlogged_inv r srv log now now' m :
  inv r log now -> now <= now' -> clock_ok slack now' srv -> m ∉ map fst log ->
  inv (admitted r srv k (now' - W) now' m ((Ws + 60) * TICKS)) log now'.
Proof using w_nonneg.
  intros Hi Hn Hc Hm. eapply inv_retain_all; [done..|]. by apply admitted_retains.
Qed.

Lemma zrem_inv r srv log now now' m :
  inv r log now -> now <= now' -> clock_ok slack now' srv ->
  inv (zrem r srv k m) (List.filter (fun e => negb (bool_decide (e.1 = m))) log) now'.
Proof using w_nonneg.
  intros Hi Hn Hc. eapply inv_retain; [done..|]. intros m' t Hin Ht Hv.
  apply list_elem_of_In, List.filter_In in Hin as [_ Hne]. cbn in Hne. bool_to_prop.
  eexists. split; [eapply (zput_members _ _ _ m' t)|split].
  - cbn. by rewrite lookup_delete_ne.
  - cbn. by rewrite lookup_delete_ne.
  - by left.
Qed.

(** Forgetting an entry of the log is always sound. *)
Lemma forget_inv f r log now now' :
  inv r log now -> now <= now' -> inv r (List.filter f log) now'.
Proof using w_nonneg.
  intros Hi Hn. split.
  - apply NoDup_map_filter, (wi_distinct _ _ _ _ _ _ _ _ Hi).
  - apply Forall_filter_intro. eapply Forall_impl; [apply (wi_past _ _ _ _ _ _ _ _ Hi)|]. simpl. lia.
  - intros m t Hin Ht. apply list_elem_of_In, List.filter_In in Hin as [Hin%list_elem_of_In _].
    apply (wi_stored _ _ _ _ _ _ _ _ Hi); [done|lia].
  - intros T. etrans; [by apply window_sum_filter_le|]. apply (wi_bound _ _ _ _ _ _ _ _ Hi).
Qed.

Lemma reconcile_inv r srv log now now' old new :
  inv r log now -> now <= now' -> clock_ok slack now' srv ->
  w new <= w old -> new ∉ map fst log ->
  inv (snd (_RECONCILE_SPEND_SCRIPT srv k old new r)) (rename old new log) now'.
Proof using Type.
  intros Hi Hn Hc Hw Hnew. eapply inv_rename; [done..|]. intros m t Hin Ht Hv.
  unfold _RECONCILE_SPEND_SCRIPT, zscore.
  assert (Hg : zmembers (zget (zrem r srv k old) srv k) = delete old (zmembers (zget r srv k))).
  { unfold zrem. apply zget_zput, zget_expire. }
  assert (Hx : zexpire (zget (zrem r srv k old) srv k) = zexpire (zget r srv k) \/
               zexpire (zget (zrem r srv k old) srv k) = None).
  { destruct (decide (zmembers (zget (zrem r srv k old) srv k) = ∅)) as [E|E].
    - right. rewrite Hg in E. unfold zget, zrem, zput. cbn [zmembers].
      rewrite decide_True by done. by rewrite lookup_delete_eq.
    - left. rewrite Hg in E. unfold zrem.
      destruct (zget_zput r srv k (mkZ (delete old (zmembers (zget r srv k))) (zexpire (zget r srv k))))
        as [_ He]; [apply zget_expire|]. by rewrite He. }
  assert (Hm : m <> new) by (intros ->; apply Hnew; by apply (list_elem_of_fmap_2 fst) in Hin).
  destruct (zmembers (zget r srv k) !! old) as [score|] eqn:Es; cbn [snd].
  - eexists. split; [eapply (zput_members _ _ _ new score), lookup_insert_eq|]. cbn. rewrite Hg.
    split; [|exact Hx]. destruct (decide (m = old)) as [->|Hmo].
    + rewrite lookup_insert_eq. congruence.
    + rewrite lookup_insert_ne, lookup_delete_ne by done. done.
  - destruct (decide (m = old)) as [->|_]; [congruence|].
    destruct (stored_view _ _ _ _ _ _ _ _ _ _ _ _ Hi Hn Hc Hin Ht) as [_ (z & Hz & Hzg)].
    exists z. rewrite <- Hzg. split; [by rewrite Hzg|]. auto.
Qed.
End windows.

(** ** Interleaved use

    Every API key has a spend and a velocity set. [rl_reach cfg r L now]:
    the store [r] and the log [L] (by Redis key) can arise from any
    sequence of round trips, in any interleaving, each succeeding or
    failing. The log keeps what was allowed: a rolled-back payment leaves
    it, a settled one keeps its time and takes its settled amount. *)

Abbreviation logs := (string -> wlog).

Definition upd (L : logs) (key : string) (f : wlog -> wlog) : logs :=
  fun k => if decide (k = key) then f (L k) else L k.

(** An allowed check adds its entry. *)
Definition record_entry (v : verdict) (key : string) (e : env) (L : logs) : logs :=
  match v with
  | (true, _, m) => upd L key (fun l => l ++ [(default EmptyString m, e_now e)])
  | _ => L
  end.

Definition drop_member (m : string) (l : wlog) : wlog :=
  List.filter (fun e => negb (bool_decide (e.1 = m))) l.

Definition executed (f : fault) : bool := match f with FailBefore => false | _ => true end.

(** The clock of a call: not before the last one, and within 30 s of the
    server's. *)
Definition tick (now : Z) (e : env) : Prop :=
  now <= e_now e /\ clock_ok (30 * TICKS) (e_now e) (e_srv e).

Inductive rl_reach (cfg : settings) : redis -> logs -> Z -> Prop :=
  | rl_start r now : rl_reach cfg r (fun _ => []) now
  | rl_spend r L now e amount api v r' :
      rl_reach cfg r L now -> tick now e -> 0 <= amount ->
      spend_member_of amount (e_hex e) ∉ map fst (L (spend_key api)) ->
      check_spend_limit cfg e amount api r = (v, r') ->
      rl_reach cfg r' (record_entry v (spend_key api) e L) (e_now e)
  | rl_velocity r L now e api v r' :
      rl_reach cfg r L now -> tick now e -> stamp_member e ∉ map fst (L (velocity_key api)) ->
      check_velocity_limit cfg e api r = (v, r') ->
      rl_reach cfg r' (record_entry v (velocity_key api) e L) (e_now e)
  | rl_rollback r L now e key m :
      rl_reach cfg r L now -> tick now e ->
      rl_reach cfg (_rollback_member e key m r) (upd L key (drop_member m)) (e_now e)
  | rl_reconcile r L now e api old reserved vm amt actual res' r' :
      rl_reach cfg r L now -> tick now e -> truthy (Some old) = true ->
      leading_amount old = Some reserved -> actual <= reserved ->
      spend_member_of (Z.max 0 actual) (e_hex e) ∉ map fst (L (spend_key api)) ->
      reconcile_spend_limit e (Some (mkReservation api (Some old) vm amt)) actual r = (res', r') ->
      rl_reach cfg r'
        (if executed (e_fault e)
         then upd L (spend_key api) (rename old (spend_member_of (Z.max 0 actual) (e_hex e))) else L)
        (e_now e).

Definition spend_inv (cfg : settings) (api : string) (r : redis) (l : wlog) (now : Z) : Prop :=
  window_inv amount_of (lnd_rate_limit_window_seconds cfg * TICKS) (30 * TICKS)
    (lnd_rate_limit_sats cfg) (spend_key api) r l now.

Definition velocity_inv (cfg : settings) (api : string) (r : redis) (l : wlog) (now : Z) : Prop :=
  window_inv (fun _ => 1) (lnd_velocity_window_seconds cfg * TICKS) (30 * TICKS)
    (lnd_velocity_max_txns cfg) (velocity_key api) r l now.

Lemma read_digits_nonneg s : forall acc c n k s', 0 <= acc -> read_digits acc c s = (n, k, s') -> 0 <= n.
Proof.
  induction s as [|ch s IH]; intros acc c n k s' Ha H; cbn in H; [by injection H as <- <- <-|].
  destruct (is_digit ch) eqn:E; [|by injection H as <- <- <-].
  apply IH in H; [done|]. unfold is_digit in E. apply andb_prop in E as [E%N.leb_le _].
  unfold digit_val. lia.
Qed.

Lemma amount_of_nonneg m : 0 <= amount_of m.
Proof.
  unfold amount_of, leading_amount. destruct (read_digits 0 0 m) as [[n k] s] eqn:E.
  apply read_digits_nonneg in E; [|lia]. repeat case_match; simplify_eq; lia.
Qed.

Lemma amount_of_member n h : 0 <= n -> amount_of (spend_member_of n h) = n.
Proof. intros Hn. unfold amount_of, spend_member_of. by rewrite leading_amount_str. Qed.

Lemma spend_velocity_keys a b : spend_key a <> velocity_key b.
Proof. unfold spend_key, velocity_key. cbn. discriminate. Qed.

Lemma spend_key_inj a b : spend_key a = spend_key b -> a = b.
Proof. apply (inj (String.append _)). Qed.

Lemma velocity_key_inj a b : velocity_key a = velocity_key b -> a = b.
Proof. apply (inj (String.append _)). Qed.

Lemma upd_eq L k f : upd L k f k = f (L k).
Proof. unfold upd. by rewrite decide_True. Qed.

Lemma upd_ne L k k' f : k' <> k -> upd L k f k' = L k'.
Proof. intros H. unfold upd. by rewrite decide_False. Qed.

Lemma record_ne v k k' e L : k' <> k -> record_entry v k e L k' = L k'.
Proof. intros H. destruct v as [[[] err] m]; simpl; [by apply upd_ne|done]. Qed.

(** *** What a round trip does to its own set and to the others *)

(** The branches of a guarded check on the set [key]: what it answers and
    what it leaves. *)
Lemma spend_check_cases cfg e amount api r v r' :
  0 < lnd_rate_limit_sats cfg -> rate_limit_fail_policy cfg <> "open"%string ->
  check_spend_limit cfg e amount api r = (v, r') ->
  let k := spend_key api in
  let ws := e_now e - lnd_rate_limit_window_seconds cfg * TICKS in
  let total := wsum amount_of (purged r (e_srv e) k ws) in
  let m := spend_member_of amount (e_hex e) in
  let ttl := (lnd_rate_limit_window_seconds cfg + 60) * TICKS in
  (v = (true, None, Some m) /\ e_fault e = NoFault /\ total + amount <= lnd_rate_limit_sats cfg /\
     r' = admitted r (e_srv e) k ws (e_now e) m ttl) \/
  (v.1.1 = false /\ v.2 = None /\
     (r' = r \/ r' = zremrangebyscore r (e_srv e) k ws \/
      (e_fault e = FailAfter /\ r' = admitted r (e_srv e) k ws (e_now e) m ttl))).
Proof.
  intros Hl Hp H k ws total m ttl. unfold check_spend_limit in H.
  rewrite (proj2 (Z.leb_gt _ _)) in H by lia. cbn zeta in H.
  assert (Hop : on_redis_error cfg = (false, Some UNAVAILABLE, None)).
  { unfold on_redis_error. by rewrite (proj2 (String.eqb_neq _ _) Hp). }
  unfold eval in H. destruct (e_fault e); rewrite ?spend_script_spec in H; cbn zeta in H;
    fold k ws m ttl total in H; rewrite ?Hop in H.
  - destruct (Z.ltb_spec (lnd_rate_limit_sats cfg) (total + amount)); cbn in H; injection H as <- <-.
    + right. auto.
    + left. auto.
  - injection H as <- <-. right. auto.
  - destruct (Z.ltb_spec (lnd_rate_limit_sats cfg) (total + amount)); cbn in H; injection H as <- <-;
      right; eauto 10.
Qed.

Lemma velocity_check_cases cfg e api r v r' :
  0 < lnd_velocity_max_txns cfg -> rate_limit_fail_policy cfg <> "open"%string ->
  check_velocity_limit cfg e api r = (v, r') ->
  let k := velocity_key api in
  let ws := e_now e - lnd_velocity_window_seconds cfg * TICKS in
  let count := wsum (fun _ => 1) (purged r (e_srv e) k ws) in
  let m := stamp_member e in
  let ttl := (lnd_velocity_window_seconds cfg + 60) * TICKS in
  (v = (true, None, Some m) /\ e_fault e = NoFault /\ count + 1 <= lnd_velocity_max_txns cfg /\
     r' = admitted r (e_srv e) k ws (e_now e) m ttl) \/
  (v.1.1 = false /\ v.2 = None /\
     (r' = r \/ r' = zremrangebyscore r (e_srv e) k ws \/
      (e_fault e = FailAfter /\ r' = admitted r (e_srv e) k ws (e_now e) m ttl))).
Proof.
  intros Hl Hp H k ws count m ttl. unfold check_velocity_limit in H.
  rewrite (proj2 (Z.leb_gt _ _)) in H by lia. cbn zeta in H.
  assert (Hop : on_redis_error cfg = (false, Some UNAVAILABLE, None)).
  { unfold on_redis_error. by rewrite (proj2 (String.eqb_neq _ _) Hp). }
  unfold eval in H. destruct (e_fault e); rewrite ?velocity_script_spec in H; cbn zeta in H;
    fold k ws m ttl count in H; rewrite ?Hop in H.
  - destruct (Z.ltb_spec (lnd_velocity_max_txns cfg) (count + 1)); cbn in H; injection H as <- <-.
    + right. auto.
    + left. auto.
  - injection H as <- <-. right. auto.
  - destruct (Z.ltb_spec (lnd_velocity_max_txns cfg) (count + 1)); cbn in H; injection H as <- <-;
      right; eauto 10.
Qed.

(** A set other than the one a check writes. *)
Lemma untouched r r' srv k k' ws now m ttl :
  k' <> k ->
  r' = r \/ r' = zremrangebyscore r srv k ws \/ r' = admitted r srv k ws now m ttl ->
  r' !! k' = r !! k'.
Proof. intros Hk [->|[->| ->]]; [done|by apply purge_ne|by apply admitted_ne]. Qed.

(** A check keeps the invariant of its own set... *)
Lemma spend_own cfg e amount api r v r' L now :
  0 < lnd_rate_limit_sats cfg -> rate_limit_fail_policy cfg <> "open"%string ->
  check_spend_limit cfg e amount api r = (v, r') -> tick now e -> 0 <= amount ->
  spend_member_of amount (e_hex e) ∉ map fst (L (spend_key api)) ->
  spend_inv cfg api r (L (spend_key api)) now ->
  spend_inv cfg api r' (record_entry v (spend_key api) e L (spend_key api)) (e_now e).
Proof.
  intros Hl Hp H [Hn Hc] Ha Hm Hi. unfold spend_inv in *. pose proof amount_of_nonneg as Hw.
  destruct (spend_check_cases _ _ _ _ _ _ _ Hl Hp H) as [(-> & _ & Ht & ->)|(Hv & _ & Hr)].
  - cbn [record_entry]. rewrite upd_eq. apply (admitted_inv amount_of) with (now := now); try done.
    cbn. by rewrite amount_of_member.
  - destruct v as [[[] err] m]; [done|]. cbn [record_entry].
    destruct Hr as [->|[->|[_ ->]]].
    + by apply (frame_inv amount_of) with (r := r) (now := now).
    + by apply (purge_inv amount_of) with (now := now).
    + by apply (admitted_unlogged_inv amount_of) with (now := now).
Qed.

Lemma velocity_own cfg e api r v r' L now :
  0 < lnd_velocity_max_txns cfg -> rate_limit_fail_policy cfg <> "open"%string ->
  check_velocity_limit cfg e api r = (v, r') -> tick now e ->
  stamp_member e ∉ map fst (L (velocity_key api)) ->
  velocity_inv cfg api r (L (velocity_key api)) now ->
  velocity_inv cfg api r' (record_entry v (velocity_key api) e L (velocity_key api)) (e_now e).
Proof.
  intros Hl Hp H [Hn Hc] Hm Hi. unfold velocity_inv in *.
  assert (Hw : forall m : string, 0 <= (fun _ : string => 1) m) by (intros; cbn; lia).
  destruct (velocity_check_cases _ _ _ _ _ _ Hl Hp H) as [(-> & _ & Ht & ->)|(Hv & _ & Hr)].
  - cbn [record_entry]. rewrite upd_eq. by apply (admitted_inv _ _ _ _ Hw) with (now := now).
  - destruct v as [[[] err] m]; [done|]. cbn [record_entry].
    destruct Hr as [->|[->|[_ ->]]].
    + by apply (frame_inv _ _ _ _ Hw) with (r := r) (now := now).
    + by apply (purge_inv _ _ _ _ Hw) with (now := now).
    + by apply (admitted_unlogged_inv _ _ _ _ Hw) with (now := now).
Qed.

(** ...and does not touch the others. *)
Lemma spend_others cfg e amount api r v r' k :
  0 < lnd_rate_limit_sats cfg -> rate_limit_fail_policy cfg <> "open"%string ->
  check_spend_limit cfg e amount api r = (v, r') -> k <> spend_key api -> r' !! k = r !! k.
Proof.
  intros Hl Hp H Hk.
  destruct (spend_check_cases _ _ _ _ _ _ _ Hl Hp H) as [(_ & _ & _ & ->)|(_ & _ & [->|[->|[_ ->]]])];
    [by apply admitted_ne|done|by apply purge_ne|by apply admitted_ne].
Qed.

Lemma velocity_others cfg e api r v r' k :
  0 < lnd_velocity_max_txns cfg -> rate_limit_fail_policy cfg <> "open"%string ->
  check_velocity_limit cfg e api r = (v, r') -> k <> velocity_key api -> r' !! k = r !! k.
Proof.
  intros Hl Hp H Hk.
  destruct (velocity_check_cases _ _ _ _ _ _ Hl Hp H) as [(_ & _ & _ & ->)|(_ & _ & [->|[->|[_ ->]]])];
    [by apply admitted_ne|done|by apply purge_ne|by apply admitted_ne].
Qed.

Lemma rollback_inv w Ws limit e key k m r L now :
  (forall m, 0 <= w m) -> tick now e ->
  window_inv w (Ws * TICKS) (30 * TICKS) limit k r (L k) now ->
  window_inv w (Ws * TICKS) (30 * TICKS) limit k
    (_rollback_member e key m r) (upd L key (drop_member m) k) (e_now e).
Proof.
  intros Hw [Hn Hc] Hi. unfold _rollback_member, eval.
  destruct (decide (k = key)) as [->|Hk].
  - rewrite upd_eq. destruct (e_fault e); cbn [snd].
    + by apply (zrem_inv w) with (now := now).
    + by apply (forget_inv w) with (now := now).
    + by apply (zrem_inv w) with (now := now).
  - rewrite upd_ne by done. apply (frame_inv w) with (r := r) (now := now); try done.
    destruct (e_fault e); cbn [snd]; [by apply zput_ne|done|by apply zput_ne].
Qed.

(** The store after a reconciliation. *)
Lemma reconcile_store e api old vm amt actual r res' r' :
  truthy (Some old) = true ->
  reconcile_spend_limit e (Some (mkReservation api (Some old) vm amt)) actual r = (res', r') ->
  r' = if executed (e_fault e)
       then snd (_RECONCILE_SPEND_SCRIPT (e_srv e) (spend_key api) old
                   (spend_member_of (Z.max 0 actual) (e_hex e)) r) else r.
Proof.
  intros Ht H. unfold reconcile_spend_limit in H. cbn [res_spend_member res_api_key_id] in H.
  rewrite Ht in H. unfold eval in H. destruct (e_fault e); cbn [executed].
  - destruct (_RECONCILE_SPEND_SCRIPT _ _ _ _ r); by injection H as <- <-.
  - by injection H as <- <-.
  - by injection H as <- <-.
Qed.

Lemma reconcile_ne srv k k' old new r :
  k' <> k -> snd (_RECONCILE_SPEND_SCRIPT srv k old new r) !! k' = r !! k'.
Proof.
  intros Hk. unfold _RECONCILE_SPEND_SCRIPT. destruct (zscore r srv k old); cbn [snd]; [|done].
  unfold zadd. rewrite zput_ne by done. unfold zrem. by rewrite zput_ne.
Qed.

Lemma rl_inv cfg r L now :
  0 < lnd_rate_limit_sats cfg -> 0 < lnd_velocity_max_txns cfg ->
  rate_limit_fail_policy cfg <> "open"%string -> rl_reach cfg r L now ->
  forall api, spend_inv cfg api r (L (spend_key api)) now /\
              velocity_inv cfg api r (L (velocity_key api)) now.
Proof.
  intros Hs Hv Hp Hr. pose proof amount_of_nonneg as Hw.
  assert (Hw1 : forall m : string, 0 <= (fun _ : string => 1) m) by (intros; cbn; lia).
  induction Hr as [r now|r L now e amount api' v r' _ IH Ht Ha Hm Hc|r L now e api' v r' _ IH Ht Hm Hc
                  |r L now e key m _ IH Ht|r L now e api' old reserved vm amt actual res' r' _ IH Ht Htr Hold Hact Hm Hc];
    intros api; try (specialize (IH api); destruct IH as [IHs IHv]).
  - split; apply window_inv_empty; lia.
  - split.
    + destruct (decide (api = api')) as [->|Hne]; [by eapply spend_own|].
      assert (Hk : spend_key api <> spend_key api') by (intros ?%spend_key_inj; done).
      rewrite record_ne by done. apply (frame_inv _ _ _ _ Hw) with (r := r) (now := now); [|apply Ht|done].
      by eapply spend_others.
    + pose proof (spend_velocity_keys api' api) as Hk. apply not_eq_sym in Hk. rewrite record_ne by done.
      apply (frame_inv _ _ _ _ Hw1) with (r := r) (now := now); [|apply Ht|done].
      by eapply spend_others.
  - split.
    + pose proof (spend_velocity_keys api api') as Hk. rewrite record_ne by done.
      apply (frame_inv _ _ _ _ Hw) with (r := r) (now := now); [|apply Ht|done].
      by eapply velocity_others.
    + destruct (decide (api = api')) as [->|Hne]; [by eapply velocity_own|].
      assert (Hk : velocity_key api <> velocity_key api') by (intros ?%velocity_key_inj; done).
      rewrite record_ne by done. apply (frame_inv _ _ _ _ Hw1) with (r := r) (now := now); [|apply Ht|done].
      by eapply velocity_others.
  - split; by apply (rollback_inv _ _ _ _ _ _ _ _ _ now).
  - apply reconcile_store in Hc as ->; [|done]. split.
    + destruct (decide (api = api')) as [->|Hne].
      * destruct (executed (e_fault e)).
        -- rewrite upd_eq. destruct Ht as [Hn Hck].
           apply reconcile_inv with (now := now); try done.
           rewrite amount_of_member by lia. unfold amount_of. rewrite Hold.
           pose proof (Hw old) as Hp0. unfold amount_of in Hp0. rewrite Hold in Hp0. lia.
        -- by apply (frame_inv _ _ _ _ Hw) with (r := r) (now := now); [|apply Ht|].
      * assert (Hk : spend_key api <> spend_key api') by (intros ?%spend_key_inj; done).
        destruct (executed (e_fault e)); rewrite ?upd_ne by done;
          (apply (frame_inv _ _ _ _ Hw) with (r := r) (now := now); [|apply Ht|done]); [|done].
        by apply reconcile_ne.
    + pose proof (spend_velocity_keys api' api) as Hk. apply not_eq_sym in Hk.
      destruct (executed (e_fault e)); rewrite ?upd_ne by done;
        (apply (frame_inv _ _ _ _ Hw1) with (r := r) (now := now); [|apply Ht|done]); [|done].
      by apply reconcile_ne.
Qed.

(** *** Payments that do not happen *)

(** The members stored under a key, whatever the server's clock. *)
Definition members_at (r : redis) (k : string) : gmap string Z :=
  match r !! k with Some z => zmembers z | None => ∅ end.

Lemma members_at_purge r srv k ws :
  members_at (zremrangebyscore r srv k ws) k = purged r srv k ws.
Proof.
  unfold members_at, zremrangebyscore, zput. cbn [zmembers]. fold (purged r srv k ws).
  destruct (decide (purged r srv k ws = ∅)) as [E|]; [by rewrite lookup_delete_eq|by rewrite lookup_insert_eq].
Qed.

(** Removing the member just admitted leaves what was there before. *)
Lemma zrem_admitted r srv srv' k ws now m ttl :
  srv' < srv + ttl -> purged r srv k ws !! m = None ->
  members_at (zrem (admitted r srv k ws now m ttl) srv' k m) k = purged r srv k ws.
Proof.
  intros Hs Hm.
  assert (Hg : zget (admitted r srv k ws now m ttl) srv' k
               = mkZ (<[m := now]> (purged r srv k ws)) (Some (srv + ttl))).
  { unfold zget. rewrite admitted_at. cbn [zexpire]. by rewrite (proj2 (Z.leb_gt _ _)). }
  unfold zrem. rewrite Hg. cbn [zmembers zexpire]. rewrite delete_insert_id by done.
  unfold members_at, zput. cbn [zmembers].
  destruct (decide (purged r srv k ws = ∅)) as [E|]; [by rewrite lookup_delete_eq|by rewrite lookup_insert_eq].
Qed.

Lemma members_at_ne r r' k : r' !! k = r !! k -> members_at r' k = members_at r k.
Proof. unfold members_at. by intros ->. Qed.

Lemma purged_ne r r' srv k ws : r' !! k = r !! k -> purged r' srv k ws = purged r srv k ws.
Proof. intros H. unfold purged. by rewrite (zget_ne r r'). Qed.

Lemma truthy_spend n h : truthy (Some (spend_member_of n h)) = true.
Proof.
  unfold spend_member_of. destruct (str_of_int n); done.
Qed.

Lemma truthy_stamp e : truthy (Some (stamp_member e)) = true.
Proof. apply truthy_spend. Qed.

Lemma rollback_ok e k m r : e_fault e = NoFault -> _rollback_member e k m r = zrem r (e_srv e) k m.
Proof. unfold _rollback_member, eval. by intros ->. Qed.

(** [ZREM] depends on its own key only. *)
Lemma zrem_local r r' srv k m :
  r' !! k = r !! k -> members_at (zrem r' srv k m) k = members_at (zrem r srv k m) k.
Proof.
  intros H. unfold members_at, zrem. rewrite (zget_ne r r') by done. unfold zput.
  destruct (decide _); by rewrite ?lookup_delete_eq, ?lookup_insert_eq.
Qed.

(** The answers of [check_spend_limit] without a fault. *)
Lemma spend_check_ok cfg e amount api r :
  0 < lnd_rate_limit_sats cfg -> e_fault e = NoFault ->
  let k := spend_key api in
  let ws := e_now e - lnd_rate_limit_window_seconds cfg * TICKS in
  let m := spend_member_of amount (e_hex e) in
  let total := wsum amount_of (purged r (e_srv e) k ws) in
  check_spend_limit cfg e amount api r =
  if lnd_rate_limit_sats cfg <? total + amount
  then ((false, Some "Cumulative spend limit reached. ", None), zremrangebyscore r (e_srv e) k ws)
  else ((true, None, Some m),
        admitted r (e_srv e) k ws (e_now e) m ((lnd_rate_limit_window_seconds cfg + 60) * TICKS)).
Proof.
  intros Hl Hf. unfold check_spend_limit. rewrite (proj2 (Z.leb_gt _ _)) by lia.
  unfold eval. rewrite Hf, spend_script_spec. cbn zeta. by destruct (_ <? _).
Qed.

Lemma velocity_check_ok cfg e api r :
  0 < lnd_velocity_max_txns cfg -> e_fault e = NoFault ->
  let k := velocity_key api in
  let ws := e_now e - lnd_velocity_window_seconds cfg * TICKS in
  let count := wsum (fun _ => 1) (purged r (e_srv e) k ws) in
  check_velocity_limit cfg e api r =
  if lnd_velocity_max_txns cfg <? count + 1
  then ((false, Some "Transaction velocity limit reached. ", None), zremrangebyscore r (e_srv e) k ws)
  else ((true, None, Some (stamp_member e)),
        admitted r (e_srv e) k ws (e_now e) (stamp_member e)
          ((lnd_velocity_window_seconds cfg + 60) * TICKS)).
Proof.
  intros Hl Hf. unfold check_velocity_limit. rewrite (proj2 (Z.leb_gt _ _)) by lia.
  unfold eval. rewrite Hf, velocity_script_spec. cbn zeta. by destruct (_ <? _).
Qed.

(** ** Properties *)

(** C30. Over any interleaving of checks, rollbacks and reconciliations (to
    no more than was reserved) by any number of API keys, with Redis calls
    failing at will under the default fail-closed policy, and for clocks
    within 30 s of each other: in every window of the configured length,
    ending at any time, the amounts allowed to one API key and not rolled
    back sum to at most [lnd_rate_limit_sats], and at most
    [lnd_velocity_max_txns] transactions were allowed. *)
Theorem payment_window_bound cfg r L now :
  0 < lnd_rate_limit_sats cfg -> 0 < lnd_velocity_max_txns cfg ->
  rate_limit_fail_policy cfg <> "open"%string -> rl_reach cfg r L now ->
  forall api T,
    window_sum amount_of (lnd_rate_limit_window_seconds cfg * TICKS) T (L (spend_key api))
      <= lnd_rate_limit_sats cfg /\
    Z.of_nat (length (List.filter (in_window (lnd_velocity_window_seconds cfg * TICKS) T)
      (L (velocity_key api)))) <= lnd_velocity_max_txns cfg.
Proof.
  intros Hs Hv Hp Hr api T. destruct (rl_inv _ _ _ _ Hs Hv Hp Hr api) as [[_ _ _ Hb1] [_ _ _ Hb2]].
  split; [apply Hb1|]. specialize (Hb2 T). unfold window_sum in Hb2.
  by rewrite lsum_one, length_map in Hb2.
Qed.

(** A payment that does not happen is not charged: when
    [check_payment_limits] refuses, and when an allowed payment is rolled
    back, the API key's spend set is what was left in the window before, and
    no velocity entry was added. *)
Theorem unpaid_not_charged cfg e1 e2 e3 e4 amount api r ok err res r' :
  0 < lnd_rate_limit_sats cfg -> 0 < lnd_velocity_max_txns cfg ->
  e_fault e1 = NoFault -> e_fault e2 = NoFault -> e_fault e3 = NoFault -> e_fault e4 = NoFault ->
  e_srv e3 < e_srv e1 + (lnd_rate_limit_window_seconds cfg + 60) * TICKS ->
  e_srv e4 < e_srv e2 + (lnd_velocity_window_seconds cfg + 60) * TICKS ->
  members_at r (spend_key api) !! spend_member_of amount (e_hex e1) = None ->
  members_at r (velocity_key api) !! stamp_member e2 = None ->
  check_payment_limits cfg e1 e2 e3 amount api r = ((ok, err, res), r') ->
  let r'' := if ok then rollback_payment_limits e3 e4 res r' else r' in
  members_at r'' (spend_key api) =
    purged r (e_srv e1) (spend_key api) (e_now e1 - lnd_rate_limit_window_seconds cfg * TICKS) /\
  members_at r'' (velocity_key api) ⊆ members_at r (velocity_key api).
Proof.
  intros Hl Hv H1 H2 H3 H4 Hs3 Hs4 Hm1 Hm2 Hc r''.
  assert (Hsub : forall r srv k ws, purged r srv k ws ⊆ members_at r k).
  { intros r0 srv k ws. etrans; [apply map_filter_subseteq|]. unfold zget, members_at.
    repeat case_match; simpl; first [apply map_empty_subseteq|done]. }
  assert (Hpn : forall r srv k ws m, members_at r k !! m = None -> purged r srv k ws !! m = None).
  { intros. eapply lookup_weaken_None; [done|apply Hsub]. }
  pose proof (spend_velocity_keys api api) as Hk. pose proof (not_eq_sym Hk) as Hk'.
  unfold check_payment_limits in Hc. rewrite (spend_check_ok _ _ _ _ _ Hl H1) in Hc. cbn zeta in Hc.
  set (ws := e_now e1 - lnd_rate_limit_window_seconds cfg * TICKS) in *.
  destruct (_ <? _) in Hc; cbn [negb] in Hc.
  { injection Hc as <- <- <- <-. subst r''. split; [apply members_at_purge|].
    by rewrite (members_at_ne r) by by apply purge_ne. }
  rewrite (velocity_check_ok _ _ _ _ Hv H2) in Hc. cbn zeta in Hc.
  set (r1 := admitted r _ _ _ _ _ _) in Hc.
  assert (Hr1 : r1 !! velocity_key api = r !! velocity_key api) by by apply admitted_ne.
  destruct (_ <? _) in Hc; cbn [negb] in Hc.
  - rewrite truthy_spend, rollback_ok in Hc by done. injection Hc as <- <- <- <-. subst r''. split.
    + rewrite (zrem_local r1) by by apply purge_ne. apply zrem_admitted; [done|]. by apply Hpn.
    + rewrite (members_at_ne (zremrangebyscore r1 (e_srv e2) (velocity_key api) _)) by by apply zput_ne.
      rewrite members_at_purge, (purged_ne r) by done. apply Hsub.
  - injection Hc as <- <- <- <-. subst r''. unfold rollback_payment_limits.
    cbn [res_spend_member res_velocity_member res_api_key_id].
    rewrite truthy_spend, truthy_stamp, !rollback_ok by done.
    set (r2 := admitted r1 _ _ _ _ _ _).
    assert (Hr2 : r2 !! spend_key api = r1 !! spend_key api) by by apply admitted_ne.
    split.
    + rewrite (members_at_ne (zrem r2 (e_srv e3) (spend_key api) (spend_member_of amount (e_hex e1))))
        by by apply zput_ne.
      rewrite (zrem_local r1) by done. apply zrem_admitted; [done|]. by apply Hpn.
    + rewrite (zrem_local r2) by by apply zput_ne. unfold r2.
      rewrite zrem_admitted, (purged_ne r) by (rewrite ?(purged_ne r) by done; auto). apply Hsub.
Qed.

(** ** Witnesses *)

Definition example_cfg : settings := mkSettings 100000 3600 5 600 "closed" 10 20 30 60.
Definition at_second (s : Z) (hex : string) : env := mkEnv (s * TICKS) (s * TICKS) hex NoFault.

Lemma payment_window_bound_witness :
  let out := check_spend_limit example_cfg (at_second 1000 "aa") 60000 "key" ∅ in
  window_sum amount_of (3600 * TICKS) (1000 * TICKS)
    (record_entry out.1 (spend_key "key") (at_second 1000 "aa") (fun _ => []) (spend_key "key"))
    <= 100000.
Proof.
  cbv zeta. refine (proj1 (payment_window_bound example_cfg _ _ (1000 * TICKS) _ _ _ _ "key" (1000 * TICKS)));
    [reflexivity|reflexivity|discriminate|].
  apply (rl_spend example_cfg ∅ (fun _ => []) 0 (at_second 1000 "aa") 60000 "key").
  - apply rl_start.
  - split; [|split]; vm_compute; congruence.
  - lia.
  - apply not_elem_of_nil.
  - apply surjective_pairing.
Defined.

(** A payment of 150,000 against a limit of 100,000. *)
Lemma unpaid_not_charged_witness :
  match check_payment_limits example_cfg (at_second 1001 "bb") (at_second 1001 "cc") (at_second 1002 "dd")
          150000 "key" ∅ with
  | ((ok, _, res), r') =>
      let r'' := if ok then rollback_payment_limits (at_second 1002 "dd") (at_second 1003 "ee") res r' else r' in
      members_at r'' (spend_key "key") =
        purged ∅ (1001 * TICKS) (spend_key "key") (1001 * TICKS - 3600 * TICKS) /\
      members_at r'' (velocity_key "key") ⊆ members_at ∅ (velocity_key "key")
  end.
Proof.
  destruct (check_payment_limits _ _ _ _ _ _ _) as [[[ok err] res] r'] eqn:E.
  apply (unpaid_not_charged example_cfg (at_second 1001 "bb") (at_second 1001 "cc") (at_second 1002 "dd")
    (at_second 1003 "ee") 150000 "key" ∅ ok err res r'); try reflexivity. exact E.
Defined.
