(* ===== verification/InboundRate.v ===== *)
(** * Inbound invoice-request limits (app/services/bolt12/inbound_rate_limit.py)

    One script admits a request against a per-peer, a per-offer and a
    global set. The bounds hold for every sender behaviour: peers choose
    their keys freely. *)
From S2P Require Import Prelude PyInt Redis Window RateLimit.

Definition _GLOBAL_KEY : string := "lwa:bolt12:inbound:_global_".
Definition _OFFERLESS_OFFER_KEY : string := "_offerless_".

Inductive cap := per_peer | per_offer | global.

Definition cap_str (c : cap) : string :=
  match c with per_peer => "per_peer" | per_offer => "per_offer" | global => "global" end.

(** [None]: allowed; [Some c]: denied by cap [c]. *)
Definition _THREE_TIER_SCRIPT (srv : Z) (peer_key offer_key global_key : string)
    (window_start now peer_max offer_max global_max : Z) (member : string) (ttl : Z) (r : redis)
    : option cap * redis :=
  let r := zremrangebyscore r srv peer_key window_start in
  let r := zremrangebyscore r srv offer_key window_start in
  let r := zremrangebyscore r srv global_key window_start in
  let peer_count := zcard r srv peer_key in
  let offer_count := zcard r srv offer_key in
  let global_count := zcard r srv global_key in
  if (0 <? peer_max) && (peer_max <=? peer_count) then (Some per_peer, r)
  else if (0 <? offer_max) && (offer_max <=? offer_count) then (Some per_offer, r)
  else if (0 <? global_max) && (global_max <=? global_count) then (Some global, r)
  else
    let r := zadd r srv peer_key now member in
    let r := zadd r srv offer_key now member in
    let r := zadd r srv global_key now member in
    let r := expire r srv peer_key ttl in
    let r := expire r srv offer_key ttl in
    let r := expire r srv global_key ttl in
    (None, r).

Definition per_peer_key (peer_key : string) : string := String.append "lwa:bolt12:inbound:" peer_key.

(** [offer_key or _OFFERLESS_OFFER_KEY] *)
Definition per_offer_key (offer_key : option string) : string :=
  String.append "lwa:bolt12:inbound:offer:"
    (match offer_key with Some (String c s) => String c s | _ => _OFFERLESS_OFFER_KEY end).

(** [(allowed, reason, cap)] *)
Definition check_inbound_invreq_rate (cfg : settings) (e : env) (peer_key : string)
    (offer_key : option string) (r : redis) : verdict * redis :=
  let peer_limit := bolt12_inbound_rate_limit_count cfg in
  let offer_limit := bolt12_inbound_rate_limit_per_offer_count cfg in
  let global_limit := bolt12_inbound_rate_limit_global_count cfg in
  if (peer_limit <=? 0) && (offer_limit <=? 0) && (global_limit <=? 0) then ((true, None, None), r)
  else
    let now := e_now e in
    let window := bolt12_inbound_rate_limit_window_seconds cfg in
    let window_start := now - window * TICKS in
    let member := stamp_member e in
    let ttl := (window + 60) * TICKS in
    match eval (e_fault e) (_THREE_TIER_SCRIPT (e_srv e) (per_peer_key peer_key)
                              (per_offer_key offer_key) _GLOBAL_KEY window_start now
                              peer_limit offer_limit global_limit member ttl) r with
    | (Ok None, r) => ((true, None, None), r)
    | (Ok (Some c), r) =>
        ((false, Some "BOLT 12 inbound rate limit hit (", Some (cap_str c)), r)
    | (Err _, r) =>
        if String.eqb (rate_limit_fail_policy cfg) "open" then ((true, None, None), r)
        else ((false, Some "rate-limit backend unavailable", Some "backend"), r)
    end.

(** ** Effects *)

(** The operations depend on, and change, their own key only. *)
Lemma zput_local r r' k z : r' !! k = r !! k -> zput r' k z !! k = zput r k z !! k.
Proof.
  intros H. unfold zput. destruct (decide _); by rewrite ?lookup_delete_eq, ?lookup_insert_eq.
Qed.

Lemma purge_local r r' srv k ws :
  r' !! k = r !! k -> zremrangebyscore r' srv k ws !! k = zremrangebyscore r srv k ws !! k.
Proof. intros H. unfold zremrangebyscore. rewrite (zget_ne r r') by done. by apply zput_local. Qed.

Lemma zadd_local r r' srv k t m : r' !! k = r !! k -> zadd r' srv k t m !! k = zadd r srv k t m !! k.
Proof. intros H. unfold zadd. rewrite (zget_ne r r') by done. by apply zput_local. Qed.

Lemma expire_local r r' srv k t : r' !! k = r !! k -> expire r' srv k t !! k = expire r srv k t !! k.
Proof. intros H. unfold expire. rewrite (zget_ne r r') by done. by apply zput_local. Qed.

Lemma zadd_ne r srv k k' t m : k <> k' -> zadd r srv k t m !! k' = r !! k'.
Proof. apply zput_ne. Qed.

Lemma expire_ne r srv k k' t : k <> k' -> expire r srv k t !! k' = r !! k'.
Proof. apply zput_ne. Qed.

Section three_keys.
Context (srv : Z) (a b c : string) (ws now : Z) (m : string) (ttl : Z) (r : redis).
Hypothesis Hab : a <> b.
Hypothesis Hac : a <> c.
Hypothesis Hbc : b <> c.

Definition purge3 : redis :=
  zremrangebyscore (zremrangebyscore (zremrangebyscore r srv a ws) srv b ws) srv c ws.

Definition admit3 : redis :=
  expire (expire (expire (zadd (zadd (zadd purge3 srv a now m) srv b now m) srv c now m)
    srv a ttl) srv b ttl) srv c ttl.

Lemma purge3_at k : k ∈ [a; b; c] -> purge3 !! k = zremrangebyscore r srv k ws !! k.
Proof using Hab Hac Hbc.
  unfold purge3. rewrite !elem_of_cons, elem_of_nil. intros [->|[->|[->|[]]]].
  - by rewrite purge_ne, purge_ne.
  - rewrite purge_ne by done. apply purge_local. by apply purge_ne.
  - apply purge_local. by rewrite purge_ne, purge_ne.
Qed.

Lemma purge3_ne k : k ∉ [a; b; c] -> purge3 !! k = r !! k.
Proof using Type.
  rewrite !not_elem_of_cons. intros (? & ? & ? & _). unfold purge3. by rewrite !purge_ne.
Qed.

Lemma purge3_view k : k ∈ [a; b; c] -> zmembers (zget purge3 srv k) = purged r srv k ws.
Proof using Hab Hac Hbc.
  intros Hk. rewrite (zget_ne _ _ srv k (purge3_at k Hk)). apply purge_view.
Qed.

Lemma admit3_at k : k ∈ [a; b; c] -> admit3 !! k = admitted r srv k ws now m ttl !! k.
Proof using Hab Hac Hbc.
  intros Hk. pose proof (purge3_at k Hk) as Hp. unfold admit3, admitted.
  rewrite !elem_of_cons, elem_of_nil in Hk. destruct Hk as [->|[->|[->|[]]]].
  - rewrite !expire_ne by done. apply expire_local. rewrite !zadd_ne by done. by apply zadd_local.
  - rewrite expire_ne by done. apply expire_local. rewrite expire_ne, zadd_ne by done.
    apply zadd_local. by rewrite zadd_ne.
  - apply expire_local. rewrite !expire_ne by done. apply zadd_local. by rewrite !zadd_ne.
Qed.

Lemma admit3_ne k : k ∉ [a; b; c] -> admit3 !! k = r !! k.
Proof using Type.
  intros Hk. rewrite <- (purge3_ne k Hk). rewrite !not_elem_of_cons in Hk.
  destruct Hk as (? & ? & ? & _). unfold admit3. by rewrite !expire_ne, !zadd_ne by done.
Qed.
End three_keys.

(** ** Interleaved use *)

(** Peer keys as the responder derives them (hex of a public key). *)
Definition plain_peer (p : string) : Prop :=
  match p with String c _ => c <> "o"%char /\ c <> "_"%char | EmptyString => True end.

Definition bucket_keys (peer : string) (offer : option string) : list string :=
  [per_peer_key peer; per_offer_key offer; _GLOBAL_KEY].

Definition record3 (v : verdict) (keys : list string) (e : env) (L : logs) : logs :=
  fun k => if v.1.1 && bool_decide (k ∈ keys) then L k ++ [(stamp_member e, e_now e)] else L k.

Inductive ib_reach (cfg : settings) : redis -> logs -> Z -> Prop :=
  | ib_start r now : ib_reach cfg r (fun _ => []) now
  | ib_check r L now e peer offer v r' :
      ib_reach cfg r L now -> tick now e -> plain_peer peer ->
      (forall k, k ∈ bucket_keys peer offer -> stamp_member e ∉ map fst (L k)) ->
      check_inbound_invreq_rate cfg e peer offer r = (v, r') ->
      ib_reach cfg r' (record3 v (bucket_keys peer offer) e L) (e_now e).

Lemma peer_offer_keys p o : plain_peer p -> per_peer_key p <> per_offer_key o.
Proof.
  intros Hp H. unfold per_peer_key, per_offer_key in H. cbn in H. injection H as H.
  destruct p as [|c p]; [done|]. injection H as -> _. by destruct Hp.
Qed.

Lemma peer_global_keys p : plain_peer p -> per_peer_key p <> _GLOBAL_KEY.
Proof.
  intros Hp H. unfold per_peer_key, _GLOBAL_KEY in H. cbn in H. injection H as H.
  destruct p as [|c p]; [done|]. injection H as -> _. by destruct Hp.
Qed.

Lemma offer_global_keys o : per_offer_key o <> _GLOBAL_KEY.
Proof. unfold per_offer_key, _GLOBAL_KEY. cbn. discriminate. Qed.

Definition within (limit k_count : Z) : Prop := 0 < limit -> k_count + 1 <= limit.

Lemma cap_test limit n :
  (0 <? limit) && (limit <=? n) = false -> within limit n.
Proof. intros H Hl. apply andb_false_iff in H as [H|H]; bool_to_prop; lia. Qed.

#[local] Opaque per_peer_key per_offer_key _GLOBAL_KEY.

Section cases.
Context (cfg : settings) (e : env) (peer : string) (offer : option string) (r : redis).
Let W := bolt12_inbound_rate_limit_window_seconds cfg * TICKS.
Let ws := e_now e - W.
Let pl := bolt12_inbound_rate_limit_count cfg.
Let ol := bolt12_inbound_rate_limit_per_offer_count cfg.
Let gl := bolt12_inbound_rate_limit_global_count cfg.
Let pk := per_peer_key peer.
Let ok := per_offer_key offer.
Let count k := wsum (fun _ => 1) (purged r (e_srv e) k ws).
Let purged_store := purge3 (e_srv e) pk ok _GLOBAL_KEY ws r.
Let admitted_store := admit3 (e_srv e) pk ok _GLOBAL_KEY ws (e_now e) (stamp_member e)
  ((bolt12_inbound_rate_limit_window_seconds cfg + 60) * TICKS) r.

(** The script: every cap leaves room and all three sets take the member,
    or none does. *)
Lemma three_tier_spec o r' :
  plain_peer peer ->
  _THREE_TIER_SCRIPT (e_srv e) pk ok _GLOBAL_KEY ws (e_now e) pl ol gl (stamp_member e)
    ((bolt12_inbound_rate_limit_window_seconds cfg + 60) * TICKS) r = (o, r') ->
  (o = None /\ r' = admitted_store /\ within pl (count pk) /\ within ol (count ok) /\
     within gl (count _GLOBAL_KEY)) \/
  (is_Some o /\ r' = purged_store).
Proof.
  intros Hp H. unfold _THREE_TIER_SCRIPT in H. cbn zeta in H.
  fold (purge3 (e_srv e) pk ok _GLOBAL_KEY ws r) in H. fold purged_store in H.
  assert (Hz : forall k, k ∈ [pk; ok; _GLOBAL_KEY] -> zcard purged_store (e_srv e) k = count k).
  { intros k Hk. unfold zcard, purged_store, count.
    rewrite purge3_view, wsum_one; [done|by apply peer_offer_keys|by apply peer_global_keys|
      apply offer_global_keys|done]. }
  rewrite !Hz in H by (rewrite !elem_of_cons; auto).
  destruct ((0 <? pl) && _) eqn:E1 in H; [injection H as <- <-; right; eauto|].
  destruct ((0 <? ol) && _) eqn:E2 in H; [injection H as <- <-; right; eauto|].
  destruct ((0 <? gl) && _) eqn:E3 in H; [injection H as <- <-; right; eauto|].
  injection H as <- <-. left. split; [done|].
  split; [unfold admitted_store, admit3; fold purged_store; reflexivity|].
  split; [|split]; by apply cap_test.
Qed.

Lemma inbound_cases v r' :
  plain_peer peer -> 0 < pl \/ 0 < ol \/ 0 < gl -> rate_limit_fail_policy cfg <> "open"%string ->
  check_inbound_invreq_rate cfg e peer offer r = (v, r') ->
  (v.1.1 = true /\ r' = admitted_store /\ within pl (count pk) /\ within ol (count ok) /\
     within gl (count _GLOBAL_KEY)) \/
  (v.1.1 = false /\ (r' = r \/ r' = purged_store \/ r' = admitted_store)).
Proof.
  intros Hp Hl Hpol H. unfold check_inbound_invreq_rate in H. fold pl ol gl in H.
  destruct ((pl <=? 0) && (ol <=? 0) && (gl <=? 0)) eqn:E0; [bool_to_prop; lia|].
  cbn zeta in H. fold W ws pk ok in H. rewrite (proj2 (String.eqb_neq _ _) Hpol) in H.
  destruct (_THREE_TIER_SCRIPT (e_srv e) pk ok _GLOBAL_KEY ws (e_now e) pl ol gl (stamp_member e)
    ((bolt12_inbound_rate_limit_window_seconds cfg + 60) * TICKS) r) as [o r1] eqn:Es.
  unfold eval in H. rewrite Es in H. apply three_tier_spec in Es; [|done].
  destruct (e_fault e).
  - destruct Es as [(-> & -> & ?)|[[c ->] ->]]; injection H as <- <-; [by left|right; auto].
  - injection H as <- <-. right. auto.
  - injection H as <- <-. right. split; [done|]. cbn [snd].
    destruct Es as [(_ & -> & _)|[_ ->]]; auto.
Qed.
End cases.

(** One check against the set [k], whose cap is [limit]. *)
Lemma inbound_step_inv cfg e peer offer r v r' L now k limit :
  0 < limit -> rate_limit_fail_policy cfg <> "open"%string -> plain_peer peer ->
  0 < bolt12_inbound_rate_limit_count cfg \/ 0 < bolt12_inbound_rate_limit_per_offer_count cfg \/
    0 < bolt12_inbound_rate_limit_global_count cfg ->
  check_inbound_invreq_rate cfg e peer offer r = (v, r') -> tick now e ->
  (forall k, k ∈ bucket_keys peer offer -> stamp_member e ∉ map fst (L k)) ->
  (k = per_peer_key peer -> limit = bolt12_inbound_rate_limit_count cfg) ->
  (k = per_offer_key offer -> limit = bolt12_inbound_rate_limit_per_offer_count cfg) ->
  (k = _GLOBAL_KEY -> limit = bolt12_inbound_rate_limit_global_count cfg) ->
  let W := bolt12_inbound_rate_limit_window_seconds cfg * TICKS in
  window_inv (fun _ => 1) W (30 * TICKS) limit k r (L k) now ->
  window_inv (fun _ => 1) W (30 * TICKS) limit k r' (record3 v (bucket_keys peer offer) e L k) (e_now e).
Proof.
  intros Hl Hpol Hp Hany Hc [Hn Hck] Hfr Hkp Hko Hkg W Hi.
  assert (Hw : forall m : string, 0 <= (fun _ : string => 1) m) by (intros; cbn; lia).
  pose proof (peer_offer_keys peer offer Hp) as Hab. pose proof (peer_global_keys peer Hp) as Hac.
  pose proof (offer_global_keys offer) as Hbc. unfold record3.
  destruct (decide (k ∈ bucket_keys peer offer)) as [Hk|Hk];
    [rewrite bool_decide_true by done|rewrite bool_decide_false, andb_false_r by done].
  - assert (Hadm : forall s, s = admit3 (e_srv e) (per_peer_key peer) (per_offer_key offer) _GLOBAL_KEY
        (e_now e - W) (e_now e) (stamp_member e)
        ((bolt12_inbound_rate_limit_window_seconds cfg + 60) * TICKS) r ->
      s !! k = admitted r (e_srv e) k (e_now e - W) (e_now e) (stamp_member e)
        ((bolt12_inbound_rate_limit_window_seconds cfg + 60) * TICKS) !! k).
    { intros s ->. by apply admit3_at. }
    destruct (inbound_cases _ _ _ _ _ _ _ Hp Hany Hpol Hc) as [(Hv & Hr & Hcp & Hco & Hcg)|(Hv & Hr)];
      rewrite Hv; cbn [andb].
    + apply (frame_inv _ _ _ _ Hw) with (r := admitted r (e_srv e) k (e_now e - W) (e_now e) (stamp_member e)
        ((bolt12_inbound_rate_limit_window_seconds cfg + 60) * TICKS)) (now := e_now e); [by apply Hadm|lia|].
      apply (admitted_inv _ _ _ _ Hw) with (now := now); try done; [by apply Hfr|].
      unfold within in *. unfold bucket_keys in Hk. rewrite !elem_of_cons, elem_of_nil in Hk.
      destruct Hk as [->|[->|[->|[]]]].
      * rewrite Hkp in * by done. by apply Hcp.
      * rewrite Hko in * by done. by apply Hco.
      * rewrite Hkg in * by done. by apply Hcg.
    + destruct Hr as [->|[->|Hr]].
      * by apply (frame_inv _ _ _ _ Hw) with (r := r) (now := now).
      * apply (frame_inv _ _ _ _ Hw) with (r := zremrangebyscore r (e_srv e) k (e_now e - W)) (now := e_now e);
          [by apply purge3_at|lia|]. by apply (purge_inv _ _ _ _ Hw) with (now := now).
      * apply (frame_inv _ _ _ _ Hw) with (r := admitted r (e_srv e) k (e_now e - W) (e_now e) (stamp_member e)
          ((bolt12_inbound_rate_limit_window_seconds cfg + 60) * TICKS)) (now := e_now e); [by apply Hadm|lia|].
        apply (admitted_unlogged_inv _ _ _ _ Hw) with (now := now); try done. by apply Hfr.
  - apply (frame_inv _ _ _ _ Hw) with (r := r) (now := now); [|done|done].
    destruct (inbound_cases _ _ _ _ _ _ _ Hp Hany Hpol Hc) as [(_ & -> & _)|(_ & [->|[->| ->]])];
      [by apply admit3_ne|done|by apply purge3_ne|by apply admit3_ne].
Qed.

(** ** Properties *)

(** C31. Whatever peers send, in any order, with Redis calls failing at will
    under the fail-closed policy: in every window the number of invoice
    requests admitted in all is at most the global cap, the number admitted
    for one offer (or for no offer) at most the per-offer cap, and the
    number admitted for one peer key at most the per-peer cap, for each cap
    that is switched on. *)
Theorem inbound_window_bound cfg r L now :
  rate_limit_fail_policy cfg <> "open"%string -> ib_reach cfg r L now ->
  forall k limit T, 0 < limit ->
    (k = _GLOBAL_KEY /\ limit = bolt12_inbound_rate_limit_global_count cfg) \/
    (exists o, k = per_offer_key o /\ limit = bolt12_inbound_rate_limit_per_offer_count cfg) \/
    (exists p, plain_peer p /\ k = per_peer_key p /\ limit = bolt12_inbound_rate_limit_count cfg) ->
    Z.of_nat (length (List.filter
      (in_window (bolt12_inbound_rate_limit_window_seconds cfg * TICKS) T) (L k))) <= limit.
Proof.
  intros Hpol Hr k limit T Hl Hk.
  assert (Hi : window_inv (fun _ => 1) (bolt12_inbound_rate_limit_window_seconds cfg * TICKS)
    (30 * TICKS) limit k r (L k) now).
  { clear T. induction Hr as [r now|r L now e peer offer v r' _ IH Ht Hp Hfr Hc];
      [apply window_inv_empty; lia|].
    pose proof (peer_offer_keys peer) as Hpo. pose proof (peer_global_keys peer) as Hpg.
    pose proof offer_global_keys as Hog.
    eapply inbound_step_inv; [exact Hl|exact Hpol|exact Hp| |exact Hc|exact Ht|exact Hfr|..|exact IH];
      destruct Hk as [[-> ->]|[(o & -> & ->)|(p & Hp' & -> & ->)]]; try (intros E);
      first [ by auto | by destruct (Hpg Hp) | by destruct (Hog offer) | by destruct (Hpo o Hp)
            | by destruct (Hog o) | by destruct (peer_offer_keys p offer Hp')
            | by destruct (peer_global_keys p Hp') ]. }
  pose proof (wi_bound _ _ _ _ _ _ _ _ Hi T) as Hb. unfold window_sum in Hb.
  by rewrite lsum_one, length_map in Hb.
Qed.

(** ** Witness: one admitted request counts against the global cap. *)

Lemma inbound_window_bound_witness :
  let out := check_inbound_invreq_rate example_cfg (at_second 1000 "aa") "02ab" None ∅ in
  Z.of_nat (length (List.filter (in_window (60 * TICKS) (1000 * TICKS))
    (record3 out.1 (bucket_keys "02ab" None) (at_second 1000 "aa") (fun _ => []) _GLOBAL_KEY))) <= 30.
Proof.
  cbv zeta. refine (inbound_window_bound example_cfg _ _ (1000 * TICKS) _ _ _GLOBAL_KEY 30
    (1000 * TICKS) _ _); [discriminate| |lia|by left].
  apply (ib_check example_cfg ∅ (fun _ => []) 0 (at_second 1000 "aa") "02ab" None).
  - apply ib_start.
  - split; [|split]; vm_compute; congruence.
  - by split.
  - intros k _. apply not_elem_of_nil.
  - apply surjective_pairing.
Defined.
