(* ===== verification/Breaker.v ===== *)
(** * Circuit breaker and retries (app/core/resilience.py)

    [CircuitBreaker] with its [asyncio.Lock], tasks that call through it,
    and [with_retry]. Between two [await]s a coroutine runs alone, so a step
    of the system is the code from one suspension to the next. Time is in
    microseconds; error texts are lists of code points. *)
From S2P Require Import Prelude Utf8.

Definition DEFAULT_FAILURE_THRESHOLD : Z := 5.
Definition DEFAULT_OPEN_DURATION_US : Z := 30000000.

Inductive bstate := closed | open | half_open.

Global Instance bstate_eq_dec : EqDecision bstate.
Proof. solve_decision. Defined.

(** The [asyncio.Lock] object the breaker currently refers to: which object
    it is, whether it is held, and the FIFO of tasks queued on it. *)
Record lock := mkLock { lock_id : nat; locked : bool; waiters : list nat }.

Record CircuitBreaker := mkBreaker {
  failure_threshold : Z;
  open_duration : Z;
  state : bstate;
  consecutive_failures : Z;
  opened_at : option Z;
  last_error : option ustr;
  last_success_at : option Z;
  last_failure_at : option Z;
  _lock : lock;
  _lock_loop : option nat;
  next_lock : nat  (* fresh object identities *)
}.

Definition new_breaker (threshold duration : Z) : CircuitBreaker :=
  mkBreaker threshold duration closed 0 None None None None (mkLock 0 false []) None 1.

Definition set_state (b : CircuitBreaker) (s : bstate) : CircuitBreaker :=
  mkBreaker (failure_threshold b) (open_duration b) s (consecutive_failures b) (opened_at b)
    (last_error b) (last_success_at b) (last_failure_at b) (_lock b) (_lock_loop b) (next_lock b).

Definition set_lock (b : CircuitBreaker) (l : lock) : CircuitBreaker :=
  mkBreaker (failure_threshold b) (open_duration b) (state b) (consecutive_failures b) (opened_at b)
    (last_error b) (last_success_at b) (last_failure_at b) l (_lock_loop b) (next_lock b).

(** A new [asyncio.Lock()] for loop [loop]. *)
Definition fresh_lock (b : CircuitBreaker) (loop : option nat) : CircuitBreaker :=
  mkBreaker (failure_threshold b) (open_duration b) (state b) (consecutive_failures b) (opened_at b)
    (last_error b) (last_success_at b) (last_failure_at b) (mkLock (next_lock b) false []) loop
    (S (next_lock b)).

Definition _rebind_lock_if_needed (b : CircuitBreaker) (loop : nat) : CircuitBreaker :=
  if decide (_lock_loop b = Some loop) then b else fresh_lock b (Some loop).

Definition _maybe_half_open (b : CircuitBreaker) (now : Z) : CircuitBreaker :=
  match state b, opened_at b with
  | open, Some at_ => if open_duration b <=? now - at_ then set_state b half_open else b
  | _, _ => b
  end.

(** How [before_call] leaves its caller: past it, suspended on the lock, or
    with [BreakerOpenError]. *)
Inductive entry := Pass | Suspend | Reject.

(** [lock.acquire()] up to its suspension. *)
Definition acquire (l : lock) (task : nat) : entry * lock :=
  if negb (locked l) && bool_decide (waiters l = []) then (Pass, mkLock (lock_id l) true [])
  else (Suspend, mkLock (lock_id l) (locked l) (waiters l ++ [task])).

Definition before_call (b : CircuitBreaker) (now : Z) (loop task : nat) : entry * CircuitBreaker :=
  let b := _maybe_half_open b now in
  match state b with
  | open => (Reject, b)
  | closed => (Pass, b)
  | half_open =>
      let b := _rebind_lock_if_needed b loop in
      let '(en, l) := acquire (_lock b) task in
      (en, set_lock b l)
  end.

(** [if lock.locked(): lock.release()], and the waiter it wakes. *)
Definition release (l : lock) : option nat * lock :=
  if locked l then (head (waiters l), mkLock (lock_id l) false (waiters l)) else (None, l).

Definition record_success (b : CircuitBreaker) (now : Z) : option nat * CircuitBreaker :=
  let '(woken, l) := match state b with half_open => release (_lock b) | _ => (None, _lock b) end in
  (woken, mkBreaker (failure_threshold b) (open_duration b) closed 0 None None (Some now)
            (last_failure_at b) l (_lock_loop b) (next_lock b)).

Definition reset (b : CircuitBreaker) : CircuitBreaker :=
  let b := fresh_lock b None in
  mkBreaker (failure_threshold b) (open_duration b) closed 0 None None (last_success_at b)
    (last_failure_at b) (_lock b) (_lock_loop b) (next_lock b).

(** [error[:509] + "..."] beyond 512 characters *)
Definition cap_error (error : ustr) : ustr :=
  if (512 <? length error)%nat then take 509 error ++ [46; 46; 46] else error.

Definition record_failure (b : CircuitBreaker) (now : Z) (error : ustr)
    : option nat * CircuitBreaker :=
  let fails := consecutive_failures b + 1 in
  let upd st at_ l :=
    mkBreaker (failure_threshold b) (open_duration b) st fails at_ (Some (cap_error error))
      (last_success_at b) (Some now) l (_lock_loop b) (next_lock b) in
  match state b with
  | half_open => let '(woken, l) := release (_lock b) in (woken, upd open (Some now) l)
  | closed =>
      if failure_threshold b <=? fails then (None, upd open (Some now) (_lock b))
      else (None, upd closed (opened_at b) (_lock b))
  | open => (None, upd open (opened_at b) (_lock b))
  end.

(** ** with_retry *)

Inductive outcome (T : Type) :=
  | Returns (x : T)
  | Retryable (e : ustr)
  | Fatal (e : ustr).
Arguments Returns {T} x.
Arguments Retryable {T} e.
Arguments Fatal {T} e.

Inductive retry_result (T : Type) :=
  | Done (x : T)
  | Raised (e : ustr)
  | Rejected.
Arguments Done {T} x.
Arguments Raised {T} e.
Arguments Rejected {T}.

(** What [with_retry] tells the breaker. *)
Inductive verdict := Success | Failure (e : ustr).

(** The loop: [op i] is what the [i]-th attempt does; [sleep i] what becomes
    of the [await asyncio.sleep(...)] after it, [Some e] when it raises (the
    caller is cancelled); [delays] the delays not yet used. Returns the
    result, the number of attempts made, and the verdict. An exception out of
    the sleep escapes between the [except] clauses: there is no verdict. *)
Fixpoint retry_loop {T} (op : nat -> outcome T) (sleep : nat -> option ustr) (attempts : nat) (delays : list Z)
    : retry_result T * nat * option verdict :=
  match op attempts with
  | Returns x => (Done x, S attempts, Some Success)
  | Fatal e => (Raised e, S attempts, Some (Failure e))
  | Retryable e =>
      match delays with
      | [] => (Raised e, S attempts, Some (Failure e))
      | _ :: delays =>
          match sleep attempts with
          | Some e => (Raised e, S attempts, None)
          | None => retry_loop op sleep (S attempts) delays
          end
      end
  end.

Definition record (b : CircuitBreaker) (now : Z) (v : verdict) : option nat * CircuitBreaker :=
  match v with Success => record_success b now | Failure e => record_failure b now e end.

(** ** Tasks *)

(** A task of the system: outside the breaker; queued on lock object [l];
    woken from that queue but not yet run; past [before_call]. *)
Inductive phase := Idle | Waiting (l : nat) | Woken (l : nat) | Calling.

Global Instance phase_eq_dec : EqDecision phase.
Proof. solve_decision. Defined.

Abbreviation tasks := (gmap nat phase).

Definition phase_of (f : tasks) (t : nat) : phase := default Idle (f !! t).

Record system := mkSystem { brk : CircuitBreaker; phases : tasks; sys_now : Z }.

(** Waking a task makes it runnable. *)
Definition wake (f : tasks) (w : option nat) (l : nat) : tasks :=
  match w with Some t => <[t := Woken l]> f | None => f end.

(** What happens in a step; a call names the loop it runs on. *)
Inductive label :=
  | LTime (dt : Z)
  | LCall (loop t : nat)
  | LResume (t : nat)
  | LFinish (t : nat) (v : verdict)
  | LEscape (t : nat)                   (** cancelled between two attempts *)
  | LReset.

Definition phase_after (en : entry) (l : nat) : phase :=
  match en with Pass => Calling | Suspend => Waiting l | Reject => Idle end.

(** The system as a function of the label; [None] where it does not apply. *)
Definition exec (a : label) (s : system) : option system :=
  let b := brk s in
  let f := phases s in
  match a with
  | LTime dt => if 0 <=? dt then Some (mkSystem b f (sys_now s + dt)) else None
  | LCall loop t =>
      match phase_of f t with
      | Idle => let '(en, b') := before_call b (sys_now s) loop t in
                Some (mkSystem b' (<[t := phase_after en (lock_id (_lock b'))]> f) (sys_now s))
      | _ => None
      end
  | LResume t =>
      match phase_of f t with
      | Woken l =>
          (* the rest of [acquire]: leave the queue, take the lock *)
          let b' := if decide (l = lock_id (_lock b))
                    then set_lock b (mkLock l true
                           (List.filter (fun t' => negb (t' =? t)%nat) (waiters (_lock b))))
                    else b in
          Some (mkSystem b' (<[t := Calling]> f) (sys_now s))
      | _ => None
      end
  | LFinish t v =>
      match phase_of f t with
      | Calling => let '(w, b') := record b (sys_now s) v in
                   Some (mkSystem b' (wake (<[t := Idle]> f) w (lock_id (_lock b))) (sys_now s))
      | _ => None
      end
  | LEscape t =>
      match phase_of f t with
      | Calling => Some (mkSystem b (<[t := Idle]> f) (sys_now s))
      | _ => None
      end
  | LReset => Some (mkSystem (reset b) f (sys_now s))
  end.

Definition start (threshold duration now : Z) : system :=
  mkSystem (new_breaker threshold duration) ∅ now.

Definition step (a : label) (s s' : system) : Prop := exec a s = Some s'.

(** Labels of a process with one event loop that never calls [reset]. *)
Definition plain (loop : nat) (a : label) : Prop :=
  match a with LCall l _ => l = loop | LReset => False | _ => True end.

(** Runs on one loop, with the number of calls let through since the breaker
    last became half-open. *)
Definition enters (a : label) (s s' : system) : nat :=
  match a with
  | LCall _ t | LResume t => if decide (phase_of (phases s') t = Calling) then 1 else 0
  | _ => 0
  end%nat.

Definition episode_count (a : label) (s s' : system) (n : nat) : nat :=
  if decide (state (brk s') = half_open)
  then ((if decide (state (brk s) = half_open) then n else 0) + enters a s s')%nat
  else 0%nat.

Inductive run (threshold duration : Z) (loop : nat) : system -> nat -> Prop :=
  | run_start now : run threshold duration loop (start threshold duration now) 0
  | run_step s n a s' :
      run threshold duration loop s n -> plain loop a -> step a s s' ->
      run threshold duration loop s' (episode_count a s s' n).

(** ** Lemmas on locks and tasks *)

Lemma phase_of_insert f t t' p :
  phase_of (<[t := p]> f) t' = if decide (t' = t) then p else phase_of f t'.
Proof.
  unfold phase_of. destruct (decide (t' = t)) as [->|].
  - by rewrite lookup_insert_eq.
  - by rewrite lookup_insert_ne.
Qed.

Lemma record_leaves_half_open b now v w b' :
  record b now v = (w, b') -> state b' <> half_open.
Proof.
  destruct v; simpl; unfold record_success, record_failure.
  - destruct (state b); [by intros [= <- <-]..|]. destruct (release _). by intros [= <- <-].
  - destruct (state b); [case_match| |destruct (release _)]; by intros [= <- <-].
Qed.

(** What recording does to the lock. *)
Lemma record_lock b now v w b' :
  record b now v = (w, b') ->
  _lock_loop b' = _lock_loop b /\
  (w, _lock b') = match state b with half_open => release (_lock b) | _ => (None, _lock b) end.
Proof.
  destruct v; simpl; unfold record_success, record_failure.
  - destruct (state b); [by intros [= <- <-]..|]. destruct (release (_lock b)). by intros [= <- <-].
  - destruct (state b); [case_match| |destruct (release (_lock b))]; by intros [= <- <-].
Qed.

(** The invariant of single-loop runs. *)
Record lock_inv (loop : nat) (s : system) (n : nat) : Prop := {
  li_loop : _lock_loop (brk s) = Some loop \/
    (_lock_loop (brk s) = None /\ locked (_lock (brk s)) = false /\ waiters (_lock (brk s)) = [] /\
     forall t l, phase_of (phases s) t <> Waiting l);
  li_current : forall t l, phase_of (phases s) t = Waiting l -> l = lock_id (_lock (brk s));
  li_woken : forall t l, phase_of (phases s) t = Woken l ->
    l = lock_id (_lock (brk s)) /\ locked (_lock (brk s)) = false /\
    head (waiters (_lock (brk s))) = Some t;
  li_count : state (brk s) = half_open -> n = 0%nat \/ (n = 1%nat /\ locked (_lock (brk s)) = true);
  li_closed : state (brk s) <> half_open -> n = 0%nat
}.

Lemma half_open_lock b now :
  _lock (_maybe_half_open b now) = _lock b /\ _lock_loop (_maybe_half_open b now) = _lock_loop b.
Proof. unfold _maybe_half_open. by repeat case_match. Qed.

Lemma not_half_open_before b now :
  state (_maybe_half_open b now) = half_open -> state b = half_open \/ state b = open.
Proof. unfold _maybe_half_open. repeat case_match; simpl; auto; congruence. Qed.

(** The cases of [before_call], with the lock as it leaves it. *)
Lemma before_call_cases b now loop t en b' :
  before_call b now loop t = (en, b') ->
  (state b' = closed /\ en = Pass /\ b' = _maybe_half_open b now) \/
  (state b' = open /\ en = Reject /\ b' = _maybe_half_open b now) \/
  (state b' = half_open /\ (state b = half_open \/ state b = open) /\ _lock_loop b' = Some loop /\
   exists l, (l = _lock b /\ _lock_loop b = Some loop \/
              locked l = false /\ waiters l = [] /\ _lock_loop b <> Some loop) /\
             (en, _lock b') = acquire l t).
Proof.
  unfold before_call. intros H. destruct (half_open_lock b now) as [Hl Hll].
  destruct (state (_maybe_half_open b now)) eqn:Es.
  - injection H as <- <-. auto.
  - injection H as <- <-. auto.
  - right. right. apply not_half_open_before in Es as Hb.
    destruct (acquire _ t) as [en' l] eqn:Ea in H. injection H as <- <-. cbn.
    unfold _rebind_lock_if_needed in *. rewrite Hll in *.
    destruct (decide (_lock_loop b = Some loop)) as [E|E]; cbn in *.
    + split; [done|]. split; [done|]. split; [congruence|]. exists (_lock b). split; [auto|]. congruence.
    + split; [done|]. split; [done|]. split; [done|].
      exists (_lock (fresh_lock (_maybe_half_open b now) (Some loop))). split; [by right|]. cbn. by rewrite Ea.
Qed.

(** Entering and queueing. *)
Lemma acquire_cases l t en l' :
  acquire l t = (en, l') ->
  lock_id l' = lock_id l /\
  ((en = Pass /\ locked l = false /\ waiters l = [] /\ locked l' = true /\ waiters l' = []) \/
   (en = Suspend /\ locked l' = locked l /\ waiters l' = waiters l ++ [t] /\
    (locked l = true \/ waiters l <> []))).
Proof.
  unfold acquire. destruct (locked l) eqn:E; cbn [negb andb].
  - intros [= <- <-]. simpl. split; [done|]. right. auto.
  - case_bool_decide; intros [= <- <-]; simpl; split; try done; [left|right]; auto.
Qed.

Lemma release_cases l w l' :
  release l = (w, l') ->
  lock_id l' = lock_id l /\ waiters l' = waiters l /\ locked l' = false /\
  ((locked l = true /\ w = head (waiters l)) \/ (locked l = false /\ w = None)).
Proof. unfold release. destruct (locked l) eqn:E; intros [= <- <-]; simpl; auto 6. Qed.

Lemma episode_out a s s' n : state (brk s') <> half_open -> episode_count a s s' n = 0%nat.
Proof. intros H. unfold episode_count. by rewrite decide_False. Qed.

(** Outside an episode, with the lock and the queued tasks as they were. *)
Lemma keep_inv loop s n s' :
  lock_inv loop s n -> _lock (brk s') = _lock (brk s) -> _lock_loop (brk s') = _lock_loop (brk s) ->
  state (brk s') <> half_open ->
  (forall t l, phase_of (phases s') t = Waiting l -> phase_of (phases s) t = Waiting l) ->
  (forall t l, phase_of (phases s') t = Woken l -> phase_of (phases s) t = Woken l) ->
  lock_inv loop s' 0.
Proof.
  intros [Hl Hc Hw Hn Hz] El Ell Hs H1 H2. split; rewrite ?El, ?Ell; try done; [|naive_solver..].
  destruct Hl as [Hl|(? & ? & ? & Hl)]; [by left|right]. split_and!; try done.
  intros t l E. by apply H1, Hl in E.
Qed.

(** Calls keep the invariant. *)
Lemma call_inv loop s n t en b' :
  lock_inv loop s n -> phase_of (phases s) t = Idle ->
  before_call (brk s) (sys_now s) loop t = (en, b') ->
  let s' := mkSystem b' (<[t := phase_after en (lock_id (_lock b'))]> (phases s)) (sys_now s) in
  lock_inv loop s' (episode_count (LCall loop t) s s' n).
Proof.
  intros [Hl Hc Hw Hn Hz] Ht Hb s'.
  assert (Hent : enters (LCall loop t) s s' = match en with Pass => 1 | _ => 0 end%nat).
  { unfold enters. subst s'. cbn [phases]. rewrite phase_of_insert. destruct (decide (t = t)); [|done].
    by destruct en; cbn [phase_after]; case_decide. }
  assert (Hout : state b' <> half_open -> b' = _maybe_half_open (brk s) (sys_now s) -> en <> Suspend ->
    lock_inv loop s' (episode_count (LCall loop t) s s' n)).
  { intros Hs E He. destruct (half_open_lock (brk s) (sys_now s)) as [El Ell].
    rewrite episode_out by done. eapply keep_inv; [by split|..]; subst s'; cbn [brk phases]; [congruence..| |];
      intros t' l; rewrite phase_of_insert; (destruct (decide (t' = t)); [by destruct en|done]). }
  destruct (before_call_cases _ _ _ _ _ _ Hb) as [(Hs & -> & E)|[(Hs & -> & E)|Hh]];
    [apply Hout; by rewrite ?Hs|apply Hout; by rewrite ?Hs|].
  destruct Hh as (Hs & Hb0 & Hll & l & Hlk & Ha). symmetry in Ha.
  apply acquire_cases in Ha as [Hid Ha].
  assert (Hcount : episode_count (LCall loop t) s s' n =
    ((if decide (state (brk s) = half_open) then n else 0) + match en with Pass => 1 | _ => 0 end)%nat).
  { unfold episode_count. rewrite Hent. subst s'. cbn [brk]. by rewrite Hs. }
  rewrite Hcount. clear Hcount Hent.
  destruct Hlk as [[-> Hloop]|(Hf & Hwt & Hloop)].
  - (* the lock of this loop *)
    split; subst s'; cbn [brk phases].
    + by left.
    + intros t' l. rewrite phase_of_insert. destruct (decide (t' = t)).
      * destruct Ha as [(-> & _)|(-> & _)]; [done|]. by intros [= <-].
      * rewrite Hid. by apply Hc.
    + intros t' l. rewrite phase_of_insert. destruct (decide (t' = t)); [by destruct en|].
      intros Hwk. destruct (Hw _ _ Hwk) as (-> & Hlf & Hhd).
      destruct Ha as [(_ & _ & E & _)|(_ & E1 & E2 & _)]; [by rewrite E in Hhd|].
      rewrite Hid, E1, E2. split; [done|]. split; [done|]. by destruct (waiters (_lock (brk s))).
    + intros _. destruct Ha as [(-> & Hlf & _ & Hlt & _)|(-> & E1 & _)].
      * right. split; [|done]. destruct (decide (state (brk s) = half_open)) as [E|]; [|done].
        destruct (Hn E) as [->|[_ Hlt']]; [done|congruence].
      * destruct (decide (state (brk s) = half_open)) as [E|]; [|by left].
        destruct (Hn E) as [->|[-> Hlt']]; [by left|right; split; [done|congruence]].
    + by rewrite Hs.
  - (* a new lock for a new loop: nobody was queued *)
    destruct Hl as [Hl|(Hl & Hlf & Hlw & Hnw)]; [done|].
    destruct Ha as [(-> & _ & _ & Hlt & Hw')|(-> & E1 & E2 & [E|E])]; [|congruence|done].
    split; subst s'; cbn [brk phases].
    + by left.
    + intros t' l'. rewrite phase_of_insert. destruct (decide (t' = t)); [done|].
      intros E. by destruct (Hnw _ _ E).
    + intros t' l'. rewrite phase_of_insert. destruct (decide (t' = t)); [done|].
      intros E. destruct (Hw _ _ E) as (_ & _ & E'). by rewrite Hlw in E'.
    + intros _. right. split; [|done]. destruct (decide (state (brk s) = half_open)) as [E|]; [|done].
      destruct (Hn E) as [->|[_ ?]]; [done|congruence].
    + by rewrite Hs.
Qed.

Lemma resume_inv loop s n t l :
  lock_inv loop s n -> phase_of (phases s) t = Woken l ->
  let b' := set_lock (brk s) (mkLock l true
              (List.filter (fun t' => negb (t' =? t)%nat) (waiters (_lock (brk s))))) in
  let s' := mkSystem b' (<[t := Calling]> (phases s)) (sys_now s) in
  lock_inv loop s' (episode_count (LResume t) s s' n).
Proof.
  intros [Hl Hc Hw Hn Hz] Ht b' s'. destruct (Hw _ _ Ht) as (-> & Hlf & Hhd).
  split; subst s' b'; cbn [brk phases set_lock _lock _lock_loop lock_id locked waiters state].
  - destruct Hl as [Hl|(_ & _ & Hwt & _)]; [by left|]. by rewrite Hwt in Hhd.
  - intros t' l'. rewrite phase_of_insert. destruct (decide (t' = t)); [done|]. by apply Hc.
  - intros t' l'. rewrite phase_of_insert. destruct (decide (t' = t)) as [|Hne]; [done|].
    intros E. destruct (Hw _ _ E) as (_ & _ & Hhd'). congruence.
  - intros Hs. right. split; [|done]. unfold episode_count, enters.
    cbn [brk phases set_lock state]. rewrite phase_of_insert. destruct (decide (t = t)); [|done].
    rewrite !decide_True by done. destruct (Hn Hs) as [->|[_ ?]]; [done|congruence].
  - intros Hs. by apply episode_out.
Qed.

Lemma finish_inv loop s n t v w b' :
  lock_inv loop s n -> record (brk s) (sys_now s) v = (w, b') ->
  let s' := mkSystem b' (wake (<[t := Idle]> (phases s)) w (lock_id (_lock (brk s)))) (sys_now s) in
  lock_inv loop s' (episode_count (LFinish t v) s s' n).
Proof.
  intros Hi Hr s'. pose proof (record_leaves_half_open _ _ _ _ _ Hr) as Hs.
  rewrite episode_out by done. apply record_lock in Hr as [Ell Hr].
  assert (Hkeep : w = None -> _lock b' = _lock (brk s) -> lock_inv loop s' 0).
  { intros -> El. eapply keep_inv; [done..| |]; subst s'; cbn [phases wake];
      intros t' l'; rewrite phase_of_insert; (destruct (decide (t' = t)); done). }
  destruct (state (brk s)) eqn:Es; [injection Hr; auto|injection Hr; auto|].
  symmetry in Hr. apply release_cases in Hr as (Hid & Hwt & Hlf & [[Hlt ->]|[Hlf' ->]]).
  - destruct Hi as [Hl Hc Hw Hn Hz]. split; subst s'; cbn [brk phases]; rewrite ?Hid, ?Ell; try done.
    + destruct Hl as [Hl|(_ & E & _)]; [by left|congruence].
    + intros t' l'. destruct (head (waiters (_lock (brk s)))) as [h|]; cbn [wake]; rewrite !phase_of_insert.
      * destruct (decide (t' = h)); [done|]. destruct (decide (t' = t)); [done|]. by apply Hc.
      * destruct (decide (t' = t)); [done|]. by apply Hc.
    + intros t' l'. destruct (head (waiters (_lock (brk s)))) as [h|] eqn:Eh; cbn [wake];
        rewrite !phase_of_insert.
      * destruct (decide (t' = h)) as [->|]; [intros [= <-]; by rewrite Hwt|].
        destruct (decide (t' = t)); [done|]. intros E. destruct (Hw _ _ E) as (_ & ? & _). congruence.
      * destruct (decide (t' = t)); [done|]. intros E. destruct (Hw _ _ E) as (_ & ? & _). congruence.
  - apply Hkeep; [done|]. destruct (_lock b'), (_lock (brk s)); simpl in *; congruence.
Qed.

Lemma run_inv threshold duration loop s n : run threshold duration loop s n -> lock_inv loop s n.
Proof.
  induction 1 as [now|s n a s' _ IH Hp Hs].
  - split; cbn; auto; try done; by intros t l; unfold phase_of; rewrite lookup_empty.
  - unfold step in Hs. destruct a as [dt|l t|t|t v|t|]; cbn [exec plain] in *; [| | | | |done].
    + case_hyp Hs. injection Hs as <-.
      replace (episode_count _ _ _ n) with n; [by destruct IH; split|].
      unfold episode_count. cbn [brk enters]. destruct (decide _); [lia|]. by apply IH.
    + subst l. case_hyp Hs. destruct (before_call _ _ _ _) as [en b'] eqn:Eb. injection Hs as <-.
      by apply call_inv.
    + destruct (phase_of (phases s) t) as [| |l|] eqn:Et; try done. injection Hs as <-.
      pose proof (li_woken _ _ _ IH t l Et) as [-> _]. rewrite decide_True by done. by apply resume_inv.
    + destruct (phase_of (phases s) t) eqn:Et; try done.
      destruct (record _ _ _) as [w b'] eqn:Er. injection Hs as <-. by apply finish_inv.
    + case_hyp Hs. injection Hs as <-.
      replace (episode_count _ _ _ n) with n.
      2: { unfold episode_count. cbn [brk enters]. destruct (decide _); [lia|]. by apply IH. }
      destruct IH as [Hl Hc Hw Hn Hz]. split; cbn [brk phases]; try done.
      * destruct Hl as [Hl|(? & ? & ? & Hl)]; [by left|right]. split_and!; try done.
        intros t' l. rewrite phase_of_insert. by destruct (decide (t' = t)).
      * intros t' l. rewrite phase_of_insert. destruct (decide (t' = t)); [done|]. by apply Hc.
      * intros t' l. rewrite phase_of_insert. destruct (decide (t' = t)); [done|]. by apply Hw.
Qed.

(** ** Wedged breakers *)

(** Half-open, the lock held, and nobody left to release it. *)
Definition wedged (loop : nat) (s : system) : Prop :=
  state (brk s) = half_open /\ locked (_lock (brk s)) = true /\ _lock_loop (brk s) = Some loop /\
  map_Forall (fun _ p => match p with Calling | Woken _ => False | _ => True end) (phases s).

Global Instance wedged_dec loop s : Decision (wedged loop s).
Proof.
  apply and_dec; [apply _|]. apply and_dec; [apply _|]. apply and_dec; [apply _|].
  apply map_Forall_dec. intros _ []; apply _.
Defined.

Lemma wedged_phase loop s t : wedged loop s ->
  phase_of (phases s) t = Idle \/ exists l, phase_of (phases s) t = Waiting l.
Proof.
  intros (_ & _ & _ & Hf). unfold phase_of. destruct (phases s !! t) as [p|] eqn:E; [|by left].
  apply Hf in E. destruct p; simpl; eauto; done.
Qed.

(** A trace of labels, executed. *)
Fixpoint exec_trace (as_ : list label) (s : system) : option system :=
  match as_ with
  | [] => Some s
  | a :: as_ => match exec a s with Some s' => exec_trace as_ s' | None => None end
  end.

Lemma exec_trace_run threshold duration loop as_ : forall s n s',
  run threshold duration loop s n -> Forall (plain loop) as_ -> exec_trace as_ s = Some s' ->
  exists n', run threshold duration loop s' n'.
Proof.
  induction as_ as [|a as_ IH]; intros s n s' Hr HF H; cbn in H; [injection H as <-; eauto|].
  destruct (exec a s) as [s1|] eqn:E; [|done]. apply Forall_cons in HF as [Ha HF].
  eapply IH; [|done|exact H]. by eapply run_step.
Qed.

(** The trace: five failed calls open the breaker; 30 s later one probe goes through and
    a second call queues behind it; the probe succeeds and wakes the second
    call, which takes the lock of a breaker that is closed again and so
    never gives it back. The next outage ends with every call queued. *)
Definition outage : list label :=
  concat (repeat [LCall 0 1; LFinish 1 (Failure [])] 5) ++ [LTime 30000000].
Definition wedge_trace : list label :=
  outage ++ [LCall 0 2; LCall 0 3; LFinish 2 Success; LResume 3; LFinish 3 Success]
  ++ outage ++ [LCall 0 5].

(** ** Retries *)

(** Attempts before the [k]-th all fail in a retryable way, and the sleeps
    between them complete. *)
Definition retried {T} (op : nat -> outcome T) (sleep : nat -> option ustr) (i k : nat) : Prop :=
  forall j, (i <= j < k)%nat -> sleep j = None /\ exists e, op j = Retryable e.

(** How the [k]-th attempt, counted from 0, ends the loop when [last] is the
    last one allowed. *)
Inductive ends {T} (op : nat -> outcome T) (sleep : nat -> option ustr) (last k : nat)
    : retry_result T -> option verdict -> Prop :=
  | ends_returns x : op k = Returns x -> ends op sleep last k (Done x) (Some Success)
  | ends_fatal e : op k = Fatal e -> ends op sleep last k (Raised e) (Some (Failure e))
  | ends_exhausted e : op k = Retryable e -> k = last -> ends op sleep last k (Raised e) (Some (Failure e))
  | ends_escaped e c : op k = Retryable e -> (k < last)%nat -> sleep k = Some c -> ends op sleep last k (Raised c) None.

Lemma retry_loop_spec {T} (op : nat -> outcome T) sleep delays : forall i,
  exists k res v, (i <= k <= i + length delays)%nat /\ retried op sleep i k /\
    ends op sleep (i + length delays) k res v /\ retry_loop op sleep i delays = (res, S k, v).
Proof.
  induction delays as [|d delays IH]; intros i; cbn [retry_loop length].
  - exists i. destruct (op i) as [x|e|e] eqn:E; eexists _, _; (split; [lia|]; split; [intros j Hj; lia|]; split; [|reflexivity]).
    + by apply ends_returns.
    + apply ends_exhausted; [done|lia].
    + by apply ends_fatal.
  - destruct (op i) as [x|e|e] eqn:E.
    + exists i. eexists _, _. split; [lia|]. split; [intros j Hj; lia|]. split; [|reflexivity]. by apply ends_returns.
    + destruct (sleep i) as [c|] eqn:Es.
      { exists i. eexists _, _. split; [lia|]. split; [intros j Hj; lia|]. split; [|reflexivity].
        eapply ends_escaped; [done|lia|done]. }
      destruct (IH (S i)) as (k & res & v & Hk & Hr & Hm & Hl). exists k, res, v. split; [lia|]. split; [|split; [|done]].
      * intros j Hj. destruct (decide (j = i)) as [->|]; [eauto|]. apply Hr. lia.
      * by replace (i + S (length delays))%nat with (S i + length delays)%nat by lia.
    + exists i. eexists _, _. split; [lia|]. split; [intros j Hj; lia|]. split; [|reflexivity]. by apply ends_fatal.
Qed.

(** [with_retry] run to its end by a caller that is alone: [now] when it
    enters, [later] when its last attempt ends. [None]: it blocks on the
    lock. *)
Definition with_retry {T} (b : CircuitBreaker) (now later : Z) (loop task : nat)
    (op : nat -> outcome T) (sleep : nat -> option ustr) (delays : list Z) : option (retry_result T * nat * CircuitBreaker) :=
  match before_call b now loop task with
  | (Reject, b) => Some (Rejected, 0%nat, b)
  | (Suspend, b) => None
  | (Pass, b) =>
      let '(res, attempts, v) := retry_loop op sleep 0 delays in
      Some (res, attempts, match v with Some v => snd (record b later v) | None => b end)
  end.

(** ** The breaker as an automaton *)

(** Closed after [failures] failures in a row, open since a time, or half
    open with the probe lost on an event loop: the caller that held the lock
    was cancelled between two attempts. *)
Inductive spec := SClosed (failures : Z) | SOpen (since : Z) | SLost (loop : nat).

Definition spec_record (threshold later : Z) (loop : nat) (sp : spec) (v : option verdict) : spec :=
  match v, sp with
  | Some Success, _ => SClosed 0
  | Some (Failure _), SClosed k => if threshold <=? k + 1 then SOpen later else SClosed (k + 1)
  | Some (Failure _), _ => SOpen later
  | None, SClosed k => SClosed k
  | None, _ => SLost loop
  end.

Definition spec_enter (duration now : Z) (loop : nat) (sp : spec) : entry :=
  match sp with
  | SClosed _ => Pass
  | SOpen since => if duration <=? now - since then Pass else Reject
  | SLost l => if decide (l = loop) then Suspend else Pass
  end.

(** The breaker represents [sp], its lock is free unless the probe is lost,
    and its error text is bounded. *)
Definition represents (threshold duration : Z) (b : CircuitBreaker) (sp : spec) : Prop :=
  failure_threshold b = threshold /\ open_duration b = duration /\
  (forall e, last_error b = Some e -> (length e <= 512)%nat) /\ waiters (_lock b) = [] /\
  match sp with
  | SClosed k => state b = closed /\ consecutive_failures b = k /\ locked (_lock b) = false
  | SOpen since => state b = open /\ opened_at b = Some since /\ locked (_lock b) = false
  | SLost loop => state b = half_open /\ locked (_lock b) = true /\ _lock_loop b = Some loop
  end.

Lemma cap_error_length e : (length (cap_error e) <= 512)%nat.
Proof.
  unfold cap_error. destruct (Nat.ltb_spec 512 (length e)); [|done].
  rewrite length_app, length_take. cbn [length]. lia.
Qed.

(** Past [before_call]: the state the verdict will be recorded in. *)
Definition entered (threshold duration : Z) (loop : nat) (sp : spec) (b : CircuitBreaker) : Prop :=
  failure_threshold b = threshold /\ open_duration b = duration /\
  (forall e, last_error b = Some e -> (length e <= 512)%nat) /\ waiters (_lock b) = [] /\
  match sp with
  | SClosed k => state b = closed /\ consecutive_failures b = k /\ locked (_lock b) = false
  | _ => state b = half_open /\ locked (_lock b) = true /\ _lock_loop b = Some loop
  end.

Lemma represents_enter threshold duration b sp now loop t :
  represents threshold duration b sp ->
  match spec_enter duration now loop sp with
  | Pass => exists b', before_call b now loop t = (Pass, b') /\ entered threshold duration loop sp b'
  | Reject => before_call b now loop t = (Reject, b)
  | Suspend => exists b', before_call b now loop t = (Suspend, b')
  end.
Proof.
  intros (Ht & Hd & He & Hw & Hsp). unfold before_call, _maybe_half_open, entered.
  destruct sp as [k|since|l]; cbn [spec_enter].
  - destruct Hsp as (Hs & Hk & Hlk). rewrite Hs. cbv zeta iota. rewrite Hs. exists b. by split_and!.
  - destruct Hsp as (Hs & -> & Hlk). rewrite Hs, Hd. destruct (Z.leb_spec duration (now - since)).
    + cbn [state set_state]. unfold _rebind_lock_if_needed. cbn [_lock_loop set_state].
      destruct (decide (_lock_loop b = Some loop)); unfold acquire; cbn.
      * rewrite Hlk, Hw. rewrite bool_decide_true by done. eexists. by split_and!.
      * eexists. by split_and!.
    + by rewrite Hs.
  - destruct Hsp as (Hs & Hlk & Hlp). rewrite Hs. cbv zeta iota. rewrite Hs. unfold _rebind_lock_if_needed. rewrite Hlp.
    destruct (decide (l = loop)) as [->|Hne].
    + rewrite decide_True by done. unfold acquire. rewrite Hlk. by eexists.
    + rewrite decide_False by congruence. eexists. by split_and!.
Qed.

(** Recording in that state. *)
Lemma represents_record threshold duration loop sp v later b :
  entered threshold duration loop sp b ->
  represents threshold duration (snd (record b later v)) (spec_record threshold later loop sp (Some v)).
Proof.
  intros (Ht & Hd & He & Hw & Hsp). unfold represents.
  assert (Hrel : locked (snd (release (_lock b))) = false /\ waiters (snd (release (_lock b))) = []).
  { destruct (release (_lock b)) as [w l] eqn:E. apply release_cases in E as (_ & E1 & E2 & _).
    cbn. split; congruence. }
  assert (Hcap : forall err e, Some (cap_error err) = Some e -> (length e <= 512)%nat).
  { intros err e [= <-]. apply cap_error_length. }
  assert (Hprobe : state b = half_open ->
    represents threshold duration (snd (record b later v)) (match v with Success => SClosed 0 | Failure _ => SOpen later end)).
  { intros Hs. unfold represents. destruct v as [|err]; cbn [record]; unfold record_success, record_failure; rewrite Hs;
      destruct (release (_lock b)); cbn in *; destruct Hrel; split_and!; first [done|exact (Hcap err)]. }
  destruct sp as [k|since|l]; [|destruct v; by apply Hprobe, Hsp..].
  destruct Hsp as (Hs & Hk & Hlk). destruct v as [|err]; cbn [record spec_record]; unfold record_success, record_failure; rewrite Hs.
  - cbn. by split_and!.
  - rewrite Hk, Ht. destruct (threshold <=? k + 1); cbn; split_and!; first [done|exact (Hcap err)].
Qed.

(** Leaving it without a verdict. *)
Lemma represents_escape threshold duration loop sp later b :
  entered threshold duration loop sp b ->
  represents threshold duration b (spec_record threshold later loop sp None).
Proof. intros (Ht & Hd & He & Hw & Hsp). destruct sp; by split_and!. Qed.

(** A task queued on a lock object the breaker no longer refers to. *)
Definition stranded (t l : nat) (s : system) : Prop :=
  phase_of (phases s) t = Waiting l /\ (lock_id (_lock (brk s)) < next_lock (brk s))%nat /\
  (l < next_lock (brk s))%nat /\ l <> lock_id (_lock (brk s)) /\ t ∉ waiters (_lock (brk s)).

Lemma before_call_lock b now loop t en b' :
  before_call b now loop t = (en, b') -> (lock_id (_lock b) < next_lock b)%nat ->
  (lock_id (_lock b') < next_lock b')%nat /\ (next_lock b <= next_lock b')%nat /\
  (lock_id (_lock b') = lock_id (_lock b) \/ lock_id (_lock b') = next_lock b) /\
  waiters (_lock b') ⊆ t :: waiters (_lock b).
Proof.
  intros H Hlt. unfold before_call in H.
  destruct (half_open_lock b now) as [El _].
  assert (En : next_lock (_maybe_half_open b now) = next_lock b)
    by (unfold _maybe_half_open; by repeat case_match).
  set (b1 := _maybe_half_open b now) in *.
  assert (Hsub : forall l : list nat, l ⊆ t :: l) by (intros l x; rewrite elem_of_cons; auto).
  destruct (state b1); [injection H as <- <-; rewrite El, En; auto..|].
  unfold _rebind_lock_if_needed in H. destruct (decide _).
  - destruct (acquire (_lock b1) t) as [en' l'] eqn:Ea. injection H as <- <-. rewrite El in Ea.
    apply acquire_cases in Ea as [Hid Ha]. cbn. rewrite Hid, En. split_and!; auto.
    destruct Ha as [(_ & _ & _ & _ & ->)|(_ & _ & -> & _)]; [apply list_subseteq_nil|].
    intros x. rewrite elem_of_app, list_elem_of_singleton, elem_of_cons. tauto.
  - destruct (acquire _ t) as [en' l'] eqn:Ea in H. injection H as <- <-.
    apply acquire_cases in Ea as [Hid Ha]. cbn in *. rewrite Hid, En. split_and!; auto.
    destruct Ha as [(_ & _ & _ & _ & ->)|(_ & _ & -> & _)]; [apply list_subseteq_nil|].
    intros x Hx. apply list_elem_of_singleton in Hx as ->. left.
Qed.

Lemma stranded_step t l a s s' : stranded t l s -> step a s s' -> stranded t l s'.
Proof.
  intros (Hp & Hid & Hl & Hne & Hw) Hs. unfold step in Hs.
  destruct a as [dt|lp u|u|u v|u|]; cbn [exec] in Hs.
  - case_hyp Hs. injection Hs as <-. by split_and!.
  - case_hyp Hs. destruct (before_call _ _ _ _) as [en b'] eqn:Eb. injection Hs as <-.
    assert (u <> t) as Hut by (intros ->; congruence).
    destruct (before_call_lock _ _ _ _ _ _ Eb Hid) as (H1 & H2 & H3 & H4).
    unfold stranded. cbn. rewrite phase_of_insert, decide_False by done. split_and!; [done|lia|lia| |].
    + destruct H3; lia.
    + intros Hin%H4. apply elem_of_cons in Hin as [->|]; done.
  - destruct (phase_of (phases s) u) as [| |l'|] eqn:Eu; try done. injection Hs as <-.
    assert (u <> t) as Hut by (intros ->; congruence). unfold stranded. cbn.
    rewrite phase_of_insert, decide_False by done. destruct (decide _); cbn; split_and!; try done; [lia|lia|].
    intros Hin%list_elem_of_In. apply List.filter_In in Hin as [Hin%list_elem_of_In _]. done.
  - destruct (phase_of (phases s) u) eqn:Eu; try done.
    destruct (record _ _ _) as [w b'] eqn:Er. injection Hs as <-.
    assert (u <> t) as Hut by (intros ->; congruence).
    assert (Hnl : next_lock b' = next_lock (brk s)).
    { destruct v; simpl in Er; unfold record_success, record_failure in Er;
        repeat case_match; by injection Er as <- <-. }
    apply record_lock in Er as [_ Er].
    assert (lock_id (_lock b') = lock_id (_lock (brk s)) /\ waiters (_lock b') = waiters (_lock (brk s)) /\
            (w = None \/ w = head (waiters (_lock (brk s))))) as (E1 & E2 & E3).
    { destruct (state (brk s)); [injection Er as -> ->; auto..|]. symmetry in Er.
      apply release_cases in Er as (? & ? & _ & [[_ ->]|[_ ->]]); auto. }
    unfold stranded. cbn. rewrite E1, E2, Hnl. split_and!; try done.
    destruct w as [x|]; cbn [wake]; rewrite !phase_of_insert; [|by rewrite decide_False].
    assert (x <> t) as Hxt.
    { intros ->. destruct E3 as [|E3]; [done|]. apply Hw. destruct (waiters _); [done|].
      injection E3 as <-. left. }
    rewrite !decide_False by done. done.
  - destruct (phase_of (phases s) u) eqn:Eu; try done. injection Hs as <-.
    assert (u <> t) as Hut by (intros ->; congruence). unfold stranded. cbn.
    rewrite phase_of_insert, decide_False by done. by split_and!.
  - injection Hs as <-. unfold stranded, reset. cbn. split_and!; try done; [lia..|]. apply not_elem_of_nil.
Qed.

(** ** Properties *)

(** The promise of the class docstring, for callers on one event loop and
    no [reset]: between the moment the breaker becomes half-open and the
    moment it leaves that state at most one call is let through, however
    calls, completions and wake-ups interleave. *)
Theorem at_most_one_probe threshold duration loop s n :
  run threshold duration loop s n -> (n <= 1)%nat.
Proof.
  intros Hr. destruct (run_inv _ _ _ _ _ Hr) as [_ _ _ Hn Hz].
  destruct (decide (state (brk s) = half_open)) as [E|E]; [|rewrite (Hz E); lia].
  destruct (Hn E) as [->|[-> _]]; lia.
Qed.

(** C32. To callers that follow one another [with_retry] is an automaton of
    three states, whatever loop each call runs on and wherever it is
    cancelled. While the breaker has been open for less than the configured
    duration a call is rejected with no attempt made and the breaker
    unchanged. Otherwise it makes at most [1 + len(backoff)] attempts, ends
    with the first success, the first error that is not retryable, the last
    error or its cancellation during a sleep, and records exactly one
    verdict, unless it was cancelled: a success closes, the [threshold]-th
    failure in a row opens, a failed probe re-opens. A probe that is
    cancelled during a sleep records nothing and keeps the lock: from then
    on, and only then, a call on its event loop blocks, while one on another
    loop is the next probe. *)
Theorem with_retry_refines threshold duration {T} (b : CircuitBreaker) sp now later loop task
    (op : nat -> outcome T) sleep delays :
  represents threshold duration b sp ->
  match spec_enter duration now loop sp with
  | Reject => with_retry b now later loop task op sleep delays = Some (Rejected, 0%nat, b)
  | Suspend => with_retry b now later loop task op sleep delays = None
  | Pass =>
      exists k res v b', with_retry b now later loop task op sleep delays = Some (res, S k, b') /\
        (k <= length delays)%nat /\ retried op sleep 0 k /\ ends op sleep (length delays) k res v /\
        represents threshold duration b' (spec_record threshold later loop sp v)
  end.
Proof.
  intros Hr. pose proof (represents_enter _ _ _ _ now loop task Hr) as He. unfold with_retry.
  destruct (spec_enter duration now loop sp); [|by destruct He as [b' ->]|by rewrite He].
  destruct He as (b' & -> & Hen). destruct (retry_loop_spec op sleep delays 0) as (k & res & v & Hk & Hret & Hm & ->).
  exists k, res, v, (match v with Some v => snd (record b' later v) | None => b' end).
  split; [done|]. split; [lia|]. split; [done|]. split; [done|].
  destruct v as [v|]; [by apply represents_record|by apply represents_escape].
Qed.

(** The lock that serialises probes can be lost: with the default settings
    and one loop the breaker reaches a state in which it is half-open, the
    lock is held and no task is past [before_call] or about to be; from such
    a state, whatever time passes and whatever calls are made (short of
    [reset]), no call ever gets through again. *)
Theorem breaker_can_wedge :
  (exists s n, run DEFAULT_FAILURE_THRESHOLD DEFAULT_OPEN_DURATION_US 0 s n /\ wedged 0 s) /\
  (forall loop s a s', wedged loop s -> plain loop a -> step a s s' ->
     wedged loop s' /\ enters a s s' = 0%nat).
Proof.
  split.
  - destruct (exec_trace wedge_trace (start DEFAULT_FAILURE_THRESHOLD DEFAULT_OPEN_DURATION_US 0))
      as [s|] eqn:E; [|vm_compute in E; discriminate E].
    assert (Hp : Forall (plain 0) wedge_trace) by (repeat constructor).
    destruct (exec_trace_run _ _ _ _ _ _ _ (run_start _ _ 0 0) Hp E) as [n Hn].
    exists s, n. split; [done|]. apply (bool_decide_unpack (wedged 0 s)).
    vm_compute in E. injection E as <-. vm_compute. exact I.
  - intros loop s a s' Hwd Hpl Hs. pose proof Hwd as (Hst & Hlk & Hlp & Hf). unfold step in Hs.
    destruct a as [dt|l t|t|t v|t|]; cbn [exec plain] in *; [| | | | |done].
    + case_hyp Hs. by injection Hs as <-.
    + subst l. case_hyp Hs. unfold before_call, _maybe_half_open in Hs.
      rewrite !Hst in Hs. unfold _rebind_lock_if_needed in Hs. rewrite decide_True in Hs by done.
      unfold acquire in Hs. rewrite Hlk in Hs. cbn in Hs. injection Hs as <-. split.
      * split_and!; [done..|]. by apply map_Forall_insert_2.
      * cbn. rewrite phase_of_insert. destruct (decide (t = t)); [|done]. by case_decide.
    + destruct (wedged_phase _ _ t Hwd) as [E|[l E]]; by rewrite E in Hs.
    + destruct (wedged_phase _ _ t Hwd) as [E|[l E]]; by rewrite E in Hs.
    + destruct (wedged_phase _ _ t Hwd) as [E|[l E]]; by rewrite E in Hs.
Qed.

(** One cancelled caller is enough: the probe is cancelled while it sleeps
    between two attempts. *)
Example cancelled_probe_wedges :
  match exec_trace (outage ++ [LCall 0 2; LEscape 2]) (start DEFAULT_FAILURE_THRESHOLD DEFAULT_OPEN_DURATION_US 0) with
  | Some s => bool_decide (wedged 0 s)
  | None => false
  end = true.
Proof. vm_compute. reflexivity. Qed.

(** [reset] strands the tasks queued behind a probe: a task waiting on the
    breaker's lock when [reset] replaces it never runs again, whatever
    happens afterwards. *)
Theorem reset_strands_waiters s t s1 s2 :
  phase_of (phases s) t = Waiting (lock_id (_lock (brk s))) ->
  (lock_id (_lock (brk s)) < next_lock (brk s))%nat ->
  step LReset s s1 -> rtc (fun x y => exists a, step a x y) s1 s2 ->
  phase_of (phases s2) t = Waiting (lock_id (_lock (brk s))).
Proof.
  intros Hp Hid Hs Hr.
  assert (Hst : stranded t (lock_id (_lock (brk s))) s1).
  { unfold step in Hs. cbn in Hs. injection Hs as <-. unfold stranded, reset. cbn.
    split_and!; try done; [lia..|]. apply not_elem_of_nil. }
  clear Hp Hs. revert Hst. induction Hr as [|x y z [a Ha] _ IH]; [by intros [? _]|].
  intros Hst. apply IH. by eapply stranded_step.
Qed.

(** ** Witnesses *)

Lemma at_most_one_probe_witness :
  exists s n, state (brk s) = half_open /\ run 1 1000 0 s n /\ (n <= 1)%nat.
Proof.
  destruct (exec_trace [LCall 0 1; LFinish 1 (Failure []); LTime 1000; LCall 0 2; LCall 0 3]
    (start 1 1000 0)) as [s|] eqn:E; [|vm_compute in E; discriminate E].
  edestruct (exec_trace_run 1 1000 0) as [n Hn]; [apply (run_start 1 1000 0 0)| |exact E|].
  { repeat constructor. }
  exists s, n. split; [vm_compute in E; injection E as <-; reflexivity|]. split; [exact Hn|].
  exact (at_most_one_probe 1 1000 0 s n Hn).
Defined.

(** The first attempt fails, the sleep completes, the second succeeds. *)
Lemma with_retry_refines_witness :
  exists b', with_retry (new_breaker 5 1000) 10 20 0 1
      (fun i => if (i =? 0)%nat then Retryable [] else Returns tt) (fun _ => None) [200; 500] = Some (Done tt, 2%nat, b') /\
    represents 5 1000 b' (SClosed 0).
Proof.
  pose proof (with_retry_refines 5 1000 (new_breaker 5 1000) (SClosed 0) 10 20 0 1
    (fun i => if (i =? 0)%nat then Retryable [] else Returns tt) (fun _ => None) [200; 500]) as H.
  destruct H as (k & res & v & b' & H & Hk & Hr & Hend & Hrep); [repeat split; discriminate|].
  pose proof H as Hc. vm_compute in Hc. injection Hc as <- <- _.
  exists b'. split; [exact H|]. inversion Hend; subst; try done.
Defined.

(** A probe cancelled in its first sleep: the next call on its loop blocks. *)
Example cancelled_probe_blocks :
  let b := snd (record (new_breaker 1 1000) 0 (Failure [])) in
  match with_retry (T := unit) b 2000 2100 0 1 (fun _ => Retryable []) (fun _ => Some []) [200; 500] with
  | Some (res, n, b') => (n, with_retry b' 9000 9100 0 2 (fun _ => Returns tt) (fun _ => None) [200; 500])
  | None => (0%nat, None)
  end = (1%nat, None).
Proof. vm_compute. reflexivity. Qed.

Lemma reset_strands_waiters_witness : exists s s1,
  step LReset s s1 /\ phase_of (phases s1) 3%nat = Waiting (lock_id (_lock (brk s))).
Proof.
  destruct (exec_trace [LCall 0 1; LFinish 1 (Failure []); LTime 1000; LCall 0 2; LCall 0 3]
    (start 1 1000 0)) as [s|] eqn:E; [|vm_compute in E; discriminate E].
  exists s, (mkSystem (reset (brk s)) (phases s) (sys_now s)). split; [reflexivity|].
  apply (reset_strands_waiters s 3 (mkSystem (reset (brk s)) (phases s) (sys_now s)));
    [vm_compute in E; injection E as <-; reflexivity..| |reflexivity|apply rtc_refl].
  vm_compute in E. injection E as <-. cbn. lia.
Defined.
