(* ===== verification/PathBreaker.v ===== *)
(** * Per-intro path breakers (app/services/bolt12/path_postprocess.py)

    [PathBreakerRegistry]: one breaker per introduction node in an
    insertion-ordered dict with a cap on its size. Times and cooldowns are
    integers in one common unit ([time.monotonic()] ticks). *)
From S2P Require Import Prelude.

Inductive pstate := PClosed | POpen | PHalfOpen.

Global Instance pstate_eq_dec : EqDecision pstate.
Proof. solve_decision. Defined.

Record _BreakerState := mkPB {
  pb_state : pstate;
  pb_failures : Z;
  pb_opened_at : Z;
  pb_cooldown : Z;
  pb_claimed : bool
}.

Definition fresh_state : _BreakerState := mkPB PClosed 0 0 0 false.

Definition is_effectively_open (st : _BreakerState) (now : Z) : bool :=
  if bool_decide (pb_state st = POpen) && (now - pb_opened_at st <? pb_cooldown st) then true
  else if bool_decide (pb_state st = PHalfOpen) && pb_claimed st then true
  else false.

Definition can_probe_half_open (st : _BreakerState) (now : Z) : bool :=
  if negb (bool_decide (pb_state st = POpen)) then false
  else pb_cooldown st <=? now - pb_opened_at st.

(** The settings the registry reads. *)
Record breaker_settings := mkBS {
  failures_to_open : Z;
  initial_cooldown : Z;
  cooldown_cap : Z
}.

(** [self._intros], in insertion order. *)
Abbreviation registry := (list (string * _BreakerState)).

Definition _MAX_ENTRIES : Z := 8192.

Fixpoint lookup_intro (r : registry) (k : string) : option _BreakerState :=
  match r with
  | [] => None
  | (k', st) :: r => if String.eqb k' k then Some st else lookup_intro r k
  end.

(** [st.field = ...] on the entry of [k], which stays where it is. *)
Fixpoint set_intro (r : registry) (k : string) (st : _BreakerState) : registry :=
  match r with
  | [] => []
  | (k', st') :: r => if String.eqb k' k then (k', st) :: r else (k', st') :: set_intro r k st
  end.

(** [_get]: a new entry goes to the end and the oldest are evicted. The
    object [st] is returned even if the eviction removed it again. *)
Definition _get (cap : nat) (r : registry) (k : string) : _BreakerState * registry :=
  match lookup_intro r k with
  | Some st => (st, r)
  | None => let r := r ++ [(k, fresh_state)] in
            (fresh_state, drop (length r - cap) r)
  end.

Section registry.
Context (cap : nat) (cfg : breaker_settings).

Definition fail_state (st : _BreakerState) (now : Z) : _BreakerState :=
  let fails := pb_failures st + 1 in
  match pb_state st with
  | PHalfOpen =>
      let cooldown := Z.min (if pb_cooldown st =? 0 then initial_cooldown cfg else pb_cooldown st * 2)
                        (cooldown_cap cfg) in
      mkPB POpen fails now cooldown false
  | PClosed =>
      if failures_to_open cfg <=? fails then mkPB POpen fails now (initial_cooldown cfg) false
      else mkPB PClosed fails (pb_opened_at st) (pb_cooldown st) false
  | POpen => mkPB POpen fails (pb_opened_at st) (pb_cooldown st) false
  end.

Definition record_failure (r : registry) (k : string) (now : Z) : registry :=
  if String.eqb k "" then r
  else let '(st, r) := _get cap r k in set_intro r k (fail_state st now).

Definition success_state : _BreakerState := mkPB PClosed 0 0 0 false.

Definition record_success (r : registry) (k : string) : registry :=
  if String.eqb k "" then r
  else let '(_, r) := _get cap r k in set_intro r k success_state.

(** One look-up: the lazy transition to half-open and the probe latch. *)
Definition look (st : _BreakerState) (now : Z) : bool * _BreakerState :=
  let st := if can_probe_half_open st now
            then mkPB PHalfOpen (pb_failures st) (pb_opened_at st) (pb_cooldown st) false else st in
  let effectively_open := is_effectively_open st now in
  let st := if negb effectively_open && bool_decide (pb_state st = PHalfOpen) && negb (pb_claimed st)
            then mkPB (pb_state st) (pb_failures st) (pb_opened_at st) (pb_cooldown st) true else st in
  (effectively_open, st).

Definition is_open (r : registry) (k : string) (now : Z) : bool * registry :=
  if String.eqb k "" then (false, r)
  else match lookup_intro r k with
       | None => (false, r)
       | Some st => let '(o, st) := look st now in (o, set_intro r k st)
       end.
End registry.

(** ** The dict *)

Lemma lookup_set_eq r k st : is_Some (lookup_intro r k) -> lookup_intro (set_intro r k st) k = Some st.
Proof.
  induction r as [|[k' st'] r IH]; simpl; intros [x H]; [done|].
  destruct (String.eqb_spec k' k) as [->|Hne]; simpl.
  - by rewrite String.eqb_refl.
  - rewrite (proj2 (String.eqb_neq _ _) Hne). apply IH. eauto.
Qed.

Lemma lookup_set_ne r k k' st : k <> k' -> lookup_intro (set_intro r k st) k' = lookup_intro r k'.
Proof.
  intros Hk. induction r as [|[k1 st1] r IH]; simpl; [done|].
  destruct (String.eqb_spec k1 k) as [->|Hne]; simpl.
  - by rewrite (proj2 (String.eqb_neq _ _) Hk).
  - destruct (String.eqb k1 k'); [done|apply IH].
Qed.

Lemma length_set r k st : length (set_intro r k st) = length r.
Proof. induction r as [|[k' st'] r IH]; simpl; [done|]. case_match; simpl; by rewrite ?IH. Qed.

Lemma lookup_app r r' k :
  lookup_intro (r ++ r') k = match lookup_intro r k with Some st => Some st | None => lookup_intro r' k end.
Proof. induction r as [|[k' st'] r IH]; simpl; [done|]. by destruct (String.eqb k' k). Qed.

Lemma lookup_drop_last r k st n :
  (n <= length r)%nat -> lookup_intro r k = None ->
  lookup_intro (drop n (r ++ [(k, st)])) k = Some st.
Proof.
  intros Hn Hk. rewrite drop_app_le by done. rewrite lookup_app.
  assert (Hd : lookup_intro (drop n r) k = None).
  { revert n Hn Hk. induction r as [|[k' st'] r IH]; intros [|n] Hn Hk; simpl in *; try done.
    apply IH; [lia|]. by destruct (String.eqb k' k). }
  rewrite Hd. simpl. by rewrite String.eqb_refl.
Qed.

(** [_get] returns the entry that is then in the dict, and keeps the cap. *)
Lemma get_spec cap r k st r' :
  (0 < cap)%nat -> (length r <= cap)%nat -> _get cap r k = (st, r') ->
  lookup_intro r' k = Some st /\ (length r' <= cap)%nat /\
  st = match lookup_intro r k with Some st => st | None => fresh_state end.
Proof.
  intros Hc Hr H. unfold _get in H. destruct (lookup_intro r k) as [st'|] eqn:E.
  - injection H as <- <-. done.
  - injection H as <- <-. split; [|split; [|done]].
    + apply lookup_drop_last; [|done]. rewrite length_app. simpl. lia.
    + rewrite length_drop, length_app. simpl. lia.
Qed.

(** ** One intro *)

(** Between the lapse of a cooldown and the next verdict: half-open. *)
Definition probing (st : _BreakerState) (now : Z) : Prop :=
  pb_state st = PHalfOpen \/ (pb_state st = POpen /\ pb_cooldown st <= now - pb_opened_at st).

Ltac states :=
  repeat (first [rewrite bool_decide_true by done | rewrite bool_decide_false by done]; cbn).

Lemma look_probing st now :
  probing st now ->
  look st now = (bool_decide (pb_state st = PHalfOpen) && pb_claimed st,
                 mkPB PHalfOpen (pb_failures st) (pb_opened_at st) (pb_cooldown st) true).
Proof.
  destruct st as [s f o c cl]. unfold probing, look, can_probe_half_open, is_effectively_open. cbn.
  intros [->|[-> Hc]].
  - by destruct cl; cbn; states.
  - states. rewrite (proj2 (Z.leb_le _ _)) by lia. cbn. by states.
Qed.

Lemma look_open st now :
  pb_state st = POpen -> now - pb_opened_at st < pb_cooldown st -> look st now = (true, st).
Proof.
  destruct st as [s f o c cl]. unfold look, can_probe_half_open, is_effectively_open. cbn. intros -> Hc.
  states. rewrite (proj2 (Z.leb_gt _ _)) by lia. cbn. states. by rewrite (proj2 (Z.ltb_lt _ _)) by lia.
Qed.

Lemma look_closed st now : pb_state st = PClosed -> look st now = (false, st).
Proof.
  destruct st as [s f o c cl]. unfold look, can_probe_half_open, is_effectively_open. cbn. intros ->.
  by states.
Qed.

(** A run of look-ups of one intro at the given times, with no verdict in
    between: how many answered [False]. *)
Fixpoint looks (st : _BreakerState) (times : list Z) : nat * _BreakerState :=
  match times with
  | [] => (0%nat, st)
  | now :: times =>
      let '(o, st) := look st now in
      let '(n, st) := looks st times in
      ((if o then n else S n), st)
  end.

Lemma looks_claimed st times :
  pb_state st = PHalfOpen -> pb_claimed st = true -> looks st times = (0%nat, st).
Proof.
  intros Hs Hc. induction times as [|now times IH]; cbn [looks]; [done|].
  rewrite look_probing by by left. rewrite Hs, Hc, bool_decide_true by done. cbn.
  replace (mkPB PHalfOpen (pb_failures st) (pb_opened_at st) (pb_cooldown st) true) with st
    by (destruct st; simpl in *; by subst). by rewrite IH.
Qed.

(** ** Properties *)

(** One probationary attempt: once an intro's cooldown has lapsed, then
    however many mints look it up, and whenever, at most one of them is told
    that it may be used until a failure or success is recorded; the first
    look-up of an unclaimed intro is that one. *)
Theorem one_probationary_probe st now times :
  probing st now ->
  let '(allowed, st') := looks st (now :: times) in
  (allowed <= 1)%nat /\
  (allowed = 1%nat <-> (pb_state st = POpen \/ pb_claimed st = false)) /\
  (forall later, fst (look st' later) = true).
Proof.
  intros Hp. cbn [looks]. rewrite look_probing by done.
  rewrite looks_claimed by done. split; [case_match; lia|]. split.
  - destruct Hp as [H|[H _]]; rewrite H.
    + rewrite bool_decide_true by done. destruct (pb_claimed st); cbn; naive_solver.
    + rewrite bool_decide_false by done. cbn. naive_solver.
  - intros later. rewrite look_probing by by left. cbn. by rewrite bool_decide_true.
Qed.

(** Life of a breaker, read through the registry: a fresh intro is usable;
    failures below the threshold leave it usable; the threshold-th opens it
    for the initial cooldown, during which every look-up says open; a failed
    probe doubles the cooldown up to the cap; a success makes it usable
    again. The registry never holds more than its cap, and a verdict on one
    intro is visible at once. *)
Theorem registry_verdicts cap cfg r k now :
  (0 < cap)%nat -> (length r <= cap)%nat -> k <> ""%string ->
  let st := match lookup_intro r k with Some st => st | None => fresh_state end in
  (length (record_failure cap cfg r k now) <= cap)%nat /\
  (length (record_success cap r k) <= cap)%nat /\
  (forall later, fst (is_open (record_success cap r k) k later) = false) /\
  (forall later, pb_state st = PClosed -> pb_failures st + 1 < failures_to_open cfg ->
     fst (is_open (record_failure cap cfg r k now) k later) = false) /\
  (forall later, pb_state st = PClosed -> failures_to_open cfg <= pb_failures st + 1 ->
     later - now < initial_cooldown cfg ->
     fst (is_open (record_failure cap cfg r k now) k later) = true) /\
  (forall later, pb_state st = PHalfOpen -> 0 < pb_cooldown st ->
     later - now < Z.min (pb_cooldown st * 2) (cooldown_cap cfg) ->
     fst (is_open (record_failure cap cfg r k now) k later) = true).
Proof.
  intros Hc Hr Hk st. unfold record_failure, record_success, is_open.
  rewrite (proj2 (String.eqb_neq _ _) Hk).
  destruct (_get cap r k) as [st0 r'] eqn:Eg.
  destruct (get_spec _ _ _ _ _ Hc Hr Eg) as (Hl & Hlen & ->). fold st.
  rewrite !length_set. split; [done|]. split; [done|].
  assert (Hset : forall x, lookup_intro (set_intro r' k x) k = Some x)
    by (intros; apply lookup_set_eq; eauto).
  rewrite !Hset. split; [|split; [|split]].
  - intros later. by rewrite look_closed.
  - intros later Hs Hf. unfold fail_state. rewrite Hs. rewrite (proj2 (Z.leb_gt _ _)) by lia.
    by rewrite look_closed.
  - intros later Hs Hf Ht. unfold fail_state. rewrite Hs. rewrite (proj2 (Z.leb_le _ _)) by lia.
    by rewrite look_open.
  - intros later Hs Hcd Ht. unfold fail_state. rewrite Hs. rewrite (proj2 (Z.eqb_neq _ _)) by lia.
    by rewrite look_open.
Qed.

(** ** Witnesses *)

Definition lapsed : _BreakerState := mkPB POpen 2 0 600 false.

Lemma one_probationary_probe_witness :
  match looks lapsed [700; 701; 900] with (n, _) => (n <= 1)%nat end.
Proof.
  pose proof (one_probationary_probe lapsed 700 [701; 900]) as H.
  destruct (looks lapsed [700; 701; 900]) as [n st]. apply H. right. split; [done|]. cbn. lia.
Defined.

Lemma registry_verdicts_witness :
  fst (is_open (record_failure 4 (mkBS 1 600 86400) [] "02ab" 100) "02ab" 200) = true.
Proof.
  destruct (registry_verdicts 4 (mkBS 1 600 86400) [] "02ab" 100) as (_ & _ & _ & _ & H & _);
    [lia|simpl; lia|discriminate|].
  apply H; [reflexivity|simpl; lia|simpl; lia].
Defined.
