(* ===== verification/PathPost.v ===== *)
(** * Blinded-path post-processing (app/services/bolt12/path_postprocess.py)

    The pipeline between LND's blinded paths and the paths put into an
    invoice. A path dict is a record with the keys the pipeline reads and
    writes; in-place mutation of the dicts of a list is a map over the list
    (the dicts are distinct objects). A number is [None] where the key is
    missing; LND's decimal strings stand for their value. What LND answers
    (channel edges, connected peers) is a parameter. *)
From S2P Require Import Prelude Bytes PathBreaker.

(** ** Data *)

Record channel := mkChan {
  chan_id : string;
  remote_pubkey : string;
  remote_balance : option Z;
  active : bool;
  gossiped_inbound_max_htlc_msat : option Z
}.

Record path := mkPath {
  introduction_node : string;           (* base64, in ["blinded_path"] *)
  blinded_hops : nat;                   (* [len(blinded_hops or [])] *)
  base_fee_msat : option Z;
  proportional_fee_rate : option Z;
  total_cltv_delta : option Z;
  htlc_min_msat : option Z;
  htlc_max_msat : option Z;
  _intro_pubkey_hex : string;
  _real_hops : option Z;
  _presumed_terminal_channel : option channel;
  _htlc_max_msat_advertised : option Z;
  _terminal_peer_pubkey : option string;
  _clamped_below_bucket : bool;
  _safety_margin_ppm_applied : option Z;
  _safety_margin_base_msat_applied : option Z
}.

(** [int(x or 0)] *)
Definition int_or_0 (x : option Z) : Z := default 0 x.

Record path_settings := mkPS {
  bolt12_path_pigeonhole_pairing_enabled : bool;
  bolt12_htlc_max_safety_buffer_ppm : Z;
  bolt12_htlc_max_bucket_msat : Z;
  bolt12_drop_undersized_paths : bool;
  bolt12_blinded_path_refresh_policy_from_gossip : bool;
  bolt12_blinded_path_payinfo_safety_margin_ppm : Z;
  bolt12_blinded_path_payinfo_safety_margin_base_msat : Z;
  bolt12_probe_paths_before_mint : bool;
  bolt12_path_diversity_enforce : bool;
  bolt12_path_breaker_enabled : bool
}.

(** ** Clamp *)

Definition _safe_cap_sat (remote_balance_sat buffer_ppm : Z) : Z :=
  if remote_balance_sat <=? 0 then 0
  else
    let buffer := (remote_balance_sat * buffer_ppm) / 1000000 in
    Z.max 0 (remote_balance_sat - buffer).

Definition _identify_terminal_channel (p : path) (channels : list channel) : option channel :=
  match _presumed_terminal_channel p with
  | Some presumed => Some presumed
  | None =>
      let intro_hex := _intro_pubkey_hex p in
      let real_hops := default 2 (_real_hops p) in
      let advertised_max_msat := int_or_0 (htlc_max_msat p) in
      let by_gossip :=
        match List.filter (fun ch => int_or_0 (gossiped_inbound_max_htlc_msat ch) =? advertised_max_msat)
                channels with
        | [ch] => Some ch
        | _ => None
        end in
      if (real_hops =? 1) && negb (String.eqb intro_hex "") then
        match List.find (fun ch => String.eqb (remote_pubkey ch) intro_hex) channels with
        | Some ch => Some ch
        | None => by_gossip
        end
      else by_gossip
  end.

Definition _bucket_floor_msat (value_msat bucket_msat : Z) : Z :=
  if bucket_msat <=? 0 then value_msat else (value_msat / bucket_msat) * bucket_msat.

(** The cap the clamp compares with: of the terminal channel, or of the
    largest channel. *)
Definition clamp_cap_msat (p : path) (channels : list channel) (safety_buffer_ppm : Z) : Z :=
  match _identify_terminal_channel p channels with
  | Some ch => _safe_cap_sat (int_or_0 (remote_balance ch)) safety_buffer_ppm * 1000
  | None =>
      let max_remote := match map (fun ch => int_or_0 (remote_balance ch)) channels with
                        | [] => 0
                        | b :: bs => foldl Z.max b bs
                        end in
      _safe_cap_sat max_remote safety_buffer_ppm * 1000
  end.

Definition clamp_path_htlc_max (cfg : path_settings) (channels : list channel) (p : path) : path :=
  let advertised := int_or_0 (htlc_max_msat p) in
  let terminal := match _identify_terminal_channel p channels with
                  | Some ch => Some (remote_pubkey ch)
                  | None => None
                  end in
  let cap_msat := clamp_cap_msat p channels (bolt12_htlc_max_safety_buffer_ppm cfg) in
  let set_max max below :=
    mkPath (introduction_node p) (blinded_hops p) (base_fee_msat p) (proportional_fee_rate p)
      (total_cltv_delta p) (htlc_min_msat p) max (_intro_pubkey_hex p) (_real_hops p)
      (_presumed_terminal_channel p) (Some advertised) terminal below
      (_safety_margin_ppm_applied p) (_safety_margin_base_msat_applied p) in
  if (0 <? cap_msat) && (cap_msat <? advertised) then
    let disclosed := _bucket_floor_msat cap_msat (bolt12_htlc_max_bucket_msat cfg) in
    set_max (Some disclosed) (if disclosed <=? 0 then true else _clamped_below_bucket p)
  else set_max (htlc_max_msat p) (_clamped_below_bucket p).

(** ** Amounts and fees *)

Definition path_meets_amount (amount_msat : Z) (p : path) : bool :=
  let htlc_max := int_or_0 (htlc_max_msat p) in
  let htlc_min := int_or_0 (htlc_min_msat p) in
  if negb (htlc_max =? 0) && (htlc_max <? amount_msat) then false
  else if negb (htlc_min =? 0) && (amount_msat <? htlc_min) then false
  else true.

Definition _path_effective_fee_msat (amount_msat : Z) (p : path) : Z :=
  let base := int_or_0 (base_fee_msat p) in
  let ppm := int_or_0 (proportional_fee_rate p) in
  base + (amount_msat * ppm) / 1000000.

(** [sorted(l, key=key)]: stable *)
Fixpoint insert_by {A} (key : A -> Z) (x : A) (l : list A) : list A :=
  match l with
  | [] => [x]
  | y :: l' => if key x <=? key y then x :: l else y :: insert_by key x l'
  end.

Definition sort_by {A} (key : A -> Z) (l : list A) : list A := foldr (insert_by key) [] l.

(** ** Pigeonhole pairing *)

(** [pigeonhole_channels.remove(ch)] of the first channel of a peer *)
Fixpoint remove_peer (pk : string) (chs : list channel) : list channel :=
  match chs with
  | [] => []
  | ch :: chs => if String.eqb (remote_pubkey ch) pk then chs else ch :: remove_peer pk chs
  end.

(** The loop that sets aside paths Strategy B identifies: the indexes of the
    remaining paths and the channels left. *)
Fixpoint pigeonhole_scan (peers : list string) (i : nat) (ps : list path) (chs : list channel)
    : list (nat * path) * list channel :=
  match ps with
  | [] => ([], chs)
  | p :: ps =>
      let intro_hex := _intro_pubkey_hex p in
      if (default 2 (_real_hops p) =? 1) && negb (String.eqb intro_hex "")
           && bool_decide (intro_hex ∈ peers)
      then pigeonhole_scan peers (S i) ps (remove_peer intro_hex chs)
      else let '(cands, chs) := pigeonhole_scan peers (S i) ps chs in ((i, p) :: cands, chs)
  end.

Definition set_presumed (ch : channel) (p : path) : path :=
  mkPath (introduction_node p) (blinded_hops p) (base_fee_msat p) (proportional_fee_rate p)
    (total_cltv_delta p) (htlc_min_msat p) (htlc_max_msat p) (_intro_pubkey_hex p) (_real_hops p)
    (Some ch) (_htlc_max_msat_advertised p) (_terminal_peer_pubkey p) (_clamped_below_bucket p)
    (_safety_margin_ppm_applied p) (_safety_margin_base_msat_applied p).

Definition _pigeonhole_pair_paths_to_channels (cfg : path_settings) (amount_msat : Z)
    (channels : list channel) (paths : list path) : list path :=
  if negb (bolt12_path_pigeonhole_pairing_enabled cfg) then paths
  else if bool_decide (paths = []) || (length channels =? 0)%nat then paths
  else
    let usable := List.filter (fun ch => (0 <? int_or_0 (remote_balance ch)) && active ch) channels in
    if negb (length paths =? length usable)%nat then paths
    else
      let '(candidates, chs) := pigeonhole_scan (map remote_pubkey usable) 0 paths usable in
      if (length candidates =? 0)%nat || (length chs =? 0)%nat then paths
      else if negb (length candidates =? length chs)%nat then paths
      else
        let paths_sorted := sort_by (fun c => _path_effective_fee_msat amount_msat c.2) candidates in
        let chans_sorted := sort_by (fun c => int_or_0 (remote_balance c)) chs in
        foldl (fun ps ic => alter (set_presumed ic.2) ic.1 ps) paths
          (zip (map fst paths_sorted) chans_sorted).

(** ** Policy refresh *)

(** A side's policy of a gossiped edge. *)
Record policy := mkPolicy {
  fee_base_msat : option Z;
  fee_rate_milli_msat : option Z;
  min_htlc : option Z;
  max_htlc_msat : option Z
}.

Record edge := mkEdge {
  node1_pub : string; node2_pub : string;
  node1_policy : option policy; node2_policy : option policy
}.

(** failure_diagnostics._extract_peer_side_policy, the fields used here *)
Definition _extract_peer_side_policy (e : edge) (our_pubkey peer_pubkey : string) : option policy :=
  if String.eqb (node1_pub e) peer_pubkey && String.eqb (node2_pub e) our_pubkey then node1_policy e
  else if String.eqb (node2_pub e) peer_pubkey && String.eqb (node1_pub e) our_pubkey
  then node2_policy e
  else None.

(** One entry of [refreshes]: the new value, where gossip has one. *)
Definition refreshed (new old : option Z) : option Z :=
  match new with Some n => Some n | None => old end.

Definition refresh_path_policy_from_gossip (get_channel_edge : string -> option edge)
    (our_pubkey : string) (channels : list channel) (p : path) : path :=
  if negb (int_or_0 (_real_hops p) =? 1) then p
  else if String.eqb (_intro_pubkey_hex p) "" then p
  else
    match List.filter (fun ch => String.eqb (remote_pubkey ch) (_intro_pubkey_hex p)) channels with
    | [] => p
    | ch :: _ =>
        if String.eqb (chan_id ch) "" then p
        else match get_channel_edge (chan_id ch) with
             | None => p
             | Some e =>
                 match _extract_peer_side_policy e our_pubkey (_intro_pubkey_hex p) with
                 | None => p
                 | Some pol =>
                     mkPath (introduction_node p) (blinded_hops p)
                       (refreshed (fee_base_msat pol) (base_fee_msat p))
                       (refreshed (fee_rate_milli_msat pol) (proportional_fee_rate p))
                       (total_cltv_delta p)
                       (refreshed (min_htlc pol) (htlc_min_msat p))
                       (refreshed (max_htlc_msat pol) (htlc_max_msat p))
                       (_intro_pubkey_hex p) (_real_hops p) (_presumed_terminal_channel p)
                       (_htlc_max_msat_advertised p) (_terminal_peer_pubkey p)
                       (_clamped_below_bucket p) (_safety_margin_ppm_applied p)
                       (_safety_margin_base_msat_applied p)
                 end
             end
    end.

Definition apply_payinfo_safety_margin (margin_ppm margin_base_msat : Z) (p : path) : path :=
  let margin_ppm := Z.max 0 margin_ppm in
  let margin_base_msat := Z.max 0 margin_base_msat in
  mkPath (introduction_node p) (blinded_hops p)
    (if 0 <? margin_base_msat then Some (int_or_0 (base_fee_msat p) + margin_base_msat) else base_fee_msat p)
    (if 0 <? margin_ppm then Some (int_or_0 (proportional_fee_rate p) + margin_ppm)
     else proportional_fee_rate p)
    (total_cltv_delta p) (htlc_min_msat p) (htlc_max_msat p) (_intro_pubkey_hex p) (_real_hops p)
    (_presumed_terminal_channel p) (_htlc_max_msat_advertised p) (_terminal_peer_pubkey p)
    (_clamped_below_bucket p) (Some margin_ppm) (Some margin_base_msat).

(** ** Liveness *)

Definition probe_path_liveness (connected : gset string) (channels : list channel) (p : path) : bool :=
  let intro_hex := _intro_pubkey_hex p in
  if String.eqb intro_hex "" then true
  else if negb (bool_decide (intro_hex ∈ connected)) then true
  else
    let terminal_pubkey := match _terminal_peer_pubkey p with
                           | Some t => if String.eqb t "" then intro_hex else t
                           | None => intro_hex
                           end in
    let match_chs := List.filter (fun ch => String.eqb (remote_pubkey ch) terminal_pubkey) channels in
    negb (negb (length match_chs =? 0)%nat && negb (existsb active match_chs)).

(** ** Diversity *)

(** A key of [by_intro]: an intro, or the identity of a path without one. *)
Inductive intro_key := Intro (hex : string) | Unknown (i : nat).

Global Instance intro_key_eq_dec : EqDecision intro_key.
Proof. solve_decision. Defined.

Definition key_of (ip : nat * path) : intro_key :=
  if String.eqb (_intro_pubkey_hex ip.2) "" then Unknown ip.1 else Intro (_intro_pubkey_hex ip.2).

(** [by_intro], insertion-ordered; a cheaper path replaces the value in place. *)
Fixpoint keep_cheaper (fee : path -> Z) (k : intro_key) (p : path) (m : list (intro_key * path))
    : list (intro_key * path) :=
  match m with
  | [] => [(k, p)]
  | (k', q) :: m =>
      if bool_decide (k' = k) then (k', if fee p <? fee q then p else q) :: m
      else (k', q) :: keep_cheaper fee k p m
  end.

(** [l[:n]] *)
Definition slice_to {A} (n : Z) (l : list A) : list A :=
  take (Z.to_nat (if n <? 0 then Z.of_nat (length l) + n else n)) l.

Definition select_diverse_paths (amount_msat : Z) (max_count : Z) (paths : list path) : list path :=
  let fee := _path_effective_fee_msat amount_msat in
  let by_intro := foldl (fun m ip => keep_cheaper fee (key_of ip) ip.2 m) []
                    (zip (seq 0 (length paths)) paths) in
  let chosen := sort_by fee (map snd by_intro) in
  slice_to max_count chosen.

(** ** Breaker *)

(** [is_open] on the paths of a list in turn. *)
Fixpoint look_all (now : Z) (r : registry) (ps : list path) : list bool * registry :=
  match ps with
  | [] => ([], r)
  | p :: ps =>
      let '(o, r) := is_open r (_intro_pubkey_hex p) now in
      let '(os, r) := look_all now r ps in
      (o :: os, r)
  end.

(** [all(is_open(p) for p in paths)] stops at the first [False]. *)
Fixpoint all_open (now : Z) (r : registry) (ps : list path) : bool * registry :=
  match ps with
  | [] => (true, r)
  | p :: ps =>
      let '(o, r) := is_open r (_intro_pubkey_hex p) now in
      if o then all_open now r ps else (false, r)
  end.

Definition all_intros_open (cfg : path_settings) (now : Z) (r : registry) (ps : list path)
    : bool * registry :=
  match ps with
  | [] => (false, r)
  | _ => if negb (bolt12_path_breaker_enabled cfg) then (false, r) else all_open now r ps
  end.

Definition apply_breaker_filter (cfg : path_settings) (now : Z) (r : registry) (ps : list path)
    : list path * registry :=
  if negb (bolt12_path_breaker_enabled cfg) then (ps, r)
  else
    let '(os, r) := look_all now r ps in
    let marked := zip os ps in
    let healthy := map snd (List.filter (fun op => negb op.1) marked) in
    let deprioritised := map snd (List.filter fst marked) in
    (healthy ++ deprioritised, r).

(** ** Metadata *)

(** The value of a base64 character. *)
Definition b64_value (c : ascii) : option Z :=
  let n := Z.of_N (N_of_ascii c) in
  if (65 <=? n) && (n <=? 90) then Some (n - 65)
  else if (97 <=? n) && (n <=? 122) then Some (n - 71)
  else if (48 <=? n) && (n <=? 57) then Some (n + 4)
  else if n =? 43 then Some 62
  else if n =? 47 then Some 63
  else None.

(** [binascii.a2b_base64], not strict: characters outside the alphabet are
    skipped, a complete pad ends the input. State: position in the quad,
    bits carried over, pads seen. [None]: [binascii.Error]. *)
Fixpoint a2b (s : string) (quad_pos : nat) (leftchar : Z) (pads : nat) : option bytes :=
  match s with
  | EmptyString => match quad_pos with O => Some [] | _ => None end
  | String c s =>
      if Ascii.eqb c "=" then
        if (2 <=? quad_pos)%nat
        then if (4 <=? quad_pos + S pads)%nat then Some [] else a2b s quad_pos leftchar (S pads)
        else a2b s quad_pos leftchar pads
      else match b64_value c with
           | None => a2b s quad_pos leftchar pads
           | Some v =>
               match quad_pos with
               | 0%nat => a2b s 1 v 0
               | 1%nat => cons (z2b (Z.lor (Z.shiftl leftchar 2) (Z.shiftr v 4))) <$> a2b s 2 (Z.land v 15) 0
               | 2%nat => cons (z2b (Z.lor (Z.shiftl leftchar 4) (Z.shiftr v 2))) <$> a2b s 3 (Z.land v 3) 0
               | _ => cons (z2b (Z.lor (Z.shiftl leftchar 6) v)) <$> a2b s 0 0 0
               end
           end
  end.

(** [base64.b64decode] of a text: non-ASCII text raises [ValueError]. *)
Definition b64decode (s : string) : option bytes :=
  if forallb (fun c => (N_of_ascii c <? 128)%N) (String.list_ascii_of_string s)
  then a2b s 0 0 0 else None.

Definition annotate_path_metadata (p : path) : path :=
  let intro_bytes := match b64decode (introduction_node p) with Some b => b | None => [] end in
  mkPath (introduction_node p) (blinded_hops p) (base_fee_msat p) (proportional_fee_rate p)
    (total_cltv_delta p) (htlc_min_msat p) (htlc_max_msat p) (hex intro_bytes)
    (Some (Z.max 0 (Z.of_nat (blinded_hops p) - 1)))
    (_presumed_terminal_channel p) (_htlc_max_msat_advertised p) (_terminal_peer_pubkey p)
    (_clamped_below_bucket p) (_safety_margin_ppm_applied p) (_safety_margin_base_msat_applied p).

Record path_summary := mkSummary {
  s_intro_pubkey : string;
  s_real_hops : option Z;
  s_htlc_max_msat_advertised : option Z;
  s_htlc_max_msat_clamped : Z;
  s_terminal_peer_pubkey : option string;
  s_encoded_base_fee_msat : option Z;
  s_encoded_proportional_fee_rate : option Z;
  s_encoded_total_cltv_delta : option Z;
  s_encoded_htlc_min_msat : option Z;
  s_safety_margin_ppm_applied : option Z;
  s_safety_margin_base_msat_applied : option Z
}.

Definition summary_of (p : path) : path_summary :=
  mkSummary (_intro_pubkey_hex p) (_real_hops p)
    (match _htlc_max_msat_advertised p with Some a => Some a | None => htlc_max_msat p end)
    (int_or_0 (htlc_max_msat p)) (_terminal_peer_pubkey p) (base_fee_msat p)
    (proportional_fee_rate p) (total_cltv_delta p) (htlc_min_msat p)
    (_safety_margin_ppm_applied p) (_safety_margin_base_msat_applied p).

Definition build_paths_summary (paths : list path) : list path_summary := map summary_of paths.

Record drops := mkDrops {
  starting : nat; after_clamp : nat; after_undersized_drop : nat; after_probe : nat;
  after_diversity : nat; deprioritised_by_breaker : nat
}.

Record PostprocessResult := mkResult {
  res_paths : list path; res_summary : list path_summary; res_drops : drops
}.

(** ** The pipeline *)

Section pipeline.
Context (cfg : path_settings) (get_channel_edge : string -> option edge) (connected : gset string).
Context (amount_msat : Z) (channels : list channel) (our_pubkey : string) (max_paths : Z).

(** Everything that rewrites single paths, up to the clamp. *)
Definition rewrite_paths (raw_paths : list path) : list path :=
  let ps := map annotate_path_metadata raw_paths in
  let ps := if bolt12_blinded_path_refresh_policy_from_gossip cfg
            then map (refresh_path_policy_from_gossip get_channel_edge our_pubkey channels) ps else ps in
  let ps := map (apply_payinfo_safety_margin (bolt12_blinded_path_payinfo_safety_margin_ppm cfg)
                   (bolt12_blinded_path_payinfo_safety_margin_base_msat cfg)) ps in
  let ps := _pigeonhole_pair_paths_to_channels cfg amount_msat channels ps in
  map (clamp_path_htlc_max cfg channels) ps.

Definition postprocess_blinded_paths (now : Z) (r : registry) (raw_paths : list path)
    : PostprocessResult * registry :=
  let start := length raw_paths in
  let ps := rewrite_paths raw_paths in
  let ps := List.filter (fun p => negb (_clamped_below_bucket p)) ps in
  let n_clamp := length ps in
  let ps := if bolt12_drop_undersized_paths cfg then List.filter (path_meets_amount amount_msat) ps else ps in
  let n_undersized := length ps in
  let ps := if bolt12_probe_paths_before_mint cfg && negb (bool_decide (ps = []))
            then List.filter (probe_path_liveness connected channels) ps else ps in
  let n_probe := length ps in
  let ps := if bolt12_path_diversity_enforce cfg && (1 <? length ps)%nat
            then select_diverse_paths amount_msat max_paths ps else ps in
  let n_div := length ps in
  let '(ps, deprio, r) :=
    if bolt12_path_breaker_enabled cfg then
      let '(ps, r) := apply_breaker_filter cfg now r ps in
      let '(os, r) := look_all now r ps in
      (ps, length (List.filter id os), r)
    else (ps, 0%nat, r) in
  (mkResult ps (build_paths_summary ps) (mkDrops start n_clamp n_undersized n_probe n_div deprio), r).
End pipeline.

(** ** Sorting *)

Lemma insert_by_perm {A} (key : A -> Z) x l : insert_by key x l ≡ₚ x :: l.
Proof. induction l as [|y l IH]; simpl; [done|]. case_match; [done|]. rewrite IH. constructor. Qed.

Lemma sort_by_perm {A} (key : A -> Z) l : sort_by key l ≡ₚ l.
Proof. induction l as [|x l IH]; simpl; [done|]. by rewrite insert_by_perm, IH. Qed.

Lemma insert_by_sorted {A} (key : A -> Z) x l :
  StronglySorted (fun a b => key a <= key b) l -> StronglySorted (fun a b => key a <= key b) (insert_by key x l).
Proof.
  induction l as [|y l IH]; simpl; intros Hl; [by repeat constructor|].
  inversion Hl as [|? ? Hl' Hy]; subst. destruct (Z.leb_spec (key x) (key y)).
  - constructor; [done|]. constructor; [done|]. eapply Forall_impl; [exact Hy|]. simpl. lia.
  - constructor; [auto|]. rewrite insert_by_perm. constructor; [lia|done].
Qed.

Lemma sort_by_sorted {A} (key : A -> Z) l : StronglySorted (fun a b => key a <= key b) (sort_by key l).
Proof. induction l as [|x l IH]; simpl; [constructor|]. by apply insert_by_sorted. Qed.

(** ** Caps *)

Lemma safe_cap_range bal ppm : 0 <= ppm -> 0 <= _safe_cap_sat bal ppm <= Z.max 0 bal.
Proof.
  intros Hp. unfold _safe_cap_sat. destruct (Z.leb_spec bal 0); [lia|].
  assert (0 <= bal * ppm / 1000000) by (apply Z.div_pos; nia). lia.
Qed.

Lemma bucket_floor_range v b :
  0 <= v -> 0 <= _bucket_floor_msat v b <= v /\ (0 < b -> v - _bucket_floor_msat v b < b) /\
  (0 < b -> (b | _bucket_floor_msat v b)).
Proof.
  intros Hv. unfold _bucket_floor_msat. destruct (Z.leb_spec b 0); [split; [lia|]; split; lia|].
  pose proof (Z.div_pos v b ltac:(lia) ltac:(lia)). pose proof (Z.mul_div_le v b ltac:(lia)).
  pose proof (Z.mod_pos_bound v b ltac:(lia)). pose proof (Z.div_mod v b ltac:(lia)).
  split; [nia|]. split; [nia|]. intros _. by exists (v / b).
Qed.

(** What the clamp does to the advertised maximum. *)
Lemma clamp_max cfg chs p :
  let adv := int_or_0 (htlc_max_msat p) in
  let cap := clamp_cap_msat p chs (bolt12_htlc_max_safety_buffer_ppm cfg) in
  let p' := clamp_path_htlc_max cfg chs p in
  (0 < cap < adv -> htlc_max_msat p' = Some (_bucket_floor_msat cap (bolt12_htlc_max_bucket_msat cfg)) /\
     (_bucket_floor_msat cap (bolt12_htlc_max_bucket_msat cfg) <= 0 -> _clamped_below_bucket p' = true)) /\
  (~ (0 < cap < adv) -> htlc_max_msat p' = htlc_max_msat p).
Proof.
  intros adv cap p'. subst p'. unfold clamp_path_htlc_max. fold adv cap.
  destruct (Z.ltb_spec 0 cap), (Z.ltb_spec cap adv); cbn; (split; [|try done; lia]); intros; try lia.
  split; [done|]. intros Hb. by rewrite (proj2 (Z.leb_le _ _)).
Qed.

(** ** Diversity *)

Section diversity.
Context (fee : path -> Z).

Definition keyed_le (p q : path) : Prop := fee q <= fee p.

Lemma keep_cheaper_keys k p m :
  map fst (keep_cheaper fee k p m) = if decide (k ∈ map fst m) then map fst m else map fst m ++ [k].
Proof.
  induction m as [|[k' q] m IH]; simpl; [done|].
  case_bool_decide as Hk; simpl.
  - subst k'. destruct (decide (k ∈ k :: map fst m)) as [|Hn]; [done|]. destruct Hn. left.
  - rewrite IH. destruct (decide (k ∈ map fst m)) as [Hin|Hin], (decide (k ∈ k' :: map fst m)) as [Hin'|Hin'];
      try done; exfalso.
    + apply Hin'. by right.
    + apply elem_of_cons in Hin' as [->|?]; done.
Qed.

(** The table after [ips]: distinct keys, every entry one of the paths seen
    with that key, and no dearer than any path seen with it. *)
Definition table_ok (ips : list (nat * path)) (m : list (intro_key * path)) : Prop :=
  NoDup (map fst m) /\
  (forall k q, (k, q) ∈ m -> exists ip, ip ∈ ips /\ key_of ip = k /\ ip.2 = q) /\
  (forall ip, ip ∈ ips -> exists q, (key_of ip, q) ∈ m /\ fee q <= fee ip.2).

Lemma keep_cheaper_elem k p m k' q :
  (k', q) ∈ keep_cheaper fee k p m ->
  (k', q) ∈ m \/ (k' = k /\ q = p).
Proof.
  induction m as [|[k1 q1] m IH]; simpl.
  - rewrite list_elem_of_singleton. intros [= -> ->]. auto.
  - case_bool_decide as Hk; rewrite !elem_of_cons.
    + subst k1. intros [[= -> ->]|?]; [|auto]. destruct (fee p <? fee q1); auto.
    + intros [?|[?|?]%IH]; auto.
Qed.

Lemma keep_cheaper_new k p m :
  NoDup (map fst m) -> exists q, (k, q) ∈ keep_cheaper fee k p m /\ fee q <= fee p.
Proof.
  induction m as [|[k1 q1] m IH]; simpl; intros Hd.
  - exists p. split; [left|lia].
  - apply NoDup_cons in Hd as [_ Hd]. case_bool_decide as Hk.
    + subst k1. destruct (Z.ltb_spec (fee p) (fee q1)); eexists; (split; [left|lia]).
    + destruct (IH Hd) as (q & Hq & Hle). exists q. split; [by right|done].
Qed.

Lemma keep_cheaper_old k p m k' q :
  (k', q) ∈ m -> exists q', (k', q') ∈ keep_cheaper fee k p m /\ fee q' <= fee q.
Proof.
  induction m as [|[k1 q1] m IH]; simpl; [by intros ?%elem_of_nil|].
  rewrite elem_of_cons. case_bool_decide as Hk.
  - intros [[= -> ->]|Hin].
    + destruct (Z.ltb_spec (fee p) (fee q1)); eexists; (split; [left|lia]).
    + exists q. split; [by right|lia].
  - intros [[= -> ->]|Hin]; [exists q1; split; [left|lia]|].
    destruct (IH Hin) as (q' & Hq & Hle). exists q'. split; [by right|done].
Qed.

Lemma table_step ips m ip :
  table_ok ips m -> table_ok (ips ++ [ip]) (keep_cheaper fee (key_of ip) ip.2 m).
Proof.
  intros (Hd & Hs & Hc). split; [|split].
  - rewrite keep_cheaper_keys. destruct (decide _) as [|Hn]; [done|]. apply NoDup_app.
    split; [done|]. split; [|apply NoDup_singleton]. by intros k Hk ->%list_elem_of_singleton.
  - intros k q [Hin|[-> ->]]%keep_cheaper_elem.
    + destruct (Hs _ _ Hin) as (ip' & Hi & ?). exists ip'. rewrite elem_of_app. auto.
    + exists ip. rewrite elem_of_app, list_elem_of_singleton. auto.
  - intros ip' [Hin|Hin]%elem_of_app.
    + destruct (Hc _ Hin) as (q & Hq & Hle). destruct (keep_cheaper_old (key_of ip) ip.2 m _ _ Hq)
        as (q' & Hq' & Hle'). exists q'. split; [done|lia].
    + apply list_elem_of_singleton in Hin as ->. by apply keep_cheaper_new.
Qed.

Lemma table_fold ips : forall seen m,
  table_ok seen m ->
  table_ok (seen ++ ips) (foldl (fun m ip => keep_cheaper fee (key_of ip) ip.2 m) m ips).
Proof.
  induction ips as [|ip ips IH]; intros seen m H; simpl; [by rewrite app_nil_r|].
  rewrite cons_middle, app_assoc. apply IH. by apply table_step.
Qed.

Lemma table_build ips : table_ok ips (foldl (fun m ip => keep_cheaper fee (key_of ip) ip.2 m) [] ips).
Proof.
  apply (table_fold ips [] []). split; [constructor|].
  split; [intros ? ? H|intros ? H]; by apply elem_of_nil in H.
Qed.
End diversity.

Lemma zip_seq_elem {A} (l : list A) x : x ∈ l -> exists i, (i, x) ∈ zip (seq 0 (length l)) l.
Proof.
  intros [i Hi]%list_elem_of_lookup. exists i. apply list_elem_of_lookup. exists i.
  rewrite lookup_zip_with. rewrite lookup_seq_lt by (by eapply lookup_lt_Some). simpl. by rewrite Hi.
Qed.

Lemma zip_elem_snd {A B} (l : list A) (k : list B) ip : ip ∈ zip l k -> ip.2 ∈ k.
Proof.
  revert k. induction l as [|a l IH]; intros [|b k]; simpl; try by intros ?%elem_of_nil.
  rewrite elem_of_cons. intros [->|H]; [left|right; by apply IH].
Qed.

(** Intros of a table's values follow its keys. *)
Lemma table_intros fee ips m :
  table_ok fee ips m ->
  NoDup (List.filter (fun h => negb (String.eqb h "")) (map (fun kp => _intro_pubkey_hex kp.2) m)).
Proof.
  intros (Hd & Hs & _). induction m as [|[k q] m IH]; simpl; [constructor|].
  simpl in Hd. apply NoDup_cons in Hd as [Hk Hd].
  assert (Hm : forall k' q', (k', q') ∈ m -> exists ip, ip ∈ ips /\ key_of ip = k' /\ ip.2 = q').
  { intros k' q' Hin. apply Hs. by right. }
  destruct (String.eqb_spec (_intro_pubkey_hex q) "") as [|Hne]; simpl; [by apply IH|].
  apply NoDup_cons. split; [|by apply IH]. intros Hin.
  apply list_elem_of_In, List.filter_In in Hin as [Hin _].
  apply List.in_map_iff in Hin as ([k' q'] & Heq & Hin%list_elem_of_In). simpl in Heq.
  destruct (Hs k q ltac:(left)) as (ip & _ & Hkip & Hq). destruct (Hm _ _ Hin) as (ip' & _ & Hkip' & Hq').
  apply Hk. apply list_elem_of_fmap. exists (k', q'). split; [|done]. simpl.
  rewrite <- Hkip, <- Hkip'. unfold key_of. rewrite Hq, Hq', Heq.
  by rewrite (proj2 (String.eqb_neq _ _) Hne).
Qed.

(** A prefix of a sorted list against what was cut off. *)
Lemma take_sorted_rest {A} (key : A -> Z) n l x :
  StronglySorted (fun a b => key a <= key b) l -> x ∈ l ->
  x ∈ take n l \/ (length (take n l) = n /\ forall y, y ∈ take n l -> key y <= key x).
Proof.
  revert n. induction l as [|a l IH]; intros n Hs Hx; [by apply elem_of_nil in Hx|].
  inversion Hs as [|? ? Hs' Ha]; subst. destruct n as [|n].
  { right. split; [done|]. intros y Hy. simpl in Hy. by apply elem_of_nil in Hy. }
  simpl. apply elem_of_cons in Hx as [->|Hx]; [left; left|].
  destruct (IH n Hs' Hx) as [H|[Hl H]]; [left; by right|right]. split; [by rewrite Hl|].
  intros y [->|Hy]%elem_of_cons; [|auto]. rewrite Forall_forall in Ha. auto.
Qed.

(** ** Breaker *)

Lemma set_same r k st : lookup_intro r k = Some st -> set_intro r k st = r.
Proof.
  induction r as [|[k' st'] r IH]; simpl; [done|]. destruct (String.eqb k' k).
  - by intros [= ->].
  - intros H. by rewrite IH.
Qed.

(** Probe already claimed. *)
Definition claimed_in (r : registry) (k : string) : Prop :=
  exists st, lookup_intro r k = Some st /\ pb_state st = PHalfOpen /\ pb_claimed st = true.

Lemma is_open_claimed r k now : k <> ""%string -> claimed_in r k -> is_open r k now = (true, r).
Proof.
  intros Hk (st & Hl & Hs & Hc). unfold is_open. rewrite (proj2 (String.eqb_neq _ _) Hk), Hl.
  rewrite look_probing by by left. rewrite Hs, Hc, bool_decide_true by done. cbn.
  f_equal. apply set_same. rewrite Hl. f_equal. destruct st; simpl in *; by subst.
Qed.

(** Cooldown lapsed, nobody has looked since. *)
Definition lapsed_in (r : registry) (k : string) (now : Z) : Prop :=
  exists st, lookup_intro r k = Some st /\ pb_state st = POpen /\
    pb_cooldown st <= now - pb_opened_at st.

Lemma is_open_lapsed r k now :
  k <> ""%string -> lapsed_in r k now ->
  exists r', is_open r k now = (false, r') /\ claimed_in r' k /\
    forall k', k' <> k -> lookup_intro r' k' = lookup_intro r k'.
Proof.
  intros Hk (st & Hl & Hs & Hc). unfold is_open. rewrite (proj2 (String.eqb_neq _ _) Hk), Hl.
  rewrite look_probing by by right. rewrite Hs, bool_decide_false by done. cbn.
  eexists. split; [done|]. split.
  - eexists. split; [by apply lookup_set_eq; eauto|]. done.
  - intros k' Hk'. by apply lookup_set_ne.
Qed.

Lemma look_all_lapsed now ps : forall r,
  NoDup (map _intro_pubkey_hex ps) ->
  Forall (fun p => _intro_pubkey_hex p <> ""%string /\ lapsed_in r (_intro_pubkey_hex p) now) ps ->
  exists r', look_all now r ps = (repeat false (length ps), r') /\
    Forall (fun p => claimed_in r' (_intro_pubkey_hex p)) ps /\
    forall k, k ∉ map _intro_pubkey_hex ps -> lookup_intro r' k = lookup_intro r k.
Proof.
  induction ps as [|p ps IH]; intros r Hd HF; simpl; [eauto|].
  simpl in Hd. apply NoDup_cons in Hd as [Hp Hd]. apply Forall_cons in HF as [[Hne Hl] HF].
  destruct (is_open_lapsed _ _ _ Hne Hl) as (r1 & -> & Hc1 & Ho1).
  destruct (IH r1 Hd) as (r2 & -> & Hc2 & Ho2).
  { rewrite Forall_forall in HF |- *. intros q Hq. destruct (HF q Hq) as [Hq1 (st & Hst & ?)].
    split; [done|]. exists st. rewrite Ho1; [done|]. intros E. apply Hp. rewrite <- E.
    by apply list_elem_of_fmap_2. }
  exists r2. split; [done|]. split.
  - constructor; [|done]. destruct Hc1 as (st & Hst & ?). exists st. by rewrite Ho2.
  - intros k Hk. rewrite not_elem_of_cons in Hk. destruct Hk. rewrite Ho2, Ho1 by done. done.
Qed.

Lemma all_open_claimed now ps r :
  Forall (fun p => _intro_pubkey_hex p <> ""%string /\ claimed_in r (_intro_pubkey_hex p)) ps ->
  all_open now r ps = (true, r) /\ look_all now r ps = (repeat true (length ps), r).
Proof.
  induction 1 as [|p ps [Hne Hc] _ [IH1 IH2]]; simpl; [done|].
  rewrite is_open_claimed by done. by rewrite IH1, IH2.
Qed.

Lemma marked_false (ps : list path) :
  map snd (List.filter (fun op => negb op.1) (zip (repeat false (length ps)) ps)) = ps /\
  map snd (List.filter fst (zip (repeat false (length ps)) ps)) = [].
Proof. induction ps as [|p ps [IH1 IH2]]; simpl; [done|]. by rewrite IH1, IH2. Qed.

Lemma length_look_all now ps : forall r, length (fst (look_all now r ps)) = length ps.
Proof.
  induction ps as [|p ps IH]; intros r; simpl; [done|].
  destruct (is_open r _ now) as [o r1]. specialize (IH r1).
  destruct (look_all now r1 ps) as [os r2]. simpl in *. by rewrite IH.
Qed.

Lemma partition_perm (os : list bool) (ps : list path) :
  length os = length ps ->
  map snd (List.filter (fun op => negb op.1) (zip os ps)) ++ map snd (List.filter fst (zip os ps)) ≡ₚ ps.
Proof.
  revert ps. induction os as [|o os IH]; intros [|p ps] H; simpl in *; try done.
  injection H as H. destruct o; simpl; [rewrite <- Permutation_middle|]; by rewrite IH.
Qed.

Lemma breaker_filter_perm cfg now r ps ps' r' :
  apply_breaker_filter cfg now r ps = (ps', r') -> ps' ≡ₚ ps.
Proof.
  unfold apply_breaker_filter. case_match; [by intros [= <- <-]|].
  pose proof (length_look_all now ps r) as Hl.
  destruct (look_all now r ps) as [os r1]. intros [= <- <-]. by apply partition_perm.
Qed.

(** What a step of the pipeline may change in a path: its payinfo and the
    pipeline's own keys, never the blinded path itself. *)
Definition same_route (p q : path) : Prop :=
  introduction_node p = introduction_node q /\ blinded_hops p = blinded_hops q /\
  total_cltv_delta p = total_cltv_delta q.

Global Instance same_route_equiv : Equivalence same_route.
Proof. unfold same_route. split; [done|intros ? ? H; intuition|intros ? ? ? H1 H2; intuition congruence]. Qed.

Lemma annotate_same_route p : same_route (annotate_path_metadata p) p.
Proof. done. Qed.

Lemma refresh_same_route g our chs p : same_route (refresh_path_policy_from_gossip g our chs p) p.
Proof. unfold refresh_path_policy_from_gossip. by repeat case_match. Qed.

Lemma clamp_same_route cfg chs p : same_route (clamp_path_htlc_max cfg chs p) p.
Proof. unfold clamp_path_htlc_max. by case_match. Qed.

Lemma map_same_route f ps : (forall p, same_route (f p) p) -> Forall2 same_route (map f ps) ps.
Proof. intros H. induction ps; simpl; by constructor. Qed.

Lemma foldl_presume_same_route (ics : list (nat * channel)) : forall ps qs,
  Forall2 same_route ps qs ->
  Forall2 same_route (foldl (fun ps ic => alter (set_presumed ic.2) ic.1 ps) ps ics) qs.
Proof.
  induction ics as [|[i ch] ics IH]; intros ps qs H; simpl; [done|]. apply IH.
  by apply Forall2_alter_l; [|intros].
Qed.

Lemma pigeonhole_same_route cfg amt chs ps :
  Forall2 same_route (_pigeonhole_pair_paths_to_channels cfg amt chs ps) ps.
Proof.
  unfold _pigeonhole_pair_paths_to_channels.
  repeat (case_match; try done). by apply foldl_presume_same_route.
Qed.

Lemma rewrite_same_route cfg g amt chs our raw :
  Forall2 same_route (rewrite_paths cfg g amt chs our raw) raw.
Proof.
  unfold rewrite_paths.
  etrans; [by apply map_same_route, clamp_same_route|].
  etrans; [by apply pigeonhole_same_route|].
  etrans; [by apply map_same_route|].
  etrans; [|by apply map_same_route, annotate_same_route].
  case_match; [|done]. by apply map_same_route, refresh_same_route.
Qed.

(** ** Selection *)

(** The paths [select_diverse_paths] sorts. *)
Definition cheapest (fee : path -> Z) (paths : list path) : list (intro_key * path) :=
  foldl (fun m ip => keep_cheaper fee (key_of ip) ip.2 m) [] (zip (seq 0 (length paths)) paths).

Lemma select_unfold amt n paths :
  select_diverse_paths amt n paths =
  slice_to n (sort_by (_path_effective_fee_msat amt)
    (map snd (cheapest (_path_effective_fee_msat amt) paths))).
Proof. done. Qed.

Lemma nodup_filter_map_perm (l k : list path) (P : string -> bool) :
  l ≡ₚ k -> NoDup (List.filter P (map _intro_pubkey_hex k)) -> NoDup (List.filter P (map _intro_pubkey_hex l)).
Proof.
  intros Hp. assert (E : List.filter P (map _intro_pubkey_hex l) ≡ₚ List.filter P (map _intro_pubkey_hex k)).
  { induction Hp as [|x l k _ IH|x y l|l k m _ IH1 _ IH2]; simpl; [done| | |by etrans].
    - case_match; by rewrite IH.
    - destruct (P (_intro_pubkey_hex x)), (P (_intro_pubkey_hex y)); try done. constructor. }
  by rewrite E.
Qed.

Lemma nodup_filter_take {A} (P : A -> bool) n (l : list A) :
  NoDup (List.filter P l) -> NoDup (List.filter P (take n l)).
Proof.
  intros H. rewrite <- (take_drop n l), List.filter_app in H. by apply NoDup_app in H as [H _].
Qed.

(** The named intros of a list of paths. *)
Definition named_intros (ps : list path) : list string :=
  List.filter (fun h => negb (String.eqb h "")) (map _intro_pubkey_hex ps).

Lemma select_distinct amt n paths : NoDup (named_intros (select_diverse_paths amt n paths)).
Proof.
  rewrite select_unfold. unfold named_intros, slice_to. rewrite <- firstn_map. apply nodup_filter_take.
  eapply nodup_filter_map_perm; [apply sort_by_perm|].
  rewrite map_map. eapply table_intros. apply table_build.
Qed.

Lemma select_incl amt n paths p : p ∈ select_diverse_paths amt n paths -> p ∈ paths.
Proof.
  rewrite select_unfold. unfold slice_to. intros Hp%elem_of_take. destruct Hp as (i & Hp & _).
  apply list_elem_of_lookup_2 in Hp. rewrite sort_by_perm in Hp.
  apply list_elem_of_fmap in Hp as ([k q] & -> & Hin).
  destruct (proj1 (proj2 (table_build (_path_effective_fee_msat amt) _)) _ _ Hin) as (ip & Hip & _ & <-).
  exact (zip_elem_snd _ _ _ Hip).
Qed.

Lemma take_sorted {A} (R : A -> A -> Prop) n l : StronglySorted R l -> StronglySorted R (take n l).
Proof.
  intros H. revert n. induction H as [|a l Hl IH Ha]; intros [|n]; simpl; constructor; auto.
  by apply Forall_take.
Qed.

(** Every input path with an intro is served at its price or better, or it
    lost its place to cheaper paths. *)
Lemma select_serves amt n paths p :
  let fee := _path_effective_fee_msat amt in
  0 <= n -> p ∈ paths ->
  (exists q, q ∈ select_diverse_paths amt n paths /\ fee q <= fee p /\
     (_intro_pubkey_hex p <> ""%string -> _intro_pubkey_hex q = _intro_pubkey_hex p)) \/
  (length (select_diverse_paths amt n paths) = Z.to_nat n /\
   forall q, q ∈ select_diverse_paths amt n paths -> fee q <= fee p).
Proof.
  intros fee Hn Hp. destruct (zip_seq_elem _ _ Hp) as [i Hi].
  destruct (table_build fee (zip (seq 0 (length paths)) paths)) as (_ & Hs & Hc).
  destruct (Hc _ Hi) as (q & Hq & Hle). simpl in Hle.
  assert (Hin : q ∈ sort_by fee (map snd (cheapest fee paths))).
  { rewrite sort_by_perm. exact (list_elem_of_fmap_2 snd _ _ Hq). }
  rewrite select_unfold. fold fee. unfold slice_to. rewrite (proj2 (Z.ltb_ge n 0)) by lia.
  destruct (take_sorted_rest fee (Z.to_nat n) _ _ (sort_by_sorted fee _) Hin) as [H|[Hl H]].
  - left. exists q. split; [done|]. split; [done|]. intros Hne.
    destruct (Hs _ _ Hq) as (ip & _ & Hk & Hq'). unfold key_of in Hk. simpl in Hk.
    rewrite Hq', (proj2 (String.eqb_neq _ _) Hne) in Hk.
    by destruct (String.eqb_spec (_intro_pubkey_hex q) ""); simplify_eq.
  - right. split; [done|]. intros y Hy. specialize (H y Hy). lia.
Qed.

(** ** Properties *)

(** The clamp: never above what LND advertised; with a receivable
    balance [cap] never above it, and what is advertised instead is a
    positive multiple of the bucket less than one bucket below it, unless
    the path is marked for dropping. Without one ([cap = 0]) the advertised
    maximum stays as it was. *)
Theorem clamp_sound cfg chs p :
  let adv := int_or_0 (htlc_max_msat p) in
  let cap := clamp_cap_msat p chs (bolt12_htlc_max_safety_buffer_ppm cfg) in
  let bucket := bolt12_htlc_max_bucket_msat cfg in
  let p' := clamp_path_htlc_max cfg chs p in
  let new := int_or_0 (htlc_max_msat p') in
  new <= adv /\
  (0 < cap -> new <= cap) /\
  (0 < cap < adv -> 0 < bucket -> (bucket | new) /\ cap - new < bucket /\
     (new <= 0 <-> new = 0) /\ (new = 0 -> _clamped_below_bucket p' = true)) /\
  (cap <= 0 -> htlc_max_msat p' = htlc_max_msat p).
Proof.
  intros adv cap bucket p' new. destruct (clamp_max cfg chs p) as [Hin Hout].
  fold adv cap bucket p' in Hin, Hout.
  destruct (decide (0 < cap < adv)) as [Hc|Hc].
  - destruct (Hin Hc) as [Hn Hb]. destruct (bucket_floor_range cap bucket ltac:(lia)) as (Hr & Hg & Hd).
    assert (Hnew : new = _bucket_floor_msat cap bucket) by (unfold new; by rewrite Hn). rewrite Hnew. split; [lia|]. split; [lia|]. split; [|lia].
    intros _ H0. split; [auto|]. split; [auto|]. split; [lia|]. intros H. apply Hb. lia.
  - subst new. rewrite (Hout Hc). fold adv. split; [lia|]. split; [lia|]. split; [lia|]. done.
Qed.

Lemma clamp_sound_witness :
  let ch := mkChan "1" "aa" (Some 250000) true None in
  let p := mkPath "" 2 None None None None (Some 900000000) "aa" (Some 1) None None None false None None in
  let cfg := mkPS true 20000 50000000 true true 0 0 false true true in
  htlc_max_msat (clamp_path_htlc_max cfg [ch] p) = Some 200000000 /\
  int_or_0 (htlc_max_msat (clamp_path_htlc_max cfg [ch] p)) <= 245000000.
Proof.
  intros ch p cfg. split; [reflexivity|].
  assert (E : clamp_cap_msat p [ch] 20000 = 245000000) by reflexivity. rewrite <- E.
  apply (proj1 (proj2 (clamp_sound cfg [ch] p))). vm_compute. reflexivity.
Defined.

(** What the clamped path tells about the receivable balance is its
    bucket: two states of the channels that identify the same peer and put
    the cap into the same bucket yield the same path, bit for bit. *)
Theorem clamp_discloses_bucket cfg chs1 chs2 p :
  let adv := int_or_0 (htlc_max_msat p) in
  let ppm := bolt12_htlc_max_safety_buffer_ppm cfg in
  let bucket := bolt12_htlc_max_bucket_msat cfg in
  0 < bucket ->
  remote_pubkey <$> _identify_terminal_channel p chs1 = remote_pubkey <$> _identify_terminal_channel p chs2 ->
  0 < clamp_cap_msat p chs1 ppm < adv ->
  0 < clamp_cap_msat p chs2 ppm < adv ->
  clamp_cap_msat p chs1 ppm / bucket = clamp_cap_msat p chs2 ppm / bucket ->
  clamp_path_htlc_max cfg chs1 p = clamp_path_htlc_max cfg chs2 p.
Proof.
  intros adv ppm bucket Hb Ht H1 H2 Hq. unfold clamp_path_htlc_max. fold adv ppm bucket.
  assert (Ht' : match _identify_terminal_channel p chs1 with Some ch => Some (remote_pubkey ch) | None => None end
    = match _identify_terminal_channel p chs2 with Some ch => Some (remote_pubkey ch) | None => None end).
  { exact Ht. }
  rewrite Ht'. unfold _bucket_floor_msat. rewrite Hq.
  repeat match goal with |- context [?a <? ?b] => rewrite (proj2 (Z.ltb_lt a b)) by lia end.
  by rewrite (proj2 (Z.leb_gt bucket 0) Hb).
Qed.

Lemma clamp_discloses_bucket_witness :
  let c1 := mkChan "1" "aa" (Some 250000) true None in
  let c2 := mkChan "1" "aa" (Some 210000) true None in
  let p := mkPath "" 2 None None None None (Some 900000000) "aa" (Some 1) None None None false None None in
  let cfg := mkPS true 20000 50000000 true true 0 0 false true true in
  clamp_path_htlc_max cfg [c1] p = clamp_path_htlc_max cfg [c2] p.
Proof.
  intros c1 c2 p cfg.
  apply (clamp_discloses_bucket cfg [c1] [c2] p); vm_compute; first [reflexivity|split; reflexivity].
Defined.

(** [select_diverse_paths]: at most [max_count] of the given paths,
    cheapest first, no named intro twice; and every given path is represented
    by one of its intro that costs no more, or every place is taken by a path
    that costs no more. *)
Theorem select_diverse_correct amt n paths :
  let fee := _path_effective_fee_msat amt in
  let out := select_diverse_paths amt n paths in
  0 <= n ->
  (forall p, p ∈ out -> p ∈ paths) /\ (length out <= Z.to_nat n)%nat /\
  StronglySorted (fun p q => fee p <= fee q) out /\
  NoDup (named_intros out) /\
  (forall p, p ∈ paths ->
     (exists q, q ∈ out /\ fee q <= fee p /\
        (_intro_pubkey_hex p <> ""%string -> _intro_pubkey_hex q = _intro_pubkey_hex p)) \/
     (length out = Z.to_nat n /\ forall q, q ∈ out -> fee q <= fee p)).
Proof.
  intros fee out Hn. split; [by apply select_incl|]. split.
  { unfold out. rewrite select_unfold. unfold slice_to. rewrite length_take, (proj2 (Z.ltb_ge n 0)) by lia. lia. }
  split. { unfold out. rewrite select_unfold. apply take_sorted, sort_by_sorted. }
  split; [apply select_distinct|]. intros p Hp. by apply select_serves.
Qed.

Lemma select_diverse_correct_witness :
  let p fee := mkPath "" 2 (Some fee) None None None None "aa" None None None None false None None in
  select_diverse_paths 1000 4 [p 7; p 5] = [p 5] /\
  (length (select_diverse_paths 1000%Z 4%Z [p 7%Z; p 5%Z]) <= 4)%nat.
Proof.
  intros p. split; [vm_compute; reflexivity|].
  apply (proj1 (proj2 (select_diverse_correct 1000 4 [p 7; p 5] ltac:(lia)))).
Defined.

(** ** What the pipeline promises

    Stated on the paths' fields alone. *)

(** The amount lies within the bounds a path advertises (0: no bound). *)
Definition carries (amt : Z) (p : path) : Prop :=
  (int_or_0 (htlc_max_msat p) = 0 \/ amt <= int_or_0 (htlc_max_msat p)) /\
  (int_or_0 (htlc_min_msat p) = 0 \/ int_or_0 (htlc_min_msat p) <= amt).

(** The peer at our end of a path: the one identified, else the intro. *)
Definition far_peer (p : path) : string :=
  if decide (default "" (_terminal_peer_pubkey p) = ""%string) then _intro_pubkey_hex p
  else default "" (_terminal_peer_pubkey p).

(** Its intro is connected, and of the channels with its peer, of which
    there are some, none is active. *)
Definition dead (connected : gset string) (chs : list channel) (p : path) : Prop :=
  _intro_pubkey_hex p <> ""%string /\ _intro_pubkey_hex p ∈ connected /\
  Exists (fun ch => remote_pubkey ch = far_peer p) chs /\
  Forall (fun ch => remote_pubkey ch = far_peer p -> active ch = false) chs.

Definition undropped (p : path) : Prop := _clamped_below_bucket p = false.

Definition sized cfg amt (p : path) : Prop :=
  undropped p /\ (bolt12_drop_undersized_paths cfg = true -> carries amt p).

Definition fit cfg connected amt chs (p : path) : Prop :=
  sized cfg amt p /\ (bolt12_probe_paths_before_mint cfg = true -> ~ dead connected chs p).

Global Instance carries_dec amt p : Decision (carries amt p).
Proof. unfold carries. solve_decision. Defined.

Global Instance dead_dec conn chs p : Decision (dead conn chs p).
Proof. unfold dead. solve_decision. Defined.

Global Instance undropped_dec p : Decision (undropped p).
Proof. unfold undropped. solve_decision. Defined.

Global Instance sized_dec cfg amt p : Decision (sized cfg amt p).
Proof. unfold sized. solve_decision. Defined.

Global Instance fit_dec cfg conn amt chs p : Decision (fit cfg conn amt chs p).
Proof. unfold fit. solve_decision. Defined.

(** What a channel can receive, less the safety buffer, in msat. *)
Definition receivable_msat (ppm : Z) (ch : channel) : Z :=
  let b := int_or_0 (remote_balance ch) in (b - b * ppm / 1000000) * 1000.

(** A maximum that some channel, of the path's peer where that is known,
    can receive; if it is not LND's own, a positive number of buckets. *)
Definition covered cfg (chs : list channel) (p : path) : Prop :=
  (exists ch, ch ∈ chs /\ (forall pk, _terminal_peer_pubkey p = Some pk -> remote_pubkey ch = pk) /\
     int_or_0 (htlc_max_msat p) <= receivable_msat (bolt12_htlc_max_safety_buffer_ppm cfg) ch) /\
  (0 < bolt12_htlc_max_bucket_msat cfg ->
     _htlc_max_msat_advertised p = Some (int_or_0 (htlc_max_msat p)) \/
     (0 < int_or_0 (htlc_max_msat p) /\ (bolt12_htlc_max_bucket_msat cfg | int_or_0 (htlc_max_msat p)))).

(** What enforcing diversity makes of the paths: at most [n], none dearer
    than what it replaces, no named intro twice. *)
Definition diverse (fee : path -> Z) (n : Z) (fits out : list path) : Prop :=
  (forall p, p ∈ out -> p ∈ fits) /\ (length out <= Z.to_nat n)%nat /\ NoDup (named_intros out) /\
  (forall p, p ∈ fits ->
     (exists q, q ∈ out /\ fee q <= fee p /\
        (_intro_pubkey_hex p <> ""%string -> _intro_pubkey_hex q = _intro_pubkey_hex p)) \/
     (length out = Z.to_nat n /\ forall q, q ∈ out -> fee q <= fee p)).

Global Instance diverse_perm fee n fits : Proper ((≡ₚ) ==> iff) (diverse fee n fits).
Proof.
  assert (H : forall l k, l ≡ₚ k -> diverse fee n fits l -> diverse fee n fits k).
  { intros l k Hp (H1 & H2 & H3 & H4). split; [|split; [|split]].
    - intros p. rewrite <- Hp. apply H1.
    - by rewrite <- Hp.
    - by eapply nodup_filter_map_perm; [symmetry|].
    - intros p Hin. destruct (H4 p Hin) as [(q & Hq & ?)|[Hl Hq]]; [left; exists q|right].
      + by rewrite <- Hp.
      + split; [by rewrite <- Hp|]. intros q. rewrite <- Hp. apply Hq. }
  intros l k Hp. split; by apply H.
Qed.

(** *** The filters *)

Lemma meets_amount_iff amt p : path_meets_amount amt p = true <-> carries amt p.
Proof.
  unfold path_meets_amount, carries.
  destruct (Z.eqb_spec (int_or_0 (htlc_max_msat p)) 0), (Z.eqb_spec (int_or_0 (htlc_min_msat p)) 0),
    (Z.ltb_spec (int_or_0 (htlc_max_msat p)) amt), (Z.ltb_spec amt (int_or_0 (htlc_min_msat p)));
    simpl; split; intros; try done; lia.
Qed.

Lemma far_peer_eq p :
  far_peer p = match _terminal_peer_pubkey p with
               | Some t => if String.eqb t "" then _intro_pubkey_hex p else t
               | None => _intro_pubkey_hex p
               end.
Proof.
  unfold far_peer. destruct (_terminal_peer_pubkey p) as [t|]; [|by case_decide].
  cbn [default]. by destruct (String.eqb_spec t ""); case_decide.
Qed.

Lemma liveness_iff conn chs p : probe_path_liveness conn chs p = true <-> ~ dead conn chs p.
Proof.
  unfold probe_path_liveness, dead. rewrite <- far_peer_eq.
  destruct (String.eqb_spec (_intro_pubkey_hex p) "") as [->|Hn]; [split; [intros _ [? _]; done|done]|].
  case_bool_decide as Hc; simpl; [|split; [intros _ (_ & ? & _); done|done]].
  rewrite Exists_exists, Forall_forall.
  set (ms := List.filter _ chs).
  assert (Hm : forall ch, ch ∈ ms <-> ch ∈ chs /\ remote_pubkey ch = far_peer p).
  { intros ch. unfold ms. by rewrite list_elem_of_In, List.filter_In, <- list_elem_of_In, String.eqb_eq. }
  destruct (existsb active ms) eqn:He.
  - rewrite andb_false_r. split; [|done]. intros _ (_ & _ & _ & Ha).
    apply existsb_exists in He as (ch & Hin%list_elem_of_In & Hact). apply Hm in Hin as [Hin Hpk].
    by rewrite (Ha ch Hin Hpk) in Hact.
  - rewrite andb_true_r, negb_involutive, Nat.eqb_eq. split.
    + intros H0 (_ & _ & (ch & Hch) & _). apply Hm in Hch. destruct ms; [by apply elem_of_nil in Hch|done].
    + intros Hd. destruct ms as [|ch ms'] eqn:Ems; [done|]. exfalso. apply Hd.
      split; [done|]. split; [done|]. split; [exists ch; apply Hm; left|].
      intros c Hin Hpk. destruct (active c) eqn:Hact; [|done].
      assert (Hex : existsb active (ch :: ms') = true); [|congruence].
      apply existsb_exists. exists c. split; [|done]. apply list_elem_of_In, Hm. done.
Qed.

(** A boolean filter as a filter by what it decides. *)
Lemma filter_bool {A} (f : A -> bool) (P : A -> Prop) `{!forall x, Decision (P x)} l :
  (forall x, f x = true <-> P x) -> List.filter f l = filter P l.
Proof.
  intros Hf. induction l as [|a l IH]; [done|]. rewrite filter_cons. simpl.
  destruct (f a) eqn:E, (decide (P a)) as [Hp|Hp]; rewrite ?IH; [done| | |done].
  - by destruct Hp; apply Hf.
  - apply Hf in Hp. congruence.
Qed.

Lemma filter_bool_and {A} (f : A -> bool) (P Q : A -> Prop)
    `{!forall x, Decision (P x)} `{!forall x, Decision (Q x)} l :
  (forall x, P x -> f x = true <-> Q x) -> (forall x, Q x -> P x) ->
  List.filter f (filter P l) = filter Q l.
Proof.
  intros Hf Hq. induction l as [|a l IH]; [done|]. rewrite !filter_cons.
  destruct (decide (P a)) as [Hp|Hp], (decide (Q a)) as [Ha|Ha]; simpl.
  - by rewrite (proj2 (Hf a Hp) Ha), IH.
  - destruct (f a) eqn:E; [|done]. by destruct Ha; apply Hf.
  - by destruct Hp; apply Hq.
  - done.
Qed.

(** *** The selection *)

Lemma select_diverse_spec amt n paths :
  0 <= n -> diverse (_path_effective_fee_msat amt) n paths (select_diverse_paths amt n paths).
Proof.
  intros Hn. split; [by apply select_incl|]. split.
  { rewrite select_unfold. unfold slice_to. rewrite length_take, (proj2 (Z.ltb_ge n 0)) by lia. lia. }
  split; [apply select_distinct|]. intros p Hp. by apply select_serves.
Qed.

(** *** The clamp *)

Lemma max_elem b bs : foldl Z.max b bs ∈ b :: bs.
Proof.
  revert b. induction bs as [|c bs IH]; intros b; simpl; [left|].
  specialize (IH (Z.max b c)). apply elem_of_cons in IH as [->|H]; [|by do 2 right].
  destruct (Z.max_spec b c) as [[_ ->]|[_ ->]]; [right|]; left.
Qed.

Lemma terminal_elem p chs ch :
  (forall c, _presumed_terminal_channel p = Some c -> c ∈ chs) ->
  _identify_terminal_channel p chs = Some ch -> ch ∈ chs.
Proof.
  unfold _identify_terminal_channel. destruct (_presumed_terminal_channel p) as [c|] eqn:E.
  { intros H [= <-]. by apply H. }
  intros _. assert (Hg : forall c, match List.filter (fun ch => int_or_0 (gossiped_inbound_max_htlc_msat ch)
      =? int_or_0 (htlc_max_msat p)) chs with [ch] => Some ch | _ => None end = Some c -> c ∈ chs).
  { intros c. case_match eqn:Hf; [done|]. case_match; [|done]. intros [= ->].
    apply list_elem_of_In. eapply proj1, List.filter_In. rewrite Hf. by left. }
  destruct (_ && _); [|by apply Hg]. destruct (List.find _ _) eqn:Hf; [|by apply Hg].
  intros [= ->]. apply List.find_some in Hf as [Hf _]. by apply list_elem_of_In.
Qed.

(** The cap is what one of the channels can receive. *)
Lemma cap_receivable p chs ppm :
  chs <> [] -> Forall (fun ch => 0 < int_or_0 (remote_balance ch) /\ 0 < receivable_msat ppm ch) chs ->
  (forall c, _presumed_terminal_channel p = Some c -> c ∈ chs) ->
  exists ch, ch ∈ chs /\ clamp_cap_msat p chs ppm = receivable_msat ppm ch /\
    (forall t, _identify_terminal_channel p chs = Some t -> t = ch).
Proof.
  intros Hne HF Hpr. rewrite Forall_forall in HF.
  assert (Hcap : forall ch, ch ∈ chs ->
    _safe_cap_sat (int_or_0 (remote_balance ch)) ppm * 1000 = receivable_msat ppm ch).
  { intros ch [H1 H2]%HF. unfold receivable_msat in *. unfold _safe_cap_sat.
    rewrite (proj2 (Z.leb_gt _ 0) H1). cbn zeta in H2 |- *. rewrite Z.max_r by lia. done. }
  unfold clamp_cap_msat. destruct (_identify_terminal_channel p chs) as [t|] eqn:Ht.
  - pose proof (terminal_elem _ _ _ Hpr Ht) as Hin. exists t. split; [done|]. split; [auto|]. congruence.
  - destruct chs as [|c chs']; [done|]. cbn [map].
    pose proof (max_elem (int_or_0 (remote_balance c)) (map (fun ch => int_or_0 (remote_balance ch)) chs')) as Hm.
    change (foldl Z.max (int_or_0 (remote_balance c)) (map (fun ch => int_or_0 (remote_balance ch)) chs')
      ∈ map (fun ch => int_or_0 (remote_balance ch)) (c :: chs')) in Hm.
    apply list_elem_of_fmap in Hm as (ch & E & Hin). exists ch. rewrite E. split; [done|].
    split; [by apply Hcap|done].
Qed.

Lemma clamp_covered cfg chs p :
  chs <> [] ->
  Forall (fun ch => 0 < int_or_0 (remote_balance ch) /\
                    0 < receivable_msat (bolt12_htlc_max_safety_buffer_ppm cfg) ch) chs ->
  (forall c, _presumed_terminal_channel p = Some c -> c ∈ chs) ->
  undropped (clamp_path_htlc_max cfg chs p) -> covered cfg chs (clamp_path_htlc_max cfg chs p).
Proof.
  intros Hne HF Hpr Hu. destruct (cap_receivable p chs _ Hne HF Hpr) as (ch & Hin & Hcap & Ht).
  rewrite Forall_forall in HF. destruct (HF ch Hin) as [_ Hpos]. rewrite <- Hcap in Hpos.
  assert (Htp : forall pk, _terminal_peer_pubkey (clamp_path_htlc_max cfg chs p) = Some pk -> remote_pubkey ch = pk).
  { intros pk. unfold clamp_path_htlc_max. case_match; cbn; case_match; try done; intros [= <-];
      by rewrite (Ht _ eq_refl). }
  destruct (clamp_max cfg chs p) as [Hcl Hno]. split.
  - exists ch. split; [done|]. split; [done|]. rewrite <- Hcap.
    destruct (decide (clamp_cap_msat p chs (bolt12_htlc_max_safety_buffer_ppm cfg) < int_or_0 (htlc_max_msat p))).
    + destruct (Hcl ltac:(lia)) as [-> _].
      destruct (bucket_floor_range (clamp_cap_msat p chs (bolt12_htlc_max_safety_buffer_ppm cfg))
        (bolt12_htlc_max_bucket_msat cfg) ltac:(lia)) as (? & _). simpl. lia.
    + rewrite (Hno ltac:(lia)). lia.
  - intros Hb. unfold undropped in Hu.
    destruct (decide (clamp_cap_msat p chs (bolt12_htlc_max_safety_buffer_ppm cfg) < int_or_0 (htlc_max_msat p))).
    + right. destruct (Hcl ltac:(lia)) as [-> Hz].
      destruct (bucket_floor_range (clamp_cap_msat p chs (bolt12_htlc_max_safety_buffer_ppm cfg))
        (bolt12_htlc_max_bucket_msat cfg) ltac:(lia)) as (_ & _ & Hd). simpl. split; [|auto].
      apply Z.nle_gt. intros H0. rewrite Hz in Hu by done. done.
    + left. rewrite (Hno ltac:(lia)). unfold clamp_path_htlc_max. by case_match.
Qed.

(** A presumed terminal channel is one of the node's channels. *)
Definition presumes (chs : list channel) (p : path) : Prop :=
  forall c, _presumed_terminal_channel p = Some c -> c ∈ chs.

Lemma remove_peer_incl pk chs c : c ∈ remove_peer pk chs -> c ∈ chs.
Proof.
  induction chs as [|ch chs IH]; simpl; [done|]. case_match; [by right|].
  rewrite !elem_of_cons. intros [->|?]; auto.
Qed.

Lemma scan_incl peers ps : forall i chs c,
  c ∈ (pigeonhole_scan peers i ps chs).2 -> c ∈ chs.
Proof.
  induction ps as [|p ps IH]; intros i chs c; simpl; [done|]. case_match.
  - intros Hc%IH. by apply remove_peer_incl in Hc.
  - specialize (IH (S i) chs c). by destruct (pigeonhole_scan peers (S i) ps chs).
Qed.

Lemma foldl_presumes chs (ics : list (nat * channel)) : forall ps,
  (forall ic, ic ∈ ics -> ic.2 ∈ chs) -> Forall (presumes chs) ps ->
  Forall (presumes chs) (foldl (fun ps ic => alter (set_presumed ic.2) ic.1 ps) ps ics).
Proof.
  induction ics as [|[i ch] ics IH]; intros ps Hi H; simpl; [done|]. apply IH.
  - intros ic Hic. apply Hi. by right.
  - apply Forall_alter; [done|]. intros p _ _ c [= <-]. apply (Hi (i, ch)). left.
Qed.

Lemma pigeonhole_presumes cfg amt chs ps :
  Forall (presumes chs) ps -> Forall (presumes chs) (_pigeonhole_pair_paths_to_channels cfg amt chs ps).
Proof.
  intros H. unfold _pigeonhole_pair_paths_to_channels.
  case_match; [done|]. case_match; [done|]. case_match; [done|].
  set (usable := List.filter _ chs). destruct (pigeonhole_scan _ _ _ _) as [cands left] eqn:Hs.
  case_match; [done|]. case_match; [done|]. apply foldl_presumes; [|done].
  intros ic Hic%zip_elem_snd. rewrite sort_by_perm in Hic.
  pose proof (scan_incl (map remote_pubkey usable) ps 0 usable ic.2) as Hi. rewrite Hs in Hi.
  apply Hi, list_elem_of_In, List.filter_In in Hic as [Hic _]. by apply list_elem_of_In.
Qed.

Lemma map_presumes chs f ps :
  (forall p, _presumed_terminal_channel (f p) = _presumed_terminal_channel p) ->
  Forall (presumes chs) ps -> Forall (presumes chs) (map f ps).
Proof.
  intros H HF. apply Forall_map. eapply Forall_impl; [exact HF|]. intros p Hp c. simpl. rewrite H. apply Hp.
Qed.

Lemma rewrite_covered cfg g amt chs our raw p :
  chs <> [] ->
  Forall (fun ch => 0 < int_or_0 (remote_balance ch) /\
                    0 < receivable_msat (bolt12_htlc_max_safety_buffer_ppm cfg) ch) chs ->
  Forall (fun p => _presumed_terminal_channel p = None) raw ->
  p ∈ rewrite_paths cfg g amt chs our raw -> undropped p -> covered cfg chs p.
Proof.
  intros Hne HF Hraw Hp Hu. unfold rewrite_paths in Hp. apply list_elem_of_fmap in Hp as (q & -> & Hq).
  apply clamp_covered; [done|done| |done].
  assert (Hall : Forall (presumes chs) raw).
  { eapply Forall_impl; [exact Hraw|]. intros x Hx c. by rewrite Hx. }
  match type of Hq with q ∈ ?l => assert (HFl : Forall (presumes chs) l) end.
  - apply pigeonhole_presumes, map_presumes; [done|]. case_match.
    + apply map_presumes; [|by apply map_presumes]. intros x.
      unfold refresh_path_policy_from_gossip. by repeat case_match.
    + by apply map_presumes.
  - rewrite Forall_forall in HFl. exact (HFl q Hq).
Qed.

(** *** The pipeline as filters, the selection and a reordering *)

Lemma postprocess_shape cfg g conn amt chs our n now r raw :
  let res := postprocess_blinded_paths cfg g conn amt chs our n now r raw in
  let rewritten := rewrite_paths cfg g amt chs our raw in
  let fits := filter (fit cfg conn amt chs) rewritten in
  let sel := if bolt12_path_diversity_enforce cfg && (1 <? length fits)%nat
             then select_diverse_paths amt n fits else fits in
  res_paths res.1 ≡ₚ sel /\
  (bolt12_path_breaker_enabled cfg = false -> res_paths res.1 = sel) /\
  let d := res_drops res.1 in
  starting d = length raw /\ after_clamp d = length (filter undropped rewritten) /\
  after_undersized_drop d = length (filter (sized cfg amt) rewritten) /\
  after_probe d = length fits /\ after_diversity d = length sel.
Proof.
  intros res rewritten fits sel. subst res. unfold postprocess_blinded_paths. fold rewritten.
  rewrite (filter_bool (fun p => negb (_clamped_below_bucket p)) undropped)
    by (intros p; unfold undropped; by destruct (_clamped_below_bucket p)).
  set (ps2 := if bolt12_drop_undersized_paths cfg then _ else _).
  assert (E2 : ps2 = filter (sized cfg amt) rewritten).
  { unfold ps2. destruct (bolt12_drop_undersized_paths cfg) eqn:Hc.
    - apply filter_bool_and; [|by intros p [? _]]. intros p Hp. rewrite meets_amount_iff.
      unfold sized. rewrite Hc. naive_solver.
    - apply list_filter_iff. unfold sized. intros p. rewrite Hc. naive_solver. }
  clearbody ps2. subst ps2.
  set (ps3 := if bolt12_probe_paths_before_mint cfg && _ then _ else _).
  assert (E3 : ps3 = fits).
  { unfold ps3, fits. destruct (bolt12_probe_paths_before_mint cfg) eqn:Hc; cbn [andb].
    - transitivity (List.filter (probe_path_liveness conn chs) (filter (sized cfg amt) rewritten)).
      { case_bool_decide as H; [by rewrite H|done]. }
      apply filter_bool_and; [|by intros p [? _]]. intros p Hp. rewrite liveness_iff.
      unfold fit. rewrite Hc. naive_solver.
    - apply list_filter_iff. unfold fit. intros p. rewrite Hc. naive_solver. }
  clearbody ps3. subst ps3. fold sel. destruct (bolt12_path_breaker_enabled cfg) eqn:Hb.
  - destruct (apply_breaker_filter cfg now r sel) as [ps r1] eqn:Hf.
    destruct (look_all now r1 ps) as [os r2]. cbn. pose proof (breaker_filter_perm _ _ _ _ _ _ Hf). done.
  - cbn. done.
Qed.

Lemma select_sorted amt n paths :
  StronglySorted (fun p q => _path_effective_fee_msat amt p <= _path_effective_fee_msat amt q)
    (select_diverse_paths amt n paths).
Proof. rewrite select_unfold. apply take_sorted, sort_by_sorted. Qed.



(** Paths whose intros' cooldowns have all lapsed: the filter of the
    pipeline finds every one healthy and claims its probationary attempt;
    from then on the pipeline's own recount finds them all open, and so does
    [all_intros_open] whenever the responder asks it about these paths: the
    responder then abandons the attempt the filter has just granted. *)
Theorem probation_abandoned cfg now r ps :
  bolt12_path_breaker_enabled cfg = true -> ps <> [] -> NoDup (map _intro_pubkey_hex ps) ->
  Forall (fun p => _intro_pubkey_hex p <> ""%string /\ lapsed_in r (_intro_pubkey_hex p) now) ps ->
  exists r', apply_breaker_filter cfg now r ps = (ps, r') /\
    forall later, look_all later r' ps = (repeat true (length ps), r') /\
      all_intros_open cfg later r' ps = (true, r').
Proof.
  intros Hb Hne Hd HF. destruct (look_all_lapsed now ps r Hd HF) as (r' & Hl & Hc & _).
  destruct (marked_false ps) as [Hh Hdp]. exists r'. split.
  - unfold apply_breaker_filter. rewrite Hb, Hl. cbn [negb]. by rewrite Hh, Hdp, app_nil_r.
  - intros later. destruct (all_open_claimed later ps r') as [Ha Hk].
    { rewrite Forall_forall in HF, Hc |- *. intros p Hp. split; [by apply HF|by apply Hc]. }
    split; [done|]. unfold all_intros_open. rewrite Hb. destruct ps; [done|]. exact Ha.
Qed.

Lemma probation_abandoned_witness :
  let p := mkPath "" 2 None None None None None "aa" None None None None false None None in
  let cfg := mkPS false 0 0 true false 0 0 false true true in
  let r := [("aa"%string, mkPB POpen 3 0 60 false)] in
  exists r', apply_breaker_filter cfg 100 r [p] = ([p], r') /\
    all_intros_open cfg 101 r' [p] = (true, r').
Proof.
  intros p cfg r. destruct (probation_abandoned cfg 100 r [p]) as (r' & H1 & H2).
  - reflexivity.
  - discriminate.
  - apply NoDup_singleton.
  - constructor; [|constructor]. split; [discriminate|].
    exists (mkPB POpen 3 0 60 false). vm_compute. repeat split; discriminate.
  - exists r'. split; [exact H1|]. exact (proj2 (H2 101)).
Defined.
