(* ===== verification/Json.v ===== *)
(** * [json.dumps(v, sort_keys=True)] of the Python standard library

    Values are null, booleans, integers, text, lists and objects with text
    keys: what a JSON column holds, except that such a column can also hold
    floats, which are not modelled (a [details] with a float in it is outside
    the audit theorems). The output is ASCII (the default
    [ensure_ascii=True]), so it is a [string] of the model. A reader for the
    same grammar serves as the proof that the text determines the value. *)
From S2P Require Import Prelude Bytes PyInt Utf8.

Set Warnings "-register-all".

Inductive json :=
  | JNull
  | JBool (b : bool)
  | JInt (n : Z)
  | JStr (s : ustr)
  | JList (l : list json)
  | JDict (d : list (ustr * json)).

Section json_ind.
Context (P : json -> Prop).
Context (HNull : P JNull) (HBool : forall b, P (JBool b)) (HInt : forall n, P (JInt n)).
Context (HStr : forall s, P (JStr s)) (HList : forall l, Forall P l -> P (JList l)).
Context (HDict : forall d, Forall (fun kv => P kv.2) d -> P (JDict d)).

Fixpoint json_ind' (v : json) : P v :=
  match v with
  | JNull => HNull
  | JBool b => HBool b
  | JInt n => HInt n
  | JStr s => HStr s
  | JList l => HList l ((fix go l := match l as l return Forall P l with
      | [] => Forall_nil_2 P
      | v :: l => Forall_cons_2 P v l (json_ind' v) (go l)
      end) l)
  | JDict d => HDict d ((fix go d := match d as d return Forall (fun kv : ustr * json => P kv.2) d with
      | [] => Forall_nil_2 (fun kv : ustr * json => P kv.2)
      | (k, v) :: d => Forall_cons_2 (fun kv : ustr * json => P kv.2) (k, v) d (json_ind' v) (go d)
      end) d)
  end.
End json_ind.

(** ** Text *)

Definition dquote : ascii := ascii_of_N 34.

(** [\uXXXX] *)
Definition hex4 (n : Z) (s : string) : string :=
  String (hex_digit (n / 4096)) (String (hex_digit (n / 256 mod 16))
    (String (hex_digit (n / 16 mod 16)) (String (hex_digit (n mod 16)) s))).

Definition escape_u (n : Z) (s : string) : string := String "\" (String "u" (hex4 n s)).

(** One character in front of [s]. *)
Definition escape_char (c : Z) (s : string) : string :=
  if c =? 34 then String "\" (String dquote s)
  else if c =? 92 then String "\" (String "\" s)
  else if c =? 10 then String "\" (String "n" s)
  else if c =? 13 then String "\" (String "r" s)
  else if c =? 9 then String "\" (String "t" s)
  else if c =? 12 then String "\" (String "f" s)
  else if c =? 8 then String "\" (String "b" s)
  else if (32 <=? c) && (c <=? 126) then String (ascii_of_N (Z.to_N c)) s
  else if c <? 0x10000 then escape_u c s
  else
    let v := c - 0x10000 in
    escape_u (0xD800 + v / 1024) (escape_u (0xDC00 + v mod 1024) s).

Definition quote (s : ustr) (rest : string) : string :=
  String dquote (foldr escape_char (String dquote rest) s).

(** ** Values *)

(** Code-point order of [str]. *)
Fixpoint ustr_leb (s t : ustr) : bool :=
  match s, t with
  | [], _ => true
  | _ :: _, [] => false
  | c :: s, d :: t => if c <? d then true else if d <? c then false else ustr_leb s t
  end.

Fixpoint insert_item {A} (kv : ustr * A) (l : list (ustr * A)) : list (ustr * A) :=
  match l with
  | [] => [kv]
  | kv' :: l' => if ustr_leb kv.1 kv'.1 then kv :: l else kv' :: insert_item kv l'
  end.

(** [sorted(dct.items())], the keys being distinct *)
Definition sort_items {A} (l : list (ustr * A)) : list (ustr * A) := foldr insert_item [] l.

(** Members separated by [", "] in front of a closing bracket. *)
Fixpoint members (close : ascii) (rest : string) (fs : list (string -> string)) : string :=
  match fs with
  | [] => String close rest
  | [f] => f (String close rest)
  | f :: fs => f (String "," (String " " (members close rest fs)))
  end.

(** A value in front of [rest]. *)
Fixpoint dump (v : json) (rest : string) : string :=
  match v with
  | JNull => "null" +:+ rest
  | JBool true => "true" +:+ rest
  | JBool false => "false" +:+ rest
  | JInt n => str_of_int n +:+ rest
  | JStr s => quote s rest
  | JList l => String "[" (members "]" rest (map dump l))
  | JDict d =>
      String "{" (members "}" rest
        (map (fun kf => fun r => quote kf.1 (String ":" (String " " (kf.2 r))))
           (sort_items (map (fun kv => (kv.1, dump kv.2)) d))))
  end.

Definition dumps (v : json) : string := dump v "".

(** ** Reading back *)

(** Text the database can hold: Unicode scalar values. *)
Definition scalar (c : Z) : bool := (0 <=? c) && (c <=? 0x10FFFF) && negb (is_surrogate c).

Definition text_ok (s : ustr) : bool := forallb scalar s.

Fixpoint json_ok (v : json) : bool :=
  match v with
  | JNull | JBool _ | JInt _ => true
  | JStr s => text_ok s
  | JList l => forallb json_ok l
  | JDict d => forallb (fun kv => text_ok kv.1 && json_ok kv.2) d
  end.

Definition read_hex4 (s : string) : option (Z * string) :=
  match s with
  | String a (String b (String c (String d s))) =>
      a ← hex_value a; b ← hex_value b; c ← hex_value c; d ← hex_value d;
      Some (a * 4096 + b * 256 + c * 16 + d, s)
  | _ => None
  end.

(** The first character of quoted text; [None] at the closing quote. *)
Definition unescape (s : string) : option (Z * string) :=
  match s with
  | String c s' =>
      if Ascii.eqb c dquote then None
      else if negb (Ascii.eqb c "\") then Some (Z.of_N (N_of_ascii c), s')
      else match s' with
           | String e s'' =>
               if Ascii.eqb e "n" then Some (10, s'')
               else if Ascii.eqb e "r" then Some (13, s'')
               else if Ascii.eqb e "t" then Some (9, s'')
               else if Ascii.eqb e "f" then Some (12, s'')
               else if Ascii.eqb e "b" then Some (8, s'')
               else if negb (Ascii.eqb e "u") then Some (Z.of_N (N_of_ascii e), s'')
               else
                 '(n, s) ← read_hex4 s'';
                 if (0xD800 <=? n) && (n <=? 0xDBFF) then
                   match s with
                   | String _ (String _ s) =>
                       '(m, s) ← read_hex4 s; Some (0x10000 + (n - 0xD800) * 1024 + (m - 0xDC00), s)
                   | _ => None
                   end
                 else Some (n, s)
           | EmptyString => None
           end
  | EmptyString => None
  end.

Lemma read_hex4_hex4 n s : 0 <= n < 65536 -> read_hex4 (hex4 n s) = Some (n, s).
Proof.
  intros Hn. unfold hex4, read_hex4.
  rewrite (proj1 (hex_digit_ok (n / 4096) ltac:(dlia))).
  rewrite (proj1 (hex_digit_ok (n / 256 mod 16) ltac:(dlia))).
  rewrite (proj1 (hex_digit_ok (n / 16 mod 16) ltac:(dlia))).
  rewrite (proj1 (hex_digit_ok (n mod 16) ltac:(dlia))).
  cbn. do 2 f_equal. dlia.
Qed.

Arguments read_hex4 : simpl never.
Arguments hex4 : simpl never.

Lemma unescape_escape c s : scalar c = true -> unescape (escape_char c s) = Some (c, s).
Proof.
  unfold scalar, is_surrogate. intros H. bool_to_prop. unfold escape_char.
  repeat match goal with |- context [if ?x =? ?y then _ else _] =>
    destruct (Z.eqb_spec x y) as [->|?]; [reflexivity|] end.
  destruct (Z.leb_spec 32 c), (Z.leb_spec c 126); cbn [andb].
  1: { unfold unescape. set (a := ascii_of_N (Z.to_N c)).
    assert (Ha : Z.of_N (N_of_ascii a) = c) by (unfold a; rewrite N_ascii_embedding; lia).
    destruct (Ascii.eqb_spec a dquote) as [E|_]; [rewrite E in Ha; cbn in Ha; lia|].
    destruct (Ascii.eqb_spec a "\") as [E|_]; [rewrite E in Ha; cbn in Ha; lia|].
    cbn [negb]. by rewrite Ha. }
  all: destruct (Z.ltb_spec c 0x10000); unfold unescape, escape_u; cbn [Ascii.eqb Bool.eqb dquote negb];
    rewrite read_hex4_hex4 by dlia; cbn.
  all: try match goal with |- context [(?a <=? ?b) && (?d <=? ?e)] =>
    destruct (Z.leb_spec a b), (Z.leb_spec d e); try dlia end; cbn [andb]; try done.
  all: try (exfalso; match goal with H : (_ && _)%bool = false |- _ =>
      apply andb_false_iff in H as [?|?] end; bool_to_prop; dlia).
  all: try rewrite read_hex4_hex4 by dlia; cbn; do 2 f_equal; dlia.
Qed.

Lemma quote_inj s : forall t r1 r2,
  text_ok s = true -> text_ok t = true -> quote s r1 = quote t r2 -> s = t /\ r1 = r2.
Proof.
  unfold quote. intros t r1 r2 Hs Ht [= H]. revert t Hs Ht H.
  induction s as [|c s IH]; intros [|d t] Hs Ht H; simpl in *.
  - by injection H as ->.
  - apply andb_prop in Ht as [Hd _]. apply (f_equal unescape) in H.
    by rewrite unescape_escape in H.
  - apply andb_prop in Hs as [Hc _]. apply (f_equal unescape) in H.
    by rewrite unescape_escape in H.
  - apply andb_prop in Hs as [Hc Hs], Ht as [Hd Ht]. apply (f_equal unescape) in H.
    rewrite !unescape_escape in H by done. injection H as -> H.
    by destruct (IH t Hs Ht H) as [-> ->].
Qed.

(** What may follow a number. *)
Definition delimited (r : string) : Prop :=
  match r with EmptyString => True | String c _ => is_digit c = false end.

Lemma read_digits_stop n k r : delimited r -> read_digits n k r = (n, k, r).
Proof. destruct r as [|c r]; [done|]. simpl. by intros ->. Qed.

Lemma str_of_int_read n r :
  0 <= n -> delimited r -> exists k, read_digits 0 0 (str_of_int n +:+ r) = (n, S k, r).
Proof.
  intros Hn Hr. unfold str_of_int. rewrite (proj2 (Z.ltb_ge _ _)) by lia. rewrite dec_loop_app.
  destruct (read_dec_loop (dec_fuel n) n (String.append "" r) 0 0) as (k & Hk & ->).
  { split; [done|]. by apply dec_fuel_enough. }
  { unfold dec_fuel. lia. }
  rewrite read_digits_stop by done. destruct k; [lia|]. by exists k.
Qed.

(** A nonnegative number starts with a digit. *)
Lemma str_of_int_head n r : 0 <= n -> exists c s, str_of_int n +:+ r = String c s /\ is_digit c = true.
Proof.
  intros Hn. destruct (str_of_int_read n "" Hn I) as [k H]. unfold str_of_int in *.
  rewrite (proj2 (Z.ltb_ge _ _)) in * by lia. rewrite !dec_loop_app in *.
  revert H. unfold dec_fuel. generalize (Z.to_nat (Z.log2 n)) as fuel. intros fuel _. revert n Hn.
  generalize (String.append "" r). induction fuel as [|fuel IH]; intros t n Hn; cbn [dec_loop].
  - destruct (is_digit_char (n mod 10) ltac:(dlia)) as [H _].
    case_match; eauto.
  - destruct (is_digit_char (n mod 10) ltac:(dlia)) as [H _]. case_match; [eauto|].
    apply (IH (String (digit_char (n mod 10)) t) (n / 10)). dlia.
Qed.

Lemma str_of_int_neg n r : n < 0 -> str_of_int n +:+ r = String "-" (str_of_int (- n) +:+ r).
Proof.
  intros Hn. unfold str_of_int. rewrite (proj2 (Z.ltb_lt _ _)) by lia.
  by rewrite (proj2 (Z.ltb_ge _ _)) by lia.
Qed.

Lemma str_of_int_inj n m r1 r2 :
  delimited r1 -> delimited r2 -> str_of_int n +:+ r1 = str_of_int m +:+ r2 -> n = m /\ r1 = r2.
Proof.
  intros H1 H2 H.
  assert (Hpos : forall n m, 0 <= n -> 0 <= m -> str_of_int n +:+ r1 = str_of_int m +:+ r2 -> n = m /\ r1 = r2).
  { intros a b Ha Hb E. destruct (str_of_int_read a r1 Ha H1) as [k Hk].
    destruct (str_of_int_read b r2 Hb H2) as [l Hl]. rewrite E, Hl in Hk. by injection Hk as -> _ ->. }
  destruct (Z.ltb_spec n 0), (Z.ltb_spec m 0).
  - rewrite (str_of_int_neg n), (str_of_int_neg m) in H by done. injection H as H.
    destruct (Hpos (- n) (- m)) as [? ->]; [lia..|done|]. split; [lia|done].
  - destruct (str_of_int_head m r2) as (c & s & E & Hc); [done|]. rewrite (str_of_int_neg n), E in H by done.
    by injection H as <- _.
  - destruct (str_of_int_head n r1) as (c & s & E & Hc); [done|].
    rewrite (str_of_int_neg m), E in H by done. by injection H as -> _.
  - by apply Hpos.
Qed.

(** ** The text determines the value *)

(** A value with the members of its objects in key order. *)
Fixpoint canon (v : json) : json :=
  match v with
  | JList l => JList (map canon l)
  | JDict d => JDict (sort_items (map (fun kv => (kv.1, canon kv.2)) d))
  | _ => v
  end.

(** Printing without sorting. *)
Fixpoint emit (v : json) (rest : string) : string :=
  match v with
  | JNull => "null" +:+ rest
  | JBool true => "true" +:+ rest
  | JBool false => "false" +:+ rest
  | JInt n => str_of_int n +:+ rest
  | JStr s => quote s rest
  | JList l => String "[" (members "]" rest (map emit l))
  | JDict d =>
      String "{" (members "}" rest
        (map (fun kv => fun r => quote kv.1 (String ":" (String " " (emit kv.2 r)))) d))
  end.

Lemma insert_item_map {A B} (f : A -> B) kv l :
  map (fun kv => (kv.1, f kv.2)) (insert_item kv l) =
  insert_item (kv.1, f kv.2) (map (fun kv => (kv.1, f kv.2)) l).
Proof. induction l as [|kv' l IH]; simpl; [done|]. case_match; simpl; by rewrite ?IH. Qed.

Lemma sort_items_map {A B} (f : A -> B) l :
  map (fun kv => (kv.1, f kv.2)) (sort_items l) = sort_items (map (fun kv => (kv.1, f kv.2)) l).
Proof. induction l as [|kv l IH]; simpl; [done|]. by rewrite insert_item_map, IH. Qed.

(** Members printed by equal functions. *)
Lemma members_ext close rest {A} (f g : A -> string -> string) l :
  Forall (fun x => forall r, f x r = g x r) l -> members close rest (map f l) = members close rest (map g l).
Proof.
  induction 1 as [|x l Hx _ IH]; [done|]. destruct l as [|y l]; simpl in *; [by rewrite Hx|].
  by rewrite Hx, IH.
Qed.

Lemma insert_item_perm {A} (kv : ustr * A) l : insert_item kv l ≡ₚ kv :: l.
Proof. induction l as [|y l IH]; simpl; [done|]. case_match; [done|]. rewrite IH. constructor. Qed.

Lemma sort_items_perm {A} (l : list (ustr * A)) : sort_items l ≡ₚ l.
Proof. induction l as [|x l IH]; simpl; [done|]. by rewrite insert_item_perm, IH. Qed.

Lemma dump_emit v : forall rest, dump v rest = emit (canon v) rest.
Proof.
  induction v as [| | | |l IH|d IH] using json_ind'; intros rest; try done.
  - simpl. f_equal. rewrite map_map. apply members_ext, IH.
  - cbn [dump canon emit]. f_equal. rewrite <- !sort_items_map, !map_map. cbn [fst snd].
    apply (members_ext _ _ (fun (x : ustr * json) r => _) (fun x r => _)).
    rewrite sort_items_perm. eapply Forall_impl; [exact IH|]. intros [k w] Hw r. cbn. by rewrite Hw.
Qed.

(** No value starts with a closing bracket or like a value of another kind. *)
Lemma emit_head v r : exists c s, emit v r = String c s /\ c <> "]"%char /\ c <> "}"%char /\
  match v with
  | JNull => c = "n"%char | JBool true => c = "t"%char | JBool false => c = "f"%char
  | JInt _ => c = "-"%char \/ is_digit c = true
  | JStr _ => c = dquote | JList _ => c = "["%char | JDict _ => c = "{"%char
  end.
Proof.
  destruct v as [|[]|n|s|l|d]; cbn; try (by eexists _, _).
  destruct (Z.ltb_spec n 0).
  - rewrite str_of_int_neg by done. eexists _, _. split; [done|]. split; [done|]. split; [done|]. by left.
  - destruct (str_of_int_head n r) as (c & s & -> & Hc); [done|]. exists c, s.
    split; [done|]. split; [by intros ->|]. split; [by intros ->|]. by right.
Qed.

(** Printers that can be told apart in front of delimited text. *)
Definition separable {A} (f : A -> string -> string) (ok : A -> bool) (x : A) : Prop :=
  forall y r1 r2, ok x = true -> ok y = true -> delimited r1 -> delimited r2 ->
  f x r1 = f y r2 -> x = y /\ r1 = r2.

Lemma members_inj {A} (f : A -> string -> string) (ok : A -> bool) close l :
  is_digit close = false -> close <> ","%char ->
  (forall x r s, f x r <> String close s) ->
  Forall (separable f ok) l ->
  forall k r1 r2, forallb ok l = true -> forallb ok k = true ->
  members close r1 (map f l) = members close r2 (map f k) -> l = k /\ r1 = r2.
Proof.
  intros Hd Hc Hf HF. induction HF as [|x l Hx _ IH]; intros [|y k] r1 r2 Hl Hk H; simpl in Hl, Hk.
  - by injection H as ->.
  - destruct k; simpl in H; symmetry in H; by apply Hf in H.
  - destruct l; simpl in H; by apply Hf in H.
  - apply andb_prop in Hl as [Hox Hl], Hk as [Hoy Hk].
    destruct l as [|x' l], k as [|y' k]; simpl in H.
    + by apply (Hx y) in H as [-> [= ->]].
    + by apply (Hx y) in H as [-> [= ? _]].
    + by apply (Hx y) in H as [-> [= ? _]].
    + apply (Hx y) in H as [-> [= E]]; try done.
      by destruct (IH (y' :: k) r1 r2 Hl Hk E) as [-> ->].
Qed.

(** Which kind of value a text is, by its first character. *)
Lemma emit_kind v w r1 r2 :
  emit v r1 = emit w r2 ->
  match v, w with
  | JNull, JNull | JInt _, JInt _ | JStr _, JStr _ | JList _, JList _ | JDict _, JDict _ => True
  | JBool b, JBool b' => b = b'
  | _, _ => False
  end.
Proof.
  intros H. destruct (emit_head v r1) as (c & s & Hv & _ & _ & Hc).
  destruct (emit_head w r2) as (c' & s' & Hw & _ & _ & Hc'). rewrite Hv, Hw in H. injection H as -> _.
  clear Hv Hw. destruct v as [|[]| | | |], w as [|[]| | | |]; try done; subst; try done; by destruct Hc || destruct Hc'.
Qed.

Lemma app_string_inj (a r1 r2 : string) : a +:+ r1 = a +:+ r2 -> r1 = r2.
Proof. induction a as [|c a IH]; simpl; [done|]. intros [= H]. auto. Qed.

Lemma emit_separable v : separable emit json_ok v.
Proof.
  induction v as [|b|n|s|l IH|d IH] using json_ind'; intros w r1 r2 Hv Hw H1 H2 H;
    pose proof (emit_kind _ _ _ _ H) as Hk; destruct w as [|b'|n'|s'|l'|d']; try done.
  - by injection H.
  - subst b'. destruct b; by injection H.
  - by apply str_of_int_inj in H as [-> ->].
  - by apply quote_inj in H as [-> ->].
  - injection H as H. apply (members_inj emit json_ok "]") in H as [-> ->]; try done.
    intros x r t E. destruct (emit_head x r) as (c & ? & Hx & ? & _). rewrite Hx in E. by injection E.
  - injection H as H.
    apply (members_inj (fun kv r => quote kv.1 (String ":" (String " " (emit kv.2 r))))
             (fun kv => text_ok kv.1 && json_ok kv.2) "}") in H as [-> ->]; try done.
    eapply Forall_impl; [exact IH|]. intros [k v] Hkv [k' v'] s1 s2 Ho1 Ho2 Hs1 Hs2 E.
    cbn in *. apply andb_prop in Ho1 as [Hk1 Hv1], Ho2 as [Hk2 Hv2].
    apply quote_inj in E as [-> [= E]]; [|done..]. by apply Hkv in E as [-> ->].
Qed.

Lemma forallb_Forall {A} (f : A -> bool) l : forallb f l = true <-> Forall (fun x => f x = true) l.
Proof. by rewrite forallb_forall, List.Forall_forall. Qed.

Lemma canon_ok v : json_ok v = true -> json_ok (canon v) = true.
Proof.
  induction v as [|b|n|s|l IH|d IH] using json_ind'; simpl; try done.
  - rewrite !forallb_Forall, Forall_map. intros H. rewrite Forall_forall in *. naive_solver.
  - rewrite !forallb_Forall, sort_items_perm, Forall_map. intros H. rewrite Forall_forall in *.
    intros [k v] Hin. specialize (H _ Hin). specialize (IH _ Hin). cbn in *.
    apply andb_prop in H as [-> H]. auto.
Qed.

(** The output determines the value up to the order of object members. *)
Lemma dumps_inj v w : json_ok v = true -> json_ok w = true -> dumps v = dumps w -> canon v = canon w.
Proof.
  unfold dumps. rewrite !dump_emit. intros Hv Hw H.
  by apply emit_separable in H as [? _]; try apply canon_ok.
Qed.

(** Equal objects agree on every key. *)
Lemma canon_member d e i j k v w :
  canon (JDict d) = canon (JDict e) -> NoDup (map fst e) ->
  d !! i = Some (k, v) -> e !! j = Some (k, w) -> canon v = canon w.
Proof.
  cbn [canon]. intros [= H] Hd Hi Hj.
  set (f := fun kv : ustr * json => (kv.1, canon kv.2)) in *.
  assert (Hv : (k, canon v) ∈ map f e).
  { rewrite <- (sort_items_perm (map f e)), <- H, sort_items_perm.
    apply list_elem_of_fmap. exists (k, v). split; [done|]. by eapply list_elem_of_lookup_2. }
  apply list_elem_of_fmap in Hv as ([k' v'] & [= -> ->] & Hv).
  apply list_elem_of_lookup in Hv as [i' Hi'].
  assert (i' = j) as ->.
  { eapply (NoDup_lookup _ i' j k' Hd).
    - by rewrite list_lookup_fmap, Hi'.
    - by rewrite list_lookup_fmap, Hj. }
  rewrite Hj in Hi'. by injection Hi' as ->.
Qed.

(** Text literals. *)
Definition u (s : string) : ustr := map (fun c => Z.of_N (N_of_ascii c)) (String.list_ascii_of_string s).

Example dumps_ex :
  String.length (dumps (JDict [(u "b", JList [JInt 1; JNull; JInt (-20)]); (u "a", JStr [92; 0x1F600; 233])])) = 50%nat /\
  dumps (JList [JInt 0; JBool true; JList []]) = "[0, true, []]".
Proof. split; vm_compute; reflexivity. Qed.
