(* ===== verification/PyJson.v ===== *)
(** * Python operations on JSON values and text

    What the anonymize orchestrator does with a [pipeline_json] column and
    with text columns: truth value, [dict.get], item assignment on a copy,
    [int(...)], equality, and [str.strip]/[str.startswith]. *)
From S2P Require Import Prelude Bytes PyInt Utf8 Json.

(** ** Text *)

(** The characters [str.isspace] accepts. *)
Definition py_isspace (c : Z) : bool :=
  ((9 <=? c) && (c <=? 13)) || ((28 <=? c) && (c <=? 32)) || (c =? 133) || (c =? 160) || (c =? 5760) ||
  ((8192 <=? c) && (c <=? 8202)) || (c =? 8232) || (c =? 8233) || (c =? 8239) || (c =? 8287) || (c =? 12288).

Fixpoint lstrip (s : ustr) : ustr :=
  match s with
  | [] => []
  | c :: t => if py_isspace c then lstrip t else s
  end.

Definition strip (s : ustr) : ustr := reverse (lstrip (reverse (lstrip s))).

Fixpoint startswith (p s : ustr) : bool :=
  match p, s with
  | [], _ => true
  | _ :: _, [] => false
  | a :: p, b :: s => (a =? b) && startswith p s
  end.

(** [p in s] *)
Fixpoint infix (p s : ustr) : bool :=
  startswith p s || match s with [] => false | _ :: s => infix p s end.

(** Text for the decoders that read Latin-1; a character beyond is none they
    accept. *)
Definition latin (s : ustr) : list ascii :=
  map (fun c => if (0 <=? c) && (c <? 256) then ascii_of_N (Z.to_N c) else ascii_of_N 255) s.

(** [str.lower] on ASCII letters *)
Definition lower_text (s : ustr) : ustr := map (fun c => if (65 <=? c) && (c <=? 90) then c + 32 else c) s.

(** [s or ""] of an optional column, stripped *)
Definition stripped (s : option ustr) : ustr := strip (default [] s).

(** Truth value of an optional text: not [None] and not empty. *)
Definition nonempty (s : option ustr) : bool :=
  match s with Some (_ :: _) => true | _ => false end.

(** ** Values *)

Definition truthy (v : json) : bool :=
  match v with
  | JNull => false
  | JBool b => b
  | JInt n => negb (n =? 0)
  | JStr s => match s with [] => false | _ => true end
  | JList l => match l with [] => false | _ => true end
  | JDict d => match d with [] => false | _ => true end
  end.

(** [v or {}] *)
Definition or_dict (v : json) : json := if truthy v then v else JDict [].

Definition is_dict (v : json) : bool := match v with JDict _ => true | _ => false end.

Fixpoint assoc {A} (k : ustr) (d : list (ustr * A)) : option A :=
  match d with
  | [] => None
  | (k', v) :: d => if bool_decide (k = k') then Some v else assoc k d
  end.

(** [d.get(k, dflt)]: only a dict has the method. *)
Definition py_get (d : json) (k : ustr) (dflt : json) : result json :=
  match d with
  | JDict l => Ok (default dflt (assoc k l))
  | _ => Err AttributeError
  end.

(** [d.get(k)] of a dict; [null] stands for [None] too *)
Definition dget (d : list (ustr * json)) (k : ustr) : json := default JNull (assoc k d).

(** [d[k] = v] *)
Fixpoint dset (d : list (ustr * json)) (k : ustr) (v : json) : list (ustr * json) :=
  match d with
  | [] => [(k, v)]
  | (k', v') :: d => if bool_decide (k = k') then (k, v) :: d else (k', v') :: dset d k v
  end.

(** [dict(v or {})]: a copy of a dict; a list of pairs and text are not
    what the column holds and raise here. *)
Definition py_dict (v : json) : result (list (ustr * json)) :=
  match or_dict v with
  | JDict d => Ok d
  | JInt _ | JBool _ | JNull => Err (TypeError "object is not iterable")
  | _ => Err (ValueError "dictionary update sequence element")
  end.

(** Decimal digits with single underscores between digits. *)
Fixpoint int_digits (acc : Z) (after_digit : bool) (s : ustr) : result Z :=
  match s with
  | [] => if after_digit then Ok acc else Err (ValueError "invalid literal for int() with base 10: ")
  | c :: s =>
      if (48 <=? c) && (c <=? 57) then int_digits (acc * 10 + (c - 48)) true s
      else if (c =? 95) && after_digit then int_digits acc false s
      else Err (ValueError "invalid literal for int() with base 10: ")
  end.

(** [int(text)], for text written in ASCII digits *)
Definition int_of_str (s : ustr) : result Z :=
  match strip s with
  | 43 :: t => int_digits 0 false t
  | 45 :: t => Z.opp <$> int_digits 0 false t
  | t => int_digits 0 false t
  end.

(** [int(v)] *)
Definition int_of_json (v : json) : result Z :=
  match v with
  | JInt n => Ok n
  | JBool b => Ok (if b then 1 else 0)
  | JStr s => int_of_str s
  | _ => Err (TypeError "int() argument must be a string, a bytes-like object or a real number")
  end.

Definition is_jstr (v : json) (s : ustr) : bool :=
  match v with JStr t => bool_decide (t = s) | _ => false end.

(** ** Equality of values *)

Fixpoint json_eqb (a b : json) : bool :=
  let fix list_eqb (l k : list json) : bool :=
    match l, k with
    | [], [] => true
    | x :: l, y :: k => json_eqb x y && list_eqb l k
    | _, _ => false
    end in
  let fix dict_eqb (l k : list (ustr * json)) : bool :=
    match l, k with
    | [], [] => true
    | (i, x) :: l, (j, y) :: k => bool_decide (i = j) && json_eqb x y && dict_eqb l k
    | _, _ => false
    end in
  match a, b with
  | JNull, JNull => true
  | JBool x, JBool y => Bool.eqb x y
  | JInt x, JInt y => x =? y
  | JStr x, JStr y => bool_decide (x = y)
  | JList x, JList y => list_eqb x y
  | JDict x, JDict y => dict_eqb x y
  | _, _ => false
  end.

Lemma json_eqb_spec a b : json_eqb a b = true <-> a = b.
Proof.
  revert b. induction a as [|x|x|x|x IH|x IH] using json_ind'; intros [|y|y|y|y|y]; simpl; try done.
  - rewrite Bool.eqb_true_iff. naive_solver.
  - rewrite Z.eqb_eq. naive_solver.
  - rewrite bool_decide_eq_true. naive_solver.
  - transitivity (x = y); [|naive_solver]. revert y.
    induction IH as [|v l Hv _ IH]; intros [|w k]; simpl; try done.
    rewrite andb_true_iff, Hv, IH. naive_solver.
  - transitivity (x = y); [|naive_solver]. revert y.
    induction IH as [|[i v] l Hv _ IH]; intros [|[j w] k]; simpl; try done.
    simpl in Hv. rewrite !andb_true_iff, bool_decide_eq_true, Hv, IH. naive_solver.
Qed.

Global Instance json_eq_dec : EqDecision json.
Proof.
  intros a b. destruct (json_eqb a b) eqn:E.
  - left. by apply json_eqb_spec.
  - right. intros H. apply json_eqb_spec in H. congruence.
Defined.

(** ** Lemmas *)

Lemma assoc_dset (d : list (ustr * json)) k v : assoc k (dset d k v) = Some v.
Proof.
  induction d as [|[k' v'] d IH]; simpl.
  - by rewrite bool_decide_eq_true_2.
  - case_bool_decide; simpl; by rewrite ?bool_decide_eq_true_2, ?bool_decide_eq_false_2 by done.
Qed.

Lemma assoc_dset_ne (d : list (ustr * json)) k k' v : k <> k' -> assoc k (dset d k' v) = assoc k d.
Proof.
  intros Hne. induction d as [|[i w] d IH]; simpl.
  - by rewrite bool_decide_eq_false_2.
  - case_bool_decide as E; simpl.
    + subst i. by rewrite bool_decide_eq_false_2.
    + by rewrite IH.
Qed.

Lemma dget_dset d k v : dget (dset d k v) k = v.
Proof. unfold dget. by rewrite assoc_dset. Qed.

Lemma dget_dset_ne d k k' v : k <> k' -> dget (dset d k' v) k = dget d k.
Proof. intros H. unfold dget. by rewrite assoc_dset_ne. Qed.

Lemma dset_truthy d k v : or_dict (JDict (dset d k v)) = JDict (dset d k v).
Proof. unfold or_dict. destruct d as [|[k' v'] d]; simpl; [done|]. by case_bool_decide. Qed.

Lemma or_dict_nonempty d : or_dict (JDict d) = JDict d.
Proof. by destruct d. Qed.

Example int_of_str_ex : int_of_str (u " -1_000 ") = Ok (-1000).
Proof. reflexivity. Qed.
