(* ===== verification/PyTime.v ===== *)
(** * UTC [datetime] values of the Python standard library

    A datetime in UTC by its fields. Order, [+ timedelta(microseconds=1)]
    and [isoformat()]. Values read back without a time zone are taken as UTC
    by every user of this type, so none is carried. *)
From S2P Require Import Prelude PyInt Utf8.

Record datetime := mkDT {
  year : Z; month : Z; day : Z; hour : Z; minute : Z; second : Z; microsecond : Z
}.

Global Instance datetime_eq_dec : EqDecision datetime.
Proof. solve_decision. Defined.

Definition is_leap (y : Z) : bool :=
  (y mod 4 =? 0) && (negb (y mod 100 =? 0) || (y mod 400 =? 0)).

Definition days_in_month (y m : Z) : Z :=
  if m =? 2 then if is_leap y then 29 else 28
  else if (m =? 4) || (m =? 6) || (m =? 9) || (m =? 11) then 30 else 31.

(** The ranges the constructor enforces. *)
Definition dt_ok (d : datetime) : bool :=
  (1 <=? year d) && (year d <=? 9999) && (1 <=? month d) && (month d <=? 12) &&
  (1 <=? day d) && (day d <=? days_in_month (year d) (month d)) &&
  (0 <=? hour d) && (hour d <? 24) && (0 <=? minute d) && (minute d <? 60) &&
  (0 <=? second d) && (second d <? 60) && (0 <=? microsecond d) && (microsecond d <? 1000000).

(** ** Order *)

(** The fields, most significant first. *)
Definition fields (d : datetime) : list Z :=
  [year d; month d; day d; hour d; minute d; second d; microsecond d].

(** Lexicographic order of integer tuples. *)
Fixpoint lex_lt (s t : list Z) : bool :=
  match s, t with
  | [], [] => false
  | [], _ :: _ => true
  | _ :: _, [] => false
  | a :: s, b :: t => if a <? b then true else if b <? a then false else lex_lt s t
  end.

Definition dt_lt (d e : datetime) : bool := lex_lt (fields d) (fields e).

(** [d + timedelta(microseconds=1)] *)
Definition add_microsecond (d : datetime) : result datetime :=
  if microsecond d + 1 <? 1000000 then
    Ok (mkDT (year d) (month d) (day d) (hour d) (minute d) (second d) (microsecond d + 1))
  else if second d + 1 <? 60 then
    Ok (mkDT (year d) (month d) (day d) (hour d) (minute d) (second d + 1) 0)
  else if minute d + 1 <? 60 then
    Ok (mkDT (year d) (month d) (day d) (hour d) (minute d + 1) 0 0)
  else if hour d + 1 <? 24 then
    Ok (mkDT (year d) (month d) (day d) (hour d + 1) 0 0 0)
  else if day d + 1 <=? days_in_month (year d) (month d) then
    Ok (mkDT (year d) (month d) (day d + 1) 0 0 0 0)
  else if month d + 1 <=? 12 then
    Ok (mkDT (year d) (month d + 1) 1 0 0 0 0)
  else if year d + 1 <=? 9999 then
    Ok (mkDT (year d + 1) 1 1 0 0 0 0)
  else Err (OverflowError "date value out of range").

(** ** Text *)

(** [n] in [w] decimal digits, in front of [s]. *)
Fixpoint digits (w : nat) (n : Z) (s : string) : string :=
  match w with
  | O => s
  | S w => digits w (n / 10) (String (digit_char (n mod 10)) s)
  end.

(** [d.isoformat()] of an aware UTC value *)
Definition isoformat (d : datetime) : string :=
  digits 4 (year d) (String "-" (digits 2 (month d) (String "-" (digits 2 (day d) (String "T"
    (digits 2 (hour d) (String ":" (digits 2 (minute d) (String ":" (digits 2 (second d)
      (if microsecond d =? 0 then "+00:00" else String "." (digits 6 (microsecond d) "+00:00")))))))))))).

(** ** Facts *)

Lemma lex_irrefl s : lex_lt s s = false.
Proof. induction s as [|a s IH]; simpl; [done|]. by rewrite Z.ltb_irrefl. Qed.

Lemma lex_trans s : forall t v, lex_lt s t = true -> lex_lt t v = true -> lex_lt s v = true.
Proof.
  induction s as [|a s IH]; intros [|b t] [|c v] H1 H2; simpl in *; try done.
  destruct (Z.ltb_spec a b), (Z.ltb_spec b a), (Z.ltb_spec b c), (Z.ltb_spec c b),
    (Z.ltb_spec a c), (Z.ltb_spec c a); try done; try lia. eauto.
Qed.

Lemma lex_total s : forall t, lex_lt s t = false -> lex_lt t s = false -> s = t.
Proof.
  induction s as [|a s IH]; intros [|b t] H1 H2; simpl in *; try done.
  destruct (Z.ltb_spec a b), (Z.ltb_spec b a); try done; try lia.
  replace b with a by lia. f_equal. auto.
Qed.

Lemma lex_asym s t : lex_lt s t = true -> lex_lt t s = false.
Proof.
  intros H. destruct (lex_lt t s) eqn:E; [|done].
  by rewrite <- (lex_irrefl s), (lex_trans _ _ _ H E).
Qed.

Lemma lex_app s t a b :
  length s = length t -> lex_lt s t = true -> lex_lt (s ++ a) (t ++ b) = true.
Proof.
  revert t. induction s as [|x s IH]; intros [|y t] Hl H; simpl in *; try done.
  destruct (x <? y); [done|]. destruct (y <? x); [done|]. auto.
Qed.

Lemma lex_app_inv s : forall t a b,
  length s = length t -> lex_lt (s ++ a) (t ++ b) = true -> lex_lt s t = true \/ s = t.
Proof.
  induction s as [|x s IH]; intros [|y t] a b Hl H; simpl in *; try done; [by right|].
  destruct (Z.ltb_spec x y); [by left|]. destruct (Z.ltb_spec y x); [done|].
  destruct (IH t a b) as [?| ->]; [by injection Hl|exact H|by left|]. right. by replace y with x by lia.
Qed.

Lemma dt_lt_trans a b c : dt_lt a b = true -> dt_lt b c = true -> dt_lt a c = true.
Proof. apply lex_trans. Qed.

Lemma fields_inj d e : fields d = fields e -> d = e.
Proof. destruct d, e. unfold fields. simpl. by intros [= -> -> -> -> -> -> ->]. Qed.

Lemma add_microsecond_lt d e : add_microsecond d = Ok e -> dt_lt d e = true.
Proof.
  unfold add_microsecond, dt_lt, fields. intros H. repeat case_hyp H; injection H as <-; cbn.
  all: rewrite ?Z.ltb_irrefl.
  all: match goal with |- context [?a <? ?a + 1] => rewrite (proj2 (Z.ltb_lt a (a + 1))) by lia end; done.
Qed.

Lemma days_in_month_range y m : 28 <= days_in_month y m <= 31.
Proof. unfold days_in_month. repeat case_match; lia. Qed.

Lemma add_microsecond_ok d e : dt_ok d = true -> add_microsecond d = Ok e -> dt_ok e = true.
Proof.
  unfold dt_ok. intros Hd H. bool_to_prop. unfold add_microsecond in H.
  pose proof (days_in_month_range (year d) (month d + 1)). pose proof (days_in_month_range (year d + 1) 1).
  repeat case_hyp H; injection H as <-; bool_to_prop; cbn [year month day hour minute second microsecond];
  repeat (apply andb_true_intro; split); first [apply Z.leb_le|apply Z.ltb_lt]; lia.
Qed.

Lemma digits_inj w : forall n m s t,
  0 <= n < 10 ^ Z.of_nat w -> 0 <= m < 10 ^ Z.of_nat w ->
  digits w n s = digits w m t -> n = m /\ s = t.
Proof.
  induction w as [|w IH]; intros n m s t Hn Hm H; cbn [digits] in H.
  - simpl in Hn, Hm. split; [lia|done].
  - rewrite Nat2Z.inj_succ, Z.pow_succ_r in Hn, Hm by lia.
    apply IH in H as [Hq H]; [|dlia|dlia]. injection H as Hr ->.
    destruct (is_digit_char (n mod 10) ltac:(dlia)) as [_ H1].
    destruct (is_digit_char (m mod 10) ltac:(dlia)) as [_ H2].
    rewrite Hr, H2 in H1. split; [dlia|done].
Qed.

Lemma string_tail c s t : String c s = String c t -> s = t.
Proof. by intros [= ->]. Qed.

(** The text determines the value. *)
Lemma isoformat_inj d e : dt_ok d = true -> dt_ok e = true -> isoformat d = isoformat e -> d = e.
Proof.
  unfold dt_ok. intros Hd He H. bool_to_prop. unfold isoformat in H.
  pose proof (days_in_month_range (year d) (month d)). pose proof (days_in_month_range (year e) (month e)).
  apply digits_inj in H as [Hy H%string_tail]; [|lia..]. apply digits_inj in H as [Hmo H%string_tail]; [|lia..].
  apply digits_inj in H as [Hda H%string_tail]; [|lia..]. apply digits_inj in H as [Hh H%string_tail]; [|lia..].
  apply digits_inj in H as [Hmi H%string_tail]; [|lia..]. apply digits_inj in H as [Hs H]; [|lia..].
  assert (Hus : microsecond d = microsecond e).
  2: { apply fields_inj. unfold fields. by rewrite Hy, Hmo, Hda, Hh, Hmi, Hs, Hus. }
  destruct (Z.eqb_spec (microsecond d) 0), (Z.eqb_spec (microsecond e) 0); try done.
  1: congruence.
  apply string_tail in H. by apply digits_inj in H as [? _]; [|lia..].
Qed.

Example isoformat_ex :
  isoformat (mkDT 2026 6 8 1 2 3 40) = "2026-06-08T01:02:03.000040+00:00" /\
  isoformat (mkDT 2026 6 8 1 2 3 0) = "2026-06-08T01:02:03+00:00" /\
  add_microsecond (mkDT 2024 2 28 23 59 59 999999) = Ok (mkDT 2024 2 29 0 0 0 0).
Proof. vm_compute. done. Qed.

(** ** Reading a timestamp back *)

(** [w] decimal digits *)
Fixpoint read_fixed (w : nat) (acc : Z) (s : ustr) : option (Z * ustr) :=
  match w, s with
  | O, _ => Some (acc, s)
  | S w, c :: s => if (48 <=? c) && (c <=? 57) then read_fixed w (acc * 10 + (c - 48)) s else None
  | S _, [] => None
  end.

Definition read_char (c : Z) (s : ustr) : option ustr :=
  match s with d :: t => if c =? d then Some t else None | [] => None end.

(** [datetime.fromisoformat] on the text [isoformat] writes for a UTC value
    (offset [+00:00]) or for a naive one (no offset); [None] is ValueError. *)
Definition fromisoformat (s : ustr) : option datetime :=
  '(y, s) ← read_fixed 4 0 s; s ← read_char 45 s;
  '(mo, s) ← read_fixed 2 0 s; s ← read_char 45 s;
  '(d, s) ← read_fixed 2 0 s; s ← read_char 84 s;
  '(h, s) ← read_fixed 2 0 s; s ← read_char 58 s;
  '(mi, s) ← read_fixed 2 0 s; s ← read_char 58 s;
  '(sec, s) ← read_fixed 2 0 s;
  '(us, s) ← match s with 46 :: t => read_fixed 6 0 t | _ => Some (0, s) end;
  let r := mkDT y mo d h mi sec us in
  if dt_ok r && (bool_decide (s = []) || bool_decide (s = [43; 48; 48; 58; 48; 48])) then Some r else None.

(** Days before the year and before the month, and microseconds since
    1970-01-01 ([timestamp()], in microseconds). *)
Definition days_before_year (y : Z) : Z :=
  let p := y - 1 in p * 365 + p / 4 - p / 100 + p / 400.

Fixpoint days_before_month (y : Z) (m : nat) : Z :=
  match m with
  | O => 0
  | S m => days_before_month y m + match m with O => 0 | _ => days_in_month y (Z.of_nat m) end
  end.

Definition timestamp_us (d : datetime) : Z :=
  let days := days_before_year (year d) + days_before_month (year d) (Z.to_nat (month d)) + day d - 719163 in
  (((days * 24 + hour d) * 60 + minute d) * 60 + second d) * 1000000 + microsecond d.

Example timestamp_ex :
  timestamp_us <$> fromisoformat (map (fun c => Z.of_N (N_of_ascii c))
    (String.list_ascii_of_string "2024-02-29T12:34:56.000789+00:00")) = Some 1709210096000789.
Proof. reflexivity. Qed.
