(* ===== verification/AuditLog.v ===== *)
(** * Audit log rows (app/models/audit_log.py, app/core/security.py)

    [AuditLog], its keyed hash and the high-water row
    (app/models/audit_chain_state.py). Text columns are lists of code points;
    a UUID is the 128-bit number it stands for; secrets are given by their
    UTF-8 encoding. *)
From S2P Require Import Prelude Bytes Sha256 PyInt Utf8 Json PyTime.

(** ** Keyed hash *)

Record audit_settings := mkAS {
  secret_key : bytes;
  secret_key_previous : bytes          (* empty: no previous key *)
}.

Definition _AUDIT_CHAIN_CONTEXT : bytes := String.list_byte_of_string "agent-wallet/audit-chain/v1".

(** [secret or settings.secret_key] *)
Definition key_or_default (cfg : audit_settings) (secret : option bytes) : bytes :=
  match secret with Some (b :: s) => b :: s | _ => secret_key cfg end.

(** [audit_chain_hmac], the payload already encoded *)
Definition audit_chain_hmac (cfg : audit_settings) (payload : bytes) (secret : option bytes) : ustr :=
  let chain_key := hmac_sha256 (key_or_default cfg secret) _AUDIT_CHAIN_CONTEXT in
  u (hex (hmac_sha256 chain_key payload)).

(** ** Rows *)

(** The columns, and [created_at] and [id] as [_finalize_entry] sets them. *)
Record AuditLog := mkRow {
  id : Z;
  api_key_id : option Z;
  api_key_name : ustr;
  action : ustr;
  resource : ustr;
  details : json;                      (* [JNull] is [None] *)
  amount_sats : option Z;
  success : bool;
  error_message : option ustr;
  ip_address : option ustr;
  prev_hash : option ustr;
  entry_hash : option ustr;
  created_at : datetime
}.

(** [str(uuid)]: the hex digits of the 16 bytes in groups of 8-4-4-4-12 *)
Definition uuid_str (n : Z) : string :=
  let b := be_bytes 16 n in
  hex (take 4 b) +:+ "-" +:+ hex (take 2 (drop 4 b)) +:+ "-" +:+ hex (take 2 (drop 6 b)) +:+ "-" +:+
  hex (take 2 (drop 8 b)) +:+ "-" +:+ hex (take 6 (drop 10 b)).

(** [s or ""] *)
Definition or_empty (s : option ustr) : ustr := default [] s.

Definition json_opt {A} (f : A -> json) (x : option A) : json :=
  match x with Some a => f a | None => JNull end.

(** The dict of [compute_hash], in source order. *)
Definition payload_items (r : AuditLog) : list (ustr * json) :=
  [
    (u "id", JStr (u (uuid_str (id r))));
    (u "api_key_id", JStr (u (match api_key_id r with Some k => uuid_str k | None => "None" end)));
    (u "api_key_name", JStr (api_key_name r));
    (u "action", JStr (action r));
    (u "resource", JStr (resource r));
    (u "details", details r);
    (u "amount_sats", json_opt JInt (amount_sats r));
    (u "success", JBool (success r));
    (u "error_message", json_opt JStr (error_message r));
    (u "ip_address", json_opt JStr (ip_address r));
    (u "prev_hash", JStr (or_empty (prev_hash r)));
    (u "created_at", JStr (u (isoformat (created_at r))))
  ].

Definition payload_dict (r : AuditLog) : json := JDict (payload_items r).

Definition payload (r : AuditLog) : bytes := String.list_byte_of_string (dumps (payload_dict r)).

Definition compute_hash (cfg : audit_settings) (r : AuditLog) (secret : option bytes) : ustr :=
  audit_chain_hmac cfg (payload r) secret.

(** ** High-water row *)

Record AuditChainState := mkState {
  entry_count : Z;
  head_hash : option ustr;
  state_hmac : ustr
}.

(** ** What the hash covers *)

(** Every column but the stored hash; [None] and [""] back-links and the
    order of object members are not told apart. *)
Definition audited (r : AuditLog) :=
  (id r, api_key_id r, api_key_name r, action r, resource r, canon (details r), amount_sats r,
   success r, error_message r, ip_address r, or_empty (prev_hash r), created_at r).

(** Values the columns can hold. *)
Definition row_ok (r : AuditLog) : bool :=
  (0 <=? id r) && (id r <? 2 ^ 128) &&
  match api_key_id r with Some k => (0 <=? k) && (k <? 2 ^ 128) | None => true end &&
  text_ok (api_key_name r) && text_ok (action r) && text_ok (resource r) && json_ok (details r) &&
  match error_message r with Some s => text_ok s | None => true end &&
  match ip_address r with Some s => text_ok s | None => true end &&
  text_ok (or_empty (prev_hash r)) && dt_ok (created_at r).

Lemma u_inj s t : u s = u t -> s = t.
Proof.
  unfold u. revert t. induction s as [|c s IH]; intros [|d t] H; simpl in H; try done.
  injection H as Hc H. f_equal; [|by apply IH].
  rewrite <- (ascii_N_embedding c), <- (ascii_N_embedding d). f_equal. lia.
Qed.

Definition is_ascii (s : string) : bool :=
  forallb (fun c => (N_of_ascii c <? 128)%N) (String.list_ascii_of_string s).

Lemma u_ok s : is_ascii s = true -> text_ok (u s) = true.
Proof.
  unfold is_ascii, text_ok, u. induction s as [|c s IH]; simpl; [done|]. intros [Hc H]%andb_prop.
  rewrite IH, andb_true_r by done. apply N.ltb_lt in Hc. unfold scalar, is_surrogate.
  destruct (Z.leb_spec 0 (Z.of_N (N_of_ascii c))), (Z.leb_spec (Z.of_N (N_of_ascii c)) 0x10FFFF),
    (Z.leb_spec 0xD800 (Z.of_N (N_of_ascii c))); lia || done.
Qed.

Lemma list_byte_inj s t : String.list_byte_of_string s = String.list_byte_of_string t -> s = t.
Proof.
  intros H. rewrite <- (String.string_of_list_byte_of_string s), <- (String.string_of_list_byte_of_string t).
  by rewrite H.
Qed.

Lemma hex_prefix_inj a : forall b s t,
  length a = length b -> hex a +:+ s = hex b +:+ t -> a = b /\ s = t.
Proof.
  induction a as [|x a IH]; intros [|y b] s t Hl H; simpl in *; try done.
  injection H as Hh Hlo H. apply IH in H as [-> ->]; [|lia]. split; [|done]. f_equal.
  pose proof (b2z_range x). pose proof (b2z_range y).
  assert (Hd : forall p q, 0 <= p < 16 -> 0 <= q < 16 -> hex_digit p = hex_digit q -> p = q).
  { intros p q Hp Hq E. destruct (hex_digit_ok p Hp) as [Hp' _], (hex_digit_ok q Hq) as [Hq' _].
    rewrite E, Hq' in Hp'. by injection Hp'. }
  apply Hd in Hh; [|dlia..]. apply Hd in Hlo; [|dlia..].
  rewrite <- (z2b_b2z x), <- (z2b_b2z y). f_equal. dlia.
Qed.

Lemma uuid_str_inj n m : 0 <= n < 2 ^ 128 -> 0 <= m < 2 ^ 128 -> uuid_str n = uuid_str m -> n = m.
Proof.
  intros Hn Hm H. unfold uuid_str in H.
  assert (Hb : be_bytes 16 n = be_bytes 16 m).
  { set (a := be_bytes 16 n) in *. set (b := be_bytes 16 m) in *.
    assert (La : length a = 16%nat) by apply length_be_bytes.
    assert (Lb : length b = 16%nat) by apply length_be_bytes.
    clearbody a b.
    apply hex_prefix_inj in H as [H1 H%string_tail]; [|rewrite !length_take; lia].
    apply hex_prefix_inj in H as [H2 H%string_tail]; [|rewrite !length_take, !length_drop; lia].
    apply hex_prefix_inj in H as [H3 H%string_tail]; [|rewrite !length_take, !length_drop; lia].
    apply hex_prefix_inj in H as [H4 H%string_tail]; [|rewrite !length_take, !length_drop; lia].
    do 16 (destruct a as [|? a]; [done|]). destruct a; [|done].
    do 16 (destruct b as [|? b]; [done|]). destruct b; [|done].
    cbn in H1, H2, H3, H4. cbn [take drop] in H.
    assert (E : forall p q, length p = length q -> hex p = hex q -> p = q).
    { intros p q Hpq E. apply (hex_prefix_inj p q "" ""); [done|]. by rewrite E. }
    apply E in H; [|done]. by simplify_eq. }
  rewrite <- (from_be_be_bytes 16 n), <- (from_be_be_bytes 16 m) by done. by rewrite Hb.
Qed.

Lemma ascii_cons c s : is_ascii (String c s) = ((N_of_ascii c <? 128)%N && is_ascii s).
Proof. done. Qed.

Lemma ascii_app s t : is_ascii (s +:+ t) = is_ascii s && is_ascii t.
Proof. induction s as [|c s IH]; [done|].
  change (String c s +:+ t) with (String c (s +:+ t)). rewrite !ascii_cons, IH. by rewrite andb_assoc. Qed.

Lemma ascii_hex b : is_ascii (hex b) = true.
Proof.
  assert (Hd : forall z, 0 <= z < 16 -> (N_of_ascii (hex_digit z) <? 128)%N = true).
  { assert (HF : forallb (fun z => (N_of_ascii (hex_digit z) <? 128)%N) (seqZ 0 16) = true) by done.
    rewrite forallb_forall in HF. intros z Hz. apply HF. apply list_elem_of_In, elem_of_seqZ. lia. }
  induction b as [|x b IH]; [done|]. cbn [hex]. pose proof (b2z_range x).
  rewrite !ascii_cons, IH, !Hd by dlia. done.
Qed.

Lemma ascii_digits w : forall n s, is_ascii (digits w n s) = is_ascii s.
Proof.
  induction w as [|w IH]; intros n s; cbn [digits]; [done|]. rewrite IH, ascii_cons.
  destruct (is_digit_char (n mod 10) ltac:(dlia)) as [H _]. unfold is_digit in H.
  apply andb_prop in H as [_ H%N.leb_le]. rewrite (proj2 (N.ltb_lt _ _)) by lia. done.
Qed.

Lemma ascii_isoformat d : is_ascii (isoformat d) = true.
Proof.
  unfold isoformat. repeat (rewrite ascii_digits, ascii_cons). rewrite ascii_digits.
  case_match; [done|]. rewrite ascii_cons, ascii_digits. done.
Qed.

Lemma uuid_text n : text_ok (u (uuid_str n)) = true.
Proof. apply u_ok. unfold uuid_str. by rewrite !ascii_app, !ascii_hex. Qed.

Lemma payload_dict_ok r : row_ok r = true -> json_ok (payload_dict r) = true.
Proof.
  unfold row_ok. intros H. bool_to_prop. unfold payload_dict.
  apply forallb_Forall. repeat (apply Forall_cons; split); [..|by apply Forall_nil].
  all: cbn [fst snd]; apply andb_true_intro; split; [reflexivity|]; cbn [json_ok]; try done.
  - apply uuid_text.
  - destruct (api_key_id r); [apply uuid_text|reflexivity].
  - by destruct (amount_sats r).
  - by destruct (error_message r).
  - by destruct (ip_address r).
  - apply u_ok, ascii_isoformat.
Qed.

Lemma jstr_inj a b : canon (JStr a) = canon (JStr b) -> a = b.
Proof. by intros [= ->]. Qed.

Lemma jint_inj a b : canon (JInt a) = canon (JInt b) -> a = b.
Proof. by intros [= ->]. Qed.

Lemma jbool_inj a b : canon (JBool a) = canon (JBool b) -> a = b.
Proof. by intros [= ->]. Qed.

Lemma json_opt_inj {A} (f : A -> json) (x y : option A) :
  (forall a b, canon (f a) = canon (f b) -> a = b) -> (forall a, canon (f a) <> JNull) ->
  canon (json_opt f x) = canon (json_opt f y) -> x = y.
Proof.
  intros Hf Hn H. destruct x as [a|], y as [b|]; simpl in H; try done.
  - f_equal. by apply Hf.
  - by apply Hn in H.
  - symmetry in H. by apply Hn in H.
Qed.

Lemma key_str_inj (k l : option Z) :
  match k with Some k => (0 <=? k) && (k <? 2 ^ 128) | None => true end = true ->
  match l with Some k => (0 <=? k) && (k <? 2 ^ 128) | None => true end = true ->
  match k with Some k => uuid_str k | None => "None"%string end =
  match l with Some k => uuid_str k | None => "None"%string end -> k = l.
Proof.
  intros Hk Hl H. destruct k as [k|], l as [l|]; bool_to_prop; try done.
  - f_equal. apply uuid_str_inj; lia || done.
Qed.

(** The hashed text determines the audited columns. *)
Lemma payload_inj r s :
  row_ok r = true -> row_ok s = true -> payload r = payload s -> audited r = audited s.
Proof.
  intros Hr Hs H. apply list_byte_inj in H.
  apply dumps_inj in H; [|by apply payload_dict_ok..].
  assert (Hd : NoDup (map fst (payload_items s))) by (apply (bool_decide_eq_true_1 _); reflexivity).
  assert (Hm : forall i k v w, payload_items r !! i = Some (k, v) -> payload_items s !! i = Some (k, w) ->
    canon v = canon w).
  { intros i k v w. apply (canon_member _ _ i i k v w H Hd). }
  assert (Hid : id r = id s).
  { apply uuid_str_inj; [|..|exact (u_inj _ _ (jstr_inj _ _ (Hm 0%nat _ _ _ eq_refl eq_refl)))];
      unfold row_ok in Hr, Hs; bool_to_prop; lia. }
  assert (Hk : api_key_id r = api_key_id s).
  { apply key_str_inj; [| |exact (u_inj _ _ (jstr_inj _ _ (Hm 1%nat _ _ _ eq_refl eq_refl)))];
      unfold row_ok in Hr, Hs; by bool_to_prop. }
  assert (Hc : created_at r = created_at s).
  { apply isoformat_inj; [| |exact (u_inj _ _ (jstr_inj _ _ (Hm 11%nat _ _ _ eq_refl eq_refl)))];
      unfold row_ok in Hr, Hs; by bool_to_prop. }
  unfold audited. rewrite Hid, Hk, Hc.
  rewrite (jstr_inj _ _ (Hm 2%nat _ _ _ eq_refl eq_refl)), (jstr_inj _ _ (Hm 3%nat _ _ _ eq_refl eq_refl)).
  rewrite (jstr_inj _ _ (Hm 4%nat _ _ _ eq_refl eq_refl)), (Hm 5%nat _ _ _ eq_refl eq_refl).
  rewrite (json_opt_inj JInt _ _ jint_inj ltac:(done) (Hm 6%nat _ _ _ eq_refl eq_refl)).
  rewrite (jbool_inj _ _ (Hm 7%nat _ _ _ eq_refl eq_refl)).
  rewrite (json_opt_inj JStr _ _ jstr_inj ltac:(done) (Hm 8%nat _ _ _ eq_refl eq_refl)).
  rewrite (json_opt_inj JStr _ _ jstr_inj ltac:(done) (Hm 9%nat _ _ _ eq_refl eq_refl)).
  by rewrite (jstr_inj _ _ (Hm 10%nat _ _ _ eq_refl eq_refl)).
Qed.

Lemma u_ascii s : is_ascii s = true -> forallb (fun c => c <? 128) (u s) = true.
Proof.
  unfold is_ascii, u. induction s as [|c s IH]; simpl; [done|]. intros [Hc%N.ltb_lt H]%andb_prop.
  rewrite IH, andb_true_r by done. apply Z.ltb_lt. lia.
Qed.

Lemma hmac_ascii cfg p s : forallb (fun c => c <? 128) (audit_chain_hmac cfg p s) = true.
Proof. apply u_ascii, ascii_hex. Qed.

Lemma hmac_text cfg p s : text_ok (audit_chain_hmac cfg p s) = true.
Proof. apply u_ok, ascii_hex. Qed.

(** The stored hash is not part of what is hashed. *)
Lemma compute_hash_entry cfg i k n a rs d m su er ip p h h' t s :
  compute_hash cfg (mkRow i k n a rs d m su er ip p h t) s =
  compute_hash cfg (mkRow i k n a rs d m su er ip p h' t) s.
Proof. reflexivity. Qed.

(** The previous key makes the digests it made as the current one. *)
Lemma hmac_rotated k k' prev p :
  k <> [] -> audit_chain_hmac (mkAS k' k) p (Some k) = audit_chain_hmac (mkAS k prev) p None.
Proof. intros Hk. destruct k as [|b k]; [by destruct Hk|]. reflexivity. Qed.

Lemma compute_hash_hmac cfg r s : compute_hash cfg r s = audit_chain_hmac cfg (payload r) s.
Proof. reflexivity. Qed.

(** Proofs never look into the hash. *)
Global Opaque hmac_sha256 audit_chain_hmac compute_hash payload.
