(* ===== verification/AuditChain.v ===== *)
(** * The audit hash chain (app/services/audit_service.py)

    The two tables are one state: [audit_logs] as the list of its rows in
    [(created_at, id)] order, the order of every query of the module, and
    the row of [audit_chain_state], if there is one. An append and a
    retention run hold the advisory lock until their only commit, so each is
    one step on that state. A re-anchoring is two: [_finalize_entry] commits,
    which releases the lock, and the recorded count is rewritten after that
    without it. The clock, [uuid4()] and whether the read of the newest row
    succeeds are arguments. *)
From S2P Require Import Prelude Bytes Sha256 PyInt Utf8 Json PyTime AuditLog.

Record chain_db := mkDb {
  rows : list AuditLog;
  high_water : option AuditChainState
}.

Definition row_key (r : AuditLog) : list Z := fields (created_at r) ++ [id r].

(** [INSERT] *)
Fixpoint add_row (r : AuditLog) (l : list AuditLog) : list AuditLog :=
  match l with
  | [] => [r]
  | r' :: l' => if lex_lt (row_key r) (row_key r') then r :: l else r' :: add_row r l'
  end.

(** [hmac.compare_digest] on two [str] *)
Definition compare_digest (a b : ustr) : result bool :=
  let ascii := forallb (fun c => c <? 128) in
  if ascii a && ascii b then Ok (bool_decide (a = b))
  else Err (TypeError "comparing strings with non-ASCII characters is not supported").

Section service.
Context (cfg : audit_settings).

(** ** High water *)

Definition _sign_high_water (entry_count : Z) (head_hash : option ustr) (secret : option bytes)
    : result ustr :=
  text ← utf8_encode (u (str_of_int entry_count) ++ u ":" ++ or_empty head_hash);
  Ok (audit_chain_hmac cfg text secret).

Definition _high_water_signature_valid (st : AuditChainState) : result bool :=
  expected ← _sign_high_water (entry_count st) (head_hash st) None;
  same ← compare_digest expected (state_hmac st);
  if (same : bool) then Ok true
  else match secret_key_previous cfg with
       | [] => Ok false
       | prev =>
           expected_prev ← _sign_high_water (entry_count st) (head_hash st) (Some prev);
           compare_digest expected_prev (state_hmac st)
       end.

Definition _count_audit_rows (db : chain_db) : Z := Z.of_nat (length (rows db)).

Definition _record_high_water (db : chain_db) (entry_count : Z) (head_hash : option ustr)
    : result chain_db :=
  let entry_count := Z.max 0 entry_count in
  signature ← _sign_high_water entry_count head_hash None;
  Ok (mkDb (rows db) (Some (mkState entry_count head_hash signature))).

Definition _bump_high_water_on_append (db : chain_db) (head_hash : option ustr) : result chain_db :=
  match high_water db with
  | None => _record_high_water db (_count_audit_rows db) head_hash
  | Some st =>
      valid ← _high_water_signature_valid st;
      if negb valid then Ok db
      else _record_high_water db (entry_count st + 1) head_hash
  end.

Record hw_report := mkReport {
  hw_present : bool;
  hw_ok : bool;
  hw_reason : option string;
  recorded_count : option Z;
  live_count : Z
}.

Definition check_high_water (db : chain_db) : result hw_report :=
  let live := _count_audit_rows db in
  match high_water db with
  | None => Ok (mkReport false true None None live)
  | Some st =>
      valid ← _high_water_signature_valid st;
      if negb valid
      then Ok (mkReport true false (Some "high-water signature mismatch"%string) (Some (entry_count st)) live)
      else if live <? entry_count st
      then Ok (mkReport true false (Some "row count below recorded high-water (truncation)"%string)
                 (Some (entry_count st)) live)
      else Ok (mkReport true true None (Some (entry_count st)) live)
  end.

(** ** Appending *)

(** What the callers of [_finalize_entry] fill in. *)
Record entry := mkEntry {
  e_api_key_id : option Z;
  e_api_key_name : ustr;
  e_action : ustr;
  e_resource : ustr;
  e_details : json;
  e_amount_sats : option Z;
  e_success : bool;
  e_error_message : option ustr;
  e_ip_address : option ustr
}.

Definition _get_last_hash (db : chain_db) : option ustr * option datetime :=
  match last (rows db) with
  | Some r => (entry_hash r, Some (created_at r))
  | None => (None, None)
  end.

(** The clock, moved past the last row if it is not. *)
Definition stamp (now : datetime) (prev_created_at : option datetime) : result datetime :=
  match prev_created_at with
  | Some prev => if negb (dt_lt prev now) then add_microsecond prev else Ok now
  | None => Ok now
  end.

(** The row of an entry, without its hash. *)
Definition row_of (e : entry) (uuid : Z) (prev_hash entry_hash : option ustr) (at_ : datetime) : AuditLog :=
  mkRow uuid (e_api_key_id e) (e_api_key_name e) (e_action e) (e_resource e) (e_details e)
    (e_amount_sats e) (e_success e) (e_error_message e) (e_ip_address e) prev_hash entry_hash at_.

(** [tail_read]: the query of [_get_last_hash] succeeds. Where it raises, the
    entry is written as if the table were empty. *)
Definition _finalize_entry (db : chain_db) (tail_read : bool) (e : entry) (uuid : Z) (now : datetime)
    : result (AuditLog * chain_db) :=
  let '(prev, prev_created_at) := if tail_read then _get_last_hash db else (None, None) in
  at_ ← stamp now prev_created_at;
  let hash := compute_hash cfg (row_of e uuid prev None at_) None in
  let r := row_of e uuid prev (Some hash) at_ in
  db ← _bump_high_water_on_append (mkDb (add_row r (rows db)) (high_water db)) (Some hash);
  Ok (r, db).

(** ** Verifying *)

Record summary := mkSum {
  checked : Z;
  ok : bool;
  first_bad_id : option Z;
  first_bad_reason : option string
}.

(** [settings.secret_key_previous] as the fallback of a row's hash *)
Definition hash_matches (r : AuditLog) : result bool :=
  same ← compare_digest (compute_hash cfg r None) (or_empty (entry_hash r));
  if (same : bool) then Ok true
  else match secret_key_previous cfg with
       | [] => Ok false
       | prev => compare_digest (compute_hash cfg r (Some prev)) (or_empty (entry_hash r))
       end.

(** The back-link of a row: [prev] is [None] while unset. *)
Definition link_matches (prev : option (option ustr)) (r : AuditLog) : result bool :=
  match prev with
  | None => Ok true
  | Some p => compare_digest (or_empty (prev_hash r)) (or_empty p)
  end.

(** The loop over a page. *)
Fixpoint walk (prev : option (option ustr)) (checked : Z) (entries : list AuditLog)
    : result (summary + (option (option ustr) * Z)) :=
  match entries with
  | [] => Ok (inr (prev, checked))
  | r :: entries =>
      linked ← link_matches prev r;
      if negb linked then Ok (inl (mkSum checked false (Some (id r)) (Some "prev_hash mismatch"%string)))
      else
        good ← hash_matches r;
        if negb good then Ok (inl (mkSum checked false (Some (id r)) (Some "entry_hash mismatch"%string)))
        else walk (Some (entry_hash r)) (checked + 1) entries
  end.

(** [WHERE (created_at, id) > cursor ORDER BY ... LIMIT page_size] *)
Definition page (l : list AuditLog) (cursor : option (list Z)) (page_size : Z) : list AuditLog :=
  let after := match cursor with
               | None => l
               | Some k => List.filter (fun r => lex_lt k (row_key r)) l
               end in
  take (Z.to_nat page_size) after.

Fixpoint verify_pages (fuel : nat) (l : list AuditLog) (limit : option Z) (batch_size : Z)
    (prev : option (option ustr)) (checked : Z) (cursor : option (list Z)) : result (summary + Z) :=
  match fuel with
  | O => Err OutOfFuel
  | S fuel =>
      let remaining := match limit with None => None | Some n => Some (n - checked) end in
      if match remaining with Some n => n <=? 0 | None => false end then Ok (inr checked)
      else
        let page_size := match remaining with None => batch_size | Some n => Z.min batch_size n end in
        let entries := page l cursor page_size in
        match last entries with
        | None => Ok (inr checked)
        | Some r =>
            res ← walk prev checked entries;
            match res with
            | inl bad => Ok (inl bad)
            | inr (prev, checked) =>
                if Z.of_nat (length entries) <? page_size then Ok (inr checked)
                else verify_pages fuel l limit batch_size prev checked (Some (row_key r))
            end
        end
  end.

Definition verify_chain (db : chain_db) (limit : option Z) (batch_size : Z) : result summary :=
  res ← verify_pages (S (length (rows db))) (rows db) limit batch_size None 0 None;
  match res with
  | inl bad => Ok bad
  | inr checked =>
      match limit with
      | Some _ => Ok (mkSum checked true None None)
      | None =>
          hw ← check_high_water db;
          if negb (hw_ok hw) then Ok (mkSum checked false None (hw_reason hw))
          else Ok (mkSum checked true None None)
      end
  end.

(** ** Actions *)

Definition log_action (db : chain_db) (tail_read : bool) (key_id : Z) (key_name act res : ustr) (det : json)
    (sats : option Z) (succ : bool) (err ip : option ustr) (uuid : Z) (now : datetime)
    : result (AuditLog * chain_db) :=
  _finalize_entry db tail_read (mkEntry (Some key_id) key_name act res det sats succ err ip) uuid now.

Definition log_dashboard_action (db : chain_db) (tail_read : bool) (dashboard_key_id : Z) (act res : ustr) (det : json)
    (sats : option Z) (succ : bool) (err ip : option ustr) (uuid : Z) (now : datetime)
    : result (AuditLog * chain_db) :=
  _finalize_entry db tail_read (mkEntry (Some dashboard_key_id) (u "__dashboard__") act res det sats succ err ip)
    uuid now.

(** ** External anchors *)

Record anchor := mkAnchor {
  a_count : Z;
  a_head_id : option Z;
  a_head_hash : option ustr;
  a_oldest : option datetime;
  a_newest : option datetime;
  a_deleted : Z
}.

(** [current_anchor] with the [deleted] that [emit_audit_anchor] merges in:
    what is signed and sent. *)
Definition emit_audit_anchor (db : chain_db) (deleted : Z) : anchor :=
  mkAnchor (_count_audit_rows db) (id <$> last (rows db)) (last (rows db) ≫= entry_hash)
    (created_at <$> head (rows db)) (created_at <$> last (rows db)) deleted.

(** ** Retention *)

Record prune_result := mkPrune {
  deleted : Z;
  anchor_id : option Z;
  skipped : bool
}.

(** [verify_summary.get("ok", True)], a raising verification counting as
    not [ok] *)
Definition verify_ok (db : chain_db) : bool :=
  match verify_chain db None 1000 with Ok s => ok s | Err _ => false end.

Definition truncate_entry (dashboard_key_id deleted : Z) (cutoff : datetime) : entry :=
  mkEntry (Some dashboard_key_id) (u "__retention__") (u "audit_truncate") (u "audit_log")
    (JDict [(u "deleted_count", JInt deleted); (u "truncated_before", JStr (u (isoformat cutoff)))])
    None true None None.

Definition prune_audit_log (db : chain_db) (tail_read : bool) (cutoff : datetime) (dashboard_key_id uuid : Z) (now : datetime)
    : result (prune_result * chain_db * option anchor) :=
  if negb (verify_ok db) then Ok (mkPrune 0 None true, db, None)
  else
    let kept := List.filter (fun r => negb (dt_lt (created_at r) cutoff)) (rows db) in
    let count := Z.of_nat (length (rows db)) - Z.of_nat (length kept) in
    let db := mkDb kept (high_water db) in
    if 0 <? count then
      db ← match high_water db with
           | Some st =>
               valid ← _high_water_signature_valid st;
               if negb valid then Ok db
               else _record_high_water db (entry_count st - count) (head_hash st)
           | None => Ok db
           end;
      if 0 <? _count_audit_rows db then
        '(r, db) ← _finalize_entry db tail_read (truncate_entry dashboard_key_id count cutoff) uuid now;
        Ok (mkPrune count (Some (id r)) false, db, Some (emit_audit_anchor db count))
      else Ok (mkPrune count None false, db, Some (emit_audit_anchor db count))
    else Ok (mkPrune 0 None false, db, Some (emit_audit_anchor db 0)).

(** ** Re-anchoring *)

Definition set_hashes (r : AuditLog) (prev hash : option ustr) : AuditLog :=
  mkRow (id r) (api_key_id r) (api_key_name r) (action r) (resource r) (details r) (amount_sats r)
    (success r) (error_message r) (ip_address r) prev hash (created_at r).

Fixpoint relink (prev : option ustr) (l : list AuditLog) : list AuditLog :=
  match l with
  | [] => []
  | r :: l =>
      let hash := Some (compute_hash cfg (set_hashes r prev None) None) in
      set_hashes r prev hash :: relink hash l
  end.

Definition reanchor_entry (actor_key_id : Z) (actor_name : ustr) (count : Z) (pre : summary) : entry :=
  mkEntry (Some actor_key_id) actor_name (u "audit_chain_reanchor") (u "audit_log")
    (JDict [(u "reanchored_count", JInt count); (u "was_consistent", JBool (ok pre));
            (u "pre_first_bad_id", json_opt (fun i => JStr (u (uuid_str i))) (first_bad_id pre));
            (u "pre_first_bad_reason", json_opt (fun s => JStr (u s)) (first_bad_reason pre))])
    None true None None.

(** Up to the commit in [_finalize_entry]: the number of rows, the verdict
    before, and the hash of the entry. *)
Definition reanchor_begin (db : chain_db) (tail_read : bool) (actor_key_id : Z) (actor_name : ustr) (uuid : Z)
    (now : datetime) : result (Z * summary * option ustr * chain_db) :=
  let pre := match verify_chain db None 1000 with
             | Ok s => s
             | Err _ => mkSum 0 false None (Some "verify raised"%string)
             end in
  let survivors := relink None (rows db) in
  let count := Z.of_nat (length survivors) in
  '(r, db) ← _finalize_entry (mkDb survivors (high_water db)) tail_read
               (reanchor_entry actor_key_id actor_name count pre) uuid now;
  Ok (count, pre, entry_hash r, db).

(** The second transaction. *)
Definition reanchor_finish (db : chain_db) (anchor_hash : option ustr) : result chain_db :=
  _record_high_water db (_count_audit_rows db) anchor_hash.

(** A re-anchoring that no other writer comes between. *)
Definition reanchor_chain (db : chain_db) (tail_read : bool) (actor_key_id : Z) (actor_name : ustr) (uuid : Z)
    (now : datetime) : result (Z * bool * option Z * chain_db) :=
  '(count, pre, anchor_hash, db) ← reanchor_begin db tail_read actor_key_id actor_name uuid now;
  db ← reanchor_finish db anchor_hash;
  Ok (count, ok pre, first_bad_id pre, db).
End service.


(** ** Digests *)

Lemma compare_true a b :
  compare_digest a b = Ok true <-> a = b /\ forallb (fun c => c <? 128) a = true.
Proof.
  unfold compare_digest. split.
  - intros H. case_hyp H. apply andb_prop in E as [Ha _]. injection H as H%bool_decide_eq_true. done.
  - intros [-> ->]. simpl. by rewrite bool_decide_true.
Qed.

(** A digest never makes the comparison raise unless the other side does. *)
Lemma compare_digest_hmac cfg p s b :
  compare_digest (audit_chain_hmac cfg p s) b =
  if forallb (fun c => c <? 128) b then Ok (bool_decide (audit_chain_hmac cfg p s = b))
  else Err (TypeError "comparing strings with non-ASCII characters is not supported").
Proof. unfold compare_digest. by rewrite hmac_ascii. Qed.

Lemma utf8_encode_text s : text_ok s = true <-> exists b, utf8_encode s = Ok b.
Proof.
  unfold utf8_encode, text_ok. rewrite forallb_Forall. split.
  - intros H. assert (exists bs, mapR utf8_encode_char s = Ok bs) as [bs ->]; [|by eexists].
    induction H as [|c s Hc _ [bs IH]]; simpl; [by eexists|].
    assert (exists b, utf8_encode_char c = Ok b) as [b ->].
    { unfold scalar in Hc. bool_to_prop. unfold utf8_encode_char.
      rewrite (proj2 (Z.ltb_ge c 0)), (proj2 (Z.ltb_ge 0x10FFFF c)) by lia. rewrite H0. cbn [orb].
      repeat case_match; by eexists. }
    rewrite IH. by eexists.
  - intros [b (bs & Hm%mapR_Ok & _)%fmap_Ok].
    induction Hm as [|c b' s bs' Hc _ IH]; constructor; [|done].
    unfold utf8_encode_char in Hc. case_hyp Hc. unfold scalar.
    bool_to_prop. rewrite H0. rewrite (proj2 (Z.leb_le 0 c)), (proj2 (Z.leb_le c 0x10FFFF)) by lia. done.
Qed.

Lemma text_ok_app s t : text_ok (s ++ t) = text_ok s && text_ok t.
Proof. apply forallb_app. Qed.

Lemma str_of_int_ascii n : is_ascii (str_of_int n) = true.
Proof.
  assert (Hl : forall fuel m s, is_ascii s = true -> is_ascii (dec_loop fuel m s) = true).
  { intros fuel. induction fuel as [|fuel IH]; intros m s Hs; cbn [dec_loop]; [done|].
    destruct (is_digit_char (m mod 10) ltac:(dlia)) as [H _]. unfold is_digit in H.
    apply andb_prop in H as [_ H%N.leb_le].
    assert (is_ascii (String (digit_char (m mod 10)) s) = true).
    { rewrite ascii_cons, Hs, andb_true_r. apply N.ltb_lt. lia. }
    case_match; auto. }
  unfold str_of_int. case_match; [rewrite ascii_cons|]; rewrite Hl; done.
Qed.

(** A signature can be made for every count over the same head hash. *)
Lemma sign_ok cfg n h s : text_ok (or_empty h) = true -> exists g, _sign_high_water cfg n h s = Ok g.
Proof.
  intros Hh. unfold _sign_high_water.
  destruct (proj1 (utf8_encode_text (u (str_of_int n) ++ u ":" ++ or_empty h))) as [b ->]; [|by eexists].
  rewrite !text_ok_app, Hh. by rewrite (u_ok _ (str_of_int_ascii n)).
Qed.

Lemma sign_text cfg n h s g : _sign_high_water cfg n h s = Ok g ->
  text_ok (or_empty h) = true /\ forallb (fun c => c <? 128) g = true.
Proof.
  unfold _sign_high_water. intros (b & Hb & [= <-])%bind_Ok. split; [|apply hmac_ascii].
  assert (H : text_ok (u (str_of_int n) ++ u ":" ++ or_empty h) = true) by (apply utf8_encode_text; eauto).
  rewrite !text_ok_app in H. by apply andb_prop in H as [_ [_ H]%andb_prop].
Qed.

(** A row signed under the current key is valid. *)
Lemma fresh_signature_valid cfg n h g :
  _sign_high_water cfg n h None = Ok g -> _high_water_signature_valid cfg (mkState n h g) = Ok true.
Proof.
  intros H. unfold _high_water_signature_valid. cbn [entry_count head_hash state_hmac]. rewrite H. simpl.
  rewrite (proj2 (compare_true g g)); [done|]. split; [done|]. by eapply sign_text.
Qed.

(** A valid signature was made over text. *)
Lemma valid_head_text cfg st b : _high_water_signature_valid cfg st = Ok b -> text_ok (or_empty (head_hash st)) = true.
Proof. unfold _high_water_signature_valid. intros (g & Hg & _)%bind_Ok. by eapply sign_text. Qed.

(** [_record_high_water] on text succeeds and leaves a valid row. *)
Lemma record_ok cfg db n h :
  text_ok (or_empty h) = true ->
  exists st, _record_high_water cfg db n h = Ok (mkDb (rows db) (Some st)) /\
    _high_water_signature_valid cfg st = Ok true /\ entry_count st = Z.max 0 n /\ head_hash st = h.
Proof.
  intros Hh. unfold _record_high_water. destruct (sign_ok cfg (Z.max 0 n) h None Hh) as [g Hg].
  rewrite Hg. simpl. eexists. split; [done|]. split; [by apply fresh_signature_valid|]. done.
Qed.

(** ** Chains *)

(** What the walk accepts, from the back-link [prev]. *)
Fixpoint chain_from (cfg : audit_settings) (prev : option (option ustr)) (l : list AuditLog) : Prop :=
  match l with
  | [] => True
  | r :: l =>
      link_matches prev r = Ok true /\ hash_matches cfg r = Ok true /\ chain_from cfg (Some (entry_hash r)) l
  end.

(** The back-link after [l]. *)
Definition link_after (prev : option (option ustr)) (l : list AuditLog) : option (option ustr) :=
  match last l with Some r => Some (entry_hash r) | None => prev end.

Lemma link_after_cons prev r l : link_after prev (r :: l) = link_after (Some (entry_hash r)) l.
Proof. unfold link_after. rewrite last_cons. by destruct (last l). Qed.

Lemma walk_cons cfg prev c r l :
  walk cfg prev c (r :: l) =
  (linked ← link_matches prev r;
   if negb linked then Ok (inl (mkSum c false (Some (id r)) (Some "prev_hash mismatch"%string)))
   else good ← hash_matches cfg r;
     if negb good then Ok (inl (mkSum c false (Some (id r)) (Some "entry_hash mismatch"%string)))
     else walk cfg (Some (entry_hash r)) (c + 1) l).
Proof. reflexivity. Qed.

Lemma walk_iff cfg l : forall prev c p' c',
  walk cfg prev c l = Ok (inr (p', c')) <->
  chain_from cfg prev l /\ p' = link_after prev l /\ c' = c + Z.of_nat (length l).
Proof.
  induction l as [|r l IH]; intros prev c p' c'.
  - unfold link_after. simpl. split; [intros [= <- <-]; repeat split; lia|].
    intros (_ & -> & ->). do 3 f_equal. lia.
  - rewrite walk_cons, link_after_cons. cbn [chain_from]. split.
    + intros (b & Hb & H)%bind_Ok. destruct b; [|discriminate H]. cbn [negb] in H.
      apply bind_Ok in H as (g & Hg & H). destruct g; [|discriminate H]. cbn [negb] in H.
      apply IH in H as (Hc & -> & ->).
      split; [exact (conj Hb (conj Hg Hc))|split; [done|simpl; lia]].
    + intros ((Hp & Hh & Hc) & -> & ->). rewrite Hp, bind_of_Ok. cbn [negb].
      rewrite Hh, bind_of_Ok. cbn [negb].
      apply IH. split; [exact Hc|]. split; [reflexivity|]. simpl. lia.
Qed.

Lemma walk_app cfg l k : forall prev c,
  walk cfg prev c (l ++ k) =
  (res ← walk cfg prev c l; match res with inl bad => Ok (inl bad) | inr (p, c) => walk cfg p c k end).
Proof.
  induction l as [|r l IH]; intros prev c; [reflexivity|].
  change ((r :: l) ++ k) with (r :: (l ++ k)). rewrite !walk_cons.
  destruct (link_matches prev r) as [[]|e]; rewrite ?bind_of_Ok, ?bind_of_Err; cbn [negb]; [|done..].
  destruct (hash_matches cfg r) as [[]|e]; rewrite ?bind_of_Ok, ?bind_of_Err; cbn [negb]; [|done..]. apply IH.
Qed.

Lemma chain_from_app cfg l k : forall prev,
  chain_from cfg prev (l ++ k) <-> chain_from cfg prev l /\ chain_from cfg (link_after prev l) k.
Proof.
  induction l as [|r l IH]; intros prev; cbn [chain_from app].
  - unfold link_after. simpl. tauto.
  - rewrite IH, link_after_cons. tauto.
Qed.

(** Dropping rows from the front keeps the rest a chain, with its head's own
    back-link taken as the root. *)
Lemma chain_from_none cfg prev l : chain_from cfg prev l -> chain_from cfg None l.
Proof. destruct l; cbn [chain_from]; [trivial|]. intros (_ & Hh & Hc). exact (conj eq_refl (conj Hh Hc)). Qed.

(** ** The table *)

Arguments lex_lt : simpl never.
Arguments row_key : simpl never.

Definition key_lt (r s : AuditLog) : Prop := lex_lt (row_key r) (row_key s) = true.

(** The table is listed in key order. *)
Definition listed (l : list AuditLog) : Prop := StronglySorted key_lt l.

Lemma listed_app l k :
  listed (l ++ k) <-> listed l /\ listed k /\ forall r s, r ∈ l -> s ∈ k -> key_lt r s.
Proof.
  unfold listed. induction l as [|a l IH]; simpl.
  - split; [intros H; split; [constructor|]; split; [done|]; intros r s Hr; by apply elem_of_nil in Hr|tauto].
  - split.
    + inversion 1 as [|? ? Hs Ha]; subst. apply IH in Hs as (Hl & Hk & Hlk).
      apply Forall_app in Ha as [Ha1 Ha2]. split; [by constructor|]. split; [done|].
      intros r s [->|Hr]%elem_of_cons Hs'; [|auto]. rewrite Forall_forall in Ha2. auto.
    + intros (Hl & Hk & Hlk). inversion Hl as [|? ? Hl' Ha]; subst. constructor.
      * apply IH. split; [done|]. split; [done|]. intros r s Hr. apply Hlk. by right.
      * apply Forall_app. split; [done|]. apply Forall_forall. intros s Hs. apply Hlk; [left|done].
Qed.

Lemma listed_filter (f : AuditLog -> bool) l : listed l -> listed (List.filter f l).
Proof.
  induction 1 as [|a l Hs IH Ha]; simpl; [constructor|]. case_match; [|done]. constructor; [done|].
  by apply Forall_filter_intro.
Qed.

(** Rows after the last row of a prefix are the rest. *)
Lemma page_rest l k r size :
  listed ((l ++ [r]) ++ k) -> page ((l ++ [r]) ++ k) (Some (row_key r)) size = take (Z.to_nat size) k.
Proof.
  intros (Hl & Hk & Hlk)%listed_app. unfold page. f_equal. rewrite List.filter_app.
  assert (Hn : List.filter (fun s => lex_lt (row_key r) (row_key s)) (l ++ [r]) = []).
  { rewrite List.filter_app. simpl. rewrite lex_irrefl, app_nil_r.
    apply listed_app in Hl as (_ & _ & Hlr). clear Hlk. induction l as [|s l IH]; simpl; [done|].
    rewrite lex_asym; [apply IH|].
    - intros a b Ha. apply Hlr. by right.
    - apply Hlr; [left|by apply list_elem_of_singleton]. }
  rewrite Hn. simpl.
  assert (Hall : forall s, s ∈ k -> lex_lt (row_key r) (row_key s) = true).
  { intros s Hs. apply Hlk; [|done]. rewrite elem_of_app, list_elem_of_singleton. by right. }
  clear Hk Hlk. induction k as [|s k IH]; simpl; [done|].
  rewrite Hall by left. f_equal. apply IH. intros s' Hs'. apply Hall. by right.
Qed.

(** [limit] rows from the [checked]-th on. *)
Definition limited (limit : option Z) (checked : Z) (l : list AuditLog) : list AuditLog :=
  match limit with None => l | Some n => take (Z.to_nat (n - checked)) l end.

(** What the pages amount to: one pass. *)
Definition walk_result (res : result (summary + (option (option ustr) * Z))) : result (summary + Z) :=
  match res with
  | Err e => Err e
  | Ok (inl bad) => Ok (inl bad)
  | Ok (inr (_, checked)) => Ok (inr checked)
  end.

(** The state of the loop between two pages. *)
Definition cursor_at (l : list AuditLog) (cursor : option (list Z)) (todo : list AuditLog) : Prop :=
  (cursor = None /\ l = todo) \/
  (exists seen r, cursor = Some (row_key r) /\ l = (seen ++ [r]) ++ todo).

Lemma page_at l cursor todo size :
  listed l -> cursor_at l cursor todo -> page l cursor size = take (Z.to_nat size) todo.
Proof.
  intros Hl [(-> & ->)|(seen & r & -> & ->)]; [done|]. by apply page_rest.
Qed.

Lemma cursor_step l cursor page_ r rest :
  cursor_at l cursor ((page_ ++ [r]) ++ rest) -> cursor_at l (Some (row_key r)) rest.
Proof.
  intros [(_ & ->)|(seen & s & _ & ->)]; right.
  - by exists page_, r.
  - exists ((seen ++ [s]) ++ page_), r. split; [done|]. by rewrite <- !app_assoc.
Qed.

Lemma limited_split limit c size todo :
  (0 <= size) -> match limit with Some n => size <= n - c | None => True end ->
  limited limit c todo =
  take (Z.to_nat size) todo ++
  limited limit (c + Z.of_nat (length (take (Z.to_nat size) todo))) (drop (Z.to_nat size) todo).
Proof.
  intros Hs Hl. destruct limit as [n|]; simpl; [|by rewrite take_drop].
  rewrite length_take. set (k := Z.to_nat size).
  destruct (decide (k <= length todo)%nat) as [Hk|Hk].
  - replace (Z.to_nat (n - c)) with (k + (Z.to_nat (n - c) - k))%nat by lia.
    rewrite <- take_take_drop. do 2 f_equal. lia.
  - rewrite (take_ge todo k), (drop_ge todo k) by lia. rewrite take_nil, app_nil_r.
    apply take_ge. lia.
Qed.

Lemma verify_pages_walk cfg l limit batch : listed l -> 1 <= batch -> forall fuel prev c cursor todo,
  cursor_at l cursor todo -> (length todo < fuel)%nat ->
  verify_pages cfg fuel l limit batch prev c cursor = walk_result (walk cfg prev c (limited limit c todo)).
Proof.
  intros Hl Hb fuel. induction fuel as [|fuel IH]; intros prev c cursor todo Hc Hf; [lia|].
  cbn [verify_pages]. set (remaining := match limit with Some n => Some (n - c) | None => None end).
  destruct (match remaining with Some n => n <=? 0 | None => false end) eqn:Hr.
  { destruct limit as [n|]; [|done]. simpl in Hr. apply Z.leb_le in Hr. simpl.
    by replace (Z.to_nat (n - c)) with 0%nat by lia. }
  set (size := match remaining with Some n => Z.min batch n | None => batch end).
  assert (Hs : 1 <= size /\ match limit with Some n => size <= n - c | None => True end).
  { unfold size, remaining in *. destruct limit; [apply Z.leb_gt in Hr|]; lia. }
  rewrite (page_at _ _ todo) by done. rewrite (limited_split limit c size todo) by lia || tauto.
  destruct (last_snoc_inv (take (Z.to_nat size) todo)) as [He|(pg & r & He)].
  { destruct todo as [|r todo]; [|by destruct (Z.to_nat size) eqn:E; [lia|]].
    rewrite take_nil, drop_nil. simpl. unfold limited. destruct limit; by rewrite ?take_nil. }
  rewrite He, last_snoc, (walk_app cfg (pg ++ [r])).
  destruct (walk cfg prev c (pg ++ [r])) as [[bad|[p' c']]|e] eqn:Hw;
    rewrite ?bind_of_Ok, ?bind_of_Err; [done| |done].
  apply walk_iff in Hw as (_ & _ & ->). rewrite <- He in *.
  destruct (Z.ltb_spec (Z.of_nat (length (take (Z.to_nat size) todo))) size) as [Hlt|Hge].
  - rewrite length_take in Hlt. rewrite (drop_ge todo) by lia. unfold limited.
    destruct limit; by rewrite ?take_nil.
  - apply IH.
    + rewrite <- (take_drop (Z.to_nat size) todo), He in Hc. by apply cursor_step in Hc.
    + rewrite length_take in Hge. rewrite length_drop. lia.
Qed.

(** ** What verification accepts *)

Definition hw_valid (cfg : audit_settings) (db : chain_db) : Prop :=
  match high_water db with
  | None => True
  | Some st => _high_water_signature_valid cfg st = Ok true /\ entry_count st <= _count_audit_rows db
  end.

Definition chain_valid (cfg : audit_settings) (db : chain_db) : Prop :=
  chain_from cfg None (rows db) /\ hw_valid cfg db.

(** One pass instead of pages. *)
Definition verify_reference (cfg : audit_settings) (db : chain_db) (limit : option Z) : result summary :=
  res ← walk_result (walk cfg None 0 (limited limit 0 (rows db)));
  match res with
  | inl bad => Ok bad
  | inr checked =>
      match limit with
      | Some _ => Ok (mkSum checked true None None)
      | None =>
          hw ← check_high_water cfg db;
          if negb (hw_ok hw) then Ok (mkSum checked false None (hw_reason hw))
          else Ok (mkSum checked true None None)
      end
  end.

Lemma verify_one_pass cfg db limit batch :
  listed (rows db) -> 1 <= batch -> verify_chain cfg db limit batch = verify_reference cfg db limit.
Proof.
  intros Hl Hb. unfold verify_chain, verify_reference.
  rewrite (verify_pages_walk cfg (rows db) limit batch Hl Hb _ None 0 None (rows db));
    [reflexivity|by left|lia].
Qed.

Lemma check_hw_iff cfg db :
  hw_valid cfg db <-> exists hw, check_high_water cfg db = Ok hw /\ hw_ok hw = true.
Proof.
  unfold hw_valid, check_high_water. destruct (high_water db) as [st|].
  - split.
    + intros [Hv Hc]. rewrite Hv, bind_of_Ok. cbn [negb]. rewrite (proj2 (Z.ltb_ge _ _)) by lia. by eexists.
    + intros (hw & (v & Hv & H)%bind_Ok & Hok). destruct v; cbn [negb] in H.
      * split; [exact Hv|]. destruct (Z.ltb_spec (_count_audit_rows db) (entry_count st)); [|lia].
        by injection H as <-.
      * by injection H as <-.
  - split; [intros _; by eexists|trivial].
Qed.

Lemma walk_bad cfg l : forall prev c s, walk cfg prev c l = Ok (inl s) -> ok s = false.
Proof.
  induction l as [|r l IH]; intros prev c s H; [done|]. rewrite walk_cons in H.
  apply bind_Ok in H as ([] & _ & H); cbn [negb] in H; [|by injection H as <-].
  apply bind_Ok in H as ([] & _ & H); cbn [negb] in H; [|by injection H as <-]. by eapply IH.
Qed.

Lemma verify_valid cfg db :
  chain_valid cfg db -> verify_reference cfg db None = Ok (mkSum (_count_audit_rows db) true None None).
Proof.
  intros [Hc Hh]. unfold verify_reference, limited.
  rewrite (proj2 (walk_iff cfg (rows db) None 0 _ _) (conj Hc (conj eq_refl eq_refl))).
  cbn [walk_result]. rewrite bind_of_Ok. apply check_hw_iff in Hh as (hw & Hhw & Hok).
  rewrite Hhw, bind_of_Ok, Hok. reflexivity.
Qed.

Lemma verify_accepts cfg db s :
  verify_reference cfg db None = Ok s -> ok s = true -> chain_valid cfg db.
Proof.
  unfold verify_reference, limited. intros H Hs.
  destruct (walk cfg None 0 (rows db)) as [[bad|[p c]]|e] eqn:Hw; cbn [walk_result] in H; [| |discriminate H].
  - rewrite bind_of_Ok in H. injection H as <-. apply walk_bad in Hw. congruence.
  - rewrite bind_of_Ok in H. apply walk_iff in Hw as (Hc & _ & ->). split; [exact Hc|].
    apply bind_Ok in H as (hw & Hhw & H). apply check_hw_iff. exists hw. split; [exact Hhw|].
    destruct (hw_ok hw); [reflexivity|]. cbn [negb] in H. injection H as <-. discriminate Hs.
Qed.

Lemma verify_ok_valid cfg db : listed (rows db) -> verify_ok cfg db = true <-> chain_valid cfg db.
Proof.
  intros Hl. unfold verify_ok. rewrite verify_one_pass by done || lia. split.
  - destruct (verify_reference cfg db None) as [s|e] eqn:E; [|discriminate].
    intros H. by eapply verify_accepts.
  - intros H. by rewrite verify_valid.
Qed.

(** ** Appending *)

Lemma add_row_last r l : (forall s, s ∈ l -> key_lt s r) -> add_row r l = l ++ [r].
Proof.
  induction l as [|s l IH]; intros H; simpl; [done|]. rewrite (lex_asym (row_key s)); [|apply H; left].
  f_equal. apply IH. intros x Hx. apply H. by right.
Qed.

Lemma stamp_after now prev t : stamp now (Some prev) = Ok t -> dt_lt prev t = true.
Proof.
  unfold stamp. destruct (dt_lt prev now) eqn:E; cbn [negb].
  - by intros [= <-].
  - apply add_microsecond_lt.
Qed.

Lemma key_lt_time r s : dt_lt (created_at r) (created_at s) = true -> key_lt r s.
Proof. intros H. unfold key_lt, row_key. by apply lex_app. Qed.

Lemma key_lt_trans r s t : key_lt r s -> key_lt s t -> key_lt r t.
Proof. apply lex_trans. Qed.

Lemma hash_matches_ascii cfg r :
  hash_matches cfg r = Ok true -> forallb (fun c => c <? 128) (or_empty (entry_hash r)) = true.
Proof.
  intros (b & Hb & H)%bind_Ok. rewrite compute_hash_hmac, compare_digest_hmac in Hb.
  by destruct (forallb _ (or_empty (entry_hash r))).
Qed.

Lemma fresh_hash_matches cfg r :
  entry_hash r = Some (compute_hash cfg r None) -> hash_matches cfg r = Ok true.
Proof.
  intros H. unfold hash_matches. rewrite H. cbn [or_empty default].
  rewrite (proj2 (compare_true _ _)); [by rewrite bind_of_Ok|].
  split; [reflexivity|]. rewrite compute_hash_hmac. apply hmac_ascii.
Qed.

(** The row an append adds, and where. *)
Lemma finalize_row cfg db e uuid now r db' :
  listed (rows db) -> _finalize_entry cfg db true e uuid now = Ok (r, db') ->
  rows db' = rows db ++ [r] /\ listed (rows db') /\
  prev_hash r = fst (_get_last_hash db) /\ entry_hash r = Some (compute_hash cfg r None) /\
  exists t, r = row_of e uuid (prev_hash r) (entry_hash r) t /\
    _bump_high_water_on_append cfg (mkDb (rows db ++ [r]) (high_water db)) (entry_hash r) = Ok db'.
Proof.
  intros Hl. unfold _finalize_entry. destruct (_get_last_hash db) as [prev prev_at] eqn:Hg.
  intros (t & Ht & H)%bind_Ok. cbn zeta in H.
  set (hash := compute_hash cfg (row_of e uuid prev None t) None) in H.
  set (r0 := row_of e uuid prev (Some hash) t) in H.
  assert (Hafter : forall s, s ∈ rows db -> key_lt s r0).
  { unfold _get_last_hash in Hg. destruct (last_snoc_inv (rows db)) as [E|(l & x & E)]; rewrite E in *.
    - intros s Hs. by apply elem_of_nil in Hs.
    - rewrite last_snoc in Hg. injection Hg as <- <-. apply stamp_after in Ht.
      assert (Hx : key_lt x r0) by (by apply key_lt_time).
      intros s [Hs|Hs%list_elem_of_singleton]%elem_of_app; [|by subst].
      apply key_lt_trans with x; [|done]. apply listed_app in Hl as (_ & _ & Hlx).
      apply Hlx; [done|by apply list_elem_of_singleton]. }
  rewrite add_row_last in H by done. apply bind_Ok in H as (db1 & Hb & [= <- <-]).
  assert (Hrows : rows db1 = rows db ++ [r0]).
  { unfold _bump_high_water_on_append, _record_high_water in Hb. cbn [high_water rows] in Hb.
    destruct (high_water db) as [st|].
    - apply bind_Ok in Hb as (v & _ & Hb). destruct v; cbn [negb] in Hb.
      + apply bind_Ok in Hb as (g & _ & [= <-]). done.
      + by injection Hb as <-.
    - apply bind_Ok in Hb as (g & _ & [= <-]). done. }
  split; [done|]. split.
  { rewrite Hrows. apply listed_app. split; [done|]. split; [repeat constructor|].
    intros a b Ha ->%list_elem_of_singleton. auto. }
  split; [done|]. split.
  { exact (f_equal Some (compute_hash_entry _ _ _ _ _ _ _ _ _ _ _ _ _ _ _ _)). }
  exists t. split; [done|]. exact Hb.
Qed.

(** An append extends a chain by a row that matches. *)
Lemma finalize_chain cfg db e uuid now r db' :
  listed (rows db) -> chain_from cfg None (rows db) -> _finalize_entry cfg db true e uuid now = Ok (r, db') ->
  chain_from cfg None (rows db').
Proof.
  intros Hl Hc H. destruct (finalize_row _ _ _ _ _ _ _ Hl H) as (-> & _ & Hp & Hh & _).
  apply chain_from_app. split; [exact Hc|]. cbn [chain_from].
  split; [|split; [by apply fresh_hash_matches|trivial]].
  unfold link_after, _get_last_hash in *.
  destruct (last_snoc_inv (rows db)) as [E|(l & x & E)]; rewrite E in *; [done|].
  rewrite last_snoc in *. cbn [fst] in Hp. unfold link_matches. rewrite Hp. apply compare_true.
  split; [done|]. apply chain_from_app in Hc as [_ [_ [Hx _]]]. by apply hash_matches_ascii with cfg.
Qed.

(** ** Invariant *)

(** The recorded count is the number of rows. *)
Definition exact_count (cfg : audit_settings) (db : chain_db) : Prop :=
  match high_water db with
  | None => rows db = []
  | Some st => _high_water_signature_valid cfg st = Ok true /\ entry_count st = _count_audit_rows db
  end.

Definition chain_inv (cfg : audit_settings) (db : chain_db) : Prop :=
  listed (rows db) /\ chain_from cfg None (rows db) /\ exact_count cfg db.

Lemma inv_valid cfg db : chain_inv cfg db -> chain_valid cfg db.
Proof.
  intros (_ & Hc & He). split; [exact Hc|]. unfold hw_valid, exact_count in *.
  destruct (high_water db); [|trivial]. destruct He as [Hv ->]. split; [exact Hv|lia].
Qed.

Lemma hash_text cfg r : text_ok (or_empty (Some (compute_hash cfg r None))) = true.
Proof. rewrite compute_hash_hmac. apply hmac_text. Qed.

(** The high-water row after an append, from an exact one. *)
Lemma bump_exact cfg l r hw h :
  exact_count cfg (mkDb l hw) -> text_ok (or_empty h) = true ->
  exists st, _bump_high_water_on_append cfg (mkDb (l ++ [r]) hw) h = Ok (mkDb (l ++ [r]) (Some st)) /\
    _high_water_signature_valid cfg st = Ok true /\ entry_count st = Z.of_nat (length (l ++ [r])).
Proof.
  intros He Hh. unfold exact_count in He. cbn [high_water rows _count_audit_rows] in He.
  unfold _bump_high_water_on_append. cbn [high_water].
  set (db := mkDb (l ++ [r]) hw). destruct hw as [st|].
  - destruct He as [Hv Hn]. rewrite Hv, bind_of_Ok. cbn [negb].
    destruct (record_ok cfg db (entry_count st + 1) h Hh) as (st' & -> & Hv' & Hn' & _).
    exists st'. split; [reflexivity|]. split; [exact Hv'|]. rewrite Hn', Hn, length_app.
    unfold _count_audit_rows. cbn [rows length]. lia.
  - destruct (record_ok cfg db (_count_audit_rows db) h Hh) as (st' & -> & Hv' & Hn' & _).
    exists st'. split; [reflexivity|]. split; [exact Hv'|]. rewrite Hn'. unfold _count_audit_rows, db. cbn [rows]. lia.
Qed.

Lemma finalize_inv cfg db e uuid now r db' :
  chain_inv cfg db -> _finalize_entry cfg db true e uuid now = Ok (r, db') -> chain_inv cfg db'.
Proof.
  intros (Hl & Hc & He) H. pose proof (finalize_row _ _ _ _ _ _ _ Hl H) as (Hr & Hl' & _ & Hh & t & _ & Hb).
  split; [exact Hl'|]. split; [exact (finalize_chain _ _ _ _ _ _ _ Hl Hc H)|].
  destruct (bump_exact cfg (rows db) r (high_water db) (entry_hash r)) as (st & Hb' & Hv & Hn).
  { by destruct db. }
  { rewrite Hh. apply hash_text. }
  rewrite Hb' in Hb. injection Hb as <-. exact (conj Hv Hn).
Qed.

(** The signature check of the high-water row does not raise. *)
Definition hw_readable (cfg : audit_settings) (db : chain_db) : Prop :=
  match high_water db with
  | None => True
  | Some st => exists b, _high_water_signature_valid cfg st = Ok b
  end.

Lemma inv_readable cfg db : chain_inv cfg db -> hw_readable cfg db.
Proof.
  intros (_ & _ & He). unfold exact_count, hw_readable in *. destruct (high_water db); [|trivial].
  destruct He as [Hv _]. by exists true.
Qed.

(** An append succeeds unless the clock has run out. *)
Lemma finalize_total cfg db e uuid now :
  hw_readable cfg db -> is_ok (stamp now (snd (_get_last_hash db))) = true ->
  exists r db', _finalize_entry cfg db true e uuid now = Ok (r, db').
Proof.
  intros He Ht. unfold _finalize_entry.
  destruct (_get_last_hash db) as [prev prev_at] eqn:Hg. cbn [snd] in Ht.
  destruct (stamp now prev_at) as [t|] eqn:Hs; [|discriminate Ht]. rewrite bind_of_Ok. cbn zeta.
  set (r0 := row_of e uuid prev _ t). unfold _bump_high_water_on_append. cbn [high_water].
  assert (Hrec : forall d n h, exists d', _record_high_water cfg d n (Some (compute_hash cfg h None)) = Ok d').
  { intros d n h. destruct (record_ok cfg d n _ (hash_text cfg h)) as (st & -> & _). by eexists. }
  unfold hw_readable in He. destruct (high_water db) as [st|].
  - destruct He as [[] Hv]; rewrite Hv, bind_of_Ok; cbn [negb]; [|rewrite bind_of_Ok; by eexists _, _].
    destruct (Hrec (mkDb (add_row r0 (rows db)) (Some st)) (entry_count st + 1) (row_of e uuid prev None t)) as [d' ->].
    rewrite bind_of_Ok. by eexists _, _.
  - match goal with |- context [_record_high_water cfg ?d ?n _] =>
      destruct (Hrec d n (row_of e uuid prev None t)) as [d' ->] end.
    rewrite bind_of_Ok. by eexists _, _.
Qed.

(** ** Retention *)

Definition expired (cutoff : datetime) (r : AuditLog) : bool := dt_lt (created_at r) cutoff.

Lemma expired_before cutoff r s : key_lt r s -> expired cutoff s = true -> expired cutoff r = true.
Proof.
  unfold key_lt, row_key, expired. intros Hk Hs.
  destruct (lex_app_inv (fields (created_at r)) (fields (created_at s)) _ _ eq_refl Hk) as [H|H%fields_inj].
  - by apply dt_lt_trans with (created_at s).
  - by rewrite H.
Qed.

(** Retention cuts off a prefix. *)
Lemma retention_split cutoff l :
  listed l -> exists old, l = old ++ List.filter (fun r => negb (expired cutoff r)) l /\
    Forall (fun r => expired cutoff r = true) old.
Proof.
  induction 1 as [|r l Hs [old [IH Ho]] Hr]; [by exists []|]. cbn [List.filter].
  destruct (expired cutoff r) eqn:E; cbn [negb].
  - exists (r :: old). split; [simpl; by f_equal|by constructor].
  - exists []. split; [|constructor]. cbn [app]. f_equal. rewrite Forall_forall in Hr.
    destruct old as [|o old]; [exact IH|]. exfalso. apply Forall_cons in Ho as [Ho _].
    assert (Hin : o ∈ l) by (rewrite IH; left).
    rewrite (expired_before cutoff r o) in E; [done|by apply Hr|done].
Qed.

Lemma last_of_app {A} (l k : list A) : k <> [] -> last (l ++ k) = last k.
Proof.
  intros Hk. destruct (last_snoc_inv k) as [->|(k' & x & ->)]; [done|].
  by rewrite app_assoc, !last_snoc.
Qed.

(** The high-water row after the rows [old] are gone. *)
Lemma lower_exact cfg old kept st :
  exact_count cfg (mkDb (old ++ kept) (Some st)) ->
  exists st', _record_high_water cfg (mkDb kept (Some st)) (entry_count st - Z.of_nat (length old)) (head_hash st)
      = Ok (mkDb kept (Some st')) /\ exact_count cfg (mkDb kept (Some st')).
Proof.
  intros [Hv Hn]. unfold _count_audit_rows in Hn. cbn [rows] in Hn. rewrite length_app in Hn.
  destruct (record_ok cfg (mkDb kept (Some st)) (entry_count st - Z.of_nat (length old)) (head_hash st))
    as (st' & Hr & Hv' & Hn' & _); [by eapply valid_head_text|].
  exists st'. split; [exact Hr|]. split; [exact Hv'|]. rewrite Hn'. unfold _count_audit_rows. cbn [rows]. lia.
Qed.

(** A row of [prune_audit_log]: the appended anchor, or nothing. *)
Definition anchor_row (key count : Z) (cutoff : datetime) (r : AuditLog) : Prop :=
  action r = u "audit_truncate" /\ api_key_name r = u "__retention__" /\
  details r = details (row_of (truncate_entry key count cutoff) (id r) None None cutoff).

(** The rows retention keeps. *)
Definition retained (cutoff : datetime) (l : list AuditLog) : list AuditLog :=
  List.filter (fun r => negb (expired cutoff r)) l.

Lemma retained_facts cfg cutoff l :
  listed l -> chain_from cfg None l ->
  exists old, l = old ++ retained cutoff l /\ Forall (fun r => expired cutoff r = true) old /\
    Forall (fun r => expired cutoff r = false) (retained cutoff l) /\
    Z.of_nat (length l) - Z.of_nat (length (retained cutoff l)) = Z.of_nat (length old) /\
    listed (retained cutoff l) /\ chain_from cfg None (retained cutoff l).
Proof.
  intros Hl Hc. destruct (retention_split cutoff l Hl) as (old & Hs & Ho). fold (retained cutoff l) in Hs.
  exists old. split; [exact Hs|]. split; [exact Ho|]. split.
  { apply List.Forall_forall. intros r [_ H]%List.filter_In. by apply negb_true_iff. }
  split. { rewrite Hs at 1. rewrite length_app. lia. }
  split; [by apply listed_filter|].
  rewrite Hs in Hc. apply chain_from_app in Hc as [_ Hc]. exact (chain_from_none _ _ _ Hc).
Qed.

(** A run that deletes the rows [old]: the anchor is appended to a state
    that satisfies the invariant. *)
Lemma prune_unfold cfg db cutoff key uuid now old :
  chain_inv cfg db -> rows db = old ++ retained cutoff (rows db) -> old <> [] ->
  exists st', let db1 := mkDb (retained cutoff (rows db)) (Some st') in
    let n := Z.of_nat (length old) in
    chain_inv cfg db1 /\
    prune_audit_log cfg db true cutoff key uuid now =
    if 0 <? _count_audit_rows db1 then
      '(r, db2) ← _finalize_entry cfg db1 true (truncate_entry key n cutoff) uuid now;
      Ok (mkPrune n (Some (id r)) false, db2, Some (emit_audit_anchor db2 n))
    else Ok (mkPrune n None false, db1, Some (emit_audit_anchor db1 n)).
Proof.
  intros Hinv Hs Hne. pose proof Hinv as (Hl & Hc & He).
  destruct (retained_facts cfg cutoff (rows db) Hl Hc) as (_ & _ & _ & _ & _ & Hlk & Hck).
  set (kept := retained cutoff (rows db)) in *.
  assert (Hlen : Z.of_nat (length (rows db)) - Z.of_nat (length kept) = Z.of_nat (length old))
    by (rewrite Hs, length_app; lia).
  assert (Hpos : 0 < Z.of_nat (length old)) by (destruct old; [done|simpl; lia]).
  unfold prune_audit_log. rewrite (proj2 (verify_ok_valid cfg db Hl) (inv_valid _ _ Hinv)). cbn [negb].
  change (List.filter _ (rows db)) with kept. rewrite Hlen. cbn zeta.
  rewrite (proj2 (Z.ltb_lt 0 _) Hpos). cbn [high_water].
  unfold exact_count in He. destruct (high_water db) as [st|] eqn:Hst.
  2: { rewrite He in Hs. symmetry in Hs. by apply app_eq_nil in Hs as [-> _]. }
  rewrite (proj1 He), bind_of_Ok. cbn [negb].
  destruct (lower_exact cfg old kept st) as (st' & Hrec & Hex).
  { split; [exact (proj1 He)|]. rewrite (proj2 He). unfold _count_audit_rows. cbn [rows]. by rewrite <- Hs. }
  rewrite Hrec, bind_of_Ok. exists st'. split; [exact (conj Hlk (conj Hck Hex))|]. reflexivity.
Qed.

(** A successful run that deletes the rows [old]. *)
Lemma prune_some cfg db cutoff key uuid now old :
  chain_inv cfg db -> is_ok (stamp now (snd (_get_last_hash db))) = true ->
  rows db = old ++ retained cutoff (rows db) -> old <> [] ->
  exists tail res db',
    prune_audit_log cfg db true cutoff key uuid now = Ok (res, db', Some (emit_audit_anchor db' (Z.of_nat (length old)))) /\
    chain_inv cfg db' /\ rows db' = retained cutoff (rows db) ++ tail /\
    Forall (anchor_row key (Z.of_nat (length old)) cutoff) tail /\
    length tail = (if decide (retained cutoff (rows db) = []) then 0 else 1)%nat /\
    deleted res = Z.of_nat (length old) /\ skipped res = false.
Proof.
  intros Hinv Ht Hs Hne. destruct (prune_unfold cfg db cutoff key uuid now old Hinv Hs Hne) as (st' & Hk & ->).
  set (kept := retained cutoff (rows db)) in *.
  unfold _count_audit_rows at 1. cbn [rows]. destruct (decide (kept = [])) as [E|E].
  - rewrite E. exists [], (mkPrune (Z.of_nat (length old)) None false), (mkDb [] (Some st')).
    rewrite E in Hk. split; [reflexivity|]. split; [exact Hk|]. split; [reflexivity|]. split; [constructor|]. done.
  - rewrite (proj2 (Z.ltb_lt _ _)) by (destruct kept; [done|simpl; lia]).
    destruct (finalize_total cfg (mkDb kept (Some st')) (truncate_entry key (Z.of_nat (length old)) cutoff) uuid now)
      as (r & db' & Hf).
    { by apply inv_readable. }
    { unfold _get_last_hash in *. cbn [rows]. by rewrite Hs, last_of_app in Ht by done. }
    rewrite Hf, bind_of_Ok. pose proof (finalize_row _ _ _ _ _ _ _ (proj1 Hk) Hf) as (Hr & _ & _ & _ & t & Hrow & _).
    exists [r], (mkPrune (Z.of_nat (length old)) (Some (id r)) false), db'.
    split; [reflexivity|]. split; [exact (finalize_inv _ _ _ _ _ _ _ Hk Hf)|]. split; [exact Hr|].
    split; [|done]. constructor; [|constructor]. rewrite Hrow. done.
Qed.

(** ** Re-anchoring *)

(** A row without its hashes. *)
Definition content (r : AuditLog) : AuditLog := set_hashes r None None.

Lemma relink_content cfg l : forall prev, map content (relink cfg prev l) = map content l.
Proof. induction l as [|r l IH]; intros prev; simpl; [reflexivity|]. f_equal. apply IH. Qed.

Lemma relink_length cfg l prev : length (relink cfg prev l) = length l.
Proof. rewrite <- (length_map content), relink_content. apply length_map. Qed.

Lemma relink_listed cfg l : forall prev, listed l -> listed (relink cfg prev l).
Proof.
  assert (Hk : forall l prev, map row_key (relink cfg prev l) = map row_key l).
  { intros k. induction k as [|r k IH]; intros prev; simpl; [reflexivity|]. f_equal. apply IH. }
  unfold listed. intros prev H. revert prev. induction H as [|r l Hs IH Hr]; intros prev; simpl; [constructor|].
  constructor; [apply IH|]. apply List.Forall_forall. intros s Hin.
  apply (List.in_map row_key) in Hin. rewrite Hk in Hin. apply List.in_map_iff in Hin as (t & E & Ht).
  rewrite List.Forall_forall in Hr. specialize (Hr t Ht). unfold key_lt in *. by rewrite <- E.
Qed.

Lemma relink_chain cfg l : forall prev,
  forallb (fun c => c <? 128) (or_empty prev) = true -> chain_from cfg (Some prev) (relink cfg prev l).
Proof.
  induction l as [|r l IH]; intros prev Hp; cbn [relink chain_from]; [trivial|].
  set (h := compute_hash cfg (set_hashes r prev None) None).
  assert (Hh : h = compute_hash cfg (set_hashes r prev (Some h)) None) by apply compute_hash_entry.
  split; [|split].
  - unfold link_matches. apply compare_true. split; [reflexivity|exact Hp].
  - apply fresh_hash_matches. exact (f_equal Some Hh).
  - apply IH. unfold h. rewrite compute_hash_hmac. apply hmac_ascii.
Qed.

Lemma relink_last cfg l : forall prev, created_at <$> last (relink cfg prev l) = created_at <$> last l.
Proof.
  induction l as [|r l IH]; intros prev; [reflexivity|]. cbn [relink]. rewrite !last_cons.
  specialize (IH (Some (compute_hash cfg (set_hashes r prev None) None))).
  destruct (last (relink cfg _ l)), (last l); cbn in *; congruence || reflexivity.
Qed.

Lemma last_created db : snd (_get_last_hash db) = created_at <$> last (rows db).
Proof. unfold _get_last_hash. by destruct (last (rows db)). Qed.

Lemma reanchor_inv cfg db key name uuid now :
  listed (rows db) -> hw_readable cfg db -> is_ok (stamp now (snd (_get_last_hash db))) = true ->
  exists db' r, reanchor_chain cfg db true key name uuid now =
      Ok (_count_audit_rows db, verify_ok cfg db, match verify_chain cfg db None 1000 with
            | Ok s => first_bad_id s | Err _ => None end, db') /\
    chain_inv cfg db' /\ map content (rows db') = map content (rows db) ++ [content r] /\
    action r = u "audit_chain_reanchor" /\ api_key_name r = name.
Proof.
  intros Hl Hw Ht. unfold reanchor_chain, reanchor_begin, reanchor_finish, verify_ok.
  set (pre := match verify_chain cfg db None 1000 with Ok s => s | Err _ => _ end). cbn zeta.
  set (db1 := mkDb (relink cfg None (rows db)) (high_water db)).
  assert (Hl1 : listed (rows db1)) by (by apply relink_listed).
  assert (Hc1 : chain_from cfg None (rows db1)) by (apply (chain_from_none cfg (Some None)), relink_chain; reflexivity).
  set (e := reanchor_entry key name _ pre).
  destruct (finalize_total cfg db1 e uuid now) as (r & db2 & Hf); [exact Hw| |].
  { rewrite last_created in Ht |- *. unfold db1. cbn [rows]. by rewrite relink_last. }
  rewrite Hf, !bind_of_Ok. destruct (finalize_row _ _ _ _ _ _ _ Hl1 Hf) as (Hr & Hl2 & _ & Hh & t & Hrow & _).
  destruct (record_ok cfg db2 (_count_audit_rows db2) (entry_hash r)) as (st & Hrec & Hv & Hcount & _).
  { rewrite Hh. apply hash_text. }
  rewrite Hrec, bind_of_Ok. exists (mkDb (rows db2) (Some st)), r. split; [|split].
  - rewrite relink_length. unfold pre, _count_audit_rows. by destruct (verify_chain cfg db None 1000).
  - split; [exact Hl2|]. split; [exact (finalize_chain _ _ _ _ _ _ _ Hl1 Hc1 Hf)|].
    split; [exact Hv|]. rewrite Hcount. unfold _count_audit_rows. cbn [rows]. lia.
  - cbn [rows]. rewrite Hr, map_app. unfold db1. cbn [rows]. rewrite relink_content.
    split; [reflexivity|]. by rewrite Hrow.
Qed.

(** ** Steps *)

(** What the service does to its tables, every read of the newest row
    succeeding. With the tables, the hashes of the entries of re-anchorings
    between their commits: other writers may come in there. *)
Definition chain_state : Type := chain_db * list (option ustr).

Inductive chain_step (cfg : audit_settings) : chain_state -> chain_state -> Prop :=
  | StepLog db open e uuid now r db' :
      _finalize_entry cfg db true e uuid now = Ok (r, db') -> chain_step cfg (db, open) (db', open)
  | StepPrune db open cutoff key uuid now res a db' :
      prune_audit_log cfg db true cutoff key uuid now = Ok (res, db', a) ->
      chain_step cfg (db, open) (db', open)
  | StepReanchor db open key name uuid now n pre h db' :
      reanchor_begin cfg db true key name uuid now = Ok (n, pre, h, db') ->
      chain_step cfg (db, open) (db', h :: open)
  | StepFinish db o1 h o2 db' :
      reanchor_finish cfg db h = Ok db' -> chain_step cfg (db, o1 ++ h :: o2) (db', o1 ++ o2).

Lemma prune_none cfg db cutoff key uuid now :
  chain_inv cfg db -> rows db = retained cutoff (rows db) ->
  prune_audit_log cfg db true cutoff key uuid now =
  Ok (mkPrune 0 None false, db, Some (emit_audit_anchor db 0)).
Proof.
  intros Hinv Hs. unfold prune_audit_log.
  rewrite (proj2 (verify_ok_valid cfg db (proj1 Hinv)) (inv_valid _ _ Hinv)). cbn [negb]. cbn zeta.
  change (List.filter _ (rows db)) with (retained cutoff (rows db)). rewrite <- Hs, Z.sub_diag. by destruct db.
Qed.

Lemma prune_step_inv cfg db cutoff key uuid now res a db' :
  chain_inv cfg db -> prune_audit_log cfg db true cutoff key uuid now = Ok (res, db', a) -> chain_inv cfg db'.
Proof.
  intros Hinv H. pose proof Hinv as (Hl & Hc & _).
  destruct (retained_facts cfg cutoff (rows db) Hl Hc) as (old & Hs & _).
  destruct (decide (old = [])) as [->|Hne].
  { rewrite prune_none in H by done. by injection H as <- <- <-. }
  destruct (prune_unfold cfg db cutoff key uuid now old Hinv Hs Hne) as (st' & Hk & Hp).
  rewrite Hp in H. case_match.
  - apply bind_Ok in H as ([r db2] & Hf & [= <- <- <-]). exact (finalize_inv _ _ _ _ _ _ _ Hk Hf).
  - by injection H as <- <- <-.
Qed.

(** The first transaction of a re-anchoring. *)
Lemma reanchoring_inv cfg db key name uuid now n pre h db' :
  chain_inv cfg db -> reanchor_begin cfg db true key name uuid now = Ok (n, pre, h, db') ->
  chain_inv cfg db' /\ text_ok (or_empty h) = true.
Proof.
  intros (Hl & _ & He) H. unfold reanchor_begin in H. cbn zeta in H.
  apply bind_Ok in H as ([r db2] & Hf & [= _ _ <- <-]).
  set (db1 := mkDb (relink cfg None (rows db)) (high_water db)) in Hf.
  assert (Hinv : chain_inv cfg db1).
  { split; [by apply relink_listed|]. split; [apply (chain_from_none cfg (Some None)), relink_chain; reflexivity|].
    unfold exact_count, _count_audit_rows in *. cbn [high_water rows db1].
    destruct (high_water db); [by rewrite relink_length|]. by rewrite He. }
  split; [exact (finalize_inv _ _ _ _ _ _ _ Hinv Hf)|].
  destruct (finalize_row _ _ _ _ _ _ _ (proj1 Hinv) Hf) as (_ & _ & _ & -> & _). apply hash_text.
Qed.

(** The second. *)
Lemma reanchored_inv cfg db h db' :
  chain_inv cfg db -> text_ok (or_empty h) = true -> reanchor_finish cfg db h = Ok db' -> chain_inv cfg db'.
Proof.
  intros (Hl & Hc & _) Hh H. unfold reanchor_finish in H.
  destruct (record_ok cfg db (_count_audit_rows db) h Hh) as (st & Hrec & Hv & Hcount & _).
  rewrite Hrec in H. injection H as <-. split; [exact Hl|]. split; [exact Hc|]. split; [exact Hv|].
  rewrite Hcount. unfold _count_audit_rows. cbn [rows]. lia.
Qed.

Definition state_inv (cfg : audit_settings) (s : chain_state) : Prop :=
  chain_inv cfg s.1 /\ Forall (fun h => text_ok (or_empty h) = true) s.2.

Lemma step_inv cfg s s' : state_inv cfg s -> chain_step cfg s s' -> state_inv cfg s'.
Proof.
  intros [Hinv Ho] H. destruct H as [db o e uuid now r db' H|db o cutoff key uuid now res a db' H
    |db o key name uuid now n pre h db' H|db o1 h o2 db' H]; cbn [fst snd] in *.
  - split; [exact (finalize_inv _ _ _ _ _ _ _ Hinv H)|exact Ho].
  - split; [exact (prune_step_inv _ _ _ _ _ _ _ _ _ Hinv H)|exact Ho].
  - destruct (reanchoring_inv _ _ _ _ _ _ _ _ _ _ Hinv H) as [Hinv' Hh].
    split; [exact Hinv'|]. constructor; [exact Hh|exact Ho].
  - apply Forall_app in Ho as [Ho1 Ho]. apply Forall_cons in Ho as [Hh Ho2].
    split; [exact (reanchored_inv _ _ _ _ Hinv Hh H)|]. apply Forall_app. exact (conj Ho1 Ho2).
Qed.

Lemma steps_inv cfg s s' : state_inv cfg s -> rtc (chain_step cfg) s s' -> state_inv cfg s'.
Proof. intros H0 H. induction H as [|a b c Hab _ IH]; [exact H0|]. apply IH. exact (step_inv _ _ _ H0 Hab). Qed.

Lemma empty_inv cfg : chain_inv cfg (mkDb [] None).
Proof. split; [constructor|]. split; [exact I|]. reflexivity. Qed.
