(* ===== verification/AuditSafety.v ===== *)
(** * What the audit chain guarantees (app/services/audit_service.py)

    Theorems on the operations of [AuditChain]: paging, what verification
    accepts, honest histories, retention, re-anchoring, key rotation, and
    what an attacker who can write the tables can and cannot do. *)
From S2P Require Import Prelude Bytes Utf8 Json PyTime AuditLog AuditChain.

(** ** Hashes and history *)

(** A row that matches was hashed under one of the two keys. *)
Definition keys (cfg : audit_settings) : list (option bytes) := [None; Some (secret_key_previous cfg)].

Lemma hash_matches_key cfg r :
  hash_matches cfg r = Ok true ->
  exists s, s ∈ keys cfg /\ compute_hash cfg r s = or_empty (entry_hash r).
Proof.
  intros ([] & Hb & H)%bind_Ok.
  - apply compare_true in Hb as [Hb _]. exists None. split; [left|exact Hb].
  - destruct (secret_key_previous cfg) as [|b p] eqn:E; [discriminate H|].
    apply compare_true in H as [H _]. exists (Some (b :: p)). split; [|exact H].
    unfold keys. rewrite E. right. left.
Qed.

(** No two of the payloads hashed for [l] and [k] collide. *)
Definition collision_free (cfg : audit_settings) (l k : list AuditLog) : Prop :=
  forall r s a b, r ∈ l -> s ∈ k -> a ∈ keys cfg -> b ∈ keys cfg ->
  compute_hash cfg r a = compute_hash cfg s b -> payload r = payload s.

Lemma same_hash_same_row cfg r s :
  collision_free cfg [r] [s] -> row_ok r = true -> row_ok s = true ->
  hash_matches cfg r = Ok true -> hash_matches cfg s = Ok true ->
  or_empty (entry_hash r) = or_empty (entry_hash s) -> audited r = audited s.
Proof.
  intros Hcf Hr Hs (a & Ha & Hra)%hash_matches_key (b & Hb & Hsb)%hash_matches_key E.
  apply payload_inj; [exact Hr|exact Hs|].
  apply (Hcf r s a b); [left|left|exact Ha|exact Hb|]. congruence.
Qed.

Lemma collision_free_mono cfg l l' k k' :
  collision_free cfg l k -> l' ⊆ l -> k' ⊆ k -> collision_free cfg l' k'.
Proof. intros H Hl Hk r s a b Hr Hs. apply H; [by apply Hl|by apply Hk]. Qed.

Definition head_of (l : list AuditLog) : ustr := or_empty (last l ≫= entry_hash).

(** The link of the last row of a chain. *)
Lemma chain_last_link cfg l r :
  chain_from cfg None (l ++ [r]) -> l <> [] -> or_empty (prev_hash r) = head_of l.
Proof.
  intros [_ [Hl _]]%chain_from_app Hne. unfold link_after in Hl. unfold head_of.
  destruct (last_snoc_inv l) as [->|(k & x & ->)]; [done|]. rewrite last_snoc in *.
  by apply compare_true in Hl as [Hl _].
Qed.

Lemma chain_prefix cfg l r :
  chain_from cfg None (l ++ [r]) -> chain_from cfg None l /\ hash_matches cfg r = Ok true.
Proof. intros [Hc [_ [Hh _]]]%chain_from_app. exact (conj Hc Hh). Qed.

Lemma history_suffix cfg k : forall l,
  chain_from cfg None l -> chain_from cfg None k ->
  Forall (fun r => row_ok r = true) l -> Forall (fun r => row_ok r = true) k ->
  collision_free cfg l k -> head_of l = head_of k -> k <> [] -> (length k <= length l)%nat ->
  exists old, map audited l = old ++ map audited k.
Proof.
  induction k as [|s k IH] using rev_ind; intros l Hl Hk Ol Ok_ Hcf Hh Hne Hlen; [done|].
  rewrite length_app in Hlen. cbn [length] in Hlen.
  destruct (last_snoc_inv l) as [->|(l' & r & ->)]; [simpl in Hlen; lia|].
  apply Forall_app in Ol as [Ol Or], Ok_ as [Ok_ Os]. apply Forall_inv in Or, Os.
  destruct (chain_prefix _ _ _ Hl) as [Hl' Hr], (chain_prefix _ _ _ Hk) as [Hk' Hs].
  unfold head_of in Hh. rewrite !last_snoc in Hh. cbn in Hh.
  assert (Ha : audited r = audited s).
  { apply (same_hash_same_row cfg); [|exact Or|exact Os|exact Hr|exact Hs|exact Hh].
    apply (collision_free_mono _ _ _ _ _ Hcf); intros x ->%list_elem_of_singleton;
      rewrite elem_of_app, list_elem_of_singleton; by right. }
  rewrite !map_app. cbn [map]. rewrite Ha. destruct (decide (k = [])) as [->|Hkn].
  { exists (map audited l'). reflexivity. }
  rewrite length_app in Hlen. cbn [length] in Hlen.
  assert (Hln : l' <> []) by (intros ->; destruct k; [exact (Hkn eq_refl)|simpl in Hlen; lia]).
  destruct (IH l' Hl' Hk' Ol Ok_) as [old Ho]; [| |exact Hkn| |].
  - apply (collision_free_mono _ _ _ _ _ Hcf); intros x Hx; rewrite elem_of_app; by left.
  - rewrite <- (chain_last_link _ _ _ Hl Hln), <- (chain_last_link _ _ _ Hk Hkn).
    exact (f_equal (fun t => snd (fst t)) Ha).
  - lia.
  - exists old. rewrite Ho, app_assoc. reflexivity.
Qed.

(** ** Rotation *)

(** A chain written under [k] alone reads the same with [k] as the previous
    key of any other. *)
Lemma rotate_hash k k' r :
  k <> [] -> hash_matches (mkAS k []) r = Ok true -> hash_matches (mkAS k' k) r = Ok true.
Proof.
  intros Hk H. pose proof (hash_matches_ascii _ _ H) as Ha.
  assert (Hh : compute_hash (mkAS k []) r None = or_empty (entry_hash r)).
  { unfold hash_matches in H. apply bind_Ok in H as ([] & Hb & H); [by apply compare_true in Hb as [? _]|discriminate H]. }
  unfold hash_matches. rewrite !compute_hash_hmac, compare_digest_hmac, Ha, bind_of_Ok.
  destruct (bool_decide _); [reflexivity|]. cbn [secret_key_previous].
  destruct k as [|b k]; [by destruct Hk|]. apply compare_true.
  rewrite compute_hash_hmac, (hmac_rotated _ _ []) by exact Hk. rewrite <- compute_hash_hmac, Hh.
  split; [reflexivity|exact Ha].
Qed.

Lemma rotate_signature k k' st :
  k <> [] -> _high_water_signature_valid (mkAS k []) st = Ok true ->
  _high_water_signature_valid (mkAS k' k) st = Ok true.
Proof.
  intros Hk H. unfold _high_water_signature_valid in *.
  apply bind_Ok in H as (g & Hg & H). apply bind_Ok in H as ([] & Hb & H); [|discriminate H].
  apply compare_true in Hb as [<- Ha].
  unfold _sign_high_water in *. apply bind_Ok in Hg as (t & Ht & [= <-]).
  rewrite Ht, !bind_of_Ok, compare_digest_hmac, Ha, bind_of_Ok.
  destruct (bool_decide _); [reflexivity|]. cbn [secret_key_previous].
  destruct k as [|b k]; [by destruct Hk|]. rewrite bind_of_Ok. apply compare_true.
  rewrite (hmac_rotated _ _ []) by exact Hk. split; [reflexivity|apply hmac_ascii].
Qed.

Lemma rotate_chain k k' l : forall prev,
  k <> [] -> chain_from (mkAS k []) prev l -> chain_from (mkAS k' k) prev l.
Proof.
  induction l as [|r l IH]; intros prev Hk; cbn [chain_from]; [trivial|]. intros (Hp & Hh & Hc).
  split; [exact Hp|]. split; [exact (rotate_hash _ _ _ Hk Hh)|exact (IH _ Hk Hc)].
Qed.

Lemma rotate_inv k k' db : k <> [] -> chain_inv (mkAS k []) db -> chain_inv (mkAS k' k) db.
Proof.
  intros Hk (Hl & Hc & He). split; [exact Hl|]. split; [exact (rotate_chain _ _ _ _ Hk Hc)|].
  unfold exact_count in *. destruct (high_water db); [|exact He].
  destruct He as [Hv Hn]. exact (conj (rotate_signature _ _ _ Hk Hv) Hn).
Qed.

(** ** Example state *)

Definition demo_cfg : audit_settings := mkAS [x6b] [].
Definition demo_time (n : Z) : datetime := mkDT 2026 1 1 0 0 0 n.
Definition demo_entry : entry :=
  mkEntry None (u "k") (u "pay") (u "r") JNull (Some 5) true None None.

(** A table with one row, and what was appended to it. *)
Definition demo_append (db : chain_db) (uuid : Z) : AuditLog * chain_db :=
  match _finalize_entry demo_cfg db true demo_entry uuid (demo_time 0) with
  | Ok p => p
  | Err _ => (row_of demo_entry 0 None None (demo_time 0), db)
  end.

Definition demo_db1 : chain_db := snd (demo_append (mkDb [] None) 1).

Lemma demo_append_ok db uuid :
  chain_inv demo_cfg db -> is_ok (stamp (demo_time 0) (snd (_get_last_hash db))) = true ->
  _finalize_entry demo_cfg db true demo_entry uuid (demo_time 0) = Ok (demo_append db uuid).
Proof.
  intros Hi Ht. unfold demo_append.
  destruct (finalize_total demo_cfg db demo_entry uuid (demo_time 0)) as (r & db' & ->); [|exact Ht|reflexivity].
  exact (inv_readable _ _ Hi).
Qed.

Lemma demo_step : _finalize_entry demo_cfg (mkDb [] None) true demo_entry 1 (demo_time 0) =
  Ok (fst (demo_append (mkDb [] None) 1), demo_db1).
Proof. rewrite (demo_append_ok _ _ (empty_inv _) eq_refl). unfold demo_db1. by rewrite <- surjective_pairing. Qed.

Lemma demo_inv : chain_inv demo_cfg demo_db1.
Proof. exact (finalize_inv _ _ _ _ _ _ _ (empty_inv _) demo_step). Qed.

Lemma demo_rows : rows demo_db1 = [fst (demo_append (mkDb [] None) 1)].
Proof. by destruct (finalize_row _ _ _ _ _ _ _ (proj1 (empty_inv demo_cfg)) demo_step) as (-> & _). Qed.

(** ** Properties *)

(** Reading the table page by page, with any positive batch size and
    any limit, gives the verdict of one pass over the first [limit] rows: the
    loop over pages ends, skips no row and reads none twice. *)
Theorem verify_pages_equiv cfg db limit batch :
  listed (rows db) -> 1 <= batch -> verify_chain cfg db limit batch = verify_reference cfg db limit.
Proof. apply verify_one_pass. Qed.

Lemma verify_pages_equiv_witness :
  verify_chain demo_cfg demo_db1 None 7 = verify_reference demo_cfg demo_db1 None.
Proof. apply (verify_pages_equiv demo_cfg demo_db1 None 7); [exact (proj1 demo_inv)|lia]. Defined.

(** C34. A full verification succeeds exactly on the valid chains: every row
    matches its hash under the current or the previous key and links to the
    row before it, and the high-water row, if any, is signed and records no
    more rows than there are. Success reports every row checked. *)
Theorem verify_iff_valid cfg db batch :
  listed (rows db) -> 1 <= batch ->
  (verify_chain cfg db None batch = Ok (mkSum (_count_audit_rows db) true None None) <-> chain_valid cfg db) /\
  ((exists s, verify_chain cfg db None batch = Ok s /\ ok s = true) <-> chain_valid cfg db).
Proof.
  intros Hl Hb. rewrite verify_one_pass by (exact Hl || lia). split; split.
  - intros H. exact (verify_accepts _ _ _ H eq_refl).
  - apply verify_valid.
  - intros (s & H & Hs). exact (verify_accepts _ _ _ H Hs).
  - intros H. exists (mkSum (_count_audit_rows db) true None None). split; [by apply verify_valid|reflexivity].
Qed.

Lemma verify_iff_valid_witness :
  verify_chain demo_cfg demo_db1 None 1000 = Ok (mkSum (_count_audit_rows demo_db1) true None None).
Proof.
  apply (proj1 (verify_iff_valid demo_cfg demo_db1 1000 (proj1 demo_inv) ltac:(lia))).
  exact (inv_valid _ _ demo_inv).
Defined.

(** C35. Honest histories: whatever sequence of log entries, retention runs
    and re-anchorings is run from empty tables, other writers coming between
    the two commits of a re-anchoring, the chain verifies at every commit, in
    order and with the recorded count exact, and the next entry can be
    appended as long as the clock is not at the end of its range. Two things
    are assumed: every read of the newest row succeeds ([lost_tail_read]
    shows what happens otherwise), and no writer comes between the count and
    the write of a re-anchoring's second transaction, which holds no lock
    ([prune_inside_reanchor]). *)
Theorem audit_lifecycle cfg db open :
  rtc (chain_step cfg) (mkDb [] None, []) (db, open) ->
  chain_inv cfg db /\
  (forall batch, 1 <= batch ->
     verify_chain cfg db None batch = Ok (mkSum (_count_audit_rows db) true None None)) /\
  (forall e uuid now, is_ok (stamp now (snd (_get_last_hash db))) = true ->
     exists r db', _finalize_entry cfg db true e uuid now = Ok (r, db') /\ rows db' = rows db ++ [r]).
Proof.
  intros H. assert (Hinv : chain_inv cfg db).
  { refine (proj1 (steps_inv cfg _ _ _ H)). split; [apply empty_inv|constructor]. }
  split; [exact Hinv|]. split.
  - intros batch Hb. rewrite verify_one_pass by (exact (proj1 Hinv) || lia).
    exact (verify_valid _ _ (inv_valid _ _ Hinv)).
  - intros e uuid now Ht. destruct (finalize_total cfg db e uuid now (inv_readable _ _ Hinv) Ht) as (r & db' & Hf).
    exists r, db'. split; [exact Hf|]. exact (proj1 (finalize_row _ _ _ _ _ _ _ (proj1 Hinv) Hf)).
Qed.

(** An entry, and a re-anchoring that has not committed its count yet. *)
Lemma audit_lifecycle_witness :
  exists db h, rtc (chain_step demo_cfg) (mkDb [] None, []) (db, [h]) /\
    verify_chain demo_cfg db None 1000 = Ok (mkSum (_count_audit_rows db) true None None).
Proof.
  destruct (reanchor_begin demo_cfg demo_db1 true 7 (u "admin") 8 (demo_time 0)) as [[[[n pre] h] db]|e] eqn:E.
  2: { exfalso. revert E. vm_compute. discriminate. }
  exists db, h.
  assert (Hs : rtc (chain_step demo_cfg) (mkDb [] None, []) (db, [h])).
  { eapply rtc_l; [exact (StepLog _ _ _ _ _ _ _ _ demo_step)|].
    apply rtc_once. exact (StepReanchor _ _ _ _ _ _ _ _ _ _ _ E). }
  split; [exact Hs|]. exact (proj1 (proj2 (audit_lifecycle demo_cfg db [h] Hs)) 1000 ltac:(lia)).
Defined.

(** An entry written after a failed read of the newest row has no back-link:
    from then on the chain does not verify and retention is skipped. *)
Example lost_tail_read :
  match _finalize_entry demo_cfg demo_db1 false demo_entry 2 (demo_time 5) with
  | Ok (r, db) =>
      prev_hash r = None /\
      verify_chain demo_cfg db None 1000 = Ok (mkSum 1 false (Some 2) (Some "prev_hash mismatch"%string)) /\
      prune_audit_log demo_cfg db true (demo_time 3) 4 9 (demo_time 20) = Ok (mkPrune 0 None true, db, None)
  | Err _ => False
  end.
Proof. vm_compute. repeat split; reflexivity. Qed.

(** A retention run between the count and the write of a re-anchoring: the
    count it writes back is that of the rows before, and the chain no longer
    verifies. *)
Example prune_inside_reanchor :
  match reanchor_begin demo_cfg demo_db1 true 7 (u "admin") 8 (demo_time 5) with
  | Ok (_, _, h, db) =>
      let counted := _count_audit_rows db in
      match prune_audit_log demo_cfg db true (demo_time 9) 4 9 (demo_time 20) with
      | Ok (_, db, _) =>
          match _record_high_water demo_cfg db counted h with
          | Ok db => ok <$> verify_chain demo_cfg db None 1000 = Ok false
          | Err _ => False
          end
      | Err _ => False
      end
  | Err _ => False
  end.
Proof. vm_compute. reflexivity. Qed.

(** C36. A head hash pins the history: two tables whose chains verify and
    whose newest rows carry the same hash agree, column by column, on the
    rows of the shorter one, which are the newest rows of the longer, unless
    two of the hashed payloads collide. With equal counts the histories are
    the same. *)
Theorem head_pins_history cfg db1 db2 :
  chain_valid cfg db1 -> chain_valid cfg db2 ->
  Forall (fun r => row_ok r = true) (rows db1) -> Forall (fun r => row_ok r = true) (rows db2) ->
  collision_free cfg (rows db1) (rows db2) ->
  head_of (rows db1) = head_of (rows db2) ->
  rows db2 <> [] -> (length (rows db2) <= length (rows db1))%nat ->
  exists old, map audited (rows db1) = old ++ map audited (rows db2) /\
    (length (rows db1) = length (rows db2) -> old = []).
Proof.
  intros [H1 _] [H2 _] O1 O2 Hcf Hh Hne Hlen.
  destruct (history_suffix cfg (rows db2) (rows db1) H1 H2 O1 O2 Hcf Hh Hne Hlen) as [old Ho].
  exists old. split; [exact Ho|]. intros E. apply (f_equal length) in Ho.
  rewrite length_app, !length_map in Ho. destruct old; [reflexivity|]. simpl in Ho. lia.
Qed.

Lemma head_pins_history_witness :
  exists old, map audited (rows demo_db1) = old ++ map audited (rows demo_db1) /\
    (length (rows demo_db1) = length (rows demo_db1) -> old = []).
Proof.
  apply (head_pins_history demo_cfg demo_db1 demo_db1).
  - exact (inv_valid _ _ demo_inv).
  - exact (inv_valid _ _ demo_inv).
  - rewrite demo_rows. constructor; [vm_compute; reflexivity|constructor].
  - rewrite demo_rows. constructor; [vm_compute; reflexivity|constructor].
  - intros r s a b Hr Hs _ _ _. rewrite demo_rows in Hr, Hs.
    apply list_elem_of_singleton in Hr, Hs. rewrite Hr, Hs. reflexivity.
  - reflexivity.
  - rewrite demo_rows. discriminate.
  - lia.
Defined.

(** Truncation is detected: whatever is done to the rows of an honest
    table, as long as fewer are left and the high-water row is still the
    one the service wrote, no verification succeeds. *)
Theorem truncation_detected cfg db db' batch s :
  chain_inv cfg db -> high_water db <> None -> high_water db' = high_water db ->
  listed (rows db') -> (length (rows db') < length (rows db))%nat -> 1 <= batch ->
  verify_chain cfg db' None batch = Ok s -> ok s = false.
Proof.
  intros (_ & _ & He) Hne Hhw Hl Hlt Hb H. destruct (ok s) eqn:Hs; [|reflexivity]. exfalso.
  rewrite verify_one_pass in H by (exact Hl || lia). destruct (verify_accepts _ _ _ H Hs) as [_ Hv].
  unfold hw_valid in Hv. rewrite Hhw in Hv. unfold exact_count in He.
  destruct (high_water db) as [st|]; [|exact (Hne eq_refl)]. destruct He as [_ Hn], Hv as [_ Hle].
  unfold _count_audit_rows in *. lia.
Qed.

Lemma truncation_detected_witness :
  match verify_chain demo_cfg (mkDb [] (high_water demo_db1)) None 5 with
  | Ok s => ok s = false
  | Err _ => False
  end.
Proof.
  destruct (verify_chain demo_cfg (mkDb [] (high_water demo_db1)) None 5) as [s|e] eqn:E.
  2: { rewrite verify_one_pass in E by (constructor || lia).
       assert (X : is_ok (verify_reference demo_cfg (mkDb [] (high_water demo_db1)) None) = true) by (vm_compute; reflexivity).
       rewrite E in X. discriminate X. }
  revert E. apply (truncation_detected demo_cfg demo_db1 (mkDb [] (high_water demo_db1)) 5 s).
  - exact demo_inv.
  - pose proof (proj2 (proj2 demo_inv)) as He. unfold exact_count in He. intros E. rewrite E, demo_rows in He.
    discriminate He.
  - reflexivity.
  - constructor.
  - rewrite demo_rows. simpl. lia.
  - lia.
Defined.

(** ... but the row can be removed with them: an attacker who deletes
    the newest rows of an honest table and the high-water row leaves tables
    that verify, and the next entry records the truncated count as the new
    baseline, after which nothing is left to notice. *)
Theorem truncation_undetected cfg db n batch :
  chain_inv cfg db -> 1 <= batch ->
  let db' := mkDb (take n (rows db)) None in
  verify_chain cfg db' None batch = Ok (mkSum (_count_audit_rows db') true None None) /\
  (forall e uuid now r db'', _finalize_entry cfg db' true e uuid now = Ok (r, db'') -> chain_inv cfg db'').
Proof.
  intros (Hl & Hc & _) Hb db'.
  rewrite <- (take_drop n (rows db)) in Hl, Hc. apply listed_app in Hl as (Hl & _ & _).
  apply chain_from_app in Hc as [Hc _]. change (listed (rows db')) in Hl. change (chain_from cfg None (rows db')) in Hc.
  split.
  - rewrite verify_one_pass by (exact Hl || lia). apply verify_valid. split; [exact Hc|exact I].
  - intros e uuid now r db'' H. destruct (finalize_row _ _ _ _ _ _ _ Hl H) as (Hr & Hl' & _ & Hh & t & _ & Hb').
    split; [exact Hl'|]. split; [exact (finalize_chain _ _ _ _ _ _ _ Hl Hc H)|].
    unfold _bump_high_water_on_append in Hb'. cbn [high_water db'] in Hb'.
    match type of Hb' with _record_high_water _ ?d ?m ?h = _ =>
      destruct (record_ok cfg d m h) as (st & Hrec & Hv & Hcount & _) end.
    { rewrite Hh. apply hash_text. }
    rewrite Hrec in Hb'. injection Hb' as <-. split; [exact Hv|]. rewrite Hcount.
    unfold _count_audit_rows. apply Z.max_r. lia.
Qed.

Lemma truncation_undetected_witness :
  verify_chain demo_cfg (mkDb (take 0 (rows demo_db1)) None) None 5 = Ok (mkSum 0 true None None).
Proof. exact (proj1 (truncation_undetected demo_cfg demo_db1 0 5 demo_inv ltac:(lia))). Defined.

(** C37. A high-water row whose signature is not ASCII stops the service:
    the comparison raises, so no entry can be appended any more and the
    re-anchoring that is meant to recover raises as well. *)
Theorem bad_signature_blocks cfg db st :
  high_water db = Some st -> forallb (fun c => c <? 128) (state_hmac st) = false ->
  (forall tail_read e uuid now, is_ok (_finalize_entry cfg db tail_read e uuid now) = false) /\
  (forall tail_read key name uuid now, is_ok (reanchor_chain cfg db tail_read key name uuid now) = false).
Proof.
  intros Hst Hna.
  assert (Hv : is_ok (_high_water_signature_valid cfg st) = false).
  { unfold _high_water_signature_valid, _sign_high_water.
    destruct (utf8_encode _) as [t|]; rewrite ?bind_of_Err; [|reflexivity].
    rewrite !bind_of_Ok, compare_digest_hmac, Hna. reflexivity. }
  assert (Hf : forall l tail_read e uuid now,
    is_ok (_finalize_entry cfg (mkDb l (Some st)) tail_read e uuid now) = false).
  { intros l tail_read e uuid now. unfold _finalize_entry.
    destruct (if tail_read then _ else _) as [prev prev_at].
    destruct (stamp now prev_at) as [t|]; rewrite ?bind_of_Ok, ?bind_of_Err; [|reflexivity].
    unfold _bump_high_water_on_append. cbn [high_water]. cbn zeta.
    destruct (_high_water_signature_valid cfg st); [discriminate Hv|]. reflexivity. }
  split.
  - intros tail_read e uuid now. destruct db as [l hw]. cbn in Hst. rewrite Hst. apply Hf.
  - intros tail_read key name uuid now. unfold reanchor_chain, reanchor_begin. cbn zeta. rewrite Hst.
    match goal with |- context [_finalize_entry ?c ?d ?b ?e ?i ?t] =>
      pose proof (Hf (rows d) b e i t) as Hx; change (mkDb (rows d) (Some st)) with d in Hx;
      destruct (_finalize_entry c d b e i t); [discriminate Hx|reflexivity] end.
Qed.

Lemma bad_signature_blocks_witness :
  let db := mkDb [] (Some (mkState 0 None [233])) in
  is_ok (reanchor_chain demo_cfg db true 1 (u "admin") 2 (demo_time 0)) = false.
Proof.
  intros db. apply (bad_signature_blocks demo_cfg db (mkState 0 None [233])); reflexivity.
Defined.

(** Retention on an honest table, the clock not at its end: exactly the
    rows before the cutoff go, which are the oldest; an anchor row naming how
    many is appended unless nothing was deleted or nothing is left; the
    result is an honest table again; and the snapshot sent out satisfies what
    its receiver checks, [count >= previous count - deleted]. On a table that
    does not verify nothing is changed. *)
Theorem prune_correct cfg db cutoff key uuid now :
  (chain_inv cfg db -> is_ok (stamp now (snd (_get_last_hash db))) = true ->
   exists old tail res db' a,
     rows db = old ++ retained cutoff (rows db) /\
     Forall (fun r => expired cutoff r = true) old /\
     prune_audit_log cfg db true cutoff key uuid now = Ok (res, db', Some a) /\
     chain_inv cfg db' /\ rows db' = retained cutoff (rows db) ++ tail /\
     Forall (anchor_row key (Z.of_nat (length old)) cutoff) tail /\
     length tail = (if decide (old = [] \/ retained cutoff (rows db) = []) then 0 else 1)%nat /\
     deleted res = Z.of_nat (length old) /\ a_deleted a = deleted res /\
     a_count a >= _count_audit_rows db - a_deleted a) /\
  (verify_ok cfg db = false ->
   prune_audit_log cfg db true cutoff key uuid now = Ok (mkPrune 0 None true, db, None)).
Proof.
  split.
  2: { intros H. unfold prune_audit_log. by rewrite H. }
  intros Hinv Ht. pose proof Hinv as (Hl & Hc & _).
  destruct (retained_facts cfg cutoff (rows db) Hl Hc) as (old & Hs & Ho & _).
  exists old. destruct (decide (old = [])) as [->|Hne].
  - exists [], (mkPrune 0 None false), db, (emit_audit_anchor db 0).
    rewrite app_nil_r. split; [exact Hs|]. split; [exact Ho|].
    split; [exact (prune_none _ _ _ _ _ _ Hinv Hs)|]. split; [exact Hinv|]. split; [exact Hs|].
    split; [constructor|]. rewrite decide_True by (by left). repeat (split; [reflexivity|]). simpl. lia.
  - destruct (prune_some cfg db cutoff key uuid now old Hinv Ht Hs Hne) as (tail & res & db' & Hp & Hi & Hr & Ha & Hlen & Hd & _).
    exists tail, res, db', (emit_audit_anchor db' (Z.of_nat (length old))).
    split; [exact Hs|]. split; [exact Ho|]. split; [exact Hp|]. split; [exact Hi|]. split; [exact Hr|].
    split; [exact Ha|]. split.
    { rewrite Hlen. destruct (decide (retained cutoff (rows db) = [])) as [E|E].
      - by rewrite decide_True by (by right).
      - rewrite decide_False; [reflexivity|]. intros [?|?]; [exact (Hne H)|exact (E H)]. }
    split; [exact Hd|]. split; [by rewrite Hd|]. cbn [a_count a_deleted emit_audit_anchor].
    assert (Hn : length (rows db) = (length old + length (retained cutoff (rows db)))%nat)
      by (rewrite Hs at 1; apply length_app).
    unfold _count_audit_rows. rewrite Hr, Hn, length_app. lia.
Qed.

Lemma prune_correct_witness :
  exists old tail res db' a,
    rows demo_db1 = old ++ retained (demo_time 9) (rows demo_db1) /\
    Forall (fun r => expired (demo_time 9) r = true) old /\
    prune_audit_log demo_cfg demo_db1 true (demo_time 9) 4 2 (demo_time 20) = Ok (res, db', Some a) /\
    chain_inv demo_cfg db' /\ rows db' = retained (demo_time 9) (rows demo_db1) ++ tail /\
    Forall (anchor_row 4 (Z.of_nat (length old)) (demo_time 9)) tail /\
    length tail = (if decide (old = [] \/ retained (demo_time 9) (rows demo_db1) = []) then 0 else 1)%nat /\
    deleted res = Z.of_nat (length old) /\ a_deleted a = deleted res /\
    a_count a >= _count_audit_rows demo_db1 - a_deleted a.
Proof.
  apply (proj1 (prune_correct demo_cfg demo_db1 (demo_time 9) 4 2 (demo_time 20))); [exact demo_inv|].
  unfold _get_last_hash. rewrite demo_rows. vm_compute. reflexivity.
Defined.

(** Re-anchoring recovers from any rows: if the high-water row can be
    read at all and the clock is not at its end, it succeeds, keeps every
    column but the hashes of every row in order, appends a row that names the
    actor, reports whether the table verified before, and leaves an honest
    table. *)
Theorem reanchor_recovers cfg db key name uuid now :
  listed (rows db) -> hw_readable cfg db -> is_ok (stamp now (snd (_get_last_hash db))) = true ->
  exists db' r bad, reanchor_chain cfg db true key name uuid now =
      Ok (_count_audit_rows db, verify_ok cfg db, bad, db') /\
    chain_inv cfg db' /\ map content (rows db') = map content (rows db) ++ [content r] /\
    action r = u "audit_chain_reanchor" /\ api_key_name r = name.
Proof.
  intros Hl Hw Ht. destruct (reanchor_inv cfg db key name uuid now Hl Hw Ht) as (db' & r & H & Hrest).
  exists db', r. eexists. split; [exact H|exact Hrest].
Qed.

Lemma reanchor_recovers_witness :
  let bad := mkDb [row_of demo_entry 3 None (Some [120]) (demo_time 1)] None in
  exists db' r b, reanchor_chain demo_cfg bad true 7 (u "admin") 8 (demo_time 2) =
      Ok (1, verify_ok demo_cfg bad, b, db') /\
    chain_inv demo_cfg db' /\ map content (rows db') = map content (rows bad) ++ [content r] /\
    action r = u "audit_chain_reanchor" /\ api_key_name r = u "admin".
Proof.
  intros bad. apply (reanchor_recovers demo_cfg bad 7 (u "admin") 8 (demo_time 2)).
  - repeat constructor.
  - exact I.
  - reflexivity.
Defined.

(** Rotating the secret key once, with the old key kept as the previous
    one, leaves an honest table honest: it verifies at once, and every
    operation under the new key keeps it so. *)
Theorem rotation_keeps_chain k k' db db' batch :
  k <> [] -> chain_inv (mkAS k []) db -> rtc (chain_step (mkAS k' k)) (db, []) (db', []) -> 1 <= batch ->
  verify_chain (mkAS k' k) db' None batch = Ok (mkSum (_count_audit_rows db') true None None).
Proof.
  intros Hk Hinv%(rotate_inv k k' db Hk) H Hb.
  assert (Hinv' : chain_inv (mkAS k' k) db').
  { refine (proj1 (steps_inv _ _ _ _ H)). split; [exact Hinv|constructor]. }
  rewrite verify_one_pass by (exact (proj1 Hinv') || lia). exact (verify_valid _ _ (inv_valid _ _ Hinv')).
Qed.

Lemma rotation_keeps_chain_witness :
  verify_chain (mkAS [x6e] [x6b]) demo_db1 None 10 = Ok (mkSum (_count_audit_rows demo_db1) true None None).
Proof.
  apply (rotation_keeps_chain [x6b] [x6e] demo_db1 demo_db1 10).
  - discriminate.
  - exact demo_inv.
  - apply rtc_refl.
  - lia.
Defined.
