(* ===== verification/PyFloat.v ===== *)
(** * Python floats

    A [float] is an IEEE 754 double with the operations of the standard
    library's [SpecFloat] at precision 53; an [int] operand is converted
    first, rounding to nearest even, and too large a one raises. *)
From Stdlib Require Export SpecFloat.
From S2P Require Import Prelude.

Abbreviation float := spec_float.

Definition float_of_int (n : Z) : result float :=
  match binary_normalize 53 1024 n 0 false with
  | S754_infinity _ => Err (OverflowError "int too large to convert to float")
  | f => Ok f
  end.

(** [n * f] and [f / n] of an [int] and a [float]; [n] is not 0 in a
    division here. *)
Definition mul_int_float (n : Z) (f : float) : result float := x ← float_of_int n; Ok (SFmul 53 1024 x f).
Definition div_float_int (f : float) (n : Z) : result float := x ← float_of_int n; Ok (SFdiv 53 1024 f x).

Definition div_int_float (n : Z) (f : float) : result float := x ← float_of_int n; Ok (SFdiv 53 1024 x f).

(** [int(f)] truncates. *)
Definition int_of_float (f : float) : result Z :=
  match f with
  | S754_zero _ => Ok 0
  | S754_infinity _ => Err (OverflowError "cannot convert float infinity to integer")
  | S754_nan => Err (ValueError "cannot convert float NaN to integer")
  | S754_finite s m e =>
      let n := if 0 <=? e then Z.pos m * 2 ^ e else Z.pos m / 2 ^ (- e) in
      Ok (if s then - n else n)
  end.

(** [math.ceil(f)] *)
Definition ceil_of_float (f : float) : result Z :=
  match f with
  | S754_finite s m e =>
      let n := if s then Z.neg m else Z.pos m in
      Ok (if 0 <=? e then n * 2 ^ e else - ((- n) / 2 ^ (- e)))
  | _ => int_of_float f
  end.

(** The literal [p/q], rounded to nearest. *)
Definition literal (p q : Z) : float := SFdiv 53 1024 (binary_normalize 53 1024 p 0 false) (binary_normalize 53 1024 q 0 false).

Example five_percent : (f ← mul_int_float 1999 (literal 5 100); int_of_float f) = Ok 99.
Proof. vm_compute. reflexivity. Qed.

Example inexact_literal : (f ← mul_int_float 100 (literal 29 100); int_of_float f) = Ok 28.
Proof. vm_compute. reflexivity. Qed.
