(* ===== verification/FloatExact.v ===== *)
(** * Where float arithmetic on amounts is exact

    The rounding of [SpecFloat] as an integer inequality: a product or a
    quotient is rounded to the nearest multiple of a power of two, so that
    [int(...)] and [math.ceil(...)] of it are an exact floor or ceiling
    whenever the true value keeps a distance from the integers. *)
From Stdlib Require Import Psatz.
From S2P Require Import Prelude PyFloat.

(** [SpecFloat] is stated with the integers of the core library. *)
Ltac corelib := change IntDef.Z.max with Z.max; change IntDef.Z.min with Z.min; change IntDef.Z.sub with Z.sub; change IntDef.Z.add with Z.add.

(** ** Positions between two integers *)

(** A shift record [(m, r, s)] locates the rational [num / den] in
    [[m, m + 1)]: on [m], below the middle, on it or above it. *)
Definition located (x : shr_record) (num den : Z) : Prop :=
  let '(Build_shr_record m r s) := x in
  0 <= m /\ 0 < den /\
  match r, s with
  | false, false => num = m * den
  | false, true => m * den < num /\ 2 * num < (2 * m + 1) * den
  | true, false => 2 * num = (2 * m + 1) * den
  | true, true => (2 * m + 1) * den < 2 * num /\ num < (m + 1) * den
  end.

Lemma located_shift x num den : located x num den -> located (shr_1 x) num (2 * den).
Proof.
  destruct x as [m r s]. intros (Hm & Hd & H). destruct m as [|[p|p|]|]; try lia;
    destruct r, s; cbn in *; repeat split; try lia.
Qed.

Lemma located_iter p : forall x num den, located x num den -> located (iter_pos shr_1 p x) num (2 ^ Z.pos p * den).
Proof.
  induction p as [p IH|p IH|]; intros x num den H; cbn [iter_pos].
  - replace (2 ^ Z.pos p~1 * den) with (2 ^ Z.pos p * (2 ^ Z.pos p * (2 * den))).
    + apply IH, IH, located_shift, H.
    + replace (Z.pos p~1) with (Z.pos p + Z.pos p + 1) by lia. rewrite !Z.pow_add_r by lia. ring.
  - replace (2 ^ Z.pos p~0 * den) with (2 ^ Z.pos p * (2 ^ Z.pos p * den)).
    + apply IH, IH, H.
    + replace (Z.pos p~0) with (Z.pos p + Z.pos p) by lia. rewrite Z.pow_add_r by lia. ring.
  - apply located_shift, H.
Qed.

Lemma located_shr x e n num den :
  located x num den -> located (fst (shr x e n)) num (2 ^ Z.max 0 n * den) /\ snd (shr x e n) = e + Z.max 0 n.
Proof.
  intros H. destruct n as [|p|p].
  - change (located x num (1 * den) /\ e = e + 0). by rewrite Z.mul_1_l, Z.add_0_r.
  - cbn [shr fst snd]. rewrite Z.max_r by lia. split; [by apply located_iter | done].
  - change (located x num (1 * den) /\ e = e + 0). by rewrite Z.mul_1_l, Z.add_0_r.
Qed.

Lemma located_exact m : 0 <= m -> located (shr_record_of_loc m loc_Exact) m 1.
Proof. cbn. lia. Qed.

Lemma new_location_eq d r :
  new_location d r =
  if r =? 0 then loc_Exact
  else loc_Inexact (if Z.even d then 2 * r ?= d else match 2 * r + 1 ?= d with Gt => Gt | _ => Lt end).
Proof. unfold new_location, new_location_even, new_location_odd. change IntDef.Z.even with Z.even. by destruct (Z.even d). Qed.

(** The remainder of a division locates the quotient. *)
Lemma located_div m d :
  0 <= m -> 0 < d -> located (shr_record_of_loc (m / d) (new_location d (m mod d))) m d.
Proof.
  intros Hm Hd. assert (H : m = d * (m / d) + m mod d) by (apply Z.div_mod; lia).
  pose proof (Z.mod_pos_bound m d Hd) as Hr. assert (Hq : 0 <= m / d) by (apply Z.div_pos; lia).
  revert H Hr Hq. generalize (m / d), (m mod d). intros q r -> Hr Hq. rewrite new_location_eq.
  destruct (Z.eqb_spec r 0) as [->|E]; [cbn; lia|]. destruct (Z.even d) eqn:Ev.
  - destruct (Z.compare_spec (2 * r) d); cbn; lia.
  - assert (2 * r <> d) by (intros <-; rewrite Z.even_mul in Ev; discriminate).
    destruct (Z.compare_spec (2 * r + 1) d); cbn; lia.
Qed.

(** Rounding to nearest is off by at most a half. *)
Lemma nearest x num den :
  located x num den ->
  let M := round_nearest_even (shr_m x) (loc_of_shr_record x) in
  0 <= M /\ shr_m x <= M <= shr_m x + 1 /\ Z.abs (2 * (M * den - num)) <= den.
Proof.
  destruct x as [m r s]. intros (Hm & Hd & H). destruct r, s; cbn in *; try (destruct (Z.even m)); nia.
Qed.

(** ** Rounding a positive number below 2^47 *)

Lemma digits_log2 p : Z.pos (digits2_pos p) = Z.log2 (Z.pos p) + 1.
Proof. induction p as [p IH|p IH|]; cbn [digits2_pos]; [| |done]; rewrite Pos2Z.inj_succ, IH;
  [rewrite Pos2Z.inj_xI, Z.log2_succ_double | rewrite Pos2Z.inj_xO, Z.log2_double]; lia.
Qed.

Lemma digits2 m : 0 < m -> Zdigits2 m = Z.log2 m + 1.
Proof. destruct m; try lia. intros _. apply digits_log2. Qed.

Lemma located_floor x num den : located x num den -> shr_m x * den <= num < (shr_m x + 1) * den.
Proof. destruct x as [m r s]. intros (Hm & Hd & H). destruct r, s; cbn in *; lia. Qed.

Abbreviation round64 := (binary_round_aux 53 1024 false).

(** The mantissa of 53 bits that the shift leaves. *)
Lemma mantissa m l num den x n :
  0 < m -> located (shr_record_of_loc m l) num den -> n = Z.log2 m - 52 -> 0 <= n ->
  located x num (2 ^ n * den) -> 2 ^ 52 <= shr_m x < 2 ^ 53.
Proof.
  intros Hm H -> Hn Hx. apply located_floor in H as H1. apply located_floor in Hx as H2.
  assert (E : shr_m (shr_record_of_loc m l) = m) by (destruct l as [|[]]; done). rewrite E in H1.
  assert (0 < den) by (destruct l as [|[]]; apply H). pose proof (Z.log2_spec m Hm) as [Hl Hu].
  rewrite <- Z.add_1_r in Hu.
  replace (Z.log2 m) with (Z.log2 m - 52 + 52) in Hl by lia.
  replace (Z.log2 m + 1) with (Z.log2 m - 52 + 53) in Hu by lia.
  rewrite Z.pow_add_r in Hl, Hu by lia. set (P := 2 ^ (Z.log2 m - 52)) in *.
  assert (0 < P) by (apply Z.pow_pos_nonneg; lia). set (c := shr_m x) in *.
  split; [assert (2 ^ 52 * P * den < (c + 1) * (P * den)) | assert (c * (P * den) < 2 ^ 53 * P * den)]; nia.
Qed.

(** A mantissa of 53 bits is kept, and 2^53 is halved once more. *)
Lemma shr_keep M e : 2 ^ 52 <= M < 2 ^ 53 -> - 1000 <= e -> shr_fexp 53 1024 M e loc_Exact = (Build_shr_record M false false, e).
Proof.
  intros HM He. unfold shr_fexp, fexp, emin. rewrite digits2 by lia.
  assert (E : Z.log2 M = 52) by (apply Z.log2_unique; [lia | change (Z.succ 52) with 53; lia]). rewrite E. corelib.
  by replace (Z.max (52 + 1 + e - 53) (3 - 1024 - 53) - e) with 0 by lia.
Qed.

Lemma renormalise M s :
  2 ^ 52 <= M <= 2 ^ 53 -> 6 <= s <= 1000 ->
  exists p e, shr_fexp 53 1024 M (- s) loc_Exact = (Build_shr_record (Z.pos p) false false, e) /\ e < 0 /\
    Z.pos p * 2 ^ (s + e) = M /\ - s <= e.
Proof.
  intros HM Hs. destruct (Z.eq_dec M (2 ^ 53)) as [->|Hne].
  - unfold shr_fexp, fexp, emin. rewrite digits2 by lia. exists (Z.to_pos (2 ^ 52)), (1 - s). change (Z.log2 (2 ^ 53)) with 53.
    corelib.
    replace (Z.max (53 + 1 + - s - 53) (3 - 1024 - 53) - - s) with 1 by lia.
    cbn [shr iter_pos]. change (shr_1 (shr_record_of_loc (2 ^ 53) loc_Exact)) with (Build_shr_record (2 ^ 52) false false).
    replace (s + (1 - s)) with 1 by lia. replace (IntDef.Z.add (- s) 1) with (1 - s) by (change (IntDef.Z.add (- s) 1) with (- s + 1); lia).
    repeat split; lia.
  - rewrite shr_keep by lia. exists (Z.to_pos M), (- s). destruct M as [|p|p]; try lia. cbn [Z.to_pos].
    replace (s + - s) with 0 by lia. repeat split; lia.
Qed.

Lemma floor_scaled p s e : 0 < s -> e < 0 -> - s <= e -> Z.pos p / 2 ^ (- e) = (Z.pos p * 2 ^ (s + e)) / 2 ^ s.
Proof.
  intros Hs He Hse. assert (Es : 2 ^ s = 2 ^ (- e) * 2 ^ (s + e)) by (rewrite <- Z.pow_add_r by lia; f_equal; lia). rewrite Es.
  rewrite Z.div_mul_cancel_r; [done | (apply Z.pow_nonzero; lia) ..].
Qed.

Lemma ceil_scaled p s e :
  0 < s -> e < 0 -> - s <= e -> (- Z.pos p) / 2 ^ (- e) = (- (Z.pos p * 2 ^ (s + e))) / 2 ^ s.
Proof.
  intros Hs He Hse. assert (Es : 2 ^ s = 2 ^ (- e) * 2 ^ (s + e)) by (rewrite <- Z.pow_add_r by lia; f_equal; lia). rewrite Es.
  rewrite <- Z.mul_opp_l, Z.div_mul_cancel_r; [done | (apply Z.pow_nonzero; lia) ..].
Qed.

(** [M / 2^s] is the rounded value of [num / den * 2^e]. *)
Definition rounds_to (f : float) (M s : Z) : Prop :=
  int_of_float f = Ok (M / 2 ^ s) /\ ceil_of_float f = Ok (- ((- M) / 2 ^ s)).

Lemma round_spec m e l num den s :
  0 < m -> located (shr_record_of_loc m l) num den ->
  52 <= Z.log2 m -> s = 52 - (Z.log2 m + e) -> 6 <= s <= 1000 ->
  exists M, rounds_to (round64 m e l) M s /\ 2 ^ 52 <= M <= 2 ^ 53 /\
    let den' := 2 ^ (Z.log2 m - 52) * den in Z.abs (2 * (M * den' - num)) <= den'.
Proof.
  intros Hm H Hl -> Hs. set (s := 52 - (Z.log2 m + e)) in *. set (n := Z.log2 m - 52).
  assert (Hn : IntDef.Z.sub (fexp 53 1024 (IntDef.Z.add (Zdigits2 m) e)) e = n).
  { rewrite digits2 by done. unfold fexp, emin.
    corelib. lia. }
  unfold binary_round_aux. unfold shr_fexp at 1. rewrite Hn.
  pose proof (located_shr _ e n _ _ H) as [Hx He]. rewrite Z.max_r in Hx, He by lia.
  destruct (shr (shr_record_of_loc m l) e n) as [x e1]. cbn [fst snd] in Hx, He.
  pose proof (mantissa _ _ _ _ x n Hm H eq_refl ltac:(lia) Hx) as Hx1.
  destruct (nearest _ _ _ Hx) as (_ & HM & Hhalf). set (M := round_nearest_even _ _) in *.
  replace e1 with (- s) by lia. destruct (renormalise M s ltac:(lia) Hs) as (p & e2 & -> & He2 & Hp & Hse).
  cbn [shr_m]. change (IntDef.Z.leb e2 (IntDef.Z.sub 1024 53)) with (e2 <=? 971).
  rewrite (proj2 (Z.leb_le e2 971)) by lia. exists M. split; [|split; [lia|exact Hhalf]]. unfold rounds_to, ceil_of_float, int_of_float.
  rewrite (proj2 (Z.leb_gt 0 e2)) by lia. rewrite floor_scaled with (s := s), ceil_scaled with (s := s), Hp by lia. done.
Qed.

(** A positive integer below 2^53 is converted exactly. *)
Lemma iter_double p d : Z.pos (Pos.iter xO p d) = Z.pos p * 2 ^ Z.pos d.
Proof.
  induction d as [|d IH] using Pos.peano_ind; [cbn; lia|].
  rewrite Pos.iter_succ, Pos2Z.inj_xO, IH, Pos2Z.inj_succ, Z.pow_succ_r by lia. ring.
Qed.

Lemma int_exact n :
  0 < n < 2 ^ 53 ->
  exists p k, float_of_int n = Ok (S754_finite false p (- k)) /\ 0 <= k <= 52 /\ 2 ^ 52 <= Z.pos p < 2 ^ 53 /\
    Z.pos p = n * 2 ^ k.
Proof.
  intros [Hn Hu]. pose proof (Z.log2_nonneg n). assert (Hl : Z.log2 n < 53) by (apply Z.log2_lt_pow2; lia).
  pose proof (Z.log2_spec n Hn) as [Hlo Hhi]. destruct n as [|q|q]; try lia. set (k := 52 - Z.log2 (Z.pos q)).
  assert (Hsh : shl_align q 0 (- k) = match k with Z.pos d => (Pos.iter xO q d, - k) | _ => (q, 0) end)
    by (unfold shl_align; change (IntDef.Z.sub (- k) 0) with (- k - 0); rewrite Z.sub_0_r; destruct k; cbn; done).
  assert (Hp : exists p, shl_align q 0 (- k) = (p, - k) /\ Z.pos p = Z.pos q * 2 ^ k).
  { rewrite Hsh. destruct k as [|d|d] eqn:E; [exists q; split; [done | lia] | exists (Pos.iter xO q d) | lia].
    split; [done | apply iter_double]. }
  destruct Hp as (p & Hal & Hp).
  assert (HM : 2 ^ 52 <= Z.pos p < 2 ^ 53).
  { rewrite Hp. change (2 ^ 53) with (2 ^ Z.succ 52). replace 52 with (Z.log2 (Z.pos q) + k) by lia.
    rewrite <- Z.add_succ_l, !Z.pow_add_r by lia. split; [apply Z.mul_le_mono_nonneg_r | apply Z.mul_lt_mono_pos_r]; lia. }
  exists p, k. split; [|split; [lia | done]].
  unfold float_of_int, binary_normalize, binary_round. rewrite digits_log2.
  replace (fexp 53 1024 (IntDef.Z.add (Z.log2 (Z.pos q) + 1) 0)) with (- k) by (unfold fexp, emin; corelib; lia).
  rewrite Hal. unfold binary_round_aux. rewrite shr_keep by lia. cbn [shr_m loc_of_shr_record round_nearest_even].
  rewrite shr_keep by lia. cbn [shr_m]. change (IntDef.Z.leb (- k) (IntDef.Z.sub 1024 53)) with (- k <=? 971).
  by rewrite (proj2 (Z.leb_le (- k) 971)) by lia.
Qed.

(** ** Products and quotients of an amount and a constant *)

Lemma abs_scale a D S a' T K :
  0 < S -> 0 < K -> a * S = a' * K -> D * S = T * K -> Z.abs a <= D -> Z.abs a' <= T.
Proof. intros HS HK Ha HD H. apply Z.abs_le in H. apply Z.abs_le. nia. Qed.

(** The mantissa [L] has 53 bits, as a normalised constant has. *)
Section Constant.
Context (L : positive) (t n : Z).
Hypothesis HL : 2 ^ 52 <= Z.pos L < 2 ^ 53.
Hypothesis Ht : 0 <= t <= 900.
Hypothesis Hn : 0 < n < 2 ^ 53.

Lemma product_spec :
  n * Z.pos L < 2 ^ (47 + t) ->
  exists f M s, mul_int_float n (S754_finite false L (- t)) = Ok f /\ rounds_to f M s /\
    6 <= s /\ 2 ^ 52 <= M <= 2 ^ 53 /\ Z.abs (2 * (M * 2 ^ t - n * Z.pos L * 2 ^ s)) <= 2 ^ t.
Proof.
  intros HV. destruct (int_exact n Hn) as (p & k & Hf & Hk & HP & Hp).
  assert (Hk2 : 0 < 2 ^ k) by (apply Z.pow_pos_nonneg; lia).
  set (m := Z.pos (p * L)). assert (Hm : m = Z.pos p * Z.pos L) by done.
  assert (Hlo : 104 <= Z.log2 m) by (apply Z.log2_le_pow2; nia).
  assert (Hhi : Z.log2 m < 47 + t + k) by (apply Z.log2_lt_pow2; [lia|]; rewrite Z.pow_add_r by lia; nia).
  set (s := 52 - (Z.log2 m + (- k + - t))).
  destruct (round_spec m (- k + - t) loc_Exact m 1 s) as (M & HM & Hb & Hh);
    [lia | by apply located_exact | lia | done | lia |].
  exists (round64 m (- k + - t) loc_Exact), M, s. unfold mul_int_float. rewrite Hf.
  do 2 (split; [done|]). split; [lia|]. split; [done|]. cbv zeta in Hh. rewrite Z.mul_1_r in Hh.
  assert (E : 2 ^ (Z.log2 m - 52) * 2 ^ s = 2 ^ t * 2 ^ k) by (rewrite <- !Z.pow_add_r by lia; f_equal; lia).
  assert (0 < 2 ^ s) by (apply Z.pow_pos_nonneg; lia).
  set (D := 2 ^ (Z.log2 m - 52)) in *. set (K := 2 ^ k) in *. set (S2 := 2 ^ s) in *. set (T := 2 ^ t) in *.
  refine (abs_scale _ D S2 _ _ K _ _ _ E Hh); [done | done |]. clearbody D S2. rewrite Hm, Hp.
  transitivity (2 * (M * (D * S2) - n * K * Z.pos L * S2)); [|rewrite E]; ring.
Qed.

Lemma quotient_spec :
  n * 2 ^ t < 2 ^ 47 * Z.pos L ->
  exists f M s, div_int_float n (S754_finite false L (- t)) = Ok f /\ rounds_to f M s /\
    6 <= s /\ 2 ^ 52 <= M <= 2 ^ 53 /\ Z.abs (2 * (M * Z.pos L - n * 2 ^ t * 2 ^ s)) <= Z.pos L.
Proof.
  intros HV. destruct (int_exact n Hn) as (p & k & Hf & Hk & HP & Hp).
  assert (Hk2 : 0 < 2 ^ k) by (apply Z.pow_pos_nonneg; lia).
  set (m := Z.pos p * 2 ^ 53). set (e := t - k - 53).
  assert (Hcore : SFdiv_core_binary 53 1024 (Z.pos p) (- k) (Z.pos L) (- t) = (m / Z.pos L, e, new_location (Z.pos L) (m mod Z.pos L))).
  { unfold SFdiv_core_binary. rewrite !digits2 by lia.
    rewrite (Z.log2_unique (Z.pos p) 52), (Z.log2_unique (Z.pos L) 52) by (change (Z.succ 52) with 53; lia).
    unfold fexp, emin. corelib.
    replace (Z.min (Z.max (52 + 1 + - k - (52 + 1 + - t) - 53) (3 - 1024 - 53)) (- k - - t)) with e by lia.
    replace (- k - - t - e) with 53 by lia. change (IntDef.Z.shiftl (Z.pos p) 53) with (Z.shiftl (Z.pos p) 53).
    rewrite Z.shiftl_mul_pow2 by lia. fold m. unfold Z.div, Z.modulo. change IntDef.Z.div_eucl with Z.div_eucl.
    by destruct (Z.div_eucl m (Z.pos L)). }
  set (q := m / Z.pos L) in *. assert (Hq : 2 ^ 52 <= q) by (apply Z.div_le_lower_bound; lia).
  assert (Hqm : Z.pos L * q <= m) by (apply Z.mul_div_le; lia).
  assert (Hlo : 52 <= Z.log2 q) by (apply Z.log2_le_pow2; lia).
  assert (Hhi : Z.log2 q + t < 100 + k).
  { assert (2 ^ (Z.log2 q) <= q) by (apply Z.log2_spec; lia). assert (0 < 2 ^ t) by (apply Z.pow_pos_nonneg; lia).
    apply (Z.pow_lt_mono_r_iff 2); [lia ..|]. rewrite (Z.pow_add_r 2 (Z.log2 q)), Z.pow_add_r by lia.
    apply Z.mul_lt_mono_pos_l with (Z.pos L); [lia|]. unfold m in Hqm. rewrite Hp in Hqm.
    set (T := 2 ^ t) in *. set (K := 2 ^ k) in *. set (W := 2 ^ Z.log2 q) in *.
    apply Z.le_lt_trans with (n * K * 2 ^ 53 * T).
    - transitivity (Z.pos L * q * T); [rewrite Z.mul_assoc|]; apply Z.mul_le_mono_nonneg_r; nia.
    - replace (n * K * 2 ^ 53 * T) with ((n * T) * (2 ^ 53 * K)) by ring.
      replace (Z.pos L * (2 ^ 100 * K)) with ((2 ^ 47 * Z.pos L) * (2 ^ 53 * K)) by ring.
      apply Z.mul_lt_mono_pos_r; lia. }
  set (s := 52 - (Z.log2 q + e)).
  destruct (round_spec q e (new_location (Z.pos L) (m mod Z.pos L)) m (Z.pos L) s) as (M & HM & Hb & Hh);
    [lia | apply located_div; lia | lia | done | lia |].
  exists (round64 q e (new_location (Z.pos L) (m mod Z.pos L))), M, s. unfold div_int_float. rewrite Hf.
  split; [cbn; by rewrite Hcore|]. split; [done|]. split; [lia|]. split; [done|]. cbv zeta in Hh.
  assert (E : 2 ^ (Z.log2 q - 52) * (2 ^ s * 2 ^ t) = 2 ^ 53 * 2 ^ k) by (rewrite <- !Z.pow_add_r by lia; f_equal; lia).
  assert (0 < 2 ^ s) by (apply Z.pow_pos_nonneg; lia). assert (0 < 2 ^ t) by (apply Z.pow_pos_nonneg; lia).
  set (D := 2 ^ (Z.log2 q - 52)) in *. set (K := 2 ^ k) in *. set (S2 := 2 ^ s) in *. set (T := 2 ^ t) in *.
  refine (abs_scale _ _ (S2 * T) _ _ (2 ^ 53 * K) _ _ _ _ Hh); [nia | nia | | rewrite <- E; ring].
  unfold m. rewrite Hp. rewrite <- E.
  transitivity (2 * (M * (D * (S2 * T)) * Z.pos L - n * T * S2 * (2 ^ 53 * K))); [|rewrite <- E]; ring.
Qed.
End Constant.

(** ** The constants of the bootstrap planner on amounts below 2^45 *)

Lemma floor_is M N a : 0 < N -> a * N <= M < (a + 1) * N -> M / N = a.
Proof. intros HN H. symmetry. apply (Z.div_unique_pos _ _ _ (M - a * N)); lia. Qed.

Lemma ceil_is M N c : 0 < N -> (c - 1) * N < M <= c * N -> - ((- M) / N) = c.
Proof. intros HN H. rewrite (floor_is (- M) N (- c)); lia. Qed.

(** [p n = q a + r], scaled by [N]. *)
Lemma scaled_div x q N : 0 < q -> 0 < N ->
  exists r, x * N = q * (x / q * N) + r /\ 0 <= r <= (q - 1) * N.
Proof.
  intros Hq HN. exists (x mod q * N). pose proof (Z.mod_pos_bound x q Hq).
  split; [rewrite (Z.div_mod x q) at 1 by lia; ring | nia].
Qed.

(** Concludes from the rounding inequality and the remainder of the exact
    division of [x] by [q], linear in the products with [N = 2^s]. *)
Ltac exact_by n x q :=
  match goal with
  | H : rounds_to _ ?M ?s, Hh : Z.abs _ <= _ |- _ =>
      let N := fresh "N" in let HN := fresh "HN" in
      rewrite bind_of_Ok; first [rewrite (proj1 H) | rewrite (proj2 H)]; f_equal;
      assert (HN : 0 < 2 ^ s) by (apply Z.pow_pos_nonneg; lia);
      destruct (scaled_div x q (2 ^ s) ltac:(lia) HN) as (? & ? & ?);
      set (N := 2 ^ s) in *; first [apply floor_is | apply ceil_is]; [done|];
      assert (n * N <= 2 ^ 45 * N) by (apply Z.mul_le_mono_nonneg_r; lia); apply Z.abs_le in Hh; lia
  end.

Abbreviation routing_factor := (SFadd 53 1024 (literal 1 1) (literal 3 100)).

Lemma percent_exact n : 0 <= n < 2 ^ 45 -> (f ← mul_int_float n (literal 1 100); int_of_float f) = Ok (n / 100).
Proof.
  intros Hn. destruct (Z.eq_dec n 0) as [->|H0]; [done|].
  change (literal 1 100) with (S754_finite false 5764607523034235 (- (59))).
  destruct (product_spec 5764607523034235 59 n) as (f & M & s & -> & HM & Hs & HM' & Hh); [lia ..|]. exact_by n n 100.
Qed.

Lemma fee_exact n : 0 <= n < 2 ^ 45 -> (f ← mul_int_float n (literal 25 10000); ceil_of_float f) = Ok (- ((- n) / 400)).
Proof.
  intros Hn. destruct (Z.eq_dec n 0) as [->|H0]; [done|].
  change (literal 25 10000) with (S754_finite false 5764607523034235 (- (61))).
  destruct (product_spec 5764607523034235 61 n) as (f & M & s & -> & HM & Hs & HM' & Hh); [lia ..|]. exact_by n (- n) 400.
Qed.

Lemma routed_exact n : 0 <= n < 2 ^ 45 -> (f ← mul_int_float n routing_factor; ceil_of_float f) = Ok (- ((- (103 * n)) / 100)).
Proof.
  intros Hn. destruct (Z.eq_dec n 0) as [->|H0]; [done|].
  change routing_factor with (S754_finite false 4638707616191611 (- (52))).
  destruct (product_spec 4638707616191611 52 n) as (f & M & s & -> & HM & Hs & HM' & Hh); [lia ..|].
  exact_by n (- (103 * n)) 100.
Qed.

Lemma drain_exact n : 0 <= n < 2 ^ 45 -> (f ← div_int_float n routing_factor; int_of_float f) = Ok (100 * n / 103).
Proof.
  intros Hn. destruct (Z.eq_dec n 0) as [->|H0]; [done|].
  change routing_factor with (S754_finite false 4638707616191611 (- (52))).
  destruct (quotient_spec 4638707616191611 52 n) as (f & M & s & -> & HM & Hs & HM' & Hh); [lia ..|].
  exact_by n (100 * n) 103.
Qed.
