(* ===== verification/ChannelMix.v ===== *)
(** * The channel-mix planner

    services/channel_mix_planner.py up to [plan_channel_mix], with the part of
    small_channel_peers.py it reads. The runtime catalog, the Unicode case
    mapping, the draws of [random.Random] and the C library's [pow] are
    parameters; the numbers of a fee payload are integers or floats. A warning
    is the constructor of its text with the values the text shows. *)
From S2P Require Import Prelude Bytes PyFloat Utf8 Json PyJson.

(** ** small_channel_peers.py *)

Record PeerPolicy := mkPolicy {
  fee_base_msat : Z; fee_rate_milli_msat : Z; min_htlc_msat : Z; time_lock_delta : Z; max_htlc_msat : Z
}.

Record PeerCaveat := mkCaveat { kind : ustr; detail : list (ustr * json) }.

Record SmallChannelPeer := mkPeer {
  alias : ustr; node_id_hex : ustr; address : ustr; tor_address : option ustr; network : ustr;
  min_channel_size_sats : Z;
  channels_count : Z; capacity_btc : float; top_20_hub_connections : Z; outbound_enabled_ratio : option float;
  typical : PeerPolicy; fee_tier : ustr; connectivity_tier : ustr; location : ustr; tags : list ustr; summary : ustr;
  verified_at : ustr; funding_txid : ustr; caveats : list PeerCaveat
}.

Global Instance float_eq_dec : EqDecision float.
Proof. solve_decision. Defined.
Global Instance PeerPolicy_eq_dec : EqDecision PeerPolicy.
Proof. solve_decision. Defined.
Global Instance PeerCaveat_eq_dec : EqDecision PeerCaveat.
Proof. solve_decision. Defined.
Global Instance SmallChannelPeer_eq_dec : EqDecision SmallChannelPeer.
Proof. solve_decision. Defined.

(** The operations on floats that a comparison or [max] uses; [1.0 / f] by
    zero raises. *)
Definition float_max (a b : float) : float := if SFltb a b then b else a.
Definition float_min (a b : float) : float := if SFltb b a then b else a.
Definition float_add := SFadd 53 1024.
Definition float_mul := SFmul 53 1024.
Definition float_div (a b : float) : result float :=
  match b with S754_zero _ => Err ZeroDivisionError | _ => Ok (SFdiv 53 1024 a b) end.
Definition zero : float := S754_zero false.
Definition one : float := literal 1 1.

(** ** Constants *)

Definition VBYTES_PER_CHANNEL_OPEN : Z := 250.
Definition CLOSE_RESERVE_FIRST_CHANNEL_SATS : Z := 25000.
Definition CLOSE_RESERVE_ADDITIONAL_CHANNEL_SATS : Z := 10000.
Definition FEE_SPIKE_CUSHION_PCT : float := literal 1 2.
Definition FEE_SPIKE_CUSHION_FLOOR_SATS : Z := 10000.
Definition FUTURE_CHANNEL_SLOT_SATS : Z := 250000.
Definition FALLBACK_SAT_PER_VB : float := literal 20 1.
Definition PER_CHANNEL_FLOOR_SATS : Z := 150000.
Definition MAX_CHANNELS_PER_PLAN : Z := 6.
Definition MULTI_CHANNEL_MIN_SATS : Z := 2 * PER_CHANNEL_FLOOR_SATS.

(** ** Records *)

Record Breakdown := mkBreakdown {
  channel_capacity_sats : Z; open_fees_sats : Z; b_close_reserve_sats : Z; fee_spike_cushion_sats : Z;
  future_channel_slot_sats : Z
}.

Inductive InboundSeedStrategy := boltz_reverse | push_only | rebalance_from.

Record ChannelOpen := mkChannelOpen {
  peer : SmallChannelPeer; capacity : Z; push_sat : Z; expected_inbound_seed_sats : Z;
  inbound_seed_strategy : InboundSeedStrategy
}.

Inductive warning :=
  | W_reduced (peers requested : Z)
  | W_no_peers
  | W_below_floor
  | W_oracle_none
  | W_oracle_raised (name : ustr)
  | W_oracle_error (err : option ustr)
  | W_oracle_keys
  | W_boltz_down
  | W_skipped (n : Z)
  | W_marginal (who : ustr)
  | W_bootstrap_boltz_down
  | W_bootstrap_no_peers
  | W_short (inbound rounds cap target : Z)
  | W_deposit_low (deposit floor : Z)
  | W_reused (peers rounds cap : Z)
  | W_takes (hours rounds fees : Z).

Record PlanDiagnostics := mkDiagnostics {
  warnings : list warning; fee_rate_sat_vb_medium : float; fee_rate_sat_vb_high : float;
  catalog_snapshot_date : ustr; diversity_axes_satisfied : list string
}.

Record Plan := mkPlan {
  minimum_sats : Z; recommended_sats : Z; breakdown : Breakdown; per_channel : list ChannelOpen;
  diagnostics : PlanDiagnostics
}.

Inductive PeerMixMode := recommended_diverse | cheapest_only | manual_picks.
Inductive OutboundOption := receive_heavy | balanced | send_heavy | custom.

Global Instance PeerMixMode_eq_dec : EqDecision PeerMixMode.
Proof. solve_decision. Defined.

(** ** Channel count and capacities *)

Definition derive_channel_count (target : Z) : Z :=
  if target <=? 0 then 0
  else if target <? MULTI_CHANNEL_MIN_SATS then 1
  else Z.max 1 (Z.min (target / PER_CHANNEL_FLOOR_SATS) MAX_CHANNELS_PER_PLAN).

Definition close_reserve_sats (channel_count : Z) : Z :=
  if channel_count <=? 0 then 0
  else CLOSE_RESERVE_FIRST_CHANNEL_SATS + (channel_count - 1) * CLOSE_RESERVE_ADDITIONAL_CHANNEL_SATS.

Definition allocate_capacity (target channel_count : Z) : list Z :=
  if (channel_count <=? 0) || (target <=? 0) then []
  else
    let per := target / channel_count in
    if per <? PER_CHANNEL_FLOOR_SATS then
      let affordable := target / PER_CHANNEL_FLOOR_SATS in
      if affordable <=? 0 then []
      else
        let rem := target - affordable * PER_CHANNEL_FLOOR_SATS in
        PER_CHANNEL_FLOOR_SATS + rem :: replicate (Z.to_nat (affordable - 1)) PER_CHANNEL_FLOOR_SATS
    else
      let rem := target - per * channel_count in
      per + rem :: replicate (Z.to_nat (channel_count - 1)) per.

(** ** Seeding inbound liquidity *)

Definition derive_seed (inbound_ratio : float) (boltz_available : bool) (cap : Z) : result (Z * Z * InboundSeedStrategy) :=
  f ← mul_int_float cap inbound_ratio;
  inbound_target ← int_of_float f;
  if negb boltz_available then
    let push := Z.min inbound_target (cap / 2) in
    Ok (push, Z.max 0 (inbound_target - push), push_only)
  else
    let push := Z.min (inbound_target / 2) (cap / 4) in
    Ok (push, Z.max 0 (inbound_target - push), boltz_reverse).

Definition derive_seed_plan (capacities : list Z) (inbound_ratio : float) (boltz_available : bool)
    : result (list (Z * Z * InboundSeedStrategy)) :=
  mapR (derive_seed (float_max zero (float_min one inbound_ratio)) boltz_available) capacities.

Definition _inbound_ratio_for_option (option : OutboundOption) (custom_inbound_pct : Datatypes.option float) : float :=
  match option, custom_inbound_pct with
  | receive_heavy, _ => literal 3 4
  | send_heavy, _ => literal 1 4
  | custom, Some pct => float_max zero (float_min one (SFdiv 53 1024 pct (literal 100 1)))
  | _, _ => literal 1 2
  end.

(** ** Fees *)

Inductive fee_number := NInt (n : Z) | NFloat (f : float).

Definition fee_truthy (v : fee_number) : bool :=
  match v with NInt n => negb (n =? 0) | NFloat (S754_zero _) => false | NFloat _ => true end.

(** [a or b] of two optional numbers *)
Definition or_number (a b : option fee_number) : option fee_number :=
  match a with Some v => if fee_truthy v then Some v else b | None => b end.

Definition float_of_number (v : fee_number) : result float :=
  match v with NInt n => float_of_int n | NFloat f => Ok f end.

Definition opt_float (v : option fee_number) : result (option float) :=
  match v with Some v => Some <$> float_of_number v | None => Ok None end.

(** An integer too large for a float raises past the handler. *)
Definition _extract_fee_rates (payload : list (ustr * fee_number)) : result (option float * option float) :=
  let medium := or_number (assoc (u "halfHourFee") payload) (assoc (u "hourFee") payload) in
  let high := or_number (assoc (u "fastestFee") payload) medium in
  m ← opt_float medium; h ← opt_float high; Ok (m, h).

(** What the awaited oracle does. *)
Inductive oracle_outcome :=
  | Raised (name : ustr)
  | Returned (data : option (list (ustr * fee_number))) (error : option ustr).

Definition _resolve_fee_rates (fee_oracle : option oracle_outcome) : result (float * float * list warning) :=
  let fallback w := Ok (FALLBACK_SAT_PER_VB, FALLBACK_SAT_PER_VB, [w]) in
  match fee_oracle with
  | None => fallback W_oracle_none
  | Some (Raised name) => fallback (W_oracle_raised name)
  | Some (Returned data error) =>
      match data with
      | Some data =>
          if nonempty error then fallback (W_oracle_error error)
          else
            rates ← _extract_fee_rates data;
            match rates with
            | (Some medium, Some high) => Ok (medium, high, [])
            | _ => fallback W_oracle_keys
            end
      | None => fallback (W_oracle_error (if nonempty error then error else None))
      end
  end.

Definition _open_fee_sats (channel_count : Z) (sat_per_vb : float) : result Z :=
  f ← mul_int_float (channel_count * VBYTES_PER_CHANNEL_OPEN) sat_per_vb; ceil_of_float f.

Definition _fee_spike_cushion_sats (open_fee_at_medium open_fee_at_high : Z) : result Z :=
  f ← mul_int_float open_fee_at_medium FEE_SPIKE_CUSHION_PCT;
  proportional ← ceil_of_float f;
  let delta_to_high := Z.max 0 (open_fee_at_high - open_fee_at_medium) in
  Ok (Z.max (Z.max FEE_SPIKE_CUSHION_FLOOR_SATS proportional) delta_to_high).

(** ** Peer selection *)

(** A sort key: a tuple, nested tuples flattened since the shapes agree. *)
Inductive key_part := KInt (n : Z) | KFloat (f : float).

Definition part_eqb (a b : key_part) : bool :=
  match a, b with KInt m, KInt n => m =? n | KFloat f, KFloat g => SFeqb f g | _, _ => false end.

Definition part_ltb (a b : key_part) : bool :=
  match a, b with KInt m, KInt n => m <? n | KFloat f, KFloat g => SFltb f g | _, _ => false end.

Fixpoint key_ltb (a b : list key_part) : bool :=
  match a, b with
  | x :: a, y :: b => if part_eqb x y then key_ltb a b else part_ltb x y
  | [], _ :: _ => true
  | _, [] => false
  end.

(** [list.sort(key=...)]: stable, the keys computed once, in order. *)
Fixpoint insert_keyed {A} (x : list key_part * A) (l : list (list key_part * A)) : list (list key_part * A) :=
  match l with
  | [] => [x]
  | y :: l' => if key_ltb y.1 x.1 then y :: insert_keyed x l' else x :: l
  end.

Definition sort_keyed {A} (l : list (list key_part * A)) : list A := map snd (foldr insert_keyed [] l).

Section Selection.
Context (lower : ustr -> ustr) (SMALL_CHANNEL_PEERS : list SmallChannelPeer).
Context (random : bytes -> nat -> float) (pow : float -> float -> float).

Definition all_peers (net : ustr) : list SmallChannelPeer :=
  List.filter (fun p => bool_decide (network p = net)) SMALL_CHANNEL_PEERS.

Definition recommended_defaults (net : ustr) : list SmallChannelPeer :=
  List.filter (fun p => bool_decide (u "recommended_default" ∈ tags p)) (all_peers net).

Definition _peer_has_marginal_routing (p : SmallChannelPeer) : bool :=
  existsb (fun c => bool_decide (kind c = u "marginal_routing")) (caveats p).

Definition _peer_routing_health_score (p : SmallChannelPeer) : float :=
  match outbound_enabled_ratio p with
  | None => literal 1 2
  | Some r => SFsub 53 1024 one r
  end.

Definition _peer_ppm_score (p : SmallChannelPeer) : list key_part :=
  [KInt (fee_rate_milli_msat (typical p)); KInt (fee_base_msat (typical p))].

Definition _peer_weight (p : SmallChannelPeer) : result float :=
  let health := default (literal 1 2) (outbound_enabled_ratio p) in
  f ← float_of_int (fee_rate_milli_msat (typical p));
  r ← float_div f (literal 1000 1);
  q ← float_div one (float_add one r);
  Ok (float_max (literal 5 100) (float_mul q (float_add (literal 1 2) health))).

(** [rng] is [None] or a seed; [i] counts the draws made so far. *)
Definition _pref_key (p : SmallChannelPeer) (rng : option bytes) (i : nat) : result (list key_part * nat) :=
  match rng with
  | None => Ok (_peer_ppm_score p ++ [KFloat (_peer_routing_health_score p)], i)
  | Some seed =>
      w ← _peer_weight p;
      e ← float_div one w;
      Ok ([KFloat (SFopp (pow (random seed i) e))], S i)
  end.

Fixpoint contains_any (subs : list ustr) (s : ustr) : bool :=
  match subs with [] => false | x :: subs => infix x s || contains_any subs s end.

Definition _location_bucket (p : SmallChannelPeer) : ustr :=
  let loc := lower (location p) in
  if infix (u "russia") loc then u "ru"
  else if infix (u "germany") loc then u "de"
  else if contains_any [u "us"; u "linode us"; u "us-west"; u "us-east"] loc then u "us"
  else if contains_any [u "cape town"; u "af-south"] loc then u "af"
  else if contains_any [u "frankfurt"; u "eu-central"] loc then u "eu"
  else if infix (u "oregon") loc then u "us-west"
  else match take 8 loc with [] => u "_unknown" | b => b end.

(** [s.split(" ")[0]] *)
Fixpoint first_word (s : ustr) : ustr :=
  match s with
  | [] => []
  | c :: s => if c =? 32 then [] else c :: first_word s
  end.

Definition _operator_bucket (p : SmallChannelPeer) : ustr :=
  match lower (take 16 (first_word (strip (alias p)))) with
  | [] => take 16 (node_id_hex p)
  | b => b
  end.

Definition distinct (l : list ustr) : nat := length (remove_dups l).

Definition _diversity_axes (chosen : list SmallChannelPeer) : list string :=
  if (length chosen <? 2)%nat then []
  else
    (if (2 <=? distinct (map _location_bucket chosen))%nat then ["geographic"%string] else [])
    ++ (if (2 <=? distinct (map _operator_bucket chosen))%nat then ["operator"%string] else [])
    ++ (if (2 <=? distinct (map fee_tier chosen))%nat then ["fee_tier"%string] else []).

(** Keys of a list in order, with a prefix that depends on the peer. *)
Fixpoint keyed (prefix : SmallChannelPeer -> list key_part) (rng : option bytes) (i : nat) (l : list SmallChannelPeer)
    : result (list (list key_part * SmallChannelPeer) * nat) :=
  match l with
  | [] => Ok ([], i)
  | p :: l =>
      ki ← _pref_key p rng i;
      rest ← keyed prefix rng ki.2 l;
      Ok ((prefix p ++ ki.1, p) :: rest.1, rest.2)
  end.

Definition sort_peers (prefix : SmallChannelPeer -> list key_part) (rng : option bytes) (i : nat)
    (l : list SmallChannelPeer) : result (list SmallChannelPeer * nat) :=
  ks ← keyed prefix rng i l; Ok (sort_keyed ks.1, ks.2).

Definition int_of_bool (b : bool) : Z := if b then 1 else 0.

Definition diversity_prefix (chosen : list SmallChannelPeer) (p : SmallChannelPeer) : list key_part :=
  [KInt (int_of_bool (bool_decide (_location_bucket p ∈ map _location_bucket chosen)));
   KInt (int_of_bool (bool_decide (_operator_bucket p ∈ map _operator_bucket chosen)))].

(** The loop that fills the remaining slots; each turn takes one peer out of
    the pool. *)
Fixpoint fill_slots (fuel : nat) (rng : option bytes) (i : nat) (channel_count : Z) (chosen pool : list SmallChannelPeer)
    : result (list SmallChannelPeer) :=
  match fuel with
  | O => Ok chosen
  | S fuel =>
      if (Z.of_nat (length chosen) <? channel_count) && negb (bool_decide (pool = [])) then
        sorted ← sort_peers (diversity_prefix chosen) rng i pool;
        match sorted.1 with
        | p :: pool => fill_slots fuel rng sorted.2 channel_count (chosen ++ [p]) pool
        | [] => Err IndexError
        end
      else Ok chosen
  end.

Fixpoint pick_manual (catalog : list SmallChannelPeer) (include_marginal_routing : bool) (channel_count : Z)
    (picked : list SmallChannelPeer) (picks : list ustr) : list SmallChannelPeer :=
  match picks with
  | [] => picked
  | pub :: picks =>
      match list_find (fun p => lower (node_id_hex p) = lower pub) (reverse catalog) with
      | None => pick_manual catalog include_marginal_routing channel_count picked picks
      | Some (_, p) =>
          if _peer_has_marginal_routing p && negb include_marginal_routing
          then pick_manual catalog include_marginal_routing channel_count picked picks
          else
            let picked := picked ++ [p] in
            if channel_count <=? Z.of_nat (length picked) then picked
            else pick_manual catalog include_marginal_routing channel_count picked picks
      end
  end.

Definition select_peers (net : ustr) (channel_count : Z) (mode : PeerMixMode) (picks : list ustr)
    (include_marginal_routing : bool) (rng_seed : option bytes) : result (list SmallChannelPeer * list string) :=
  if channel_count <=? 0 then Ok ([], [])
  else
    let rng := match rng_seed with Some (_ :: _) => rng_seed | _ => None end in
    match mode with
    | manual_picks =>
        let picked := pick_manual (all_peers net) include_marginal_routing channel_count [] picks in
        Ok (picked, _diversity_axes picked)
    | cheapest_only =>
        match List.filter (fun p => negb (_peer_has_marginal_routing p)) (all_peers net) with
        | [] => Ok ([], [])
        | catalog =>
            sorted ← sort_peers (fun _ => []) rng 0 catalog;
            let chosen := take (Z.to_nat channel_count) sorted.1 in
            Ok (chosen, _diversity_axes chosen)
        end
    | recommended_diverse =>
        match List.filter (fun p => negb (_peer_has_marginal_routing p)) (all_peers net) with
        | [] => Ok ([], [])
        | catalog =>
            let starred := List.filter (fun p => negb (_peer_has_marginal_routing p)) (recommended_defaults net) in
            starred ← sort_peers (fun _ => []) rng 0 starred;
            let chosen := take 1 starred.1 in
            let pool := List.filter (fun p => negb (bool_decide (p ∈ chosen))) catalog in
            chosen ← fill_slots (S (length pool)) rng starred.2 channel_count chosen pool;
            Ok (chosen, _diversity_axes chosen)
        end
    end.

(** ** The plan *)

Definition zsum (l : list Z) : Z := foldr Z.add 0 l.

Fixpoint zip_channels (peers : list SmallChannelPeer) (capacities : list Z) (seeds : list (Z * Z * InboundSeedStrategy))
    : list ChannelOpen :=
  match peers, capacities, seeds with
  | p :: peers, c :: capacities, (push, seed, strategy) :: seeds =>
      mkChannelOpen p c push seed strategy :: zip_channels peers capacities seeds
  | _, _, _ => []
  end.

Definition plan_channel_mix (target_capacity_sats : Z) (outbound_option : OutboundOption) (peer_mix_mode : PeerMixMode)
    (net snapshot_date : ustr) (fee_oracle : option oracle_outcome) (boltz_available leave_room_for_one_more : bool)
    (custom_inbound_pct : option float) (picks : list ustr) (include_marginal_routing : bool) (rng_seed : option bytes)
    : result Plan :=
  let requested := derive_channel_count target_capacity_sats in
  sel ← select_peers net requested peer_mix_mode picks include_marginal_routing rng_seed;
  let '(selected, axes) := sel in
  let n := Z.of_nat (length selected) in
  let none := bool_decide (selected = []) in
  let reduced := negb none && (n <? requested) in
  let channel_count := if reduced then n else requested in
  let capacities := if none then [] else allocate_capacity target_capacity_sats channel_count in
  let below := negb none && bool_decide (capacities = []) in
  let peers := if below then [] else selected in
  rates ← _resolve_fee_rates fee_oracle;
  let '(medium, high, fee_warnings) := rates in
  let skipped := length (List.filter _peer_has_marginal_routing (all_peers net)) in
  open_fee_at_medium ← _open_fee_sats channel_count medium;
  open_fee_at_high ← _open_fee_sats channel_count high;
  let close_reserve := close_reserve_sats channel_count in
  fee_spike_cushion ← (if channel_count =? 0 then Ok 0 else _fee_spike_cushion_sats open_fee_at_medium open_fee_at_high);
  let future_slot := if leave_room_for_one_more && negb (channel_count =? 0) then FUTURE_CHANNEL_SLOT_SATS else 0 in
  seed_plan ← derive_seed_plan capacities (_inbound_ratio_for_option outbound_option custom_inbound_pct) boltz_available;
  let channels := zip_channels peers capacities seed_plan in
  let minimum := zsum capacities + open_fee_at_medium in
  let warned :=
    (if reduced then [W_reduced n requested] else [])
    ++ (if none then [W_no_peers] else [])
    ++ (if below then [W_below_floor] else [])
    ++ fee_warnings
    ++ (if boltz_available then [] else [W_boltz_down])
    ++ (if negb include_marginal_routing && negb (bool_decide (peer_mix_mode = manual_picks)) && negb (skipped =? 0)%nat
        then [W_skipped (Z.of_nat skipped)] else [])
    ++ (if include_marginal_routing
        then map (fun ch => W_marginal (alias (peer ch)))
               (List.filter (fun ch => _peer_has_marginal_routing (peer ch)) channels)
        else []) in
  Ok (mkPlan minimum (minimum + close_reserve + fee_spike_cushion + future_slot)
        (mkBreakdown (zsum capacities) open_fee_at_medium close_reserve fee_spike_cushion future_slot)
        channels (mkDiagnostics warned medium high snapshot_date axes)).
End Selection.
