(* ===== verification/ChannelMixPlan.v ===== *)
(** * What a channel-mix plan promises

    Peer selection takes distinct, healthy peers out of the catalog, as many as
    are asked for or as there are; the capacities of a plan add up to the
    target, none below the floor. *)
From S2P Require Import Prelude Bytes PyFloat Utf8 Json PyJson ChannelMix.

(** ** Sorting permutes *)

Lemma insert_keyed_perm {A} (x : list key_part * A) l : insert_keyed x l ≡ₚ x :: l.
Proof. induction l as [|y l IH]; [done|]. cbn. destruct (key_ltb _ _); [rewrite IH; apply Permutation_swap | done]. Qed.

Lemma sort_keyed_perm {A} (l : list (list key_part * A)) : sort_keyed l ≡ₚ map snd l.
Proof.
  unfold sort_keyed. apply Permutation_map.
  induction l as [|x l IH]; [done|]. cbn. by rewrite insert_keyed_perm, IH.
Qed.

Section Plans.
Context (lower : ustr -> ustr) (catalog : list SmallChannelPeer).
Context (random : bytes -> nat -> float) (pow : float -> float -> float).

Abbreviation keyed := (keyed random pow).
Abbreviation sort_peers := (sort_peers random pow).
Abbreviation fill_slots := (fill_slots lower random pow).
Abbreviation select_peers := (select_peers lower catalog random pow).
Abbreviation plan_channel_mix := (plan_channel_mix lower catalog random pow).

Lemma keyed_peers prefix rng l : forall i ks, keyed prefix rng i l = Ok ks -> map snd ks.1 = l.
Proof.
  induction l as [|p l IH]; cbn; intros i ks H; [by inv_ok|].
  apply bind_Ok in H as (ki & _ & H). apply bind_Ok in H as (rest & Hr & H). inv_ok. cbn. f_equal. eauto.
Qed.

Lemma sort_peers_perm prefix rng i l r : sort_peers prefix rng i l = Ok r -> r.1 ≡ₚ l.
Proof.
  intros H. apply bind_Ok in H as (ks & Hk & H). inv_ok. cbn. rewrite sort_keyed_perm. by erewrite keyed_peers.
Qed.

(** The peers that automatic selection may take. *)
Definition eligible (net : ustr) : list SmallChannelPeer :=
  List.filter (fun p => negb (_peer_has_marginal_routing p)) (all_peers catalog net).

Definition starred (net : ustr) : list SmallChannelPeer :=
  List.filter (fun p => negb (_peer_has_marginal_routing p)) (recommended_defaults catalog net).

Lemma elem_filter {A} (f : A -> bool) l x : x ∈ List.filter f l <-> x ∈ l /\ f x = true.
Proof. rewrite !list_elem_of_In. apply filter_In. Qed.

Lemma NoDup_filter_bool {A} (f : A -> bool) (l : list A) : NoDup l -> NoDup (List.filter f l).
Proof. rewrite !NoDup_ListNoDup. apply List.NoDup_filter. Qed.

Lemma starred_eligible net p : p ∈ starred net -> p ∈ eligible net.
Proof. unfold starred, eligible, recommended_defaults. rewrite !elem_filter. tauto. Qed.

(** The loop stops when the slots or the pool run out. *)
Lemma fill_slots_spec rng n fuel : forall i chosen pool r,
  (length pool < fuel)%nat -> fill_slots fuel rng i n chosen pool = Ok r ->
  exists added, r = chosen ++ added /\ added ⊆+ pool /\
    Z.of_nat (length r) = Z.max (Z.of_nat (length chosen)) (Z.min n (Z.of_nat (length chosen + length pool))).
Proof.
  induction fuel as [|fuel IH]; intros i chosen pool r Hf H; [lia|]. cbn in H.
  destruct (_ && _) eqn:E in H.
  - apply andb_true_iff in E as [E%Z.ltb_lt Hp]. apply bind_Ok in H as (s & Hs & H).
    pose proof (sort_peers_perm _ _ _ _ _ Hs) as Hperm. destruct s as [[|p rest] j]; [done|]. cbn in H, Hperm.
    apply Permutation_length in Hperm as Hlen. cbn in Hlen.
    apply IH in H as (added & -> & Hsub & Hl); [|lia]. exists (p :: added).
    split; [by rewrite <- app_assoc|]. split; [rewrite <- Hperm; by apply submseteq_skip|].
    rewrite Hl, length_app. cbn [length]. lia.
  - inv_ok. exists []. rewrite app_nil_r. split; [done|]. split; [apply submseteq_nil_l|].
    apply andb_false_iff in E as [E%Z.ltb_ge|E]; [lia|]. apply negb_false_iff, bool_decide_eq_true in E as ->. cbn. lia.
Qed.

Lemma NoDup_sub {A} (l k : list A) : l ⊆+ k -> NoDup k -> NoDup l.
Proof. intros (m & ->)%submseteq_Permutation H. by apply NoDup_app in H as [? _]. Qed.

Definition selected_from (net : ustr) (n : Z) (ps : list SmallChannelPeer) : Prop :=
  NoDup ps /\ ps ⊆+ eligible net /\ Z.of_nat (length ps) = Z.min n (Z.of_nat (length (eligible net))).

(** The starred peer and the rest of the catalog. *)
Lemma pool_perm net p :
  NoDup (eligible net) -> p ∈ eligible net ->
  p :: List.filter (fun q => negb (bool_decide (q ∈ [p]))) (eligible net) ≡ₚ eligible net.
Proof.
  intros Hnd Hp. apply NoDup_Permutation; [|done|].
  - constructor; [|by apply NoDup_filter_bool].
    rewrite elem_filter. intros [_ H]. apply negb_true_iff, bool_decide_eq_false in H. apply H. set_solver.
  - intros q. rewrite elem_of_cons, elem_filter, negb_true_iff, bool_decide_eq_false, list_elem_of_singleton.
    destruct (decide (q = p)) as [->|]; tauto.
Qed.

Lemma cheapest_spec net n picks incl seed r :
  NoDup catalog -> 0 < n -> select_peers net n cheapest_only picks incl seed = Ok r -> selected_from net n r.1.
Proof.
  intros Hnd Hn H. unfold ChannelMix.select_peers in H. rewrite (proj2 (Z.leb_gt n 0)) in H by done. fold (eligible net) in H.
  assert (He : NoDup (eligible net)) by (by do 2 apply NoDup_filter_bool).
  destruct (eligible net) as [|q qs] eqn:E; [|rewrite <- E in *].
  - inv_ok. unfold selected_from. rewrite E. cbn. split; [constructor|]. split; [done|lia].
  - apply bind_Ok in H as (s & Hs & H). inv_ok. apply sort_peers_perm in Hs.
    assert (Hsub : take (Z.to_nat n) s.1 ⊆+ eligible net).
    { rewrite <- Hs. apply sublist_submseteq, sublist_take. }
    split; [by eapply NoDup_sub|]. split; [done|]. cbn. rewrite length_take, Hs. lia.
Qed.

Lemma diverse_spec net n picks incl seed r :
  NoDup catalog -> 0 < n -> select_peers net n recommended_diverse picks incl seed = Ok r ->
  selected_from net n r.1 /\ (starred net <> [] -> exists p, head r.1 = Some p /\ p ∈ starred net).
Proof.
  intros Hnd Hn H. unfold ChannelMix.select_peers in H. rewrite (proj2 (Z.leb_gt n 0)) in H by done.
  fold (eligible net) (starred net) in H.
  assert (He : NoDup (eligible net)) by (by do 2 apply NoDup_filter_bool).
  assert (Hst : eligible net = [] -> starred net = []).
  { intros E. destruct (starred net) as [|p l] eqn:Es; [done|]. exfalso.
    assert (p ∈ eligible net) by (apply starred_eligible; rewrite Es; set_solver). rewrite E in *. set_solver. }
  destruct (eligible net) as [|q qs] eqn:E; [|rewrite <- E in *].
  { inv_ok. unfold selected_from. rewrite E. cbn. split; [|intros Hne; by destruct Hne; apply Hst].
    split; [constructor|]. split; [done|lia]. }
  apply bind_Ok in H as (s & Hs & H). apply bind_Ok in H as (c & Hc & H). inv_ok. apply sort_peers_perm in Hs. cbn [fst].
  apply fill_slots_spec in Hc as (added & -> & Hsub & Hl); [|lia].
  destruct s.1 as [|p ps] eqn:Es.
  - apply Permutation_nil_l in Hs. rewrite <- Hs. cbn [take app length] in Hsub, Hl |- *.
    rewrite forallb_filter_id in Hsub, Hl
      by (apply forallb_forall; intros x _; by rewrite bool_decide_eq_false_2 by set_solver).
    split; [|done]. split; [by eapply NoDup_sub|]. split; [done|lia].
  - assert (Hp : p ∈ starred net) by (rewrite <- Hs; set_solver). change (take 1 (p :: ps)) with [p] in *.
    pose proof (pool_perm net p He (starred_eligible _ _ Hp)) as Hpool.
    assert (Hadd : p :: added ⊆+ eligible net) by (rewrite <- Hpool; by apply submseteq_skip).
    split; [|intros _; by exists p]. split; [by eapply NoDup_sub|]. split; [done|].
    apply Permutation_length in Hpool. cbn [length app take] in Hpool, Hl |- *. lia.
Qed.

(** ** Capacities *)

Lemma zsum_replicate n x : zsum (replicate n x) = Z.of_nat n * x.
Proof. induction n as [|n IH]; [done|]. cbn [replicate zsum foldr]. fold (zsum (replicate n x)). rewrite IH. lia. Qed.

Lemma derive_count_bounds target :
  0 < target -> 1 <= derive_channel_count target <= 6 /\
    (derive_channel_count target = 1 \/ derive_channel_count target * PER_CHANNEL_FLOOR_SATS <= target).
Proof.
  intros H. unfold derive_channel_count, MULTI_CHANNEL_MIN_SATS, MAX_CHANNELS_PER_PLAN, PER_CHANNEL_FLOOR_SATS.
  rewrite (proj2 (Z.leb_gt _ _)) by done. destruct (Z.ltb_spec target (2 * 150000)); dlia.
Qed.

(** The capacities of [n] channels add up to the target, the floor kept. *)
Lemma allocate_spec target n :
  0 < n -> n * PER_CHANNEL_FLOOR_SATS <= target ->
  let cs := allocate_capacity target n in
  Z.of_nat (length cs) = n /\ zsum cs = target /\ Forall (fun c => PER_CHANNEL_FLOOR_SATS <= c) cs.
Proof.
  unfold allocate_capacity, PER_CHANNEL_FLOOR_SATS. intros Hn Ht.
  rewrite (proj2 (Z.leb_gt n 0)), (proj2 (Z.leb_gt target 0)) by lia. cbn [orb].
  assert (Hper : 150000 <= target / n) by (apply Z.div_le_lower_bound; lia).
  assert (Hd : n * (target / n) <= target) by (apply Z.mul_div_le; lia).
  rewrite (proj2 (Z.ltb_ge (target / n) 150000)) by done. cbv zeta. set (q := target / n) in *.
  split; [cbn [length]; rewrite length_replicate; lia|]. split.
  - cbn [zsum foldr]. fold (zsum (replicate (Z.to_nat (n - 1)) q)). rewrite zsum_replicate. nia.
  - constructor; [lia|]. apply Forall_replicate, Hper.
Qed.

(** A target below the floor gets no channel. *)
Lemma allocate_below target : target < PER_CHANNEL_FLOOR_SATS -> allocate_capacity target 1 = [].
Proof.
  unfold allocate_capacity, PER_CHANNEL_FLOOR_SATS. intros H. destruct (Z.leb_spec target 0); [done|]. cbn [orb Z.leb].
  rewrite Z.div_1_r, (proj2 (Z.ltb_lt target 150000)) by lia. cbn. rewrite Z.div_small by lia. done.
Qed.

(** ** Seeds *)

Lemma seed_bound ratio boltz c s :
  derive_seed ratio boltz c = Ok s -> s.1.1 <= c / (if boltz then 4 else 2).
Proof.
  unfold derive_seed. intros H. apply bind_Ok in H as (f & _ & H). apply bind_Ok in H as (t & _ & H).
  destruct boltz; cbn [negb] in H; inv_ok; cbn; apply Z.le_min_r.
Qed.

Lemma zip_spec (k : Z) peers caps seeds :
  length peers = length caps -> Forall2 (fun c (s : Z * Z * InboundSeedStrategy) => s.1.1 <= c / k) caps seeds ->
  let chans := zip_channels peers caps seeds in
  map peer chans = peers /\ map capacity chans = caps /\ Forall (fun ch => push_sat ch <= capacity ch / k) chans.
Proof.
  intros Hl H. revert peers Hl. induction H as [|c [[push seed] st] caps seeds Hc _ IH]; intros [|p peers] Hl; try done.
  injection Hl as Hl. destruct (IH peers Hl) as (H1 & H2 & H3). cbn in *.
  rewrite H1, H2. split; [done|]. split; [done|]. by constructor.
Qed.

(** ** The plan *)

Lemma selection_spec net n mode picks incl seed r :
  NoDup catalog -> 0 < n -> mode <> manual_picks -> select_peers net n mode picks incl seed = Ok r -> selected_from net n r.1.
Proof.
  intros Hnd Hn Hm H. destruct mode; [|by eapply cheapest_spec|done]. by apply diverse_spec in H as [? _].
Qed.

(** The cushion absorbs a move to the high rate. *)
Lemma cushion_covers medium high c : _fee_spike_cushion_sats medium high = Ok c -> high <= medium + c /\ FEE_SPIKE_CUSHION_FLOOR_SATS <= c.
Proof.
  unfold _fee_spike_cushion_sats. intros H. apply bind_Ok in H as (f & _ & H). apply bind_Ok in H as (p & _ & H). inv_ok. lia.
Qed.

Lemma seeds_bound caps ratio boltz seeds :
  derive_seed_plan caps ratio boltz = Ok seeds ->
  Forall2 (fun c (s : Z * Z * InboundSeedStrategy) => s.1.1 <= c / (if boltz then 4 else 2)) caps seeds.
Proof. intros H%mapR_Ok. eapply Forall2_impl; [exact H|]. intros c s Hs. exact (seed_bound _ _ _ _ Hs). Qed.

(** The channels that are left when some are. *)
Lemma channels_of target net mode picks incl seed sel axes seeds :
  let requested := derive_channel_count target in
  let none := bool_decide (sel = []) in
  let len := Z.of_nat (length sel) in
  let count := if negb none && (len <? requested) then len else requested in
  let caps := if none then [] else allocate_capacity target count in
  NoDup catalog -> mode <> manual_picks -> select_peers net requested mode picks incl seed = Ok (sel, axes) ->
  zip_channels (if negb none && bool_decide (caps = []) then [] else sel) caps seeds <> [] ->
  selected_from net requested sel /\ 0 < len /\ count = len /\ len * PER_CHANNEL_FLOOR_SATS <= target /\
  none = false /\ bool_decide (caps = []) = false.
Proof.
  intros requested none len count caps Hnd Hm Hsel Hne.
  destruct (Z.leb_spec requested 0) as [H0|H0].
  { unfold ChannelMix.select_peers in Hsel. fold requested in Hsel. rewrite (proj2 (Z.leb_le requested 0)) in Hsel by done.
    inv_ok. done. }
  pose proof (selection_spec _ _ _ _ _ _ _ Hnd H0 Hm Hsel) as Hs. cbn [fst] in Hs.
  assert (Hne' : sel <> []) by (intros ->; apply Hne; unfold caps; by destruct (_ && _)).
  assert (Hnone : none = false) by (by apply bool_decide_eq_false). assert (Hlen : 0 < len) by (destruct sel; cbn in *; [done|lia]).
  assert (Hcount : count = len).
  { unfold count. rewrite Hnone. cbn [negb andb]. destruct (Z.ltb_spec len requested); [done|]. destruct Hs as (_ & _ & Hs). fold len in Hs. lia. }
  assert (Hcaps : caps = [] -> False).
  { intros E. apply Hne. rewrite E. by destruct (if negb none && bool_decide ([] = []) then [] else sel). }
  split; [done|]. split; [done|]. split; [done|]. split; [|split; [done | by apply bool_decide_eq_false]].
  destruct (Z.ltb_spec 0 target) as [Ht|Ht]; [|unfold requested, derive_channel_count in H0; rewrite (proj2 (Z.leb_le target 0)) in H0; lia].
  destruct (derive_count_bounds target Ht) as [_ [H1|H1]]; fold requested in H1; destruct Hs as (_ & _ & Hs); fold len in Hs; unfold PER_CHANNEL_FLOOR_SATS in *; [|lia].
  destruct (Z.ltb_spec target 150000) as [Hlow|]; [|lia]. exfalso. apply Hcaps. unfold caps.
  rewrite Hnone, Hcount. replace len with 1 by lia. by apply allocate_below.
Qed.

(** C19. A plan of automatically picked channels spreads the whole target: the
    capacities add up to it, none is below the floor, the channels go to
    distinct peers of the catalog without a routing flag, as many as the
    target asks for or the catalog has; at most a quarter of a channel (a half
    without Boltz) is pushed to the peer; and the recommended amount pays for
    the channels, their opening at the high fee rate and the close reserve. *)
Theorem plan_spreads_target target opt mode net date oracle boltz room pct picks incl seed plan :
  NoDup catalog -> mode <> manual_picks ->
  plan_channel_mix target opt mode net date oracle boltz room pct picks incl seed = Ok plan ->
  per_channel plan <> [] ->
  let chans := per_channel plan in
  let n := Z.of_nat (length chans) in
  zsum (map capacity chans) = target /\
  Forall (fun ch => PER_CHANNEL_FLOOR_SATS <= capacity ch /\ push_sat ch <= capacity ch / (if boltz then 4 else 2)) chans /\
  NoDup (map peer chans) /\ map peer chans ⊆+ eligible net /\
  n = Z.min (derive_channel_count target) (Z.of_nat (length (eligible net))) /\
  forall fee, _open_fee_sats n (fee_rate_sat_vb_high (diagnostics plan)) = Ok fee ->
    target + fee + close_reserve_sats n <= recommended_sats plan.
Proof.
  intros Hnd Hm H Hne. unfold ChannelMix.plan_channel_mix in H. apply bind_Ok in H as ([sel axes] & Hsel & H).
  apply bind_Ok in H as ([[medium high] ws] & _ & H). apply bind_Ok in H as (fm & Hfm & H).
  apply bind_Ok in H as (fh & Hfh & H). apply bind_Ok in H as (cush & Hcush & H). apply bind_Ok in H as (seeds & Hseeds & H).
  inv_ok. cbv zeta. cbn [per_channel] in *.
  destruct (channels_of _ _ _ _ _ _ _ _ _ Hnd Hm Hsel Hne) as (Hs & Hlen & Hc & Ht & Hnone & Hcaps).
  rewrite Hnone in *. cbn [negb andb] in *. rewrite Hc in *. rewrite Hcaps in *.
  destruct (allocate_spec target (Z.of_nat (length sel)) Hlen Ht) as (Hl & Hsum & Hfl).
  apply seeds_bound in Hseeds as Hb. cbv zeta in Hl. destruct (zip_spec _ sel _ _ (eq_sym (Nat2Z.inj _ _ Hl)) Hb) as (Hp & Hk & Hpush).
  set (chans := zip_channels sel _ seeds) in *.
  assert (En : length chans = length sel) by (by rewrite <- (length_map peer chans), Hp).
  destruct Hs as (Hnd' & Hsub & Hmin). rewrite En, Hk, Hp.
  split; [done|]. split. { rewrite <- Hk in Hfl. apply (Forall_map capacity (fun c => PER_CHANNEL_FLOOR_SATS <= c)) in Hfl.
    by apply Forall_and. }
  split; [done|]. split; [done|]. split; [lia|]. intros fee Hfee. cbn [diagnostics fee_rate_sat_vb_high recommended_sats] in *.
  rewrite Hfh in Hfee. injection Hfee as <-.
  rewrite (proj2 (Z.eqb_neq _ 0)) in Hcush by lia. apply cushion_covers in Hcush.
  destruct (room && _); unfold FUTURE_CHANNEL_SLOT_SATS; lia.
Qed.
End Plans.

(** ** A small catalog *)

Definition demo_peer (name id loc : string) (ppm : Z) (star : bool) (cavs : list PeerCaveat) : SmallChannelPeer :=
  mkPeer (u name) (u id) [] None (u "bitcoin") 150000 10 (literal 1 1) 0 None (mkPolicy 0 ppm 1000 80 1000000)
    (u "low") (u "well") (u loc) (if star then [u "recommended_default"] else []) [] [] [] cavs.

Definition demo_catalog : list SmallChannelPeer :=
  [demo_peer "Alpha" "02aa" "Germany" 100 false []; demo_peer "Beta" "02bb" "Linode US" 500 true [];
   demo_peer "Gamma" "02cc" "Oregon" 1 false [mkCaveat (u "marginal_routing") []]].

Definition demo_plan (target : Z) (net : ustr) (boltz : bool) : result Plan :=
  plan_channel_mix lower_text demo_catalog (fun _ _ => zero) (fun b _ => b) target balanced recommended_diverse net [] None
    boltz false None [] false None.

Definition plan_of (r : result Plan) : Plan :=
  match r with Ok p => p | Err _ => mkPlan 0 0 (mkBreakdown 0 0 0 0 0) [] (mkDiagnostics [] zero zero [] []) end.

(** Two of the three peers are eligible; the starred one comes first. *)
Example demo_channels :
  map (fun ch => (alias (peer ch), capacity ch, push_sat ch, expected_inbound_seed_sats ch))
    (per_channel (plan_of (demo_plan 1000001 (u "bitcoin") true)))
  = [(u "Beta", 500001, 125000, 125000); (u "Alpha", 500000, 125000, 125000)].
Proof. vm_compute. reflexivity. Qed.

Lemma plan_spreads_target_witness :
  zsum (map capacity (per_channel (plan_of (demo_plan 1000001 (u "bitcoin") true)))) = 1000001.
Proof.
  apply (plan_spreads_target lower_text demo_catalog (fun _ _ => zero) (fun b _ => b) 1000001 balanced recommended_diverse
    (u "bitcoin") [] None true false None [] false None (plan_of (demo_plan 1000001 (u "bitcoin") true))).
  - apply (bool_decide_unpack (NoDup demo_catalog)). vm_compute. exact I.
  - discriminate.
  - vm_compute. reflexivity.
  - vm_compute. discriminate.
Defined.

(** Without a matching peer the plan has no channel and yet asks for the fees
    and the reserve of six. *)
Example empty_plan_asks :
  let p := plan_of (demo_plan 1000000 (u "testnet") true) in
  per_channel p = [] /\ channel_capacity_sats (breakdown p) = 0 /\ minimum_sats p = 30000 /\ recommended_sats p = 120000.
Proof. vm_compute. done. Qed.

(** Without Boltz half of a balanced channel is pushed to the peer at once,
    under a warning that the channels open with all of it outbound. *)
Example pushes_without_boltz :
  let p := plan_of (demo_plan 300000 (u "bitcoin") false) in
  map (fun ch => (capacity ch, push_sat ch)) (per_channel p) = [(150000, 75000); (150000, 75000)]
  /\ In W_boltz_down (warnings (diagnostics p)).
Proof. vm_compute. tauto. Qed.
