(* ===== verification/Bootstrap.v ===== *)
(** * The bootstrap schedule

    The rest of services/channel_mix_planner.py: the simulation of the
    open, drain, recycle loop, the binary search for the deposit that reaches
    a target, and the schedule. *)
From S2P Require Import Prelude Bytes PyFloat FloatExact Utf8 Json PyJson ChannelMix.

Definition BOOTSTRAP_RESERVE_PCT : float := literal 1 100.
Definition BOOTSTRAP_RESERVE_FLOOR_SATS : Z := 5000.
Definition BOOTSTRAP_BOLTZ_FEE_PCT : float := literal 25 10000.
Definition BOOTSTRAP_SWAP_VBYTES : Z := 300.
Definition BOOTSTRAP_ROUTING_FEE_PCT : float := literal 3 100.
Definition BOOTSTRAP_MAX_ROUNDS : nat := 40.
Definition BOOTSTRAP_MAX_CHANNELS_PER_PEER : Z := 3.
Definition BOOTSTRAP_CONFIRMATIONS_PER_ROUND : Z := 4.
Definition BOOTSTRAP_BLOCK_MINUTES : Z := 10.
Definition BOOTSTRAP_DEFAULT_BOLTZ_MIN_SATS : Z := 25000.
Definition BOOTSTRAP_DEFAULT_BOLTZ_MAX_SATS : Z := 25000000.

Record BootstrapRound := mkRound {
  round_peer : SmallChannelPeer; capacity_sats : Z; drain_target_sats : Z; expected_inbound_sats : Z;
  est_open_fee_sats : Z; est_swap_fee_sats : Z
}.

Record BootstrapPlan := mkBootstrapPlan {
  initial_deposit_sats : Z; target_inbound_sats : option Z; expected_total_inbound_sats : Z;
  expected_total_fees_sats : Z; expected_rounds : Z; est_duration_minutes : Z; residual_outbound_sats : Z;
  rounds : list BootstrapRound; bootstrap_diagnostics : PlanDiagnostics
}.

Definition bootstrap_reserve_for_capacity (capacity_sats : Z) : result Z :=
  f ← mul_int_float capacity_sats BOOTSTRAP_RESERVE_PCT;
  r ← int_of_float f;
  Ok (Z.max r BOOTSTRAP_RESERVE_FLOOR_SATS).

Definition bootstrap_swap_miner_fee_sats (sat_per_vb : float) : result Z :=
  f ← mul_int_float BOOTSTRAP_SWAP_VBYTES (float_max zero sat_per_vb); ceil_of_float f.

(** [int(math.ceil(n * (1.0 + BOOTSTRAP_ROUTING_FEE_PCT)))] *)
Definition with_routing (n : Z) : result Z :=
  f ← mul_int_float n (float_add one BOOTSTRAP_ROUTING_FEE_PCT); ceil_of_float f.

(** [int(n / (1.0 + BOOTSTRAP_ROUTING_FEE_PCT))] *)
Definition without_routing (n : Z) : result Z :=
  f ← div_int_float n (float_add one BOOTSTRAP_ROUTING_FEE_PCT); int_of_float f.

Definition bootstrap_capacity_cap (boltz_max : Z) : result Z :=
  needed_drainable ← with_routing boltz_max;
  r ← bootstrap_reserve_for_capacity needed_drainable;
  Ok (needed_drainable + r).

Definition bootstrap_drain_for_capacity (capacity_sats boltz_max : Z) : result Z :=
  reserve ← bootstrap_reserve_for_capacity capacity_sats;
  let drainable := Z.max 0 (capacity_sats - reserve) in
  drain ← without_routing drainable;
  Ok (Z.min drain boltz_max).

(** ** The simulation *)

Record sim_round := mkSimRound { s_capacity : Z; s_drain : Z; s_open_fee : Z; s_swap_fee : Z }.

Record sim_state := mkSim { balance : Z; sim_rounds : list sim_round; total_inbound : Z; total_fees : Z; residual_outbound : Z }.

(** The inputs that stay fixed over the rounds. *)
Record sim_config := mkSimConfig {
  swap_miner : Z; open_fee : Z; boltz_min : Z; boltz_max : Z; sim_target : option Z
}.

(** The body of the loop: the next state, or [None] where it breaks before a
    round. *)
Definition sim_body (c : sim_config) (st : sim_state) : result (option sim_state) :=
  if balance st - open_fee c <? PER_CHANNEL_FLOOR_SATS then Ok None
  else
    let capacity := balance st - open_fee c in
    reserve ← bootstrap_reserve_for_capacity capacity;
    let drainable := Z.max 0 (capacity - reserve) in
    drain ← without_routing drainable;
    capped ← (if boltz_max c <? drain then
                needed_drainable ← with_routing (boltz_max c);
                let capacity' := needed_drainable + reserve in
                Ok (boltz_max c, capacity', (balance st - open_fee c) - capacity')
              else Ok (drain, capacity, 0));
    let '(drain, capacity, leftover) := capped in
    if drain <? boltz_min c then Ok None
    else
      f ← mul_int_float drain BOOTSTRAP_BOLTZ_FEE_PCT;
      pct ← ceil_of_float f;
      let swap_fee := pct + swap_miner c in
      let recycled := Z.max 0 (drain - swap_fee) in
      Ok (Some (mkSim (leftover + recycled) (sim_rounds st ++ [mkSimRound capacity drain (open_fee c) swap_fee])
                  (total_inbound st + drain) (total_fees st + (open_fee c + swap_fee))
                  (residual_outbound st + (capacity - drain)))).

Definition reached (c : sim_config) (st : sim_state) : bool :=
  match sim_target c with Some t => t <=? total_inbound st | None => false end.

(** [while len(rounds) < max_rounds]: [n] rounds are left. *)
Fixpoint sim_loop (n : nat) (c : sim_config) (st : sim_state) : result sim_state :=
  match n with
  | O => Ok st
  | S n =>
      next ← sim_body c st;
      match next with
      | None => Ok st
      | Some st' => if reached c st' then Ok st' else sim_loop n c st'
      end
  end.

Definition sim_config_of (sat_per_vb_medium sat_per_vb_high : float) (boltz_min boltz_max : Z) (target : option Z)
    : result sim_config :=
  swap_miner ← bootstrap_swap_miner_fee_sats sat_per_vb_high;
  open_fee ← _open_fee_sats 1 sat_per_vb_medium;
  Ok (mkSimConfig swap_miner open_fee boltz_min boltz_max target).

Definition _simulate_bootstrap (deposit_sats : Z) (sat_per_vb_medium sat_per_vb_high : float)
    (boltz_min boltz_max : Z) (max_rounds : nat) (target : option Z) : result sim_state :=
  c ← sim_config_of sat_per_vb_medium sat_per_vb_high boltz_min boltz_max target;
  sim_loop max_rounds c (mkSim deposit_sats [] 0 0 0).

(** ** The schedule *)

(** [math.ceil(a / b)] of two integers *)
Definition ceil_div (a b : Z) : result Z :=
  x ← float_of_int a; y ← float_of_int b; q ← float_div x y; ceil_of_float q.

Definition _assign_bootstrap_peers (count : nat) (peers : list SmallChannelPeer) (max_per_peer : Z)
    : result (list SmallChannelPeer * bool) :=
  match peers with
  | [] => Ok ([], false)
  | p0 :: _ =>
      let assigned := map (fun i => nth (i mod length peers) peers p0) (seq 0 count) in
      max_used ← (if (count =? 0)%nat then Ok 0 else ceil_div (Z.of_nat count) (Z.of_nat (length peers)));
      Ok (assigned, max_per_peer <? max_used)
  end.

Section Schedule.
Context (medium high : float) (boltz_min boltz_max : Z) (max_rounds : nat) (target : option Z).

Definition _sim (dep : Z) : result sim_state := _simulate_bootstrap dep medium high boltz_min boltz_max max_rounds target.

(** [for _ in range(48)] *)
Fixpoint search (n : nat) (goal lo hi : Z) : result Z :=
  match n with
  | O => Ok hi
  | S n =>
      if hi <=? lo then Ok hi
      else
        let mid := (lo + hi) / 2 in
        st ← _sim mid;
        if goal <=? total_inbound st then search n goal lo mid else search n goal (mid + 1) hi
  end.

(** The deposit that the target framing starts the search from. *)
Definition upper_deposit (goal min_deposit open_fee_one : Z) : result Z :=
  single_round_drainable ← with_routing goal;
  r ← bootstrap_reserve_for_capacity single_round_drainable;
  Ok (Z.max (Z.max goal min_deposit) (single_round_drainable + r + open_fee_one)).

Definition deposit_for (goal min_deposit open_fee_one : Z) : result (Z * list warning) :=
  hi ← upper_deposit goal min_deposit open_fee_one;
  st ← _sim hi;
  if total_inbound st <? goal
  then Ok (hi, [W_short (total_inbound st) (Z.of_nat (length (sim_rounds st))) (Z.of_nat max_rounds) goal])
  else deposit ← search 48 goal min_deposit hi; Ok (deposit, []).

Definition zip_rounds (assigned : list SmallChannelPeer) (rs : list sim_round) : list BootstrapRound :=
  zip_with (fun p r => mkRound p (s_capacity r) (s_drain r) (s_drain r) (s_open_fee r) (s_swap_fee r)) assigned rs.

Definition derive_bootstrap_schedule (deposit_sats : option Z) (peers : list SmallChannelPeer) (snapshot_date : ustr)
    (diversity_axes : list string) (boltz_available : bool) (max_channels_per_peer : Z) (extra_warnings : list warning)
    : result BootstrapPlan :=
  let diag (ws : list warning) := mkDiagnostics ws medium high snapshot_date diversity_axes in
  let empty (ws : list warning) := mkBootstrapPlan (default 0 deposit_sats) target 0 0 0 0 0 [] (diag ws) in
  if negb boltz_available then Ok (empty (extra_warnings ++ [W_bootstrap_boltz_down]))
  else if bool_decide (peers = []) then Ok (empty (extra_warnings ++ [W_bootstrap_no_peers]))
  else
    open_fee_one ← _open_fee_sats 1 medium;
    let min_deposit := PER_CHANNEL_FLOOR_SATS + open_fee_one in
    found ← match target with
            | Some goal => deposit_for goal min_deposit open_fee_one
            | None => Ok (default 0 deposit_sats, [])
            end;
    let '(deposit, short) := found in
    st ← _sim deposit;
    let n := length (sim_rounds st) in
    assignment ← _assign_bootstrap_peers n peers max_channels_per_peer;
    let '(assigned, over_cap) := assignment in
    let rs := zip_rounds assigned (sim_rounds st) in
    let minutes := Z.of_nat (length rs) * BOOTSTRAP_CONFIRMATIONS_PER_ROUND * BOOTSTRAP_BLOCK_MINUTES in
    let ws :=
      extra_warnings ++ short
      ++ (if (n =? 0)%nat then [W_deposit_low deposit min_deposit] else [])
      ++ (if over_cap : bool then [W_reused (Z.of_nat (length peers)) (Z.of_nat n) max_channels_per_peer] else [])
      ++ (if 120 <=? minutes then [W_takes (minutes / 60) (Z.of_nat (length rs)) (total_fees st)] else []) in
    Ok (mkBootstrapPlan deposit target (total_inbound st) (total_fees st) (Z.of_nat (length rs)) minutes
          (residual_outbound st) rs (diag ws)).
End Schedule.

