(* ===== verification/BootstrapMin.v ===== *)
(** * The schedule's money and its deposit

    The simulated loop accounts for every satoshi of the deposit. On amounts
    below 2^45 its float arithmetic is exact integer arithmetic, hence
    monotone in the deposit, so that the binary search returns the least
    deposit that reaches the target. *)
From S2P Require Import Prelude Bytes PyFloat FloatExact Utf8 Json PyJson ChannelMix Bootstrap.

(** ** Accounting *)

(** What a round's fees exceed its drain by: it is charged and never paid. *)
Definition shortfall (r : sim_round) : Z := Z.max 0 (s_swap_fee r - s_drain r).

Definition sum_of (f : sim_round -> Z) (rs : list sim_round) : Z := foldr (fun r a => f r + a) 0 rs.

Lemma sum_of_app f rs r : sum_of f (rs ++ [r]) = sum_of f rs + f r.
Proof. unfold sum_of. induction rs as [|x rs IH]; cbn; [lia|]. rewrite IH. lia. Qed.

Definition accounts (c : sim_config) (deposit : Z) (st : sim_state) : Prop :=
  deposit + sum_of shortfall (sim_rounds st) = balance st + total_fees st + residual_outbound st /\
  total_inbound st = sum_of s_drain (sim_rounds st) /\
  total_fees st = sum_of (fun r => s_open_fee r + s_swap_fee r) (sim_rounds st) /\
  Forall (fun r => boltz_min c <= s_drain r /\ (s_drain r <= boltz_max c)) (sim_rounds st).

Lemma body_accounts c deposit st st' :
  accounts c deposit st -> sim_body c st = Ok (Some st') ->
  accounts c deposit st' /\ length (sim_rounds st') = S (length (sim_rounds st)).
Proof.
  intros (H1 & H2 & H3 & H4). unfold sim_body. destruct (Z.ltb_spec (balance st - open_fee c) PER_CHANNEL_FLOOR_SATS) as [|_]; [done|]. intros H.
  apply bind_Ok in H as (reserve & _ & H). apply bind_Ok in H as (drain & _ & H). apply bind_Ok in H as ([[d cap] left] & Hc & H).
  assert (Hcap : cap + left = balance st - open_fee c /\ d <= boltz_max c).
  { destruct (Z.ltb_spec (boltz_max c) drain); [apply bind_Ok in Hc as (needed & _ & Hc)|]; inv_ok; lia. }
  destruct (Z.ltb_spec d (boltz_min c)) as [|Hmin]; [done|]. apply bind_Ok in H as (f & _ & H). apply bind_Ok in H as (pct & _ & H).
  injection H as <-. unfold accounts. cbn [balance sim_rounds total_inbound total_fees residual_outbound].
  rewrite !sum_of_app. split; [|rewrite length_app; cbn; lia].
  unfold shortfall at 2. cbn [s_capacity s_drain s_open_fee s_swap_fee]. split; [lia|]. split; [lia|]. split; [lia|].
  apply Forall_app. split; [done|]. repeat constructor; cbn; lia.
Qed.

Lemma loop_accounts c deposit n : forall st st',
  accounts c deposit st -> sim_loop n c st = Ok st' ->
  accounts c deposit st' /\ (length (sim_rounds st') <= length (sim_rounds st) + n)%nat.
Proof.
  induction n as [|n IH]; cbn; intros st st' Ha H; [inv_ok; split; [done|lia]|].
  apply bind_Ok in H as ([st1|] & Hb & H); [|inv_ok; split; [done|lia]].
  destruct (body_accounts _ _ _ _ Ha Hb) as [Ha1 Hl]. destruct (reached c st1); [inv_ok; split; [done|lia]|].
  apply IH in H as [? ?]; [|done]. split; [done|lia].
Qed.

Lemma start_accounts c deposit : accounts c deposit (mkSim deposit [] 0 0 0).
Proof. repeat split; try constructor; cbn; lia. Qed.

Lemma simulation_invariant deposit medium high bmin bmax max_rounds target st :
  _simulate_bootstrap deposit medium high bmin bmax max_rounds target = Ok st ->
  (exists c, boltz_min c = bmin /\ boltz_max c = bmax /\ accounts c deposit st) /\ (length (sim_rounds st) <= max_rounds)%nat.
Proof.
  intros H. apply bind_Ok in H as (c & Hc & H). apply bind_Ok in Hc as (m & _ & Hc). apply bind_Ok in Hc as (o & _ & Hc). inv_ok.
  apply (loop_accounts _ deposit) in H as [Ha Hl]; [|apply start_accounts]. split; [by exists (mkSimConfig m o bmin bmax target)|done].
Qed.

(** The simulated bootstrap accounts for the deposit: what is left on
    chain, the fees and what stays locked in the channels add up to it, plus
    what the fees of a round exceed its drain by; the inbound liquidity is the
    sum of the drains, each between the Boltz bounds; there are at most
    [max_rounds] rounds. *)
Theorem simulation_accounts deposit medium high bmin bmax max_rounds target st :
  _simulate_bootstrap deposit medium high bmin bmax max_rounds target = Ok st ->
  deposit + sum_of shortfall (sim_rounds st) = balance st + total_fees st + residual_outbound st /\
  total_inbound st = sum_of s_drain (sim_rounds st) /\
  Forall (fun r => bmin <= s_drain r <= bmax) (sim_rounds st) /\ (length (sim_rounds st) <= max_rounds)%nat.
Proof. intros H. by destruct (simulation_invariant _ _ _ _ _ _ _ _ H) as ((c & <- & <- & H1 & H2 & _ & H4) & Hl). Qed.

Lemma simulation_accounts_witness :
  exists st, _simulate_bootstrap 400000 one one 25000 25000000 40 None = Ok st /\
    400000 + sum_of shortfall (sim_rounds st) = balance st + total_fees st + residual_outbound st.
Proof.
  eexists. split; [vm_compute; reflexivity|].
  refine (proj1 (simulation_accounts 400000 one one 25000 25000000 40 None _ _)). vm_compute. reflexivity.
Defined.

(** ** Integer arithmetic *)

Definition ceil_frac (a b : Z) : Z := - ((- a) / b).

Lemma reserve_exact n : 0 <= n < 2 ^ 45 -> bootstrap_reserve_for_capacity n = Ok (Z.max (n / 100) 5000).
Proof.
  intros H. pose proof (percent_exact n H) as E. unfold bootstrap_reserve_for_capacity, BOOTSTRAP_RESERVE_PCT.
  destruct (mul_int_float n _) as [f|]; [|done]. rewrite bind_of_Ok in *. by rewrite E.
Qed.

Lemma with_routing_exact n : 0 <= n < 2 ^ 45 -> with_routing n = Ok (ceil_frac (103 * n) 100).
Proof. apply routed_exact. Qed.

Lemma without_routing_exact n : 0 <= n < 2 ^ 45 -> without_routing n = Ok (100 * n / 103).
Proof. apply drain_exact. Qed.

Record int_round := mkIntRound { i_capacity : Z; i_drain : Z; i_fee : Z; i_next : Z }.

(** One round from a balance, over the integers. *)
Definition int_step (c : sim_config) (b : Z) : option int_round :=
  let cap := b - open_fee c in
  if cap <? PER_CHANNEL_FLOOR_SATS then None
  else
    let reserve := Z.max (cap / 100) 5000 in
    let drainable := cap - reserve in
    let raw := 100 * drainable / 103 in
    let needed := ceil_frac (103 * boltz_max c) 100 in
    let drain := Z.min raw (boltz_max c) in
    let left := if boltz_max c <? raw then drainable - needed else 0 in
    if drain <? boltz_min c then None
    else
      let fee := ceil_frac drain 400 + swap_miner c in
      Some (mkIntRound (cap - left) drain fee (left + Z.max 0 (drain - fee))).

Record sane (c : sim_config) : Prop := {
  sane_open : 0 <= open_fee c; sane_miner : 0 <= swap_miner c;
  sane_min : 0 <= boltz_min c; sane_max : 0 <= boltz_max c < 2 ^ 44
}.

Definition after (c : sim_config) (st : sim_state) (r : int_round) : sim_state :=
  mkSim (i_next r) (sim_rounds st ++ [mkSimRound (i_capacity r) (i_drain r) (open_fee c) (i_fee r)])
    (total_inbound st + i_drain r) (total_fees st + (open_fee c + i_fee r))
    (residual_outbound st + (i_capacity r - i_drain r)).

(** The round in floats is the round in integers. *)
Lemma body_exact c st :
  sane c -> balance st < 2 ^ 45 -> sim_body c st = Ok (after c st <$> int_step c (balance st)).
Proof.
  intros [Ho Hm Hmin Hmax] Hb. unfold sim_body, int_step, PER_CHANNEL_FLOOR_SATS. set (cap := balance st - open_fee c).
  destruct (Z.ltb_spec cap 150000) as [|Hcap]; [done|]. rewrite reserve_exact by lia. rewrite bind_of_Ok.
  assert (Hres : Z.max (cap / 100) 5000 <= cap) by dlia. set (reserve := Z.max (cap / 100) 5000) in *.
  replace (Z.max 0 (cap - reserve)) with (cap - reserve) by lia.
  assert (0 <= reserve) by lia. rewrite without_routing_exact by lia. rewrite bind_of_Ok.
  set (raw := 100 * (cap - reserve) / 103). assert (Hraw : 0 <= raw <= cap) by (unfold raw; clearbody reserve; dlia).
  rewrite with_routing_exact by lia.
  destruct (Z.ltb_spec (boltz_max c) raw) as [Hlt|Hge]; rewrite ?bind_of_Ok; cbv beta iota.
  - rewrite Z.min_r by lia. destruct (_ <? boltz_min c); [done|].
    pose proof (fee_exact (boltz_max c) ltac:(lia)) as E. unfold BOOTSTRAP_BOLTZ_FEE_PCT.
    destruct (mul_int_float _ _) as [f|]; [|done]. rewrite bind_of_Ok in E. rewrite bind_of_Ok, E, bind_of_Ok. unfold after. cbn. fold cap.
    set (needed := ceil_frac (103 * boltz_max c) 100). replace (cap - (needed + reserve)) with (cap - reserve - needed) by lia.
    by replace (cap - (cap - reserve - needed)) with (needed + reserve) by lia.
  - rewrite Z.min_l by lia. destruct (_ <? boltz_min c); [done|].
    pose proof (fee_exact raw ltac:(lia)) as E. unfold BOOTSTRAP_BOLTZ_FEE_PCT.
    destruct (mul_int_float _ _) as [f|]; [|done]. rewrite bind_of_Ok in E. rewrite bind_of_Ok, E, bind_of_Ok. unfold after. cbn.
    by rewrite Z.sub_0_r.
Qed.

(** ** Monotonicity *)

Lemma drainable_mono a b : a <= b -> a - Z.max (a / 100) 5000 <= b - Z.max (b / 100) 5000.
Proof. intros H. dlia. Qed.

(** The balance after a drain [d] of a drainable amount. *)
Lemma recycled_mono m d e : 0 <= d <= e -> Z.max 0 (d - (ceil_frac d 400 + m)) <= Z.max 0 (e - (ceil_frac e 400 + m)).
Proof. unfold ceil_frac. intros H. dlia. Qed.

Lemma int_step_mono c b b' r :
  sane c -> b <= b' -> int_step c b = Some r ->
  exists r', int_step c b' = Some r' /\ i_drain r <= i_drain r' /\ i_next r <= i_next r'.
Proof.
  intros [Ho Hm Hmin Hmax] Hb. unfold int_step, PER_CHANNEL_FLOOR_SATS.
  pose proof (drainable_mono (b - open_fee c) (b' - open_fee c) ltac:(lia)) as Hd.
  destruct (Z.ltb_spec (b - open_fee c) 150000) as [|Hc]; [done|].
  rewrite (proj2 (Z.ltb_ge (b' - open_fee c) 150000)) by lia.
  assert (Hpos : 0 <= b - open_fee c - Z.max ((b - open_fee c) / 100) 5000) by dlia.
  set (D := b - open_fee c - _) in *. set (D' := b' - open_fee c - _) in *. clearbody D D'.
  assert (Hraw : 0 <= 100 * D / 103 <= 100 * D' / 103) by dlia.
  assert (Hneed : boltz_max c < 100 * D' / 103 -> ceil_frac (103 * boltz_max c) 100 <= D') by (unfold ceil_frac; dlia).
  assert (Hneed' : boltz_max c < 100 * D / 103 -> ceil_frac (103 * boltz_max c) 100 <= D) by (unfold ceil_frac; dlia).
  set (raw := 100 * D / 103) in *. set (raw' := 100 * D' / 103) in *. set (need := ceil_frac _ 100) in *. clearbody raw raw' need.
  pose proof (recycled_mono (swap_miner c) (Z.min raw (boltz_max c)) (Z.min raw' (boltz_max c)) ltac:(lia)) as Hrec.
  destruct (Z.ltb_spec (Z.min raw (boltz_max c)) (boltz_min c)) as [|Hd1]; [done|].
  rewrite (proj2 (Z.ltb_ge (Z.min raw' (boltz_max c)) (boltz_min c))) by lia. intros [= <-].
  eexists. split; [reflexivity|]. cbn [i_drain i_next]. split; [lia|].
  apply Z.add_le_mono; [|exact Hrec].
  destruct (Z.ltb_spec (boltz_max c) raw), (Z.ltb_spec (boltz_max c) raw'); lia.
Qed.

(** A round never adds to the balance. *)
Lemma int_step_next c b r : sane c -> int_step c b = Some r -> i_next r <= b /\ 0 <= i_drain r.
Proof.
  intros [Ho Hm Hmin Hmax]. unfold int_step, PER_CHANNEL_FLOOR_SATS.
  destruct (Z.ltb_spec (b - open_fee c) 150000) as [|Hc]; [done|].
  assert (Hpos : 0 <= b - open_fee c - Z.max ((b - open_fee c) / 100) 5000 <= b) by dlia.
  set (D := b - open_fee c - Z.max _ _) in *. clearbody D.
  assert (Hraw : 0 <= 100 * D / 103 <= D) by dlia.
  assert (Hneed : boltz_max c <= ceil_frac (103 * boltz_max c) 100) by (unfold ceil_frac; dlia).
  destruct (_ <? boltz_min c); [done|]. intros [= <-]. cbn [i_next i_drain].
  assert (0 <= ceil_frac (Z.min (100 * D / 103) (boltz_max c)) 400) by (unfold ceil_frac; dlia).
  destruct (Z.ltb_spec (boltz_max c) (100 * D / 103)); lia.
Qed.

(** Whether [n] rounds from a balance bring the inbound total to the target. *)
Fixpoint reaches (t : Z) (n : nat) (c : sim_config) (b total : Z) : bool :=
  match n with
  | O => t <=? total
  | S n =>
      match int_step c b with
      | None => t <=? total
      | Some r => if t <=? total + i_drain r then true else reaches t n c (i_next r) (total + i_drain r)
      end
  end.

Lemma reaches_mono t c : sane c -> forall n b b' total total',
  b <= b' -> total <= total' -> reaches t n c b total = true -> reaches t n c b' total' = true.
Proof.
  intros Hc. induction n as [|n IH]; cbn [reaches]; intros b b' x x' Hb Hx H; [lia|].
  destruct (int_step c b) as [r|] eqn:E.
  - destruct (int_step_mono _ _ _ _ Hc Hb E) as (r' & -> & Hd & Hn).
    destruct (Z.leb_spec t (x' + i_drain r')); [done|]. destruct (Z.leb_spec t (x + i_drain r)); [lia|].
    apply (IH (i_next r) _ (x + i_drain r)); [done | lia | done].
  - destruct (int_step c b') as [r'|] eqn:E'; [|lia]. apply (int_step_next _ _ _ Hc) in E' as [_ Hd].
    by rewrite (proj2 (Z.leb_le t (x' + i_drain r'))) by lia.
Qed.

(** The simulation returns, and tells whether the target is reached. *)
Lemma loop_reaches t c : sane c -> sim_target c = Some t -> forall n st,
  balance st < 2 ^ 45 ->
  exists st', sim_loop n c st = Ok st' /\ (t <=? total_inbound st') = reaches t n c (balance st) (total_inbound st).
Proof.
  intros Hc Ht. induction n as [|n IH]; intros st Hb; cbn [sim_loop reaches]; [by exists st|].
  rewrite body_exact by done. destruct (int_step c (balance st)) as [r|] eqn:E; [|by exists st].
  change (after c st <$> Some r) with (Some (after c st r)). rewrite bind_of_Ok. unfold reached. rewrite Ht.
  cbn [after total_inbound]. destruct (Z.leb_spec t (total_inbound st + i_drain r)) as [Hle|Hgt].
  - eexists. split; [reflexivity|]. cbn. lia.
  - apply (int_step_next _ _ _ Hc) in E as [Hn _]. apply (IH (after c st r)). cbn. lia.
Qed.

(** ** Fees are not negative *)

Lemma round_sign m e l z : ceil_of_float (binary_round_aux 53 1024 false m e l) = Ok z -> 0 <= z.
Proof.
  unfold binary_round_aux. destruct (shr_fexp 53 1024 m e l) as [x e1]. destruct (shr_fexp _ _ _ e1 _) as [y e2].
  destruct (shr_m y) as [|p|p]; [by intros [= <-] | | done]. destruct (IntDef.Z.leb _ _); [|done]. unfold ceil_of_float. intros [= <-].
  destruct (Z.leb_spec 0 e2); [assert (0 < 2 ^ e2) by (apply Z.pow_pos_nonneg; lia); nia|].
  assert (0 < 2 ^ (- e2)) by (apply Z.pow_pos_nonneg; lia). pose proof (Z.div_le_upper_bound (- Z.pos p) (2 ^ (- e2)) 0). lia.
Qed.

Lemma product_nonneg p e f z :
  SFltb f zero = false -> ceil_of_float (SFmul 53 1024 (S754_finite false p e) f) = Ok z -> 0 <= z.
Proof. destruct f as [s|s| |[] q e']; cbn [SFmul]; [by intros _ [= <-] | done | done | done | intros _; apply round_sign]. Qed.

Lemma open_fee_nonneg medium o : SFltb medium zero = false -> _open_fee_sats 1 medium = Ok o -> 0 <= o.
Proof. intros H. apply product_nonneg, H. Qed.

Lemma miner_nonneg high m : bootstrap_swap_miner_fee_sats high = Ok m -> 0 <= m.
Proof.
  apply product_nonneg. unfold float_max. destruct (SFltb zero high) eqn:E; [|done].
  destruct high as [s|[]| |[] q e]; done.
Qed.

(** ** The search *)

Section Search.
Context (medium high : float) (bmin bmax : Z) (max_rounds : nat) (T o m : Z).
Hypothesis Hmed : SFltb medium zero = false.
Hypothesis Ho : _open_fee_sats 1 medium = Ok o.
Hypothesis Hm : bootstrap_swap_miner_fee_sats high = Ok m.
Hypothesis Hmin : 0 <= bmin.
Hypothesis Hmax : 0 <= bmax < 2 ^ 44.

Let c := mkSimConfig m o bmin bmax (Some T).
Abbreviation sim := (_sim medium high bmin bmax max_rounds (Some T)).
Abbreviation P := (fun d => reaches T max_rounds c d 0).

Lemma sane_config : sane c.
Proof. constructor; cbn; [by eapply open_fee_nonneg | by eapply miner_nonneg | done | done]. Qed.

Lemma sim_reaches d : d < 2 ^ 45 -> exists st, sim d = Ok st /\ (T <=? total_inbound st) = P d.
Proof.
  intros Hd. unfold _sim, _simulate_bootstrap, sim_config_of. rewrite Hm, bind_of_Ok, Ho, !bind_of_Ok.
  apply (loop_reaches T c sane_config eq_refl). done.
Qed.

Lemma P_mono d d' : d <= d' -> P d' = false -> P d = false.
Proof.
  intros Hd H. destruct (P d) eqn:E; [|done]. rewrite <- H. symmetry. by apply (reaches_mono T c sane_config _ d d' 0 0).
Qed.

Lemma search_spec n : forall lo hi,
  lo <= hi < 2 ^ 45 -> hi - lo < 2 ^ Z.of_nat n -> P hi = true -> (forall d, d < lo -> P d = false) ->
  exists r, search medium high bmin bmax max_rounds (Some T) n T lo hi = Ok r /\ r <= hi /\ P r = true /\ forall d, d < r -> P d = false.
Proof.
  induction n as [|n IH]; intros lo hi Hlo Hn Hhi Hlow; cbn [search].
  { exists hi. repeat split; [lia | done |]. intros d Hd. apply Hlow. cbn in Hn. lia. }
  destruct (Z.leb_spec hi lo) as [Hle|Hgt]. { exists hi. repeat split; [lia | done |]. intros d Hd. apply Hlow. lia. }
  rewrite Nat2Z.inj_succ, Z.pow_succ_r in Hn by lia.
  assert (Hmid : lo <= (lo + hi) / 2 < hi /\ 2 * ((lo + hi) / 2) <= lo + hi <= 2 * ((lo + hi) / 2) + 1) by dlia.
  set (mid := (lo + hi) / 2) in *. destruct (sim_reaches mid ltac:(lia)) as (st & -> & Est). rewrite bind_of_Ok, Est.
  destruct (P mid) eqn:Em.
  - destruct (IH lo mid) as (r & Hr & Hle & HP & Hall); [lia | lia | done | done |]. exists r. by repeat split; [| lia | |].
  - apply IH; [lia | lia | done |]. intros d Hd. apply (P_mono d mid); [lia | done].
Qed.

(** Below the price of one channel nothing is opened. *)
Lemma too_small d : 0 < T -> d < PER_CHANNEL_FLOOR_SATS + o -> P d = false.
Proof.
  intros HT Hd. destruct max_rounds as [|n]; cbn [reaches]; [lia|]. unfold int_step. cbn [open_fee c].
  rewrite (proj2 (Z.ltb_lt (d - o) PER_CHANNEL_FLOOR_SATS)) by lia. lia.
Qed.

Lemma upper_bound : 0 < T <= 2 ^ 40 -> o <= 2 ^ 40 ->
  exists hi, upper_deposit T (PER_CHANNEL_FLOOR_SATS + o) o = Ok hi /\ PER_CHANNEL_FLOOR_SATS + o <= hi < 2 ^ 43.
Proof.
  intros HT Hob. pose proof (open_fee_nonneg _ _ Hmed Ho). unfold upper_deposit. rewrite with_routing_exact by lia. rewrite bind_of_Ok.
  assert (Hx : 0 <= ceil_frac (103 * T) 100 <= 2 * T) by (unfold ceil_frac; dlia). set (x := ceil_frac _ _) in *. clearbody x.
  rewrite reserve_exact by lia. rewrite bind_of_Ok. eexists. split; [reflexivity|]. unfold PER_CHANNEL_FLOOR_SATS. dlia.
Qed.

(** The deposit found is the least that reaches the target, or none up to it
    does. *)
Lemma deposit_spec : 0 < T <= 2 ^ 40 -> o <= 2 ^ 40 ->
  exists r ws, deposit_for medium high bmin bmax max_rounds (Some T) T (PER_CHANNEL_FLOOR_SATS + o) o = Ok (r, ws) /\
    r < 2 ^ 43 /\ (forall d, d < r -> P d = false) /\
    (P r = true \/ P r = false /\ exists i n, ws = [W_short i n (Z.of_nat max_rounds) T]).
Proof.
  intros HT Hob. unfold deposit_for. destruct (upper_bound HT Hob) as (hi & -> & Hhi). rewrite bind_of_Ok.
  destruct (sim_reaches hi ltac:(lia)) as (st & -> & Est). rewrite bind_of_Ok.
  destruct (Z.ltb_spec (total_inbound st) T) as [Hlt|Hge].
  - rewrite (proj2 (Z.leb_gt T (total_inbound st))) in Est by done.
    eexists _, _. split; [reflexivity|]. split; [lia|]. split; [|right; split; [done|by eexists _, _]].
    intros d Hd. apply (P_mono d hi); [lia | done].
  - rewrite (proj2 (Z.leb_le T (total_inbound st))) in Est by done.
    destruct (search_spec 48 (PER_CHANNEL_FLOOR_SATS + o) hi) as (r & -> & Hr & HP & Hall);
      [lia | unfold PER_CHANNEL_FLOOR_SATS in *; pose proof (open_fee_nonneg _ _ Hmed Ho); cbn; lia | done | intros d; apply too_small; lia |].
    eexists _, _. split; [reflexivity|]. split; [lia|]. split; [done|by left].
Qed.
End Search.

(** ** The schedule *)

Lemma ceil_div_ok a b : 0 < a < 2 ^ 45 -> 0 < b < 2 ^ 53 -> is_ok (ceil_div a b) = true.
Proof.
  intros Ha Hb. unfold ceil_div. destruct (int_exact b Hb) as (p & k & Hf & Hk & HP & Hp).
  assert (0 < 2 ^ k) by (apply Z.pow_pos_nonneg; lia).
  destruct (quotient_spec p k a) as (f & M & s & Hd & HM & _); [done | lia | lia | nia |].
  unfold div_int_float in Hd. destruct (float_of_int a) as [x|]; [|done]. rewrite bind_of_Ok in *. rewrite Hf, bind_of_Ok.
  cbn [float_div]. rewrite bind_of_Ok. injection Hd as ->. by rewrite (proj2 HM).
Qed.

Lemma assign_ok n peers cap :
  peers <> [] -> Z.of_nat (length peers) < 2 ^ 53 -> Z.of_nat n < 2 ^ 45 ->
  exists r, _assign_bootstrap_peers n peers cap = Ok r /\ length r.1 = n.
Proof.
  intros Hne Hl Hn. unfold _assign_bootstrap_peers. destruct peers as [|p ps] eqn:E; [done|]. rewrite <- E in *.
  destruct (Nat.eqb_spec n 0) as [->|Hn0]; [eexists; done|].
  assert (0 < Z.of_nat (length peers)) by (rewrite E; cbn; lia).
  pose proof (ceil_div_ok (Z.of_nat n) (Z.of_nat (length peers)) ltac:(lia) ltac:(lia)) as Hok.
  destruct (ceil_div _ _) as [x|]; [|done]. rewrite bind_of_Ok. eexists. split; [reflexivity|]. cbn. by rewrite length_map, length_seq.
Qed.

(** C18. In the target framing the schedule is always produced, and its deposit
    is the least one: no smaller deposit reaches the target in the simulation,
    and the deposit itself does, unless the plan warns that it falls short;
    for targets and fees up to 2^40 satoshis, any number of rounds and any
    Boltz bounds, the arithmetic being done in floats. *)
Theorem minimal_deposit medium high bmin bmax max_rounds T o m dep peers date axes cap extra :
  SFltb medium zero = false -> _open_fee_sats 1 medium = Ok o -> o <= 2 ^ 40 -> bootstrap_swap_miner_fee_sats high = Ok m ->
  0 <= bmin -> 0 <= bmax < 2 ^ 44 -> 0 < T <= 2 ^ 40 ->
  peers <> [] -> Z.of_nat (length peers) < 2 ^ 53 -> Z.of_nat max_rounds < 2 ^ 45 ->
  exists plan, derive_bootstrap_schedule medium high bmin bmax max_rounds (Some T) dep peers date axes true cap extra = Ok plan /\
    (forall d st, d < initial_deposit_sats plan -> _sim medium high bmin bmax max_rounds (Some T) d = Ok st -> total_inbound st < T) /\
    (T <= expected_total_inbound_sats plan \/
     exists i n, In (W_short i n (Z.of_nat max_rounds) T) (warnings (bootstrap_diagnostics plan))).
Proof.
  intros Hmed Ho Hob Hm Hmin Hmax HT Hne Hl Hr.
  destruct (deposit_spec medium high bmin bmax max_rounds T o m Hmed Ho Hm Hmin Hmax HT Hob) as (r & ws & Hd & Hrb & Hall & Hcase).
  destruct (sim_reaches medium high bmin bmax max_rounds T o m Hmed Ho Hm Hmin Hmax r ltac:(lia)) as (st & Hst & Est).
  destruct (simulation_invariant _ _ _ _ _ _ _ _ Hst) as [_ Hlen].
  destruct (assign_ok (length (sim_rounds st)) peers cap Hne Hl ltac:(lia)) as ([assigned over] & Ha & Hal).
  eexists. split.
  - unfold derive_bootstrap_schedule. cbn [negb]. rewrite bool_decide_eq_false_2 by done.
    rewrite Ho, bind_of_Ok, Hd, bind_of_Ok, Hst, bind_of_Ok, Ha, bind_of_Ok. reflexivity.
  - cbn [initial_deposit_sats expected_total_inbound_sats bootstrap_diagnostics warnings]. split.
    + intros d st' Hlt Hs. destruct (sim_reaches medium high bmin bmax max_rounds T o m Hmed Ho Hm Hmin Hmax d ltac:(lia)) as (st'' & Hs' & E).
      rewrite Hs in Hs'. injection Hs' as <-. rewrite Hall in E by done. lia.
    + destruct Hcase as [HP|[_ (i & n & ->)]]; [left; rewrite HP in Est; lia|]. right. exists i, n.
      rewrite in_app_iff. right. left. done.
Qed.

Definition demo_peers : list SmallChannelPeer :=
  [mkPeer (u "Alpha") (u "02aa") [] None (u "bitcoin") 150000 10 one 0 None (mkPolicy 0 100 1000 80 1000000)
     (u "low") (u "well") [] [] [] [] [] []].

Lemma minimal_deposit_witness :
  exists plan, derive_bootstrap_schedule one one 25000 25000000 40 (Some 1000000) None demo_peers [] [] true 3 [] = Ok plan /\
    initial_deposit_sats plan = 206051 /\
    forall d st, d < initial_deposit_sats plan -> _sim one one 25000 25000000 40 (Some 1000000) d = Ok st -> total_inbound st < 1000000.
Proof.
  destruct (minimal_deposit one one 25000 25000000 40 1000000 250 300 None demo_peers [] [] 3 []) as (plan & Hplan & Hmin & _);
    [vm_compute; reflexivity | vm_compute; reflexivity | lia | vm_compute; reflexivity | lia | lia | lia | discriminate
    | vm_compute; reflexivity | vm_compute; reflexivity |].
  exists plan. split; [exact Hplan|]. split; [|exact Hmin]. vm_compute in Hplan. injection Hplan as <-. reflexivity.
Defined.

(** At the deposit the search starts from, one round does not drain the whole
    target: the reserve is taken of the larger capacity. *)
Example upper_deposit_needs_two_rounds :
  (hi ← upper_deposit 1000000 150250 250; st ← _simulate_bootstrap hi one one 25000 25000000 1 (Some 1000000); Ok (hi, total_inbound st))
  = Ok (1040550, 999900).
Proof. vm_compute. reflexivity. Qed.

(** Where the drain is capped the simulation reserves one percent of the
    balance, the executor's cap one percent of the channel. *)
Example capped_capacities_differ :
  (st ← _simulate_bootstrap 1000000000 one one 25000 25000000 1 None;
   cap ← bootstrap_capacity_cap 25000000; Ok (map s_capacity (sim_rounds st), cap)) = Ok ([35749997], 26007500).
Proof. vm_compute. reflexivity. Qed.
