(* ===== verification/MixRun.v ===== *)
(** * Rows of the table [channel_mix_runs]

    models/channel_mix_run.py. The JSON column [channels] holds channels of a
    parallel run or rounds of a bootstrap run; here it is two lists, one of
    which is empty. Instants are in microseconds where the JSON has their ISO
    text, and a missing key is a field at its default. *)
From S2P Require Import Prelude Bytes PyFloat Utf8 Json PyJson ChannelMix.

Inductive ChannelMixRunState :=
  | QUEUED | IN_PROGRESS | AWAITING_FUNDS | COMPLETE | PARTIAL_FAILURE | STOPPED_INSUFFICIENT | CANCELLED.

Inductive RunMode := parallel | bootstrap.

Inductive OpenState := o_queued | o_opening | o_open_pending | o_open_active | o_open_failed.
Inductive SeedState := s_skipped | s_queued | s_swapping | s_seeded | s_seed_failed.

(** [swapping] is listed in the source and never assigned. *)
Inductive RoundState :=
  | opening | open_pending | open_active | swapping | swap_pending | settled | open_failed | swap_failed.

Global Instance ChannelMixRunState_eq_dec : EqDecision ChannelMixRunState.
Proof. solve_decision. Defined.
Global Instance RunMode_eq_dec : EqDecision RunMode.
Proof. solve_decision. Defined.
Global Instance OpenState_eq_dec : EqDecision OpenState.
Proof. solve_decision. Defined.
Global Instance SeedState_eq_dec : EqDecision SeedState.
Proof. solve_decision. Defined.
Global Instance RoundState_eq_dec : EqDecision RoundState.
Proof. solve_decision. Defined.
Global Instance InboundSeedStrategy_eq_dec : EqDecision InboundSeedStrategy.
Proof. solve_decision. Defined.

Definition TERMINAL_RUN_STATES : list ChannelMixRunState := [COMPLETE; PARTIAL_FAILURE; STOPPED_INSUFFICIENT; CANCELLED].
Definition BOOTSTRAP_ROUND_TERMINAL_STATES : list RoundState := [settled; open_failed; swap_failed].

Record channel_entry := mkChannel {
  c_peer_alias : ustr; c_peer_pubkey : ustr; c_peer_host : ustr; c_capacity_sats : Z; c_push_sat : Z;
  c_expected_inbound_seed_sats : Z; c_inbound_seed_strategy : InboundSeedStrategy; c_open_state : OpenState;
  c_open_txid : option ustr; c_open_output_index : option Z; c_open_pending_since : option Z; c_open_error : option
  ustr; c_seed_state : SeedState; c_seed_swap_id : option ustr; c_seed_error : option ustr
}.

Definition set_c_peer_alias (v : ustr) (e : channel_entry) : channel_entry :=
  mkChannel v (c_peer_pubkey e) (c_peer_host e) (c_capacity_sats e) (c_push_sat e) (c_expected_inbound_seed_sats
    e) (c_inbound_seed_strategy e) (c_open_state e) (c_open_txid e) (c_open_output_index e)
    (c_open_pending_since e) (c_open_error e) (c_seed_state e) (c_seed_swap_id e) (c_seed_error e).
Definition set_c_peer_pubkey (v : ustr) (e : channel_entry) : channel_entry :=
  mkChannel (c_peer_alias e) v (c_peer_host e) (c_capacity_sats e) (c_push_sat e) (c_expected_inbound_seed_sats
    e) (c_inbound_seed_strategy e) (c_open_state e) (c_open_txid e) (c_open_output_index e)
    (c_open_pending_since e) (c_open_error e) (c_seed_state e) (c_seed_swap_id e) (c_seed_error e).
Definition set_c_peer_host (v : ustr) (e : channel_entry) : channel_entry :=
  mkChannel (c_peer_alias e) (c_peer_pubkey e) v (c_capacity_sats e) (c_push_sat e)
    (c_expected_inbound_seed_sats e) (c_inbound_seed_strategy e) (c_open_state e) (c_open_txid e)
    (c_open_output_index e) (c_open_pending_since e) (c_open_error e) (c_seed_state e) (c_seed_swap_id e)
    (c_seed_error e).
Definition set_c_capacity_sats (v : Z) (e : channel_entry) : channel_entry :=
  mkChannel (c_peer_alias e) (c_peer_pubkey e) (c_peer_host e) v (c_push_sat e) (c_expected_inbound_seed_sats e)
    (c_inbound_seed_strategy e) (c_open_state e) (c_open_txid e) (c_open_output_index e) (c_open_pending_since
    e) (c_open_error e) (c_seed_state e) (c_seed_swap_id e) (c_seed_error e).
Definition set_c_push_sat (v : Z) (e : channel_entry) : channel_entry :=
  mkChannel (c_peer_alias e) (c_peer_pubkey e) (c_peer_host e) (c_capacity_sats e) v
    (c_expected_inbound_seed_sats e) (c_inbound_seed_strategy e) (c_open_state e) (c_open_txid e)
    (c_open_output_index e) (c_open_pending_since e) (c_open_error e) (c_seed_state e) (c_seed_swap_id e)
    (c_seed_error e).
Definition set_c_expected_inbound_seed_sats (v : Z) (e : channel_entry) : channel_entry :=
  mkChannel (c_peer_alias e) (c_peer_pubkey e) (c_peer_host e) (c_capacity_sats e) (c_push_sat e) v
    (c_inbound_seed_strategy e) (c_open_state e) (c_open_txid e) (c_open_output_index e) (c_open_pending_since
    e) (c_open_error e) (c_seed_state e) (c_seed_swap_id e) (c_seed_error e).
Definition set_c_inbound_seed_strategy (v : InboundSeedStrategy) (e : channel_entry) : channel_entry :=
  mkChannel (c_peer_alias e) (c_peer_pubkey e) (c_peer_host e) (c_capacity_sats e) (c_push_sat e)
    (c_expected_inbound_seed_sats e) v (c_open_state e) (c_open_txid e) (c_open_output_index e)
    (c_open_pending_since e) (c_open_error e) (c_seed_state e) (c_seed_swap_id e) (c_seed_error e).
Definition set_c_open_state (v : OpenState) (e : channel_entry) : channel_entry :=
  mkChannel (c_peer_alias e) (c_peer_pubkey e) (c_peer_host e) (c_capacity_sats e) (c_push_sat e)
    (c_expected_inbound_seed_sats e) (c_inbound_seed_strategy e) v (c_open_txid e) (c_open_output_index e)
    (c_open_pending_since e) (c_open_error e) (c_seed_state e) (c_seed_swap_id e) (c_seed_error e).
Definition set_c_open_txid (v : option ustr) (e : channel_entry) : channel_entry :=
  mkChannel (c_peer_alias e) (c_peer_pubkey e) (c_peer_host e) (c_capacity_sats e) (c_push_sat e)
    (c_expected_inbound_seed_sats e) (c_inbound_seed_strategy e) (c_open_state e) v (c_open_output_index e)
    (c_open_pending_since e) (c_open_error e) (c_seed_state e) (c_seed_swap_id e) (c_seed_error e).
Definition set_c_open_output_index (v : option Z) (e : channel_entry) : channel_entry :=
  mkChannel (c_peer_alias e) (c_peer_pubkey e) (c_peer_host e) (c_capacity_sats e) (c_push_sat e)
    (c_expected_inbound_seed_sats e) (c_inbound_seed_strategy e) (c_open_state e) (c_open_txid e) v
    (c_open_pending_since e) (c_open_error e) (c_seed_state e) (c_seed_swap_id e) (c_seed_error e).
Definition set_c_open_pending_since (v : option Z) (e : channel_entry) : channel_entry :=
  mkChannel (c_peer_alias e) (c_peer_pubkey e) (c_peer_host e) (c_capacity_sats e) (c_push_sat e)
    (c_expected_inbound_seed_sats e) (c_inbound_seed_strategy e) (c_open_state e) (c_open_txid e)
    (c_open_output_index e) v (c_open_error e) (c_seed_state e) (c_seed_swap_id e) (c_seed_error e).
Definition set_c_open_error (v : option ustr) (e : channel_entry) : channel_entry :=
  mkChannel (c_peer_alias e) (c_peer_pubkey e) (c_peer_host e) (c_capacity_sats e) (c_push_sat e)
    (c_expected_inbound_seed_sats e) (c_inbound_seed_strategy e) (c_open_state e) (c_open_txid e)
    (c_open_output_index e) (c_open_pending_since e) v (c_seed_state e) (c_seed_swap_id e) (c_seed_error e).
Definition set_c_seed_state (v : SeedState) (e : channel_entry) : channel_entry :=
  mkChannel (c_peer_alias e) (c_peer_pubkey e) (c_peer_host e) (c_capacity_sats e) (c_push_sat e)
    (c_expected_inbound_seed_sats e) (c_inbound_seed_strategy e) (c_open_state e) (c_open_txid e)
    (c_open_output_index e) (c_open_pending_since e) (c_open_error e) v (c_seed_swap_id e) (c_seed_error e).
Definition set_c_seed_swap_id (v : option ustr) (e : channel_entry) : channel_entry :=
  mkChannel (c_peer_alias e) (c_peer_pubkey e) (c_peer_host e) (c_capacity_sats e) (c_push_sat e)
    (c_expected_inbound_seed_sats e) (c_inbound_seed_strategy e) (c_open_state e) (c_open_txid e)
    (c_open_output_index e) (c_open_pending_since e) (c_open_error e) (c_seed_state e) v (c_seed_error e).
Definition set_c_seed_error (v : option ustr) (e : channel_entry) : channel_entry :=
  mkChannel (c_peer_alias e) (c_peer_pubkey e) (c_peer_host e) (c_capacity_sats e) (c_push_sat e)
    (c_expected_inbound_seed_sats e) (c_inbound_seed_strategy e) (c_open_state e) (c_open_txid e)
    (c_open_output_index e) (c_open_pending_since e) (c_open_error e) (c_seed_state e) (c_seed_swap_id e) v.

Record round_entry := mkRoundEntry {
  r_round_index : Z; r_state : RoundState; r_peer_alias : ustr; r_peer_pubkey : ustr; r_peer_host : ustr;
  r_capacity_sats : Z; r_drain_target_sats : Z; r_expected_inbound_sats : Z; r_spendable_before_sats : Z;
  r_open_txid : option ustr; r_open_output_index : option Z; r_open_error : option ustr; r_swap_id : option ustr;
  r_swap_lockup_txid : option ustr; r_swap_claim_txid : option ustr; r_recycled_sats : option Z; r_swap_error :
  option ustr; r_open_fee_sats : Z; r_waiting_since : option Z; r_tried_pubkeys : list ustr; r_connect_attempts : Z;
  r_reserve_shrink_attempts : Z; r_swap_attempts : Z
}.

Definition set_r_round_index (v : Z) (e : round_entry) : round_entry :=
  mkRoundEntry v (r_state e) (r_peer_alias e) (r_peer_pubkey e) (r_peer_host e) (r_capacity_sats e)
    (r_drain_target_sats e) (r_expected_inbound_sats e) (r_spendable_before_sats e) (r_open_txid e)
    (r_open_output_index e) (r_open_error e) (r_swap_id e) (r_swap_lockup_txid e) (r_swap_claim_txid e)
    (r_recycled_sats e) (r_swap_error e) (r_open_fee_sats e) (r_waiting_since e) (r_tried_pubkeys e)
    (r_connect_attempts e) (r_reserve_shrink_attempts e) (r_swap_attempts e).
Definition set_r_state (v : RoundState) (e : round_entry) : round_entry :=
  mkRoundEntry (r_round_index e) v (r_peer_alias e) (r_peer_pubkey e) (r_peer_host e) (r_capacity_sats e)
    (r_drain_target_sats e) (r_expected_inbound_sats e) (r_spendable_before_sats e) (r_open_txid e)
    (r_open_output_index e) (r_open_error e) (r_swap_id e) (r_swap_lockup_txid e) (r_swap_claim_txid e)
    (r_recycled_sats e) (r_swap_error e) (r_open_fee_sats e) (r_waiting_since e) (r_tried_pubkeys e)
    (r_connect_attempts e) (r_reserve_shrink_attempts e) (r_swap_attempts e).
Definition set_r_peer_alias (v : ustr) (e : round_entry) : round_entry :=
  mkRoundEntry (r_round_index e) (r_state e) v (r_peer_pubkey e) (r_peer_host e) (r_capacity_sats e)
    (r_drain_target_sats e) (r_expected_inbound_sats e) (r_spendable_before_sats e) (r_open_txid e)
    (r_open_output_index e) (r_open_error e) (r_swap_id e) (r_swap_lockup_txid e) (r_swap_claim_txid e)
    (r_recycled_sats e) (r_swap_error e) (r_open_fee_sats e) (r_waiting_since e) (r_tried_pubkeys e)
    (r_connect_attempts e) (r_reserve_shrink_attempts e) (r_swap_attempts e).
Definition set_r_peer_pubkey (v : ustr) (e : round_entry) : round_entry :=
  mkRoundEntry (r_round_index e) (r_state e) (r_peer_alias e) v (r_peer_host e) (r_capacity_sats e)
    (r_drain_target_sats e) (r_expected_inbound_sats e) (r_spendable_before_sats e) (r_open_txid e)
    (r_open_output_index e) (r_open_error e) (r_swap_id e) (r_swap_lockup_txid e) (r_swap_claim_txid e)
    (r_recycled_sats e) (r_swap_error e) (r_open_fee_sats e) (r_waiting_since e) (r_tried_pubkeys e)
    (r_connect_attempts e) (r_reserve_shrink_attempts e) (r_swap_attempts e).
Definition set_r_peer_host (v : ustr) (e : round_entry) : round_entry :=
  mkRoundEntry (r_round_index e) (r_state e) (r_peer_alias e) (r_peer_pubkey e) v (r_capacity_sats e)
    (r_drain_target_sats e) (r_expected_inbound_sats e) (r_spendable_before_sats e) (r_open_txid e)
    (r_open_output_index e) (r_open_error e) (r_swap_id e) (r_swap_lockup_txid e) (r_swap_claim_txid e)
    (r_recycled_sats e) (r_swap_error e) (r_open_fee_sats e) (r_waiting_since e) (r_tried_pubkeys e)
    (r_connect_attempts e) (r_reserve_shrink_attempts e) (r_swap_attempts e).
Definition set_r_capacity_sats (v : Z) (e : round_entry) : round_entry :=
  mkRoundEntry (r_round_index e) (r_state e) (r_peer_alias e) (r_peer_pubkey e) (r_peer_host e) v
    (r_drain_target_sats e) (r_expected_inbound_sats e) (r_spendable_before_sats e) (r_open_txid e)
    (r_open_output_index e) (r_open_error e) (r_swap_id e) (r_swap_lockup_txid e) (r_swap_claim_txid e)
    (r_recycled_sats e) (r_swap_error e) (r_open_fee_sats e) (r_waiting_since e) (r_tried_pubkeys e)
    (r_connect_attempts e) (r_reserve_shrink_attempts e) (r_swap_attempts e).
Definition set_r_drain_target_sats (v : Z) (e : round_entry) : round_entry :=
  mkRoundEntry (r_round_index e) (r_state e) (r_peer_alias e) (r_peer_pubkey e) (r_peer_host e) (r_capacity_sats
    e) v (r_expected_inbound_sats e) (r_spendable_before_sats e) (r_open_txid e) (r_open_output_index e)
    (r_open_error e) (r_swap_id e) (r_swap_lockup_txid e) (r_swap_claim_txid e) (r_recycled_sats e)
    (r_swap_error e) (r_open_fee_sats e) (r_waiting_since e) (r_tried_pubkeys e) (r_connect_attempts e)
    (r_reserve_shrink_attempts e) (r_swap_attempts e).
Definition set_r_expected_inbound_sats (v : Z) (e : round_entry) : round_entry :=
  mkRoundEntry (r_round_index e) (r_state e) (r_peer_alias e) (r_peer_pubkey e) (r_peer_host e) (r_capacity_sats
    e) (r_drain_target_sats e) v (r_spendable_before_sats e) (r_open_txid e) (r_open_output_index e)
    (r_open_error e) (r_swap_id e) (r_swap_lockup_txid e) (r_swap_claim_txid e) (r_recycled_sats e)
    (r_swap_error e) (r_open_fee_sats e) (r_waiting_since e) (r_tried_pubkeys e) (r_connect_attempts e)
    (r_reserve_shrink_attempts e) (r_swap_attempts e).
Definition set_r_spendable_before_sats (v : Z) (e : round_entry) : round_entry :=
  mkRoundEntry (r_round_index e) (r_state e) (r_peer_alias e) (r_peer_pubkey e) (r_peer_host e) (r_capacity_sats
    e) (r_drain_target_sats e) (r_expected_inbound_sats e) v (r_open_txid e) (r_open_output_index e)
    (r_open_error e) (r_swap_id e) (r_swap_lockup_txid e) (r_swap_claim_txid e) (r_recycled_sats e)
    (r_swap_error e) (r_open_fee_sats e) (r_waiting_since e) (r_tried_pubkeys e) (r_connect_attempts e)
    (r_reserve_shrink_attempts e) (r_swap_attempts e).
Definition set_r_open_txid (v : option ustr) (e : round_entry) : round_entry :=
  mkRoundEntry (r_round_index e) (r_state e) (r_peer_alias e) (r_peer_pubkey e) (r_peer_host e) (r_capacity_sats
    e) (r_drain_target_sats e) (r_expected_inbound_sats e) (r_spendable_before_sats e) v (r_open_output_index e)
    (r_open_error e) (r_swap_id e) (r_swap_lockup_txid e) (r_swap_claim_txid e) (r_recycled_sats e)
    (r_swap_error e) (r_open_fee_sats e) (r_waiting_since e) (r_tried_pubkeys e) (r_connect_attempts e)
    (r_reserve_shrink_attempts e) (r_swap_attempts e).
Definition set_r_open_output_index (v : option Z) (e : round_entry) : round_entry :=
  mkRoundEntry (r_round_index e) (r_state e) (r_peer_alias e) (r_peer_pubkey e) (r_peer_host e) (r_capacity_sats
    e) (r_drain_target_sats e) (r_expected_inbound_sats e) (r_spendable_before_sats e) (r_open_txid e) v
    (r_open_error e) (r_swap_id e) (r_swap_lockup_txid e) (r_swap_claim_txid e) (r_recycled_sats e)
    (r_swap_error e) (r_open_fee_sats e) (r_waiting_since e) (r_tried_pubkeys e) (r_connect_attempts e)
    (r_reserve_shrink_attempts e) (r_swap_attempts e).
Definition set_r_open_error (v : option ustr) (e : round_entry) : round_entry :=
  mkRoundEntry (r_round_index e) (r_state e) (r_peer_alias e) (r_peer_pubkey e) (r_peer_host e) (r_capacity_sats
    e) (r_drain_target_sats e) (r_expected_inbound_sats e) (r_spendable_before_sats e) (r_open_txid e)
    (r_open_output_index e) v (r_swap_id e) (r_swap_lockup_txid e) (r_swap_claim_txid e) (r_recycled_sats e)
    (r_swap_error e) (r_open_fee_sats e) (r_waiting_since e) (r_tried_pubkeys e) (r_connect_attempts e)
    (r_reserve_shrink_attempts e) (r_swap_attempts e).
Definition set_r_swap_id (v : option ustr) (e : round_entry) : round_entry :=
  mkRoundEntry (r_round_index e) (r_state e) (r_peer_alias e) (r_peer_pubkey e) (r_peer_host e) (r_capacity_sats
    e) (r_drain_target_sats e) (r_expected_inbound_sats e) (r_spendable_before_sats e) (r_open_txid e)
    (r_open_output_index e) (r_open_error e) v (r_swap_lockup_txid e) (r_swap_claim_txid e) (r_recycled_sats e)
    (r_swap_error e) (r_open_fee_sats e) (r_waiting_since e) (r_tried_pubkeys e) (r_connect_attempts e)
    (r_reserve_shrink_attempts e) (r_swap_attempts e).
Definition set_r_swap_lockup_txid (v : option ustr) (e : round_entry) : round_entry :=
  mkRoundEntry (r_round_index e) (r_state e) (r_peer_alias e) (r_peer_pubkey e) (r_peer_host e) (r_capacity_sats
    e) (r_drain_target_sats e) (r_expected_inbound_sats e) (r_spendable_before_sats e) (r_open_txid e)
    (r_open_output_index e) (r_open_error e) (r_swap_id e) v (r_swap_claim_txid e) (r_recycled_sats e)
    (r_swap_error e) (r_open_fee_sats e) (r_waiting_since e) (r_tried_pubkeys e) (r_connect_attempts e)
    (r_reserve_shrink_attempts e) (r_swap_attempts e).
Definition set_r_swap_claim_txid (v : option ustr) (e : round_entry) : round_entry :=
  mkRoundEntry (r_round_index e) (r_state e) (r_peer_alias e) (r_peer_pubkey e) (r_peer_host e) (r_capacity_sats
    e) (r_drain_target_sats e) (r_expected_inbound_sats e) (r_spendable_before_sats e) (r_open_txid e)
    (r_open_output_index e) (r_open_error e) (r_swap_id e) (r_swap_lockup_txid e) v (r_recycled_sats e)
    (r_swap_error e) (r_open_fee_sats e) (r_waiting_since e) (r_tried_pubkeys e) (r_connect_attempts e)
    (r_reserve_shrink_attempts e) (r_swap_attempts e).
Definition set_r_recycled_sats (v : option Z) (e : round_entry) : round_entry :=
  mkRoundEntry (r_round_index e) (r_state e) (r_peer_alias e) (r_peer_pubkey e) (r_peer_host e) (r_capacity_sats
    e) (r_drain_target_sats e) (r_expected_inbound_sats e) (r_spendable_before_sats e) (r_open_txid e)
    (r_open_output_index e) (r_open_error e) (r_swap_id e) (r_swap_lockup_txid e) (r_swap_claim_txid e) v
    (r_swap_error e) (r_open_fee_sats e) (r_waiting_since e) (r_tried_pubkeys e) (r_connect_attempts e)
    (r_reserve_shrink_attempts e) (r_swap_attempts e).
Definition set_r_swap_error (v : option ustr) (e : round_entry) : round_entry :=
  mkRoundEntry (r_round_index e) (r_state e) (r_peer_alias e) (r_peer_pubkey e) (r_peer_host e) (r_capacity_sats
    e) (r_drain_target_sats e) (r_expected_inbound_sats e) (r_spendable_before_sats e) (r_open_txid e)
    (r_open_output_index e) (r_open_error e) (r_swap_id e) (r_swap_lockup_txid e) (r_swap_claim_txid e)
    (r_recycled_sats e) v (r_open_fee_sats e) (r_waiting_since e) (r_tried_pubkeys e) (r_connect_attempts e)
    (r_reserve_shrink_attempts e) (r_swap_attempts e).
Definition set_r_open_fee_sats (v : Z) (e : round_entry) : round_entry :=
  mkRoundEntry (r_round_index e) (r_state e) (r_peer_alias e) (r_peer_pubkey e) (r_peer_host e) (r_capacity_sats
    e) (r_drain_target_sats e) (r_expected_inbound_sats e) (r_spendable_before_sats e) (r_open_txid e)
    (r_open_output_index e) (r_open_error e) (r_swap_id e) (r_swap_lockup_txid e) (r_swap_claim_txid e)
    (r_recycled_sats e) (r_swap_error e) v (r_waiting_since e) (r_tried_pubkeys e) (r_connect_attempts e)
    (r_reserve_shrink_attempts e) (r_swap_attempts e).
Definition set_r_waiting_since (v : option Z) (e : round_entry) : round_entry :=
  mkRoundEntry (r_round_index e) (r_state e) (r_peer_alias e) (r_peer_pubkey e) (r_peer_host e) (r_capacity_sats
    e) (r_drain_target_sats e) (r_expected_inbound_sats e) (r_spendable_before_sats e) (r_open_txid e)
    (r_open_output_index e) (r_open_error e) (r_swap_id e) (r_swap_lockup_txid e) (r_swap_claim_txid e)
    (r_recycled_sats e) (r_swap_error e) (r_open_fee_sats e) v (r_tried_pubkeys e) (r_connect_attempts e)
    (r_reserve_shrink_attempts e) (r_swap_attempts e).
Definition set_r_tried_pubkeys (v : list ustr) (e : round_entry) : round_entry :=
  mkRoundEntry (r_round_index e) (r_state e) (r_peer_alias e) (r_peer_pubkey e) (r_peer_host e) (r_capacity_sats
    e) (r_drain_target_sats e) (r_expected_inbound_sats e) (r_spendable_before_sats e) (r_open_txid e)
    (r_open_output_index e) (r_open_error e) (r_swap_id e) (r_swap_lockup_txid e) (r_swap_claim_txid e)
    (r_recycled_sats e) (r_swap_error e) (r_open_fee_sats e) (r_waiting_since e) v (r_connect_attempts e)
    (r_reserve_shrink_attempts e) (r_swap_attempts e).
Definition set_r_connect_attempts (v : Z) (e : round_entry) : round_entry :=
  mkRoundEntry (r_round_index e) (r_state e) (r_peer_alias e) (r_peer_pubkey e) (r_peer_host e) (r_capacity_sats
    e) (r_drain_target_sats e) (r_expected_inbound_sats e) (r_spendable_before_sats e) (r_open_txid e)
    (r_open_output_index e) (r_open_error e) (r_swap_id e) (r_swap_lockup_txid e) (r_swap_claim_txid e)
    (r_recycled_sats e) (r_swap_error e) (r_open_fee_sats e) (r_waiting_since e) (r_tried_pubkeys e) v
    (r_reserve_shrink_attempts e) (r_swap_attempts e).
Definition set_r_reserve_shrink_attempts (v : Z) (e : round_entry) : round_entry :=
  mkRoundEntry (r_round_index e) (r_state e) (r_peer_alias e) (r_peer_pubkey e) (r_peer_host e) (r_capacity_sats
    e) (r_drain_target_sats e) (r_expected_inbound_sats e) (r_spendable_before_sats e) (r_open_txid e)
    (r_open_output_index e) (r_open_error e) (r_swap_id e) (r_swap_lockup_txid e) (r_swap_claim_txid e)
    (r_recycled_sats e) (r_swap_error e) (r_open_fee_sats e) (r_waiting_since e) (r_tried_pubkeys e)
    (r_connect_attempts e) v (r_swap_attempts e).
Definition set_r_swap_attempts (v : Z) (e : round_entry) : round_entry :=
  mkRoundEntry (r_round_index e) (r_state e) (r_peer_alias e) (r_peer_pubkey e) (r_peer_host e) (r_capacity_sats
    e) (r_drain_target_sats e) (r_expected_inbound_sats e) (r_spendable_before_sats e) (r_open_txid e)
    (r_open_output_index e) (r_open_error e) (r_swap_id e) (r_swap_lockup_txid e) (r_swap_claim_txid e)
    (r_recycled_sats e) (r_swap_error e) (r_open_fee_sats e) (r_waiting_since e) (r_tried_pubkeys e)
    (r_connect_attempts e) (r_reserve_shrink_attempts e) v.

Record BootstrapParams := mkParams {
  p_network : ustr; p_peer_mix_mode : PeerMixMode; p_manual_picks : list ustr; p_include_marginal_routing : bool;
  awaiting_since : option Z
}.

Definition set_p_network (v : ustr) (p : BootstrapParams) : BootstrapParams :=
  mkParams v (p_peer_mix_mode p) (p_manual_picks p) (p_include_marginal_routing p) (awaiting_since p).
Definition set_p_peer_mix_mode (v : PeerMixMode) (p : BootstrapParams) : BootstrapParams :=
  mkParams (p_network p) v (p_manual_picks p) (p_include_marginal_routing p) (awaiting_since p).
Definition set_p_manual_picks (v : list ustr) (p : BootstrapParams) : BootstrapParams :=
  mkParams (p_network p) (p_peer_mix_mode p) v (p_include_marginal_routing p) (awaiting_since p).
Definition set_p_include_marginal_routing (v : bool) (p : BootstrapParams) : BootstrapParams :=
  mkParams (p_network p) (p_peer_mix_mode p) (p_manual_picks p) v (awaiting_since p).
Definition set_awaiting_since (v : option Z) (p : BootstrapParams) : BootstrapParams :=
  mkParams (p_network p) (p_peer_mix_mode p) (p_manual_picks p) (p_include_marginal_routing p) v.

Record ChannelMixRun := mkRun {
  mode : RunMode; run_state : ChannelMixRunState; target_inbound : option Z; realized_inbound_sats : Z;
  total_fees_sats : Z; stop_requested : bool; bootstrap_params : BootstrapParams; channels : list channel_entry;
  rounds : list round_entry; run_warnings : list ustr; error_message : option ustr; started_at : Z; updated_at : Z;
  completed_at : option Z
}.

Definition set_mode (v : RunMode) (r : ChannelMixRun) : ChannelMixRun :=
  mkRun v (run_state r) (target_inbound r) (realized_inbound_sats r) (total_fees_sats r) (stop_requested r)
    (bootstrap_params r) (channels r) (rounds r) (run_warnings r) (error_message r) (started_at r) (updated_at
    r) (completed_at r).
Definition set_run_state (v : ChannelMixRunState) (r : ChannelMixRun) : ChannelMixRun :=
  mkRun (mode r) v (target_inbound r) (realized_inbound_sats r) (total_fees_sats r) (stop_requested r)
    (bootstrap_params r) (channels r) (rounds r) (run_warnings r) (error_message r) (started_at r) (updated_at
    r) (completed_at r).
Definition set_target_inbound (v : option Z) (r : ChannelMixRun) : ChannelMixRun :=
  mkRun (mode r) (run_state r) v (realized_inbound_sats r) (total_fees_sats r) (stop_requested r)
    (bootstrap_params r) (channels r) (rounds r) (run_warnings r) (error_message r) (started_at r) (updated_at
    r) (completed_at r).
Definition set_realized_inbound_sats (v : Z) (r : ChannelMixRun) : ChannelMixRun :=
  mkRun (mode r) (run_state r) (target_inbound r) v (total_fees_sats r) (stop_requested r) (bootstrap_params r)
    (channels r) (rounds r) (run_warnings r) (error_message r) (started_at r) (updated_at r) (completed_at r).
Definition set_total_fees_sats (v : Z) (r : ChannelMixRun) : ChannelMixRun :=
  mkRun (mode r) (run_state r) (target_inbound r) (realized_inbound_sats r) v (stop_requested r)
    (bootstrap_params r) (channels r) (rounds r) (run_warnings r) (error_message r) (started_at r) (updated_at
    r) (completed_at r).
Definition set_stop_requested (v : bool) (r : ChannelMixRun) : ChannelMixRun :=
  mkRun (mode r) (run_state r) (target_inbound r) (realized_inbound_sats r) (total_fees_sats r) v
    (bootstrap_params r) (channels r) (rounds r) (run_warnings r) (error_message r) (started_at r) (updated_at
    r) (completed_at r).
Definition set_bootstrap_params (v : BootstrapParams) (r : ChannelMixRun) : ChannelMixRun :=
  mkRun (mode r) (run_state r) (target_inbound r) (realized_inbound_sats r) (total_fees_sats r) (stop_requested
    r) v (channels r) (rounds r) (run_warnings r) (error_message r) (started_at r) (updated_at r) (completed_at
    r).
Definition set_channels (v : list channel_entry) (r : ChannelMixRun) : ChannelMixRun :=
  mkRun (mode r) (run_state r) (target_inbound r) (realized_inbound_sats r) (total_fees_sats r) (stop_requested
    r) (bootstrap_params r) v (rounds r) (run_warnings r) (error_message r) (started_at r) (updated_at r)
    (completed_at r).
Definition set_rounds (v : list round_entry) (r : ChannelMixRun) : ChannelMixRun :=
  mkRun (mode r) (run_state r) (target_inbound r) (realized_inbound_sats r) (total_fees_sats r) (stop_requested
    r) (bootstrap_params r) (channels r) v (run_warnings r) (error_message r) (started_at r) (updated_at r)
    (completed_at r).
Definition set_run_warnings (v : list ustr) (r : ChannelMixRun) : ChannelMixRun :=
  mkRun (mode r) (run_state r) (target_inbound r) (realized_inbound_sats r) (total_fees_sats r) (stop_requested
    r) (bootstrap_params r) (channels r) (rounds r) v (error_message r) (started_at r) (updated_at r)
    (completed_at r).
Definition set_error_message (v : option ustr) (r : ChannelMixRun) : ChannelMixRun :=
  mkRun (mode r) (run_state r) (target_inbound r) (realized_inbound_sats r) (total_fees_sats r) (stop_requested
    r) (bootstrap_params r) (channels r) (rounds r) (run_warnings r) v (started_at r) (updated_at r)
    (completed_at r).
Definition set_started_at (v : Z) (r : ChannelMixRun) : ChannelMixRun :=
  mkRun (mode r) (run_state r) (target_inbound r) (realized_inbound_sats r) (total_fees_sats r) (stop_requested
    r) (bootstrap_params r) (channels r) (rounds r) (run_warnings r) (error_message r) v (updated_at r)
    (completed_at r).
Definition set_updated_at (v : Z) (r : ChannelMixRun) : ChannelMixRun :=
  mkRun (mode r) (run_state r) (target_inbound r) (realized_inbound_sats r) (total_fees_sats r) (stop_requested
    r) (bootstrap_params r) (channels r) (rounds r) (run_warnings r) (error_message r) (started_at r) v
    (completed_at r).
Definition set_completed_at (v : option Z) (r : ChannelMixRun) : ChannelMixRun :=
  mkRun (mode r) (run_state r) (target_inbound r) (realized_inbound_sats r) (total_fees_sats r) (stop_requested
    r) (bootstrap_params r) (channels r) (rounds r) (run_warnings r) (error_message r) (started_at r)
    (updated_at r) v.

Definition is_terminal (s : ChannelMixRunState) : bool := bool_decide (s ∈ TERMINAL_RUN_STATES).
Definition round_over (s : RoundState) : bool := bool_decide (s ∈ BOOTSTRAP_ROUND_TERMINAL_STATES).

Definition finalize_run (now : Z) (s : ChannelMixRunState) (r : ChannelMixRun) : ChannelMixRun :=
  if is_terminal (run_state r) then r else set_completed_at (Some now) (set_run_state s r).

Definition make_channel_entry (peer_alias peer_pubkey peer_host : ustr) (capacity_sats push_sat expected_inbound_seed_sats : Z)
    (strategy : InboundSeedStrategy) : channel_entry :=
  let seed_state := if (expected_inbound_seed_sats <=? 0) || bool_decide (strategy = push_only) then s_skipped else s_queued in
  mkChannel peer_alias peer_pubkey peer_host capacity_sats push_sat expected_inbound_seed_sats strategy o_queued None None None
    None seed_state None None.

Definition make_bootstrap_round_entry (round_index : Z) (peer_alias peer_pubkey peer_host : ustr)
    (capacity_sats drain_target_sats spendable_before_sats : Z) : round_entry :=
  mkRoundEntry round_index opening peer_alias peer_pubkey peer_host capacity_sats drain_target_sats 0 spendable_before_sats
    None None None None None None None None 0 None [] 0 0 0.

(** [run.channels[idx] = entry] *)
Definition put_round (idx : nat) (e : round_entry) (r : ChannelMixRun) : ChannelMixRun := set_rounds (<[idx := e]> (rounds r)) r.
Definition put_channel (idx : nat) (e : channel_entry) (r : ChannelMixRun) : ChannelMixRun :=
  set_channels (<[idx := e]> (channels r)) r.

Definition warn (w : ustr) (r : ChannelMixRun) : ChannelMixRun := set_run_warnings (run_warnings r ++ [w]) r.
