(* ===== verification/Prog.v ===== *)
(** * Programs of calls

    Python coroutines as data: a program returns or makes a call and goes on
    with the result it gets, so that programs of concurrent tasks interleave
    between calls. [E X] is the type of calls answered with an [X]; a call
    answers a value or an exception.

    The last section is the program logic the clients use: a protocol gives
    each call a precondition and a set of answers per phase, and [wp] is the
    weakest precondition of a program under it. *)
From S2P Require Import Prelude.

Inductive prog (E : Type -> Type) (A : Type) : Type :=
  | Return (a : A)
  | Call (X : Type) (o : E X) (k : result X -> prog E A).
Arguments Return {E A} a.
Arguments Call {E A X} o k.

Fixpoint pbind {E A B} (p : prog E A) (f : A -> prog E B) : prog E B :=
  match p with
  | Return a => f a
  | Call o k => Call o (fun r => pbind (k r) f)
  end.

(** Code that may raise. *)
Abbreviation rprog E A := (prog E (result A)).

Definition perform {E X} (o : E X) : rprog E X := Call o Return.

Definition rbind {E A B} (p : rprog E A) (f : A -> rprog E B) : rprog E B :=
  pbind p (fun r => match r with Ok a => f a | Err e => Return (Err e) end).

(** [try: p except Exception: h] *)
Definition except {E A} (p : rprog E A) (h : exn -> rprog E A) : rprog E A :=
  pbind p (fun r => match r with Ok a => Return (Ok a) | Err e => h e end).

Definition value_of {E A} (a : A) : rprog E A := Return (Ok a).
Definition raise {E A} (e : exn) : rprog E A := Return (Err e).

Declare Scope prog_scope.
Delimit Scope prog_scope with prog.
Notation "x <-- p ; q" := (rbind p (fun x => q)) (at level 60, p at next level, right associativity) : prog_scope.
Open Scope prog_scope.

(** ** Protocols *)

(** A protocol a program follows: in a phase, the calls it may make and,
    for each answer the call can get, the phases it can be in afterwards. *)
Class Protocol (E : Type -> Type) (phase : Type) := {
  may : phase -> forall X, E X -> Prop;
  after : phase -> forall X, E X -> result X -> phase -> Prop
}.
Arguments may {E phase _} ph {X} o.
Arguments after {E phase _} ph {X} o r ph'.

Section wp.
Context {E : Type -> Type} {phase : Type} `{Protocol E phase}.

Fixpoint wp {A} (ph : phase) (p : prog E A) (Q : phase -> A -> Prop) : Prop :=
  match p with
  | Return a => Q ph a
  | Call o k => may ph o /\ forall r ph', after ph o r ph' -> wp ph' (k r) Q
  end.

Lemma wp_bind {A B} (p : prog E A) (f : A -> prog E B) : forall ph Q,
  wp ph p (fun ph' a => wp ph' (f a) Q) -> wp ph (pbind p f) Q.
Proof.
  induction p as [a|X o k IH]; intros ph Q; simpl; [done|].
  intros [? Hk]. split; [done|]. intros r ph' Hr. apply IH, Hk, Hr.
Qed.

Lemma wp_mono {A} (p : prog E A) : forall ph (Q R : phase -> A -> Prop),
  (forall ph a, Q ph a -> R ph a) -> wp ph p Q -> wp ph p R.
Proof.
  induction p as [a|X o k IH]; intros ph Q R HQR; simpl; [auto|].
  intros [? Hk]. split; [done|]. intros r ph' Hr. eapply IH; [exact HQR|by apply Hk].
Qed.

Lemma wp_call {A X} (o : E X) (k : result X -> prog E A) ph Q r ph' :
  wp ph (Call o k) Q -> after ph o r ph' -> wp ph' (k r) Q.
Proof. intros [_ Hk]. apply Hk. Qed.

Lemma wp_perform {X} (o : E X) ph (Q : phase -> result X -> Prop) :
  may ph o -> (forall r ph', after ph o r ph' -> Q ph' r) -> wp ph (perform o) Q.
Proof. done. Qed.

Lemma wp_rbind {A B} (p : rprog E A) (f : A -> rprog E B) ph Q :
  wp ph p (fun ph' r => match r with Ok a => wp ph' (f a) Q | Err e => Q ph' (Err e) end) -> wp ph (rbind p f) Q.
Proof. intros Hp. apply wp_bind. eapply wp_mono; [|exact Hp]. by intros ? [|]. Qed.

(** Parts that keep a condition unless they raise. *)
Lemma wp_next {A B} (p : rprog E A) (f : A -> rprog E B) ph (P : phase -> A -> Prop) (Q : phase -> B -> Prop) :
  wp ph p (fun ph' r => match r with Ok a => P ph' a | Err _ => True end) ->
  (forall ph' a, P ph' a -> wp ph' (f a) (fun ph'' r => match r with Ok b => Q ph'' b | Err _ => True end)) ->
  wp ph (rbind p f) (fun ph' r => match r with Ok b => Q ph' b | Err _ => True end).
Proof. intros Hp Hf. apply wp_rbind. eapply wp_mono; [|exact Hp]. intros ph' [a|e]; auto. Qed.

Lemma wp_except {A} (p : rprog E A) h ph Q :
  wp ph p (fun ph' r => match r with Ok a => Q ph' (Ok a) | Err e => wp ph' (h e) Q end) -> wp ph (except p h) Q.
Proof. intros Hp. apply wp_bind. eapply wp_mono; [|exact Hp]. by intros ? [|]. Qed.
End wp.

(** ** Programs that make only some calls *)

(** Of a value or an exception. *)
Definition ok_or {A} (P : A -> Prop) (r : result A) : Prop := match r with Ok a => P a | Err _ => True end.

Definition whatever {A} (a : A) : Prop := True.

Section only.
Context {E : Type -> Type} (allowed : forall X, E X -> bool).

(** Only allowed calls, and every value the program can end with has [P]. *)
Fixpoint only {A} (P : A -> Prop) (p : prog E A) : Prop :=
  match p with Return a => P a | Call o k => allowed _ o = true /\ forall r, only P (k r) end.

Lemma only_bind {A B} (P : A -> Prop) (Q : B -> Prop) p f :
  only P p -> (forall a, P a -> only Q (f a)) -> only Q (pbind p f).
Proof. intros Hp Hf. induction p as [a|X o k IH]; simpl in *; [by apply Hf|]. destruct Hp. split; auto. Qed.

Lemma only_rbind {A B} (P : A -> Prop) (Q : B -> Prop) (p : rprog E A) (f : A -> rprog E B) :
  only (ok_or P) p -> (forall a, P a -> only (ok_or Q) (f a)) -> only (ok_or Q) (rbind p f).
Proof. intros Hp Hf. eapply only_bind; [exact Hp|]. by intros [a|e] H; [apply Hf|]. Qed.

Lemma only_except {A} (P : A -> Prop) (p : rprog E A) h :
  only (ok_or P) p -> (forall e, only (ok_or P) (h e)) -> only (ok_or P) (except p h).
Proof. intros Hp Hh. eapply only_bind; [exact Hp|]. by intros [a|e] H. Qed.

Lemma only_perform {X} (o : E X) : allowed _ o = true -> only (ok_or whatever) (perform o).
Proof. intros H. split; [done|]. by intros [|]. Qed.

(** Calls the protocol does not notice in a phase. *)
Context {phase : Type} `{Protocol E phase}.

Definition unnoticed (ph : phase) : Prop :=
  forall X (o : E X), allowed _ o = true -> may ph o /\ forall r ph', after ph o r ph' -> ph' = ph.

Lemma wp_only {A} (P : A -> Prop) p ph Q : unnoticed ph -> only P p -> (forall a, P a -> Q ph a) -> wp ph p Q.
Proof.
  intros Hu Hp HQ. induction p as [a|X o k IH]; simpl in *; [by apply HQ|]. destruct Hp as [Ho Hk].
  destruct (Hu X o Ho) as [Hm Ha]. split; [done|]. intros r ph' Hr. rewrite (Ha r ph' Hr). by apply IH.
Qed.

Lemma wp_only_rbind {A B} (P : A -> Prop) (p : rprog E A) (f : A -> rprog E B) ph Q :
  unnoticed ph -> only (ok_or P) p -> (forall e, Q ph (Err e)) -> (forall a, P a -> wp ph (f a) Q) -> wp ph (rbind p f) Q.
Proof. intros Hu Hp He Hf. apply wp_rbind. eapply wp_only; [exact Hu|exact Hp|]. intros [a|e] H'; auto. Qed.
End only.
