(* ===== verification/MixTask.v ===== *)
(** * The channel-mix executor

    tasks/channel_mix_tasks.py: one tick of [process_channel_mix_run], in the
    parallel and in the bootstrap mode, as programs of calls to the database,
    LND, Boltz, the fee service and the audit log. The run the session has
    loaded is passed along; an exception discards it. [create_reverse_swap]
    commits the session it is given, so its call carries the run. The audit
    row's details, the pause between polls and the tails of error texts that
    quote a formatted number are left out. *)
From S2P Require Import Prelude Prog Bytes PyInt PyFloat Utf8 Json PyJson ChannelMix Bootstrap MixRun.

Record open_result := mkOpened { funding_txid : ustr; output_index : option Z }.

Record channel_info := mkChanInfo {
  ci_remote_pubkey : ustr; ci_active : bool; ci_channel_point : ustr; ci_chan_id : ustr;
  ci_local_balance : Z; ci_local_chan_reserve_sat : Z; ci_commit_fee : Z; ci_unsettled_balance : Z
}.

Record pending_info := mkPending { pi_channel_point : ustr; pi_type : ustr }.

Record wallet_balance := mkBalance { confirmed_balance : Z; reserved_balance_anchor_chan : Z }.

Inductive swap_status := sw_pending | sw_completed | sw_failed | sw_cancelled | sw_refunded.

Global Instance swap_status_eq_dec : EqDecision swap_status.
Proof. solve_decision. Defined.

(** What the executor reads of a [BoltzSwap]. *)
Record swap_view := mkSwapView {
  sv_status : swap_status; sv_status_text : ustr; sv_lockup_txid : option ustr; sv_claim_txid : option ustr;
  sv_onchain_amount_sats : option Z
}.

(** An answer of a service: data or an error text. *)
Abbreviation answer A := (option A * option ustr)%type.

Inductive call : Type -> Type :=
  | Now : call Z
  | D_load : call (option ChannelMixRun)
  | D_commit (r : ChannelMixRun) : call unit
  | D_swap (swap_id : ustr) : call (option swap_view)
  | A_audit (idx : nat) (success : bool) : call unit
  | L_connect (pubkey host : ustr) : call (option ustr)
  | L_peers : call (answer (list ustr))
  | L_open (pubkey : ustr) (capacity : Z) (sat_per_vbyte : option Z) (push : Z) : call (answer open_result)
  | L_channels : call (answer (list channel_info))
  | L_pending : call (answer (list pending_info))
  | L_active (channel_point : ustr) : call (bool * option ustr)
  | L_address : call (answer (option ustr))
  | L_balance : call (answer wallet_balance)
  | F_fees : call (answer (list (ustr * fee_number)))
  | B_create (r : ChannelMixRun) (amount : Z) (destination : ustr) (outgoing_chan_id : option ustr) : call (answer ustr)
  | Q_enqueue (swap_id : ustr) : call unit.

Abbreviation task A := (rprog call A).

Definition BOOTSTRAP_MAX_SWAP_ATTEMPTS : Z := 4.
Definition BOOTSTRAP_MAX_CONNECT_ATTEMPTS : Z := 3.
Definition BOOTSTRAP_PEER_CONNECT_WAIT_POLLS : nat := 15.
Definition BOOTSTRAP_ANCHOR_RESERVE_PER_CHAN : Z := 10000.
Definition BOOTSTRAP_MAX_ANCHOR_RESERVE : Z := 100000.
Definition BOOTSTRAP_HEADROOM_SATS : Z := 10000.
Definition minutes (n : Z) : Z := n * 60 * 1000000.
Definition BOOTSTRAP_MAX_DURATION : Z := minutes (24 * 60).
Definition BOOTSTRAP_AWAITING_FUNDS_TIMEOUT : Z := minutes 90.
Definition BOOTSTRAP_STUCK : Z := minutes 90.
Definition CHANNEL_MIX_WAIT_HARD_TIMEOUT : Z := minutes (24 * 60).

Definition cut (s : ustr) : ustr := take 512 s.
Definition or_text (e : option ustr) (d : string) : ustr := match e with Some ((_ :: _) as s) => s | _ => u d end.
Definition str_int (n : Z) : ustr := u (str_of_int n).
Definition same_key (a b : ustr) : bool := bool_decide (lower_text a = lower_text b).
Definition point (txid : ustr) (vout : Z) : ustr := txid ++ u ":" ++ str_int vout.

(** an em dash and a blank *)
Definition dash : ustr := [0x2014; 32].

(** [err and "already connected" not in str(err).lower()] *)
Definition connect_failed (err : option ustr) : bool :=
  nonempty err && negb (infix (u "already connected") (lower_text (default [] err))).

(** ** Backstops *)

Definition _channel_confirmed_dead (channel_point : ustr) : task (option bool) :=
  pending <-- perform L_pending;
  match pending with
  | (Some ps, err) =>
      if nonempty err then value_of None
      else
        match List.find (fun p => bool_decide (pi_channel_point p = channel_point)) ps with
        | Some p => value_of (Some (negb (bool_decide (pi_type p = u "pending_open"))))
        | None =>
            active <-- perform L_channels;
            match active with
            | (Some cs, err) =>
                if nonempty err then value_of None
                else value_of (Some (negb (existsb (fun c => bool_decide (ci_channel_point c = channel_point)) cs)))
            | _ => value_of None
            end
        end
  | _ => value_of None
  end.

Definition _wait_hard_timed_out (since : option Z) (now : Z) : bool :=
  match since with Some t => CHANNEL_MIX_WAIT_HARD_TIMEOUT <=? now - t | None => false end.

Fixpoint poll_peers (n : nat) (pubkey : ustr) : task bool :=
  match n with
  | O => value_of false
  | S n =>
      ans <-- perform L_peers;
      match ans with
      | (Some pubs, err) => if negb (nonempty err) && bool_decide (pubkey ∈ pubs) then value_of true else poll_peers n pubkey
      | _ => poll_peers n pubkey
      end
  end.

Definition _wait_peer_connected (pubkey : ustr) : task bool := poll_peers BOOTSTRAP_PEER_CONNECT_WAIT_POLLS pubkey.

(** ** The parallel executor *)

(** [entry["open_state"] = "open_failed"] with its error and the seed slot settled *)
Definition fail_open (err : ustr) (e : channel_entry) : channel_entry :=
  let e := set_c_open_error (Some (cut err)) (set_c_open_state o_open_failed e) in
  if bool_decide (c_seed_state e = s_queued) then set_c_seed_state s_skipped e else e.

Definition _open_one_channel (run : ChannelMixRun) (idx : nat) : task ChannelMixRun :=
  match channels run !! idx with
  | None => raise IndexError
  | Some entry =>
      if negb (bool_decide (c_open_state entry = o_queued)) then value_of run
      else
        let entry := set_c_open_state o_opening entry in
        let failed err :=
          let run := put_channel idx (fail_open err entry) run in
          _ <-- perform (A_audit idx false);
          value_of run in
        err <-- perform (L_connect (c_peer_pubkey entry) (c_peer_host entry));
        if connect_failed err then failed (u "connect failed: " ++ default [] err)
        else
          up <-- _wait_peer_connected (c_peer_pubkey entry);
          if negb up then failed (u "connect failed: peer did not come online")
          else
            ans <-- perform (L_open (c_peer_pubkey entry) (c_capacity_sats entry) None (c_push_sat entry));
            match ans with
            | (Some res, err) =>
                if nonempty err then failed (u "open failed: " ++ or_text err "no result")
                else
                  now <-- perform Now;
                  let entry := set_c_open_pending_since (Some now) (set_c_open_state o_open_pending entry) in
                  let entry := match funding_txid res with [] => entry | t => set_c_open_txid (Some t) entry end in
                  let entry := match output_index res with None => entry | i => set_c_open_output_index i entry end in
                  let run := put_channel idx entry run in
                  _ <-- perform (A_audit idx true);
                  value_of run
            | (None, err) => failed (u "open failed: " ++ or_text err "no result")
            end
  end.

Definition fail_seed (err : ustr) (e : channel_entry) : channel_entry :=
  set_c_seed_error (Some (cut err)) (set_c_seed_state s_seed_failed e).

Definition _seed_one_channel (run : ChannelMixRun) (idx : nat) : task ChannelMixRun :=
  match channels run !! idx with
  | None => raise IndexError
  | Some entry =>
      if negb (bool_decide (c_seed_state entry = s_queued)) || negb (bool_decide (c_open_state entry = o_open_active))
      then value_of run
      else if c_expected_inbound_seed_sats entry <=? 0
      then value_of (put_channel idx (set_c_seed_state s_skipped entry) run)
      else
        addr <-- perform L_address;
        match addr with
        | (Some a, err) =>
            if nonempty err then value_of (put_channel idx (fail_seed (u "derive address: " ++ or_text err "no result") entry) run)
            else
              match a with
              | Some ((_ :: _) as destination) =>
                  let entry := set_c_seed_state s_swapping entry in
                  let run := put_channel idx entry run in
                  swap <-- perform (B_create run (c_expected_inbound_seed_sats entry) destination None);
                  match swap with
                  | (Some id, err) =>
                      if nonempty err then value_of (put_channel idx (fail_seed (u "create swap: " ++ or_text err "no swap") entry) run)
                      else value_of (put_channel idx (set_c_seed_state s_seeded (set_c_seed_swap_id (Some id) entry)) run)
                  | (None, err) => value_of (put_channel idx (fail_seed (u "create swap: " ++ or_text err "no swap") entry) run)
                  end
              | _ => value_of (put_channel idx (fail_seed (u "derive address: no address returned") entry) run)
              end
        | (None, err) => value_of (put_channel idx (fail_seed (u "derive address: " ++ or_text err "no result") entry) run)
        end
  end.

(** The last active channel of a peer wins the dictionary slot. *)
Definition by_pubkey (cs : list channel_info) (pubkey : ustr) : option channel_info :=
  List.find (fun c => negb (bool_decide (ci_remote_pubkey c = [])) && same_key (ci_remote_pubkey c) pubkey) (reverse cs).

Definition refresh_entry (cs : list channel_info) (e : channel_entry) : channel_entry :=
  if bool_decide (c_open_state e = o_open_pending)
  then match by_pubkey cs (c_peer_pubkey e) with
       | Some c => if ci_active c then set_c_open_state o_open_active e else e
       | None => e
       end
  else e.

Definition _refresh_open_pending_states (run : ChannelMixRun) : task ChannelMixRun :=
  if negb (existsb (fun e => bool_decide (c_open_state e = o_open_pending)) (channels run)) then value_of run
  else
    ans <-- perform L_channels;
    match ans with
    | (Some cs, err) =>
        if nonempty err then value_of run else value_of (set_channels (map (refresh_entry cs) (channels run)) run)
    | _ => value_of run
    end.

Definition stuck_reason_parallel (e : channel_entry) (now : Z) : task (option ustr) :=
  dead <-- (match c_open_txid e, c_open_output_index e with
            | Some ((_ :: _) as t), Some i => _channel_confirmed_dead (point t i)
            | _, _ => value_of None
            end);
  value_of (if bool_decide (dead = Some true) then Some (u "the channel was force-closed or abandoned before it confirmed")
            else if _wait_hard_timed_out (c_open_pending_since e) now then Some (u "the channel didn't confirm within the safety window")
            else None).

Definition resolve_channel (skip : list nat) (now : Z) (run : ChannelMixRun) (idx : nat) : task ChannelMixRun :=
  match channels run !! idx with
  | None => raise IndexError
  | Some e =>
      if bool_decide (idx ∈ skip) || negb (bool_decide (c_open_state e = o_open_pending)) then value_of run
      else
        reason <-- stuck_reason_parallel e now;
        match reason with
        | None => value_of run
        | Some why =>
            value_of (warn (u "Channel to " ++ or_text (Some (c_peer_alias e)) "peer" ++ u ": stopped automatically " ++ dash ++ why ++ u ".")
                        (put_channel idx (fail_open why e) run))
        end
  end.

(** [for idx in ...] over a run that the body updates *)
Fixpoint each {S} (body : S -> nat -> task S) (st : S) (l : list nat) : task S :=
  match l with
  | [] => value_of st
  | i :: l => st <-- body st i; each body st l
  end.

Definition indices (run : ChannelMixRun) : list nat := seq 0 (length (channels run)).

Definition _resolve_stuck_parallel_channels (run : ChannelMixRun) (skip : list nat) : task ChannelMixRun :=
  now <-- perform Now; each (resolve_channel skip now) run (indices run).

Definition open_over (e : channel_entry) : bool := bool_decide (c_open_state e ∈ [o_open_active; o_open_failed]).
Definition seed_over (e : channel_entry) : bool := bool_decide (c_seed_state e ∈ [s_skipped; s_seeded; s_seed_failed]).
Definition entry_failed (e : channel_entry) : bool :=
  bool_decide (c_open_state e = o_open_failed) || bool_decide (c_seed_state e = s_seed_failed).

Definition _rollup_state (run : ChannelMixRun) : ChannelMixRunState :=
  if bool_decide (channels run = []) then COMPLETE
  else if forallb open_over (channels run) && forallb seed_over (channels run)
  then if existsb entry_failed (channels run) then PARTIAL_FAILURE else COMPLETE
  else IN_PROGRESS.

(** The first loop of a tick, with the indices opened on it. *)
Definition open_queued (st : ChannelMixRun * list nat) (idx : nat) : task (ChannelMixRun * list nat) :=
  match channels st.1 !! idx with
  | None => raise IndexError
  | Some e =>
      if bool_decide (c_open_state e = o_queued)
      then run <-- _open_one_channel st.1 idx; value_of (run, idx :: st.2)
      else value_of st
  end.

Definition roll_up (now : Z) (run : ChannelMixRun) : ChannelMixRun :=
  let new_state := _rollup_state run in
  if bool_decide (new_state = run_state run) then run
  else if bool_decide (new_state ∈ [COMPLETE; PARTIAL_FAILURE]) then finalize_run now new_state run
  else set_run_state new_state run.

Definition advance_parallel (run : ChannelMixRun) : task ChannelMixRun :=
  let run := set_run_state IN_PROGRESS run in
  st <-- each open_queued (run, []) (indices run);
  run <-- _refresh_open_pending_states st.1;
  run <-- _resolve_stuck_parallel_channels run st.2;
  run <-- each _seed_one_channel run (indices run);
  now <-- perform Now;
  value_of (set_updated_at now (roll_up now run)).

(** ** The bootstrap executor *)

Section Bootstrap.
Context (lower : ustr -> ustr) (catalog : list SmallChannelPeer).
Context (random : bytes -> nat -> float) (pow : float -> float -> float).
(** [peer_selection_seed] of the wallet's secret and the stored inputs *)
Context (peer_selection_seed : BootstrapParams -> bytes).

Definition stuck_text (e : round_entry) (what : string) : ustr :=
  u "Round " ++ str_int (r_round_index e) ++ u ": " ++ u what ++ u " is taking longer than expected to confirm " ++ dash
  ++ u "this can happen when fees are low. It will continue on its own; no action needed.".

Definition _bootstrap_flag_stuck_if_waiting (now : Z) (run : ChannelMixRun) (idx : nat) (e : round_entry) (what : string)
    : ChannelMixRun * round_entry :=
  match r_waiting_since e with
  | None => let e := set_r_waiting_since (Some now) e in (put_round idx e run, e)
  | Some since => (if BOOTSTRAP_STUCK <=? now - since then set_error_message (Some (stuck_text e what)) run else run, e)
  end.

Definition _bootstrap_clear_waiting (run : ChannelMixRun) (e : round_entry) : ChannelMixRun * round_entry :=
  (if nonempty (error_message run) then set_error_message None run else run, set_r_waiting_since None e).

Definition _bootstrap_eligible_peers (run : ChannelMixRun) : result (list SmallChannelPeer) :=
  let p := bootstrap_params run in
  sel ← select_peers lower catalog random pow (p_network p) 64 (p_peer_mix_mode p) (p_manual_picks p)
          (p_include_marginal_routing p) (Some (peer_selection_seed p));
  Ok sel.1.

Definition _bootstrap_next_peer (run : ChannelMixRun) (round_index : nat) : result (option SmallChannelPeer) :=
  peers ← _bootstrap_eligible_peers run;
  Ok match peers with [] => None | _ => peers !! (round_index mod length peers)%nat end.

(** The entry on the next eligible peer, or [None] when there is none. *)
Definition _bootstrap_switch_to_next_peer (run : ChannelMixRun) (e : round_entry) (reason : ustr) : result (option round_entry) :=
  let tried := if bool_decide (r_peer_pubkey e ∈ r_tried_pubkeys e) then r_tried_pubkeys e
               else r_peer_pubkey e :: r_tried_pubkeys e in
  peers ← _bootstrap_eligible_peers run;
  Ok match List.find (fun p => negb (bool_decide (node_id_hex p ∈ tried))) peers with
     | None => None
     | Some nxt =>
         Some (set_r_open_error (Some (cut (reason ++ u ", trying " ++ alias nxt)))
                 (set_r_connect_attempts 0 (set_r_tried_pubkeys tried
                   (set_r_peer_alias (alias nxt) (set_r_peer_host (address nxt) (set_r_peer_pubkey (node_id_hex nxt) e))))))
     end.

(** A pure step that may raise, in a program. *)
Definition lift {A} (r : result A) : task A := Return r.

(** Moves the round to the next peer, or fails it. *)
Definition escalate (run : ChannelMixRun) (idx : nat) (e : round_entry) (reason err : ustr) : task ChannelMixRun :=
  next <-- lift (_bootstrap_switch_to_next_peer run e reason);
  match next with
  | Some e => value_of (put_round idx e run)
  | None =>
      let run := put_round idx (set_r_open_error (Some (cut err)) (set_r_state open_failed e)) run in
      _ <-- perform (A_audit idx false);
      value_of run
  end.

(** Counts a failed connection: another tick, or the next peer. *)
Definition retry_connect (run : ChannelMixRun) (idx : nat) (e : round_entry) (detail reason err : ustr) : task ChannelMixRun :=
  let attempts := r_connect_attempts e + 1 in
  let e := set_r_connect_attempts attempts e in
  if attempts <? BOOTSTRAP_MAX_CONNECT_ATTEMPTS
  then value_of (put_round idx (set_r_open_error (Some (cut (u "connect (retry " ++ str_int attempts ++ u "): " ++ detail))) e) run)
  else escalate run idx e reason err.

Definition _bootstrap_resolve_stuck_round (run : ChannelMixRun) (idx : nat) (e : round_entry) : task ChannelMixRun :=
  now <-- perform Now;
  dead <-- (match r_open_txid e with
            | Some ((_ :: _) as t) => _channel_confirmed_dead (point t (default 0 (r_open_output_index e)))
            | _ => value_of None
            end);
  let reason :=
    if bool_decide (dead = Some true) then Some (u "the channel was force-closed or abandoned before the round finished")
    else if _wait_hard_timed_out (r_waiting_since e) now then Some (u "the round didn't confirm within the safety window")
    else None in
  match reason with
  | None => value_of run
  | Some why =>
      let '(run, e) := _bootstrap_clear_waiting run e in
      let e := if nonempty (r_swap_id e) then set_r_swap_error (Some (cut why)) (set_r_state swap_failed e)
               else set_r_open_error (Some (cut why)) (set_r_state open_failed e) in
      value_of (warn (u "Round " ++ str_int (r_round_index e) ++ u ": stopped automatically " ++ dash ++ why ++ u ".")
                  (put_round idx e run))
  end.

Definition _bootstrap_feerate_sat_vb : task float :=
  except (ans <-- perform F_fees;
          match ans with
          | (Some ((_ :: _) as fees), err) =>
              if nonempty err then value_of FALLBACK_SAT_PER_VB
              else
                match or_number (assoc (u "halfHourFee") fees) (assoc (u "hourFee") fees) with
                | Some v =>
                    if match v with NInt n => 0 <? n | NFloat f => SFltb zero f end
                    then lift (float_of_number v) else value_of FALLBACK_SAT_PER_VB
                | None => value_of FALLBACK_SAT_PER_VB
                end
          | _ => value_of FALLBACK_SAT_PER_VB
          end)
    (fun _ => value_of FALLBACK_SAT_PER_VB).

(** *** opening *)

(** LND refused the open, or its answer has no funding id. *)
Definition open_refused (run : ChannelMixRun) (idx : nat) (e : round_entry) (open_err : option ustr) : task ChannelMixRun :=
  let err_text := lower_text (default [] open_err) in
  let pass_on e := escalate run idx e (u "open rejected (" ++ or_text open_err "no funding_txid" ++ u ")")
                     (u "open: " ++ or_text open_err "no funding_txid") in
  if nonempty open_err && infix (u "reserved wallet balance") err_text then
    let shrinks := r_reserve_shrink_attempts e + 1 in
    let e := set_r_reserve_shrink_attempts shrinks e in
    let new_cap := r_capacity_sats e - BOOTSTRAP_ANCHOR_RESERVE_PER_CHAN in
    if (PER_CHANNEL_FLOOR_SATS <=? new_cap) && (shrinks <=? BOOTSTRAP_MAX_ANCHOR_RESERVE / BOOTSTRAP_ANCHOR_RESERVE_PER_CHAN)
    then value_of (put_round idx
           (set_r_open_error (Some (u "resizing for LND anchor reserve (retry " ++ str_int shrinks ++ u ")"))
              (set_r_capacity_sats new_cap e)) run)
    else
      let run := put_round idx (set_r_open_error (Some (cut (u "open: " ++ default [] open_err))) (set_r_state open_failed e)) run in
      _ <-- perform (A_audit idx false);
      value_of run
  else if nonempty open_err && (infix (u "not online") err_text || infix (u "not connected") err_text) then
    let attempts := r_connect_attempts e + 1 in
    let e := set_r_connect_attempts attempts e in
    if attempts <? BOOTSTRAP_MAX_CONNECT_ATTEMPTS
    then value_of (put_round idx
           (set_r_open_error (Some (u "open (retry " ++ str_int attempts ++ u "): peer not online yet")) e) run)
    else pass_on e
  else pass_on e.

Definition round_opening (run : ChannelMixRun) (idx : nat) (e : round_entry) : task ChannelMixRun :=
  if nonempty (r_open_txid e) then value_of (put_round idx (set_r_state open_pending e) run)
  else
    sat_per_vb <-- _bootstrap_feerate_sat_vb;
    err <-- perform (L_connect (r_peer_pubkey e) (r_peer_host e));
    if connect_failed err
    then retry_connect run idx e (default [] err) (u "peer unreachable (" ++ default [] err ++ u ")") (u "connect: " ++ default [] err)
    else
      up <-- _wait_peer_connected (r_peer_pubkey e);
      if negb up
      then retry_connect run idx e (u "peer did not come online") (u "peer did not come online") (u "connect: peer did not come online")
      else
        rate <-- lift (int_of_float sat_per_vb);
        ans <-- perform (L_open (r_peer_pubkey e) (r_capacity_sats e) (Some (Z.max 1 rate)) 0);
        match ans with
        | (Some (mkOpened ((_ :: _) as txid) out), err) =>
            if nonempty err then open_refused run idx e err
            else
              let e := set_r_open_error None (set_r_state open_pending
                         (set_r_open_output_index (Some (default 0 out)) (set_r_open_txid (Some txid) e))) in
              let run := put_round idx e run in
              _ <-- perform (D_commit run);
              _ <-- perform (A_audit idx true);
              value_of run
        | (_, err) => open_refused run idx e err
        end.

(** *** open_pending *)

Definition round_waits (run : ChannelMixRun) (idx : nat) (e : round_entry) (what : string) : task ChannelMixRun :=
  now <-- perform Now;
  let '(run, e) := _bootstrap_flag_stuck_if_waiting now run idx e what in
  _bootstrap_resolve_stuck_round run idx e.

Definition round_open_pending (run : ChannelMixRun) (idx : nat) (e : round_entry) : task ChannelMixRun :=
  ans <-- perform (L_active (point (default (u "None") (r_open_txid e)) (default 0 (r_open_output_index e))));
  match ans with
  | (_, Some _) => value_of run
  | (true, None) =>
      let '(run, e) := _bootstrap_clear_waiting run e in value_of (put_round idx (set_r_state open_active e) run)
  | (false, None) => round_waits run idx e "the channel open"
  end.

(** *** open_active *)

Definition round_open_active (run : ChannelMixRun) (idx : nat) (e : round_entry) : task ChannelMixRun :=
  ans <-- perform L_channels;
  match ans with
  | (Some cs, err) =>
      if nonempty err then value_of run
      else
        match List.find (fun c => same_key (ci_remote_pubkey c) (r_peer_pubkey e) && ci_active c) cs with
        | None => round_waits run idx e "the channel open"
        | Some c =>
            let drainable := Z.max 0 (ci_local_balance c - ci_local_chan_reserve_sat c - ci_commit_fee c - ci_unsettled_balance c) in
            drain <-- lift (without_routing drainable);
            let drain := Z.min drain BOOTSTRAP_DEFAULT_BOLTZ_MAX_SATS in
            if drain <? BOOTSTRAP_DEFAULT_BOLTZ_MIN_SATS then
              let e := set_r_state settled (set_r_swap_error (Some (u "drainable below Boltz minimum " ++ dash ++ u "channel kept as outbound"))
                         (set_r_recycled_sats (Some 0) (set_r_expected_inbound_sats 0 e))) in
              let run := warn (u "Round " ++ str_int (r_round_index e)
                               ++ u ": channel opened but its drainable amount fell below the Boltz minimum " ++ dash ++ u "kept as outbound.")
                           (put_round idx e run) in
              value_of (set_total_fees_sats (total_fees_sats run + r_open_fee_sats e) run)
            else
              addr <-- perform L_address;
              match addr with
              | (Some (Some ((_ :: _) as destination)), aerr) =>
                  if nonempty aerr then value_of run
                  else
                    swap <-- perform (B_create run drain destination (Some (ci_chan_id c)));
                    let failed err :=
                      let attempts := r_swap_attempts e + 1 in
                      let e := set_r_swap_attempts attempts e in
                      value_of (put_round idx
                        (if BOOTSTRAP_MAX_SWAP_ATTEMPTS <=? attempts
                         then set_r_swap_error (Some (cut (u "create swap: " ++ or_text err "no swap"))) (set_r_state swap_failed e)
                         else set_r_swap_error (Some (cut (u "create swap (retry " ++ str_int attempts ++ u "): " ++ default (u "None") err))) e) run) in
                    match swap with
                    | (Some id, err) =>
                        if nonempty err then failed err
                        else
                          let e := set_r_waiting_since None (set_r_swap_error None (set_r_state swap_pending
                                     (set_r_expected_inbound_sats drain (set_r_drain_target_sats drain (set_r_swap_id (Some id) e))))) in
                          let run := put_round idx e run in
                          _ <-- perform (D_commit run);
                          _ <-- except (perform (Q_enqueue id)) (fun _ => value_of tt);
                          value_of run
                    | (None, err) => failed err
                    end
              | _ => value_of run
              end
        end
  | _ => value_of run
  end.

(** *** swap_pending *)

Definition round_swap_pending (run : ChannelMixRun) (idx : nat) (e : round_entry) : task ChannelMixRun :=
  match r_swap_id e with
  | Some ((_ :: _) as swap_id) =>
      found <-- perform (D_swap swap_id);
      match found with
      | None => value_of (put_round idx (set_r_swap_id None (set_r_state open_active e)) run)
      | Some swap =>
          let e := if nonempty (sv_lockup_txid swap) then set_r_swap_lockup_txid (sv_lockup_txid swap) e else e in
          let e := if nonempty (sv_claim_txid swap) then set_r_swap_claim_txid (sv_claim_txid swap) e else e in
          let run := put_round idx e run in
          match sv_status swap with
          | sw_completed =>
              let recycled := default 0 (sv_onchain_amount_sats swap) in
              let drain := r_expected_inbound_sats e in
              let swap_fee := Z.max 0 (drain - recycled) in
              let e := set_r_swap_error None (set_r_recycled_sats (Some recycled) e) in
              let '(run, e) := _bootstrap_clear_waiting run e in
              let e := set_r_state settled e in
              let run := put_round idx e run in
              let run := set_realized_inbound_sats (realized_inbound_sats run + drain) run in
              value_of (set_total_fees_sats (total_fees_sats run + r_open_fee_sats e + swap_fee) run)
          | sw_failed | sw_cancelled | sw_refunded =>
              let attempts := r_swap_attempts e + 1 in
              let e := set_r_swap_attempts attempts e in
              let '(run, e) := _bootstrap_clear_waiting run e in
              value_of (put_round idx
                (if BOOTSTRAP_MAX_SWAP_ATTEMPTS <=? attempts
                 then set_r_swap_error (Some (cut (u "drain failed (" ++ sv_status_text swap ++ u ")"))) (set_r_state swap_failed e)
                 else set_r_swap_error
                        (Some (cut (u "drain attempt " ++ str_int attempts ++ u " failed (" ++ sv_status_text swap ++ u "); retrying")))
                        (set_r_swap_id None (set_r_state open_active e))) run)
          | sw_pending => round_waits run idx e "the swap claim"
          end
      end
  | _ => value_of (put_round idx (set_r_state open_active e) run)
  end.

Definition _advance_bootstrap_round (run : ChannelMixRun) (idx : nat) : task ChannelMixRun :=
  match rounds run !! idx with
  | None => raise IndexError
  | Some e =>
      match r_state e with
      | opening => round_opening run idx e
      | open_pending => round_open_pending run idx e
      | open_active => round_open_active run idx e
      | swap_pending => round_swap_pending run idx e
      | _ => value_of run
      end
  end.

(** *** Rounds and the run *)

(** Index of the first round that is not over. *)
Fixpoint inflight (i : nat) (l : list round_entry) : option nat :=
  match l with
  | [] => None
  | e :: l => if round_over (r_state e) then inflight (S i) l else Some i
  end.

Definition _bootstrap_inflight_index (run : ChannelMixRun) : option nat := inflight 0 (rounds run).

Definition _bootstrap_settled_count (run : ChannelMixRun) : nat :=
  length (List.filter (fun e => bool_decide (r_state e = settled)) (rounds run)).

Definition _bootstrap_target_reached (run : ChannelMixRun) : bool :=
  match target_inbound run with Some t => t <=? realized_inbound_sats run | None => false end.

Definition _bootstrap_duration_exceeded (run : ChannelMixRun) (now : Z) : bool := BOOTSTRAP_MAX_DURATION <=? now - started_at run.

Definition _bootstrap_awaiting_timed_out (run : ChannelMixRun) (now : Z) : bool :=
  match awaiting_since (bootstrap_params run) with Some t => BOOTSTRAP_AWAITING_FUNDS_TIMEOUT <=? now - t | None => false end.

Definition _set_awaiting_since (v : option Z) (run : ChannelMixRun) : ChannelMixRun :=
  set_bootstrap_params (set_awaiting_since v (bootstrap_params run)) run.

Definition last_failed (run : ChannelMixRun) : bool :=
  match last (rounds run) with Some e => bool_decide (r_state e ∈ [open_failed; swap_failed]) | None => false end.

(** Appends the round and opens it. *)
Definition start_round (run : ChannelMixRun) (p : SmallChannelPeer) (settled_count : nat) (capacity drain_est confirmed open_fee : Z)
    : task ChannelMixRun :=
  let entry := set_r_open_fee_sats open_fee
    (make_bootstrap_round_entry (Z.of_nat settled_count) (alias p) (node_id_hex p) (address p) capacity drain_est confirmed) in
  let run := set_run_state IN_PROGRESS (set_rounds (rounds run ++ [entry]) run) in
  run <-- _advance_bootstrap_round run (length (rounds run) - 1);
  if match last (rounds run) with Some e => bool_decide (r_state e = open_failed) | None => false end
  then now <-- perform Now; value_of (finalize_run now PARTIAL_FAILURE run)
  else value_of run.

(** With enough balance for a channel. *)
Definition fund_round (run : ChannelMixRun) (settled_count : nat) (now capacity confirmed open_fee : Z) : task ChannelMixRun :=
  let run := match awaiting_since (bootstrap_params run) with Some _ => _set_awaiting_since None run | None => run end in
  drain_est <-- lift (bootstrap_drain_for_capacity capacity BOOTSTRAP_DEFAULT_BOLTZ_MAX_SATS);
  if drain_est <? BOOTSTRAP_DEFAULT_BOLTZ_MIN_SATS
  then value_of (warn (u "Reached the practical limit " ++ dash ++ u "the remaining balance can't be drained by swap.")
                   (finalize_run now COMPLETE run))
  else
    p <-- lift (_bootstrap_next_peer run settled_count);
    match p with
    | None => value_of (warn (u "No eligible peer available to open another channel.") (finalize_run now COMPLETE run))
    | Some p => start_round run p settled_count capacity drain_est confirmed open_fee
    end.

Definition _bootstrap_maybe_start_round (run : ChannelMixRun) : task ChannelMixRun :=
  now <-- perform Now;
  let settled_count := _bootstrap_settled_count run in
  if stop_requested run
  then value_of (warn (u "Stopped after the current round at your request.") (finalize_run now CANCELLED run))
  else if _bootstrap_target_reached run then value_of (finalize_run now COMPLETE run)
  else if (BOOTSTRAP_MAX_ROUNDS <=? settled_count)%nat
  then value_of (warn (u "Reached the 40-round cap.") (finalize_run now COMPLETE run))
  else if _bootstrap_duration_exceeded run now
  then value_of (warn (u "Reached the maximum run duration.") (finalize_run now COMPLETE run))
  else
    bal <-- perform L_balance;
    match bal with
    | (Some b, err) =>
        if nonempty err then value_of (set_run_state IN_PROGRESS run)
        else
          let confirmed := confirmed_balance b in
          sat_per_vb <-- _bootstrap_feerate_sat_vb;
          open_fee <-- lift (_open_fee_sats 1 sat_per_vb);
          let anchor_reserve := Z.min (reserved_balance_anchor_chan b + BOOTSTRAP_ANCHOR_RESERVE_PER_CHAN) BOOTSTRAP_MAX_ANCHOR_RESERVE in
          let headroom := Z.max BOOTSTRAP_HEADROOM_SATS anchor_reserve in
          cap <-- lift (bootstrap_capacity_cap BOOTSTRAP_DEFAULT_BOLTZ_MAX_SATS);
          let capacity := Z.min (confirmed - open_fee - headroom) cap in
          if capacity <? PER_CHANNEL_FLOOR_SATS then
            if (settled_count =? 0)%nat
            then value_of (warn (u "Not enough confirmed on-chain balance to open the first channel (need ~")
                             (finalize_run now STOPPED_INSUFFICIENT run))
            else if _bootstrap_awaiting_timed_out run now
            then value_of (warn (u "Stopped " ++ dash ++ u "recyclable balance stayed below the next channel for too long.")
                             (finalize_run now STOPPED_INSUFFICIENT run))
            else
              let run := if bool_decide (run_state run = AWAITING_FUNDS) then run else _set_awaiting_since (Some now) run in
              value_of (set_run_state AWAITING_FUNDS run)
          else fund_round run settled_count now capacity confirmed open_fee
    | _ => value_of (set_run_state IN_PROGRESS run)
    end.

Definition _advance_bootstrap (run : ChannelMixRun) : task ChannelMixRun :=
  match _bootstrap_inflight_index run with
  | Some idx =>
      run <-- _advance_bootstrap_round run idx;
      match _bootstrap_inflight_index run with
      | Some _ => value_of (set_run_state IN_PROGRESS run)
      | None =>
          if last_failed run then now <-- perform Now; value_of (finalize_run now PARTIAL_FAILURE run)
          else _bootstrap_maybe_start_round run
      end
  | None => _bootstrap_maybe_start_round run
  end.

(** ** A tick *)

Definition _run_one_mix : task unit :=
  found <-- perform D_load;
  match found with
  | None => value_of tt
  | Some run =>
      if is_terminal (run_state run) then value_of tt
      else
        now <-- perform Now;
        let run := set_updated_at now run in
        run <-- match mode run with bootstrap => _advance_bootstrap run | parallel => advance_parallel run end;
        perform (D_commit run)
  end.
End Bootstrap.

(** ** Requests

    The rows that POST /execute inserts for a plan, and the run-stop request
    of api/channel_mix.py. *)

Definition no_params : BootstrapParams := mkParams [] recommended_diverse [] false None.

Definition bootstrap_run (now : Z) (target : option Z) (warnings : list ustr) (params : BootstrapParams) : ChannelMixRun :=
  mkRun bootstrap QUEUED target 0 0 false params [] [] warnings None now now None.

Definition entry_of (ch : ChannelOpen) : channel_entry :=
  make_channel_entry (alias (peer ch)) (node_id_hex (peer ch)) (address (peer ch)) (capacity ch) (push_sat ch)
    (expected_inbound_seed_sats ch) (inbound_seed_strategy ch).

Definition parallel_run (now : Z) (per_channel : list ChannelOpen) (warnings : list ustr) : ChannelMixRun :=
  mkRun parallel QUEUED None 0 0 false no_params (map entry_of per_channel) [] warnings None now now None.

Definition post_channel_mix_run_stop (force : bool) (now : Z) (run : ChannelMixRun) : ChannelMixRun :=
  if force then finalize_run now CANCELLED (set_stop_requested true run)
  else if is_terminal (run_state run) || stop_requested run then run
  else set_stop_requested true run.
