(* ===== verification/MixSafety.v ===== *)
(** * A bootstrap run under failures

    Ticks of the executor and requests of the operator, in any order. Every
    call of a tick may answer anything or raise, a commit may fail with or
    without taking effect, and the worker may die at any call. *)
From S2P Require Import Prelude Prog Bytes PyInt PyFloat FloatExact Utf8 Json PyJson ChannelMix Bootstrap MixRun MixTask.

(** ** What a tick sees *)

(** The committed row, the channel opens that LND has acknowledged, and
    whether the last of them is not yet committed. *)
Record phase := mkPhase { ph_row : ChannelMixRun; ph_acked : nat; ph_open : bool }.

Definition commit_to (r : ChannelMixRun) (ph : phase) : phase := mkPhase r (ph_acked ph) false.
Definition acknowledge (ph : phase) : phase := mkPhase (ph_row ph) (S (ph_acked ph)) true.

(** LND opened a channel and said so. *)
Definition opened (a : answer open_result) : bool :=
  match a with (Some (mkOpened (_ :: _) _), err) => negb (nonempty err) | _ => false end.

Definition created (a : answer ustr) : bool :=
  match a with (Some _, err) => negb (nonempty err) | _ => false end.

Definition reply {X} (ph : phase) (o : call X) : result X -> phase -> Prop :=
  match o in call X return result X -> phase -> Prop with
  | D_load => fun r ph' => ph' = ph /\ forall x, r = Ok x -> x = Some (ph_row ph)
  | D_commit x => fun r ph' => ph' = commit_to x ph \/ ph' = ph /\ exists e, r = Err e
  | B_create x _ _ _ => fun r ph' =>
      match r with
      | Ok a => ph' = if created a then commit_to x ph else ph
      | Err _ => ph' = ph \/ ph' = commit_to x ph
      end
  | L_open _ _ _ _ => fun r ph' => ph' = match r with Ok a => if opened a then acknowledge ph else ph | Err _ => ph end
  | _ => fun _ ph' => ph' = ph
  end.

(** Rounds with a committed funding id. *)
Definition is_funded (e : round_entry) : bool := nonempty (r_open_txid e).
Definition funded (r : ChannelMixRun) : nat := length (List.filter is_funded (rounds r)).

(** ** Well-formed rows *)

Definition contribution (e : round_entry) : Z := if bool_decide (r_state e = settled) then r_expected_inbound_sats e else 0.
Definition inbound (l : list round_entry) : Z := foldr (fun e a => contribution e + a) 0 l.

(** The [i]-th round. *)
Record round_ok (i : nat) (e : round_entry) : Prop := {
  ok_index : r_round_index e = Z.of_nat i;
  ok_capacity : PER_CHANNEL_FLOOR_SATS <= r_capacity_sats e;
  ok_funded : r_state e <> opening -> r_state e <> open_failed -> is_funded e = true;
  ok_swaps : 0 <= r_swap_attempts e <= BOOTSTRAP_MAX_SWAP_ATTEMPTS /\
    (r_state e <> swap_failed -> r_swap_attempts e < BOOTSTRAP_MAX_SWAP_ATTEMPTS);
  ok_drain : 0 <= r_expected_inbound_sats e <= BOOTSTRAP_DEFAULT_BOLTZ_MAX_SATS
}.

(** Rounds run one after the other, and the inbound total is the sum of the
    settled drains. *)
Record row_ok (r : ChannelMixRun) : Prop := {
  row_mode : mode r = bootstrap;
  row_rounds : forall i e, rounds r !! i = Some e -> round_ok i e;
  row_settled : forall i e, rounds r !! i = Some e -> (S i < length (rounds r))%nat -> r_state e = settled;
  row_count : (length (rounds r) <= BOOTSTRAP_MAX_ROUNDS)%nat;
  row_inbound : realized_inbound_sats r = inbound (rounds r)
}.

(** A run whose last round failed is over. *)
Definition durable (r : ChannelMixRun) : Prop := row_ok r /\ (last_failed r = true -> is_terminal (run_state r) = true).

Definition b2n (b : bool) : nat := if b then 1 else 0.

Instance mix_protocol : Protocol call phase := {
  may ph X o :=
    match o with
    | D_commit x | B_create x _ _ _ => durable x /\ funded x = (funded (ph_row ph) + b2n (ph_open ph))%nat
    | L_open _ _ _ _ => ph_open ph = false
    | _ => True
    end;
  after ph X o r ph' := reply ph o r ph'
}.

(** Calls that change nothing durable. *)
Definition quiet X (o : call X) : bool :=
  match o with D_load | D_commit _ | B_create _ _ _ _ | L_open _ _ _ _ => false | _ => true end.

Lemma mix_quiet ph : unnoticed quiet ph.
Proof. intros X o. by destruct o; cbn. Qed.

(** ** Quiet parts *)

Abbreviation only_quiet := (only quiet).

Ltac quiet_step :=
  first
    [ apply only_perform; reflexivity
    | match goal with
      | |- only _ _ (rbind _ _) => eapply only_rbind; [quiet_step | intros ? _]
      | |- only _ _ (value_of _) => cbn; done
      | |- only _ _ (raise _) => cbn; done
      | |- only _ _ (match ?x with _ => _ end) => destruct x
      | |- only _ _ (if ?x then _ else _) => destruct x
      end ].

Lemma poll_quiet n pk : only_quiet (ok_or whatever) (poll_peers n pk).
Proof.
  induction n as [|n IH]; [done|]. cbn [poll_peers]. eapply only_rbind; [by apply only_perform|].
  intros [[pubs|] err] _; [|exact IH]. by destruct (_ && _).
Qed.

Lemma dead_quiet cp : only_quiet (ok_or whatever) (_channel_confirmed_dead cp).
Proof. unfold _channel_confirmed_dead. repeat quiet_step. Qed.

Lemma feerate_quiet : only_quiet (ok_or whatever) _bootstrap_feerate_sat_vb.
Proof.
  unfold _bootstrap_feerate_sat_vb. eapply only_except; [|done]. repeat quiet_step; unfold lift; cbn; by destruct (float_of_number _).
Qed.

(** ** Rewriting the last round *)

(** The run with its [i]-th round replaced, the totals adjusted. *)
Record revised (i : nat) (e' : round_entry) (run run' : ChannelMixRun) : Prop := {
  rev_rounds : rounds run' = <[i := e']> (rounds run);
  rev_mode : mode run' = mode run;
  rev_state : run_state run' = run_state run;
  rev_inbound : forall e, rounds run !! i = Some e ->
    realized_inbound_sats run' - contribution e' = realized_inbound_sats run - contribution e
}.

Lemma inbound_insert l i e e' : l !! i = Some e -> inbound (<[i := e']> l) = inbound l - contribution e + contribution e'.
Proof.
  revert i. induction l as [|x l IH]; intros [|i] H; [done | done | |].
  - injection H as ->. unfold inbound. cbn. lia.
  - change (contribution x + inbound (<[i := e']> l) = contribution x + inbound l - contribution e + contribution e').
    rewrite (IH _ H). lia.
Qed.

Lemma revised_ok i e' run run' :
  row_ok run -> (i < length (rounds run))%nat -> S i = length (rounds run) -> round_ok i e' -> revised i e' run run' -> row_ok run'.
Proof.
  intros [Hmode Hr Hs Hc Hin] Hlt Hi He' [Hrounds Hm Hst Hreal].
  destruct (lookup_lt_is_Some_2 _ _ Hlt) as [e He]. constructor; rewrite ?Hrounds, ?length_insert; [congruence | | | done |].
  - intros j x Hx. destruct (decide (j = i)) as [->|Hne].
    + rewrite list_lookup_insert_eq in Hx by done. by injection Hx as <-.
    + rewrite list_lookup_insert_ne in Hx by done. by apply Hr.
  - intros j x Hx Hj. rewrite list_lookup_insert_ne in Hx by lia. by eapply Hs.
  - rewrite (inbound_insert _ _ _ _ He). specialize (Hreal _ He). lia.
Qed.

Lemma filter_insert_same (f : round_entry -> bool) l i e e' :
  l !! i = Some e -> f e' = f e -> length (List.filter f (<[i := e']> l)) = length (List.filter f l).
Proof.
  revert i. induction l as [|x l IH]; intros [|i] H Hf; [done | done | injection H as ->; cbn; rewrite Hf; by destruct (f e) |].
  change (<[S i := e']> (x :: l)) with (x :: <[i := e']> l). cbn [List.filter]. destruct (f x); cbn [length]; by rewrite (IH _ H).
Qed.

Lemma filter_insert_new (f : round_entry -> bool) l i e e' :
  l !! i = Some e -> f e = false -> f e' = true -> length (List.filter f (<[i := e']> l)) = S (length (List.filter f l)).
Proof.
  revert i. induction l as [|x l IH]; intros [|i] H Hf Hf'; [done | done | injection H as ->; cbn; by rewrite Hf, Hf' |].
  change (<[S i := e']> (x :: l)) with (x :: <[i := e']> l). cbn [List.filter]. destruct (f x); cbn [length]; by rewrite (IH _ H).
Qed.

Lemma last_revised i e' run run' : S i = length (rounds run) -> revised i e' run run' -> last (rounds run') = Some e'.
Proof.
  intros Hi [Hr _ _ _]. rewrite last_lookup, Hr, length_insert, <- Hi. apply list_lookup_insert_eq. lia.
Qed.

Lemma put_revised i e' run :
  contribution e' = 0 -> (forall e, rounds run !! i = Some e -> contribution e = 0) -> revised i e' run (put_round i e' run).
Proof. intros H0 H. constructor; [done ..|]. intros e He. rewrite (H e He), H0. done. Qed.

(** A program's result that rewrites the round and keeps its funding id. *)
Definition kept (i : nat) (e : round_entry) (run run' : ChannelMixRun) : Prop :=
  exists e', revised i e' run run' /\ round_ok i e' /\ r_open_txid e' = r_open_txid e /\
    (r_state e = opening -> r_state e' <> swap_failed).

Definition not_settled (e : round_entry) : Prop := r_state e <> settled.

Lemma not_settled_contribution e : not_settled e -> contribution e = 0.
Proof. intros H. unfold contribution. by rewrite bool_decide_eq_false_2. Qed.

(** The shape of most branches: one field group of the round changes. *)
Lemma kept_put i e e' run :
  rounds run !! i = Some e -> not_settled e -> not_settled e' -> round_ok i e' -> r_open_txid e' = r_open_txid e ->
  (r_state e = opening -> r_state e' <> swap_failed) -> kept i e run (put_round i e' run).
Proof.
  intros He Hs Hs' Hok Ht Hf. exists e'. split; [|done]. apply put_revised; [by apply not_settled_contribution|].
  intros x Hx. rewrite He in Hx. injection Hx as <-. by apply not_settled_contribution.
Qed.

Lemma kept_same i e run : rounds run !! i = Some e -> round_ok i e -> kept i e run run.
Proof.
  intros He Hok. exists e. split; [|split; [done|]; split; [done|]; intros ->; done].
  constructor; [by rewrite list_insert_id|done|done|]. intros x Hx. congruence.
Qed.

(** Fields of the run that the invariant does not read. *)
Lemma kept_frame i e run run1 run2 :
  kept i e run run1 -> rounds run2 = rounds run1 -> mode run2 = mode run1 -> run_state run2 = run_state run1 ->
  realized_inbound_sats run2 = realized_inbound_sats run1 -> kept i e run run2.
Proof.
  intros (e' & [H1 H2 H3 H4] & Hok) Hr Hm Hs Hi. exists e'. split; [|done]. constructor; [congruence .. |]. intros x Hx. rewrite Hi. auto.
Qed.

(** ** Drains are not negative *)

Definition no_sign (f : float) : Prop := match f with S754_finite true _ _ => False | _ => True end.

Lemma round_no_sign m e l : no_sign (binary_round_aux 53 1024 false m e l).
Proof.
  unfold binary_round_aux. destruct (shr_fexp 53 1024 m e l) as [x e1]. destruct (shr_fexp _ _ _ e1 _) as [y e2].
  destruct (shr_m y) as [|p|p]; [done | | done]. by destruct (IntDef.Z.leb _ _).
Qed.

Lemma int_no_sign f z : no_sign f -> int_of_float f = Ok z -> 0 <= z.
Proof.
  destruct f as [s|s| |[] m e]; cbn; [by intros _ [= <-] | done | done | done |]. intros _ [= <-].
  destruct (Z.leb_spec 0 e); [assert (0 < 2 ^ e) by (apply Z.pow_pos_nonneg; lia); nia|].
  apply Z.div_pos; [lia | apply Z.pow_pos_nonneg; lia].
Qed.

Lemma without_routing_nonneg n d : 0 <= n -> without_routing n = Ok d -> 0 <= d.
Proof.
  unfold without_routing, div_int_float. intros Hn H. apply bind_Ok in H as (f & Hf & H). apply bind_Ok in Hf as (x & Hx & Hf).
  injection Hf as <-. eapply int_no_sign; [|exact H].
  change (float_add one BOOTSTRAP_ROUTING_FEE_PCT) with (S754_finite false 4638707616191611 (-52)).
  assert (Hs : no_sign x).
  { destruct n as [|p|p]; [by injection Hx as <- | | lia]. unfold float_of_int, binary_normalize, binary_round in Hx.
    destruct (shl_align p 0 _) as [mz ez]. pose proof (round_no_sign (Z.pos mz) ez loc_Exact) as Hr.
    destruct (binary_round_aux _ _ _ _ _ _) as [| | |[]]; try done; by injection Hx as <-. }
  destruct x as [s|s| |[] m e]; [done | done | done | done |]. clear H.
  change (no_sign (let '(mz, ez, lz) := SFdiv_core_binary 53 1024 (Z.pos m) e 4638707616191611 (-52) in
                   binary_round_aux 53 1024 false mz ez lz)).
  destruct (SFdiv_core_binary 53 1024 (Z.pos m) e 4638707616191611 (-52)) as [[mz ez] lz]. apply round_no_sign.
Qed.

(** ** The steps of a round *)

Section Steps.
Context (lower : ustr -> ustr) (catalog : list SmallChannelPeer).
Context (random : bytes -> nat -> float) (pow : float -> float -> float).
Context (peer_selection_seed : BootstrapParams -> bytes).

Abbreviation escalate := (escalate lower catalog random pow peer_selection_seed).
Abbreviation retry_connect := (retry_connect lower catalog random pow peer_selection_seed).
Abbreviation open_refused := (open_refused lower catalog random pow peer_selection_seed).
Abbreviation round_opening := (round_opening lower catalog random pow peer_selection_seed).
Abbreviation _advance_bootstrap_round := (_advance_bootstrap_round lower catalog random pow peer_selection_seed).

(** The round [e'] is [e] in state [s], up to what the invariant does not
    read. *)
Record moves (s : RoundState) (e e' : round_entry) : Prop := {
  mv_index : r_round_index e' = r_round_index e;
  mv_capacity : r_capacity_sats e' = r_capacity_sats e;
  mv_state : r_state e' = s;
  mv_txid : r_open_txid e' = r_open_txid e;
  mv_swaps : r_swap_attempts e' = r_swap_attempts e;
  mv_drain : r_expected_inbound_sats e' = r_expected_inbound_sats e
}.

Lemma moves_ok i s e e' :
  moves s e e' -> round_ok i e -> r_state e <> swap_failed -> (s <> opening -> s <> open_failed -> is_funded e = true) -> round_ok i e'.
Proof.
  intros [H1 H2 H3 H4 H5 H6] [G1 G2 G3 [G4 G5] G6] Hs Hf.
  constructor; unfold is_funded in *; rewrite ?H1, ?H2, ?H3, ?H4, ?H5, ?H6; [done | done | done | | done]. specialize (G5 Hs). lia.
Qed.

Lemma switch_moves run e reason e' :
  _bootstrap_switch_to_next_peer lower catalog random pow peer_selection_seed run e reason = Ok (Some e') -> moves (r_state e) e e'.
Proof.
  unfold _bootstrap_switch_to_next_peer. intros H. apply bind_Ok in H as (ps & _ & H). injection H as H.
  destruct (List.find _ _) as [p|]; [|done]. injection H as <-. done.
Qed.

(** The round in flight. *)
Section Round.
Context (run : ChannelMixRun) (i : nat) (e0 : round_entry).
Hypothesis He0 : rounds run !! i = Some e0.
Hypothesis Hok : round_ok i e0.
Hypothesis Hlive : round_over (r_state e0) = false.

Lemma live_states : r_state e0 <> settled /\ r_state e0 <> open_failed /\ r_state e0 <> swap_failed.
Proof. destruct (r_state e0); done. Qed.

Lemma moves_kept s e :
  s <> settled /\ s <> swap_failed -> moves s e0 e -> (s <> opening -> s <> open_failed -> is_funded e0 = true) -> kept i e0 run (put_round i e run).
Proof.
  intros [Hs Hs'] Hm Hf. destruct live_states as (H1 & H2 & H3).
  apply kept_put; [done | done | | by eapply moves_ok | apply Hm | intros _; by rewrite (mv_state _ _ _ Hm)].
  unfold not_settled. by rewrite (mv_state _ _ _ Hm).
Qed.

(** Before the channel is open. *)
Section Opening.
Hypothesis Hopen : r_state e0 = opening.

Lemma escalate_quiet e reason err : moves opening e0 e -> only_quiet (ok_or (kept i e0 run)) (escalate run i e reason err).
Proof.
  intros Hm. unfold MixTask.escalate, lift.
  destruct (_bootstrap_switch_to_next_peer _ _ _ _ _ run e reason) as [[e'|]|x] eqn:E; cbn; [| |done].
  - apply switch_moves in E. rewrite (mv_state _ _ _ Hm) in E. apply (moves_kept opening); [done | | done].
    destruct E, Hm. constructor; congruence.
  - split; [done|]. intros [|]; cbn; [|done]. apply (moves_kept open_failed); [done | | done]. destruct Hm. by constructor.
Qed.

Lemma retry_quiet e detail reason err : moves opening e0 e -> only_quiet (ok_or (kept i e0 run)) (retry_connect run i e detail reason err).
Proof.
  intros Hm. unfold MixTask.retry_connect. destruct (_ <? _); [|apply escalate_quiet; by destruct Hm].
  cbn. apply (moves_kept opening); [done | by destruct Hm | done].
Qed.

(** A smaller channel for the same round. *)
Lemma resize_kept e :
  PER_CHANNEL_FLOOR_SATS <= r_capacity_sats e -> moves opening e0 (set_r_capacity_sats (r_capacity_sats e0) e) ->
  kept i e0 run (put_round i e run).
Proof.
  intros Hc Hm. destruct live_states as (H1 & _ & H3). destruct Hm as [M1 _ M3 M4 M5 M6]. cbn in *.
  apply kept_put; [done | done | unfold not_settled; by rewrite M3 | | done | by rewrite M3].
  destruct Hok as [G1 G2 G3 [G4 G5] G6].
  constructor; unfold is_funded in *; rewrite ?M1, ?M3, ?M4, ?M5, ?M6; [done | done | done | specialize (G5 H3); lia | done].
Qed.

Lemma refused_quiet err : only_quiet (ok_or (kept i e0 run)) (open_refused run i e0 err).
Proof.
  assert (Hm : moves opening e0 e0) by (constructor; done). unfold MixTask.open_refused.
  destruct (nonempty err && infix _ _).
  - destruct (_ && _) eqn:E; cbn.
    + apply andb_true_iff in E as [E%Z.leb_le _]. apply resize_kept; [exact E | by destruct Hm].
    + split; [done|]. intros [|]; cbn; [|done]. apply (moves_kept open_failed); [done | by destruct Hm | done].
  - destruct (nonempty err && _); [|by apply escalate_quiet].
    destruct (_ <? _); [|apply escalate_quiet; by destruct Hm]. cbn. apply (moves_kept opening); [done | by destruct Hm | done].
Qed.
End Opening.

(** While the round waits for the chain. *)
Section Waiting.
Hypothesis Hfunded : is_funded e0 = true.
Hypothesis Hpast : r_state e0 <> opening.

Lemma again_kept run1 run2 e e2 s :
  revised i e run run1 -> rounds run2 = <[i := e2]> (rounds run1) -> mode run2 = mode run1 -> run_state run2 = run_state run1 ->
  realized_inbound_sats run2 = realized_inbound_sats run1 -> r_state e <> settled -> s <> settled -> moves s e0 e2 ->
  kept i e0 run run2.
Proof.
  intros [R1 R2 R3 R4] Hr Hm Hs Hi He Hns Hmv. destruct live_states as (L1 & L2 & L3). exists e2.
  split; [|split; [by eapply moves_ok|]; split; [apply Hmv | by intros H]].
  constructor; [by rewrite Hr, R1, list_insert_insert_eq | congruence | congruence |].
  intros x Hx. specialize (R4 _ Hx). rewrite Hi, (not_settled_contribution e2) by (unfold not_settled; by rewrite (mv_state _ _ _ Hmv)).
  rewrite (not_settled_contribution e) in R4 by done. lia.
Qed.

Lemma resolve_quiet run1 e :
  moves (r_state e0) e0 e -> revised i e run run1 -> only_quiet (ok_or (kept i e0 run)) (_bootstrap_resolve_stuck_round run1 i e).
Proof.
  intros Hm Hr. destruct live_states as (L1 & L2 & L3).
  assert (He : r_state e <> settled) by (by rewrite (mv_state _ _ _ Hm)).
  unfold _bootstrap_resolve_stuck_round. eapply only_rbind; [by apply only_perform|]. intros now _.
  eapply (only_rbind _ whatever).
  { destruct (r_open_txid e) as [[|]|]; [done | apply dead_quiet | done]. }
  intros dead _. destruct (if bool_decide _ then _ else _) as [why|].
  - unfold _bootstrap_clear_waiting. cbn. destruct (nonempty (r_swap_id e)).
    + eapply (again_kept run1 _ e _ swap_failed); [done | by destruct (nonempty _) .. | done | done | destruct Hm; by constructor].
    + eapply (again_kept run1 _ e _ open_failed); [done | by destruct (nonempty _) .. | done | done | destruct Hm; by constructor].
  - cbn. exists e. split; [done|]. split; [by eapply moves_ok|]. split; [apply Hm | done].
Qed.

Lemma waits_quiet e what :
  moves (r_state e0) e0 e -> only_quiet (ok_or (kept i e0 run)) (round_waits (put_round i e run) i e what).
Proof.
  intros Hm. destruct live_states as (L1 & L2 & L3).
  assert (Hr : forall x, r_state x <> settled -> revised i x run (put_round i x run)).
  { intros x Hx. apply put_revised; [by apply not_settled_contribution|]. intros y Hy. rewrite He0 in Hy. injection Hy as <-.
    by apply not_settled_contribution. }
  unfold round_waits. eapply only_rbind; [by apply only_perform|]. intros now _.
  unfold _bootstrap_flag_stuck_if_waiting. destruct (r_waiting_since e) as [t|].
  - apply resolve_quiet; [done|]. assert (H := Hr e). rewrite (mv_state _ _ _ Hm) in H. specialize (H L1).
    destruct (_ <=? _); [|done]. by destruct H.
  - apply resolve_quiet; [by destruct Hm|]. set (e' := set_r_waiting_since _ e).
    assert (H : revised i e' run (put_round i e' run)) by (apply Hr; unfold e'; cbn; by rewrite (mv_state _ _ _ Hm)).
    destruct H as [H1 H2 H3 H4]. constructor; [|done|done|done]. cbn. by rewrite list_insert_insert_eq.
Qed.
End Waiting.

(** *** Steps that commit *)

Definition advanced (ph : phase) (r : result ChannelMixRun) : Prop :=
  ok_or (fun run' => ph_open ph = false /\ funded run' = funded (ph_row ph) /\
           exists e', revised i e' run run' /\ round_ok i e' /\ (r_state e0 = opening -> r_state e' <> swap_failed)) r.

Section Wp.
Context (ph : phase).
Hypothesis Hph : ph_open ph = false.
Hypothesis Hsync : funded run = funded (ph_row ph).
Hypothesis Hrow : row_ok run.
Hypothesis Hlast : S i = length (rounds run).

Lemma kept_advanced run' : kept i e0 run run' -> advanced ph (Ok run').
Proof.
  intros (e' & Hr & Hok' & Ht & Hns). split; [done|]. split; [|by exists e'].
  unfold funded. rewrite (rev_rounds _ _ _ _ Hr). rewrite (filter_insert_same _ _ _ _ _ He0); [exact Hsync|].
  unfold is_funded. by rewrite Ht.
Qed.

Lemma quiet_advanced p : only_quiet (ok_or (kept i e0 run)) p -> wp ph p advanced.
Proof.
  intros Hp. eapply wp_only; [apply mix_quiet | exact Hp |]. intros [run'|x] H; [by apply kept_advanced | done].
Qed.

(** A quiet part in front. *)
Lemma quiet_then {A} (p : task A) f : only_quiet (ok_or whatever) p -> (forall a, wp ph (f a) advanced) -> wp ph (rbind p f) advanced.
Proof. intros Hp Hf. eapply wp_only_rbind; [apply mix_quiet | exact Hp | done | auto]. Qed.

Lemma lift_then {A} (r : result A) f : (forall a, r = Ok a -> wp ph (f a) advanced) -> wp ph (rbind (lift r) f) advanced.
Proof. intros Hf. destruct r as [a|x]; cbn; [by apply Hf | done]. Qed.

Lemma revised_durable e' run' :
  revised i e' run run' -> round_ok i e' -> round_over (r_state e') = false -> durable run'.
Proof.
  intros Hr Ho Hl. split; [by eapply (revised_ok i e' run); try done; lia|].
  unfold last_failed. rewrite (last_revised _ _ _ _ Hlast Hr). intros H. by destruct (r_state e').
Qed.

Lemma opening_wp : r_state e0 = opening -> wp ph (round_opening run i e0) advanced.
Proof.
  intros Hs. assert (Hm : moves opening e0 e0) by (by constructor). unfold MixTask.round_opening.
  destruct (nonempty (r_open_txid e0)) eqn:Et.
  { apply quiet_advanced. cbn. apply (moves_kept open_pending); [done | by destruct Hm | done]. }
  apply quiet_then; [apply feerate_quiet|]. intros fee. apply quiet_then; [by apply only_perform|]. intros err.
  destruct (connect_failed err); [by apply quiet_advanced, retry_quiet|].
  apply quiet_then; [apply poll_quiet|]. intros up. destruct (negb up); [by apply quiet_advanced, retry_quiet|].
  apply lift_then. intros rate _. split; [exact Hph|]. intros r ph' Hr. cbn in Hr. subst ph'.
  destruct r as [[[[[|c t] out]|] oerr]|x]; [by apply quiet_advanced, refused_quiet | | by apply quiet_advanced, refused_quiet | done].
  cbn [opened pbind]. destruct (nonempty oerr) eqn:Ee; cbn [negb]; [by apply quiet_advanced, refused_quiet|].
  set (e1 := set_r_open_error _ _).
  assert (H1 : round_ok i e1).
  { destruct Hok as [G1 G2 G3 [G4 G5] G6]. constructor; cbn; [done | done | done | | done]. rewrite Hs in G5. specialize (G5 ltac:(done)). lia. }
  assert (Hrev : revised i e1 run (put_round i e1 run)).
  { apply put_revised; [done|]. intros y Hy. rewrite He0 in Hy. injection Hy as <-. unfold contribution. by rewrite Hs. }
  assert (Hf : funded (put_round i e1 run) = S (funded (ph_row ph))).
  { rewrite <- Hsync. unfold funded. cbn. by apply (filter_insert_new _ _ _ e0). }
  split.
  - split; [by eapply revised_durable|]. rewrite Hf. cbn [acknowledge ph_row ph_open b2n]. lia.
  - intros r ph' [->|[-> [x ->]]]; [|done]. destruct r as [[]|x]; [|done].
    split; [done|]. intros r ph' ->. destruct r; [|done]. cbn. split; [done|]. split; [done|]. by exists e1.
Qed.

Lemma live_funded : r_state e0 <> opening -> is_funded e0 = true.
Proof. intros H. destruct live_states as (_ & H2 & _). by apply Hok. Qed.

Lemma self_moves : moves (r_state e0) e0 e0.
Proof. by constructor. Qed.

Lemma put_self : put_round i e0 run = run.
Proof. unfold put_round, set_rounds. rewrite list_insert_id by done. by destruct run. Qed.

Lemma waits_here what : is_funded e0 = true -> r_state e0 <> opening -> wp ph (round_waits run i e0 what) advanced.
Proof. intros Hf Hp. apply quiet_advanced. pose proof (waits_quiet Hf Hp e0 what self_moves) as H. by rewrite put_self in H. Qed.

Lemma stay_wp : wp ph (value_of run : task ChannelMixRun) advanced.
Proof. apply quiet_advanced. cbn. by apply kept_same. Qed.

Lemma open_pending_wp : r_state e0 = open_pending -> wp ph (round_open_pending run i e0) advanced.
Proof.
  intros Hs. assert (Hf : is_funded e0 = true) by (apply live_funded; by rewrite Hs). unfold round_open_pending.
  apply quiet_then; [by apply only_perform|]. intros [[] [err|]]; [apply stay_wp | | apply stay_wp | apply waits_here; [done | by rewrite Hs]].
  apply quiet_advanced. cbn. eapply kept_frame; [apply (moves_kept open_active (set_r_state open_active (set_r_waiting_since None e0))) | | | |];
    [done | by constructor | auto | cbn; by destruct (nonempty _) ..].
Qed.

(** A swap attempt that failed: another one, or the end of the round. *)
Lemma attempt_kept e s run' :
  moves (r_state e) e0 (set_r_swap_attempts (r_swap_attempts e0) e) -> is_funded e0 = true /\ r_state e0 <> opening ->
  r_swap_attempts e = r_swap_attempts e0 + 1 -> s = r_state e -> s <> settled ->
  (BOOTSTRAP_MAX_SWAP_ATTEMPTS <= r_swap_attempts e -> s = swap_failed) ->
  rounds run' = <[i := e]> (rounds run) -> mode run' = mode run -> run_state run' = run_state run ->
  realized_inbound_sats run' = realized_inbound_sats run -> kept i e0 run run'.
Proof.
  intros [M1 M2 M3 M4 M5 M6] [Hf Hpast] Ha -> Hns Hmax Hr Hm Hst Hi. cbn in *. destruct live_states as (L1 & L2 & L3).
  destruct Hok as [G1 G2 G3 [G4 G5] G6]. specialize (G5 L3). exists e. split; [|split; [|done]].
  - constructor; [done | done | done |]. intros x Hx. rewrite He0 in Hx. injection Hx as <-.
    rewrite !not_settled_contribution by done. lia.
  - constructor; [congruence | congruence | intros _ _; unfold is_funded in *; congruence | | congruence].
    split; [lia|]. intros Hn. destruct (Z.le_gt_cases BOOTSTRAP_MAX_SWAP_ATTEMPTS (r_swap_attempts e)) as [Hle|]; [|done].
    by apply Hmax in Hle.
Qed.

Lemma create_failed err : r_state e0 = open_active -> is_funded e0 = true ->
  only_quiet (ok_or (kept i e0 run))
    (let attempts := r_swap_attempts e0 + 1 in
     let e := set_r_swap_attempts attempts e0 in
     value_of (put_round i
       (if BOOTSTRAP_MAX_SWAP_ATTEMPTS <=? attempts
        then set_r_swap_error (Some (cut (u "create swap: " ++ or_text err "no swap"))) (set_r_state swap_failed e)
        else set_r_swap_error (Some (cut (u "create swap (retry " ++ str_int attempts ++ u "): " ++ default (u "None") err))) e) run)).
Proof.
  intros Hs Hf. cbv zeta. destruct (Z.leb_spec BOOTSTRAP_MAX_SWAP_ATTEMPTS (r_swap_attempts e0 + 1)); cbn.
  - eapply attempt_kept; [| split; [done | by rewrite Hs] | | | | | reflexivity | done ..]; [by constructor | done | reflexivity | done | done].
  - eapply attempt_kept; [| split; [done | by rewrite Hs] | | | | | reflexivity | done ..]; [by constructor | done | reflexivity | cbn; by rewrite Hs | cbn; lia].
Qed.

(** The swap that drains the channel. *)
Lemma active_wp : r_state e0 = open_active -> wp ph (round_open_active run i e0) advanced.
Proof.
  intros Hs. assert (Hf : is_funded e0 = true) by (apply live_funded; by rewrite Hs). unfold round_open_active.
  apply quiet_then; [by apply only_perform|]. intros [[cs|] err]; [|apply stay_wp].
  destruct (nonempty err); [apply stay_wp|]. destruct (List.find _ cs) as [c|]; [|apply waits_here; [done | by rewrite Hs]].
  apply lift_then. intros d Hd. apply without_routing_nonneg in Hd; [|lia].
  assert (Hdrain : 0 <= Z.min d BOOTSTRAP_DEFAULT_BOLTZ_MAX_SATS <= BOOTSTRAP_DEFAULT_BOLTZ_MAX_SATS)
    by (unfold BOOTSTRAP_DEFAULT_BOLTZ_MAX_SATS; lia).
  set (drain := Z.min d _) in *. destruct (drain <? _).
  { apply quiet_advanced. cbv zeta. set (e1 := set_r_state settled _). exists e1. split; [|split; [|done]].
    - constructor; [done | done | done |]. intros x Hx. rewrite He0 in Hx. injection Hx as <-.
      rewrite (not_settled_contribution e0) by (unfold not_settled; by rewrite Hs). done.
    - destruct Hok as [G1 G2 G3 [G4 G5] G6]. constructor; cbn; [done | done | done | | done]. rewrite Hs in G5. specialize (G5 ltac:(done)). lia. }
  apply quiet_then; [by apply only_perform|]. intros [[[[|ch dest]|]|] aerr]; [apply stay_wp | | apply stay_wp ..].
  destruct (nonempty aerr); [apply stay_wp|]. split.
  { split; [|rewrite Hph; cbn; lia]. apply (revised_durable e0); [|done | by rewrite Hs].
    constructor; [by rewrite list_insert_id | done | done | congruence]. }
  intros r ph' Hr. destruct r as [[[id|] serr]|x]; [| | done]; cbn [after mix_protocol reply created] in Hr; cbn [pbind]; subst ph'.
  - destruct (nonempty serr) eqn:Ee; cbn [negb]; [by apply quiet_advanced, create_failed|].
    set (e1 := set_r_waiting_since None _).
    assert (H1 : round_ok i e1).
    { destruct Hok as [G1 G2 G3 [G4 G5] G6]. constructor; cbn; [done | done | done | | exact Hdrain].
      rewrite Hs in G5. specialize (G5 ltac:(done)). lia. }
    assert (Hrev : revised i e1 run (put_round i e1 run)).
    { apply put_revised; [done|]. intros y Hy. rewrite He0 in Hy. injection Hy as <-. unfold contribution. by rewrite Hs. }
    assert (Hfu : funded (put_round i e1 run) = funded run) by (unfold funded; cbn; by apply (filter_insert_same _ _ _ e0)).
    split; [split; [by eapply revised_durable | rewrite Hfu; cbn [commit_to ph_row ph_open b2n]; lia]|].
    intros r ph' [->|[-> [x ->]]]; [|done]. destruct r as [[]|x]; [|done].
    split; [done|]. intros r ph' ->. destruct r as [[]|x]; cbn; (split; [done|]; split; [done|]; by exists e1).
  - by apply quiet_advanced, create_failed.
Qed.

(** *** The swap in flight *)

Lemma settle_kept e recycled : r_state e0 = swap_pending -> is_funded e0 = true -> moves (r_state e0) e0 e ->
  only_quiet (ok_or (kept i e0 run))
    (let drain := r_expected_inbound_sats e in
     let swap_fee := Z.max 0 (drain - recycled) in
     let e' := set_r_swap_error None (set_r_recycled_sats (Some recycled) e) in
     let '(run, e) := _bootstrap_clear_waiting (put_round i e run) e' in
     let e := set_r_state settled e in
     let run := put_round i e run in
     let run := set_realized_inbound_sats (realized_inbound_sats run + drain) run in
     value_of (set_total_fees_sats (total_fees_sats run + r_open_fee_sats e + swap_fee) run)).
Proof.
  intros Hs Hf [M1 M2 M3 M4 M5 M6]. cbv zeta. unfold _bootstrap_clear_waiting. set (e1 := set_r_state settled _). exists e1.
  destruct Hok as [G1 G2 G3 [G4 G5] G6]. split; [|split; [|done]].
  - constructor; [destruct (nonempty _); cbn; by rewrite list_insert_insert_eq | by destruct (nonempty _) | by destruct (nonempty _) |].
    intros x Hx. rewrite He0 in Hx. injection Hx as <-. rewrite (not_settled_contribution e0) by (unfold not_settled; by rewrite Hs).
    change (contribution e1) with (r_expected_inbound_sats e). destruct (nonempty _); cbn; lia.
  - rewrite Hs in G5. specialize (G5 ltac:(done)).
    constructor; cbn; [congruence | congruence | intros _ _; unfold is_funded in *; cbn; congruence | lia | congruence].
Qed.

Lemma drain_failed e text : r_state e0 = swap_pending -> is_funded e0 = true -> moves (r_state e0) e0 e ->
  only_quiet (ok_or (kept i e0 run))
    (let attempts := r_swap_attempts e + 1 in
     let e' := set_r_swap_attempts attempts e in
     let '(run, e) := _bootstrap_clear_waiting (put_round i e run) e' in
     value_of (put_round i
       (if BOOTSTRAP_MAX_SWAP_ATTEMPTS <=? attempts
        then set_r_swap_error (Some (cut (u "drain failed (" ++ text ++ u ")"))) (set_r_state swap_failed e)
        else set_r_swap_error
               (Some (cut (u "drain attempt " ++ str_int attempts ++ u " failed (" ++ text ++ u "); retrying")))
               (set_r_swap_id None (set_r_state open_active e))) run)).
Proof.
  intros Hs Hf [M1 M2 M3 M4 M5 M6]. cbv zeta. unfold _bootstrap_clear_waiting.
  destruct (Z.leb_spec BOOTSTRAP_MAX_SWAP_ATTEMPTS (r_swap_attempts e + 1)).
  - set (e1 := set_r_swap_error _ _). eapply (attempt_kept e1 swap_failed); [by constructor | split; [done | by rewrite Hs] | cbn; lia | done | done | done | ..];
      destruct (nonempty _); try done; cbn; by rewrite list_insert_insert_eq.
  - set (e1 := set_r_swap_error _ _). eapply (attempt_kept e1 open_active); [by constructor | split; [done | by rewrite Hs] | cbn; lia | done | done | cbn; lia | ..];
      destruct (nonempty _); try done; cbn; by rewrite list_insert_insert_eq.
Qed.

Lemma swap_pending_wp : r_state e0 = swap_pending -> wp ph (round_swap_pending run i e0) advanced.
Proof.
  intros Hs. assert (Hf : is_funded e0 = true) by (apply live_funded; by rewrite Hs). unfold round_swap_pending.
  destruct (r_swap_id e0) as [[|ch sid]|];
    [apply quiet_advanced; cbn; apply (moves_kept open_active); [done | by constructor | auto] |
    | apply quiet_advanced; cbn; apply (moves_kept open_active); [done | by constructor | auto]].
  apply quiet_then; [by apply only_perform|]. intros [swap|];
    [|apply quiet_advanced; cbn; apply (moves_kept open_active); [done | by constructor | auto]].
  cbv zeta. set (el := if nonempty (sv_lockup_txid swap) then _ else _). set (e1 := if nonempty (sv_claim_txid swap) then _ else el).
  assert (Hm : moves (r_state e0) e0 e1) by (unfold e1, el; destruct (nonempty (sv_claim_txid swap)), (nonempty (sv_lockup_txid swap)); by constructor).
  clearbody e1. clear el. apply quiet_advanced. destruct (sv_status swap);
    [apply waits_quiet; [done | by rewrite Hs | done] | by apply settle_kept | by apply drain_failed ..].
Qed.

Lemma round_wp : wp ph (_advance_bootstrap_round run i) advanced.
Proof.
  unfold MixTask._advance_bootstrap_round. rewrite He0.
  destruct (r_state e0) eqn:Hs in |- *;
    [by apply opening_wp | by apply open_pending_wp | by apply active_wp | apply stay_wp | by apply swap_pending_wp | apply stay_wp ..].
Qed.
End Wp.
End Round.

(** ** The run *)

Abbreviation start_round := (start_round lower catalog random pow peer_selection_seed).
Abbreviation fund_round := (fund_round lower catalog random pow peer_selection_seed).
Abbreviation _bootstrap_maybe_start_round := (_bootstrap_maybe_start_round lower catalog random pow peer_selection_seed).
Abbreviation _advance_bootstrap := (_advance_bootstrap lower catalog random pow peer_selection_seed).
Abbreviation _run_one_mix := (_run_one_mix lower catalog random pow peer_selection_seed).

Lemma inflight_spec l : forall k i, inflight k l = Some i ->
  exists j e, i = (k + j)%nat /\ l !! j = Some e /\ round_over (r_state e) = false.
Proof.
  induction l as [|x l IH]; cbn; intros k i H; [done|]. destruct (round_over (r_state x)) eqn:E.
  - apply IH in H as (j & e & -> & He & Ho). exists (S j), e. split; [lia|done].
  - injection H as <-. exists O, x. split; [lia|done].
Qed.

Lemma inflight_none l : forall k, inflight k l = None -> Forall (fun e => round_over (r_state e) = true) l.
Proof.
  induction l as [|x l IH]; cbn; intros k H; [constructor|]. destruct (round_over (r_state x)) eqn:E; [|done].
  constructor; [done | by eapply IH].
Qed.

Lemma inflight_last run i :
  row_ok run -> _bootstrap_inflight_index run = Some i ->
  exists e, rounds run !! i = Some e /\ round_over (r_state e) = false /\ S i = length (rounds run).
Proof.
  intros Hok H. apply inflight_spec in H as (j & e & -> & He & Ho). exists e. split; [done|]. split; [done|].
  pose proof (lookup_lt_Some _ _ _ He). destruct (decide (S j = length (rounds run))) as [|Hne]; [done|].
  rewrite (row_settled _ Hok _ _ He) in Ho by lia. done.
Qed.

(** When no round is in flight and the last has not failed, all settled. *)
Lemma all_settled run :
  row_ok run -> _bootstrap_inflight_index run = None -> last_failed run = false -> Forall (fun e => r_state e = settled) (rounds run).
Proof.
  intros Hok H Hl. apply inflight_none in H. apply Forall_lookup. intros i e He.
  destruct (decide (S i < length (rounds run))%nat) as [Hlt|Hge]; [by apply (row_settled _ Hok i)|].
  pose proof (lookup_lt_Some _ _ _ He). unfold last_failed in Hl. rewrite last_lookup in Hl.
  replace (pred (length (rounds run))) with i in Hl by lia. rewrite He in Hl.
  pose proof (proj1 (Forall_lookup _ _) H i e He) as Ho. cbn in Ho. by destruct (r_state e).
Qed.

Lemma settled_count run : Forall (fun e => r_state e = settled) (rounds run) -> _bootstrap_settled_count run = length (rounds run).
Proof.
  unfold _bootstrap_settled_count. induction 1 as [|e l He _ IH]; [done|]. cbn. rewrite bool_decide_eq_true_2 by done. cbn. by rewrite IH.
Qed.

(** The outcome of a tick before its last commit. *)
Definition tick_ok (ph : phase) (r : result ChannelMixRun) : Prop :=
  ok_or (fun run => ph_open ph = false /\ funded run = funded (ph_row ph) /\ durable run) r.

(** Runs that differ in what the invariant does not read. *)
Lemma durable_frame run run' :
  row_ok run -> last_failed run = false -> rounds run' = rounds run -> mode run' = mode run ->
  realized_inbound_sats run' = realized_inbound_sats run -> durable run'.
Proof.
  intros [H1 H2 H3 H4 H5] Hl Hr Hm Hi. split.
  - constructor; rewrite ?Hr; [congruence | done | done | done | congruence].
  - unfold last_failed in *. rewrite Hr, Hl. done.
Qed.

Lemma finalize_frame now st run :
  rounds (finalize_run now st run) = rounds run /\ mode (finalize_run now st run) = mode run /\
  realized_inbound_sats (finalize_run now st run) = realized_inbound_sats run.
Proof. unfold finalize_run. by destruct (is_terminal _). Qed.

Lemma inbound_app l e : inbound (l ++ [e]) = inbound l + contribution e.
Proof. unfold inbound. induction l as [|x l IH]; cbn; [lia|]. rewrite IH. lia. Qed.

Section Idle.
Context (ph : phase) (run : ChannelMixRun).
Hypothesis Hph : ph_open ph = false.
Hypothesis Hsync : funded run = funded (ph_row ph).
Hypothesis Hrow : row_ok run.
Hypothesis Hall : Forall (fun e => r_state e = settled) (rounds run).

Lemma idle_not_failed : last_failed run = false.
Proof.
  unfold last_failed. destruct (last (rounds run)) as [e|] eqn:E; [|done]. apply last_Some_elem_of in E.
  apply (proj1 (Forall_forall _ _) Hall) in E. by rewrite E.
Qed.

Lemma idle_frame run' :
  rounds run' = rounds run -> mode run' = mode run -> realized_inbound_sats run' = realized_inbound_sats run -> tick_ok ph (Ok run').
Proof.
  intros Hr Hm Hi. split; [done|]. split; [unfold funded in *; by rewrite Hr|]. by eapply durable_frame; [exact Hrow | apply idle_not_failed | ..].
Qed.

Lemma idle_finalized now st : tick_ok ph (Ok (finalize_run now st run)).
Proof. destruct (finalize_frame now st run) as (H1 & H2 & H3). by apply idle_frame. Qed.

Lemma idle_warned now st w : tick_ok ph (Ok (warn w (finalize_run now st run))).
Proof. destruct (finalize_frame now st run) as (H1 & H2 & H3). by apply idle_frame. Qed.

Lemma start_wp p capacity drain_est confirmed open_fee :
  PER_CHANNEL_FLOOR_SATS <= capacity -> (length (rounds run) < BOOTSTRAP_MAX_ROUNDS)%nat ->
  wp ph (start_round run p (length (rounds run)) capacity drain_est confirmed open_fee) tick_ok.
Proof.
  intros Hcap Hlen. unfold MixTask.start_round. set (entry := set_r_open_fee_sats open_fee _). set (run1 := set_run_state _ _).
  assert (Hentry : rounds run1 !! length (rounds run) = Some entry) by (cbn; by rewrite lookup_app_r, Nat.sub_diag).
  assert (Hok : round_ok (length (rounds run)) entry) by (constructor; cbn; (done || lia)).
  assert (Hl1 : length (rounds run1) = S (length (rounds run))) by (cbn; rewrite length_app; cbn; lia).
  assert (Hrow1 : row_ok run1).
  { destruct Hrow as [H1 H2 H3 H4 H5]. constructor; rewrite ?Hl1; [done | | | lia |].
    - intros j x Hx. cbn in Hx. apply lookup_app_Some in Hx as [Hx|[Hj Hx]]; [by apply H2|].
      apply list_lookup_singleton_Some in Hx as [Hj' <-]. by replace j with (length (rounds run)) by lia.
    - intros j x Hx Hj. cbn in Hx. rewrite lookup_app_l in Hx by lia. by apply (proj1 (Forall_lookup _ _) Hall j).
    - change (realized_inbound_sats run = inbound (rounds run ++ [entry])). rewrite inbound_app.
      change (contribution entry) with 0. lia. }
  assert (Hsync1 : funded run1 = funded (ph_row ph)).
  { rewrite <- Hsync. unfold funded. cbn. rewrite List.filter_app, length_app. cbn. lia. }
  replace (length (rounds run1) - 1)%nat with (length (rounds run)) by lia.
  apply wp_rbind. eapply wp_mono; [|apply (round_wp run1 (length (rounds run)) entry Hentry Hok eq_refl ph Hph Hsync1 Hrow1); lia].
  intros ph' [run2|x]; [|done]. intros (Hph' & Hsync' & e' & Hrev & Hok' & Hns).
  assert (Hrow2 : row_ok run2) by (eapply (revised_ok _ e' run1); try done; lia).
  assert (Hlast : last (rounds run2) = Some e') by (eapply last_revised; [|exact Hrev]; lia).
  rewrite Hlast. destruct (bool_decide_reflect (r_state e' = open_failed)) as [Hf|Hf].
  - split; [done|]. intros r ph'' ->. destruct r as [now|]; [|done]. cbn.
    destruct (finalize_frame now PARTIAL_FAILURE run2) as (F1 & F2 & F3). split; [done|]. split; [unfold funded in *; by rewrite F1|].
    split; [|intros _; unfold finalize_run; by destruct (is_terminal (run_state run2)) eqn:E].
    destruct Hrow2. constructor; rewrite ?F1, ?F2, ?F3; done.
  - cbn. split; [done|]. split; [done|]. split; [done|]. unfold last_failed. rewrite Hlast. intros H.
    specialize (Hns eq_refl). by destruct (r_state e').
Qed.

Lemma idle_then {A} (p : task A) f : only_quiet (ok_or whatever) p -> (forall a, wp ph (f a) tick_ok) -> wp ph (rbind p f) tick_ok.
Proof. intros Hp Hf. eapply wp_only_rbind; [apply mix_quiet | exact Hp | done | auto]. Qed.

Lemma idle_lift {A} (r : result A) f : (forall a, wp ph (f a) tick_ok) -> wp ph (rbind (lift r) f) tick_ok.
Proof. intros Hf. destruct r as [a|x]; cbn; [by apply Hf | done]. Qed.
End Idle.

Lemma fund_wp ph run now capacity confirmed open_fee :
  ph_open ph = false -> funded run = funded (ph_row ph) -> row_ok run -> Forall (fun e => r_state e = settled) (rounds run) ->
  PER_CHANNEL_FLOOR_SATS <= capacity -> (length (rounds run) < BOOTSTRAP_MAX_ROUNDS)%nat ->
  wp ph (fund_round run (length (rounds run)) now capacity confirmed open_fee) tick_ok.
Proof.
  intros Hph Hsync Hrow Hall Hcap Hlen. unfold MixTask.fund_round. set (run1 := match awaiting_since _ with Some _ => _ | None => _ end).
  assert (Hr : rounds run1 = rounds run /\ mode run1 = mode run /\ realized_inbound_sats run1 = realized_inbound_sats run)
    by (unfold run1; by destruct (awaiting_since _)).
  clearbody run1. destruct Hr as (H1 & H2 & H3).
  assert (Hrow1 : row_ok run1) by (destruct Hrow; constructor; rewrite ?H1, ?H2, ?H3; done).
  assert (Hsync1 : funded run1 = funded (ph_row ph)) by (unfold funded in *; by rewrite H1).
  rewrite <- H1 in *. apply idle_lift. intros d. destruct (_ <? _); [by apply idle_warned|].
  apply idle_lift. intros [p|]; [by apply start_wp | by apply idle_warned].
Qed.

Lemma maybe_start_wp ph run :
  ph_open ph = false -> funded run = funded (ph_row ph) -> row_ok run -> Forall (fun e => r_state e = settled) (rounds run) ->
  wp ph (_bootstrap_maybe_start_round run) tick_ok.
Proof.
  intros Hph Hsync Hrow Hall. unfold MixTask._bootstrap_maybe_start_round. apply idle_then; [by apply only_perform|]. intros now.
  rewrite (settled_count run Hall).
  destruct (stop_requested run); [by apply idle_warned|]. destruct (_bootstrap_target_reached run); [by apply idle_finalized|].
  destruct (Nat.leb_spec BOOTSTRAP_MAX_ROUNDS (length (rounds run))) as [|Hlen]; [by apply idle_warned|].
  destruct (_bootstrap_duration_exceeded run now); [by apply idle_warned|].
  apply idle_then; [by apply only_perform|]. intros [[b|] err]; [|by apply (idle_frame ph run)].
  destruct (nonempty err); [by apply (idle_frame ph run)|].
  apply idle_then; [apply feerate_quiet|]. intros fee. apply idle_lift. intros open_fee. apply idle_lift. intros cap.
  destruct (Z.ltb_spec (Z.min (confirmed_balance b - open_fee - Z.max BOOTSTRAP_HEADROOM_SATS
    (Z.min (reserved_balance_anchor_chan b + BOOTSTRAP_ANCHOR_RESERVE_PER_CHAN) BOOTSTRAP_MAX_ANCHOR_RESERVE)) cap)
    PER_CHANNEL_FLOOR_SATS) as [|Hcap]; [|by apply fund_wp].
  destruct (_ =? _)%nat; [by apply idle_warned|]. destruct (_bootstrap_awaiting_timed_out run now); [by apply idle_warned|].
  destruct (bool_decide _); by apply (idle_frame ph run).
Qed.

Lemma bootstrap_wp ph run :
  ph_open ph = false -> funded run = funded (ph_row ph) -> durable run -> is_terminal (run_state run) = false ->
  wp ph (_advance_bootstrap run) tick_ok.
Proof.
  intros Hph Hsync [Hrow Hfail] Hlive. unfold MixTask._advance_bootstrap.
  assert (Hnf : last_failed run = false) by (destruct (last_failed run); [by rewrite Hfail in Hlive | done]).
  destruct (_bootstrap_inflight_index run) as [i|] eqn:Ei; [|apply maybe_start_wp; try done; by apply all_settled].
  destruct (inflight_last _ _ Hrow Ei) as (e & He & Ho & Hi). apply wp_rbind.
  eapply wp_mono; [|apply (round_wp run i e He (row_rounds _ Hrow _ _ He) Ho ph Hph Hsync Hrow Hi)].
  intros ph' [run2|x]; [|done]. intros (Hph' & Hsync' & e' & Hrev & Hok' & _).
  assert (Hrow2 : row_ok run2) by (eapply (revised_ok i e' run); try done; lia).
  destruct (_bootstrap_inflight_index run2) as [j|] eqn:Ej.
  - destruct (inflight_last _ _ Hrow2 Ej) as (e2 & He2 & Ho2 & Hj). split; [done|]. split; [done|].
    eapply durable_frame; [exact Hrow2 | | done ..]. unfold last_failed. rewrite last_lookup, <- Hj. cbn. rewrite He2.
    by destruct (r_state e2).
  - destruct (last_failed run2) eqn:El; [|apply maybe_start_wp; try done; by apply all_settled].
    split; [done|]. intros r ph'' ->. destruct r as [now|]; [|done]. cbn.
    destruct (finalize_frame now PARTIAL_FAILURE run2) as (F1 & F2 & F3). split; [done|]. split; [unfold funded in *; by rewrite F1|].
    split; [|intros _; unfold finalize_run; by destruct (is_terminal (run_state run2)) eqn:E].
    destruct Hrow2. constructor; rewrite ?F1, ?F2, ?F3; done.
Qed.

Lemma tick_wp ph : ph_open ph = false -> durable (ph_row ph) -> wp ph _run_one_mix (fun _ _ => True).
Proof.
  intros Hph Hd. split; [done|]. intros r ph' [-> Hr]. destruct r as [found|]; [|done]. rewrite (Hr found eq_refl). cbn [pbind].
  destruct (is_terminal _) eqn:Et; [done|]. split; [done|]. intros r ph' ->. destruct r as [now|]; [|done].
  set (run := set_updated_at now (ph_row ph)). assert (Hm : mode (ph_row ph) = bootstrap) by apply Hd.
  cbn [mode set_updated_at run_state] in *. rewrite Hm. apply wp_rbind.
  eapply wp_mono; [|apply (bootstrap_wp ph run Hph eq_refl); [|exact Et]].
  - intros ph' [run2|x]; [|done]. intros (Hph' & Hs & Hdur). split; [|done]. split; [done|]. rewrite Hph', Hs. cbn. lia.
  - destruct Hd as [[] Hf]. split; [constructor|]; done.
Qed.
End Steps.
