(* ===== verification/MixHistory.v ===== *)
(** * A run from its request to its end

    Ticks of the executor, whole or cut off, and stop requests between them.
    Ticks of one run do not overlap here. An interpreter under given answers
    runs ticks on concrete rows. *)
From S2P Require Import Prelude Prog Bytes PyInt PyFloat Utf8 Json PyJson ChannelMix ChannelMixPlan Bootstrap MixRun MixTask MixSafety.

(** ** Executions *)

(** The phases a program can be seen in: it may be cut off before any call,
    and an answer is any the protocol allows. *)
Inductive runs {A} : phase -> prog call A -> phase -> Prop :=
  | runs_here ph p : runs ph p ph
  | runs_call {X} ph (o : call X) k r ph1 ph2 : reply ph o r ph1 -> runs ph1 (k r) ph2 -> runs ph (Call o k) ph2.

Lemma runs_cases {A} ph (p : prog call A) ph' :
  runs ph p ph' ->
  ph' = ph \/ match p with Return _ => False | Call o k => exists r ph1, reply ph o r ph1 /\ runs ph1 (k r) ph' end.
Proof. destruct 1; [by left | right; eauto]. Qed.

(** The committed row, the acknowledged opens, and the ticks cut off between
    an acknowledgement and its commit. *)
Record ledger := mkLedger { row : ChannelMixRun; acked : nat; cuts : nat }.

Definition ledger_of (before : ledger) (ph : phase) : ledger := mkLedger (ph_row ph) (ph_acked ph) (cuts before + b2n (ph_open ph)).

Section History.
Context (lower : ustr -> ustr) (catalog : list SmallChannelPeer).
Context (random : bytes -> nat -> float) (pow : float -> float -> float).
Context (peer_selection_seed : BootstrapParams -> bytes).

Abbreviation tick_program := (_run_one_mix lower catalog random pow peer_selection_seed).

Inductive step (g : ledger) : ledger -> Prop :=
  | step_tick ph : runs (mkPhase (row g) (acked g) false) tick_program ph -> step g (ledger_of g ph)
  | step_stop force now : step g (mkLedger (post_channel_mix_run_stop force now (row g)) (acked g) (cuts g)).

Inductive history (g : ledger) : ledger -> Prop :=
  | history_start : history g g
  | history_step g1 g2 : history g g1 -> step g1 g2 -> history g g2.

(** ** What holds at every phase *)

Record balanced_at (base : nat) (ph : phase) : Prop := {
  at_durable : durable (ph_row ph);
  at_acked : ph_acked ph = (base + funded (ph_row ph) + b2n (ph_open ph))%nat
}.

Lemma reply_balanced {X} base ph (o : call X) r ph' :
  balanced_at base ph -> may ph o -> reply ph o r ph' -> balanced_at base ph'.
Proof.
  intros [Hd Ha] Hm Hr.
  assert (Hc : forall x, durable x -> funded x = (funded (ph_row ph) + b2n (ph_open ph))%nat -> balanced_at base (commit_to x ph))
    by (intros x H1 H2; constructor; cbn; [done | lia]).
  destruct o; cbn in Hm, Hr; try (by subst ph').
  - by destruct Hr as [-> _].
  - destruct Hm, Hr as [->|[-> _]]; [by apply Hc | done].
  - subst ph'. destruct r as [a|]; [|done]. destruct (opened a); [|done]. constructor; cbn; [done|]. rewrite Hm in Ha. cbn in Ha. lia.
  - destruct Hm. destruct r as [a|]; [subst ph'; destruct (created a) | destruct Hr as [->| ->]]; solve [done | by apply Hc].
Qed.

Lemma runs_balanced {A} base ph (p : prog call A) Q ph' :
  balanced_at base ph -> wp ph p Q -> runs ph p ph' -> balanced_at base ph'.
Proof.
  intros Hb Hw Hr. induction Hr as [ph p|X ph o k r ph1 ph2 Hr _ IH]; [done|]. destruct Hw as [Hm Hk].
  apply IH; [by eapply reply_balanced | by apply Hk].
Qed.

Lemma stop_frame force now run :
  rounds (post_channel_mix_run_stop force now run) = rounds run /\ mode (post_channel_mix_run_stop force now run) = mode run /\
  realized_inbound_sats (post_channel_mix_run_stop force now run) = realized_inbound_sats run /\
  (is_terminal (run_state run) = true -> is_terminal (run_state (post_channel_mix_run_stop force now run)) = true).
Proof.
  unfold post_channel_mix_run_stop, finalize_run. destruct force; [cbn; by destruct (is_terminal _) eqn:E|].
  by destruct (is_terminal (run_state run)) eqn:E, (stop_requested run).
Qed.

Lemma stop_durable force now run : durable run -> durable (post_channel_mix_run_stop force now run).
Proof.
  intros [[H1 H2 H3 H4 H5] Hf]. destruct (stop_frame force now run) as (F1 & F2 & F3 & F4).
  split; [constructor; rewrite ?F1, ?F2, ?F3; done|]. unfold last_failed in *. rewrite F1. auto.
Qed.

Lemma step_balanced g g' :
  balanced_at (cuts g) (mkPhase (row g) (acked g) false) -> step g g' -> balanced_at (cuts g') (mkPhase (row g') (acked g') false).
Proof.
  intros Hb [ph Hr|force now].
  - eapply runs_balanced in Hr; [|exact Hb | apply tick_wp; [done | apply Hb]]. destruct Hr as [Hd Ha].
    constructor; cbn in *; [done | lia].
  - destruct Hb as [Hd Ha]. constructor; cbn in *; [by apply stop_durable|].
    unfold funded in *. by rewrite (proj1 (stop_frame force now (row g))).
Qed.

Lemma history_balanced now target warnings params g :
  history (mkLedger (bootstrap_run now target warnings params) 0 0) g -> balanced_at (cuts g) (mkPhase (row g) (acked g) false).
Proof.
  induction 1 as [|g1 g2 _ IH Hs]; [|by eapply step_balanced].
  constructor; [|done]. split; [|done]. constructor; [done | done | done | cbn; lia | done].
Qed.

Lemma funded_count r : (funded r <= length (rounds r))%nat.
Proof. apply List.filter_length_le. Qed.

(** C14. Over every history of a bootstrap run - ticks whose calls answer
    anything or raise, ticks cut off before any call, stop requests between
    ticks - the channel opens that LND acknowledged are exactly the rounds
    whose funding id is committed, except one for each tick that ended
    between an acknowledgement and the commit that follows it. *)
Theorem bootstrap_opens_recorded now target warnings params g :
  history (mkLedger (bootstrap_run now target warnings params) 0 0) g ->
  acked g = (funded (row g) + cuts g)%nat /\ (acked g <= BOOTSTRAP_MAX_ROUNDS + cuts g)%nat.
Proof.
  intros H. apply history_balanced in H as [[Hrow _] Ha]. cbn [ph_row ph_acked ph_open b2n] in *.
  pose proof (row_count _ Hrow). pose proof (funded_count (row g)). lia.
Qed.

(** C15. The ledger of a bootstrap run is sound in every committed row:
    rounds are numbered in order and there are at most 40; every round
    before the last has settled; a round past its opening has a funding id;
    a round's channel is at least the per-channel floor, its drain within the
    Boltz limit and its failed swaps at most 4, fewer unless it failed;
    the inbound total is the sum of the settled drains; and the run is over
    once its last round has failed. *)
Theorem bootstrap_ledger now target warnings params g :
  history (mkLedger (bootstrap_run now target warnings params) 0 0) g ->
  row_ok (row g) /\ (last_failed (row g) = true -> is_terminal (run_state (row g)) = true).
Proof. intros H. by apply history_balanced in H as [H _]. Qed.
End History.

(** ** Ticks under given answers *)

Definition answers := forall X, call X -> result X.

Definition respond {X} (ph : phase) (o : call X) : result X -> result X * phase :=
  match o in call X return result X -> result X * phase with
  | D_load => fun _ => (Ok (Some (ph_row ph)), ph)
  | D_commit x => fun r => (r, match r with Ok _ => commit_to x ph | Err _ => ph end)
  | B_create x _ _ _ => fun r => (r, match r with Ok a => if created a then commit_to x ph else ph | Err _ => ph end)
  | L_open _ _ _ _ => fun r => (r, match r with Ok a => if opened a then acknowledge ph else ph | Err _ => ph end)
  | _ => fun r => (r, ph)
  end.

Fixpoint exec {A} (env : answers) (ph : phase) (p : prog call A) : phase * A :=
  match p with
  | Return a => (ph, a)
  | Call o k => let '(r, ph') := respond ph o (env _ o) in exec env ph' (k r)
  end.

Lemma respond_reply {X} ph (o : call X) r : reply ph o (respond ph o r).1 (respond ph o r).2.
Proof.
  destruct o; cbn; try done.
  - split; [done|]. by intros x [= <-].
  - destruct r; [by left | right; by eauto].
  - destruct r; [done | by left].
Qed.

Lemma exec_runs {A} env (p : prog call A) : forall ph, runs ph p (exec env ph p).1.
Proof.
  induction p as [a|X o k IH]; intros ph; [constructor|]. cbn. pose proof (respond_reply ph o (env X o)) as H.
  destruct (respond ph o (env X o)) as [r ph']. by eapply runs_call.
Qed.

Section Ticks.
Context (lower : ustr -> ustr) (catalog : list SmallChannelPeer).
Context (random : bytes -> nat -> float) (pow : float -> float -> float).
Context (peer_selection_seed : BootstrapParams -> bytes).

Definition tick_under (g : ledger) (env : answers) : ledger :=
  ledger_of g (exec env (mkPhase (row g) (acked g) false) (_run_one_mix lower catalog random pow peer_selection_seed)).1.

Lemma ticks_history g : forall envs, history lower catalog random pow peer_selection_seed g (fold_left tick_under envs g).
Proof.
  intros envs. rewrite <- (rev_involutive envs). induction (rev envs) as [|env l IH]; [constructor|]. cbn [rev].
  rewrite fold_left_app. eapply history_step; [exact IH|]. apply step_tick, exec_runs.
Qed.
End Ticks.

(** What the services answer on a tick: LND, Boltz, the database and the
    queue work; the audit log answers [sc_audit]. *)
Record scene := mkScene {
  sc_now : Z; sc_audit : result unit; sc_online : list ustr; sc_channels : list channel_info; sc_active : bool;
  sc_balance : Z; sc_swap : option swap_view
}.

Definition in_scene (sc : scene) : answers := fun X o =>
  match o in call X return result X with
  | Now => Ok (sc_now sc)
  | D_load => Ok None
  | D_commit _ => Ok tt
  | D_swap _ => Ok (sc_swap sc)
  | A_audit _ _ => sc_audit sc
  | L_connect _ _ => Ok None
  | L_peers => Ok (Some (sc_online sc), None)
  | L_open _ _ _ _ => Ok (Some (mkOpened (u "f00d") (Some 0)), None)
  | L_channels => Ok (Some (sc_channels sc), None)
  | L_pending => Ok (Some [], None)
  | L_active _ => Ok (sc_active sc, None)
  | L_address => Ok (Some (Some (u "bc1q")), None)
  | L_balance => Ok (Some (mkBalance (sc_balance sc) 0), None)
  | F_fees => Ok (None, Some (u "offline"))
  | B_create _ _ _ _ => Ok (Some (u "swap1"), None)
  | Q_enqueue _ => Ok tt
  end.

(** ** A bootstrap run of one round *)

Abbreviation demo_tick := (tick_under lower_text demo_catalog (fun _ _ => zero) (fun b _ => b) (fun _ => [])).

Definition demo_params : BootstrapParams := mkParams (u "bitcoin") recommended_diverse [] false None.
Definition demo_row : ChannelMixRun := bootstrap_run 0 (Some 400000) [] demo_params.
Definition online : list ustr := [u "02aa"; u "02bb"].

Definition drained_channel : channel_info := mkChanInfo (u "02bb") true (u "f00d:0") (u "1") 500000 5000 1000 0.
Definition claimed : swap_view := mkSwapView sw_completed (u "completed") (Some (u "l0")) (Some (u "c0")) (Some 478000).

Definition demo_scene (audit : result unit) (t : Z) (active : bool) (swap : option swap_view) : answers :=
  in_scene (mkScene t audit online [drained_channel] active 600000 swap).

(** It opens, waits for the channel, drains it, and completes. *)
Definition demo_day : list answers :=
  [demo_scene (Ok tt) 1 false None; demo_scene (Ok tt) 2 false None; demo_scene (Ok tt) 3 true None;
   demo_scene (Ok tt) 4 true None; demo_scene (Ok tt) 5 true (Some claimed)].

Definition demo_end : ledger := fold_left demo_tick demo_day (mkLedger demo_row 0 0).

Example demo_end_is : let r := row demo_end in
  (run_state r, map r_state (rounds r), realized_inbound_sats r, total_fees_sats r) = (COMPLETE, [settled], 479611, 6611).
Proof. vm_compute. reflexivity. Qed.

Lemma bootstrap_opens_recorded_witness : acked demo_end = 1%nat /\ acked demo_end = (funded (row demo_end) + cuts demo_end)%nat.
Proof.
  split; [vm_compute; reflexivity|].
  apply (bootstrap_opens_recorded lower_text demo_catalog (fun _ _ => zero) (fun b _ => b) (fun _ => []) 0 (Some 400000) [] demo_params).
  apply ticks_history.
Defined.

Lemma bootstrap_ledger_witness : inbound (rounds (row demo_end)) = 479611 /\ row_ok (row demo_end).
Proof.
  split; [vm_compute; reflexivity|].
  apply (bootstrap_ledger lower_text demo_catalog (fun _ _ => zero) (fun b _ => b) (fun _ => []) 0 (Some 400000) [] demo_params).
  apply ticks_history.
Defined.

(** ** Ticks whose audit write raises *)

Definition audit_down (x : exn) (t : Z) (pubkey : ustr) : answers :=
  in_scene (mkScene t (Err x) [pubkey] [] false 0 None).

Fixpoint repeated {A} (n : nat) (f : A -> A) (a : A) : A := match n with O => a | S n => f (repeated n f a) end.

Lemma exec_then {A B} env (p : rprog call A) (f : A -> rprog call B) : forall ph,
  exec env ph (rbind p f) = let '(ph', r) := exec env ph p in match r with Ok a => exec env ph' (f a) | Err x => (ph', Err x) end.
Proof.
  induction p as [[a|x]|X o k IH]; intros ph; [done | done|]. cbn. destruct (respond ph o (env X o)) as [r ph']. apply IH.
Qed.

Lemma poll_online x t pubkey ph : exec (audit_down x t pubkey) ph (_wait_peer_connected pubkey) = (ph, Ok true).
Proof.
  unfold _wait_peer_connected, BOOTSTRAP_PEER_CONNECT_WAIT_POLLS. generalize 14%nat as n. intros n. cbn [poll_peers]. rewrite exec_then.
  cbn [exec perform respond audit_down in_scene sc_online nonempty negb andb].
  rewrite bool_decide_eq_true_2 by (by apply list_elem_of_singleton). done.
Qed.

(** The first queued channel is opened, and the record of it is lost. *)
Lemma open_lost x t e l run ph :
  channels run = e :: l -> c_open_state e = o_queued ->
  exec (audit_down x t (c_peer_pubkey e)) ph (_open_one_channel run 0) = (acknowledge ph, Err x).
Proof.
  intros Hc Hq. unfold _open_one_channel. rewrite Hc. cbn [lookup list_lookup]. rewrite (bool_decide_eq_true_2 _ Hq). cbn [negb].
  rewrite exec_then. cbn [exec perform respond audit_down in_scene connect_failed nonempty andb].
  change (connect_failed None) with false. cbn iota. rewrite exec_then.
  change (c_peer_pubkey (set_c_open_state o_opening e)) with (c_peer_pubkey e). rewrite poll_online. cbn [negb].
  rewrite exec_then. cbn [exec perform respond audit_down in_scene opened nonempty negb].
  change (opened (Some (mkOpened (u "f00d") (Some 0)), None)) with true. done.
Qed.

Lemma parallel_tick_lost lower catalog random pow seed x t e l g :
  mode (row g) = parallel -> is_terminal (run_state (row g)) = false -> channels (row g) = e :: l -> c_open_state e = o_queued ->
  tick_under lower catalog random pow seed g (audit_down x t (c_peer_pubkey e)) = mkLedger (row g) (S (acked g)) (S (cuts g)).
Proof.
  intros Hm Ht Hc Hq. unfold tick_under, _run_one_mix. rewrite exec_then. cbn [exec perform respond ph_row]. rewrite Ht, exec_then.
  cbn [exec perform respond audit_down in_scene sc_now mode set_updated_at]. rewrite Hm, exec_then. unfold advance_parallel.
  set (run := set_run_state IN_PROGRESS _). assert (Hr : channels run = e :: l) by exact Hc. unfold indices. rewrite Hr, exec_then.
  cbn [length seq each]. rewrite exec_then. unfold open_queued at 1. cbn [fst]. rewrite Hr. cbn [list_lookup lookup].
  rewrite bool_decide_eq_true_2, exec_then, (open_lost x t e l) by done. unfold ledger_of. cbn. f_equal. lia.
Qed.

(** The parallel executor commits once, at the end of a tick. When the
    audit write after a successful open raises, the tick's record of the
    open is lost, and each of the next ticks opens the channel again: after
    [n] such ticks LND has acknowledged [n] more opens of the first queued
    channel and the committed row is unchanged. *)
Theorem parallel_reopens lower catalog random pow seed x t e l g n :
  mode (row g) = parallel -> is_terminal (run_state (row g)) = false -> channels (row g) = e :: l -> c_open_state e = o_queued ->
  repeated n (fun g => tick_under lower catalog random pow seed g (audit_down x t (c_peer_pubkey e))) g
  = mkLedger (row g) (acked g + n) (cuts g + n).
Proof.
  intros Hm Ht Hc Hq. induction n as [|n IH]; cbn [repeated]; [rewrite !Nat.add_0_r; by destruct g|].
  rewrite IH, (parallel_tick_lost _ _ _ _ _ x t e l) by done. cbn. f_equal; lia.
Qed.

Definition demo_mix : ChannelMixRun := parallel_run 0 (per_channel (plan_of (demo_plan 1000001 (u "bitcoin") true))) [].

Lemma parallel_reopens_witness :
  acked (repeated 7 (fun g => demo_tick g (audit_down RedisError 1 (u "02bb"))) (mkLedger demo_mix 0 0)) = 7%nat.
Proof.
  assert (Hc : exists e l, channels demo_mix = e :: l /\ c_open_state e = o_queued /\ c_peer_pubkey e = u "02bb")
    by (do 2 eexists; split; [vm_compute; reflexivity | by split]).
  destruct Hc as (e & l & Hc & Hq & <-).
  rewrite (parallel_reopens lower_text demo_catalog (fun _ _ => zero) (fun b _ => b) (fun _ => []) RedisError 1 e l (mkLedger demo_mix 0 0) 7);
    [reflexivity | reflexivity | reflexivity | exact Hc | exact Hq].
Defined.

(** A bootstrap run commits the funding id before it audits: with the audit
    log down for every tick it opens once and goes on. *)
Example bootstrap_survives_audit :
  let bad := Err RedisError in
  let g := fold_left demo_tick [demo_scene bad 1 false None; demo_scene bad 2 false None; demo_scene bad 3 true None] (mkLedger demo_row 0 0) in
  (acked g, cuts g, map r_state (rounds (row g))) = (1%nat, 0%nat, [open_active]).
Proof. vm_compute. reflexivity. Qed.
