(* ===== verification/MixParallel.v ===== *)
(** * Parallel runs

    Opens and swaps of a run whose ticks complete one after another, a run
    whose tick was cut off after it created a swap, and one whose ticks
    overlap. *)
From S2P Require Import Prelude Prog Bytes PyInt PyFloat Utf8 Json PyJson ChannelMix ChannelMixPlan MixRun MixTask MixSafety MixHistory.

(** A loop keeps what its body keeps. *)
Lemma each_wp {phase S} `{Protocol call phase} (I : phase -> S -> Prop) (body : S -> nat -> task S) :
  (forall ph st i, I ph st -> wp ph (body st i) (fun ph' => ok_or (I ph'))) ->
  forall l ph st, I ph st -> wp ph (each body st l) (fun ph' => ok_or (I ph')).
Proof. intros Hbody l. induction l as [|i l IH]; intros ph st Hst; [done|]. cbn [each]. eapply wp_next; [by apply Hbody | apply IH]. Qed.

(** ** Books *)

(** The committed row, the opens LND accepted and the swaps Boltz created. *)
Record account := mkAccount { ac_row : ChannelMixRun; ac_opens : nat; ac_swaps : nat }.

Definition commit_row (x : ChannelMixRun) (a : account) : account := mkAccount x (ac_opens a) (ac_swaps a).

Definition accepted (a : answer open_result) : bool := match a with (Some _, err) => negb (nonempty err) | _ => false end.

Definition settles {X} (a : account) (o : call X) : result X -> account -> Prop :=
  match o in call X return result X -> account -> Prop with
  | D_load => fun r a' => a' = a /\ forall x, r = Ok x -> x = Some (ac_row a)
  | D_commit x => fun r a' => a' = commit_row x a \/ a' = a /\ exists e, r = Err e
  | B_create x _ _ _ => fun r a' =>
      match r with
      | Ok s => a' = if created s then mkAccount x (ac_opens a) (S (ac_swaps a)) else a
      | Err _ => True
      end
  | L_open _ _ _ _ => fun r a' =>
      match r with
      | Ok s => a' = if accepted s then mkAccount (ac_row a) (S (ac_opens a)) (ac_swaps a) else a
      | Err _ => True
      end
  | _ => fun _ a' => a' = a
  end.

Instance account_protocol : Protocol call account := {
  may a X o := True;
  after a X o r a' := settles a o r a'
}.

Lemma quiet_unsettled a : unnoticed quiet a.
Proof. intros X o. by destruct o; cbn. Qed.

Definition is_some {A} (o : option A) : nat := match o with Some _ => 1 | None => 0 end.
Definition sent (e : channel_entry) : nat := is_some (c_open_pending_since e).
Definition seeded (e : channel_entry) : nat := is_some (c_seed_swap_id e).

Record entry_ok (e : channel_entry) : Prop := {
  ok_unsent : c_open_state e = o_queued -> c_open_pending_since e = None;
  ok_unseeded : c_seed_state e = s_queued -> c_seed_swap_id e = None
}.

Section Books.
(** The channels of the plan. *)
Context (size : nat).

(** Every open and every swap is on the entry of its channel. *)
Record books (a : account) (run : ChannelMixRun) : Prop := {
  bk_mode : mode run = parallel;
  bk_size : length (channels run) = size;
  bk_entries : Forall entry_ok (channels run);
  bk_opens : ac_opens a = sum_list_with sent (channels run);
  bk_swaps : ac_swaps a = sum_list_with seeded (channels run)
}.

Abbreviation balanced_books := (fun a => ok_or (books a)).

Lemma sum_insert (f : channel_entry -> nat) l i e e' :
  l !! i = Some e -> (sum_list_with f (<[i := e']> l) + f e = sum_list_with f l + f e')%nat.
Proof.
  revert i. induction l as [|x l IH]; intros [|i] H; [done | done | injection H as ->; cbn; lia |].
  change (<[S i := e']> (x :: l)) with (x :: <[i := e']> l). specialize (IH _ H). cbn. lia.
Qed.

Lemma books_put a a' run i e e' :
  channels run !! i = Some e -> books a run -> entry_ok e' ->
  (ac_opens a' + sent e = ac_opens a + sent e')%nat -> (ac_swaps a' + seeded e = ac_swaps a + seeded e')%nat ->
  books a' (put_channel i e' run).
Proof.
  intros He [Hm Hl Hok Ho Hs] He' H1 H2. pose proof (sum_insert sent _ _ _ e' He). pose proof (sum_insert seeded _ _ _ e' He).
  constructor; cbn; [done | by rewrite length_insert | by apply Forall_insert | lia | lia].
Qed.

(** Runs that differ elsewhere. *)
Lemma books_frame a run run' : books a run -> channels run' = channels run -> mode run' = mode run -> books a run'.
Proof. intros [H1 H2 H3 H4 H5] Hc Hm. constructor; rewrite ?Hc; congruence. Qed.

Lemma entry_at a run i e : books a run -> channels run !! i = Some e -> entry_ok e.
Proof. intros [_ _ H _ _] He. by apply (proj1 (Forall_lookup _ _) H i). Qed.

Lemma books_then {A} a (p : task A) (f : A -> task ChannelMixRun) :
  only quiet (ok_or whatever) p -> (forall x, wp a (f x) balanced_books) -> wp a (rbind p f) balanced_books.
Proof. intros Hp Hf. eapply wp_only_rbind; [apply quiet_unsettled | exact Hp | done | auto]. Qed.

Lemma books_quiet a p : only quiet (ok_or (books a)) p -> wp a p balanced_books.
Proof. intros Hp. eapply wp_only; [apply quiet_unsettled | exact Hp |]. done. Qed.

(** ** The steps of a tick *)

Lemma fail_open_ok err e : entry_ok e -> entry_ok (fail_open err e) /\ sent (fail_open err e) = sent e /\ seeded (fail_open err e) = seeded e.
Proof. intros [H1 H2]. unfold fail_open. case_bool_decide; by split; [constructor|]. Qed.

Lemma failed_quiet a run i e err :
  books a run -> channels run !! i = Some e ->
  only quiet (ok_or (books a)) (_ <-- perform (A_audit i false); value_of (put_channel i (fail_open err (set_c_open_state o_opening e)) run)).
Proof.
  intros Hb He. eapply only_rbind; [by apply only_perform|]. intros _ _. cbn.
  assert (Ho : entry_ok (set_c_open_state o_opening e)) by (destruct (entry_at _ _ _ _ Hb He); by constructor).
  destruct (fail_open_ok err _ Ho) as (H1 & H2 & H3). eapply books_put; [done | done | done | by rewrite H2 | by rewrite H3].
Qed.

Lemma open_books a run i : books a run -> wp a (_open_one_channel run i) balanced_books.
Proof.
  intros Hb. unfold _open_one_channel. destruct (channels run !! i) as [e|] eqn:He; [|done].
  destruct (bool_decide_reflect (c_open_state e = o_queued)) as [Hq|]; [|done]. cbn [negb].
  assert (Hf := fun err => books_quiet a _ (failed_quiet a run i e err Hb He)).
  apply books_then; [by apply only_perform|]. intros err. destruct (connect_failed err); [apply Hf|].
  apply books_then; [apply poll_quiet|]. intros []; [|apply Hf]. cbn [negb].
  split; [done|]. intros [[[res|] oerr]|x] a' Ha; cbn in Ha; [| subst a'; apply Hf | done].
  cbn [pbind]. destruct (nonempty oerr) eqn:Ee; cbn [negb] in Ha; subst a'; [apply Hf|].
  set (a' := mkAccount _ _ _). apply books_then; [by apply only_perform|]. intros now. cbv zeta.
  apply books_then; [by apply only_perform|]. intros _. cbn. destruct (entry_at _ _ _ _ Hb He) as [H1 H2].
  eapply (books_put a a'); [done | done | ..].
  - destruct (funding_txid res), (output_index res); by constructor.
  - unfold sent. rewrite (H1 Hq). destruct (funding_txid res), (output_index res); cbn; lia.
  - destruct (funding_txid res), (output_index res); cbn; unfold seeded; cbn; lia.
Qed.

Lemma seed_failed_books a run i e err :
  books a run -> channels run !! i = Some e -> books a (put_channel i (fail_seed err e) run).
Proof. intros Hb He. destruct (entry_at _ _ _ _ Hb He). by eapply books_put; [done | done | constructor | ..]. Qed.

Lemma seed_books a run i : books a run -> wp a (_seed_one_channel run i) balanced_books.
Proof.
  intros Hb. unfold _seed_one_channel. destruct (channels run !! i) as [e|] eqn:He; [|done].
  destruct (entry_at _ _ _ _ Hb He) as [H1 H2].
  destruct (bool_decide_reflect (c_seed_state e = s_queued)) as [Hq|]; [|done].
  destruct (bool_decide_reflect (c_open_state e = o_open_active)) as [Ho|]; [|done]. cbn [negb orb].
  destruct (_ <=? _); [cbn; by eapply books_put; [done | done | constructor | ..]|].
  assert (Hf := fun err => seed_failed_books a run i e err Hb He).
  apply books_then; [by apply only_perform|]. intros [[[[|ch dest]|]|] aerr]; [destruct (nonempty aerr); apply Hf | | destruct (nonempty aerr); apply Hf | apply Hf].
  destruct (nonempty aerr); [apply Hf|]. set (e1 := set_c_seed_state s_swapping e).
  assert (Hb1 : books a (put_channel i e1 run)) by (by eapply books_put; [done | done | constructor | ..]).
  assert (He1 : channels (put_channel i e1 run) !! i = Some e1)
    by (cbn; apply list_lookup_insert_eq; by eapply lookup_lt_Some).
  split; [done|]. intros [[[id|] serr]|x] a' Ha; cbn in Ha; [| subst a'; cbn; by apply seed_failed_books | done].
  cbn [pbind]. destruct (nonempty serr) eqn:Ee; cbn [negb] in Ha; subst a'; [cbn; by apply seed_failed_books|].
  set (a' := mkAccount _ _ _). cbn. eapply (books_put a a'); [done | done | by constructor | done |].
  unfold seeded. cbn. rewrite (H2 Hq). cbn. lia.
Qed.

Lemma refresh_ok cs e : entry_ok e -> entry_ok (refresh_entry cs e) /\ sent (refresh_entry cs e) = sent e /\ seeded (refresh_entry cs e) = seeded e.
Proof.
  intros [H1 H2]. unfold refresh_entry. case_bool_decide; [|done]. destruct (by_pubkey cs _) as [c|]; [|done].
  destruct (ci_active c); [|done]. by split; [constructor|].
Qed.

Lemma refresh_books a run : books a run -> wp a (_refresh_open_pending_states run) balanced_books.
Proof.
  intros Hb. unfold _refresh_open_pending_states. destruct (existsb _ _); [|done]. cbn [negb].
  apply books_then; [by apply only_perform|]. intros [[cs|] err]; [|done]. destruct (nonempty err); [done|]. cbn.
  destruct Hb as [Hm Hl Hok Ho Hs].
  assert (H : forall l, Forall entry_ok l -> Forall entry_ok (map (refresh_entry cs) l) /\
    sum_list_with sent (map (refresh_entry cs) l) = sum_list_with sent l /\
    sum_list_with seeded (map (refresh_entry cs) l) = sum_list_with seeded l).
  { clear. induction 1 as [|e l He _ (I1 & I2 & I3)]; [done|]. destruct (refresh_ok cs e He) as (R1 & R2 & R3).
    cbn. rewrite R2, R3, I2, I3. split; [by constructor | done]. }
  destruct (H _ Hok) as (K1 & K2 & K3). constructor; cbn; [done | by rewrite length_map | done | congruence | congruence].
Qed.

Lemma stuck_quiet e now : only quiet (ok_or whatever) (stuck_reason_parallel e now).
Proof.
  unfold stuck_reason_parallel. eapply (only_rbind _ whatever); [|by intros].
  destruct (c_open_txid e) as [[|]|], (c_open_output_index e); solve [apply dead_quiet | done].
Qed.

Lemma resolve_books skip now a run i : books a run -> wp a (resolve_channel skip now run i) balanced_books.
Proof.
  intros Hb. unfold resolve_channel. destruct (channels run !! i) as [e|] eqn:He; [|done]. destruct (_ || _); [done|].
  apply books_then; [apply stuck_quiet|]. intros [why|]; [|done]. cbn.
  destruct (fail_open_ok why e (entry_at _ _ _ _ Hb He)) as (H1 & H2 & H3).
  eapply (books_frame _ (put_channel i (fail_open why e) run)); [|done|done].
  eapply books_put; [done | done | done | by rewrite H2 | by rewrite H3].
Qed.

Lemma open_queued_books a st i : books a st.1 -> wp a (open_queued st i) (fun a' => ok_or (fun st' => books a' st'.1)).
Proof.
  intros Hb. unfold open_queued. destruct (channels st.1 !! i); [|done]. destruct (bool_decide _); [|done].
  apply wp_rbind. eapply wp_mono; [|by apply open_books]. by intros a' [run|x].
Qed.

Lemma roll_up_frame now run : channels (roll_up now run) = channels run /\ mode (roll_up now run) = mode run.
Proof. unfold roll_up, finalize_run. destruct (bool_decide _); [done|]. destruct (bool_decide _); [|done]. by destruct (is_terminal _). Qed.

Lemma parallel_books a run : books a run -> wp a (advance_parallel run) balanced_books.
Proof.
  intros Hb. unfold advance_parallel.
  eapply (wp_next _ _ _ (fun a st => books a st.1)); [apply (each_wp (fun a st => books a st.1)); [apply open_queued_books | by eapply books_frame]|].
  intros a1 [run1 opened] H1. eapply (wp_next _ _ _ books); [by apply refresh_books|]. intros a2 run2 H2.
  eapply (wp_next _ _ _ books).
  { unfold _resolve_stuck_parallel_channels. apply books_then; [by apply only_perform|]. intros now.
    apply (each_wp books); [|done]. intros. by apply resolve_books. }
  intros a3 run3 H3. eapply (wp_next _ _ _ books); [apply (each_wp books); [|done]; intros; by apply seed_books|].
  intros a4 run4 H4. apply books_then; [by apply only_perform|]. intros now. cbn. destruct (roll_up_frame now run4) as [F1 F2].
  by eapply books_frame.
Qed.

(** ** Runs of whole ticks *)

(** A program run to its end. *)
Inductive yields {A} : account -> prog call A -> account -> A -> Prop :=
  | yields_return a x : yields a (Return x) a x
  | yields_call {X} a (o : call X) k r a1 a2 x : settles a o r a1 -> yields a1 (k r) a2 x -> yields a (Call o k) a2 x.

Lemma yields_wp {A} a (p : prog call A) a' x Q : wp a p Q -> yields a p a' x -> Q a' x.
Proof. intros Hw Hy. revert Hw. induction Hy as [|X a o k r a1 a2 x Hs _ IH]; [done|]. intros [_ Hk]. by apply IH, Hk. Qed.

Section Whole.
Context (lower : ustr -> ustr) (catalog : list SmallChannelPeer).
Context (random : bytes -> nat -> float) (pow : float -> float -> float).
Context (peer_selection_seed : BootstrapParams -> bytes).

Abbreviation tick_program := (_run_one_mix lower catalog random pow peer_selection_seed).

(** Ticks that complete, one after another, and stop requests between them. *)
Inductive whole_ticks (a : account) : account -> Prop :=
  | whole_start : whole_ticks a a
  | whole_tick a1 a2 : whole_ticks a a1 -> yields a1 tick_program a2 (Ok tt) -> whole_ticks a a2
  | whole_stop a1 force now : whole_ticks a a1 -> whole_ticks a (commit_row (post_channel_mix_run_stop force now (ac_row a1)) a1).

Lemma tick_books a : books a (ac_row a) -> wp a tick_program (fun a' => ok_or (fun _ => books a' (ac_row a'))).
Proof.
  intros Hb. split; [done|]. intros r a' [-> Hr]. destruct r as [found|]; [|done]. rewrite (Hr found eq_refl). cbn [pbind].
  destruct (is_terminal _); [done|]. split; [done|]. intros r a' ->. destruct r as [now|]; [|done]. cbn [pbind].
  set (run := set_updated_at now (ac_row a)). assert (Hrun : books a run) by (by eapply books_frame).
  assert (Hm : mode run = parallel) by apply Hrun. rewrite Hm. apply wp_rbind. eapply wp_mono; [|by apply parallel_books].
  intros a' [run2|x]; [|done]. intros H2. split; [done|]. intros r a'' [->|[-> [x ->]]]; [|done].
  destruct r; [|done]. cbn. destruct H2. by constructor.
Qed.

Lemma stop_channels force now run :
  channels (post_channel_mix_run_stop force now run) = channels run /\ mode (post_channel_mix_run_stop force now run) = mode run.
Proof. unfold post_channel_mix_run_stop, finalize_run. destruct force; cbn; [|destruct (_ || _)]; by try destruct (is_terminal _). Qed.

Lemma whole_books a a' : books a (ac_row a) -> whole_ticks a a' -> books a' (ac_row a').
Proof.
  intros Hb. induction 1 as [|a1 a2 _ IH Hy|a1 force now _ IH]; [done | by apply (yields_wp _ _ _ _ _ (tick_books _ IH)) in Hy |].
  destruct (stop_channels force now (ac_row a1)) as [F1 F2]. destruct (books_frame _ _ _ IH F1 F2). by constructor.
Qed.
End Whole.
End Books.

Lemma sum_le_length (f : channel_entry -> nat) l : (forall e, f e <= 1)%nat -> (sum_list_with f l <= length l)%nat.
Proof. intros H. induction l as [|e l IH]; [done|]. cbn. specialize (H e). lia. Qed.

Lemma is_some_le {A} (o : option A) : (is_some o <= 1)%nat.
Proof. destruct o; cbn; lia. Qed.

Lemma parallel_run_books now plan warnings : books (length plan) (mkAccount (parallel_run now plan warnings) 0 0) (parallel_run now plan warnings).
Proof.
  assert (H : forall l, Forall entry_ok (map entry_of l) /\ sum_list_with sent (map entry_of l) = 0%nat /\ sum_list_with seeded (map entry_of l) = 0%nat).
  { induction l as [|ch l (I1 & I2 & I3)]; [done|]. cbn. rewrite I2, I3. split; [constructor; [by constructor | done] | done]. }
  destruct (H plan) as (H1 & H2 & H3). constructor; cbn; [done | by rewrite length_map | done | done | done].
Qed.

(** C16. In a parallel run whose ticks each complete before the next one
    starts, whatever their calls answer and whatever stop requests come
    between them: the channel opens LND accepted are exactly the channels
    with a recorded open, the swaps Boltz created exactly the channels with a
    recorded swap, and both are at most the channels of the plan. The order
    of the ticks is an assumption: the commit inside [create_reverse_swap]
    gives up the row lock that is to enforce it, and ticks that overlap from
    there on can create swaps nothing records, as
    [overlapping_ticks_seed_twice] shows. *)
Theorem parallel_opens_recorded lower catalog random pow seed now plan warnings a :
  whole_ticks lower catalog random pow seed (mkAccount (parallel_run now plan warnings) 0 0) a ->
  ac_opens a = sum_list_with sent (channels (ac_row a)) /\ ac_swaps a = sum_list_with seeded (channels (ac_row a)) /\
  (ac_opens a <= length plan)%nat /\ (ac_swaps a <= length plan)%nat.
Proof.
  intros H. apply (whole_books (length plan)) in H; [|apply parallel_run_books]. destruct H as [_ Hl _ Ho Hs].
  split; [done|]. split; [done|]. rewrite Ho, Hs, <- Hl. split; apply sum_le_length; intros e; apply is_some_le.
Qed.

(** ** A tick cut off while it seeds *)

(** A channel is marked as swapping: [create_reverse_swap] commits the mark
    before the tick records the swap. *)
Record wedged (r : ChannelMixRun) : Prop := {
  wd_mode : mode r = parallel;
  wd_live : is_terminal (run_state r) = false;
  wd_entry : exists i e, channels r !! i = Some e /\ c_seed_state e = s_swapping
}.

(** Whatever is committed is wedged if what is loaded is. *)
Instance wedge_protocol : Protocol call unit := {
  may _ X o := match o with D_commit x | B_create x _ _ _ => wedged x | _ => True end;
  after _ X o r _ :=
    match o in call X return result X -> Prop with
    | D_load => fun r => forall x, r = Ok (Some x) -> wedged x
    | _ => fun _ => True
    end r
}.

Abbreviation stays_wedged := (fun (_ : unit) => ok_or wedged).

Lemma quiet_wedge : unnoticed quiet tt.
Proof. intros X o Ho. split; [by destruct o | by intros r []]. Qed.

Lemma wedge_then {A} (p : task A) (f : A -> task ChannelMixRun) :
  only quiet (ok_or whatever) p -> (forall x, wp tt (f x) stays_wedged) -> wp tt (rbind p f) stays_wedged.
Proof. intros Hp Hf. eapply wp_only_rbind; [apply quiet_wedge | exact Hp | done | auto]. Qed.

Lemma wedge_frame run run' : wedged run -> channels run' = channels run -> mode run' = mode run -> run_state run' = run_state run -> wedged run'.
Proof. intros [H1 H2 (i & e & H)] Hc Hm Hs. constructor; [congruence | congruence | exists i, e; by rewrite Hc]. Qed.

Lemma wedge_put run i e e' :
  channels run !! i = Some e -> (c_seed_state e = s_swapping -> c_seed_state e' = s_swapping) -> wedged run -> wedged (put_channel i e' run).
Proof.
  intros He Hs [H1 H2 (j & x & Hx & Hsw)]. constructor; [done | done|]. destruct (decide (j = i)) as [->|Hne].
  - exists i, e'. split; [cbn; apply list_lookup_insert_eq; by eapply lookup_lt_Some | apply Hs; congruence].
  - exists j, x. by split; [cbn; rewrite list_lookup_insert_ne|].
Qed.

Lemma fail_open_swapping err e : c_seed_state e = s_swapping -> c_seed_state (fail_open err e) = s_swapping.
Proof. intros H. unfold fail_open. cbn. rewrite H. done. Qed.

Lemma open_wedged run i : wedged run -> wp tt (_open_one_channel run i) stays_wedged.
Proof.
  intros Hw. unfold _open_one_channel. destruct (channels run !! i) as [e|] eqn:He; [|done]. destruct (negb _); [done|].
  assert (Hf : forall err, wp tt (_ <-- perform (A_audit i false); value_of (put_channel i (fail_open err (set_c_open_state o_opening e)) run)) stays_wedged).
  { intros err. apply wedge_then; [by apply only_perform|]. intros _. cbn. eapply wedge_put; [done | | done].
    intros H. by apply fail_open_swapping. }
  apply wedge_then; [by apply only_perform|]. intros err. destruct (connect_failed err); [apply Hf|].
  apply wedge_then; [apply poll_quiet|]. intros []; [|apply Hf]. cbn [negb].
  split; [done|]. intros [[[res|] oerr]|x] [] _; [| apply Hf | done]. cbn [pbind]. destruct (nonempty oerr); [apply Hf|].
  apply wedge_then; [by apply only_perform|]. intros now. apply wedge_then; [by apply only_perform|]. intros _. cbn.
  eapply wedge_put; [done | | done]. intros H. by destruct (funding_txid res), (output_index res).
Qed.

Lemma seed_wedged run i : wedged run -> wp tt (_seed_one_channel run i) stays_wedged.
Proof.
  intros Hw. unfold _seed_one_channel. destruct (channels run !! i) as [e|] eqn:He; [|done].
  destruct (bool_decide_reflect (c_seed_state e = s_queued)) as [Hq|]; [|done]. destruct (_ || _); [done|].
  assert (Hp : forall e', wedged (put_channel i e' run)) by (intros e'; eapply wedge_put; [done | congruence | done]).
  destruct (_ <=? _); [apply Hp|]. apply wedge_then; [by apply only_perform|].
  intros [[[[|ch dest]|]|] aerr]; [destruct (nonempty aerr); apply Hp | | destruct (nonempty aerr); apply Hp | apply Hp].
  destruct (nonempty aerr); [apply Hp|]. split; [apply Hp|].
  assert (Hpp : forall e1 e2, wedged (put_channel i e2 (put_channel i e1 run)))
    by (intros e1 e2; eapply wedge_frame; [apply (Hp e2) | cbn; by rewrite list_insert_insert_eq | done | done]).
  intros [[[id|] serr]|x] [] _; cbn [pbind]; [destruct (nonempty serr); apply Hpp | apply Hpp | done].
Qed.

Lemma refresh_wedged run : wedged run -> wp tt (_refresh_open_pending_states run) stays_wedged.
Proof.
  intros Hw. unfold _refresh_open_pending_states. destruct (existsb _ _); [|done]. cbn [negb].
  apply wedge_then; [by apply only_perform|]. intros [[cs|] err]; [|done]. destruct (nonempty err); [done|].
  destruct Hw as [H1 H2 (i & e & He & Hs)]. constructor; [done | done|]. exists i, (refresh_entry cs e).
  split; [cbn; rewrite list_lookup_fmap, He; done|]. unfold refresh_entry. case_bool_decide; [|done].
  destruct (by_pubkey cs _) as [c|]; [|done]. by destruct (ci_active c).
Qed.

Lemma resolve_wedged skip now run i : wedged run -> wp tt (resolve_channel skip now run i) stays_wedged.
Proof.
  intros Hw. unfold resolve_channel. destruct (channels run !! i) as [e|] eqn:He; [|done]. destruct (_ || _); [done|].
  apply wedge_then; [apply stuck_quiet|]. intros [why|]; [|done]. cbn.
  eapply (wedge_frame (put_channel i (fail_open why e) run)); [|done|done|done].
  eapply wedge_put; [done | apply fail_open_swapping | done].
Qed.

Lemma roll_up_wedged now run : wedged run -> wedged (roll_up now run).
Proof.
  intros [H1 H2 (i & e & He & Hs)].
  assert (Hr : _rollup_state run = IN_PROGRESS).
  { unfold _rollup_state. destruct (bool_decide_reflect (channels run = [])) as [E|]; [by rewrite E in He|].
    replace (forallb seed_over (channels run)) with false; [by rewrite andb_false_r|]. symmetry. apply not_true_is_false.
    rewrite forallb_forall. intros H. specialize (H e). unfold seed_over in H. rewrite Hs in H.
    assert (Hin : List.In e (channels run)) by (by apply list_elem_of_In, list_elem_of_lookup_2 with i). by apply H in Hin. }
  unfold roll_up. rewrite Hr. destruct (bool_decide _); [constructor; eauto|]. constructor; [done | done | eauto].
Qed.

Lemma parallel_wedged run : wedged run -> wp tt (advance_parallel run) stays_wedged.
Proof.
  intros Hw. unfold advance_parallel.
  eapply (wp_next _ _ _ (fun _ st => wedged st.1)).
  { apply (each_wp (fun _ st => wedged st.1)); [|destruct Hw as [H1 H2 H3]; by constructor].
    intros [] st i Hst. unfold open_queued. destruct (channels st.1 !! i); [|done]. destruct (bool_decide _); [|done].
    eapply wp_next; [by apply open_wedged | by intros]. }
  intros [] [run1 opened] H1. eapply (wp_next _ _ _ (fun _ => wedged)); [by apply refresh_wedged|]. intros [] run2 H2.
  eapply (wp_next _ _ _ (fun _ => wedged)).
  { unfold _resolve_stuck_parallel_channels. apply wedge_then; [by apply only_perform|]. intros now.
    apply (each_wp (fun _ => wedged)); [|done]. intros [] ???. by apply resolve_wedged. }
  intros [] run3 H3. eapply (wp_next _ _ _ (fun _ => wedged)); [apply (each_wp (fun _ => wedged)); [|done]; intros [] ???; by apply seed_wedged|].
  intros [] run4 H4. apply wedge_then; [by apply only_perform|]. intros now. by apply (wedge_frame (roll_up now run4)); [apply roll_up_wedged|..].
Qed.

Section Wedge.
Context (lower : ustr -> ustr) (catalog : list SmallChannelPeer).
Context (random : bytes -> nat -> float) (pow : float -> float -> float).
Context (peer_selection_seed : BootstrapParams -> bytes).

Abbreviation tick_program := (_run_one_mix lower catalog random pow peer_selection_seed).

Lemma tick_wedged : wp tt tick_program (fun _ _ => True).
Proof.
  split; [done|]. intros r [] Hr. destruct r as [[run|]|]; [|done|done]. specialize (Hr run eq_refl). cbn [pbind].
  destruct (is_terminal _); [done|]. split; [done|]. intros r [] _. destruct r as [now|]; [|done]. cbn [pbind].
  set (run1 := set_updated_at now run). assert (Hw : wedged run1) by (by eapply wedge_frame). rewrite (wd_mode _ Hw).
  apply wp_rbind. eapply wp_mono; [|by apply parallel_wedged]. intros [] [run2|]; [|done]. intros H2. by split.
Qed.

Lemma runs_wedged {A} (p : prog call A) Q ph ph' : wedged (ph_row ph) -> wp tt p Q -> runs ph p ph' -> wedged (ph_row ph').
Proof.
  intros Hw Hp Hr. revert Hw Hp. induction Hr as [|X ph o k r ph1 ph2 Hr _ IH]; [done|]. intros Hw [Hm Hk].
  apply IH; [|apply (Hk r tt)]; destruct o; cbn in *; try (by subst); try done.
  - by destruct Hr as [-> _].
  - by destruct Hr as [->|[-> _]].
  - subst ph1. destruct r as [a|]; [|done]. by destruct (opened a).
  - destruct r as [a|]; [subst ph1; by destruct (created a) | by destruct Hr as [->| ->]].
  - destruct Hr as [_ Hr]. intros x ->. specialize (Hr _ eq_refl). congruence.
Qed.

(** Ticks, whole or cut off, and stop requests that do not force. *)
Inductive unforced (g : ledger) : ledger -> Prop :=
  | unforced_start : unforced g g
  | unforced_tick g1 ph : unforced g g1 -> runs (mkPhase (row g1) (acked g1) false) tick_program ph -> unforced g (ledger_of g1 ph)
  | unforced_stop g1 now : unforced g g1 -> unforced g (mkLedger (post_channel_mix_run_stop false now (row g1)) (acked g1) (cuts g1)).

(** Once a committed row of a live parallel run has a channel marked as
    swapping - [create_reverse_swap] commits that mark, and the tick that set
    it may die before it records the swap - no later tick and no cooperative
    stop ends the run: the mark is never retried, failed or rolled up. Only a
    forced stop frees the run. *)
Theorem swapping_never_ends g g' : wedged (row g) -> unforced g g' -> is_terminal (run_state (row g')) = false.
Proof.
  intros Hw Hu. apply wd_live. induction Hu as [|g1 ph _ IH Hr|g1 now _ IH]; [done | |].
  - by apply (runs_wedged _ _ (mkPhase (row g1) (acked g1) false) ph IH tick_wedged Hr).
  - cbn [row]. unfold post_channel_mix_run_stop. by destruct (_ || _); [|eapply wedge_frame].
Qed.
End Wedge.

(** ** Concrete runs *)

Definition pay {X} (a : account) (o : call X) : result X -> result X * account :=
  match o in call X return result X -> result X * account with
  | D_load => fun _ => (Ok (Some (ac_row a)), a)
  | D_commit x => fun r => (r, match r with Ok _ => commit_row x a | Err _ => a end)
  | B_create x _ _ _ => fun r =>
      (r, match r with Ok s => if created s then mkAccount x (ac_opens a) (S (ac_swaps a)) else a | Err _ => a end)
  | L_open _ _ _ _ => fun r =>
      (r, match r with Ok s => if accepted s then mkAccount (ac_row a) (S (ac_opens a)) (ac_swaps a) else a | Err _ => a end)
  | _ => fun r => (r, a)
  end.

Fixpoint total {A} (env : answers) (a : account) (p : prog call A) : account * A :=
  match p with
  | Return x => (a, x)
  | Call o k => let '(r, a') := pay a o (env _ o) in total env a' (k r)
  end.

Lemma pay_settles {X} a (o : call X) r : settles a o (pay a o r).1 (pay a o r).2.
Proof.
  destruct o; cbn; try done; [split; [done|]; by intros x [= <-] | | |]; destruct r; try done; [by left | right; by eauto].
Qed.

Lemma total_yields {A} env (p : prog call A) : forall a, yields a p (total env a p).1 (total env a p).2.
Proof.
  induction p as [x|X o k IH]; intros a; [constructor|]. cbn. pose proof (pay_settles a o (env X o)) as H.
  destruct (pay a o (env X o)) as [r a']. by eapply yields_call.
Qed.

(** A tick that is cut off after [n] calls. *)
Fixpoint exec_until {A} (n : nat) (env : answers) (ph : phase) (p : prog call A) : phase :=
  match n, p with
  | S n, Call o k => let '(r, ph') := respond ph o (env _ o) in exec_until n env ph' (k r)
  | _, _ => ph
  end.

Lemma exec_until_runs {A} env (p : prog call A) : forall n ph, runs ph p (exec_until n env ph p).
Proof.
  induction p as [a|X o k IH]; intros [|n] ph; try constructor. cbn. pose proof (respond_reply ph o (env X o)) as H.
  destruct (respond ph o (env X o)) as [r ph']. by eapply runs_call.
Qed.

Abbreviation demo_program := (_run_one_mix lower_text demo_catalog (fun _ _ => zero) (fun b _ => b) (fun _ => [])).

Definition up (pubkey : string) : channel_info := mkChanInfo (u pubkey) true [] [] 0 0 0 0.
Definition opens_scene : answers := in_scene (mkScene 1 (Ok tt) online [] false 0 None).
Definition seeds_scene : answers := in_scene (mkScene 2 (Ok tt) online [up "02aa"; up "02bb"] true 0 None).

Definition demo_account : account := (total seeds_scene (total opens_scene (mkAccount demo_mix 0 0) demo_program).1 demo_program).1.

Lemma parallel_opens_recorded_witness :
  (ac_opens demo_account, ac_swaps demo_account, run_state (ac_row demo_account)) = (2%nat, 2%nat, COMPLETE) /\
  ac_opens demo_account = sum_list_with sent (channels (ac_row demo_account)).
Proof.
  split; [vm_compute; reflexivity|].
  apply (parallel_opens_recorded lower_text demo_catalog (fun _ _ => zero) (fun b _ => b) (fun _ => []) 0
    (per_channel (plan_of (demo_plan 1000001 (u "bitcoin") true))) [] demo_account).
  eapply whole_tick; [eapply whole_tick; [apply whole_start | exact (total_yields opens_scene demo_program _)] |
    exact (total_yields seeds_scene demo_program _)].
Defined.

(** The second tick dies after its first swap is created. *)
Definition cut_ledger : ledger :=
  let g := demo_tick (mkLedger demo_mix 0 0) opens_scene in
  ledger_of g (exec_until 6 seeds_scene (mkPhase (row g) (acked g) false) demo_program).

Example cut_ledger_is : map c_seed_state (channels (row cut_ledger)) = [s_swapping; s_queued].
Proof. vm_compute. reflexivity. Qed.

(** Such a row is reached from the request. *)
Lemma cut_ledger_reached :
  history lower_text demo_catalog (fun _ _ => zero) (fun b _ => b) (fun _ => []) (mkLedger demo_mix 0 0) cut_ledger.
Proof.
  eapply history_step; [eapply history_step; [apply history_start|]|]; apply step_tick; [apply exec_runs | apply exec_until_runs].
Qed.

(** Later ticks seed the other channel, and the run does not end. *)
Lemma swapping_never_ends_witness :
  let g := demo_tick (demo_tick cut_ledger seeds_scene) seeds_scene in
  map c_seed_state (channels (row g)) = [s_swapping; s_seeded] /\ is_terminal (run_state (row g)) = false.
Proof.
  split; [vm_compute; reflexivity|].
  apply (swapping_never_ends lower_text demo_catalog (fun _ _ => zero) (fun b _ => b) (fun _ => []) cut_ledger).
  - constructor; [vm_compute; reflexivity | vm_compute; reflexivity |]. exists O. eexists. split; [vm_compute; reflexivity | reflexivity].
  - apply unforced_tick; [apply unforced_tick; [apply unforced_start|]|]; apply exec_runs.
Defined.

(** *** Overlapping ticks *)

(** A program after [n] calls: where the account stands and what is left. *)
Fixpoint pause {A} (n : nat) (env : answers) (a : account) (p : prog call A) : account * prog call A :=
  match n, p with
  | S n, Call o k => let '(r, a') := pay a o (env _ o) in pause n env a' (k r)
  | _, _ => (a, p)
  end.

(** The commit inside [create_reverse_swap] releases the row lock. A second
    tick that starts there finds the other channel queued and seeds it; the
    first tick, whose copy of the row is older, seeds it again: three swaps
    for two channels, of which the row records two. *)
Example overlapping_ticks_seed_twice :
  let a := (total opens_scene (mkAccount demo_mix 0 0) demo_program).1 in
  let '(a1, first) := pause 6 seeds_scene a demo_program in
  let a2 := (total seeds_scene a1 demo_program).1 in
  let a3 := (total seeds_scene a2 first).1 in
  (ac_swaps a3, map c_seed_state (channels (ac_row a3))) = (3%nat, [s_seeded; s_seeded]).
Proof. vm_compute. reflexivity. Qed.
