(* ===== verification/MixExecute.v ===== *)
(** * Starting a run

    services/channel_mix_plan_token.py and the two endpoints that execute a
    plan: POST /v1/wallet/channel-mix/execute of api/channel_mix.py and its
    twin of dashboard/api.py, as programs of database calls. The request
    carries the plan that the planner computes from its inputs at that moment
    ([_build_plan], [_build_bootstrap_plan]); its canonical JSON, which prints
    floats, is a parameter. *)
From S2P Require Import Prelude Prog Bytes Sha256 PyFloat Utf8 Json PyJson AuditChain ChannelMix Bootstrap MixRun MixTask.

(** ** Plan tokens *)

Definition _PLAN_TOKEN_CONTEXT : bytes := String.list_byte_of_string "agent-wallet/channel-mix-plan-token/v1".

(** The URL-safe alphabet of base 64. *)
Definition b64_char (n : Z) : Z :=
  if n <? 26 then 65 + n else if n <? 52 then 71 + n else if n <? 62 then n - 4 else if n =? 62 then 45 else 95.

(** [base64.urlsafe_b64encode(data).rstrip(b"=")] *)
Fixpoint urlsafe_b64encode (data : bytes) : ustr :=
  match data with
  | a :: b :: c :: data =>
      b64_char (b2z a / 4) :: b64_char (b2z a mod 4 * 16 + b2z b / 16) :: b64_char (b2z b mod 16 * 4 + b2z c / 64)
      :: b64_char (b2z c mod 64) :: urlsafe_b64encode data
  | [a; b] => [b64_char (b2z a / 4); b64_char (b2z a mod 4 * 16 + b2z b / 16); b64_char (b2z b mod 16 * 4)]
  | [a] => [b64_char (b2z a / 4); b64_char (b2z a mod 4 * 16)]
  | [] => []
  end.

Inductive mix_plan := PlanParallel (p : Plan) | PlanBootstrap (p : BootstrapPlan).

Section Token.
(** [_to_canonical_json], and [settings.secret_key] in UTF-8 *)
Context (_to_canonical_json : mix_plan -> result bytes) (secret_key : bytes).

Definition _subkey : bytes := hmac_sha256 secret_key _PLAN_TOKEN_CONTEXT.

Definition sign_plan (plan : mix_plan) : result ustr :=
  body ← _to_canonical_json plan;
  Ok (urlsafe_b64encode (hmac_sha256 _subkey body)).

Definition verify_plan_token (plan : mix_plan) (token : ustr) : result bool :=
  match token with
  | [] => Ok false
  | _ => match sign_plan plan with Ok expected => compare_digest expected token | Err _ => Ok false end
  end.
End Token.

Definition plan_token_digest (token : ustr) : result ustr :=
  data ← utf8_encode token;
  Ok (u (hex (sha256 data))).

(** ** The table *)

Record mix_row := mkMixRow { mix_id : nat; mix_digest : ustr; mix_run : ChannelMixRun }.

Definition _NON_TERMINAL_RUN_STATES : list ChannelMixRunState := [QUEUED; IN_PROGRESS; AWAITING_FUNDS].

Definition live (r : mix_row) : bool := bool_decide (run_state (mix_run r) ∈ _NON_TERMINAL_RUN_STATES).

(** [.order_by(ChannelMixRun.started_at.desc()).limit(1)] *)
Fixpoint latest (l : list mix_row) : option mix_row :=
  match l with
  | [] => None
  | r :: l =>
      match latest l with
      | Some r' => if started_at (mix_run r') <? started_at (mix_run r) then Some r else Some r'
      | None => Some r
      end
  end.

Definition with_digest (d : ustr) (l : list mix_row) : list mix_row := List.filter (fun r => bool_decide (mix_digest r = d)) l.

Inductive db : Type -> Type :=
  | T_now : db Z
  | T_digest (d : ustr) : db (list mix_row)
  | T_live_digest (d : ustr) : db (option mix_row)
  | T_lock : db unit
  | T_active : db (option mix_row)
  | T_insert (d : ustr) (r : ChannelMixRun) : db mix_row
  | T_rollback : db unit
  | T_refresh (id : nat) : db unit
  | T_delay (id : nat) : db unit.

Definition scalar_one_or_none {A} (l : list A) : rprog db (option A) :=
  match l with [] => value_of None | [x] => value_of (Some x) | _ => raise MultipleResultsFound end.

(** ** The endpoints *)

Definition lift_db {A} (r : result A) : rprog db A := Return r.

Record execute_request := mkExecute { x_plan : mix_plan; x_token : ustr; x_params : BootstrapParams }.

Inductive outcome := Existing (r : mix_row) | Resumed (r : mix_row) | Started (r : mix_row) | Answered (status : Z).

Section Execute.
Context (_to_canonical_json : mix_plan -> result bytes) (secret_key : bytes) (text : warning -> ustr).

Definition has_work (p : mix_plan) : bool :=
  match p with PlanParallel p => negb (bool_decide (per_channel p = [])) | PlanBootstrap p => match Bootstrap.rounds p with [] => false | _ => true end end.

Definition new_run (now : Z) (req : execute_request) : ChannelMixRun :=
  match x_plan req with
  | PlanParallel p => parallel_run now (per_channel p) (map text (warnings (diagnostics p)))
  | PlanBootstrap p => bootstrap_run now (target_inbound_sats p) (map text (warnings (bootstrap_diagnostics p))) (x_params req)
  end.

Definition _acquire_execute_lock : rprog db unit := perform T_lock.
Definition _active_run : rprog db (option mix_row) := perform T_active.

(** [db.add(run)] and the commit, with the branch for [IntegrityError]. *)
Definition insert_run (d : ustr) (run : ChannelMixRun) (conflict : rprog db outcome) : rprog db outcome :=
  pbind (perform (T_insert d run)) (fun r =>
    match r with
    | Ok row =>
        _ <-- perform (T_refresh (mix_id row));
        _ <-- perform (T_delay (mix_id row));
        value_of (Started row)
    | Err IntegrityError =>
        _ <-- perform T_rollback;
        rows <-- perform (T_digest d);
        existing <-- scalar_one_or_none rows;
        match existing with Some row => value_of (Existing row) | None => conflict end
    | Err e => raise e
    end).

(** From the lock on, the endpoints are the same. *)
Definition guarded_insert (req : execute_request) (d : ustr) (conflict : rprog db outcome) : rprog db outcome :=
  _ <-- _acquire_execute_lock;
  active <-- _active_run;
  match active with
  | Some row => value_of (Resumed row)
  | None => now <-- perform T_now; insert_run d (new_run now req) conflict
  end.

Definition post_channel_mix_execute (req : execute_request) : rprog db outcome :=
  fresh <-- lift_db (verify_plan_token _to_canonical_json secret_key (x_plan req) (x_token req));
  if negb fresh then raise (HTTPException 409)
  else if negb (has_work (x_plan req)) then raise (HTTPException 400)
  else
    d <-- lift_db (plan_token_digest (x_token req));
    rows <-- perform (T_digest d);
    existing <-- scalar_one_or_none rows;
    match existing with
    | Some row => value_of (Existing row)
    | None => guarded_insert req d (raise (HTTPException 409))
    end.

(** The dashboard's endpoint looks for live runs only. *)
Definition channel_mix_execute (req : execute_request) : rprog db outcome :=
  fresh <-- lift_db (verify_plan_token _to_canonical_json secret_key (x_plan req) (x_token req));
  if negb fresh then value_of (Answered 409)
  else if negb (has_work (x_plan req)) then value_of (Answered 400)
  else
    d <-- lift_db (plan_token_digest (x_token req));
    existing <-- perform (T_live_digest d);
    match existing with
    | Some row => value_of (Existing row)
    | None => guarded_insert req d (value_of (Answered 409))
    end.
End Execute.
