(* ===== verification/MixOneRun.v ===== *)
(** * One live run

    Requests that execute plans, interleaved call by call, over a table of
    runs that ticks and stop requests advance. The database is PostgreSQL at
    its default isolation: a statement sees what is committed, an advisory
    lock is held to the end of the transaction. *)
From stdpp Require Import functions.
From S2P Require Import Prelude Prog Bytes Sha256 PyInt PyFloat Utf8 Json PyJson AuditLog AuditChain ChannelMix ChannelMixPlan Bootstrap MixRun MixTask MixSafety MixHistory MixExecute.

(** ** The system *)

Record world := mkWorld { table : list mix_row; holder : option nat }.

Definition release (i : nat) (w : world) : world :=
  mkWorld (table w) (if bool_decide (holder w = Some i) then None else holder w).

(** Commits a new row and ends the transaction of request [i]. *)
Definition inserted (i : nat) (row : mix_row) (w : world) : world := release i (mkWorld (table w ++ [row]) (holder w)).

Definition answers_with {A} (r : result A) (a : A) : Prop := r = Ok a \/ exists e, r = Err e.

(** What request [i] can get for a call. *)
Definition serves {X} (i : nat) (w : world) (o : db X) : result X -> world -> Prop :=
  match o in db X return result X -> world -> Prop with
  | T_digest d => fun r w' => w' = w /\ answers_with r (with_digest d (table w))
  | T_live_digest d => fun r w' => w' = w /\ answers_with r (latest (with_digest d (List.filter live (table w))))
  | T_lock => fun r w' =>
      r = Ok tt /\ (holder w = None \/ holder w = Some i) /\ w' = mkWorld (table w) (Some i) \/ w' = w /\ exists e, r = Err e
  | T_active => fun r w' => w' = w /\ answers_with r (latest (List.filter live (table w)))
  | T_insert d x => fun r w' =>
      exists id, let row := mkMixRow id d x in
        r = Ok row /\ w' = inserted i row w \/ (exists e, r = Err e) /\ (w' = release i w \/ w' = inserted i row w)
  | T_rollback => fun _ w' => w' = release i w
  | _ => fun _ w' => w' = w
  end.

(** ** Stages of a request *)

(** Without the lock; with it; and knowing that no run is live. *)
Inductive stage := Outside | Locked | Clear.

Instance stage_protocol : Protocol db stage := {
  may st X o := match o with T_insert _ _ => st = Clear | T_lock => st = Outside | _ => True end;
  after st X o r st' :=
    match o in db X return result X -> Prop with
    | T_lock => fun r => st' = match r with Ok _ => Locked | Err _ => st end
    | T_active => fun r => st' = match r, st with Ok None, (Locked | Clear) => Clear | _, _ => st end
    | T_insert _ _ | T_rollback => fun _ => st' = Outside
    | _ => fun _ => st' = st
    end r
}.

Abbreviation anyhow := (fun (_ : stage) (_ : result outcome) => True).

Record system := mkSystem { the : world; pool : list (rprog db outcome) }.

Section System.
Context (_to_canonical_json : mix_plan -> result bytes) (secret_key : bytes) (text : warning -> ustr).
Context (lower : ustr -> ustr) (catalog : list SmallChannelPeer).
Context (random : bytes -> nat -> float) (pow : float -> float -> float).
Context (peer_selection_seed : BootstrapParams -> bytes).

Abbreviation v1_execute := (post_channel_mix_execute _to_canonical_json secret_key text).
Abbreviation dashboard_execute := (channel_mix_execute _to_canonical_json secret_key text).
Abbreviation run_step := (MixHistory.step lower catalog random pow peer_selection_seed).

Definition with_run (run : ChannelMixRun) (r : mix_row) : mix_row := mkMixRow (mix_id r) (mix_digest r) run.

Inductive moves_to : system -> system -> Prop :=
  | m_arrive w ps req : moves_to (mkSystem w ps) (mkSystem w (ps ++ [v1_execute req]))
  | m_arrive_dash w ps req : moves_to (mkSystem w ps) (mkSystem w (ps ++ [dashboard_execute req]))
  | m_call {X} w ps i (o : db X) k r w' :
      ps !! i = Some (Call o k) -> serves i w o r w' -> moves_to (mkSystem w ps) (mkSystem w' (<[i := k r]> ps))
  | m_end w ps i x : ps !! i = Some (Return x) -> moves_to (mkSystem w ps) (mkSystem (release i w) ps)
  | m_die w ps i x : moves_to (mkSystem w ps) (mkSystem (release i w) (<[i := Return (Err x)]> ps))
  | m_run w ps j row a c g :
      table w !! j = Some row -> run_step (mkLedger (mix_run row) a c) g ->
      moves_to (mkSystem w ps) (mkSystem (mkWorld (<[j := with_run (MixHistory.row g) row]> (table w)) (holder w)) ps).

Lemma one_or_none_wp st (rows : list mix_row) f : (forall x, wp st (f x) anyhow) -> wp st (rbind (scalar_one_or_none rows) f) anyhow.
Proof. intros Hf. destruct rows as [|x [|y l]]; cbn; auto. Qed.

Lemma guarded_wp req d conflict : wp Outside conflict anyhow -> wp Outside (guarded_insert text req d conflict) anyhow.
Proof.
  intros Hc. split; [done|]. intros r st ->. destruct r as [[]|]; [|done]. split; [done|].
  intros r st ->. destruct r as [[row|]|]; [done | | done]. split; [done|]. intros r st ->. destruct r as [now|]; [|done].
  split; [done|]. intros r st ->. destruct r as [row|e]; cbn [pbind].
  - split; [done|]. intros [[]|] st ->; [|done]. split; [done|]. by intros [[]|] st ->.
  - destruct e; try done. split; [done|]. intros [[]|] st ->; [|done]. split; [done|]. intros [rows|] st ->; [|done].
    apply one_or_none_wp. by intros [row|].
Qed.

Lemma v1_wp req : wp Outside (v1_execute req) anyhow.
Proof.
  unfold post_channel_mix_execute. destruct (verify_plan_token _ _ _ _) as [[]|]; [|done|done]. cbn [lift_db rbind pbind negb].
  destruct (has_work _); [|done]. cbn [negb]. destruct (plan_token_digest _) as [d|]; [|done]. cbn [lift_db rbind pbind].
  split; [done|]. intros [rows|] st ->; [|done]. cbn [pbind]. apply one_or_none_wp. intros [row|]; [done|]. by apply guarded_wp.
Qed.

Lemma dashboard_wp req : wp Outside (dashboard_execute req) anyhow.
Proof.
  unfold channel_mix_execute. destruct (verify_plan_token _ _ _ _) as [[]|]; [|done|done]. cbn [lift_db rbind pbind negb].
  destruct (has_work _); [|done]. cbn [negb]. destruct (plan_token_digest _) as [d|]; [|done]. cbn [lift_db rbind pbind].
  split; [done|]. intros [[row|]|] st ->; [done | | done]. cbn [pbind]. by apply guarded_wp.
Qed.

(** ** Live runs *)

Definition lives (t : list mix_row) : nat := length (List.filter live t).

Lemma latest_none l : latest l = None -> l = [].
Proof. destruct l as [|r l]; [done|]. cbn. destruct (latest l); [by destruct (_ <? _) | done]. Qed.

Lemma live_terminal r : live r = negb (is_terminal (run_state (mix_run r))).
Proof. unfold live, is_terminal. by destruct (run_state (mix_run r)). Qed.

Lemma lives_app t row : (lives (t ++ [row]) <= S (lives t))%nat.
Proof. unfold lives. rewrite List.filter_app, length_app. cbn. destruct (live row); cbn; lia. Qed.

Lemma lives_insert t j row row' : t !! j = Some row -> (live row' = true -> live row = true) -> (lives (<[j := row']> t) <= lives t)%nat.
Proof.
  unfold lives. revert j. induction t as [|x t IH]; intros [|j] H Hl; [done | done | |].
  - injection H as ->. cbn. destruct (live row') eqn:E; [rewrite Hl by done; done|]. destruct (live row); cbn; lia.
  - change (<[S j := row']> (x :: t)) with (x :: <[j := row']> t). specialize (IH _ H Hl). cbn. destruct (live x); cbn; lia.
Qed.

(** A run that has ended stays ended. *)
Lemma ended_stays g g' : run_step g g' -> is_terminal (run_state (MixHistory.row g)) = true -> is_terminal (run_state (MixHistory.row g')) = true.
Proof.
  intros [ph Hr|force now] Ht; [|by apply (stop_frame force now (MixHistory.row g))].
  assert (H : ph_row ph = MixHistory.row g); [|cbn; by rewrite H].
  apply runs_cases in Hr as [->|(r & ph1 & [-> Hx] & Hk)]; [done|].
  destruct r as [found|e]; [rewrite (Hx found eq_refl) in Hk; cbn [pbind ph_row] in Hk; rewrite Ht in Hk|];
    by apply runs_cases in Hk as [->|].
Qed.

(** ** The invariant *)

Record sound (s : system) (st : nat -> stage) : Prop := {
  s_progs : forall i p, pool s !! i = Some p -> wp (st i) p anyhow;
  s_lock : forall i, st i <> Outside -> holder (the s) = Some i;
  s_clear : forall i, st i = Clear -> lives (table (the s)) = 0%nat;
  s_one : (lives (table (the s)) <= 1)%nat
}.

Lemma sound_update w w' ps i p' st x :
  sound (mkSystem w ps) st -> (forall j, j <> i -> st j <> Outside -> holder w' = holder w) ->
  (x <> Outside -> holder w' = Some i) -> (lives (table w') <= 1)%nat ->
  (x = Clear -> lives (table w') = 0%nat) -> (forall j, j <> i -> st j = Clear -> lives (table w') = 0%nat) ->
  wp x p' anyhow -> sound (mkSystem w' (<[i := p']> ps)) (<[i := x]> st).
Proof.
  intros [S1 S2 S3 S4] Hh Hx Hl Hc Hcj Hp. constructor; cbn in *.
  - intros j q Hq. destruct (decide (j = i)) as [->|Hne].
    + apply list_lookup_insert_Some in Hq as [(_ & -> & _)|[]]; [|done]. by rewrite fn_lookup_insert.
    + rewrite list_lookup_insert_ne in Hq by done. rewrite fn_lookup_insert_ne by done. by apply S1.
  - intros j. destruct (decide (j = i)) as [->|Hne]; [by rewrite fn_lookup_insert|]. rewrite fn_lookup_insert_ne by done.
    intros Hj. rewrite (Hh j Hne Hj). by apply S2.
  - intros j. destruct (decide (j = i)) as [->|Hne]; [by rewrite fn_lookup_insert|]. rewrite fn_lookup_insert_ne by done. by apply Hcj.
  - done.
Qed.

Lemma release_other w ps i st j : sound (mkSystem w ps) st -> j <> i -> st j <> Outside -> holder (release i w) = holder w.
Proof. intros [_ S2 _ _] Hne Hj. cbn. apply S2 in Hj. cbn in Hj. rewrite Hj. rewrite bool_decide_eq_false_2 by congruence. done. Qed.

(** The transaction of request [i] ends. *)
Lemma sound_release w ps i p' st :
  sound (mkSystem w ps) st -> wp Outside p' anyhow -> sound (mkSystem (release i w) (<[i := p']> ps)) (<[i := Outside]> st).
Proof.
  intros Hs Hp. eapply sound_update; [exact Hs | | done | apply Hs | done | intros j _; by apply Hs | done].
  intros j. by eapply release_other.
Qed.

Lemma sound_same w ps i p' st x :
  sound (mkSystem w ps) st -> (x <> Outside -> st i <> Outside) -> (x = Clear -> lives (table w) = 0%nat) -> wp x p' anyhow ->
  sound (mkSystem w (<[i := p']> ps)) (<[i := x]> st).
Proof.
  intros Hs Hx Hc Hp. eapply sound_update; [exact Hs | done | | apply Hs | done | intros j _; by apply Hs | done].
  intros H. by apply Hs, Hx.
Qed.

(** Under the lock with no live run, the new row is the only live one. *)
Lemma sound_insert w ps i p' st row :
  sound (mkSystem w ps) st -> st i = Clear -> wp Outside p' anyhow ->
  sound (mkSystem (inserted i row w) (<[i := p']> ps)) (<[i := Outside]> st).
Proof.
  intros Hs Hi Hp. assert (Ho : forall j, j <> i -> st j = Outside).
  { intros j Hne. destruct (st j) eqn:E; [done | |];
      (assert (Hj : holder w = Some j) by (apply Hs; by rewrite E);
       assert (Hk : holder w = Some i) by (apply Hs; by rewrite Hi); congruence). }
  eapply sound_update; [exact Hs | | done | | done | | done].
  - intros j Hne Hj. by rewrite (Ho j Hne) in Hj.
  - change (lives (table w ++ [row]) <= 1)%nat. pose proof (lives_app (table w) row). pose proof (s_clear _ _ Hs i Hi) as H0.
    cbn [the table] in H0. lia.
  - intros j Hne Hj. by rewrite (Ho j Hne) in Hj.
Qed.

Lemma call_sound {X} w ps i (o : db X) k r w' st :
  sound (mkSystem w ps) st -> ps !! i = Some (Call o k) -> serves i w o r w' -> exists st', sound (mkSystem w' (<[i := k r]> ps)) st'.
Proof.
  intros Hs Hi Hr. destruct (s_progs _ _ Hs i _ Hi) as [Hm Hk]. specialize (Hk r).
  assert (Hquiet : w' = w -> wp (st i) (k r) anyhow -> exists st', sound (mkSystem w' (<[i := k r]> ps)) st').
  { intros -> Hw. exists (<[i := st i]> st). apply sound_same; [done | done | apply Hs | done]. }
  destruct o; cbn in Hm, Hr; try (destruct Hr; by apply Hquiet, Hk); try (by apply Hquiet, Hk).
  - destruct Hr as [(-> & Hh & ->)|(-> & e & ->)]; [|by apply Hquiet, Hk]. exists (<[i := Locked]> st).
    eapply sound_update; [exact Hs | | done | apply Hs | done | intros j _; by apply Hs | by apply Hk].
    intros j Hne Hj. apply (s_lock _ _ Hs) in Hj. cbn in Hj. destruct Hh; congruence.
  - destruct Hr as [-> [->|[e ->]]]; [|by apply Hquiet, Hk].
    destruct (latest (List.filter live (table w))) as [row|] eqn:E; [by apply Hquiet, Hk|].
    apply latest_none in E. destruct (st i) eqn:Ei; [by apply Hquiet, Hk | |];
      (exists (<[i := Clear]> st); apply sound_same; [done | by rewrite Ei | unfold lives; by rewrite E | by apply Hk]).
  - destruct Hr as (id & [[-> ->]|[[e ->] [->| ->]]]); eexists.
    + by apply sound_insert; [..|apply Hk].
    + by apply sound_release; [..|apply Hk].
    + by apply sound_insert; [..|apply Hk].
  - subst w'. eexists. by apply sound_release; [..|apply Hk].
Qed.

Lemma arrive_sound w ps p st : sound (mkSystem w ps) st -> wp Outside p anyhow -> sound (mkSystem w (ps ++ [p])) (<[length ps := Outside]> st).
Proof.
  intros [S1 S2 S3 S4] Hp. constructor; cbn in *; [| | |done].
  - intros i q Hq. apply lookup_app_Some in Hq as [Hq|[Hge Hq]].
    + rewrite fn_lookup_insert_ne by (apply lookup_lt_Some in Hq; lia). by apply S1.
    + apply list_lookup_singleton_Some in Hq as [Hz <-]. replace i with (length ps) by lia. by rewrite fn_lookup_insert.
  - intros i. destruct (decide (i = length ps)) as [->|Hne]; [by rewrite fn_lookup_insert | rewrite fn_lookup_insert_ne by done; apply S2].
  - intros i. destruct (decide (i = length ps)) as [->|Hne]; [by rewrite fn_lookup_insert | rewrite fn_lookup_insert_ne by done; apply S3].
Qed.

Lemma moves_sound s s' st : sound s st -> moves_to s s' -> exists st', sound s' st'.
Proof.
  intros Hs Hm. revert Hs. destruct Hm as [w ps req|w ps req|X w ps i o k r w' Hi Hr|w ps i x Hi|w ps i x|w ps j row a c g Hj Hg]; intros Hs.
  - eexists. apply (arrive_sound _ _ _ st Hs), v1_wp.
  - eexists. apply (arrive_sound _ _ _ st Hs), dashboard_wp.
  - by eapply call_sound.
  - exists (<[i := Outside]> st). rewrite <- (list_insert_id ps i (Return x)) by done. by apply (sound_release _ _ _ _ st Hs).
  - eexists. by apply (sound_release _ _ _ _ st Hs).
  - exists st. destruct Hs as [S1 S2 S3 S4].
    assert (Hl : (lives (<[j := with_run (MixHistory.row g) row]> (table w)) <= lives (table w))%nat).
    { eapply lives_insert; [done|]. rewrite !live_terminal. cbn. intros Hn. destruct (is_terminal (run_state (mix_run row))) eqn:E; [|done].
      by rewrite (ended_stays _ _ Hg E) in Hn. }
    constructor; cbn [pool the table holder] in *; [done | done | intros i Hi; specialize (S3 i Hi); lia | lia].
Qed.

(** C17. However the requests of both endpoints interleave with each other and
    with ticks and stop requests, and wherever a request dies or its commit
    fails, at most one run is live: the advisory lock makes the check and the
    insert one step. *)
Theorem one_live_run ps w : rtc moves_to (mkSystem (mkWorld [] None) []) (mkSystem w ps) -> (lives (table w) <= 1)%nat.
Proof.
  intros H. assert (Hs : exists st, sound (mkSystem w ps) st); [|by destruct Hs as [st [_ _ _ ?]]].
  remember (mkSystem w ps) as s eqn:E. clear E.
  assert (H0 : exists st, sound (mkSystem (mkWorld [] None) []) st) by (exists (fun _ => Outside); constructor; cbn; [done | done | done | unfold lives; cbn; lia]).
  induction H as [|s1 s2 s3 Hm _ IH]; [done|]. apply IH. destruct H0 as [st Hs]. by eapply moves_sound.
Qed.
(** ** Requests served alone *)

Definition db_answer {X} (i : nat) (t : Z) (w : world) (o : db X) : result X * world :=
  match o in db X return result X * world with
  | T_now => (Ok t, w)
  | T_digest d => (Ok (with_digest d (table w)), w)
  | T_live_digest d => (Ok (latest (with_digest d (List.filter live (table w)))), w)
  | T_lock => (Ok tt, mkWorld (table w) (Some i))
  | T_active => (Ok (latest (List.filter live (table w))), w)
  | T_insert d x => let row := mkMixRow (length (table w)) d x in (Ok row, inserted i row w)
  | T_rollback => (Ok tt, release i w)
  | T_refresh _ | T_delay _ => (Ok tt, w)
  end.

Fixpoint serve {A} (i : nat) (t : Z) (w : world) (p : prog db A) : world * A :=
  match p with
  | Return x => (w, x)
  | Call o k => let '(r, w') := db_answer i t w o in serve i t w' (k r)
  end.

Definition free_for (i : nat) (w : world) : Prop := holder w = None \/ holder w = Some i.

Lemma db_answer_serves {X} i t w (o : db X) :
  free_for i w -> serves i w o (db_answer i t w o).1 (db_answer i t w o).2 /\ free_for i (db_answer i t w o).2.
Proof.
  assert (Hr : forall x, free_for i x -> free_for i (release i x)) by (intros x [H|H]; left; cbn; rewrite H; by case_bool_decide).
  intros Hf. destruct o; cbn; try done; try (split; [split; [done | by left] | done]).
  - split; [by left | by right].
  - split; [eexists; left; done | by apply Hr].
  - split; [done | by apply Hr].
Qed.

Lemma serve_moves i t p : forall w ps, free_for i w -> ps !! i = Some p ->
  rtc moves_to (mkSystem w ps) (mkSystem (serve i t w p).1 (<[i := Return (serve i t w p).2]> ps)).
Proof.
  induction p as [x|X o k IH]; intros w ps Hf Hp; [cbn; by rewrite list_insert_id|].
  cbn. destruct (db_answer_serves i t w o Hf) as [Hs Hf']. destruct (db_answer i t w o) as [r w']. cbn in Hs, Hf'.
  eapply rtc_l; [by eapply m_call|]. rewrite <- (list_insert_insert_eq ps i (Return (serve i t w' (k r)).2) (k r)). apply IH; [done|].
  apply list_lookup_insert_eq. by eapply lookup_lt_Some.
Qed.

(** When the run of a plan has ended and none is live, the v1 endpoint
    answers the same token with the ended run, however often it is asked,
    while the dashboard's endpoint starts a new run of the plan; after that
    the v1 endpoint finds two runs of the token and raises. *)
Theorem reruns_differ req d row i t w :
  verify_plan_token _to_canonical_json secret_key (x_plan req) (x_token req) = Ok true -> has_work (x_plan req) = true ->
  plan_token_digest (x_token req) = Ok d -> with_digest d (table w) = [row] -> List.filter live (table w) = [] -> holder w = None ->
  serve i t w (v1_execute req) = (w, Ok (Existing row)) /\
  let new := mkMixRow (length (table w)) d (new_run text t req) in
  let w' := mkWorld (table w ++ [new]) None in
  serve i t w (dashboard_execute req) = (w', Ok (Started new)) /\ forall t', serve i t' w' (v1_execute req) = (w', Err MultipleResultsFound).
Proof.
  intros Hv Hwork Hd Hrow Hlive Hh. unfold post_channel_mix_execute, channel_mix_execute. rewrite Hv, Hwork, Hd.
  cbn [lift_db rbind pbind negb perform serve db_answer]. split; [by rewrite Hrow|]. cbv zeta. split.
  - rewrite Hlive. cbn. rewrite Hlive. cbn. unfold inserted, release. cbn. by rewrite bool_decide_eq_true_2.
  - intros t'. cbn [table]. unfold with_digest. rewrite List.filter_app. fold (with_digest d (table w)). rewrite Hrow. cbn.
    by rewrite bool_decide_eq_true_2.
Qed.
End System.

(** ** Concrete requests *)

Definition demo_canonical (p : mix_plan) : result bytes :=
  Ok (String.list_byte_of_string (str_of_int match p with PlanParallel p => minimum_sats p | PlanBootstrap p => initial_deposit_sats p end)).

Definition demo_secret : bytes := String.list_byte_of_string "correct horse battery staple".

Definition demo_request (target : Z) : execute_request :=
  let p := PlanParallel (plan_of (demo_plan target (u "bitcoin") true)) in
  mkExecute p (match sign_plan demo_canonical demo_secret p with Ok t => t | Err _ => [] end) no_params.

Abbreviation demo_v1 := (post_channel_mix_execute demo_canonical demo_secret (fun _ => [])).
Abbreviation demo_dashboard := (channel_mix_execute demo_canonical demo_secret (fun _ => [])).

Definition first_world : world := (serve 0 1 (mkWorld [] None) (demo_v1 (demo_request 1000001))).1.

Lemma one_live_run_witness :
  exists ps w, rtc (moves_to demo_canonical demo_secret (fun _ => []) lower_text demo_catalog (fun _ _ => zero) (fun b _ => b) (fun _ => []))
    (mkSystem (mkWorld [] None) []) (mkSystem w ps) /\ lives (table w) = 1%nat /\ (lives (table w) <= 1)%nat.
Proof.
  assert (H : rtc (moves_to demo_canonical demo_secret (fun _ => []) lower_text demo_catalog (fun _ _ => zero) (fun b _ => b) (fun _ => []))
    (mkSystem (mkWorld [] None) []) (mkSystem first_world [Return (serve 0 1 (mkWorld [] None) (demo_v1 (demo_request 1000001))).2])).
  { eapply rtc_l; [apply (m_arrive _ _ _ _ _ _ _ _ _ [] (demo_request 1000001))|].
    exact (serve_moves _ _ _ _ _ _ _ _ 0 1 (demo_v1 (demo_request 1000001)) (mkWorld [] None) [demo_v1 (demo_request 1000001)] (or_introl eq_refl) eq_refl). }
  eexists _, first_world. split; [exact H|]. split; [vm_compute; reflexivity | exact (one_live_run _ _ _ _ _ _ _ _ _ _ H)].
Defined.

(** A second plan while the first run is live resumes that run. *)
Example second_plan_resumes :
  match serve 1 2 first_world (demo_dashboard (demo_request 300000)) with
  | (w, Ok (Resumed r)) => (mix_id r, length (table w)) = (0%nat, 1%nat)
  | _ => False
  end.
Proof. vm_compute. reflexivity. Qed.

Definition demo_digest : ustr := match plan_token_digest (x_token (demo_request 1000001)) with Ok d => d | Err _ => [] end.

Definition first_row : mix_row := mkMixRow 0 demo_digest (new_run (fun _ => []) 1 (demo_request 1000001)).

Example first_world_is : first_world = mkWorld [first_row] None.
Proof. vm_compute. reflexivity. Qed.

(** The run is cancelled by force. *)
Definition ended_row : mix_row := with_run (post_channel_mix_run_stop true 3 (mix_run first_row)) first_row.
Definition ended_world : world := mkWorld [ended_row] None.

Lemma reruns_differ_witness :
  serve 0 4 ended_world (demo_v1 (demo_request 1000001)) = (ended_world, Ok (Existing ended_row)) /\ run_state (mix_run ended_row) = CANCELLED.
Proof.
  split; [|vm_compute; reflexivity].
  destruct (reruns_differ demo_canonical demo_secret (fun _ => []) (demo_request 1000001) demo_digest ended_row 0 4 ended_world) as [H _];
    [vm_compute; reflexivity | vm_compute; reflexivity | vm_compute; reflexivity | vm_compute; reflexivity | vm_compute; reflexivity
    | reflexivity | exact H].
Defined.
