(* ===== verification/Idem.v ===== *)
(** * The idempotency store

    core/idempotency.py. A handler is a program whose effects are the calls
    it makes: round trips to Redis, to LND, to the database. A call answers
    a value or an exception, so a lost connection is an [Err]; programs of
    concurrent requests interleave between calls. A slot of Redis holds the
    JSON record the source writes with [json.dumps] and reads back with
    [json.loads]; the branches for text that is not JSON have no counterpart,
    since only this module writes these keys. *)
From S2P Require Import Prelude Prog Bytes PyInt Utf8 Json PyJson Sha256 RateLimit AuditLog AuditChain.

(** ** Calls and programs *)

(** How a POST to LND ended: a JSON body, a 5xx status, another non-2xx
    status, one of [_RETRYABLE_HTTPX_EXC], another [Exception]. *)
Inductive reply :=
  | RJson (data : json)
  | R5xx (status_code : Z) (body : ustr)
  | RStatus (status_code : Z) (text : ustr)
  | RTransport (e : ustr)
  | ROther (e : ustr).

Inductive call : Type -> Type :=
  | O_client : call bool                                             (** [_redis_client() is not None] *)
  | O_time : call Z                                                  (** [time.time()] *)
  | O_reserve (key : ustr) (marker : json) (ttl : Z) : call (option json)   (** [eval(_RESERVE_LUA)] *)
  | O_store (key : ustr) (payload : json) (ttl : Z) : call bool             (** [eval(_STORE_LUA)] *)
  | O_set (key : ustr) (payload : json) (ttl : Z) : call unit
  | O_get (key : ustr) : call (option json)
  | O_delete (key : ustr) : call unit
  | O_fee_rate (priority : ustr) : call (option Z)                   (** [get_fee_for_priority] *)
  | O_check_limits (amount : Z) (api_key_id : ustr) : call (bool * option reservation)
  | O_rollback (res : option reservation) : call unit
  | O_log_action (success : bool) : call unit
  | O_before_call : call bool                                        (** [_LND_BREAKER.before_call()] passes *)
  | O_post (path : ustr) (body : json) : call unit                   (** the request leaves for LND *)
  | O_reply : call reply.                                            (** the [await] on it resumes *)

Abbreviation prog := (Prog.prog call).
Abbreviation rprog A := (Prog.prog call (result A)).

(** ** The module *)

Definition _KEY_PREFIX : ustr := u "agent_wallet:idem:".
Definition _TTL_SECONDS : Z := 60 * 60 * 24.
Definition _INFLIGHT_TTL : Z := 360.
Definition _INFLIGHT_SENTINEL : ustr := u "__inflight__".

Definition _redis_key (api_key_id idem_key : ustr) : ustr := _KEY_PREFIX ++ api_key_id ++ u ":" ++ idem_key.

(** [hashlib.sha256(json.dumps(body, sort_keys=True).encode()).hexdigest()] *)
Definition _fingerprint (body : json) : ustr :=
  u (hex (sha256 (ascii_bytes (dumps body)))).

(** Whether the text of a record contains the sentinel: its characters are
    letters and underscores, so it occurs in the text exactly when it occurs
    in one of the strings. *)
Fixpoint mentions (p : ustr) (v : json) : bool :=
  match v with
  | JStr s => infix p s
  | JList l => existsb (mentions p) l
  | JDict d => existsb (fun kv => infix p kv.1 || mentions p kv.2) d
  | _ => false
  end.

(** The record of a request; [ts] is a float in the source and is read by
    nothing. *)
Definition inflight_marker (fp : ustr) (ts : Z) : json :=
  JDict [(u "state", JStr (u "inflight")); (u "sentinel", JStr _INFLIGHT_SENTINEL); (u "fp", JStr fp);
         (u "ts", JInt ts)].

Definition completed_record (fp : ustr) (ts status_code : Z) (response : json) : json :=
  JDict [(u "state", JStr (u "completed")); (u "fp", JStr fp); (u "ts", JInt ts);
         (u "status_code", JInt status_code); (u "response", response)].

Definition pending_record (fp : ustr) (ts : Z) (payment_hash : ustr) : json :=
  JDict [(u "state", JStr (u "pending")); (u "sentinel", JStr _INFLIGHT_SENTINEL); (u "fp", JStr fp);
         (u "ts", JInt ts); (u "payment_hash", JStr payment_hash)].

(** [policy] is [settings.rate_limit_fail_policy]. *)
Definition _fail_closed (policy : ustr) : bool := negb (bool_decide (lower_text (strip policy) = u "open")).

Definition _redis_unavailable (policy : ustr) : rprog (option json) :=
  if _fail_closed policy then raise (HTTPException 503) else value_of None.

(** [hmac.compare_digest(stored.get("fp") or "", fp)] *)
Definition same_fp (stored_fp : json) (fp : ustr) : result bool :=
  match stored_fp with
  | JStr s => compare_digest s fp
  | v => if PyJson.truthy v then Err (TypeError "unsupported operand types") else compare_digest [] fp
  end.

(** What an existing record means for a request with fingerprint [fp]. An
    exception other than the 409s is the outer handler's. *)
Definition decide_slot (policy : ustr) (stored : json) (fp : ustr) : rprog (option json) :=
  match stored with
  | JDict d =>
      match same_fp (dget d (u "fp")) fp with
      | Err _ => _redis_unavailable policy
      | Ok false => raise (HTTPException 409)
      | Ok true =>
          if is_jstr (dget d (u "state")) (u "inflight") || is_jstr (dget d (u "state")) (u "pending")
          then raise (HTTPException 409)
          else if is_jstr (dget d (u "state")) (u "completed")
          then value_of (match dget d (u "response") with JNull => None | r => Some r end)
          else value_of None
      end
  | _ => _redis_unavailable policy
  end.

Definition lookup_or_reserve (policy : ustr) (api_key_id idem_key : ustr) (request_body : json) (inflight_ttl : Z)
    : rprog (option json) :=
  client <-- perform O_client;
  if negb client then _redis_unavailable policy
  else
    let key := _redis_key api_key_id idem_key in
    let fp := _fingerprint request_body in
    ts <-- perform O_time;
    raw <-- except (perform (O_reserve key (inflight_marker fp ts) inflight_ttl)) (fun _ => raise (HTTPException 503));
    match raw with
    | None => value_of None
    | Some stored => decide_slot policy stored fp
    end.

Definition store_result (api_key_id idem_key : ustr) (request_body response : json) (status_code : Z) : rprog unit :=
  client <-- perform O_client;
  if negb client then value_of tt
  else
    let key := _redis_key api_key_id idem_key in
    let fp := _fingerprint request_body in
    except
      (ts <-- perform O_time;
       let payload := completed_record fp ts status_code response in
       except (_ <-- perform (O_store key payload _TTL_SECONDS); value_of tt)
              (fun _ => perform (O_set key payload _TTL_SECONDS)))
      (fun _ => value_of tt).

(** [release_inflight] and [release_pending] *)
Definition release (state : string) (api_key_id idem_key : ustr) : rprog unit :=
  client <-- perform O_client;
  if negb client then value_of tt
  else
    let key := _redis_key api_key_id idem_key in
    except
      (raw <-- perform (O_get key);
       match raw with
       | Some (JDict d) => if is_jstr (dget d (u "state")) (u state) then perform (O_delete key) else value_of tt
       | _ => value_of tt
       end)
      (fun _ => value_of tt).

Definition release_inflight := release "inflight".
Definition release_pending := release "pending".

Definition peek (api_key_id idem_key : ustr) : rprog (option json) :=
  client <-- perform O_client;
  if negb client then value_of None
  else except (perform (O_get (_redis_key api_key_id idem_key))) (fun _ => value_of None).

Definition mark_pending (api_key_id idem_key : ustr) (request_body : json) (payment_hash : ustr) (ttl : Z)
    : rprog unit :=
  client <-- perform O_client;
  if negb client then value_of tt
  else
    let key := _redis_key api_key_id idem_key in
    let fp := _fingerprint request_body in
    except
      (ts <-- perform O_time;
       _ <-- perform (O_store key (pending_record fp ts payment_hash) ttl); value_of tt)
      (fun _ => value_of tt).
