(* ===== verification/SendOnchain.v ===== *)
(** * POST /v1/payments/send-onchain

    The handler [send_onchain] of api/payments.py with [_check_payment_limit],
    the on-chain send of services/lnd_service.py ([send_coins] and the POST
    path of [_request]) and [lnd_broadcast_outcome_unknown] of core/utils.py,
    as programs over the calls of the idempotency store; and that the error
    text of a failed send tells a rejected one from one that may have gone
    out. *)
From S2P Require Import Prelude Prog Bytes PyInt Utf8 Json PyJson Sha256 RateLimit AuditLog AuditChain Idem.

(** ** The LND client *)

(** The POST path of [_request]: [(data, error)]. The breaker is consulted
    once and the request is never retried. *)
Definition _request (path : ustr) (body : json) : rprog (option json * option ustr) :=
  pass <-- perform O_before_call;
  if negb pass then value_of (None, Some (u "LND temporarily unavailable (circuit breaker open)"))
  else
    _ <-- perform (O_post path body);
    r <-- perform O_reply;
    value_of match r with
             | RJson data => (Some data, None)
             | R5xx c text | RStatus c text =>
                 (None, Some (u "LND error (" ++ u (str_of_int c) ++ u "): " ++ text))
             | RTransport e => (None, Some (u "Connection failed: " ++ e))
             | ROther e => (None, Some (u "Request failed: " ++ e))
             end.

Definition opt_member (k : string) (v : option json) : list (ustr * json) :=
  match v with Some v => [(u k, v)] | None => [] end.

(** The body [send_coins] posts for an amount. *)
Definition send_body (address : ustr) (amount_sats : Z) (sat_per_vbyte : option Z) (label : ustr) (min_confs : Z)
    : json :=
  JDict ([(u "addr", JStr address); (u "label", JStr label); (u "amount", JStr (u (str_of_int amount_sats)))] ++
         opt_member "sat_per_vbyte" ((fun n => JStr (u (str_of_int n))) <$> sat_per_vbyte) ++
         [(u "min_confs", JInt min_confs)]).

(** [{"txid": data.get("txid", "")}] *)
Definition SendCoinsResult (d : list (ustr * json)) : json :=
  JDict [(u "txid", default (JStr []) (assoc (u "txid") d))].

(** [send_coins] with its defaults: no [outpoints], [send_all=False],
    [min_confs=1]. A body that is not an object has no [get]. *)
Definition send_coins (address : ustr) (amount_sats : Z) (sat_per_vbyte : option Z) (label : ustr)
    : rprog (option json * option ustr) :=
  res <-- _request (u "/v1/transactions") (send_body address amount_sats sat_per_vbyte label 1);
  let '(data, error) := res in
  if nonempty error then value_of (None, error)
  else match data with
       | None | Some JNull => raise AssertionError
       | Some (JDict d) => value_of (Some (SendCoinsResult d), None)
       | Some _ => raise AttributeError
       end.

Definition lnd_broadcast_outcome_unknown (error : option ustr) : bool :=
  match error with
  | None | Some [] => false
  | Some error =>
      if startswith (u "LND temporarily unavailable") error then false
      else if startswith (u "LND error (") error then infix (u "(5") (take 14 error)
      else startswith (u "Connection failed") error || startswith (u "Request failed") error
  end.

(** ** The handler *)

Definition MAX_SAT_PER_VBYTE : Z := 1000.
Definition ONCHAIN_TX_VBYTE_ESTIMATE : Z := 250.

Record SendOnchainRequest := mkSend {
  address : ustr; amount_sats : Z; sat_per_vbyte : option Z; fee_priority : option ustr; label : ustr
}.

(** The [Field] bounds pydantic enforces. *)
Definition request_ok (req : SendOnchainRequest) : bool :=
  (0 <? amount_sats req) &&
  match sat_per_vbyte req with Some n => (1 <=? n) && (n <=? MAX_SAT_PER_VBYTE) | None => true end.

Definition json_of_opt {A} (f : A -> json) (v : option A) : json := match v with Some a => f a | None => JNull end.

Definition model_dump (req : SendOnchainRequest) : json :=
  JDict [(u "address", JStr (address req)); (u "amount_sats", JInt (amount_sats req));
         (u "sat_per_vbyte", json_of_opt JInt (sat_per_vbyte req));
         (u "fee_priority", json_of_opt JStr (fee_priority req)); (u "label", JStr (label req))].

(** [max_sats] is [settings.lnd_max_payment_sats]. *)
Definition _check_payment_limit (max_sats amount_sats : Z) : rprog unit :=
  if max_sats =? -1 then value_of tt
  else if max_sats <? amount_sats then raise (HTTPException 400)
  else value_of tt.

(** Truth value of an [Optional[int]]. *)
Definition rate_set (n : option Z) : bool := match n with Some n => negb (n =? 0) | None => false end.

Definition resolve_rate (req : SendOnchainRequest) : rprog (option Z) :=
  match fee_priority req with
  | Some prio =>
      if negb (rate_set (sat_per_vbyte req)) && nonempty (Some prio) then
        mempool_rate <-- perform (O_fee_rate prio);
        match mempool_rate with
        | Some m => if m =? 0 then value_of (sat_per_vbyte req) else value_of (Some (Z.min m MAX_SAT_PER_VBYTE))
        | None => value_of (sat_per_vbyte req)
        end
      else value_of (sat_per_vbyte req)
  | None => value_of (sat_per_vbyte req)
  end.

Definition fee_budget (rate : option Z) : Z :=
  match rate with Some n => if rate_set rate then n * ONCHAIN_TX_VBYTE_ESTIMATE else 0 | None => 0 end.

Record settings := mkSettings { rate_limit_fail_policy : ustr; lnd_max_payment_sats : Z }.

Section handler.
Context (cfg : settings) (api_key_id : ustr).

(** The [if error:] branch, without [log_action]: the flag is
    [release_on_failure] as the exception leaves the [try] body. *)
Definition on_send_error (idem_key : option ustr) (req_body : json) (error : option ustr)
    (res : option reservation) : prog (bool * result json) :=
  if lnd_broadcast_outcome_unknown error then
    match idem_key with
    | Some k =>
        pbind (mark_pending api_key_id k req_body [] _TTL_SECONDS) (fun r =>
          match r with
          | Ok _ => Return (false, Err (HTTPException 502))
          | Err e => Return (false, Err e)
          end)
    | None => Return (true, Err (HTTPException 502))
    end
  else
    pbind (perform (O_rollback res)) (fun r =>
      match r with
      | Ok _ => Return (true, Err (HTTPException 502))
      | Err e => Return (true, Err e)
      end).

(** Code of the [try] body that leaves [release_on_failure] alone. *)
Definition fbind {A} (p : rprog A) (f : A -> prog (bool * result json)) : prog (bool * result json) :=
  pbind p (fun r => match r with Ok a => f a | Err e => Return (true, Err e) end).

(** The [try] body: [release_on_failure] and how it ends. *)
Definition send_body_of (idem_key : option ustr) (req : SendOnchainRequest) : prog (bool * result json) :=
  let req_body := model_dump req in
  fbind (resolve_rate req) (fun rate =>
  fbind (_check_payment_limit (lnd_max_payment_sats cfg) (amount_sats req)) (fun _ =>
  let cap_amount := amount_sats req + fee_budget rate in
  fbind (perform (O_check_limits cap_amount api_key_id)) (fun '(allowed, res) =>
  if negb allowed then
    fbind (perform (O_log_action false)) (fun _ => Return (true, Err (HTTPException 429)))
  else
    fbind (send_coins (address req) (amount_sats req) rate (label req)) (fun '(data, error) =>
    if nonempty error then
      fbind (perform (O_log_action false)) (fun _ => on_send_error idem_key req_body error res)
    else match data with
         | None => Return (true, Err AssertionError)
         | Some data =>
             fbind (perform (O_log_action true)) (fun _ =>
             match idem_key with
             | Some k => fbind (store_result api_key_id k req_body data 200) (fun _ => Return (true, Ok data))
             | None => Return (true, Ok data)
             end)
         end)))).

(** The [except BaseException] clause. *)
Definition on_exit (idem_key : option ustr) (out : bool * result json) : rprog json :=
  match out with
  | (_, Ok data) => value_of data
  | (release_on_failure, Err e) =>
      match idem_key with
      | Some k =>
          if release_on_failure then _ <-- release_inflight api_key_id k; raise e else raise e
      | None => raise e
      end
  end.

Definition send_onchain (idem_key : option ustr) (req : SendOnchainRequest) : rprog json :=
  let execute := pbind (send_body_of idem_key req) (on_exit idem_key) in
  match idem_key with
  | Some k =>
      cached <-- lookup_or_reserve (rate_limit_fail_policy cfg) api_key_id k (model_dump req) _INFLIGHT_TTL;
      match cached with
      | Some data => value_of data
      | None => execute
      end
  | None => execute
  end.
End handler.

Lemma wp_fbind {phase A} `{Protocol call phase} (p : rprog A) f (ph : phase) Q :
  wp ph p (fun ph' r => match r with Ok a => wp ph' (f a) Q | Err e => Q ph' (true, Err e) end) -> wp ph (fbind p f) Q.
Proof. intros Hp. apply wp_bind. eapply wp_mono; [|exact Hp]. by intros ? [|]. Qed.

(** ** Reading the error text *)

(** What LND did is not known: a 5xx, a lost connection, any other error. *)
Definition maybe_broadcast (r : reply) : bool :=
  match r with R5xx _ _ | RTransport _ | ROther _ => true | _ => false end.

(** What httpx reports: [raise_for_status] runs after the 5xx test. *)
Definition reply_ok (r : reply) : bool :=
  match r with
  | R5xx c _ => (500 <=? c) && (c <? 600)
  | RStatus c _ => (100 <=? c) && (c <? 500)
  | _ => true
  end.

Definition error_of (r : reply) : option ustr :=
  match r with
  | RJson _ => None
  | R5xx c text | RStatus c text => Some (u "LND error (" ++ u (str_of_int c) ++ u "): " ++ text)
  | RTransport e => Some (u "Connection failed: " ++ e)
  | ROther e => Some (u "Request failed: " ++ e)
  end.

(** Three digits after the parenthesis, the first of them a 5 for a 5xx. *)
Lemma status_digits c : 100 <= c < 600 ->
  length (u (str_of_int c)) = 3%nat /\
  infix (u "(5") (u "LND error (" ++ u (str_of_int c)) = bool_decide (500 <= c).
Proof.
  intros Hc.
  assert (H : forallb (fun c => bool_decide (length (u (str_of_int c)) = 3%nat) &&
    Bool.eqb (infix (u "(5") (u "LND error (" ++ u (str_of_int c))) (bool_decide (500 <= c))) (seqZ 100 500) = true)
    by (vm_compute; reflexivity).
  rewrite forallb_forall in H.
  specialize (H c ltac:(apply list_elem_of_In, elem_of_seqZ; lia)).
  apply andb_prop in H as [H1 H2]. split; [by apply bool_decide_eq_true in H1|by apply Bool.eqb_prop].
Qed.

Lemma status_error c text : 100 <= c < 600 ->
  lnd_broadcast_outcome_unknown (Some (u "LND error (" ++ u (str_of_int c) ++ u "): " ++ text)) =
  bool_decide (500 <= c).
Proof.
  intros Hc. destruct (status_digits c Hc) as [Hl Hd]. rewrite <- Hd.
  set (d := u (str_of_int c)) in *.
  change (infix (u "(5") (take 14 (u "LND error (" ++ d ++ u "): " ++ text)) = infix (u "(5") (u "LND error (" ++ d)).
  by rewrite app_assoc, take_app_length' by (rewrite length_app, Hl; done).
Qed.

(** The handler's test on the error text is exact. *)
Lemma unknown_iff r : reply_ok r = true -> lnd_broadcast_outcome_unknown (error_of r) = maybe_broadcast r.
Proof.
  destruct r as [d|c t|c t|e|e]; cbn [error_of maybe_broadcast reply_ok]; intros H; [done| | |done|done].
  - rewrite status_error by lia. apply bool_decide_eq_true. lia.
  - rewrite status_error by lia. apply bool_decide_eq_false. lia.
Qed.
