(* ===== verification/SendOnce.v ===== *)
(** * Requests with one idempotency key

    The world the calls of a handler act on: Redis slots with their expiry
    times, a clock, LND, and a pool of requests that run one call at a time
    in any order and may die. A step is a function of an event, so a run can
    be evaluated. Two results about [send_onchain]: in a calm run all
    requests with one key make at most one send that LND did not refuse, and
    all of them that answer give the same answer; in every run what is posted
    to LND was charged to the spend window first. *)
From S2P Require Import Prelude Prog Bytes PyInt Utf8 Json PyJson RateLimit AuditLog AuditChain Idem SendOnchain.

(** ** World *)

(** [slots] maps a key to a value and the time it expires at. The rest is
    what an observer counts: requests that left for LND, those it refused,
    the bodies it answered with, the amounts the spend window admitted, the
    bodies posted. *)
Record world := mkWorld {
  slots : gmap ustr (json * Z);
  now : Z;
  sent : nat;
  rejected : nat;
  delivered : list json;
  charged : Z;
  posts : list json
}.

Definition lookup_slot (w : world) (k : ustr) : option json :=
  match slots w !! k with Some (v, e) => if now w <? e then Some v else None | None => None end.

Definition with_slots (w : world) (m : gmap ustr (json * Z)) : world :=
  mkWorld m (now w) (sent w) (rejected w) (delivered w) (charged w) (posts w).

Definition put (w : world) (k : ustr) (v : json) (ttl : Z) : world := with_slots w (<[k := (v, now w + ttl)]> (slots w)).

Definition _RESERVE_LUA (k : ustr) (marker : json) (ttl : Z) (w : world) : option json * world :=
  match lookup_slot w k with
  | Some existing => (Some existing, w)
  | None => (None, put w k marker ttl)
  end.

Definition _STORE_LUA (k : ustr) (payload : json) (ttl : Z) (w : world) : bool * world :=
  match lookup_slot w k with
  | Some existing => if mentions _INFLIGHT_SENTINEL existing then (true, put w k payload ttl) else (false, w)
  | None => (true, put w k payload ttl)
  end.

Definition round_trip {A} (f : fault) (script : world -> A * world) (w : world) : result A * world :=
  match f with
  | NoFault => let '(a, w') := script w in (Ok a, w')
  | FailBefore => (Err RedisError, w)
  | FailAfter => (Err RedisError, snd (script w))
  end.

(** How the surroundings answer the next call. *)
Record choice := mkChoice {
  c_client : bool; c_fault : fault; c_fee : result (option Z); c_limits : result (bool * option reservation);
  c_done : result unit; c_pass : result bool; c_reply : result reply
}.

Definition post (body : json) (w : world) : world :=
  mkWorld (slots w) (now w) (S (sent w)) (rejected w) (delivered w) (charged w) (body :: posts w).

(** LND's answer as the observer sees it: a status below 500 is a refusal. *)
Definition observe (r : result reply) (w : world) : world :=
  match r with
  | Ok (RJson d) => mkWorld (slots w) (now w) (sent w) (rejected w) (d :: delivered w) (charged w) (posts w)
  | Ok (RStatus _ _) => mkWorld (slots w) (now w) (sent w) (S (rejected w)) (delivered w) (charged w) (posts w)
  | _ => w
  end.

Definition charge (amount : Z) (r : result (bool * option reservation)) (w : world) : world :=
  match r with
  | Ok (true, _) => mkWorld (slots w) (now w) (sent w) (rejected w) (delivered w) (charged w + amount) (posts w)
  | _ => w
  end.

Definition run_call {X} (o : call X) (c : choice) (w : world) : result X * world :=
  match o in call X return result X * world with
  | O_client => (Ok (c_client c), w)
  | O_time => (Ok (now w), w)
  | O_reserve k m ttl => round_trip (c_fault c) (_RESERVE_LUA k m ttl) w
  | O_store k p ttl => round_trip (c_fault c) (_STORE_LUA k p ttl) w
  | O_set k p ttl => round_trip (c_fault c) (fun w => (tt, put w k p ttl)) w
  | O_get k => round_trip (c_fault c) (fun w => (lookup_slot w k, w)) w
  | O_delete k => round_trip (c_fault c) (fun w => (tt, with_slots w (delete k (slots w)))) w
  | O_fee_rate _ => (c_fee c, w)
  | O_check_limits amount _ => (c_limits c, charge amount (c_limits c) w)
  | O_rollback _ => (c_done c, w)
  | O_log_action _ => (c_done c, w)
  | O_before_call => (c_pass c, w)
  | O_post _ body => (Ok tt, post body w)
  | O_reply => (c_reply c, observe (c_reply c) w)
  end.

(** ** Runs *)

Record system := mkSystem { the : world; pool : list (rprog json) }.

(** A request makes its next call; a request dies with its process; time
    passes; another client of Redis writes a slot. *)
Inductive event :=
  | ERun (i : nat) (c : choice)
  | EDie (i : nat)
  | ETick (d : Z)
  | EForeign (k : ustr) (v : option (json * Z)).

Definition step (e : event) (s : system) : option system :=
  let '(mkSystem w ps) := s in
  match e with
  | ERun i c =>
      match ps !! i with
      | Some (Call o k) => let '(r, w') := run_call o c w in Some (mkSystem w' (<[i := k r]> ps))
      | _ => None
      end
  | EDie i => Some (mkSystem w (<[i := Return (Err (RuntimeError "worker died"))]> ps))
  | ETick d =>
      if 0 <=? d
      then Some (mkSystem (mkWorld (slots w) (now w + d) (sent w) (rejected w) (delivered w) (charged w) (posts w)) ps)
      else None
  | EForeign k v => Some (mkSystem (with_slots w (partial_alter (fun _ => v) k (slots w))) ps)
  end.

Fixpoint run (guard : event -> system -> bool) (es : list event) (s : system) : option system :=
  match es with
  | [] => Some s
  | e :: es => if guard e s then step e s ≫= run guard es else None
  end.

Definition anything (e : event) (s : system) : bool := true.

(** A calm surrounding: of the calls a handler makes after its send only
    those to Redis fail, LND answers with a status or an object, the slot of
    [key] does not lapse, and nobody else writes it. *)
Definition calm_choice (c : choice) : bool :=
  is_ok (c_done c) &&
  match c_reply c with
  | Ok r => reply_ok r && match r with RJson d => is_dict d | _ => true end
  | Err _ => false
  end.

Definition calm (key : ustr) (e : event) (s : system) : bool :=
  match e with
  | ERun _ c => calm_choice c
  | EDie _ => true
  | ETick d => match slots (the s) !! key with Some (_, t) => now (the s) + d <? t | None => true end
  | EForeign k _ => negb (bool_decide (k = key))
  end.

Definition empty_world (t : Z) : world := mkWorld ∅ t 0 0 [] 0 [].

Definition start (t : Z) (ps : list (rprog json)) : system := mkSystem (empty_world t) ps.

(** An invariant of the steps a guard admits holds in every run. *)
Lemma run_keeps guard (I : system -> Prop) :
  (forall e s s', guard e s = true -> I s -> step e s = Some s' -> I s') ->
  forall es s s', I s -> run guard es s = Some s' -> I s'.
Proof.
  intros Hstep es. induction es as [|e es IH]; intros s s' HI; simpl.
  - by intros [= <-].
  - destruct (guard e s) eqn:Hg; [|done]. destruct (step e s) as [s1|] eqn:Hs; [|done].
    simpl. apply IH. by eapply Hstep.
Qed.

(** ** One send *)

(** Where a request is: before its reservation (or past its release); having
    read a record; holding the reservation; waiting for LND; after a send
    LND did not refuse, with its answer if there was one. *)
Inductive phase := Idle | Seen (s : json) | Holding | Called | Live (d : option json).

Definition response_of (d : json) : json := match d with JDict d => SendCoinsResult d | _ => JNull end.

(** The records a slot can hold, given what LND answered with. *)
Inductive good (ds : list json) : json -> Prop :=
  | good_inflight fp ts : good ds (inflight_marker fp ts)
  | good_pending fp ts h : good ds (pending_record fp ts h)
  | good_completed fp ts d : d ∈ ds -> is_dict d = true -> good ds (completed_record fp ts 200 (response_of d)).

(** What a request may write after its send. *)
Definition outcome (ph : phase) (payload : json) : Prop :=
  match ph with
  | Live (Some d) => is_dict d = true /\ exists fp ts, payload = completed_record fp ts 200 (response_of d)
  | Live None => exists fp ts h, payload = pending_record fp ts h
  | _ => False
  end.

Section once.
Context (key : ustr).

#[local] Instance once : Protocol call phase := {
  may ph X o :=
    match o with
    | O_reserve k m ttl => ph = Idle /\ k = key /\ 0 < ttl /\ exists fp ts, m = inflight_marker fp ts
    | O_store k p ttl | O_set k p ttl => k = key /\ 0 < ttl /\ outcome ph p
    | O_get k => k = key
    | O_delete k => ph = Holding /\ k = key
    | O_post _ _ => ph = Holding
    | O_reply => ph = Called
    | _ => True
    end;
  after ph X o r ph' :=
    match o in call X return result X -> Prop with
    | O_reserve _ _ _ => fun r =>
        match r with
        | Ok None => ph' = Holding
        | Ok (Some s) => ph' = Seen s /\ exists ds, good ds s
        | Err _ => ph' = Idle
        end
    | O_delete _ => fun _ => ph' = Idle
    | O_post _ _ => fun r => is_ok r = true /\ ph' = Called
    | O_reply => fun r =>
        match r with
        | Ok (RJson d) => ph' = Live (Some d) /\ is_dict d = true
        | Ok (RStatus _ _ as rep) => ph' = Holding /\ reply_ok rep = true
        | Ok rep => ph' = Live None /\ reply_ok rep = true
        | Err _ => False
        end
    | O_client => fun r => is_ok r = true /\ ph' = ph
    | O_time => fun r => is_ok r = true /\ ph' = ph
    | O_log_action _ => fun r => is_ok r = true /\ ph' = ph
    | _ => fun _ => ph' = ph
    end r
}.

(** How a request that answers got its answer. *)
Definition answered (ph : phase) (r : result json) : Prop :=
  match r with
  | Ok v => (exists d, ph = Live (Some d) /\ v = response_of d) \/
            (exists fp ts, ph = Seen (completed_record fp ts 200 v))
  | Err _ => True
  end.

(** *** The handler follows the protocol *)

Ltac call_next :=
  apply wp_perform; [|let r := fresh "r" in let Hr := fresh "Hr" in intros r ? Hr; simpl in Hr].

(** A call that cannot fail and changes no phase. *)
Ltac call_ok x :=
  call_next; [done|];
  match goal with H : is_ok ?r = true /\ _ |- _ => let E := fresh in destruct H as [E ->]; destruct r as [x|]; [clear E|done] end.

(** A record read back is a conflict or its response. *)
Lemma decide_reserved policy fp' fp s :
  (exists ts, s = inflight_marker fp' ts) \/ (exists ts h, s = pending_record fp' ts h) ->
  decide_slot policy s fp =
  match compare_digest fp' fp with Ok _ => raise (HTTPException 409) | Err _ => _redis_unavailable policy end.
Proof.
  intros H. unfold decide_slot.
  assert (E : same_fp (JStr fp') fp = compare_digest fp' fp) by done.
  destruct H as [[ts ->]|(ts & h & ->)]; unfold inflight_marker, pending_record.
  all: change (dget _ (u "fp")) with (JStr fp'); rewrite E; by destruct (compare_digest fp' fp) as [[|]|].
Qed.

Lemma decide_completed policy fp' fp ts v :
  decide_slot policy (completed_record fp' ts 200 v) fp =
  match compare_digest fp' fp with
  | Ok true => value_of (match v with JNull => None | v => Some v end)
  | Ok false => raise (HTTPException 409)
  | Err _ => _redis_unavailable policy
  end.
Proof.
  unfold decide_slot, completed_record. change (dget _ (u "fp")) with (JStr fp').
  change (same_fp (JStr fp') fp) with (compare_digest fp' fp). destruct (compare_digest fp' fp) as [[|]|]. all: by destruct v.
Qed.

Lemma decide_slot_wp policy ds s fp (Q : phase -> result (option json) -> Prop) :
  _fail_closed policy = true -> good ds s ->
  (forall e, Q (Seen s) (Err e)) ->
  (forall fp ts v, s = completed_record fp ts 200 v -> Q (Seen s) (Ok (Some v))) ->
  wp (Seen s) (decide_slot policy s fp) Q.
Proof.
  intros Hc Hs He Hv.
  assert (Hu : wp (Seen s) (_redis_unavailable policy) Q) by (unfold _redis_unavailable; rewrite Hc; apply He).
  destruct Hs as [fp' ts|fp' ts h|fp' ts d Hd Hdict].
  - rewrite (decide_reserved policy fp') by eauto. case_match; [apply He|exact Hu].
  - rewrite (decide_reserved policy fp') by eauto. case_match; [apply He|exact Hu].
  - rewrite decide_completed. case_match; [case_match; [|apply He]|exact Hu].
    destruct d; try done. by eapply Hv.
Qed.

Lemma lookup_wp policy api k body ttl Q :
  _fail_closed policy = true -> _redis_key api k = key -> 0 < ttl ->
  (forall ph e, Q ph (Err e)) -> Q Holding (Ok None) ->
  (forall fp ts v, Q (Seen (completed_record fp ts 200 v)) (Ok (Some v))) ->
  wp Idle (lookup_or_reserve policy api k body ttl) Q.
Proof.
  intros Hc Hk Ht He Hh Hs. unfold lookup_or_reserve.
  apply wp_rbind. call_ok client.
  destruct client; cbn [negb]; [|unfold _redis_unavailable; rewrite Hc; apply He].
  apply wp_rbind. call_ok ts.
  apply wp_rbind, wp_except. call_next.
  { split_and!; eauto. }
  destruct r as [[s|]|e]; [|subst; exact Hh|subst; apply He].
  destruct Hr as [-> [ds Hg]]. eapply decide_slot_wp; eauto. intros fp' ts' v ->. apply Hs.
Qed.

Lemma store_wp api k body d Q :
  _redis_key api k = key -> is_dict d = true -> Q (Live (Some d)) (Ok tt) ->
  wp (Live (Some d)) (store_result api k body (response_of d) 200) Q.
Proof.
  intros Hk Hd HQ. unfold store_result.
  apply wp_rbind. call_ok client.
  destruct client; cbn [negb]; [|exact HQ].
  apply wp_except, wp_rbind. call_ok ts.
  assert (Ho : outcome (Live (Some d)) (completed_record (_fingerprint body) ts 200 (response_of d))) by (simpl; eauto).
  apply wp_except, wp_rbind. call_next; [done|]. subst. destruct r as [|e]; [exact HQ|].
  call_next; [done|]. subst. by destruct r as [[]|e'].
Qed.

Lemma pending_wp api k body h Q :
  _redis_key api k = key -> Q (Live None) (Ok tt) -> wp (Live None) (mark_pending api k body h _TTL_SECONDS) Q.
Proof.
  intros Hk HQ. unfold mark_pending.
  apply wp_rbind. call_ok client.
  destruct client; cbn [negb]; [|exact HQ].
  apply wp_except, wp_rbind. call_ok ts.
  apply wp_rbind. call_next; [split_and!; [done|done|simpl; eauto]|]. subst. destruct r as [|e]; exact HQ.
Qed.

Lemma release_wp api k Q :
  _redis_key api k = key -> (forall ph r, Q ph r) -> wp Holding (release_inflight api k) Q.
Proof.
  intros Hk HQ. unfold release_inflight, release.
  apply wp_rbind. call_ok client.
  destruct client; cbn [negb]; [|apply HQ].
  apply wp_except, wp_rbind. call_next; [done|]. subst. destruct r as [raw|e]; [|apply HQ].
  destruct raw as [[]|]; try apply HQ. case_match; [|apply HQ].
  call_next; [done|]. destruct r; apply HQ.
Qed.

(** A send ends refused and still holding the reservation, or live; the
    error text says which. *)
Lemma send_coins_wp a n rate l Q :
  (forall e, Q Holding (Err e)) ->
  (forall e, e <> [] -> lnd_broadcast_outcome_unknown (Some e) = false -> Q Holding (Ok (None, Some e))) ->
  (forall e, e <> [] -> lnd_broadcast_outcome_unknown (Some e) = true -> Q (Live None) (Ok (None, Some e))) ->
  (forall d, is_dict d = true -> Q (Live (Some d)) (Ok (Some (response_of d), None))) ->
  wp Holding (send_coins a n rate l) Q.
Proof.
  intros He Hf Hu Hd. unfold send_coins, _request.
  apply wp_rbind, wp_rbind. call_next; [done|]. subst. destruct r as [pass|e]; [|apply He].
  destruct pass; cbn [negb]; [|by apply Hf].
  apply wp_rbind. call_next; [done|]. destruct Hr as [Hr ->]. destruct r as [[]|e]; [clear Hr|done].
  apply wp_rbind. call_next; [done|]. destruct r as [r|e]; [|done].
  destruct r as [d|c t|c t|e|e]; destruct Hr as [-> Hr].
  - destruct d; try done. by apply (Hd (JDict _)).
  - apply Hu; [done|]. exact (unknown_iff (R5xx c t) Hr).
  - apply Hf; [done|]. exact (unknown_iff (RStatus c t) Hr).
  - by apply Hu.
  - by apply Hu.
Qed.

(** What the [try] body leaves for the [except] clause: an answer of a live
    send, or an exception with the reservation held, or an exception that
    keeps the slot. *)
Definition body_out (ph : phase) (out : bool * result json) : Prop :=
  match out with
  | (_, Ok v) => exists d, ph = Live (Some d) /\ v = response_of d
  | (true, Err _) => ph = Holding
  | (false, Err _) => True
  end.

Lemma resolve_wp req Q : (forall r, Q Holding r) -> wp Holding (resolve_rate req) Q.
Proof.
  intros HQ. unfold resolve_rate. case_match; [|apply HQ]. case_match; [|apply HQ].
  apply wp_rbind. call_next; [done|]. subst. destruct r as [[m|]|e]; try apply HQ. case_match; apply HQ.
Qed.

Lemma on_send_error_wp api k body e res :
  _redis_key api k = key ->
  wp (if lnd_broadcast_outcome_unknown e then Live None else Holding) (on_send_error api (Some k) body e res) body_out.
Proof.
  intros Hk. unfold on_send_error. destruct (lnd_broadcast_outcome_unknown e).
  - by apply wp_bind, pending_wp.
  - apply wp_bind. call_next; [done|]. subst. by destruct r.
Qed.

Lemma limit_wp max n Q : (forall r, Q Holding r) -> wp Holding (_check_payment_limit max n) Q.
Proof. intros HQ. unfold _check_payment_limit. repeat case_match; apply HQ. Qed.

(** [log_action] in a phase it does not change *)
Lemma log_wp b ph Q f : wp ph f Q -> wp ph (fbind (perform (O_log_action b)) (fun _ => f)) Q.
Proof. intros H. apply wp_fbind. call_next; [done|]. destruct Hr as [Hr ->]. by destruct r. Qed.

Lemma failed_send_wp api k body e res ph :
  _redis_key api k = key -> e <> [] -> ph = (if lnd_broadcast_outcome_unknown (Some e) then Live None else Holding) ->
  wp ph (if nonempty (Some e) then
           fbind (perform (O_log_action false)) (fun _ => on_send_error api (Some k) body (Some e) res)
         else Return (true, Err AssertionError)) body_out.
Proof.
  intros Hk He ->. destruct e as [|c e]; [done|]. cbn [nonempty]. by apply log_wp, on_send_error_wp.
Qed.

Lemma body_wp cfg api k req : _redis_key api k = key -> wp Holding (send_body_of cfg api (Some k) req) body_out.
Proof.
  intros Hk. unfold send_body_of.
  apply wp_fbind, resolve_wp. intros [rate|e]; [|done].
  apply wp_fbind, limit_wp. intros [_|e]; [|done].
  apply wp_fbind. call_next; [done|]. subst. destruct r as [[allowed res]|e]; [|done].
  destruct allowed; cbn [negb]; [|by apply log_wp].
  apply wp_fbind, send_coins_wp.
  - done.
  - intros e He Hu. apply failed_send_wp; [done|done|by rewrite Hu].
  - intros e He Hu. apply failed_send_wp; [done|done|by rewrite Hu].
  - intros d Hd. cbn [nonempty]. apply log_wp, wp_fbind, store_wp; [done|done|]. simpl. eauto.
Qed.

Lemma handler_wp cfg api k req :
  _redis_key api k = key -> _fail_closed (rate_limit_fail_policy cfg) = true ->
  wp Idle (send_onchain cfg api (Some k) req) answered.
Proof.
  intros Hk Hc. unfold send_onchain. apply wp_rbind, lookup_wp; [done|done|done|done| |].
  - apply wp_bind. eapply wp_mono; [|by apply body_wp].
    intros ph [[|] [v|e]]; cbn [body_out on_exit]; [intros (d & -> & ->); left; eauto| |intros (d & -> & ->); left; eauto|done].
    intros ->. apply wp_rbind, release_wp; [done|]. by intros ? [|].
  - intros fp ts v. right. eauto.
Qed.

(** *** Accounting *)

Definition holds (ph : phase) : nat := match ph with Holding => 1 | _ => 0 end.
Definition waits (ph : phase) : nat := match ph with Called => 1 | _ => 0 end.

Definition total (f : phase -> nat) (phs : list phase) : nat := sum_list (map f phs).

Lemma total_insert f phs i a b :
  phs !! i = Some a -> (total f (<[i := b]> phs) + f a = total f phs + f b)%nat.
Proof.
  unfold total. revert i. induction phs as [|c phs IH]; intros [|i]; simpl; try done.
  - intros [= ->]. lia.
  - intros H. specialize (IH i H). lia.
Qed.

(** A phase agrees with what LND answered. *)
Definition phase_ok (ds : list json) (ph : phase) : Prop :=
  match ph with
  | Seen s => good ds s
  | Live (Some d) => d ∈ ds
  | _ => True
  end.

(** Reservations and live sends together are at most one, and while there
    is one the slot is taken. *)
Record account (w : world) (phs : list phase) : Prop := {
  acc_refused : (rejected w <= sent w)%nat;
  acc_one : (total holds phs + sent w <= 1 + rejected w)%nat;
  acc_delivered : (total waits phs + length (delivered w) + rejected w <= sent w)%nat;
  acc_taken : (1 + rejected w <= total holds phs + sent w)%nat -> lookup_slot w key <> None;
  acc_slot : forall s e, slots w !! key = Some (s, e) -> good (delivered w) s;
  acc_phases : Forall (phase_ok (delivered w)) phs
}.

Lemma good_mono ds ds' s : ds ⊆ ds' -> good ds s -> good ds' s.
Proof. intros H []; constructor; auto. Qed.

Lemma phase_ok_mono ds ds' ph : ds ⊆ ds' -> phase_ok ds ph -> phase_ok ds' ph.
Proof. intros H. destruct ph as [| | | |[]]; simpl; eauto using good_mono. Qed.

Lemma slot_live w s : lookup_slot w key = Some s -> exists e, slots w !! key = Some (s, e) /\ now w < e.
Proof.
  unfold lookup_slot. destruct (slots w !! key) as [[v e]|]; [|done]. case_match; [|done]. intros [= ->]. eauto with lia.
Qed.

Lemma put_lookup w v ttl : 0 < ttl -> lookup_slot (put w key v ttl) key = Some v.
Proof. intros H. unfold lookup_slot, put. simpl. rewrite lookup_insert_eq. by rewrite (proj2 (Z.ltb_lt _ _)) by lia. Qed.

(** Writing a good record over the slot keeps the account. *)
Lemma put_account w phs v ttl : 0 < ttl -> good (delivered w) v -> account w phs -> account (put w key v ttl) phs.
Proof.
  intros Ht Hg [H1 H2 H3 H4 H5 H6]. split; try done.
  - intros _. by rewrite put_lookup.
  - intros s e. simpl. rewrite lookup_insert_eq. by intros [= <- <-].
Qed.

(** A call that changes neither the world nor the phase. *)
Lemma same_account w phs i ph : phs !! i = Some ph -> account w phs -> account w (<[i := ph]> phs).
Proof. intros Hi. by rewrite list_insert_id. Qed.

(** A request that no longer counts. *)
Lemma drop_account w phs i ph ph' :
  phs !! i = Some ph -> holds ph' = 0%nat -> waits ph' = 0%nat -> phase_ok (delivered w) ph' ->
  account w phs -> account w (<[i := ph']> phs).
Proof.
  intros Hi Hh Hw Hp [H1 H2 H3 H4 H5 H6].
  pose proof (total_insert holds _ _ _ ph' Hi). pose proof (total_insert waits _ _ _ ph' Hi).
  split; try done; try lia.
  - intros H'. apply H4. lia.
  - by apply Forall_insert.
Qed.

(** The moves of the protocol. *)
Lemma reserve_account w phs i m ttl :
  phs !! i = Some Idle -> lookup_slot w key = None -> 0 < ttl -> good (delivered w) m ->
  account w phs -> account (put w key m ttl) (<[i := Holding]> phs).
Proof.
  intros Hi Hl Ht Hg HA. pose proof (put_account _ _ _ ttl Ht Hg HA) as [_ _ _ _ H5 _].
  destruct HA as [H1 H2 H3 H4 _ H6].
  pose proof (total_insert holds _ _ _ Holding Hi). pose proof (total_insert waits _ _ _ Holding Hi). simpl in *.
  assert (~ (1 + rejected w <= total holds phs + sent w)%nat) by (intros Hn; by apply H4 in Hn).
  split; simpl; try done; try lia.
  - intros _. by rewrite put_lookup.
  - by apply Forall_insert.
Qed.

Lemma delete_account w phs i :
  phs !! i = Some Holding -> account w phs -> account (with_slots w (delete key (slots w))) (<[i := Idle]> phs).
Proof.
  intros Hi [H1 H2 H3 H4 H5 H6].
  pose proof (total_insert holds _ _ _ Idle Hi). pose proof (total_insert waits _ _ _ Idle Hi). simpl in *.
  split; simpl; try done; try lia.
  - intros s e. by rewrite lookup_delete_eq.
  - by apply Forall_insert.
Qed.

Lemma post_account w phs i body :
  phs !! i = Some Holding -> account w phs -> account (post body w) (<[i := Called]> phs).
Proof.
  intros Hi [H1 H2 H3 H4 H5 H6].
  pose proof (total_insert holds _ _ _ Called Hi). pose proof (total_insert waits _ _ _ Called Hi). simpl in *.
  split; simpl; try done; try lia.
  - intros _. apply H4. lia.
  - by apply Forall_insert.
Qed.

Lemma reply_account w phs i r :
  phs !! i = Some Called -> account w phs ->
  account (observe (Ok r) w)
    (<[i := match r with RJson d => Live (Some d) | RStatus _ _ => Holding | _ => Live None end]> phs).
Proof.
  intros Hi HA.
  destruct r as [d|c t|c t|e|e]; try (by apply (drop_account _ _ _ Called)); destruct HA as [H1 H2 H3 H4 H5 H6].
  - pose proof (total_insert holds _ _ _ (Live (Some d)) Hi).
    pose proof (total_insert waits _ _ _ (Live (Some d)) Hi). simpl in *.
    assert (Hs : delivered w ⊆ d :: delivered w) by set_solver.
    split; simpl; try done; try lia.
    + intros H'. apply H4. lia.
    + intros s e Hs'. eapply good_mono; eauto.
    + apply Forall_insert; [|simpl; set_solver]. eapply Forall_impl; [exact H6|]. intros ph. by apply phase_ok_mono.
  - pose proof (total_insert holds _ _ _ Holding Hi). pose proof (total_insert waits _ _ _ Holding Hi). simpl in *.
    split; simpl; try done; try lia.
    + intros H'. apply H4. lia.
    + by apply Forall_insert.
Qed.

Lemma outcome_good ds ph p : phase_ok ds ph -> outcome ph p -> good ds p.
Proof.
  destruct ph as [| | | |[d|]]; simpl; try done.
  - intros Hd (Hdict & fp & ts & ->). by constructor.
  - intros _ (fp & ts & h & ->). constructor.
Qed.

(** A write is at most one [put]. *)
Lemma written_account {A} f (script : world -> A * world) w phs i ph p ttl :
  (forall w, snd (script w) = w \/ snd (script w) = put w key p ttl) ->
  phs !! i = Some ph -> 0 < ttl -> outcome ph p -> account w phs ->
  account (snd (round_trip f script w)) (<[i := ph]> phs).
Proof.
  intros Hs Hi Ht Ho HA. apply same_account; [done|].
  assert (Hg : good (delivered w) p).
  { eapply outcome_good; [|exact Ho]. eapply Forall_lookup_1; [apply HA|exact Hi]. }
  assert (H : account (snd (script w)) phs).
  { destruct (Hs w) as [->| ->]; [done|by apply put_account]. }
  destruct f; simpl; [|done|done]. by destruct (script w).
Qed.

Lemma reserve_call f m ttl w phs i r w' :
  phs !! i = Some Idle -> 0 < ttl -> good (delivered w) m -> account w phs ->
  round_trip f (_RESERVE_LUA key m ttl) w = (r, w') ->
  exists ph', after Idle (O_reserve key m ttl) r ph' /\ account w' (<[i := ph']> phs).
Proof.
  intros Hi Ht Hg HA E. unfold _RESERVE_LUA in E.
  destruct (lookup_slot w key) as [s|] eqn:Hl; destruct f; simpl in E; rewrite ?Hl in E; injection E as <- <-.
  - pose proof (slot_live _ _ Hl) as (e & He & _). pose proof (acc_slot _ _ HA _ _ He) as Hs.
    exists (Seen s). split; [simpl; eauto|]. by apply (drop_account _ _ _ Idle).
  - exists Idle. split; [done|]. by apply same_account.
  - exists Idle. split; [done|]. by apply same_account.
  - exists Holding. split; [done|]. by apply reserve_account.
  - exists Idle. split; [done|]. by apply same_account.
  - exists Idle. split; [done|]. apply same_account; [done|]. by apply put_account.
Qed.

Lemma call_account X (o : call X) c w phs i ph :
  calm_choice c = true -> phs !! i = Some ph -> may ph o -> account w phs ->
  exists ph', after ph o (fst (run_call o c w)) ph' /\ account (snd (run_call o c w)) (<[i := ph']> phs).
Proof.
  intros Hc Hi Hm HA. apply andb_prop in Hc as [Hd Hr].
  destruct o; simpl in Hm |- *; try (exists ph; split; [done|by apply same_account]).
  - destruct Hm as (-> & -> & Ht & fp & ts & ->).
    destruct (round_trip _ _ w) as [r w'] eqn:E. eapply reserve_call; [exact Hi|exact Ht|constructor|exact HA|exact E].
  - destruct Hm as (-> & Ht & Ho). exists ph. split; [done|].
    eapply written_account; [|done|exact Ht|exact Ho|done]. intros w0. unfold _STORE_LUA. repeat case_match; auto.
  - destruct Hm as (-> & Ht & Ho). exists ph. split; [done|]. eapply written_account; [|done|exact Ht|exact Ho|done]. auto.
  - exists ph. split; [done|]. apply same_account; [done|]. by destruct (c_fault c).
  - destruct Hm as [-> ->]. exists Idle. split; [done|].
    destruct (c_fault c); simpl; [by apply delete_account|by apply (drop_account _ _ _ Holding)|by apply delete_account].
  - exists ph. split; [done|]. apply same_account; [done|]. destruct (c_limits c) as [[[] res]|e]; [by destruct HA|done|done].
  - subst. exists Called. split; [done|]. by apply post_account.
  - subst. destruct (c_reply c) as [r|e]; [|done]. apply andb_prop in Hr as [Hr1 Hr2].
    eexists. split; [|by apply reply_account]. by destruct r.
Qed.

(** *** Runs *)

Definition follows (s : system) : Prop :=
  exists phs, Forall2 (fun ph p => wp ph p answered) phs (pool s) /\ account (the s) phs.

Lemma frame_account w w' phs :
  lookup_slot w' key = lookup_slot w key -> slots w' !! key = slots w !! key -> sent w' = sent w ->
  rejected w' = rejected w -> delivered w' = delivered w -> account w phs -> account w' phs.
Proof. intros E1 E2 E3 E4 E5 [H1 H2 H3 H4 H5 H6]. split; rewrite ?E1, ?E2, ?E3, ?E4, ?E5; done. Qed.

Lemma step_follows e s s' : calm key e s = true -> follows s -> step e s = Some s' -> follows s'.
Proof.
  destruct s as [w ps]. intros Hc (phs & Hps & HA) Hs. destruct e as [i c|i|d|k v]; simpl in Hc, Hs, Hps, HA.
  - destruct (ps !! i) as [[|X o k]|] eqn:Hi; [done| |done].
    destruct (Forall2_lookup_r _ _ _ _ _ Hps Hi) as (ph & Hph & Hwp).
    destruct (call_account _ o c w phs i ph Hc Hph (proj1 Hwp) HA) as (ph' & Hafter & HA').
    destruct (run_call o c w) as [r w'] eqn:E. injection Hs as <-. exists (<[i := ph']> phs). split; [|done].
    apply Forall2_insert; [done|]. by eapply wp_call.
  - injection Hs as <-. destruct (phs !! i) as [ph|] eqn:Hi.
    + exists (<[i := Idle]> phs). split; [by apply Forall2_insert|]. by eapply drop_account.
    + exists phs. split; [|done]. simpl. rewrite list_insert_ge; [done|].
      rewrite <- (Forall2_length _ _ _ Hps). by apply lookup_ge_None.
  - case_match; [|done]. injection Hs as <-. exists phs. split; [done|]. eapply frame_account; [..|exact HA]; try done.
    unfold lookup_slot. simpl. destruct (slots w !! key) as [[v t]|]; [|done].
    rewrite Hc. by rewrite (proj2 (Z.ltb_lt _ _)) by lia.
  - injection Hs as <-. exists phs. split; [done|]. apply negb_true_iff, bool_decide_eq_false in Hc.
    assert (E : partial_alter (fun _ => v) k (slots w) !! key = slots w !! key) by by rewrite lookup_partial_alter_ne.
    eapply frame_account; [..|exact HA]; try done. unfold lookup_slot. simpl. by rewrite E.
Qed.

Lemma total_zero f phs : (forall ph, ph ∈ phs -> f ph = 0%nat) -> total f phs = 0%nat.
Proof.
  unfold total. induction phs as [|a phs IH]; intros H; simpl; [done|].
  rewrite (H a), IH; [done| |set_solver]. intros ph Hph. apply H. set_solver.
Qed.

Lemma start_follows t ps : Forall (fun p => wp Idle p answered) ps -> follows (start t ps).
Proof.
  intros H. exists (replicate (length ps) Idle). split.
  - simpl. induction H; simpl; by constructor.
  - assert (Hi : forall ph, ph ∈ replicate (length ps) Idle -> ph = Idle) by (intros ph [-> _]%elem_of_replicate; done).
    assert (total holds (replicate (length ps) Idle) = 0%nat) by (by apply total_zero; intros ph ->%Hi).
    assert (total waits (replicate (length ps) Idle) = 0%nat) by (by apply total_zero; intros ph ->%Hi).
    split; simpl; try lia; [done|]. apply Forall_forall. by intros ph ->%Hi.
Qed.

(** An answer given is LND's answer, and there is one of those. *)
Lemma answers_agree s i v :
  follows s -> pool s !! i = Some (Return (Ok v)) -> exists d, delivered (the s) = [d] /\ v = response_of d.
Proof.
  intros (phs & Hps & HA) Hi. destruct (Forall2_lookup_r _ _ _ _ _ Hps Hi) as (ph & Hph & Hv). simpl in Hv.
  pose proof (Forall_lookup_1 _ _ _ _ (acc_phases _ _ HA) Hph) as Hok.
  assert (H : exists d, d ∈ delivered (the s) /\ v = response_of d).
  { destruct Hv as [(d & -> & ->)|(fp & ts & ->)]; [eauto|]. simpl in Hok. inversion Hok; subst; eauto. }
  destruct H as (d & Hin & ->). destruct HA as [H1 H2 H3 _ _ _].
  destruct (delivered (the s)) as [|d' [|]]; simpl in *; [set_solver| |lia].
  exists d'. by apply list_elem_of_singleton in Hin as ->.
Qed.
End once.
