(* ===== verification/SendSafety.v ===== *)
(** * What a client of send-onchain can rely on

    The results about the handler over runs of concurrent requests: one send
    and one answer per idempotency key, spending that was charged first, a
    replay that is the same request, and the run in which a failed audit
    write lets a retry send again. *)
From S2P Require Import Prelude Prog Bytes PyInt Utf8 Json PyJson Sha256 RateLimit AuditLog AuditChain.
From S2P Require Import Idem SendOnchain SendOnce.

(** ** One send, one answer *)

(** C8. Requests of one client with one idempotency key, in whatever order
    their calls interleave, whichever round trips to Redis fail and whichever
    workers die. Under two conditions at most one of the sends is one LND did
    not refuse, and all requests that answer give the same answer, that of
    this one send. The conditions: the configured policy fails closed when
    Redis is unreachable, and the run is [calm] -- no audit write and no
    rollback of a charge raises, waiting for LND ends with one of its
    outcomes and not with another exception, a body LND returns is an
    object, and the slot of the key neither lapses nor is written by anyone
    else. The first of these is needed: [audit_failure_resends] below is a
    run outside it that sends twice. *)
Theorem one_send_one_answer cfg api k reqs t es s :
  _fail_closed (rate_limit_fail_policy cfg) = true ->
  run (calm (_redis_key api k)) es (start t (map (send_onchain cfg api (Some k)) reqs)) = Some s ->
  (sent (the s) <= 1 + rejected (the s))%nat /\
  (forall i v, pool s !! i = Some (Return (Ok v)) ->
     sent (the s) = (1 + rejected (the s))%nat /\ exists d, delivered (the s) = [d] /\ v = response_of d).
Proof.
  intros Hc Hr.
  assert (HF : follows (_redis_key api k) s).
  { eapply run_keeps; [apply step_follows| |exact Hr]. apply start_follows.
    apply Forall_map, Forall_forall. intros req _. by apply handler_wp. }
  split; [destruct HF as (phs & _ & [H1 H2 _ _ _ _]); lia|].
  intros i v Hi. destruct (answers_agree _ _ _ _ HF Hi) as (d & Hd & ->). split; [|eauto].
  destruct HF as (phs & _ & [H1 H2 H3 _ _ _]). rewrite Hd in H3. simpl in H3. lia.
Qed.

(** Two requests with the same body and one with another, against an
    eventful Redis. *)
Definition example_cfg : settings := mkSettings (u "closed") (-1).
Definition example_req : SendOnchainRequest := mkSend (u "bc1qexample") 5000 (Some 3) None [].
Definition other_req : SendOnchainRequest := mkSend (u "bc1qexample") 6000 (Some 3) None [].
Definition example_key : ustr := u "6f9619ff-8b86-d011-b42d-00c04fc964ff".
Definition example_data : json := JDict [(u "txid", JStr (u "ab12"))].

Definition quiet : choice :=
  mkChoice true NoFault (Ok None) (Ok (true, None)) (Ok tt) (Ok true) (Ok (RJson example_data)).
Definition lost_reply : choice :=
  mkChoice true FailAfter (Ok None) (Ok (true, None)) (Ok tt) (Ok true) (Ok (RJson example_data)).

(** How each request stands: its result once it has one. *)
Definition results (s : system) : list (option (result json)) :=
  map (fun p => match p with Return r => Some r | Call _ _ => None end) (pool s).

(** The first request sends; the second arrives while it waits for LND and
    is refused; the first stores its answer, the reply of the script is lost
    and the plain write repeats it; the third replays; the fourth, with
    another amount, is refused. *)
Definition example_events : list event :=
  replicate 6 (ERun 0 quiet) ++ replicate 3 (ERun 1 quiet) ++ [ETick 30] ++ replicate 4 (ERun 0 quiet) ++
  [ERun 0 lost_reply; ERun 0 quiet; ETick 600] ++ replicate 3 (ERun 2 quiet) ++ replicate 3 (ERun 3 quiet).

Definition example_run : option system :=
  run (calm (_redis_key (u "api") example_key)) example_events
    (start 0 (map (send_onchain example_cfg (u "api") (Some example_key))
                [example_req; example_req; example_req; other_req])).

(** A run and what it leaves to be seen. *)
Lemma run_some {A} (o : option system) (f : system -> A) a : f <$> o = Some a -> exists s, o = Some s /\ f s = a.
Proof. destruct o as [s|]; [|done]. intros [= <-]. eauto. Qed.

Lemma one_send_one_answer_witness :
  exists s, example_run = Some s /\
    results s = [Some (Ok example_data); Some (Err (HTTPException 409)); Some (Ok example_data);
                 Some (Err (HTTPException 409))] /\
    (sent (the s) <= 1 + rejected (the s))%nat.
Proof.
  destruct (run_some example_run results
    [Some (Ok example_data); Some (Err (HTTPException 409)); Some (Ok example_data); Some (Err (HTTPException 409))])
    as (s & E & H); [vm_compute; reflexivity|].
  exists s. split; [exact E|]. split; [exact H|].
  apply (one_send_one_answer example_cfg (u "api") example_key [example_req; example_req; example_req; other_req]
           0 example_events s); [reflexivity|exact E].
Defined.

(** ** A failed audit write *)

(** [log_action] raises: the database is unreachable. *)
Definition no_audit (r : reply) : choice :=
  mkChoice true NoFault (Ok None) (Ok (true, None)) (Err (RuntimeError "database")) (Ok true) (Ok r).

Definition resend_events (r : reply) : list event := replicate 11 (ERun 0 (no_audit r)) ++ replicate 11 (ERun 1 quiet).

Definition resend_run (r : reply) : option system :=
  run anything (resend_events r)
    (start 0 (map (send_onchain example_cfg (u "api") (Some example_key)) [example_req; example_req])).

(** The audit entry is written after the send and before the slot is marked.
    When that write raises, the [except] clause releases the reservation of a
    send that went out (or, after a 5xx, may have), and a retry with the same
    key sends again. *)
Example audit_failure_resends :
  forallb (fun r => match resend_run r with
                    | Some s => (sent (the s) =? 2)%nat && (rejected (the s) =? 0)%nat &&
                                bool_decide (length (delivered (the s)) = if maybe_broadcast r then 1%nat else 2%nat)
                    | None => false
                    end) [RJson example_data; R5xx 503 (u "unavailable"); RTransport (u "timed out")] = true.
Proof. vm_compute. reflexivity. Qed.

(** ** Spending is charged first *)

(** A send as it is posted. *)
Record item := mkItem { i_address : ustr; i_amount : Z; i_rate : option Z; i_label : ustr }.

Definition body_of (x : item) : json := send_body (i_address x) (i_amount x) (i_rate x) (i_label x) 1.

(** What the send takes from the wallet: the amount and the fee budget at
    the posted rate. *)
Definition cost (x : item) : Z := i_amount x + fee_budget (i_rate x).

Definition item_ok (max_sats : Z) (x : item) : Prop :=
  0 < i_amount x /\ (max_sats = -1 \/ i_amount x <= max_sats) /\
  (forall n, i_rate x = Some n -> 1 <= n <= MAX_SAT_PER_VBYTE).

(** The fee services answer at least 1 sat/vB when they answer. *)
Definition fees_ok (e : event) (s : system) : bool :=
  match e with ERun _ c => match c_fee c with Ok (Some m) => 1 <=? m | _ => true end | _ => true end.

(** Whether the request has been charged and for how much. *)
Inductive paid := Unpaid | Paid (amount : Z) | Spent.

Section ledger.
Context (max_sats : Z).

#[local] Instance ledger : Protocol call paid := {
  may ph X o :=
    match o with
    | O_check_limits amount _ => 0 <= amount
    | O_post _ body => exists x, ph = Paid (cost x) /\ body = body_of x /\ item_ok max_sats x
    | _ => True
    end;
  after ph X o r ph' :=
    match o in call X return result X -> Prop with
    | O_check_limits amount _ => fun r => match r with Ok (true, _) => ph' = Paid amount | _ => ph' = ph end
    | O_fee_rate _ => fun r => ph' = ph /\ match r with Ok (Some m) => 1 <= m | _ => True end
    | O_post _ _ => fun _ => ph' = Spent
    | _ => fun _ => ph' = ph
    end r
}.

Lemma fee_budget_nonneg rate : (forall n, rate = Some n -> 1 <= n <= MAX_SAT_PER_VBYTE) -> 0 <= fee_budget rate.
Proof.
  intros H. unfold fee_budget, ONCHAIN_TX_VBYTE_ESTIMATE. destruct rate as [n|]; [|lia].
  specialize (H n eq_refl). case_match; lia.
Qed.

Ltac call_next :=
  apply wp_perform; [|let r := fresh "r" in let Hr := fresh "Hr" in intros r ? Hr; simpl in Hr].

(** The rate a request is sent with. *)
Lemma resolve_paid req ph Q :
  request_ok req = true ->
  (forall e, Q ph (Err e)) ->
  (forall rate, (forall n, rate = Some n -> 1 <= n <= MAX_SAT_PER_VBYTE) -> Q ph (Ok rate)) ->
  wp ph (resolve_rate req) Q.
Proof.
  intros Hreq He HQ. apply andb_prop in Hreq as [_ Hreq].
  assert (Hown : Q ph (Ok (sat_per_vbyte req))).
  { apply HQ. intros n Hn. rewrite Hn in Hreq. lia. }
  clear Hreq.
  unfold resolve_rate. case_match; [|exact Hown]. case_match; [|exact Hown].
  apply wp_rbind. call_next; [done|]. destruct Hr as [-> Hr]. destruct r as [[m|]|e]; [|exact Hown|apply He].
  case_match; [exact Hown|]. apply HQ. unfold MAX_SAT_PER_VBYTE. intros n [= <-]. lia.
Qed.

(** The calls of the idempotency store concern neither side of the ledger. *)
Definition neutral (X : Type) (o : call X) : bool :=
  match o with O_check_limits _ _ | O_post _ _ | O_fee_rate _ => false | _ => true end.

Abbreviation neutral_prog := (only neutral whatever).

Lemma neutral_wp {A} (p : prog A) ph Q : neutral_prog p -> (forall a, Q ph a) -> wp ph p Q.
Proof. intros Hp HQ. apply (wp_only neutral whatever); [|exact Hp|by intros a _]. intros X o Ho. by destruct o. Qed.

Lemma neutral_bind {A B} (p : prog A) (f : A -> prog B) :
  neutral_prog p -> (forall a, neutral_prog (f a)) -> neutral_prog (pbind p f).
Proof. intros Hp Hf. eapply only_bind; [exact Hp|]. by intros a _. Qed.

Ltac neutral :=
  repeat first [exact I | reflexivity | split; [reflexivity|intros ?] | apply neutral_bind; [|intros ?] | case_match
               | progress cbn [only perform rbind except pbind value_of raise]].

Lemma neutral_lookup policy api k body ttl : neutral_prog (lookup_or_reserve policy api k body ttl).
Proof. unfold lookup_or_reserve, decide_slot, _redis_unavailable. neutral. Qed.

Lemma neutral_exit api ik out : neutral_prog (on_exit api ik out).
Proof. unfold on_exit, release_inflight, release. neutral. Qed.

Lemma neutral_error api ik body e res : neutral_prog (on_send_error api ik body e res).
Proof. unfold on_send_error, mark_pending. neutral. Qed.

Lemma neutral_store api k body data n : neutral_prog (store_result api k body data n).
Proof. unfold store_result. neutral. Qed.

Definition any_end {A} (ph : paid) (a : A) : Prop := True.

Lemma send_coins_paid x Q :
  item_ok max_sats x -> (forall ph r, Q ph r) ->
  wp (Paid (cost x)) (send_coins (i_address x) (i_amount x) (i_rate x) (i_label x)) Q.
Proof.
  intros Hx HQ. unfold send_coins, _request.
  apply wp_rbind, wp_rbind. call_next; [done|]. subst. destruct r as [pass|e]; [|apply HQ].
  destruct pass; cbn [negb]; [|apply HQ].
  apply wp_rbind. call_next; [by exists x|]. subst. destruct r as [_|e]; [|apply HQ].
  apply wp_rbind. call_next; [done|]. subst. destruct r as [r|e]; [|apply HQ].
  destruct r as [d| | | |]; try apply HQ. destruct d; apply HQ.
Qed.

Lemma limit_paid n ph Q :
  (forall e, Q ph (Err e)) -> (max_sats = -1 \/ n <= max_sats -> Q ph (Ok tt)) -> wp ph (_check_payment_limit max_sats n) Q.
Proof.
  intros He HQ. unfold _check_payment_limit. case_match; [apply HQ; lia|]. case_match; [apply He|apply HQ; lia].
Qed.

Lemma body_paid cfg api ik req :
  lnd_max_payment_sats cfg = max_sats -> request_ok req = true ->
  wp Unpaid (send_body_of cfg api ik req) any_end.
Proof.
  intros Hmax Hreq. pose proof (proj1 (andb_prop _ _ Hreq)) as Hpos. unfold send_body_of. rewrite Hmax.
  apply wp_fbind, resolve_paid; [done|done|]. intros rate Hrate.
  apply wp_fbind, limit_paid; [done|]. intros Hlim.
  pose proof (fee_budget_nonneg _ Hrate) as Hfee.
  apply wp_fbind. call_next; [simpl; lia|]. destruct r as [[[] res]|e]; subst; [| |done].
  - cbn [negb]. apply wp_fbind.
    apply (send_coins_paid (mkItem (address req) (amount_sats req) rate (label req))); [split_and!; auto; simpl; lia|].
    intros ph [[data error]|e]; [|done]. apply neutral_wp; [|done].
    pose proof neutral_error. pose proof neutral_store. unfold fbind. neutral; auto.
  - cbn [negb]. apply neutral_wp; [|done]. unfold fbind. neutral.
Qed.

Lemma handler_paid cfg api ik req :
  lnd_max_payment_sats cfg = max_sats -> request_ok req = true -> wp Unpaid (send_onchain cfg api ik req) any_end.
Proof.
  intros Hmax Hreq. unfold send_onchain.
  assert (Hexec : wp Unpaid (pbind (send_body_of cfg api ik req) (on_exit api ik)) any_end).
  { apply wp_bind. eapply wp_mono; [|by apply body_paid]. intros ph out _. apply neutral_wp; [apply neutral_exit|done]. }
  destruct ik as [k|]; [|exact Hexec].
  apply wp_rbind, neutral_wp; [apply neutral_lookup|]. intros [[v|]|e]; [done|exact Hexec|done].
Qed.

(** *** The books *)

Definition due (ph : paid) : Z := match ph with Paid n => n | _ => 0 end.

Fixpoint sumZ (l : list Z) : Z := match l with [] => 0 | n :: l => n + sumZ l end.

Lemma sumZ_insert (f : paid -> Z) phs i a b :
  phs !! i = Some a -> sumZ (map f (<[i := b]> phs)) = sumZ (map f phs) - f a + f b.
Proof.
  revert i. induction phs as [|c phs IH]; intros [|i]; simpl; try done.
  - intros [= ->]. lia.
  - intros H. rewrite (IH i H). lia.
Qed.

(** What was posted and what is still to be posted is covered by what was
    charged. *)
Definition covered (w : world) (phs : list paid) : Prop :=
  Forall (fun ph => 0 <= due ph) phs /\
  exists items, posts w = map body_of items /\ Forall (item_ok max_sats) items /\
    sumZ (map cost items) + sumZ (map due phs) <= charged w.

Definition books (s : system) : Prop :=
  exists phs, Forall2 (fun ph p => wp ph p any_end) phs (pool s) /\ covered (the s) phs.

Lemma covered_insert w w' phs i ph ph' :
  phs !! i = Some ph -> posts w' = posts w -> 0 <= due ph' -> charged w - due ph + due ph' <= charged w' ->
  covered w phs -> covered w' (<[i := ph']> phs).
Proof.
  intros Hi Hp Hd Hc (Hall & items & E & Hok & Hsum). split; [by apply Forall_insert|].
  exists items. rewrite Hp. split_and!; [done|done|]. rewrite (sumZ_insert due _ _ _ ph' Hi). lia.
Qed.

(** Redis is not on the books. *)
Definition off_books (w w' : world) : Prop := posts w' = posts w /\ charged w' = charged w.

Lemma round_trip_off {A} f (script : world -> A * world) w :
  off_books w (snd (script w)) -> off_books w (snd (round_trip f script w)).
Proof. intros H. destruct f; simpl; [by destruct (script w)|done|done]. Qed.

Lemma neutral_off X (o : call X) c w : neutral X o = true -> off_books w (snd (run_call o c w)).
Proof.
  destruct o; try done; intros _; simpl; try (apply round_trip_off; by unfold _RESERVE_LUA, _STORE_LUA; repeat case_match).
  by destruct (c_reply c) as [[]|].
Qed.

Lemma call_covered X (o : call X) c w phs i ph s :
  fees_ok (ERun i c) s = true -> phs !! i = Some ph -> may ph o -> covered w phs ->
  exists ph', after ph o (fst (run_call o c w)) ph' /\ covered (snd (run_call o c w)) (<[i := ph']> phs).
Proof.
  intros Hf Hi Hm Hcov. simpl in Hf. pose proof (Forall_lookup_1 _ _ _ _ (proj1 Hcov) Hi) as Hdue.
  assert (Hsame : forall w', off_books w w' -> covered w' (<[i := ph]> phs)).
  { intros w' [E1 E2]. apply (covered_insert w w' _ _ ph); [done|done|done|lia|done]. }
  destruct (neutral X o) eqn:Hn.
  { exists ph. split; [by destruct o|]. by apply Hsame, neutral_off. }
  destruct o; try done; simpl in Hm |- *.
  - exists ph. split; [|by apply Hsame]. split; [done|]. case_match; [|done]. case_match; [lia|done].
  - destruct (c_limits c) as [[[] res]|e]; [|exists ph; split; [done|by apply Hsame]..].
    exists (Paid amount). split; [done|]. apply (covered_insert w _ _ _ ph); simpl in Hdue |- *; [done|done|done|lia|done].
  - destruct Hm as (x & -> & -> & Hx). exists Spent. split; [done|].
    destruct Hcov as (Hall & items & E & Hok & Hsum). split; [by apply Forall_insert|].
    exists (x :: items). simpl. rewrite E. split_and!; [done|by constructor|].
    rewrite (sumZ_insert due _ _ _ Spent Hi). simpl. lia.
Qed.

Lemma step_books e s s' : fees_ok e s = true -> books s -> step e s = Some s' -> books s'.
Proof.
  destruct s as [w ps]. intros Hf (phs & Hps & Hcov) Hs. simpl in Hps, Hcov.
  destruct e as [i c|i|d|k v]; cbn [step] in Hs.
  - destruct (ps !! i) as [[|X o k]|] eqn:Hi; [done| |done].
    destruct (Forall2_lookup_r _ _ _ _ _ Hps Hi) as (ph & Hph & Hwp).
    destruct (call_covered _ o c w phs i ph _ Hf Hph (proj1 Hwp) Hcov) as (ph' & Hafter & Hcov').
    destruct (run_call o c w) as [r w'] eqn:E. injection Hs as <-. exists (<[i := ph']> phs). split; [|done].
    apply Forall2_insert; [done|]. by eapply wp_call.
  - injection Hs as <-. destruct (phs !! i) as [ph|] eqn:Hi.
    + exists (<[i := Unpaid]> phs). split; [by apply Forall2_insert|].
      pose proof (Forall_lookup_1 _ _ _ _ (proj1 Hcov) Hi). apply (covered_insert w _ _ _ ph); simpl in *; [done|done|lia|lia|done].
    + exists phs. split; [|done]. simpl. rewrite list_insert_ge; [done|].
      rewrite <- (Forall2_length _ _ _ Hps). by apply lookup_ge_None.
  - case_match; [|done]. injection Hs as <-. by exists phs.
  - injection Hs as <-. by exists phs.
Qed.

Lemma start_books t ps : Forall (fun p => wp Unpaid p any_end) ps -> books (start t ps).
Proof.
  intros H. exists (replicate (length ps) Unpaid). split; [simpl; induction H; simpl; by constructor|].
  split; [by apply Forall_replicate|]. exists []. split_and!; [done|done|]. simpl.
  induction (length ps); simpl; lia.
Qed.
End ledger.

(** C9. In every run of any requests, with or without idempotency keys,
    whatever fails, dies or lapses: each transaction posted to LND pays at
    most the per-payment limit at a rate of at most 1000 sat/vB, and the
    amounts and fee budgets of all posted transactions together are covered
    by what [check_payment_limits] charged to the spend window. *)
Theorem outlay_charged cfg (reqs : list (ustr * option ustr * SendOnchainRequest)) t es s :
  Forall (fun x => request_ok x.2 = true) reqs ->
  run fees_ok es (start t (map (fun '(api, ik, req) => send_onchain cfg api ik req) reqs)) = Some s ->
  exists items, posts (the s) = map body_of items /\ Forall (item_ok (lnd_max_payment_sats cfg)) items /\
    sumZ (map cost items) <= charged (the s).
Proof.
  intros Hreqs Hr.
  assert (H : books (lnd_max_payment_sats cfg) s).
  { eapply run_keeps; [apply step_books| |exact Hr]. apply start_books. apply Forall_map.
    eapply Forall_impl; [exact Hreqs|]. intros [[api ik] req] Hreq. by apply handler_paid. }
  destruct H as (phs & _ & Hall & items & E & Hok & Hsum). exists items. split_and!; [done|done|].
  enough (0 <= sumZ (map due phs)) by lia. clear -Hall. induction Hall; simpl; lia.
Qed.

(** Three requests: with a key; without one and with the fee left to the
    mempool service, whose 5000 sat/vB is cut to 1000; above the limit. *)
Definition fee_surge : choice :=
  mkChoice true NoFault (Ok (Some 5000)) (Ok (true, None)) (Ok tt) (Ok true) (Ok (R5xx 502 [])).

Definition ledger_reqs : list (ustr * option ustr * SendOnchainRequest) :=
  [(u "api", Some example_key, example_req); (u "api", None, mkSend (u "bc1qother") 7000 None (Some (u "high")) []);
   (u "api", None, mkSend (u "bc1qother") 20000 None None [])].

Definition ledger_events : list event :=
  replicate 6 (ERun 0 quiet) ++ replicate 4 (ERun 1 fee_surge) ++ [EDie 0; ETick 900000; ERun 1 fee_surge].

Definition ledger_run : option system :=
  run fees_ok ledger_events
    (start 0 (map (fun '(api, ik, req) => send_onchain (mkSettings (u "closed") 10000) api ik req) ledger_reqs)).

Lemma outlay_charged_witness :
  exists s, ledger_run = Some s /\ charged (the s) = 5750 + 257000 /\
    exists items, posts (the s) = map body_of items /\ Forall (item_ok 10000) items /\
      sumZ (map cost items) <= charged (the s).
Proof.
  destruct (run_some ledger_run (fun s => charged (the s)) (5750 + 257000)) as (s & E & H); [vm_compute; reflexivity|].
  exists s. split; [exact E|]. split; [exact H|].
  apply (outlay_charged (mkSettings (u "closed") 10000) ledger_reqs 0 ledger_events s); [|exact E]. repeat constructor.
Defined.

(** ** A replay is the same request *)

Global Instance request_eq_dec : EqDecision SendOnchainRequest.
Proof. solve_decision. Defined.

(** One request alone, the surroundings answering every call the same way. *)
Fixpoint exec {A} (c : choice) (p : prog A) (w : world) : A * world :=
  match p with
  | Return a => (a, w)
  | Call o k => let '(r, w') := run_call o c w in exec c (k r) w'
  end.

(** Text a request can hold. *)
Definition texts_ok (req : SendOnchainRequest) : bool := json_ok (model_dump req).

Lemma json_of_opt_inj {A} (f : A -> json) v w :
  (forall a b, canon (f a) = canon (f b) -> a = b) -> (forall a, canon (f a) <> JNull) ->
  canon (json_of_opt f v) = canon (json_of_opt f w) -> v = w.
Proof. intros Hf Hn. destruct v, w; simpl; intros H; [by f_equal; apply Hf|by apply Hn in H|by symmetry in H; apply Hn in H|done]. Qed.

Lemma model_dump_inj r r' : canon (model_dump r) = canon (model_dump r') -> r = r'.
Proof.
  intros H. unfold model_dump in H.
  pose proof (fun i j k v w => canon_member _ _ i j k v w H ltac:(apply (bool_decide_unpack _); reflexivity)) as M.
  pose proof (M 0%nat 0%nat _ _ _ eq_refl eq_refl) as [= E1].
  pose proof (M 1%nat 1%nat _ _ _ eq_refl eq_refl) as [= E2].
  pose proof (M 2%nat 2%nat _ _ _ eq_refl eq_refl) as E3.
  pose proof (M 3%nat 3%nat _ _ _ eq_refl eq_refl) as E4.
  pose proof (M 4%nat 4%nat _ _ _ eq_refl eq_refl) as [= E5].
  apply json_of_opt_inj in E3; [|by intros ?? [=]|done]. apply json_of_opt_inj in E4; [|by intros ?? [=]|done].
  destruct r, r'; simpl in *. by subst.
Qed.

Definition collision : Prop := exists x y, x <> y /\ sha256 x = sha256 y.

(** Equal fingerprints are fingerprints of the same request. *)
Lemma fingerprint_request r r' :
  texts_ok r = true -> texts_ok r' = true -> _fingerprint (model_dump r) = _fingerprint (model_dump r') ->
  r = r' \/ collision.
Proof.
  intros Hr Hr' H. apply u_inj in H.
  assert (E : sha256 (ascii_bytes (dumps (model_dump r))) = sha256 (ascii_bytes (dumps (model_dump r')))).
  { apply (hex_prefix_inj _ _ "" ""); [by rewrite !length_sha256|by rewrite H]. }
  destruct (decide (ascii_bytes (dumps (model_dump r)) = ascii_bytes (dumps (model_dump r')))) as [Eb|Nb].
  - left. apply model_dump_inj, dumps_inj; [done|done|]. by apply list_byte_inj.
  - right. by eexists _, _.
Qed.

Lemma fingerprint_compare a b :
  compare_digest (_fingerprint a) (_fingerprint b) = Ok (bool_decide (_fingerprint a = _fingerprint b)).
Proof. unfold compare_digest, _fingerprint. by rewrite !u_ascii by apply ascii_hex. Qed.

(** Runs a request up to the next test the answers decide. *)
Ltac step_exec := cbn -[decide_slot completed_record lookup_slot _redis_key _fingerprint].

(** A request whose key already has a stored answer gets that answer
    exactly when it is the stored request in every field, and 409 otherwise,
    unless SHA-256 has a collision; the store is left as it was. *)
Theorem replay_is_same_request cfg api k req req' w ts v e c :
  texts_ok req = true -> texts_ok req' = true ->
  slots w !! _redis_key api k = Some (completed_record (_fingerprint (model_dump req)) ts 200 v, e) ->
  now w < e -> v <> JNull -> c_client c = true -> c_fault c = NoFault ->
  exec c (send_onchain cfg api (Some k) req') w =
    (if bool_decide (req' = req) then Ok v else Err (HTTPException 409), w) \/ collision.
Proof.
  intros Hr Hr' Hs Ht Hv Hcl Hf.
  assert (Hl : lookup_slot w (_redis_key api k) = Some (completed_record (_fingerprint (model_dump req)) ts 200 v)).
  { unfold lookup_slot. rewrite Hs. by rewrite (proj2 (Z.ltb_lt _ _)). }
  assert (Hx : forall p : option json -> rprog json,
    exec c (cached <-- lookup_or_reserve (rate_limit_fail_policy cfg) api k (model_dump req') _INFLIGHT_TTL; p cached) w =
    if bool_decide (_fingerprint (model_dump req) = _fingerprint (model_dump req'))
    then exec c (p (Some v)) w else (Err (HTTPException 409), w)).
  { intros p. unfold lookup_or_reserve. step_exec. rewrite Hcl.
    step_exec. rewrite Hf. unfold _RESERVE_LUA. step_exec.
    rewrite Hl. step_exec. rewrite decide_completed, fingerprint_compare.
    case_bool_decide; [|done]. by destruct v. }
  unfold send_onchain. rewrite Hx. case_bool_decide as E.
  - destruct (fingerprint_request _ _ Hr Hr' E) as [<-|Hc]; [|by right]. left. by rewrite bool_decide_true.
  - left. rewrite bool_decide_false; [done|]. by intros ->.
Qed.

(** A stored answer, replayed by the same request and by one for another
    amount. *)
Definition stored_world : world :=
  mkWorld {[_redis_key (u "api") example_key :=
              (completed_record (_fingerprint (model_dump example_req)) 0 200 example_data, 86400)]} 60 1 0 [] 0 [].

Lemma replay_is_same_request_witness :
  exec quiet (send_onchain example_cfg (u "api") (Some example_key) other_req) stored_world =
    (if bool_decide (other_req = example_req) then Ok example_data else Err (HTTPException 409), stored_world) \/ collision.
Proof.
  apply (replay_is_same_request example_cfg (u "api") example_key example_req other_req stored_world 0 example_data 86400);
    try reflexivity; discriminate.
Defined.
