(* ===== verification/Swap.v ===== *)
(** * Reverse swaps to cold storage

    services/boltz_service.py, tasks/boltz_tasks.py, models/boltz_swap.py and
    the LND calls they use: a Lightning payment to Boltz against an on-chain
    lockup that the wallet claims. A row of the table [boltz_swaps] is
    advanced by background tasks and by operators' requests at the same time;
    each loads the row into its own session, changes the object it loaded and
    commits. The programs below are the coroutines with every [await] that
    leaves the process as a call: to the database, Boltz, LND, the chain
    backend, and the Node.js script that builds and broadcasts a claim. *)
From S2P Require Import Prelude Prog Bytes Bech32 Bolt11 TxPolicy ScriptPubKey PyInt Utf8 Json PyJson PyFloat.

(** ** Text *)

Definition upper_text (s : ustr) : ustr := map (fun c => if (97 <=? c) && (c <=? 122) then c - 32 else c) s.

(** [text in (a, b, ...)] of a JSON value *)
Definition one_of (v : json) (l : list string) : bool := existsb (fun s => is_jstr v (u s)) l.

(** The message of an exception, where it is a literal. *)
Definition exn_text (e : exn) : ustr :=
  match e with
  | ValueError m | KeyError m | OverflowError m | TypeError m | RuntimeError m => u m
  | _ => []
  end.

(** ** The row *)

Inductive SwapStatus :=
  | CREATED | PAYING_INVOICE | INVOICE_PAID | CLAIMING | CLAIMED | COMPLETED | FAILED | CANCELLED | REFUNDED.

Global Instance SwapStatus_eq_dec : EqDecision SwapStatus.
Proof. solve_decision. Defined.

Definition value (s : SwapStatus) : ustr :=
  u match s with
    | CREATED => "created" | PAYING_INVOICE => "paying_invoice" | INVOICE_PAID => "invoice_paid"
    | CLAIMING => "claiming" | CLAIMED => "claimed" | COMPLETED => "completed" | FAILED => "failed"
    | CANCELLED => "cancelled" | REFUNDED => "refunded"
    end.

Definition among (s : SwapStatus) (l : list SwapStatus) : bool := bool_decide (s ∈ l).

(** The columns written when the swap is created. *)
Record terms := mkTerms {
  boltz_swap_id : ustr; invoice_amount_sats : Z; onchain_amount_sats : option Z; destination_address : ustr;
  boltz_invoice : option ustr; boltz_lockup_address : option ustr; timeout_block_height : option Z;
  outgoing_chan_id : option ustr
}.

(** The columns that change. Instants are in microseconds; the entries of
    [status_history] hold the instant itself where the source writes its ISO
    text. *)
Record BoltzSwap := mkSwap {
  swap_terms : terms;
  status : SwapStatus; boltz_status : json; error_message : option ustr; status_history : option (list json);
  lnd_payment_hash : option ustr; claim_txid : option ustr; lockup_txid : option ustr;
  recovery_attempted_at : option Z; recovery_count : Z; updated_at : Z; completed_at : option Z;
  claim_broadcast_at : option Z; lockup_broadcast_at : option Z
}.

Definition set_status (v : SwapStatus) (s : BoltzSwap) : BoltzSwap :=
  mkSwap (swap_terms s) v (boltz_status s) (error_message s) (status_history s) (lnd_payment_hash s)
    (claim_txid s) (lockup_txid s) (recovery_attempted_at s) (recovery_count s) (updated_at s) (completed_at
    s) (claim_broadcast_at s) (lockup_broadcast_at s).
Definition set_boltz_status (v : json) (s : BoltzSwap) : BoltzSwap :=
  mkSwap (swap_terms s) (status s) v (error_message s) (status_history s) (lnd_payment_hash s) (claim_txid s)
    (lockup_txid s) (recovery_attempted_at s) (recovery_count s) (updated_at s) (completed_at s)
    (claim_broadcast_at s) (lockup_broadcast_at s).
Definition set_error_message (v : option ustr) (s : BoltzSwap) : BoltzSwap :=
  mkSwap (swap_terms s) (status s) (boltz_status s) v (status_history s) (lnd_payment_hash s) (claim_txid s)
    (lockup_txid s) (recovery_attempted_at s) (recovery_count s) (updated_at s) (completed_at s)
    (claim_broadcast_at s) (lockup_broadcast_at s).
Definition set_status_history (v : option (list json)) (s : BoltzSwap) : BoltzSwap :=
  mkSwap (swap_terms s) (status s) (boltz_status s) (error_message s) v (lnd_payment_hash s) (claim_txid s)
    (lockup_txid s) (recovery_attempted_at s) (recovery_count s) (updated_at s) (completed_at s)
    (claim_broadcast_at s) (lockup_broadcast_at s).
Definition set_lnd_payment_hash (v : option ustr) (s : BoltzSwap) : BoltzSwap :=
  mkSwap (swap_terms s) (status s) (boltz_status s) (error_message s) (status_history s) v (claim_txid s)
    (lockup_txid s) (recovery_attempted_at s) (recovery_count s) (updated_at s) (completed_at s)
    (claim_broadcast_at s) (lockup_broadcast_at s).
Definition set_claim_txid (v : option ustr) (s : BoltzSwap) : BoltzSwap :=
  mkSwap (swap_terms s) (status s) (boltz_status s) (error_message s) (status_history s) (lnd_payment_hash s)
    v (lockup_txid s) (recovery_attempted_at s) (recovery_count s) (updated_at s) (completed_at s)
    (claim_broadcast_at s) (lockup_broadcast_at s).
Definition set_lockup_txid (v : option ustr) (s : BoltzSwap) : BoltzSwap :=
  mkSwap (swap_terms s) (status s) (boltz_status s) (error_message s) (status_history s) (lnd_payment_hash s)
    (claim_txid s) v (recovery_attempted_at s) (recovery_count s) (updated_at s) (completed_at s)
    (claim_broadcast_at s) (lockup_broadcast_at s).
Definition set_recovery_attempted_at (v : option Z) (s : BoltzSwap) : BoltzSwap :=
  mkSwap (swap_terms s) (status s) (boltz_status s) (error_message s) (status_history s) (lnd_payment_hash s)
    (claim_txid s) (lockup_txid s) v (recovery_count s) (updated_at s) (completed_at s) (claim_broadcast_at s)
    (lockup_broadcast_at s).
Definition set_recovery_count (v : Z) (s : BoltzSwap) : BoltzSwap :=
  mkSwap (swap_terms s) (status s) (boltz_status s) (error_message s) (status_history s) (lnd_payment_hash s)
    (claim_txid s) (lockup_txid s) (recovery_attempted_at s) v (updated_at s) (completed_at s)
    (claim_broadcast_at s) (lockup_broadcast_at s).
Definition set_updated_at (v : Z) (s : BoltzSwap) : BoltzSwap :=
  mkSwap (swap_terms s) (status s) (boltz_status s) (error_message s) (status_history s) (lnd_payment_hash s)
    (claim_txid s) (lockup_txid s) (recovery_attempted_at s) (recovery_count s) v (completed_at s)
    (claim_broadcast_at s) (lockup_broadcast_at s).
Definition set_completed_at (v : option Z) (s : BoltzSwap) : BoltzSwap :=
  mkSwap (swap_terms s) (status s) (boltz_status s) (error_message s) (status_history s) (lnd_payment_hash s)
    (claim_txid s) (lockup_txid s) (recovery_attempted_at s) (recovery_count s) (updated_at s) v
    (claim_broadcast_at s) (lockup_broadcast_at s).
Definition set_claim_broadcast_at (v : option Z) (s : BoltzSwap) : BoltzSwap :=
  mkSwap (swap_terms s) (status s) (boltz_status s) (error_message s) (status_history s) (lnd_payment_hash s)
    (claim_txid s) (lockup_txid s) (recovery_attempted_at s) (recovery_count s) (updated_at s) (completed_at
    s) v (lockup_broadcast_at s).
Definition set_lockup_broadcast_at (v : option Z) (s : BoltzSwap) : BoltzSwap :=
  mkSwap (swap_terms s) (status s) (boltz_status s) (error_message s) (status_history s) (lnd_payment_hash s)
    (claim_txid s) (lockup_txid s) (recovery_attempted_at s) (recovery_count s) (updated_at s) (completed_at
    s) (claim_broadcast_at s) v.

(** An assignment to [claim_txid] runs [_stamp_claim_broadcast_at]. *)
Definition assign_claim_txid (v : option ustr) (t : Z) (s : BoltzSwap) : BoltzSwap :=
  let s' := if nonempty v && negb (bool_decide (claim_txid s = v)) && bool_decide (claim_broadcast_at s = None)
            then set_claim_broadcast_at (Some t) s else s in
  set_claim_txid v s'.

(** and one to [lockup_txid] runs [_stamp_lockup_broadcast_at]. *)
Definition assign_lockup_txid (v : option ustr) (t : Z) (s : BoltzSwap) : BoltzSwap :=
  let s' := if nonempty v && negb (bool_decide (lockup_txid s = v)) && bool_decide (lockup_broadcast_at s = None)
            then set_lockup_broadcast_at (Some t) s else s in
  set_lockup_txid v s'.

(** [history = swap.status_history or []; history.append(entry)] *)
Definition append_history (entry : json) (s : BoltzSwap) : BoltzSwap :=
  set_status_history (Some (default [] (status_history s) ++ [entry])) s.

Definition TRANSIENT : ustr := u "Payment attempt encountered a transient".

(** [if swap.error_message and swap.error_message.startswith(...): swap.error_message = None] *)
Definition clear_transient (s : BoltzSwap) : BoltzSwap :=
  if nonempty (error_message s) && startswith TRANSIENT (default [] (error_message s))
  then set_error_message None s else s.

(** ** Calls *)

Record utxo := mkUtxo { utxo_address : ustr; utxo_txid : ustr }.

Inductive mode := Cooperative | Unilateral.

(** Starting the claim script: it is not there, Node.js is not there, it
    runs. *)
Inductive spawned := NoScript | NoNode | Running.

(** Its end; the output as text, as one JSON value and line by line. *)
Inductive script_end :=
  | TimedOut
  | Exited (returncode : Z) (stdout : ustr) (parsed : option json) (lines : list (option json)) (stderr : ustr).

(** A streamed reply of LND: an error status, or lines (those that are not
    JSON are [None]) and the exception that cut them short. *)
Inductive broken := Transport (e : ustr) | Other (e : ustr).
Inductive stream :=
  | Status (status_code : Z) (text : ustr)
  | Lines (lines : list (option json)) (cut : option broken).

(** [swap] in a database call is the session's object: its changed columns
    are flushed first. [labels] are the [UtxoLabel] rows added. *)
Inductive call : Type -> Type :=
  | D_select : call (option BoltzSwap)
  | D_commit (swap : BoltzSwap) (labels : list ustr) : call unit
  | D_lock_claim_txid (swap : BoltzSwap) : call (option ustr)       (** [SELECT claim_txid ... FOR UPDATE] *)
  | D_claim_txid (swap : BoltzSwap) : call (option ustr)
  | D_close : call unit
  | utc_now : call Z
  | B_status (boltz_swap_id : ustr) : call (option json * option ustr)
  | B_transaction (boltz_swap_id : ustr) : call (option json * option ustr)
  | M_verify_tx (txid : ustr) : call json
  | M_confirmations (txid : ustr) : call json
  | L_list_unspent : call (list utxo * option ustr)
  | L_payments : call (option json * option ustr)                   (** [GET /v1/payments] *)
  | L_send (body : json) : call bool                                (** the breaker lets it pass: it leaves for LND *)
  | L_stream : call stream
  | N_spawn (m : mode) (lockup_tx_hex : json) : call spawned
  | N_wait : call script_end
  | A_alert : call unit
  | T_delay (routing_fee_limit_percent : float) : call unit.        (** [process_boltz_swap.delay] *)

Abbreviation rprog A := (Prog.prog call (result A)).

(** ** LND *)

(** [v or w] *)
Definition or_else (v w : json) : json := if truthy v then v else w.

Definition lift {A} (r : result A) : rprog A := Return r.

(** [d[k]] of the answer; only a dict has [get]. *)
Definition getk (d : json) (k : string) : rprog json := lift (py_get d (u k) JNull).

(** The items of a value a [for] loop walks. *)
Definition iter_items (v : json) : result (list json) :=
  match v with
  | JList l => Ok l
  | JStr s => Ok (map (fun c => JStr [c]) s)
  | JDict d => Ok (map (fun kv => JStr kv.1) d)
  | _ => Err (TypeError "object is not iterable")
  end.

Definition payment_lookup (status fee_sat payment_preimage value_sat : json) (payment_hash : ustr) : json :=
  JDict [(u "status", status); (u "payment_hash", JStr payment_hash); (u "fee_sat", fee_sat);
         (u "payment_preimage", payment_preimage); (u "value_sat", value_sat)].

Fixpoint find_payment (ps : list json) (payment_hash : ustr) : result (option json) :=
  match ps with
  | [] => Ok None
  | p :: ps =>
      h ← py_get p (u "payment_hash") JNull;
      if is_jstr h payment_hash then
        st ← py_get p (u "status") (JStr (u "UNKNOWN"));
        fee ← py_get p (u "fee_sat") (JInt 0); fee ← int_of_json fee;
        pre ← py_get p (u "payment_preimage") (JStr []);
        amt ← py_get p (u "value_sat") (JInt 0); amt ← int_of_json amt;
        Ok (Some (payment_lookup st (JInt fee) pre (JInt amt) payment_hash))
      else find_payment ps payment_hash
  end.

(** Of the payments LND lists, the newest hundred are searched. *)
Definition lookup_payment (payment_hash_hex : ustr) : rprog (option json * option ustr) :=
  res <-- perform L_payments;
  let '(data, error) := res in
  if nonempty error then value_of (None, error)
  else match data with
       | None => raise AssertionError
       | Some data =>
           match data with
           | JDict d =>
               if truthy data && bool_decide (is_Some (assoc (u "payments") d)) then
                 ps <-- lift (iter_items (dget d (u "payments")));
                 found <-- lift (find_payment ps payment_hash_hex);
                 value_of (Some (default (payment_lookup (JStr (u "UNKNOWN")) (JInt 0) (JStr []) (JInt 0) payment_hash_hex)
                                   found), None)
               else value_of (None, Some (u "Failed to query payments from LND"))
           | _ => if truthy data then raise (TypeError "argument is not iterable")
                  else value_of (None, Some (u "Failed to query payments from LND"))
           end
       end.

(** What the loop over the streamed lines ends with. *)
Inductive stream_result :=
  | Terminal (result : json)
  | Inline (last_error : ustr)
  | NoTerminal
  | Raised (e : broken).

(** [str(payload["error"].get("message") or payload["error"])]; the text of
    a value that is not text is left out. *)
Definition error_text (e : json) : option ustr :=
  match e with
  | JDict d => Some (match or_else (dget d (u "message")) e with JStr s => s | _ => [] end)
  | _ => None
  end.

Fixpoint walk_lines (lines : list (option json)) (cut : option broken) : stream_result :=
  match lines with
  | [] => match cut with Some e => Raised e | None => NoTerminal end
  | None :: lines => walk_lines lines cut
  | Some payload :: lines =>
      match payload with
      | JDict d =>
          if truthy (dget d (u "error")) then
            match error_text (dget d (u "error")) with
            | Some msg => Inline msg
            | None => Raised (Other [])
            end
          else
            match or_else (dget d (u "result")) payload with
            | JDict r =>
                if one_of (dget r (u "status")) ["SUCCEEDED"; "FAILED"] then Terminal (JDict r)
                else walk_lines lines cut
            | _ => Raised (Other [])
            end
      | _ => Raised (Other [])
      end
  end.

Definition failure_reason (r : list (ustr * json)) : ustr :=
  match or_else (dget r (u "failure_reason")) (JStr (u "FAILED")) with JStr s => s | _ => [] end.

(** [[h for h in htlcs if h.get("status") == "SUCCEEDED"]] *)
Fixpoint succeeded_htlcs (htlcs : list json) : result (list json) :=
  match htlcs with
  | [] => Ok []
  | h :: htlcs =>
      st ← py_get h (u "status") JNull;
      rest ← succeeded_htlcs htlcs;
      Ok (if is_jstr st (u "SUCCEEDED") then h :: rest else rest)
  end.

Definition len_of (v : json) : result Z :=
  match v with
  | JList l => Ok (Z.of_nat (length l))
  | JDict d => Ok (Z.of_nat (length d))
  | JStr s => Ok (Z.of_nat (length s))
  | _ => Err (TypeError "object has no len()")
  end.

(** The result of a payment that succeeded. *)
Definition rebalance_result (r : list (ustr * json)) (duration_ms : Z) : result json :=
  htlcs ← match or_else (dget r (u "htlcs")) (JList []) with JList l => Ok l | _ => Err (TypeError "htlcs") end;
  succeeded ← succeeded_htlcs htlcs;
  let chosen := match last succeeded with
                | Some h => h
                | None => match last htlcs with Some h => h | None => JDict [] end
                end in
  route ← py_get chosen (u "route") JNull;
  let route := or_else route (JDict []) in
  hops ← py_get route (u "hops") JNull;
  hops ← len_of (or_else hops (JList []));
  total_fees_msat ← py_get route (u "total_fees_msat") JNull;
  fee_msat ← int_of_json (or_else (or_else (dget r (u "fee_msat")) total_fees_msat) (JInt 0));
  value_sat ← int_of_json (or_else (dget r (u "value_sat")) (JInt 0));
  Ok (JDict [(u "payment_hash", default (JStr []) (assoc (u "payment_hash") r));
             (u "payment_preimage", default (JStr []) (assoc (u "payment_preimage") r));
             (u "amount_sats", JInt value_sat); (u "fee_sats", JInt (fee_msat / 1000)); (u "fee_msat", JInt fee_msat);
             (u "hops", JInt hops); (u "duration_ms", JInt duration_ms)]).

Definition pay_body (payment_request : ustr) (chan : option ustr) (fee_limit_sats timeout_seconds : Z)
    (max_parts : option Z) : json :=
  JDict ([(u "payment_request", JStr payment_request); (u "fee_limit_sat", JStr (u (str_of_int fee_limit_sats)));
          (u "timeout_seconds", JInt timeout_seconds); (u "allow_self_payment", JBool true);
          (u "no_inflight_updates", JBool true)] ++
         if nonempty chan then
           [(u "outgoing_chan_ids", JList [JStr (default [] chan)]); (u "max_parts", JInt 1)]
         else match max_parts with
              | Some n => if 0 <? n then [(u "max_parts", JInt n)] else []
              | None => []
              end).

Definition PAYMENT_FAILED : ustr := u "Payment failed: ".

(** [send_payment_v2] without [ignored_pairs] and [last_hop_pubkey_hex] *)
Definition send_payment_v2 (payment_request : ustr) (chan : option ustr) (fee_limit_sats timeout_seconds : Z)
    (max_parts : option Z) : rprog (option json * option ustr) :=
  pass <-- perform (L_send (pay_body payment_request chan fee_limit_sats timeout_seconds max_parts));
  if negb pass then value_of (None, Some (u "LND temporarily unavailable (circuit breaker open)"))
  else
    start <-- perform utc_now;
    reply <-- perform L_stream;
    match reply with
    | Status code text => value_of (None, Some (u "LND error (" ++ u (str_of_int code) ++ u "): " ++ take 500 text))
    | Lines lines cut =>
        match walk_lines lines cut with
        | Raised (Transport e) => value_of (None, Some (u "Connection failed: " ++ e))
        | Raised (Other e) => value_of (None, Some (u "Request failed: " ++ e))
        | NoTerminal => value_of (None, Some (u "Payment did not reach a terminal state"))
        | Inline e => value_of (None, Some (match e with [] => u "Payment did not reach a terminal state" | _ => e end))
        | Terminal (JDict r) =>
            fin <-- perform utc_now;
            if negb (is_jstr (dget r (u "status")) (u "SUCCEEDED"))
            then value_of (None, Some (PAYMENT_FAILED ++ failure_reason r))
            else
              out <-- lift (rebalance_result r ((fin - start) / 1000));
              value_of (Some out, None)
        | Terminal _ => raise AttributeError
        end
    end.

(** ** BoltzSwapService *)

(** What the programs read of [settings] and of the process: the network,
    and [boltz_payment_max_parts]. *)
Record config := mkConfig { bitcoin_network : string; boltz_payment_max_parts : Z }.

Definition _tx_pays_address (verified_tx : json) (expected_address : ustr) : result bool :=
  match strip expected_address with
  | [] => Ok false
  | expected =>
      vout ← py_get verified_tx (u "vout") JNull;
      vs ← iter_items (or_else vout (JList []));
      Ok (existsb (fun v => match v with
                            | JDict d => is_jstr (or_else (dget d (u "scriptpubkey_address")) (dget d (u "address"))) expected
                            | _ => false
                            end) vs)
  end.

(** [(status, data, error)] *)
Definition get_swap_status_from_boltz (boltz_swap_id : ustr) : rprog (json * json * option ustr) :=
  res <-- perform (B_status boltz_swap_id);
  let '(data, error) := res in
  if nonempty error then value_of (JNull, JNull, error)
  else match data with
       | None => raise AssertionError
       | Some data => st <-- getk data "status"; value_of (st, data, None)
       end.

Definition get_lockup_transaction (boltz_swap_id : ustr) : rprog (json * option ustr) :=
  res <-- perform (B_transaction boltz_swap_id);
  let '(data, error) := res in
  if nonempty error then value_of (JNull, error)
  else match data with
       | None => raise AssertionError
       | Some data =>
           h <-- getk data "hex";
           if truthy h then value_of (h, None)
           else th <-- getk data "transactionHex"; value_of (th, None)
       end.

(** *** Claims *)

Definition claim_band (onchain : Z) : Z * Z :=
  if 0 <? onchain then (Z.max 1 (onchain - 25000), onchain * 2) else (1, 21000000 * 100000000).

(** [bytes.fromhex] takes text only. *)
Definition claim_output_ok (spk tx_hex : json) (band : Z * Z) : result unit :=
  match spk, tx_hex with
  | JStr spk, JStr tx => validate_cooperative_claim_tx (String.string_of_list_ascii (latin tx)) (String.string_of_list_ascii (latin spk)) band None
  | _, _ => Err (TypeError "fromhex() argument must be str")
  end.

(** An error text when the claim pays elsewhere. The check is skipped when
    no script can be derived; any exception but [ClaimTxValidationError]
    escapes. *)
Definition _verify_claim_output (cfg : config) (swap : BoltzSwap) (tx_hex : json) : rprog (option ustr) :=
  match address_to_script_pubkey (latin (destination_address (swap_terms swap))) (bitcoin_network cfg) with
  | Err _ => value_of None
  | Ok spk =>
      let onchain := default 0 (onchain_amount_sats (swap_terms swap)) in
      match claim_output_ok (JStr (u (hex spk))) tx_hex (claim_band onchain) with
      | Ok _ => value_of None
      | Err (ClaimTxValidationError m) =>
          _ <-- except (perform A_alert) (fun _ => value_of tt);
          value_of (Some (u "claim output validation failed: " ++ u m))
      | Err e => raise e
      end
  end.

(** The end of a claim whose output names a txid. One that is not text, which
    the scripts do not print, fails here rather than at the commit that
    would store it. *)
Definition checked_txid (cfg : config) (swap : BoltzSwap) (txid tx_hex : json) : rprog (option ustr * option ustr) :=
  verr <-- (if truthy tx_hex then _verify_claim_output cfg swap tx_hex else value_of None);
  if nonempty verr then value_of (None, verr)
  else match txid with
       | JStr s => value_of (Some s, None)
       | _ => raise (TypeError "claim txid is not text")
       end.

(** Error texts that quote the surroundings (a path, a time limit, what the
    script printed as JSON) stop where the quotation starts. *)
Definition cooperative_claim (cfg : config) (swap : BoltzSwap) (lockup_tx_hex : json) : rprog (option ustr * option ustr) :=
  sp <-- perform (N_spawn Cooperative lockup_tx_hex);
  match sp with
  | NoScript => value_of (None, Some (u "Claim script not found at "))
  | NoNode => value_of (None, Some (u "Node.js not found for claim script execution"))
  | Running =>
      fin <-- perform N_wait;
      match fin with
      | TimedOut => value_of (None, Some (u "Claim script timed out ("))
      | Exited code stdout parsed _ stderr =>
          if negb (code =? 0) then value_of (None, Some (u "Claim script failed: " ++ take 500 stderr))
          else match parsed with
               | None => value_of (None, Some (u "Claim script returned invalid JSON: " ++ take 500 stdout))
               | Some output =>
                   txid <-- getk output "txid";
                   if negb (truthy txid) then value_of (None, Some (u "Claim script returned no txid: "))
                   else tx_hex <-- getk output "txHex"; checked_txid cfg swap txid tx_hex
               end
      end
  end.

(** The first line that is a dict with a txid. *)
Fixpoint claim_line (lines : list (option json)) : option (json * json) :=
  match lines with
  | [] => None
  | Some (JDict d) :: lines =>
      if truthy (dget d (u "txid")) then Some (dget d (u "txid"), dget d (u "txHex")) else claim_line lines
  | _ :: lines => claim_line lines
  end.

Definition unilateral_claim (cfg : config) (swap : BoltzSwap) (lockup_tx_hex : json) : rprog (option ustr * option ustr) :=
  sp <-- perform (N_spawn Unilateral lockup_tx_hex);
  match sp with
  | NoScript => value_of (None, Some (u "Claim script not found at "))
  | NoNode => value_of (None, Some (u "Node.js not found for unilateral claim script execution"))
  | Running =>
      fin <-- perform N_wait;
      match fin with
      | TimedOut => value_of (None, Some (u "Unilateral claim script timed out ("))
      | Exited code stdout _ lines stderr =>
          if negb (code =? 0) then value_of (None, Some (u "Unilateral claim script failed: " ++ take 500 stderr))
          else match claim_line lines with
               | Some (txid, tx_hex) => checked_txid cfg swap txid tx_hex
               | None => value_of (None, Some (u "Unilateral claim script returned no txid: " ++ take 500 stdout))
               end
      end
  end.

(** The body the two operator retries share after their guards: fetch the
    lockup, take the row lock, run [claim], record it. *)
Definition claim_under_lock (claim : BoltzSwap -> json -> rprog (option ustr * option ustr)) (swap : BoltzSwap)
    : rprog (BoltzSwap * (option ustr * option ustr)) :=
  lockup <-- get_lockup_transaction (boltz_swap_id (swap_terms swap));
  let '(lockup_hex, lockup_err) := lockup in
  if nonempty lockup_err || negb (truthy lockup_hex) then
    value_of (swap, (None, Some (if nonempty lockup_err then default [] lockup_err else u "Lockup transaction unavailable")))
  else
    existing <-- perform (D_lock_claim_txid swap);
    if nonempty existing then
      t <-- perform utc_now;
      let swap := set_status CLAIMED (assign_claim_txid existing t swap) in
      _ <-- perform (D_commit swap []);
      value_of (swap, (existing, None))
    else
      out <-- claim swap lockup_hex;
      let '(txid, claim_err) := out in
      if nonempty claim_err then
        t <-- perform utc_now;
        let swap := set_error_message claim_err
                      (set_recovery_attempted_at (Some t) (set_recovery_count (recovery_count swap + 1) swap)) in
        _ <-- perform (D_commit swap []);
        value_of (swap, (None, claim_err))
      else
        post_existing <-- perform (D_claim_txid swap);
        t <-- perform utc_now;
        let swap := assign_claim_txid (if nonempty post_existing then post_existing else txid) t swap in
        let swap := set_error_message None (set_status CLAIMED swap) in
        _ <-- perform (D_commit swap []);
        value_of (swap, (claim_txid swap, None)).

Definition retry_cooperative_claim (cfg : config) (swap : BoltzSwap) : rprog (BoltzSwap * (option ustr * option ustr)) :=
  if nonempty (claim_txid swap) then value_of (swap, (claim_txid swap, None))
  else if negb (bool_decide (status swap = CLAIMING)) then
    value_of (swap, (None, Some (u "Swap is in status " ++ value (status swap) ++
      u "; cooperative claim retry is only valid while the swap is claiming.")))
  else claim_under_lock (cooperative_claim cfg) swap.

Definition retry_unilateral_claim (cfg : config) (swap : BoltzSwap) (btc_tip_height : option Z)
    : rprog (BoltzSwap * (option ustr * option ustr)) :=
  if nonempty (claim_txid swap) then value_of (swap, (claim_txid swap, None))
  else if negb (among (status swap) [CLAIMING; INVOICE_PAID]) then
    value_of (swap, (None, Some (u "Swap is in status " ++ value (status swap) ++
      u "; unilateral claim is only valid for swaps with funds in the lockup.")))
  else match timeout_block_height (swap_terms swap), btc_tip_height with
       | None, _ => value_of (swap, (None, Some (u "Swap has no recorded timeout height; cannot verify safety.")))
       | Some _, None =>
           value_of (swap, (None, Some (u "Chain tip is unavailable; cannot verify the lockup timeout has passed. Refusing the unilateral claim until the tip is known.")))
       | Some timeout, Some tip =>
           if tip <? timeout then
             value_of (swap, (None, Some (u "Lockup timeout has not passed yet (" ++ u (str_of_int (timeout - tip)) ++
               u " blocks remaining). Use the cooperative claim retry instead.")))
           else claim_under_lock (unilateral_claim cfg) swap
       end.

(** *** The lifecycle *)

(** The loop over the wallet's outputs; it swallows every exception. *)
Fixpoint backfill_from (utxos : list utxo) (t : Z) (swap : BoltzSwap) : BoltzSwap :=
  match utxos with
  | [] => swap
  | x :: utxos =>
      if negb (bool_decide (utxo_address x = destination_address (swap_terms swap))) then backfill_from utxos t swap
      else if negb (nonempty (Some (utxo_txid x))) then backfill_from utxos t swap
      else
        let swap := assign_claim_txid (Some (utxo_txid x)) t swap in
        match claim_broadcast_at swap with None => set_claim_broadcast_at (Some t) swap | Some _ => swap end
  end.

Definition _backfill_claim_txid_from_wallet (swap : BoltzSwap) : rprog BoltzSwap :=
  if nonempty (claim_txid swap) || negb (nonempty (Some (destination_address (swap_terms swap)))) then value_of swap
  else
    except
      (res <-- perform L_list_unspent;
       let '(utxos, err) := res in
       if nonempty err then value_of swap
       else t <-- perform utc_now; value_of (backfill_from utxos t swap))
      (fun _ => value_of swap).

(** The status Boltz reports is written on the row. *)
Definition record_boltz_status (st : json) (swap : BoltzSwap) : rprog BoltzSwap :=
  t <-- perform utc_now;
  let changed := negb (bool_decide (st = boltz_status swap)) in
  let swap := set_updated_at t (set_boltz_status st swap) in
  if changed then
    t <-- perform utc_now;
    value_of (append_history
      (JDict [(u "status", JStr (value (status swap))); (u "boltz_status", st); (u "timestamp", JInt t)]) swap)
  else value_of swap.

Definition REFUND_MESSAGE : ustr :=
  u "Boltz refunded the on-chain lockup. The on-chain leg of this swap did not complete; your Lightning HTLC will be cancelled and your sats remain in your channel balance. No further action required.".

Definition MISMATCH_MESSAGE : ustr :=
  u "Independent verification found the Boltz lockup transaction does not pay the address committed at swap creation; the claim is withheld pending operator review.".

(** [confs and (confs.get("confirmations") or 0) >= 3] *)
Definition settled_enough (confs : json) : result bool :=
  if negb (truthy confs) then Ok false
  else
    n ← py_get confs (u "confirmations") JNull;
    match or_else n (JInt 0) with
    | JInt n => Ok (3 <=? n)
    | JBool b => Ok (3 <=? (if b then 1 else 0))
    | _ => Err (TypeError "'>=' not supported")
    end.

Definition confirm_claim (swap : BoltzSwap) : rprog BoltzSwap :=
  except
    (confs <-- perform (M_confirmations (default [] (claim_txid swap)));
     enough <-- lift (settled_enough confs);
     if enough : bool then
       t <-- perform utc_now; value_of (set_completed_at (Some t) (set_status COMPLETED swap))
     else value_of swap)
    (fun _ => value_of swap).

(** [(boltz_data or {}).get("transaction") or {}], then [.get("id")] of a
    dict *)
Definition lockup_id_of (boltz_data : json) : result json :=
  tx ← py_get (or_dict boltz_data) (u "transaction") JNull;
  Ok (match or_dict tx with JDict d => dget d (u "id") | _ => JNull end).

(** The independent check of the lockup: the row with its [lockup_txid], and
    whether the lockup pays another address. *)
Definition verify_lockup (boltz_data : json) (swap : BoltzSwap) : rprog (BoltzSwap * bool) :=
  match lockup_id_of boltz_data with
  | Err _ => value_of (swap, false)
  | Ok (JStr lockup_id) =>
      if negb (length lockup_id =? 64)%nat then value_of (swap, false)
      else
        t <-- perform utc_now;
        let swap := if nonempty (lockup_txid swap) then swap else assign_lockup_txid (Some lockup_id) t swap in
        except
          (verified <-- perform (M_verify_tx lockup_id);
           match verified with
           | JNull => value_of (swap, false)
           | _ =>
               if nonempty (boltz_lockup_address (swap_terms swap)) then
                 pays <-- lift (_tx_pays_address verified (default [] (boltz_lockup_address (swap_terms swap))));
                 value_of (swap, negb pays)
               else value_of (swap, false)
           end)
          (fun _ => value_of (swap, false))
  | Ok _ => value_of (swap, false)
  end.

Definition finish (swap : BoltzSwap) (labels : list ustr) : rprog (BoltzSwap * option ustr) :=
  _ <-- perform (D_commit swap labels); value_of (swap, None).

(** [if swap.status == CLAIMING and not swap.claim_txid: ...] *)
Definition claim_lockup (cfg : config) (swap : BoltzSwap) : rprog (BoltzSwap * option ustr) :=
  lockup <-- get_lockup_transaction (boltz_swap_id (swap_terms swap));
  let '(lockup_hex, lockup_err) := lockup in
  if nonempty lockup_err then
    _ <-- perform (D_commit swap []); value_of (swap, lockup_err)
  else
    pre_claim_existing <-- perform (D_lock_claim_txid swap);
    if nonempty pre_claim_existing then
      t <-- perform utc_now;
      value_of (set_status CLAIMED (assign_claim_txid pre_claim_existing t swap), None)
    else
      out <-- cooperative_claim cfg swap lockup_hex;
      let '(txid, claim_err) := out in
      if nonempty claim_err then
        t <-- perform utc_now;
        let swap := set_recovery_attempted_at (Some t) (set_recovery_count (recovery_count swap + 1) swap) in
        _ <-- perform (D_commit swap []);
        value_of (swap, claim_err)
      else
        post_claim_existing <-- perform (D_claim_txid swap);
        t <-- perform utc_now;
        if nonempty post_claim_existing then
          value_of (set_status CLAIMED (assign_claim_txid post_claim_existing t swap), None)
        else
          let swap := set_status CLAIMED (assign_claim_txid txid t swap) in
          finish swap (match txid with Some txid => [lower_text txid] | None => [] end).

Definition advance_swap (cfg : config) (swap : BoltzSwap) : rprog (BoltzSwap * option ustr) :=
  got <-- get_swap_status_from_boltz (boltz_swap_id (swap_terms swap));
  let '(st, boltz_data, err) := got in
  if nonempty err then value_of (swap, err)
  else
    swap <-- record_boltz_status st swap;
    if one_of st ["invoice.expired"; "swap.expired"; "transaction.failed"] then
      t <-- perform utc_now;
      let text := match st with JStr s => s | _ => [] end in
      finish (set_completed_at (Some t)
        (set_error_message (Some (u "Boltz swap ended: " ++ text)) (set_status FAILED swap))) []
    else if is_jstr st (u "transaction.refunded") then
      t <-- perform utc_now;
      finish (set_completed_at (Some t) (set_error_message (Some REFUND_MESSAGE) (set_status REFUNDED swap))) []
    else if is_jstr st (u "invoice.settled") then
      t <-- perform utc_now;
      let swap := set_completed_at (Some t) (clear_transient (set_status COMPLETED swap)) in
      swap <-- (if nonempty (claim_txid swap) then value_of swap else _backfill_claim_txid_from_wallet swap);
      finish swap []
    else if bool_decide (status swap = CLAIMED) && nonempty (claim_txid swap) then
      swap <-- confirm_claim swap; finish swap []
    else if one_of st ["transaction.mempool"; "transaction.confirmed"] then
      let swap := if among (status swap) [INVOICE_PAID; PAYING_INVOICE; CREATED]
                  then set_status CLAIMING (clear_transient swap) else swap in
      checked <-- verify_lockup boltz_data swap;
      let '(swap, lockup_addr_mismatch) := checked in
      if lockup_addr_mismatch : bool then
        let swap := set_error_message (Some MISMATCH_MESSAGE) swap in
        _ <-- perform (D_commit swap []);
        value_of (swap, error_message swap)
      else if bool_decide (status swap = CLAIMING) && negb (nonempty (claim_txid swap)) then claim_lockup cfg swap
      else finish swap []
    else finish swap [].

Definition cancel_swap (swap : BoltzSwap) : rprog (BoltzSwap * (bool * option ustr)) :=
  if negb (bool_decide (status swap = CREATED)) then
    value_of (swap, (false, Some (u "Cannot cancel swap in status '" ++ value (status swap) ++
      u "'. Only 'created' swaps can be cancelled.")))
  else
    t <-- perform utc_now;
    let swap := set_error_message (Some (u "Cancelled by API client")) (set_completed_at (Some t) (set_status CANCELLED swap)) in
    t <-- perform utc_now;
    let swap := append_history (JDict [(u "status", JStr (u "cancelled")); (u "timestamp", JInt t)]) swap in
    _ <-- perform (D_commit swap []);
    value_of (swap, (true, None)).

(** ** Tasks *)

(** [async with session_maker() as session]: the session is closed, and what
    it did not commit rolled back, on every way out. *)
Definition in_session {A} (p : rprog A) : rprog A :=
  pbind p (fun r => Call D_close (fun _ => Return r)).

(** The row a request or a task works on. *)
Definition with_swap {A} (missing : rprog A) (f : BoltzSwap -> rprog A) : rprog A :=
  in_session (swap <-- perform D_select; match swap with None => missing | Some swap => f swap end).

Definition status_entry (st : SwapStatus) (t : Z) (more : list (ustr * json)) : json :=
  JDict ([(u "status", JStr (value st)); (u "timestamp", JInt t)] ++ more).

(** [payment_hash_from_bolt11(swap.boltz_invoice) if swap.boltz_invoice else None] *)
Definition invoice_hash (swap : BoltzSwap) : option ustr :=
  match boltz_invoice (swap_terms swap) with
  | Some ((_ :: _) as inv) => u <$> payment_hash_from_bolt11 (latin inv)
  | _ => None
  end.

(** A swap found in PAYING_INVOICE: whether to pay, from what LND knows of
    the payment. *)
Definition reenter_payment (swap : BoltzSwap) : rprog (BoltzSwap * bool) :=
  let reentry_hash := if nonempty (lnd_payment_hash swap) then lnd_payment_hash swap else invoice_hash swap in
  if negb (nonempty reentry_hash) then value_of (swap, false)
  else
    res <-- lookup_payment (default [] reentry_hash);
    let '(lookup, lookup_err) := res in
    match lookup, lookup_err with
    | Some lookup, None =>
        st <-- getk lookup "status";
        let pay_state := match or_else st (JStr (u "UNKNOWN")) with JStr s => upper_text s | _ => [] end in
        if bool_decide (pay_state = u "FAILED") || bool_decide (pay_state = u "UNKNOWN") then value_of (swap, true)
        else if bool_decide (pay_state = u "SUCCEEDED") then
          let swap := clear_transient (set_status INVOICE_PAID (set_lnd_payment_hash reentry_hash swap)) in
          t <-- perform utc_now;
          let swap := append_history (status_entry INVOICE_PAID t
            [(u "payment_hash", JStr (default [] reentry_hash)); (u "reconciled", JBool true)]) swap in
          _ <-- perform (D_commit swap []);
          value_of (swap, false)
        else value_of (swap, false)
    | _, _ => value_of (swap, false)
    end.

Definition transient_message (payment_hash : option ustr) : ustr :=
  TRANSIENT ++ u " network error and is being retried automatically. Payment hash: " ++
  default (u "<undecodable>") payment_hash ++
  u ". No action required " ++ [0x2014] ++ u " the next reconciliation tick will resume. If this persists for more than 10 minutes, the swap will surface a stuck banner with manual recovery options.".

Definition is_definitive (pay_error : ustr) : bool := startswith (u "Payment failed:") pay_error.

(** [max(10, int(swap.invoice_amount_sats * routing_fee_limit_percent / 100))] *)
Definition swap_fee_limit (amount_sats : Z) (routing_fee_limit_percent : float) : result Z :=
  f ← mul_int_float amount_sats routing_fee_limit_percent;
  f ← div_float_int f 100;
  n ← int_of_float f;
  Ok (Z.max 10 n).

(** Pay the hold invoice: the swap as it goes on to [advance_swap], or the
    task's result when the payment failed for good. *)
Definition pay_invoice (cfg : config) (routing_fee_limit_percent : float) (swap : BoltzSwap) : rprog (BoltzSwap + json) :=
  let swap := set_status PAYING_INVOICE swap in
  t <-- perform utc_now;
  let swap := append_history (status_entry PAYING_INVOICE t []) swap in
  _ <-- perform (D_commit swap []);
  fee_limit_sats <-- lift (swap_fee_limit (invoice_amount_sats (swap_terms swap)) routing_fee_limit_percent);
  match boltz_invoice (swap_terms swap) with
  | None => raise AssertionError
  | Some invoice =>
      let pin_chan_id := if nonempty (outgoing_chan_id (swap_terms swap)) then outgoing_chan_id (swap_terms swap) else None in
      let max_parts := if nonempty pin_chan_id then 1 else boltz_payment_max_parts cfg in
      res <-- send_payment_v2 invoice pin_chan_id fee_limit_sats 120 (Some max_parts);
      let '(pay_result, pay_error) := res in
      if nonempty pay_error then
        let err := default [] pay_error in
        if is_definitive err then
          let swap := set_error_message (Some (u "Invoice payment failed: " ++ err)) (set_status FAILED swap) in
          t <-- perform utc_now;
          let swap := append_history (status_entry FAILED t [(u "error", JStr err)]) swap in
          _ <-- perform (D_commit swap []);
          value_of (inr (JDict [(u "status", JStr (u "failed")); (u "detail", JStr err)]))
        else
          let payment_hash := invoice_hash swap in
          let swap := if nonempty payment_hash then set_lnd_payment_hash payment_hash swap else swap in
          let swap := set_error_message (Some (transient_message payment_hash)) swap in
          t <-- perform utc_now;
          let swap := append_history (status_entry PAYING_INVOICE t
            [(u "transient_error", JStr err);
             (u "payment_hash", match payment_hash with Some h => JStr h | None => JNull end)]) swap in
          _ <-- perform (D_commit swap []);
          value_of (inl swap)
      else match pay_result with
           | None => raise AssertionError
           | Some pay_result =>
               let swap := clear_transient (set_status INVOICE_PAID swap) in
               h <-- getk pay_result "payment_hash";
               t <-- perform utc_now;
               let swap := append_history (status_entry INVOICE_PAID t [(u "payment_hash", h)]) swap in
               let swap := match h with JStr ((_ :: _) as h) => set_lnd_payment_hash (Some h) swap | _ => swap end in
               _ <-- perform (D_commit swap []);
               value_of (inl swap)
           end
  end.

Definition TERMINAL : list SwapStatus := [COMPLETED; FAILED; CANCELLED; REFUNDED].

(** [_run_process_swap] for a [swap_id] that is a UUID *)
Definition _run_process_swap (cfg : config) (routing_fee_limit_percent : float) : rprog json :=
  in_session (except
    (swap <-- perform D_select;
     match swap with
     | None => value_of (JDict [(u "status", JStr (u "error")); (u "detail", JStr (u "swap_not_found"))])
     | Some swap =>
         if among (status swap) TERMINAL then value_of (JDict [(u "status", JStr (value (status swap)))])
         else
           entered <-- (if bool_decide (status swap = PAYING_INVOICE) then reenter_payment swap
                        else value_of (swap, bool_decide (status swap = CREATED)));
           let '(swap, should_pay) := entered in
           paid <-- (if should_pay : bool then pay_invoice cfg routing_fee_limit_percent swap else value_of (inl swap));
           match paid with
           | inr result => value_of result
           | inl swap =>
               advanced <-- advance_swap cfg swap;
               let '(swap, advance_err) := advanced in
               value_of (JDict [(u "status", JStr (value (status swap)));
                                (u "advance_error", match advance_err with Some e => JStr e | None => JNull end)])
           end
     end)
    (fun e => value_of (JDict [(u "status", JStr (u "error")); (u "detail", JStr (exn_text e))]))).

(** The default of [routing_fee_limit_percent] in the task's signature. *)
Definition default_fee_percent : float := literal 3 1.

(** One swap of [recover_pending_swaps]'s list *)
Definition PENDING : list SwapStatus := [CREATED; PAYING_INVOICE; INVOICE_PAID; CLAIMING; CLAIMED].

Definition recover_entry (swap : BoltzSwap) (err : option ustr) (more : list (ustr * json)) : json :=
  JDict ([(u "boltz_swap_id", JStr (boltz_swap_id (swap_terms swap))); (u "status", JStr (value (status swap)));
          (u "error", match err with Some e => JStr e | None => JNull end)] ++ more).

Definition recover_pending_swap (cfg : config) : rprog json :=
  in_session
    (swap <-- perform D_select;
     match swap with
     | None => value_of (JList [])
     | Some swap =>
         if negb (among (status swap) PENDING) then value_of (JList [])
         else
           entry <-- except
             (if among (status swap) [CREATED; PAYING_INVOICE] then
                _ <-- perform (T_delay default_fee_percent); value_of (recover_entry swap None [(u "requeued", JBool true)])
              else
                advanced <-- advance_swap cfg swap;
                let '(swap, err) := advanced in value_of (recover_entry swap err []))
             (fun e => value_of (recover_entry swap (Some (exn_text e)) []));
           value_of (JList [entry])
     end).

Definition _mark_swap_failed (message : ustr) : rprog unit :=
  with_swap (value_of tt) (fun swap =>
    if among (status swap) [COMPLETED; FAILED] then value_of tt
    else
      let swap := set_error_message (Some message) (set_status FAILED swap) in
      t <-- perform utc_now;
      let swap := append_history (status_entry FAILED t [(u "error", JStr message)]) swap in
      perform (D_commit swap [])).

(** *** The retries of [process_boltz_swap] *)

Definition _get_backoff (retries : Z) : Z := if retries <? 10 then 15 else if retries <? 30 then 60 else 300.

Definition MAX_RETRIES : Z := 200.

Inductive task_end := Finished | RetryIn (countdown : Z) | GivenUp.

(** [retries] is [self.request.retries]; Celery raises
    [MaxRetriesExceededError] when one more would exceed [max_retries]. *)
Definition process_boltz_swap (retries : Z) (status : ustr) : task_end :=
  if existsb (fun s => bool_decide (status = u s)) ["completed"; "failed"; "cancelled"; "refunded"; "error"] then Finished
  else if MAX_RETRIES <? retries + 1 then GivenUp
  else RetryIn (_get_backoff retries).

(** ** Requests *)

(** Who works on a swap: the task of the queue, the periodic recovery, the
    end of the task's retries, and the operator's requests. *)
Inductive request :=
  | Process (routing_fee_limit_percent : float)
  | Recover
  | MarkFailed (message : ustr)
  | Cancel
  | RetryCooperative
  | RetryUnilateral (btc_tip_height : option Z).

(** The endpoints' answers without the audit entry and the response's other
    fields. *)
Definition claim_answer (code : ustr -> Z) (out : BoltzSwap * (option ustr * option ustr)) : rprog json :=
  match out with
  | (swap, (_, error)) =>
      if nonempty error then raise (HTTPException (code (default [] error))) else value_of (JStr (value (status swap)))
  end.

Definition cooperative_status_code (error : ustr) : Z := 502.

Definition unilateral_status_code (error : ustr) : Z :=
  if infix (u "timeout has not passed") error || infix (u "only valid") error || infix (u "no recorded timeout") error
  then 400 else 502.

Definition worker (cfg : config) (r : request) : rprog json :=
  match r with
  | Process pct => _run_process_swap cfg pct
  | Recover => recover_pending_swap cfg
  | MarkFailed m => _ <-- _mark_swap_failed m; value_of JNull
  | Cancel =>
      with_swap (raise (HTTPException 404)) (fun swap =>
        out <-- cancel_swap swap;
        let '(swap, (ok, _)) := out in
        if ok : bool then value_of (JStr (value (status swap))) else raise (HTTPException 400))
  | RetryCooperative =>
      with_swap (raise (HTTPException 404)) (fun swap => out <-- retry_cooperative_claim cfg swap;
        claim_answer cooperative_status_code out)
  | RetryUnilateral tip =>
      with_swap (raise (HTTPException 404)) (fun swap => out <-- retry_unilateral_claim cfg swap tip;
        claim_answer unilateral_status_code out)
  end.
