(* ===== verification/SwapWorld.v ===== *)
(** * Concurrent work on a swap

    The database as the sessions of SQLAlchemy on PostgreSQL use it: a
    session keeps the row as it loaded it, a flush writes the columns that
    differ from it, takes the row lock and is visible to nobody else until
    the commit; a statement that meets another session's lock waits and is
    cancelled by [statement_timeout]. Requests run one call at a time in any
    order and may die, which ends their session. *)
From S2P Require Import Prelude Prog Bytes RateLimit PyInt Utf8 Json PyJson PyFloat Swap.

(** ** Sessions *)

Definition pick {A} `{EqDecision A} (base cur row : A) : A := if bool_decide (cur = base) then row else cur.

(** The UPDATE of a flush: the columns that changed since the load. An
    UPDATE that does not write [updated_at] stamps it. *)
Definition merge (t : Z) (base cur row : BoltzSwap) : BoltzSwap :=
  mkSwap (swap_terms row)
    (pick (status base) (status cur) (status row))
    (pick (boltz_status base) (boltz_status cur) (boltz_status row))
    (pick (error_message base) (error_message cur) (error_message row))
    (pick (status_history base) (status_history cur) (status_history row))
    (pick (lnd_payment_hash base) (lnd_payment_hash cur) (lnd_payment_hash row))
    (pick (claim_txid base) (claim_txid cur) (claim_txid row))
    (pick (lockup_txid base) (lockup_txid cur) (lockup_txid row))
    (pick (recovery_attempted_at base) (recovery_attempted_at cur) (recovery_attempted_at row))
    (pick (recovery_count base) (recovery_count cur) (recovery_count row))
    (pick (updated_at base) (updated_at cur) t)
    (pick (completed_at base) (completed_at cur) (completed_at row))
    (pick (claim_broadcast_at base) (claim_broadcast_at cur) (claim_broadcast_at row))
    (pick (lockup_broadcast_at base) (lockup_broadcast_at cur) (lockup_broadcast_at row)).

Global Instance terms_eq_dec : EqDecision terms.
Proof. solve_decision. Defined.
Global Instance BoltzSwap_eq_dec : EqDecision BoltzSwap.
Proof. solve_decision. Defined.

(** The committed row; the session that holds its lock with the version it
    has flushed; the row each session has loaded; the outpoints that have a
    label. Then what an observer counts: claim scripts started, payments
    sent to LND with their body. *)
Record world := mkWorld {
  row : BoltzSwap;
  lock : option (nat * BoltzSwap);
  loaded : gmap nat BoltzSwap;
  labelled : list ustr;
  spawns : nat;
  sends : list json
}.

Definition with_lock (w : world) (l : option (nat * BoltzSwap)) : world :=
  mkWorld (row w) l (loaded w) (labelled w) (spawns w) (sends w).
Definition with_loaded (w : world) (i : nat) (s : BoltzSwap) : world :=
  mkWorld (row w) (lock w) (<[i := s]> (loaded w)) (labelled w) (spawns w) (sends w).

Definition holds_lock (w : world) (i : nat) : bool :=
  match lock w with Some (j, _) => (i =? j)%nat | None => false end.
Definition locked_out (w : world) (i : nat) : bool :=
  match lock w with Some (j, _) => negb (i =? j)%nat | None => false end.

(** The version of the row session [i] sees. *)
Definition visible (w : world) (i : nat) : BoltzSwap :=
  match lock w with Some (j, s) => if (i =? j)%nat then s else row w | None => row w end.

(** The end of a transaction that is not committed. *)
Definition rollback (i : nat) (w : world) : world := if holds_lock w i then with_lock w None else w.

Definition DB_ERROR : exn := RuntimeError "database".

Definition base_of (w : world) (i : nat) (cur : BoltzSwap) : BoltzSwap := default cur (loaded w !! i).

(** The flush before a statement of session [i]: the world with the changes
    written and the lock taken, or [None] when another session has it. *)
Definition flush (i : nat) (t : Z) (cur : BoltzSwap) (w : world) : option world :=
  let base := base_of w i cur in
  if bool_decide (cur = base) then Some w
  else if locked_out w i then None
  else Some (with_loaded (with_lock w (Some (i, merge t base cur (visible w i)))) i cur).

Definition commit (i : nat) (t : Z) (cur : BoltzSwap) (labels : list ustr) (w : world) : result unit * world :=
  match flush i t cur w with
  | None => (Err DB_ERROR, rollback i w)
  | Some w =>
      if existsb (fun l => bool_decide (l ∈ labelled w)) labels then (Err DB_ERROR, rollback i w)
      else (Ok tt, mkWorld (visible w i) (if holds_lock w i then None else lock w) (loaded w) (labels ++ labelled w)
                     (spawns w) (sends w))
  end.

Definition lock_claim_txid (i : nat) (t : Z) (cur : BoltzSwap) (w : world) : result (option ustr) * world :=
  match flush i t cur w with
  | None => (Err DB_ERROR, rollback i w)
  | Some w =>
      if locked_out w i then (Err DB_ERROR, rollback i w)
      else (Ok (claim_txid (visible w i)), with_lock w (Some (i, visible w i)))
  end.

Definition read_claim_txid (i : nat) (t : Z) (cur : BoltzSwap) (w : world) : result (option ustr) * world :=
  match flush i t cur w with
  | None => (Err DB_ERROR, rollback i w)
  | Some w => (Ok (claim_txid (visible w i)), w)
  end.

(** A statement that fails ends the transaction; only a commit can have
    taken effect all the same. *)
Definition statement {A} (f : fault) (i : nat) (st : world -> result A * world) (w : world) : result A * world :=
  match f with NoFault => st w | _ => (Err DB_ERROR, rollback i w) end.

(** ** Calls *)

(** How the surroundings answer the next call. *)
Record choice := mkChoice {
  c_fault : fault; c_now : Z; c_status : result (option json * option ustr);
  c_transaction : result (option json * option ustr); c_verify : result json; c_confs : result json;
  c_unspent : result (list utxo * option ustr); c_payments : result (option json * option ustr);
  c_send : result bool; c_stream : result stream; c_spawn : result spawned; c_wait : result script_end;
  c_done : result unit
}.

Definition sent (body : json) (r : result bool) (w : world) : world :=
  match r with
  | Ok true => mkWorld (row w) (lock w) (loaded w) (labelled w) (spawns w) (body :: sends w)
  | _ => w
  end.

Definition started (r : result spawned) (w : world) : world :=
  match r with
  | Ok Running => mkWorld (row w) (lock w) (loaded w) (labelled w) (S (spawns w)) (sends w)
  | _ => w
  end.

Definition run_call (i : nat) {X} (o : call X) (c : choice) (w : world) : result X * world :=
  match o in call X return result X * world with
  | D_select =>
      match c_fault c with
      | NoFault => (Ok (Some (visible w i)), with_loaded w i (visible w i))
      | _ => (Err DB_ERROR, rollback i w)
      end
  | D_commit cur labels =>
      match c_fault c with
      | FailAfter => (Err DB_ERROR, rollback i (snd (commit i (c_now c) cur labels w)))
      | f => statement f i (commit i (c_now c) cur labels) w
      end
  | D_lock_claim_txid cur => statement (c_fault c) i (lock_claim_txid i (c_now c) cur) w
  | D_claim_txid cur => statement (c_fault c) i (read_claim_txid i (c_now c) cur) w
  | D_close => (Ok tt, rollback i w)
  | utc_now => (Ok (c_now c), w)
  | B_status _ => (c_status c, w)
  | B_transaction _ => (c_transaction c, w)
  | M_verify_tx _ => (c_verify c, w)
  | M_confirmations _ => (c_confs c, w)
  | L_list_unspent => (c_unspent c, w)
  | L_payments => (c_payments c, w)
  | L_send body => (c_send c, sent body (c_send c) w)
  | L_stream => (c_stream c, w)
  | N_spawn _ _ => (c_spawn c, started (c_spawn c) w)
  | N_wait => (c_wait c, w)
  | A_alert => (c_done c, w)
  | T_delay _ => (c_done c, w)
  end.

(** ** Runs *)

Record system := mkSystem { the : world; pool : list (rprog json) }.

Inductive event :=
  | ERun (i : nat) (c : choice)
  | EDie (i : nat).

Definition step (e : event) (s : system) : option system :=
  let '(mkSystem w ps) := s in
  match e with
  | ERun i c =>
      match ps !! i with
      | Some (Call o k) => let '(r, w') := run_call i o c w in Some (mkSystem w' (<[i := k r]> ps))
      | _ => None
      end
  | EDie i => Some (mkSystem (rollback i w) (<[i := Return (Err (RuntimeError "worker died"))]> ps))
  end.

Fixpoint run (es : list event) (s : system) : option system :=
  match es with
  | [] => Some s
  | e :: es => step e s ≫= run es
  end.

Definition fresh (r : BoltzSwap) (labels : list ustr) : world := mkWorld r None ∅ labels 0 [].

Definition start (cfg : config) (r : BoltzSwap) (labels : list ustr) (reqs : list request) : system :=
  mkSystem (fresh r labels) (map (worker cfg) reqs).

Lemma run_app es es' s : run (es ++ es') s = run es s ≫= run es'.
Proof. revert s. induction es as [|e es IH]; intros s; simpl; [done|]. destruct (step e s); simpl; [apply IH|done]. Qed.

(** An invariant of the steps holds in every run. *)
Lemma run_preserves (I : system -> Prop) :
  (forall e s s', I s -> step e s = Some s' -> I s') -> forall es s s', I s -> run es s = Some s' -> I s'.
Proof.
  intros Hstep es. induction es as [|e es IH]; intros s s' HI; simpl; [by intros [= <-]|].
  destruct (step e s) as [s1|] eqn:Hs; [|done]. simpl. apply IH. by eapply Hstep.
Qed.
