(* ===== verification/SwapSafety.v ===== *)
(** * Invariants of concurrent work on a swap

    In every interleaving of requests, with statements that fail, commits
    whose reply is lost and workers that die: where a transaction id has been
    recorded there is always one, with its broadcast time; claim scripts run one at a
    time and none starts once a claim is recorded. *)
From S2P Require Import Prelude Prog Bytes RateLimit PyInt Utf8 Json PyJson PyFloat Swap SwapWorld.

(** ** Rows that follow each other *)

(** A transaction id is there with the time it was broadcast. *)
Definition row_ok (s : BoltzSwap) : Prop :=
  (nonempty (claim_txid s) = true -> claim_broadcast_at s <> None) /\
  (nonempty (lockup_txid s) = true -> lockup_broadcast_at s <> None).

(** What a change keeps: the terms, and that an id or a stamp is set. The id
    itself may be replaced by another one. *)
Record grows (b r : BoltzSwap) : Prop := {
  g_terms : swap_terms r = swap_terms b;
  g_claim : claim_txid r = claim_txid b \/ nonempty (claim_txid r) = true;
  g_lockup : lockup_txid r = lockup_txid b \/ nonempty (lockup_txid r) = true;
  g_claim_at : claim_broadcast_at r = claim_broadcast_at b \/ claim_broadcast_at r <> None;
  g_lockup_at : lockup_broadcast_at r = lockup_broadcast_at b \/ lockup_broadcast_at r <> None
}.

Global Instance grows_preorder : PreOrder grows.
Proof.
  assert (H : forall {A} (P : A -> Prop) (x y z : A), y = x \/ P y -> z = y \/ P z -> z = x \/ P z)
    by (intros A P x y z [->|] [->|]; auto).
  split; [by intros s; split; auto|]. intros a b c [T1 A1 B1 C1 D1] [T2 A2 B2 C2 D2].
  split; [by rewrite T2|by eapply (H _ (fun v => nonempty v = true))..| |]; by eapply (H _ (fun v => v <> None)).
Qed.

(** A change of the object in memory. *)
Definition legal (s s' : BoltzSwap) : Prop := grows s s' /\ (row_ok s -> row_ok s').

Global Instance legal_preorder : PreOrder legal.
Proof.
  split; [by intros s; split|]. intros a b c [G1 O1] [G2 O2]. split; [by transitivity b|auto].
Qed.

(** A change of other columns. *)
Definition same_ids (s s' : BoltzSwap) : Prop :=
  swap_terms s' = swap_terms s /\ claim_txid s' = claim_txid s /\ lockup_txid s' = lockup_txid s /\
  claim_broadcast_at s' = claim_broadcast_at s /\ lockup_broadcast_at s' = lockup_broadcast_at s.

Lemma legal_same s s' : same_ids s s' -> legal s s'.
Proof.
  intros (E1 & E2 & E3 & E4 & E5). split; [split; auto|]. unfold row_ok. by rewrite E2, E3, E4, E5.
Qed.

Lemma legal_claim v t s : nonempty v = true -> legal s (assign_claim_txid v t s).
Proof.
  intros Hv. unfold assign_claim_txid. rewrite Hv. cbn [andb].
  destruct (negb _ && _) eqn:E.
  - split; [split; simpl; auto|]. intros [_ H]. by split.
  - split; [split; simpl; auto|]. intros [Hc H]. split; [|done]. simpl. intros _.
    apply andb_false_iff in E as [E%negb_false_iff%bool_decide_eq_true|E%bool_decide_eq_false]; [|done].
    apply Hc. by rewrite E.
Qed.

Lemma legal_lockup v t s : nonempty v = true -> legal s (assign_lockup_txid v t s).
Proof.
  intros Hv. unfold assign_lockup_txid. rewrite Hv. cbn [andb].
  destruct (negb _ && _) eqn:E.
  - split; [split; simpl; auto|]. intros [H _]. by split.
  - split; [split; simpl; auto|]. intros [H Hc]. split; [done|]. simpl. intros _.
    apply andb_false_iff in E as [E%negb_false_iff%bool_decide_eq_true|E%bool_decide_eq_false]; [|done].
    apply Hc. by rewrite E.
Qed.

Lemma clear_cases s : clear_transient s = s \/ clear_transient s = set_error_message None s.
Proof. unfold clear_transient. case_match; auto. Qed.

Lemma legal_backfill us t s : legal s (backfill_from us t s).
Proof.
  induction us as [|x us IH]; cbn [backfill_from]; [done|].
  case_match; [exact IH|]. destruct (utxo_txid x) as [|z l]; [exact IH|]. cbn [nonempty negb].
  transitivity (assign_claim_txid (Some (z :: l)) t s); [by apply legal_claim|].
  case_match; [done|]. split; [split; simpl; auto|]. intros [_ H']. by split.
Qed.

(** A flush of a legal change to a row that has moved on meanwhile: column by
    column, then an id with its stamp. *)
Lemma pick_keeps {A} `{EqDecision A} (P : A -> Prop) b c r :
  c = b \/ P c -> r = b \/ P r -> (pick b c r = r \/ P (pick b c r)) /\ (pick b c r = c \/ P (pick b c r)).
Proof. unfold pick. intros Hc Hr. case_bool_decide as E; [subst; destruct Hr; auto|]. destruct Hc; [done|auto]. Qed.

Lemma pick_stamped b c r (bt ct rt : option Z) :
  c = b \/ nonempty c = true -> ct = bt \/ ct <> None -> rt = bt \/ rt <> None ->
  (nonempty c = true -> ct <> None) -> (nonempty r = true -> rt <> None) ->
  nonempty (pick b c r) = true -> pick bt ct rt <> None.
Proof.
  unfold pick. intros Hc Hct Hrt Oc Or.
  destruct (bool_decide_reflect (ct = bt)) as [->|Nt]; [|by destruct Hct].
  case_bool_decide as E; intros Hn; [by apply Or|]. destruct Hrt as [->|]; [|done]. by apply Oc.
Qed.

Lemma merge_grows t b cur r : grows b cur -> grows b r -> grows r (merge t b cur r) /\ grows cur (merge t b cur r).
Proof.
  intros [T1 A1 B1 C1 D1] [T2 A2 B2 C2 D2].
  pose proof (pick_keeps (fun v => nonempty v = true) _ _ _ A1 A2) as [??].
  pose proof (pick_keeps (fun v => nonempty v = true) _ _ _ B1 B2) as [??].
  pose proof (pick_keeps (fun v => v <> None) _ _ _ C1 C2) as [??].
  pose proof (pick_keeps (fun v => v <> None) _ _ _ D1 D2) as [??].
  split; (split; simpl; [congruence|done..]).
Qed.

Lemma merge_ok t b cur r : grows b cur -> grows b r -> row_ok cur -> row_ok r -> row_ok (merge t b cur r).
Proof.
  intros [T1 A1 B1 C1 D1] [T2 A2 B2 C2 D2] [O1 P1] [O2 P2].
  split; simpl; eapply pick_stamped; eauto.
Qed.

(** ** The protocol of a session *)

(** [Held]: the row lock was taken and no claim was recorded; [Busy]: a claim
    script runs. *)
Inductive hold := Out | Held | Busy.

(** The row as the session has it loaded, unless its transaction failed. *)
Record phase := mkPhase { base : option BoltzSwap; held : hold }.

Definition from_base (ph : phase) (cur : BoltzSwap) : Prop :=
  held ph <> Busy /\ exists b, base ph = Some b /\ grows b cur /\ row_ok cur.

#[local] Instance session : Protocol call phase := {
  may ph X o :=
    match o with
    | D_commit cur _ | D_lock_claim_txid cur | D_claim_txid cur => from_base ph cur
    | N_spawn _ _ => held ph = Held
    | N_wait => held ph = Busy
    | _ => held ph <> Busy
    end;
  after ph X o r ph' :=
    match o in call X return result X -> Prop with
    | D_select => fun r =>
        match r with
        | Ok (Some s) => ph' = mkPhase (Some s) Out /\ row_ok s
        | Ok None => False
        | Err _ => ph' = mkPhase None Out
        end
    | D_commit cur _ => fun r => match r with Ok _ => ph' = mkPhase (Some cur) Out | Err _ => ph' = mkPhase None Out end
    | D_lock_claim_txid cur => fun r =>
        match r with
        | Ok v => ph' = mkPhase (Some cur) (if nonempty v then Out else Held)
        | Err _ => ph' = mkPhase None Out
        end
    | D_claim_txid cur => fun r => match r with Ok _ => ph' = mkPhase (Some cur) Out | Err _ => ph' = mkPhase None Out end
    | D_close => fun _ => ph' = mkPhase None Out
    | N_spawn _ _ => fun r => match r with Ok Running => ph' = mkPhase (base ph) Busy | _ => ph' = ph end
    | N_wait => fun _ => ph' = mkPhase (base ph) Held
    | _ => fun _ => ph' = ph
    end r
}.

(** *** Programs without such calls *)

Definition quiet {X} (o : call X) : bool :=
  match o with
  | D_select | D_commit _ _ | D_lock_claim_txid _ | D_claim_txid _ | D_close | N_spawn _ _ | N_wait => false
  | _ => true
  end.

Abbreviation quietly := (only (@quiet)).

Lemma quiet_unnoticed ph : held ph <> Busy -> unnoticed (@quiet) ph.
Proof. intros Hh X o Ho. by destruct o. Qed.

(** Steps through a program of quiet calls. *)
Ltac quiet_step :=
  match goal with
  | |- quietly _ (rbind _ _) => apply (only_rbind _ whatever); [|intros ? _]
  | |- quietly _ (except _ _) => apply only_except; [|intros ?]
  | |- quietly _ (perform _) => apply only_perform; reflexivity
  | |- quietly _ (lift ?r) => by destruct r
  | |- quietly _ (getk ?d ?k) => unfold getk
  | |- quietly _ (value_of _) => exact I
  | |- quietly _ (raise _) => exact I
  | |- quietly _ (if ?b then _ else _) => destruct b
  | |- quietly _ (match ?x with _ => _ end) => destruct x
  end.

Lemma lookup_payment_quiet h : quietly (ok_or whatever) (lookup_payment h).
Proof. unfold lookup_payment. repeat quiet_step. Qed.

Lemma send_payment_quiet inv chan fee tmo parts : quietly (ok_or whatever) (send_payment_v2 inv chan fee tmo parts).
Proof. unfold send_payment_v2. repeat quiet_step. Qed.

Lemma get_status_quiet id : quietly (ok_or whatever) (get_swap_status_from_boltz id).
Proof. unfold get_swap_status_from_boltz. repeat quiet_step. Qed.

Lemma get_lockup_quiet id : quietly (ok_or whatever) (get_lockup_transaction id).
Proof. unfold get_lockup_transaction. repeat quiet_step. Qed.

(** *** Steps that change the object *)

Lemma backfill_quiet s : quietly (ok_or (legal s)) (_backfill_claim_txid_from_wallet s).
Proof.
  unfold _backfill_claim_txid_from_wallet. case_match; [apply legal_preorder|].
  apply only_except; [|intros; apply legal_preorder].
  apply (only_rbind _ whatever); [by apply only_perform|]. intros [us err] _. case_match; [apply legal_preorder|].
  apply (only_rbind _ whatever); [by apply only_perform|]. intros t _. apply legal_backfill.
Qed.

Lemma record_quiet st s : quietly (ok_or (legal s)) (record_boltz_status st s).
Proof.
  unfold record_boltz_status. apply (only_rbind _ whatever); [by apply only_perform|]. intros t _.
  case_match; [|by apply legal_same].
  apply (only_rbind _ whatever); [by apply only_perform|]. intros t' _. by apply legal_same.
Qed.

Lemma confirm_quiet s : quietly (ok_or (legal s)) (confirm_claim s).
Proof.
  unfold confirm_claim. apply only_except; [|intros; apply legal_preorder].
  apply (only_rbind _ whatever); [by apply only_perform|]. intros confs _.
  apply (only_rbind _ whatever); [by destruct (settled_enough confs)|]. intros [|] _; [|apply legal_preorder].
  apply (only_rbind _ whatever); [by apply only_perform|]. intros t _. by apply legal_same.
Qed.

Lemma verify_lockup_quiet d s : quietly (ok_or (fun r => legal s r.1)) (verify_lockup d s).
Proof.
  unfold verify_lockup.
  destruct (lockup_id_of d) as [[| | |id| |]|]; try apply legal_preorder.
  case_match eqn:El; [apply legal_preorder|]. apply negb_false_iff, Nat.eqb_eq in El.
  apply (only_rbind _ whatever); [by apply only_perform|]. intros t _.
  assert (Hl : legal s (if nonempty (lockup_txid s) then s else assign_lockup_txid (Some id) t s)).
  { case_match; [done|]. apply legal_lockup. by destruct id. }
  set (s' := if nonempty (lockup_txid s) then s else _) in *. clearbody s'.
  apply only_except; [|done].
  apply (only_rbind _ whatever); [by apply only_perform|]. intros v _.
  assert (H : quietly (ok_or (fun r => legal s r.1))
    (if nonempty (boltz_lockup_address (swap_terms s')) then
       pays <-- lift (_tx_pays_address v (default [] (boltz_lockup_address (swap_terms s')))); value_of (s', negb pays)
     else value_of (s', false))).
  { case_match; [|done]. apply (only_rbind _ whatever); [|done]. by destruct (_tx_pays_address _ _). }
  destruct v; [done|exact H..].
Qed.

Lemma verify_output_quiet cfg s tx : quietly (ok_or whatever) (_verify_claim_output cfg s tx).
Proof. unfold _verify_claim_output. repeat quiet_step. Qed.

(** A claim ends with an error or a transaction id. *)
Definition claim_result (r : option ustr * option ustr) : Prop := nonempty r.2 = true \/ nonempty r.1 = true.

Lemma checked_quiet cfg s txid tx : truthy txid = true -> quietly (ok_or claim_result) (checked_txid cfg s txid tx).
Proof.
  intros Ht. unfold checked_txid. apply (only_rbind _ whatever).
  - case_match; [apply verify_output_quiet|done].
  - intros verr _. destruct (nonempty verr) eqn:E; [by left|]. destruct txid as [| | |[|]| |]; try done. by right.
Qed.

Lemma claim_line_truthy lines txid tx : claim_line lines = Some (txid, tx) -> truthy txid = true.
Proof.
  induction lines as [|l lines IH]; cbn [claim_line]; [done|].
  destruct l as [[]|]; try exact IH. case_match; [|exact IH]. by intros [= <- _].
Qed.

(** Both claims: one script under the lock. *)
Lemma claim_wp m (after_wait : script_end -> rprog (option ustr * option ustr)) lockup_hex missing no_node b Q :
  (forall r, quietly (ok_or claim_result) (after_wait r)) -> missing <> [] -> no_node <> [] ->
  (forall r, ok_or claim_result r -> Q (mkPhase b Held) r) ->
  wp (mkPhase b Held)
    (sp <-- perform (N_spawn m lockup_hex);
     match sp with
     | NoScript => value_of (None, Some missing)
     | NoNode => value_of (None, Some no_node)
     | Running => fin <-- perform N_wait; after_wait fin
     end) Q.
Proof.
  intros Hw Hm Hn HQ. apply wp_rbind, wp_perform; [done|]. intros r ph Hr. cbn in Hr.
  destruct r as [[| |]|e]; subst.
  - apply HQ. left. by destruct missing.
  - apply HQ. left. by destruct no_node.
  - apply wp_rbind, wp_perform; [done|]. intros [r|e] ph Hr; cbn in Hr; subst ph; [|by apply HQ].
    eapply wp_only; [by apply quiet_unnoticed|apply Hw|exact HQ].
  - by apply HQ.
Qed.

Lemma cooperative_wp cfg s h b Q :
  (forall r, ok_or claim_result r -> Q (mkPhase b Held) r) -> wp (mkPhase b Held) (cooperative_claim cfg s h) Q.
Proof.
  apply claim_wp; [|done|done]. intros [|code out parsed lines err]; [by left|]. case_match; [by left|].
  destruct parsed as [output|]; [|by left]. apply (only_rbind _ whatever); [by destruct output|].
  intros txid _. destruct (truthy txid) eqn:Ht; cbn [negb]; [|by left].
  apply (only_rbind _ whatever); [by destruct output|]. intros tx _. by apply checked_quiet.
Qed.

Lemma unilateral_wp cfg s h b Q :
  (forall r, ok_or claim_result r -> Q (mkPhase b Held) r) -> wp (mkPhase b Held) (unilateral_claim cfg s h) Q.
Proof.
  apply claim_wp; [|done|done]. intros [|code out parsed lines err]; [by left|]. case_match; [by left|].
  destruct (claim_line lines) as [[txid tx]|] eqn:E; [|by left]. apply checked_quiet. by eapply claim_line_truthy.
Qed.

(** *** The programs follow the protocol *)

Definition good (b s : BoltzSwap) : Prop := grows b s /\ row_ok s.

Lemma good_legal b s s' : good b s -> legal s s' -> good b s'.
Proof. intros [G O] [G' O']. split; [by transitivity s|auto]. Qed.

Lemma good_same b s s' : good b s -> same_ids s s' -> good b s'.
Proof. intros H Hs. eapply good_legal; [exact H|by apply legal_same]. Qed.

Lemma good_self s : row_ok s -> good s s.
Proof. by split. Qed.

(** The object [H] speaks of, with other columns changed. *)
Ltac good_from H :=
  try match goal with |- context [clear_transient ?x] => destruct (clear_cases x) as [->| ->] end;
  (eapply good_same; [exact H|by split_and!]).

Definition safe_end {A} (ph : phase) (a : A) : Prop := held ph <> Busy.

Lemma wp_quiet {A B} (P : A -> Prop) (p : rprog A) (f : A -> rprog B) ph Q :
  quietly (ok_or P) p -> held ph <> Busy -> (forall e, Q ph (Err e)) -> (forall a, P a -> wp ph (f a) Q) ->
  wp ph (rbind p f) Q.
Proof. intros Hp Hh. by apply (wp_only_rbind (@quiet)), Hp; apply quiet_unnoticed. Qed.

Lemma wp_commit {A} (k : unit -> rprog A) b h s labels Q :
  good b s -> h <> Busy -> (forall e, Q (mkPhase None Out) (Err e)) -> wp (mkPhase (Some s) Out) (k tt) Q ->
  wp (mkPhase (Some b) h) (rbind (perform (D_commit s labels)) k) Q.
Proof.
  intros [G O] Hh He Hk. apply wp_rbind, wp_perform; [by split; [|exists b]|]. intros [[]|e] ph Hr; cbn in Hr; by subst.
Qed.

(** A clock reading. *)
Ltac clock t := apply (wp_quiet whatever); [by apply only_perform|done|done|intros t _].

Lemma finish_wp b h s labels : good b s -> h <> Busy -> wp (mkPhase (Some b) h) (finish s labels) safe_end.
Proof. intros Hs Hh. by apply (wp_commit _ b). Qed.

Lemma claim_lockup_wp cfg b s : good b s -> wp (mkPhase (Some b) Out) (claim_lockup cfg s) safe_end.
Proof.
  intros Hs. unfold claim_lockup. apply (wp_quiet whatever); [apply get_lockup_quiet|done|done|]. intros [h e] _.
  case_match; [by apply (wp_commit _ b)|].
  apply wp_rbind, wp_perform; [split; [done|by exists b]|].
  intros [v|err] ph Hr; cbn in Hr; subst ph; [|done].
  destruct (nonempty v) eqn:Hv; [clock t; done|].
  assert (Hss : good s s) by (apply good_self, Hs).
  apply wp_rbind, cooperative_wp. intros [[txid cerr]|err] Hr; [|done]. cbn in Hr.
  destruct (nonempty cerr) eqn:Hc.
  - clock t. apply (wp_commit _ s); [by eapply good_same|done..].
  - destruct Hr as [Hr|Hr]; cbn [fst snd] in Hr; [by rewrite Hc in Hr|].
    apply wp_rbind, wp_perform; [split; [done|exists s; by split]|].
    intros [v'|err] ph Hr'; cbn in Hr'; subst ph; [|done].
    clock t. destruct (nonempty v') eqn:Hv'; [done|].
    apply finish_wp; [|done]. eapply good_same; [eapply good_legal; [exact Hss|by apply (legal_claim txid t)]|by split_and!].
Qed.

Lemma advance_wp cfg b s : good b s -> wp (mkPhase (Some b) Out) (advance_swap cfg s) safe_end.
Proof.
  intros Hs. unfold advance_swap. apply (wp_quiet whatever); [apply get_status_quiet|done|done|]. intros [[st data] err] _.
  case_match; [done|]. eapply wp_quiet; [apply record_quiet|done|done|]. intros s1 Hl. pose proof (good_legal _ _ _ Hs Hl) as G1.
  clear Hl Hs s. rename s1 into s.
  case_match; [clock t; apply finish_wp; [by eapply good_same|done]|].
  case_match; [clock t; apply finish_wp; [by eapply good_same|done]|].
  case_match.
  { clock t. assert (G2 : good b (set_completed_at (Some t) (clear_transient (set_status COMPLETED s)))).
    { good_from G1. }
    case_match; [by apply finish_wp|].
    eapply wp_quiet; [apply backfill_quiet|done|done|]. intros s2 Hl. apply finish_wp; [by eapply good_legal|done]. }
  case_match.
  { eapply wp_quiet; [apply confirm_quiet|done|done|]. intros s2 Hl. apply finish_wp; [by eapply good_legal|done]. }
  case_match; [|by apply finish_wp].
  assert (G2 : good b (if among (status s) [INVOICE_PAID; PAYING_INVOICE; CREATED]
                       then set_status CLAIMING (clear_transient s) else s)).
  { case_match; [|done]. good_from G1. }
  set (s2 := if among _ _ then _ else _) in *. clearbody s2.
  eapply wp_quiet; [apply verify_lockup_quiet|done|done|]. intros [s3 mismatch] Hl. cbn in Hl.
  pose proof (good_legal _ _ _ G2 Hl) as G3. destruct mismatch.
  { apply (wp_commit _ b); [by eapply good_same|done..]. }
  case_match; [by apply claim_lockup_wp|by apply finish_wp].
Qed.

(** The test a program stands at. *)
Ltac branch := match goal with |- wp _ (if ?b then _ else _) _ => destruct b end.

Lemma reenter_wp b s Q :
  good b s ->
  (forall e, Q (mkPhase (Some b) Out) (Err e)) -> (forall e, Q (mkPhase None Out) (Err e)) ->
  (forall b' s' pay, good b' s' -> Q (mkPhase (Some b') Out) (Ok (s', pay))) ->
  wp (mkPhase (Some b) Out) (reenter_payment s) Q.
Proof.
  intros Hs He He' HQ. unfold reenter_payment. cbv zeta. branch; [by apply HQ|].
  apply (wp_quiet whatever); [apply lookup_payment_quiet|done|done|]. intros [lk err] _.
  destruct lk as [lk|], err as [err|]; try by apply HQ.
  apply (wp_quiet whatever); [unfold getk; by destruct lk|done|done|]. intros st _.
  branch; [by apply HQ|]. branch; [|by apply HQ].
  clock t.
  match goal with |- wp _ (rbind (perform (D_commit ?x _)) _) _ => assert (G : good b x) end.
  { good_from Hs. }
  apply (wp_commit _ b); [exact G|done|done|]. apply HQ, good_self, G.
Qed.

(** The row after the payment step, or its end. *)
Definition paid_end (ph : phase) (r : result (BoltzSwap + json)) : Prop :=
  match r with
  | Ok (inl s) => exists b, ph = mkPhase (Some b) Out /\ good b s
  | _ => held ph <> Busy
  end.

Lemma pay_wp cfg pct b s : good b s -> wp (mkPhase (Some b) Out) (pay_invoice cfg pct s) paid_end.
Proof.
  intros Hs. unfold pay_invoice. clock t.
  set (s1 := append_history _ _). assert (G1 : good b s1) by (eapply good_same; [exact Hs|by split_and!]).
  clearbody s1. apply (wp_commit _ b); [done|done|done|]. apply proj2, good_self in G1. clear Hs.
  apply (wp_quiet whatever); [by destruct (swap_fee_limit _ _)|done|done|]. intros fee _.
  case_match; [|done]. apply (wp_quiet whatever); [apply send_payment_quiet|done|done|]. intros [res err] _.
  destruct (nonempty err).
  - case_match.
    + clock t'. apply (wp_commit _ s1); [by eapply good_same|done..].
    + clock t'.
      match goal with |- wp _ (rbind (perform (D_commit ?x _)) _) _ => assert (G2 : good s1 x) end.
      { destruct (nonempty (invoice_hash s1)); good_from G1. }
      apply (wp_commit _ s1); [exact G2|done|done|]. eexists. split; [done|]. apply good_self, G2.
  - destruct res as [res|]; [|done].
    apply (wp_quiet whatever); [unfold getk; by destruct res|done|done|]. intros h _. clock t'.
    match goal with |- wp _ (rbind (perform (D_commit ?x _)) _) _ => assert (G2 : good s1 x) end.
    { destruct h as [| | |[|]| |]; good_from G1. }
    apply (wp_commit _ s1); [exact G2|done|done|]. eexists. split; [done|]. apply good_self, G2.
Qed.

Lemma close_wp {A} (p : rprog A) ph : wp ph p safe_end -> wp ph (in_session p) safe_end.
Proof.
  intros Hp. apply wp_bind. eapply wp_mono; [|exact Hp]. intros ph' r Hr. split; [exact Hr|].
  intros r' ph'' Hr'. cbn in Hr'. by subst.
Qed.

Lemma wp_select {A} (k : option BoltzSwap -> rprog A) ph Q :
  held ph <> Busy -> (forall e, Q (mkPhase None Out) (Err e)) ->
  (forall s, row_ok s -> wp (mkPhase (Some s) Out) (k (Some s)) Q) -> wp ph (rbind (perform D_select) k) Q.
Proof.
  intros Hh He Hk. apply wp_rbind, wp_perform; [done|]. intros [[s|]|e] ph' Hr; cbn in Hr; [|done|by subst].
  destruct Hr as [-> Hs]. by apply Hk.
Qed.

Definition idle : phase := mkPhase None Out.

Lemma process_wp cfg pct : wp idle (_run_process_swap cfg pct) safe_end.
Proof.
  apply close_wp, wp_except, wp_select; [done|done|]. intros s Hs. apply good_self in Hs.
  case_match; [done|]. apply wp_rbind.
  assert (Hpay : forall b s' pay, good b s' -> wp (mkPhase (Some b) Out)
    (paid <-- (if pay : bool then pay_invoice cfg pct s' else value_of (inl s'));
     match paid with
     | inr result => value_of result
     | inl swap =>
         advanced <-- advance_swap cfg swap;
         let '(swap, advance_err) := advanced in
         value_of (JDict [(u "status", JStr (value (status swap)));
                          (u "advance_error", match advance_err with Some e => JStr e | None => JNull end)])
     end) (fun ph r => match r with Ok a => safe_end ph (Ok a) | Err e => wp ph (value_of (JDict
             [(u "status", JStr (u "error")); (u "detail", JStr (exn_text e))])) safe_end end)).
  { intros b s' pay G. apply wp_rbind. apply (wp_mono _ _ paid_end).
    - intros ph [[s2|j]|e] Hr; [|exact Hr|exact Hr]. destruct Hr as (b2 & -> & G2).
      apply wp_rbind. eapply wp_mono; [|by apply advance_wp]. by intros ph [[s3 err]|e].
    - destruct pay; [by apply pay_wp|]. by exists b. }
  destruct (bool_decide (status s = PAYING_INVOICE)).
  - apply reenter_wp; [done|done|done|]. intros b' s' pay G. by apply Hpay.
  - by apply Hpay.
Qed.

Lemma recover_wp cfg : wp idle (recover_pending_swap cfg) safe_end.
Proof.
  apply close_wp, wp_select; [done|done|]. intros s Hs. apply good_self in Hs.
  case_match; [done|]. apply wp_rbind, wp_except. case_match.
  - apply (wp_quiet whatever); [by apply only_perform|done|done|done].
  - apply wp_rbind. eapply wp_mono; [|by apply advance_wp]. by intros ph [[s3 err]|e].
Qed.

Lemma mark_failed_wp m : wp idle (_mark_swap_failed m) safe_end.
Proof.
  apply close_wp, wp_select; [done|done|]. intros s Hs. apply good_self in Hs. case_match; [done|]. clock t.
  apply wp_perform; [split; [done|]; exists s; split; [done|]; by eapply (good_same s s)|].
  intros [[]|e] ph Hr; cbn in Hr; by subst.
Qed.

Lemma under_lock_wp claim b s :
  (forall s h b' (Q : phase -> _ -> Prop), (forall r, ok_or claim_result r -> Q (mkPhase b' Held) r) ->
     wp (mkPhase b' Held) (claim s h) Q) ->
  good b s -> wp (mkPhase (Some b) Out) (claim_under_lock claim s) safe_end.
Proof.
  intros Hclaim Hs. unfold claim_under_lock. apply (wp_quiet whatever); [apply get_lockup_quiet|done|done|]. intros [h e] _.
  case_match; [done|].
  apply wp_rbind, wp_perform; [split; [done|by exists b]|]. intros [v|err] ph Hr; cbn in Hr; subst ph; [|done].
  assert (Hss : good s s) by (apply good_self, Hs).
  destruct (nonempty v) eqn:Hv.
  { clock t. apply (wp_commit _ s); [|done..].
    eapply good_same; [eapply good_legal; [exact Hss|by apply (legal_claim v t)]|by split_and!]. }
  apply wp_rbind, Hclaim. intros [[txid cerr]|err] Hr; [|done]. cbn in Hr.
  destruct (nonempty cerr) eqn:Hc.
  - clock t. apply (wp_commit _ s); [by eapply good_same|done..].
  - destruct Hr as [Hr|Hr]; cbn [fst snd] in Hr; [by rewrite Hc in Hr|].
    apply wp_rbind, wp_perform; [split; [done|exists s; by split]|]. intros [v'|err] ph Hr'; cbn in Hr'; subst ph; [|done].
    clock t. apply (wp_commit _ s); [|done..].
    assert (Hn : nonempty (if nonempty v' then v' else txid) = true) by (by destruct (nonempty v') eqn:Ev).
    eapply good_same; [eapply good_legal; [exact Hss|exact (legal_claim _ t s Hn)]|by split_and!].
Qed.

Lemma worker_wp cfg r : wp idle (worker cfg r) safe_end.
Proof.
  destruct r as [pct| |m| | |tip]; cbn [worker].
  - apply process_wp.
  - apply recover_wp.
  - apply wp_rbind. eapply wp_mono; [|apply mark_failed_wp]. by intros ph [|].
  - apply close_wp, wp_select; [done|done|]. intros s Hs. apply good_self in Hs.
    apply wp_rbind. unfold cancel_swap. case_match; [done|]. clock t. clock t'.
    apply (wp_commit _ s); [by eapply good_same|done..].
  - apply close_wp, wp_select; [done|done|]. intros s Hs. apply good_self in Hs.
    apply wp_rbind. apply (wp_mono _ _ safe_end).
    { intros ph [[s' [tx err]]|e] Hr; [|done]. unfold claim_answer. by case_match. }
    unfold retry_cooperative_claim. case_match; [done|]. case_match; [done|].
    apply under_lock_wp; [|done]. intros. by apply cooperative_wp.
  - apply close_wp, wp_select; [done|done|]. intros s Hs. apply good_self in Hs.
    apply wp_rbind. apply (wp_mono _ _ safe_end).
    { intros ph [[s' [tx err]]|e] Hr; [|done]. unfold claim_answer. by case_match. }
    unfold retry_unilateral_claim. repeat (case_match; [done|]).
    case_match; [|done]. case_match; [|done]. case_match; [done|].
    apply under_lock_wp; [|done]. intros. by apply unilateral_wp.
Qed.

(** ** The database *)

Record consistent (w : world) (phs : list phase) : Prop := {
  in_row : row_ok (row w);
  in_lock : forall j s, lock w = Some (j, s) -> row_ok s /\ grows (row w) s;
  in_base : forall i ph b, phs !! i = Some ph -> base ph = Some b -> loaded w !! i = Some b /\ grows b (visible w i);
  in_held : forall i ph, phs !! i = Some ph -> held ph <> Out -> exists s, lock w = Some (i, s) /\ nonempty (claim_txid s) = false
}.

Lemma visible_ok w phs i : consistent w phs -> row_ok (visible w i) /\ grows (row w) (visible w i).
Proof.
  intros [H1 H2 _ _]. unfold visible. destruct (lock w) as [[j s]|]; [|done]. case_match; [by apply H2 with j|done].
Qed.

(** Only the session's own entry changes. *)
Lemma insert_cases (phs : list phase) i x j y :
  <[i := x]> phs !! j = Some y -> (j = i /\ y = x) \/ (j <> i /\ phs !! j = Some y).
Proof.
  intros H. apply list_lookup_insert_Some in H as [(-> & -> & _)|[? ?]]; [by left|right]. auto.
Qed.

(** A session whose transaction ended keeps nothing. *)
Lemma swap_rollback_inv w phs i : consistent w phs -> consistent (rollback i w) (<[i := idle]> phs).
Proof.
  intros [H1 H2 H3 H4]. unfold rollback, holds_lock.
  destruct (lock w) as [[j s]|] eqn:Hl.
  - destruct (Nat.eqb_spec i j) as [->|Hne].
    + split; simpl; [done|done|..].
      * intros k ph b [[-> ->]|[Hk Hp]]%insert_cases Hb; [done|]. destruct (H3 _ _ _ Hp Hb) as [HL HG]. split; [done|].
        unfold visible in *. simpl. rewrite Hl in HG. by rewrite (proj2 (Nat.eqb_neq k j)) in HG.
      * intros k ph [[-> ->]|[Hk Hp]]%insert_cases Hh; [done|]. destruct (H4 _ _ Hp Hh) as (s' & [= <- _] & _). done.
    + split; [done|by rewrite Hl| |].
      * intros k ph b [[-> ->]|[Hk Hp]]%insert_cases Hb; [done|]. by eapply H3.
      * intros k ph [[-> ->]|[Hk Hp]]%insert_cases Hh; [done|]. rewrite Hl. by eapply H4.
  - split; [done|by rewrite Hl| |].
    + intros k ph b [[-> ->]|[Hk Hp]]%insert_cases Hb; [done|]. by eapply H3.
    + intros k ph [[-> ->]|[Hk Hp]]%insert_cases Hh; [done|]. rewrite Hl. by eapply H4.
Qed.

(** Nobody else holds the lock a session can take. *)
Lemma lock_free w phs i j ph : consistent w phs -> locked_out w i = false -> phs !! j = Some ph -> j <> i -> held ph = Out.
Proof.
  intros H Hl Hj Hne. destruct (held ph) eqn:E; [done|..].
  all: destruct (in_held _ _ H j ph Hj) as (s & Hs & _); [by rewrite E|]; unfold locked_out in Hl; rewrite Hs in Hl.
  all: by rewrite (proj2 (Nat.eqb_neq i j)) in Hl.
Qed.

Lemma visible_other w i j : locked_out w i = false -> j <> i -> visible w j = row w.
Proof.
  unfold locked_out, visible. destruct (lock w) as [[k s]|]; [|done]. intros H%negb_false_iff%Nat.eqb_eq Hne. subst k.
  by rewrite (proj2 (Nat.eqb_neq j i)).
Qed.

(** Taking the lock with a version [v] of the row. *)
Lemma take_lock w phs i cur v h :
  consistent w phs -> locked_out w i = false -> row_ok v -> grows (row w) v -> grows cur v ->
  (h <> Out -> nonempty (claim_txid v) = false) ->
  consistent (with_loaded (with_lock w (Some (i, v))) i cur) (<[i := mkPhase (Some cur) h]> phs).
Proof.
  intros HC Hl Hv Hg Hc Hh. split; simpl.
  - apply HC.
  - by intros j s [= <- <-].
  - intros k ph b [[-> ->]|[Hk Hp]]%insert_cases Hb.
    + injection Hb as <-. rewrite lookup_insert_eq. unfold visible. simpl. by rewrite Nat.eqb_refl.
    + destruct (in_base _ _ HC _ _ _ Hp Hb) as [HL HG]. rewrite lookup_insert_ne by done. split; [done|].
      unfold visible at 1. simpl. rewrite (proj2 (Nat.eqb_neq k i)) by done. by rewrite (visible_other w i k) in HG.
  - intros k ph [[-> ->]|[Hk Hp]]%insert_cases Hne; [by eauto|]. by rewrite (lock_free w phs i k ph) in Hne.
Qed.

(** The session's own entry after a statement that changed nothing. *)
Lemma same_session w phs i b cur :
  consistent w phs -> loaded w !! i = Some b -> cur = b -> grows b (visible w i) ->
  consistent w (<[i := mkPhase (Some cur) Out]> phs).
Proof.
  intros [H1 H2 H3 H4] Hb -> Hg. split; [done|done| |].
  - intros k ph b' [[-> ->]|[Hk Hp]]%insert_cases Hb'; [by injection Hb' as <-|by eapply H3].
  - intros k ph [[-> ->]|[Hk Hp]]%insert_cases Hne; [done|by eapply H4].
Qed.

Lemma flush_inv w phs i ph t cur w' :
  phs !! i = Some ph -> from_base ph cur -> consistent w phs -> flush i t cur w = Some w' ->
  consistent w' (<[i := mkPhase (Some cur) Out]> phs) /\ row w' = row w /\ spawns w' = spawns w /\ loaded w' !! i = Some cur.
Proof.
  intros Hi (Hb & b & Eb & Hg & Hok) HC. destruct (in_base _ _ HC _ _ _ Hi Eb) as [HL HV].
  unfold flush, base_of. rewrite HL. cbn [default]. case_bool_decide as E.
  - intros [= <-]. split_and!; [by eapply same_session|done|done|by rewrite HL, E].
  - destruct (locked_out w i) eqn:Hl; [done|]. intros [= <-]. destruct (visible_ok w phs i HC) as [Ov Gv].
    destruct (merge_grows t b cur (visible w i) Hg HV) as [G1 G2].
    split_and!; [|done|done|simpl; by rewrite lookup_insert_eq].
    apply take_lock; [done|done|by apply merge_ok|by transitivity (visible w i)|done|done].
Qed.

(** What every statement keeps besides: the row grows, and no claim script
    starts once a claim is recorded. *)
Definition keeps (w w' : world) : Prop :=
  grows (row w) (row w') /\ (nonempty (claim_txid (row w)) = true -> spawns w' = spawns w).

Lemma rollback_row i w : row (rollback i w) = row w /\ spawns (rollback i w) = spawns w.
Proof. unfold rollback. by case_match. Qed.

Lemma keeps_rollback i w w' : row w' = row w -> spawns w' = spawns w -> keeps w (rollback i w').
Proof. intros E1 E2. destruct (rollback_row i w') as [F1 F2]. split; rewrite ?F1, ?F2, ?E1, ?E2; done. Qed.

Lemma rolled_back phs i ph w1 :
  consistent w1 (<[i := ph]> phs) -> consistent (rollback i w1) (<[i := idle]> phs).
Proof. intros H%(swap_rollback_inv _ _ i). by rewrite list_insert_insert_eq in H. Qed.

(** Publishing the session's version. *)
Lemma publish_inv w phs i cur labels :
  consistent w (<[i := mkPhase (Some cur) Out]> phs) ->
  let w' := mkWorld (visible w i) (if holds_lock w i then None else lock w) (loaded w) (labels ++ labelled w)
              (spawns w) (sends w) in
  consistent w' (<[i := mkPhase (Some cur) Out]> phs) /\ keeps w w'.
Proof.
  intros HC w'. destruct (visible_ok w _ i HC) as [Ov Gv]. split; [|done].
  assert (Hlock : forall j s, lock w' = Some (j, s) -> lock w = Some (j, s) /\ visible w i = row w /\ j <> i).
  { intros j s Hl. unfold w', holds_lock, visible in *. simpl in Hl. destruct (lock w) as [[k v]|]; [|done].
    destruct (Nat.eqb_spec i k) as [->|Hk]; [done|]. injection Hl as -> ->. done. }
  assert (Hvis : forall k, grows (visible w k) (visible w' k)).
  { intros k. unfold visible at 2. destruct (lock w') as [[j s]|] eqn:Hl.
    - destruct (Hlock _ _ eq_refl) as (E & Er & Hj). unfold visible at 1. rewrite E.
      case_match; [done|]. simpl. by rewrite Er.
    - simpl. unfold w', holds_lock in Hl. simpl in Hl. unfold visible. destruct (lock w) as [[j s]|] eqn:E; [|done].
      destruct (Nat.eqb_spec i j) as [->|]; [|done].
      destruct (Nat.eqb_spec k j); [done|]. by apply (in_lock _ _ HC j s). }
  split; simpl; [done|..].
  - intros j s Hl. destruct (Hlock _ _ Hl) as (E & -> & _). by apply (in_lock _ _ HC j).
  - intros k ph b Hp Hb. destruct (in_base _ _ HC _ _ _ Hp Hb) as [HL HG]. split; [done|]. by transitivity (visible w k).
  - intros k ph Hp Hh. destruct (in_held _ _ HC _ _ Hp Hh) as (s & E & Hn). exists s. split; [|done].
    apply insert_cases in Hp as [[-> ->]|[Hk Hp]]; [done|]. unfold holds_lock. rewrite E.
    by rewrite (proj2 (Nat.eqb_neq i k)).
Qed.

Section statements.
Context (w : world) (phs : list phase) (i : nat) (ph : phase) (cur : BoltzSwap) (t : Z).
Context (Hi : phs !! i = Some ph) (Hcur : from_base ph cur) (HC : consistent w phs).

Lemma commit_inv labels r w' :
  commit i t cur labels w = (r, w') ->
  keeps w w' /\ consistent w' (<[i := match r with Ok _ => mkPhase (Some cur) Out | Err _ => idle end]> phs) /\
  consistent (rollback i w') (<[i := idle]> phs).
Proof.
  unfold commit. destruct (flush i t cur w) as [w1|] eqn:Hf.
  - destruct (flush_inv w phs i ph t cur w1 Hi Hcur HC Hf) as (HC1 & Er & Es & _).
    case_match; intros [= <- <-].
    + split; [by apply keeps_rollback|]. pose proof (rolled_back _ _ _ _ HC1) as HR. split; [done|]. by apply rolled_back in HR.
    + destruct (publish_inv w1 phs i cur labels HC1) as [HP [Hg Hs]]. rewrite Er, Es in *. split_and!; [done|done|].
      by eapply rolled_back.
  - intros [= <- <-]. split; [by apply keeps_rollback|]. pose proof (swap_rollback_inv w phs i HC) as HR. split; [done|].
    by apply rolled_back in HR.
Qed.

Lemma lock_inv r w' :
  lock_claim_txid i t cur w = (r, w') ->
  keeps w w' /\ consistent w' (<[i := match r with Ok v => mkPhase (Some cur) (if nonempty v then Out else Held)
                                      | Err _ => idle end]> phs).
Proof.
  unfold lock_claim_txid. destruct (flush i t cur w) as [w1|] eqn:Hf.
  - destruct (flush_inv w phs i ph t cur w1 Hi Hcur HC Hf) as (HC1 & Er & Es & HL).
    destruct (locked_out w1 i) eqn:Hl; intros [= <- <-].
    + split; [by apply keeps_rollback|by eapply rolled_back].
    + destruct (visible_ok w1 _ i HC1) as [Ov Gv]. split; [split; simpl; by rewrite ?Er, ?Es|].
      assert (Hb : <[i := mkPhase (Some cur) Out]> phs !! i = Some (mkPhase (Some cur) Out)).
      { apply list_lookup_insert_eq. by eapply lookup_lt_Some. }
      destruct (in_base _ _ HC1 _ _ cur Hb eq_refl) as [_ HG].
      pose proof (take_lock w1 _ i cur (visible w1 i) (if nonempty (claim_txid (visible w1 i)) then Out else Held)
                    HC1 Hl Ov Gv HG) as HT.
      rewrite list_insert_insert_eq in HT.
      assert (E : with_loaded (with_lock w1 (Some (i, visible w1 i))) i cur = with_lock w1 (Some (i, visible w1 i))).
      { unfold with_loaded, with_lock. simpl. by rewrite insert_id. }
      rewrite E in HT. apply HT. by destruct (nonempty (claim_txid (visible w1 i))).
  - intros [= <- <-]. split; [by apply keeps_rollback|by apply swap_rollback_inv].
Qed.

Lemma read_inv r w' :
  read_claim_txid i t cur w = (r, w') ->
  keeps w w' /\ consistent w' (<[i := match r with Ok _ => mkPhase (Some cur) Out | Err _ => idle end]> phs).
Proof.
  unfold read_claim_txid. destruct (flush i t cur w) as [w1|] eqn:Hf; intros [= <- <-].
  - destruct (flush_inv w phs i ph t cur w1 Hi Hcur HC Hf) as (HC1 & Er & Es & HL).
    split; [split; by rewrite ?Er, ?Es|done].
  - split; [by apply keeps_rollback|by apply swap_rollback_inv].
Qed.

(** A statement that failed before it ran. *)
Lemma failed_inv : keeps w (rollback i w) /\ consistent (rollback i w) (<[i := idle]> phs).
Proof. split; [by apply keeps_rollback|by apply swap_rollback_inv]. Qed.
End statements.

Lemma keeps_refl w : keeps w w.
Proof. by split. Qed.

Lemma set_phase w phs i ph : phs !! i = Some ph -> consistent w phs -> consistent w (<[i := ph]> phs).
Proof. intros Hi. by rewrite list_insert_id. Qed.

(** An observer's counters are not part of the invariant. *)
Lemma swap_frame_inv w w' phs :
  row w' = row w -> lock w' = lock w -> loaded w' = loaded w -> consistent w phs -> consistent w' phs.
Proof.
  intros E1 E2 E3 [H1 H2 H3 H4]. assert (Ev : forall i, visible w' i = visible w i) by (intros i; unfold visible; by rewrite E1, E2).
  split; rewrite ?E1, ?E2, ?E3; try done. intros i ph b Hi Hb. rewrite Ev. by eapply H3.
Qed.

(** A session that holds the lock without a recorded claim: none is
    committed. *)
Lemma held_unclaimed w phs i ph :
  consistent w phs -> phs !! i = Some ph -> held ph <> Out -> nonempty (claim_txid (row w)) = false.
Proof.
  intros HC Hi Hh. destruct (in_held _ _ HC i ph Hi Hh) as (s & Hl & Hn). destruct (in_lock _ _ HC _ _ Hl) as [_ [_ [E|E] _ _ _]].
  - by rewrite <- E.
  - by rewrite E in Hn.
Qed.

Lemma spawn_inv w phs i ph r :
  phs !! i = Some ph -> held ph = Held -> consistent w phs ->
  exists ph', match r with Ok Running => ph' = mkPhase (base ph) Busy | _ => ph' = ph end /\
    consistent (started r w) (<[i := ph']> phs) /\ keeps w (started r w).
Proof.
  intros Hi Hh HC. pose proof (held_unclaimed w phs i ph HC Hi ltac:(by rewrite Hh)) as Hu.
  destruct r as [[| |]|e]; try (exists ph; split; [done|]; split; [by apply set_phase|apply keeps_refl]).
  eexists. split; [done|]. split; [|split; [done|simpl; by rewrite Hu]].
  apply (swap_frame_inv w); [done..|]. destruct HC as [H1 H2 H3 H4]. split; [done|done| |].
  - intros k ph' b [[-> ->]|[Hk Hp]]%insert_cases Hb; [by eapply H3|by eapply H3].
  - intros k ph' [[-> ->]|[Hk Hp]]%insert_cases Hne; [|by eapply H4]. eapply H4; [exact Hi|by rewrite Hh].
Qed.

Lemma wait_inv w phs i ph : phs !! i = Some ph -> held ph = Busy -> consistent w phs ->
  consistent w (<[i := mkPhase (base ph) Held]> phs).
Proof.
  intros Hi Hh [H1 H2 H3 H4]. split; [done|done| |].
  - intros k ph' b [[-> ->]|[Hk Hp]]%insert_cases Hb; [by eapply H3|by eapply H3].
  - intros k ph' [[-> ->]|[Hk Hp]]%insert_cases Hne; [|by eapply H4]. eapply H4; [exact Hi|by rewrite Hh].
Qed.

Lemma select_inv w phs i : consistent w phs -> consistent (with_loaded w i (visible w i)) (<[i := mkPhase (Some (visible w i)) Out]> phs).
Proof.
  intros [H1 H2 H3 H4]. split; simpl; [done|done| |].
  - intros k ph' b [[-> ->]|[Hk Hp]]%insert_cases Hb.
    + injection Hb as <-. by rewrite lookup_insert_eq.
    + rewrite lookup_insert_ne by done. by eapply H3.
  - intros k ph' [[-> ->]|[Hk Hp]]%insert_cases Hne; [done|by eapply H4].
Qed.

Lemma swap_call_inv X (o : call X) c w phs i ph :
  phs !! i = Some ph -> may ph o -> consistent w phs ->
  exists ph', after ph o (fst (run_call i o c w)) ph' /\
    consistent (snd (run_call i o c w)) (<[i := ph']> phs) /\ keeps w (snd (run_call i o c w)).
Proof.
  intros Hi Hm HC. pose proof (failed_inv w phs i HC) as [FK FC].
  destruct o; simpl in Hm |- *; try (exists ph; split; [done|]; split; [by apply set_phase|apply keeps_refl]).
  - destruct (c_fault c); [|by exists idle..]. eexists. split; [|split; [by apply select_inv|done]]. simpl.
    split; [done|]. by eapply visible_ok.
  - destruct (commit i (c_now c) swap labels w) as [r w'] eqn:E.
    destruct (commit_inv w phs i ph swap (c_now c) Hi Hm HC labels r w' E) as (K & C1 & C2).
    destruct (c_fault c); simpl; rewrite ?E; [|by exists idle|].
    + eexists. split; [|split; [exact C1|exact K]]. by destruct r as [[]|].
    + exists idle. split; [done|]. split; [exact C2|]. destruct (rollback_row i w') as [F1 F2]. split; rewrite ?F1, ?F2; apply K.
  - destruct (c_fault c); simpl; [|by exists idle..].
    destruct (lock_claim_txid i (c_now c) swap w) as [r w'] eqn:E.
    destruct (lock_inv w phs i ph swap (c_now c) Hi Hm HC r w' E) as [K C1]. eexists. split; [|split; [exact C1|exact K]].
    by destruct r.
  - destruct (c_fault c); simpl; [|by exists idle..].
    destruct (read_claim_txid i (c_now c) swap w) as [r w'] eqn:E.
    destruct (read_inv w phs i ph swap (c_now c) Hi Hm HC r w' E) as [K C1]. eexists. split; [|split; [exact C1|exact K]].
    by destruct r.
  - by exists idle.
  - exists ph. split; [done|]. split; [|by destruct (c_send c) as [[]|]].
    apply set_phase; [done|]. by apply (swap_frame_inv w); [by destruct (c_send c) as [[]|]..|].
  - by apply spawn_inv.
  - eexists. split; [done|]. split; [by apply wait_inv|apply keeps_refl].
Qed.

(** ** Runs *)

Definition sound (s : system) : Prop :=
  exists phs, Forall2 (fun ph p => wp ph p safe_end) phs (pool s) /\ consistent (the s) phs.

Lemma step_sound e s s' : sound s -> step e s = Some s' -> sound s' /\ keeps (the s) (the s').
Proof.
  destruct s as [w ps]. intros (phs & Hps & HC) Hs. simpl in Hps, HC. destruct e as [i c|i]; cbn [step] in Hs.
  - destruct (ps !! i) as [[|X o k]|] eqn:Hi; [done| |done].
    destruct (Forall2_lookup_r _ _ _ _ _ Hps Hi) as (ph & Hph & Hwp).
    destruct (swap_call_inv X o c w phs i ph Hph (proj1 Hwp) HC) as (ph' & Hafter & HC' & HK).
    destruct (run_call i o c w) as [r w'] eqn:E. injection Hs as <-. split; [|exact HK].
    exists (<[i := ph']> phs). split; [|exact HC']. apply Forall2_insert; [done|]. by eapply wp_call.
  - injection Hs as <-. split; [|by apply keeps_rollback]. exists (<[i := idle]> phs). split; [|by apply swap_rollback_inv].
    by apply Forall2_insert.
Qed.

Lemma run_sound es s s' : sound s -> run es s = Some s' -> sound s' /\ keeps (the s) (the s').
Proof.
  revert s. induction es as [|e es IH]; intros s Hs; simpl; [intros [= <-]; split; [done|apply keeps_refl]|].
  destruct (step e s) as [s1|] eqn:E; [|done]. simpl. intros Hr. destruct (step_sound e s s1 Hs E) as [H1 [G1 K1]].
  destruct (IH s1 H1 Hr) as [H2 [G2 K2]]. split; [done|]. split; [by transitivity (row (the s1))|].
  intros Hn. rewrite K2; [by apply K1|]. by destruct G1 as [_ [->|H] _ _ _].
Qed.

Lemma start_sound cfg r labels reqs : row_ok r -> sound (start cfg r labels reqs).
Proof.
  intros Hr. exists (replicate (length reqs) idle). split.
  - simpl. induction reqs as [|q reqs IH]; simpl; constructor; [apply worker_wp|exact IH].
  - split; simpl; [done|done| |].
    + by intros i ph b [-> _]%lookup_replicate ?.
    + by intros i ph [-> _]%lookup_replicate ?.
Qed.
