(* ===== verification/SwapOrder.v ===== *)
(** * The lifecycle of a swap worked on by one request at a time

    When no two requests overlap, whatever fails and wherever a worker dies,
    the stored status only moves forward through the lifecycle and a swap
    that has ended stays as it ended. *)
From S2P Require Import Prelude Prog Bytes RateLimit PyInt Utf8 Json PyJson PyFloat Swap SwapWorld.

(** ** Forward *)

Definition rank (s : SwapStatus) : Z :=
  match s with
  | CREATED => 0 | PAYING_INVOICE => 1 | INVOICE_PAID => 2 | CLAIMING => 3 | CLAIMED => 4
  | COMPLETED | FAILED | CANCELLED | REFUNDED => 5
  end.

Definition forward (s s' : SwapStatus) : Prop := s' = s \/ rank s < rank s'.

Global Instance forward_preorder : PreOrder forward.
Proof. split; [by left|]. unfold forward. intros a b c [->| ] [->| ]; auto; right; lia. Qed.

Lemma forward_terminal s s' : among s TERMINAL = true -> forward s s' -> s' = s.
Proof. intros Ht [->|Hr]; [done|]. destruct s, s'; simpl in Hr; try done; lia. Qed.

(** ** One worker *)

(** One request alone, [cs] answering its calls; when they run out the
    worker dies. *)
Fixpoint solo (cs : list choice) (p : rprog json) (w : world) : world :=
  match cs, p with
  | c :: cs, Call o k => let '(r, w') := run_call 0 o c w in solo cs (k r) w'
  | _, _ => rollback 0 w
  end.

Definition one_by_one (cfg : config) (reqs : list (request * list choice)) (w : world) : world :=
  fold_left (fun w '(r, cs) => solo cs (worker cfg r) w) reqs w.

(** ** The protocol *)

(** The status the session has loaded, unless its transaction failed. *)
Abbreviation seen := (option SwapStatus).

Definition moves (ph : seen) (cur : BoltzSwap) : Prop := exists st, ph = Some st /\ forward st (status cur).

#[local] Instance lifecycle : Protocol call seen := {
  may ph X o :=
    match o with
    | D_select => ph = None
    | D_commit cur _ | D_lock_claim_txid cur | D_claim_txid cur => moves ph cur
    | _ => True
    end;
  after ph X o r ph' :=
    match o in call X return result X -> Prop with
    | D_select => fun r => match r with Ok (Some s) => ph' = Some (status s) | _ => ph' = None end
    | D_commit cur _ => fun r => match r with Ok _ => ph' = Some (status cur) | Err _ => ph' = None end
    | D_lock_claim_txid cur => fun r => match r with Ok _ => ph' = Some (status cur) | Err _ => ph' = None end
    | D_claim_txid cur => fun r => match r with Ok _ => ph' = Some (status cur) | Err _ => ph' = None end
    | D_close => fun _ => ph' = None
    | _ => fun _ => ph' = ph
    end r
}.

(** Calls that are not to the database. *)
Definition away {X} (o : call X) : bool :=
  match o with D_select | D_commit _ _ | D_lock_claim_txid _ | D_claim_txid _ | D_close => false | _ => true end.

Abbreviation outside := (only (@away)).

Lemma away_unnoticed ph : unnoticed (@away) ph.
Proof. intros X o Ho. by destruct o. Qed.

Lemma wp_outside {A B} (P : A -> Prop) (p : rprog A) (f : A -> rprog B) ph Q :
  outside (ok_or P) p -> (forall e, Q ph (Err e)) -> (forall a, P a -> wp ph (f a) Q) -> wp ph (rbind p f) Q.
Proof. apply (wp_only_rbind (@away)), away_unnoticed. Qed.

(** ** The programs follow it *)

Ltac outside_step :=
  match goal with
  | |- outside _ (rbind _ _) => apply (only_rbind _ whatever); [|intros ? _]
  | |- outside _ (except _ _) => apply only_except; [|intros ?]
  | |- outside _ (perform _) => apply only_perform; reflexivity
  | |- outside _ (lift ?r) => by destruct r
  | |- outside _ (getk ?d ?k) => unfold getk
  | |- outside _ (value_of _) => exact I
  | |- outside _ (raise _) => exact I
  | |- outside _ (if ?b then _ else _) => destruct b
  | |- outside _ (match ?x with _ => _ end) => destruct x
  end.

Lemma lookup_payment_outside h : outside (ok_or whatever) (lookup_payment h).
Proof. unfold lookup_payment. repeat outside_step. Qed.

Lemma send_payment_outside inv chan fee tmo parts : outside (ok_or whatever) (send_payment_v2 inv chan fee tmo parts).
Proof. unfold send_payment_v2. repeat outside_step. Qed.

Lemma get_status_outside id : outside (ok_or whatever) (get_swap_status_from_boltz id).
Proof. unfold get_swap_status_from_boltz. repeat outside_step. Qed.

Lemma get_lockup_outside id : outside (ok_or whatever) (get_lockup_transaction id).
Proof. unfold get_lockup_transaction. repeat outside_step. Qed.

Lemma checked_outside cfg s txid tx : outside (ok_or whatever) (checked_txid cfg s txid tx).
Proof. unfold checked_txid, _verify_claim_output. repeat outside_step. Qed.

Lemma cooperative_outside cfg s h : outside (ok_or whatever) (cooperative_claim cfg s h).
Proof. unfold cooperative_claim. pose proof checked_outside. repeat first [outside_step|auto]. Qed.

Lemma unilateral_outside cfg s h : outside (ok_or whatever) (unilateral_claim cfg s h).
Proof. unfold unilateral_claim. pose proof checked_outside. repeat first [outside_step|auto]. Qed.

(** Steps that leave the status alone. *)
Definition same_status (s s' : BoltzSwap) : Prop := status s' = status s.

Lemma backfill_status us t s : same_status s (backfill_from us t s).
Proof.
  induction us as [|x us IH]; cbn [backfill_from]; [done|]. case_match; [exact IH|]. case_match; [exact IH|].
  unfold assign_claim_txid. repeat case_match; done.
Qed.

Lemma backfill_outside s : outside (ok_or (same_status s)) (_backfill_claim_txid_from_wallet s).
Proof.
  unfold _backfill_claim_txid_from_wallet. case_match; [done|]. apply only_except; [|done].
  apply (only_rbind _ whatever); [by apply only_perform|]. intros [us err] _. case_match; [done|].
  apply (only_rbind _ whatever); [by apply only_perform|]. intros t _. apply backfill_status.
Qed.

Lemma record_outside st s : outside (ok_or (same_status s)) (record_boltz_status st s).
Proof.
  unfold record_boltz_status. apply (only_rbind _ whatever); [by apply only_perform|]. intros t _. case_match; [|done].
  apply (only_rbind _ whatever); [by apply only_perform|]. done.
Qed.

Lemma verify_lockup_outside d s : outside (ok_or (fun r => same_status s r.1)) (verify_lockup d s).
Proof.
  unfold verify_lockup. destruct (lockup_id_of d) as [[| | |id| |]|]; try done. case_match; [done|].
  apply (only_rbind _ whatever); [by apply only_perform|]. intros t _.
  assert (Hl : same_status s (if nonempty (lockup_txid s) then s else assign_lockup_txid (Some id) t s)).
  { unfold assign_lockup_txid. by repeat case_match. }
  set (s' := if nonempty (lockup_txid s) then s else _) in *. clearbody s'. apply only_except; [|done].
  apply (only_rbind _ whatever); [by apply only_perform|]. intros v _.
  assert (H' : outside (ok_or (fun r => same_status s r.1))
    (if nonempty (boltz_lockup_address (swap_terms s')) then
       pays <-- lift (_tx_pays_address v (default [] (boltz_lockup_address (swap_terms s')))); value_of (s', negb pays)
     else value_of (s', false))).
  { case_match; [|done]. apply (only_rbind _ whatever); [|done]. by destruct (_tx_pays_address _ _). }
  destruct v; [done|exact H'..].
Qed.

Lemma confirm_outside s : outside (ok_or (fun s' => same_status s s' \/ status s' = COMPLETED)) (confirm_claim s).
Proof.
  unfold confirm_claim. apply only_except; [|by left]. apply (only_rbind _ whatever); [by apply only_perform|]. intros confs _.
  apply (only_rbind _ whatever); [by destruct (settled_enough confs)|]. intros [|] _; [|by left].
  apply (only_rbind _ whatever); [by apply only_perform|]. by right.
Qed.

Lemma clear_status s : status (clear_transient s) = status s.
Proof. unfold clear_transient. by case_match. Qed.

Lemma assign_status v t s : status (assign_claim_txid v t s) = status s.
Proof. unfold assign_claim_txid. by case_match. Qed.

(** To the end from anywhere before it. *)
Lemma forward_end s s' : among s TERMINAL = false -> rank s' = 5 -> forward s s'.
Proof. intros Hs Hr. right. rewrite Hr. by destruct s. Qed.

Definition finally {A} (ph : seen) (a : A) : Prop := True.

Lemma ordered_commit {A} (k : unit -> rprog A) st s labels Q :
  forward st (status s) -> (forall e, Q None (Err e)) -> wp (Some (status s)) (k tt) Q ->
  wp (Some st) (rbind (perform (D_commit s labels)) k) Q.
Proof.
  intros Hf He Hk. apply wp_rbind, wp_perform; [by exists st|]. intros [[]|e] ph Hr; cbn in Hr; by subst.
Qed.

Ltac clock t := apply (wp_outside whatever); [by apply only_perform|done|intros t _].

Lemma ordered_finish st s labels : forward st (status s) -> wp (Some st) (finish s labels) finally.
Proof. intros Hs. by apply ordered_commit. Qed.

Lemma ordered_claim_lockup cfg st s : forward st CLAIMING -> status s = CLAIMING -> wp (Some st) (claim_lockup cfg s) finally.
Proof.
  intros Hs Ec. unfold claim_lockup. apply (wp_outside whatever); [apply get_lockup_outside|done|]. intros [h e] _.
  case_match; [apply ordered_commit; [by rewrite Ec|done|done]|].
  apply wp_rbind, wp_perform; [exists st; by rewrite Ec|]. intros [v|err] ph Hr; cbn in Hr; subst ph; [|done].
  case_match; [clock t; done|].
  apply (wp_outside whatever); [apply cooperative_outside|done|]. intros [txid cerr] _.
  case_match; [clock t; by apply ordered_commit|].
  apply wp_rbind, wp_perform; [by eexists|]. intros [v'|err] ph Hr; cbn in Hr; subst ph; [|done].
  clock t. case_match; [done|]. apply ordered_finish. rewrite Ec. by right.
Qed.

(** The test a program stands at. *)
Ltac branch E := match goal with |- wp _ (if ?b then _ else _) _ => destruct b eqn:E end.

Lemma ordered_advance cfg st s :
  forward st (status s) -> among (status s) TERMINAL = false -> wp (Some st) (advance_swap cfg s) finally.
Proof.
  intros Hs Ht. unfold advance_swap. apply (wp_outside whatever); [apply get_status_outside|done|]. intros [[bst data] err] _.
  branch E0; [done|]. eapply wp_outside; [apply record_outside|done|]. intros s1 Hl. unfold same_status in Hl.
  rewrite <- Hl in Hs, Ht. clear Hl s. rename s1 into s.
  assert (Hend : forall s', rank (status s') = 5 -> forward st (status s')).
  { intros s' Hr. transitivity (status s); [done|by apply forward_end]. }
  branch E1; [clock t; apply ordered_finish; by apply Hend|].
  branch E2; [clock t; apply ordered_finish; by apply Hend|].
  branch E3.
  { clock t. set (s2 := set_completed_at _ _).
    assert (Hc : status s2 = COMPLETED) by (unfold s2; simpl; by rewrite clear_status). clearbody s2.
    case_match; [apply ordered_finish, Hend; by rewrite Hc|].
    eapply wp_outside; [apply backfill_outside|done|]. intros s3 Hl. apply ordered_finish, Hend. by rewrite Hl, Hc. }
  branch E4.
  { eapply wp_outside; [apply confirm_outside|done|]. intros s2 [Hl|Hl]; apply ordered_finish; [by rewrite Hl|]. apply Hend. by rewrite Hl. }
  branch E5; [|by apply ordered_finish].
  assert (H2 : exists s2, s2 = (if among (status s) [INVOICE_PAID; PAYING_INVOICE; CREATED]
                       then set_status CLAIMING (clear_transient s) else s) /\ forward st (status s2)).
  { eexists. split; [done|]. case_match eqn:E6; [|done]. transitivity (status s); [done|]. right. by destruct (status s). }
  destruct H2 as (s2 & <- & H2).
  eapply wp_outside; [apply verify_lockup_outside|done|]. intros [s3 mismatch] Hl. cbn in Hl. unfold same_status in Hl.
  rewrite <- Hl in H2. destruct mismatch; [by apply ordered_commit|].
  branch E6; [|by apply ordered_finish]. apply andb_prop in E6 as [E6%bool_decide_eq_true _].
  apply ordered_claim_lockup; [by rewrite <- E6|done].
Qed.

Lemma ordered_reenter s Q :
  status s = PAYING_INVOICE ->
  (forall e, Q (Some (status s)) (Err e)) -> (forall e, Q None (Err e)) ->
  (forall s' pay, among (status s') TERMINAL = false -> (pay = true -> status s' = PAYING_INVOICE) ->
     Q (Some (status s')) (Ok (s', pay))) ->
  wp (Some (status s)) (reenter_payment s) Q.
Proof.
  intros Hs He He' HQ. assert (Ht : among (status s) TERMINAL = false) by by rewrite Hs.
  unfold reenter_payment. cbv zeta. branch E; [by apply HQ|].
  apply (wp_outside whatever); [apply lookup_payment_outside|done|]. intros [lk err] _.
  destruct lk as [lk|], err as [err|]; try by apply HQ.
  apply (wp_outside whatever); [unfold getk; by destruct lk|done|]. intros lst _.
  branch E1; [by apply HQ|]. branch E2; [|by apply HQ]. clock t.
  match goal with |- wp _ (rbind (perform (D_commit ?x _)) _) _ => assert (G : status x = INVOICE_PAID) end.
  { simpl. by rewrite clear_status. }
  apply ordered_commit; [rewrite G, Hs; by right|done|]. apply HQ; [by rewrite G|done].
Qed.

Definition paid_end (ph : seen) (r : result (BoltzSwap + json)) : Prop :=
  match r with Ok (inl s) => ph = Some (status s) /\ among (status s) TERMINAL = false | _ => True end.

Lemma ordered_pay cfg pct st s : forward st PAYING_INVOICE -> wp (Some st) (pay_invoice cfg pct s) paid_end.
Proof.
  intros Hs. unfold pay_invoice. clock t. set (s1 := append_history _ _).
  assert (E1 : status s1 = PAYING_INVOICE) by done. clearbody s1.
  apply ordered_commit; [by rewrite E1|done|].
  apply (wp_outside whatever); [by destruct (swap_fee_limit _ _)|done|]. intros fee _.
  case_match; [|done]. apply (wp_outside whatever); [apply send_payment_outside|done|]. intros [res err] _.
  rewrite E1. branch E2.
  - branch E3.
    + clock t'. apply ordered_commit; [by right|done|done].
    + clock t'.
      match goal with |- wp _ (rbind (perform (D_commit ?x _)) _) _ => assert (G : status x = PAYING_INVOICE) end.
      { simpl. by case_match. }
      apply ordered_commit; [by rewrite G|done|]. split; [done|by rewrite G].
  - destruct res as [res|]; [|done].
    apply (wp_outside whatever); [unfold getk; by destruct res|done|]. intros h _. clock t'.
    match goal with |- wp _ (rbind (perform (D_commit ?x _)) _) _ => assert (G : status x = INVOICE_PAID) end.
    { destruct h as [| | |[|]| |]; simpl; by rewrite clear_status. }
    apply ordered_commit; [rewrite G; by right|done|]. split; [done|by rewrite G].
Qed.

Lemma ordered_close {A} (p : rprog A) ph : wp ph p finally -> wp ph (in_session p) finally.
Proof. intros Hp. apply wp_bind. eapply wp_mono; [|exact Hp]. intros ph' r _. by split. Qed.

Lemma ordered_select {A} (k : option BoltzSwap -> rprog A) Q :
  (forall e, Q None (Err e)) -> wp None (k None) Q -> (forall s, wp (Some (status s)) (k (Some s)) Q) ->
  wp None (rbind (perform D_select) k) Q.
Proof. intros He Hn Hk. apply wp_rbind, wp_perform; [done|]. intros [[s|]|e] ph' Hr; cbn in Hr; by subst. Qed.

Lemma ordered_process cfg pct : wp None (_run_process_swap cfg pct) finally.
Proof.
  apply ordered_close, wp_except, ordered_select; [done|done|]. intros s.
  branch Ht; [done|]. apply wp_rbind.
  assert (Hpay : forall s' (pay : bool), among (status s') TERMINAL = false ->
    (pay = true -> forward (status s') PAYING_INVOICE) ->
    wp (Some (status s'))
      (paid <-- (if pay then pay_invoice cfg pct s' else value_of (inl s'));
       match paid with
       | inr result => value_of result
       | inl swap =>
           advanced <-- advance_swap cfg swap;
           let '(swap, advance_err) := advanced in
           value_of (JDict [(u "status", JStr (value (status swap)));
                            (u "advance_error", match advance_err with Some e => JStr e | None => JNull end)])
       end) (fun ph r => match r with Ok a => finally ph (Ok a) | Err e => wp ph (value_of (JDict
               [(u "status", JStr (u "error")); (u "detail", JStr (exn_text e))])) finally end)).
  { intros s' pay Hn Hp. apply wp_rbind. apply (wp_mono _ _ paid_end).
    - intros ph [[s2|j]|e] Hr; [|done|done]. destruct Hr as [-> Hn2].
      apply wp_rbind. eapply wp_mono; [|by apply ordered_advance]. by intros ph [[s3 err]|e].
    - destruct pay; [by apply ordered_pay, Hp|done]. }
  branch E.
  - apply bool_decide_eq_true in E. apply ordered_reenter; [done|done|done|]. intros s' pay Hn Hp. apply Hpay; [done|].
    by intros ->%Hp.
  - apply Hpay; [done|]. intros Hc%bool_decide_eq_true. rewrite Hc. by right.
Qed.

Lemma ordered_recover cfg : wp None (recover_pending_swap cfg) finally.
Proof.
  apply ordered_close, ordered_select; [done|done|]. intros s. branch E; [done|]. apply wp_rbind, wp_except. branch E1.
  - by apply (wp_outside whatever); [apply only_perform|..].
  - apply wp_rbind. eapply wp_mono; [|apply ordered_advance; [done|]]; [by intros ph [[s3 err]|e]|].
    by destruct (status s).
Qed.

Lemma ordered_under_lock claim st s :
  (forall s h, outside (ok_or whatever) (claim s h)) -> forward st (status s) -> forward (status s) CLAIMED ->
  wp (Some st) (claim_under_lock claim s) finally.
Proof.
  intros Hclaim Hs Hc. unfold claim_under_lock. apply (wp_outside whatever); [apply get_lockup_outside|done|]. intros [h e] _.
  branch E; [done|].
  apply wp_rbind, wp_perform; [by exists st|]. intros [v|err] ph Hr; cbn in Hr; subst ph; [|done].
  branch E1; [clock t; by apply ordered_commit|].
  apply (wp_outside whatever); [apply Hclaim|done|]. intros [txid cerr] _.
  branch E2; [clock t; by apply ordered_commit|].
  apply wp_rbind, wp_perform; [by eexists|]. intros [v'|err] ph Hr; cbn in Hr; subst ph; [|done].
  clock t. by apply ordered_commit.
Qed.

Definition marks_failed (r : request) : bool := match r with MarkFailed _ => true | _ => false end.

Lemma ordered_worker cfg r : marks_failed r = false -> wp None (worker cfg r) finally.
Proof.
  destruct r as [pct| |m| | |tip]; intros Hm; cbn [worker]; [apply ordered_process|apply ordered_recover|done|..].
  all: apply ordered_close, ordered_select; [done|done|]; intros s; apply wp_rbind; apply (wp_mono _ _ finally).
  - by intros ph [[s' [[|] b]]|e].
  - unfold cancel_swap. branch E; [done|]. apply negb_false_iff, bool_decide_eq_true in E. clock t. clock t'.
    apply ordered_commit; [rewrite E; by right|done|done].
  - intros ph [[s' [a b]]|e] _; [|done]. unfold claim_answer. by case_match.
  - unfold retry_cooperative_claim. branch E; [done|]. branch E1; [done|].
    apply negb_false_iff, bool_decide_eq_true in E1. apply ordered_under_lock; [apply cooperative_outside|done|rewrite E1; by right].
  - intros ph [[s' [a b]]|e] _; [|done]. unfold claim_answer. by case_match.
  - unfold retry_unilateral_claim. branch E; [done|]. branch E1; [done|].
    destruct (timeout_block_height _), tip; try done. branch E2; [done|].
    apply ordered_under_lock; [apply unilateral_outside|done|]. right. by destruct (status s).
Qed.

(** ** The database of one session *)

Record alone (w : world) (ph : seen) : Prop := {
  al_lock : forall j s, lock w = Some (j, s) -> j = 0%nat;
  al_row : forward (status (row w)) (status (visible w 0));
  al_seen : forall st, ph = Some st -> exists b, loaded w !! 0%nat = Some b /\ status b = st /\ status (visible w 0) = st
}.

Definition onward (w w' : world) : Prop := forward (status (row w)) (status (row w')).

Lemma not_locked_out w ph : alone w ph -> locked_out w 0 = false.
Proof. intros [Hl _ _]. unfold locked_out. destruct (lock w) as [[j s]|]; [|done]. by rewrite (Hl j s). Qed.

Lemma rollback_alone w ph : alone w ph -> lock (rollback 0 w) = None /\ row (rollback 0 w) = row w.
Proof.
  intros [Hl _ _]. unfold rollback, holds_lock. destruct (lock w) as [[j s]|] eqn:E; [|done]. by rewrite (Hl j s).
Qed.

Lemma unlocked_alone w : lock w = None -> alone w None.
Proof. intros E. split; rewrite ?E; [done|unfold visible; by rewrite E|done]. Qed.

Lemma failed_alone w ph : alone w ph -> alone (rollback 0 w) None /\ onward w (rollback 0 w).
Proof.
  intros H. destruct (rollback_alone w ph H) as [E1 E2]. split; [by apply unlocked_alone|]. unfold onward. by rewrite E2.
Qed.

Lemma flush_alone w ph t cur w' :
  alone w ph -> moves ph cur -> flush 0 t cur w = Some w' ->
  alone w' (Some (status cur)) /\ row w' = row w.
Proof.
  intros HA (st & -> & Hf). destruct (al_seen _ _ HA _ eq_refl) as (b & HL & Hb & Hv).
  unfold flush, base_of. rewrite HL. cbn [default]. case_bool_decide as E.
  - intros [= <-]. split; [|done]. destruct HA as [H1 H2 H3]. split; [done|done|]. intros st' [= <-]. exists b. by rewrite E, Hv, Hb.
  - rewrite (not_locked_out w _ HA). intros [= <-]. split; [|done].
    assert (Em : status (merge t b cur (visible w 0)) = status cur).
    { simpl. unfold pick. case_bool_decide as E'; [|done]. by rewrite Hv, <- Hb. }
    set (w2 := with_loaded _ 0 cur).
    assert (Ev : visible w2 0 = merge t b cur (visible w 0)) by done.
    split; rewrite ?Ev, ?Em.
    + by intros j s [= <- _].
    + transitivity (status (visible w 0)); [apply HA|]. by rewrite Hv.
    + intros st' [= <-]. exists cur. unfold w2. simpl. by rewrite lookup_insert_eq.
Qed.

Lemma commit_alone w ph t cur labels r w' :
  alone w ph -> moves ph cur -> commit 0 t cur labels w = (r, w') ->
  alone w' (match r with Ok _ => Some (status cur) | Err _ => None end) /\ onward w w' /\ alone (rollback 0 w') None.
Proof.
  intros HA Hm. unfold commit. destruct (flush 0 t cur w) as [w1|] eqn:Hf.
  - destruct (flush_alone w ph t cur w1 HA Hm Hf) as [HA1 Er]. case_match; intros [= <- <-].
    + destruct (failed_alone w1 _ HA1) as [F O]. split_and!; [done| |by eapply failed_alone].
      unfold onward in *. by rewrite <- Er.
    + destruct (al_seen _ _ HA1 _ eq_refl) as (b & HL & Hb & Hv).
      set (w2 := mkWorld _ _ _ _ _ _).
      assert (Hn : lock w2 = None).
      { unfold w2, holds_lock. simpl. destruct (lock w1) as [[j s]|] eqn:E; [|done]. by rewrite (al_lock _ _ HA1 j s). }
      assert (HA2 : alone w2 (Some (status cur))).
      { split; [by rewrite Hn|unfold visible; by rewrite Hn|]. intros st' [= <-]. exists b. unfold visible at 1. rewrite Hn. by split_and!. }
      split_and!; [done| |by eapply failed_alone]. unfold onward. rewrite <- Er. apply HA1.
  - intros [= <- <-]. destruct (failed_alone w ph HA) as [F O]. split_and!; [done|done|by eapply failed_alone].
Qed.

Lemma lock_alone w ph t cur r w' :
  alone w ph -> moves ph cur -> lock_claim_txid 0 t cur w = (r, w') ->
  alone w' (match r with Ok _ => Some (status cur) | Err _ => None end) /\ onward w w'.
Proof.
  intros HA Hm. unfold lock_claim_txid. destruct (flush 0 t cur w) as [w1|] eqn:Hf.
  - destruct (flush_alone w ph t cur w1 HA Hm Hf) as [HA1 Er]. rewrite (not_locked_out w1 _ HA1). intros [= <- <-].
    assert (Ev : visible (with_lock w1 (Some (0%nat, visible w1 0))) 0 = visible w1 0) by done.
    split; [|unfold onward; simpl; by rewrite Er]. destruct HA1 as [H1 H2 H3]. split; rewrite ?Ev; [by intros j s [= <- _]|done|done].
  - intros [= <- <-]. by eapply failed_alone.
Qed.

Lemma read_alone w ph t cur r w' :
  alone w ph -> moves ph cur -> read_claim_txid 0 t cur w = (r, w') ->
  alone w' (match r with Ok _ => Some (status cur) | Err _ => None end) /\ onward w w'.
Proof.
  intros HA Hm. unfold read_claim_txid. destruct (flush 0 t cur w) as [w1|] eqn:Hf; intros [= <- <-].
  - destruct (flush_alone w ph t cur w1 HA Hm Hf) as [HA1 Er]. split; [done|]. unfold onward. by rewrite Er.
  - by eapply failed_alone.
Qed.

Lemma call_alone X (o : call X) c w ph :
  alone w ph -> may ph o ->
  exists ph', after ph o (fst (run_call 0 o c w)) ph' /\ alone (snd (run_call 0 o c w)) ph' /\ onward w (snd (run_call 0 o c w)).
Proof.
  intros HA Hm. destruct (failed_alone w ph HA) as [F O].
  destruct o; simpl in Hm |- *; try (exists ph; split; [done|]; split; [exact HA|by left]).
  - subst ph. destruct (c_fault c); [|by exists None..]. exists (Some (status (visible w 0))). split_and!; [done| |by left].
    destruct HA as [H1 H2 H3]. split; [done|done|]. intros st [= <-]. exists (visible w 0). simpl. by rewrite lookup_insert_eq.
  - destruct (commit 0 (c_now c) swap labels w) as [r w'] eqn:E.
    destruct (commit_alone w ph _ _ _ _ _ HA Hm E) as (C1 & C2 & C3). destruct (c_fault c); simpl; rewrite ?E; [|by exists None|].
    + eexists. split; [|by split; [exact C1|]]. by destruct r as [[]|].
    + exists None. split_and!; [done|done|]. destruct (rollback_alone w' _ C1) as [_ Er]. unfold onward in *. by rewrite Er.
  - destruct (c_fault c); simpl; [|by exists None..]. destruct (lock_claim_txid 0 (c_now c) swap w) as [r w'] eqn:E.
    destruct (lock_alone w ph _ _ _ _ HA Hm E) as [C1 C2]. eexists. split; [|by split; [exact C1|]]. by destruct r.
  - destruct (c_fault c); simpl; [|by exists None..]. destruct (read_claim_txid 0 (c_now c) swap w) as [r w'] eqn:E.
    destruct (read_alone w ph _ _ _ _ HA Hm E) as [C1 C2]. eexists. split; [|by split; [exact C1|]]. by destruct r.
  - by exists None.
  - exists ph. split; [done|]. destruct HA as [H1 H2 H3]. destruct (c_send c) as [[]|]; (split; [by split|by left]).
  - exists ph. split; [done|]. destruct HA as [H1 H2 H3]. destruct (c_spawn c) as [[]|]; (split; [by split|by left]).
Qed.

Lemma solo_onward cs : forall p w ph,
  wp ph p finally -> alone w ph -> onward w (solo cs p w) /\ lock (solo cs p w) = None.
Proof.
  assert (Hend : forall w ph, alone w ph -> onward w (rollback 0 w) /\ lock (rollback 0 w) = None).
  { intros w ph HA. split; [by eapply failed_alone|by eapply rollback_alone]. }
  induction cs as [|c cs IH]; intros p w ph Hp HA; simpl; [by eapply Hend|].
  destruct p as [a|X o k]; [by eapply Hend|]. destruct Hp as [Hm Hk].
  destruct (call_alone X o c w ph HA Hm) as (ph' & Ha & HA' & Ho). destruct (run_call 0 o c w) as [r w'] eqn:E. simpl in *.
  destruct (IH (k r) w' ph' (Hk r ph' Ha) HA') as [O1 L1]. split; [|done]. unfold onward in *. by transitivity (status (row w')).
Qed.

(** *** The end of the task's retries *)

(** What [_mark_swap_failed] may do to the status: nothing, or FAILED over
    anything but COMPLETED. *)
Definition marked (w w' : world) : Prop :=
  lock w' = None /\
  (status (row w') = status (row w) \/ (status (row w) <> COMPLETED /\ status (row w') = FAILED)).

Lemma rollback_unlocked w : lock w = None -> rollback 0 w = w.
Proof. intros E. unfold rollback, holds_lock. by rewrite E. Qed.

(** A commit of the session that has loaded the row. *)
Lemma commit_loaded t cur w :
  lock w = None -> loaded w !! 0%nat = Some (row w) ->
  exists w', commit 0 t cur [] w = (Ok tt, w') /\ lock w' = None /\ status (row w') = status cur.
Proof.
  intros Hl Hb. unfold commit, flush, base_of. rewrite Hb. cbn [default]. case_bool_decide as E.
  - eexists. split; [done|]. unfold holds_lock, visible. rewrite Hl. by rewrite E.
  - unfold locked_out. rewrite Hl. eexists. split; [done|]. split; [done|].
    unfold visible. cbn. rewrite Hl. unfold pick. by case_bool_decide.
Qed.

Lemma solo_marked cfg m cs w : lock w = None -> marked w (solo cs (worker cfg (MarkFailed m)) w).
Proof.
  intros Hl. assert (Hsame : marked w (rollback 0 w)) by (rewrite rollback_unlocked by done; split; auto).
  assert (Hclose : forall w' cs r, marked w w' ->
    marked w (solo cs (Call D_close (fun _ => Return r) : rprog json) w')).
  { intros w' cs' r H. destruct cs' as [|c cs']; cbn; rewrite !rollback_unlocked by apply H; [done|].
    destruct cs'; cbn; by rewrite rollback_unlocked by apply H. }
  destruct cs as [|c cs]; [exact Hsame|].
  cbn [worker]. unfold _mark_swap_failed, with_swap, in_session, rbind. cbn [pbind perform solo run_call].
  destruct (c_fault c); [|exact (Hclose (rollback 0 w) cs (Err DB_ERROR) Hsame)..]. unfold visible. rewrite Hl.
  set (w1 := with_loaded w 0 (row w)).
  assert (H1 : marked w w1) by (split; [done|by left]).
  destruct (among (status (row w)) [COMPLETED; FAILED]) eqn:Ha; [apply (Hclose w1 cs _ H1)|].
  cbv zeta. cbn [pbind perform].
  destruct cs as [|c2 cs]; [cbn; by rewrite rollback_unlocked by done|]. cbn [solo run_call].
  destruct cs as [|c3 cs]; [cbn; by rewrite rollback_unlocked by done|]. cbn [solo run_call].
  set (cur := append_history _ _).
  assert (Hc : status cur = FAILED) by done. clearbody cur.
  destruct (commit_loaded (c_now c3) cur w1) as (w2 & Ec & Hl2 & Hs2); [done|unfold w1; simpl; by rewrite lookup_insert_eq|].
  assert (H2 : marked w w2).
  { split; [done|]. right. rewrite Hs2. split; [|done]. intros E. by rewrite E in Ha. }
  cbn [pbind perform run_call]. destruct (c_fault c3); cbn [statement].
  - rewrite Ec. apply (Hclose w2 cs _ H2).
  - rewrite rollback_unlocked by done. apply (Hclose w1 cs _ H1).
  - rewrite Ec. cbn [snd]. rewrite rollback_unlocked by done. apply (Hclose w2 cs _ H2).
Qed.

(** The one way a swap that has ended changes its end. *)
Definition overwritten (reqs : list (request * list choice)) (st st' : SwapStatus) : Prop :=
  (st = CANCELLED \/ st = REFUNDED) /\ st' = FAILED /\ exists x, x ∈ reqs /\ marks_failed x.1 = true.

Lemma marked_forward r cs reqs w w' :
  marks_failed r = true -> marked w w' ->
  forward (status (row w)) (status (row w')) \/ overwritten ((r, cs) :: reqs) (status (row w)) (status (row w')).
Proof.
  intros Hm [_ [E|[Hn E]]]; rewrite E; [left; by left|]. unfold overwritten, forward.
  destruct (status (row w)); try (left; right; done); try done; [by left; left|right..].
  all: split; [auto|]; split; [done|]; exists (r, cs); set_solver.
Qed.

(** C12. When requests do not overlap, whatever the services answer, whichever
    statements and commits fail and wherever a worker dies: the stored status
    only moves forward (created, paying, paid, claiming, claimed, ended), and
    a swap that has ended keeps its end, with exactly one exception: a swap
    that was cancelled or refunded becomes FAILED when the task that works on
    it runs out of retries. *)
Theorem lifecycle_forward cfg reqs w :
  lock w = None ->
  let st := status (row w) in let st' := status (row (one_by_one cfg reqs w)) in
  (forward st st' \/ overwritten reqs st st') /\
  (among st TERMINAL = true -> st' = st \/ overwritten reqs st st').
Proof.
  intros Hl. cbv zeta.
  assert (H : forward (status (row w)) (status (row (one_by_one cfg reqs w))) \/
    overwritten reqs (status (row w)) (status (row (one_by_one cfg reqs w)))).
  { revert w Hl. induction reqs as [|[r cs] reqs IH]; intros w Hl; [left; by left|]. cbn [one_by_one fold_left].
    fold (one_by_one cfg reqs (solo cs (worker cfg r) w)). set (w1 := solo cs (worker cfg r) w).
    assert (H1 : (forward (status (row w)) (status (row w1)) \/ overwritten ((r, cs) :: reqs) (status (row w)) (status (row w1))) /\
      lock w1 = None).
    { destruct (marks_failed r) eqn:Hm.
      - assert (marked w w1) by (destruct r; try done; by apply solo_marked).
        split; [by apply marked_forward|by destruct H].
      - destruct (solo_onward cs (worker cfg r) w None (ordered_worker cfg r Hm) (unlocked_alone w Hl)) as [O L]. by split; [left|]. }
    destruct H1 as [H1 L1]. specialize (IH w1 L1). clearbody w1.
    assert (Hmore : forall a b, overwritten reqs a b -> overwritten ((r, cs) :: reqs) a b).
    { intros a b (Ha & Hb & x & Hx & Hm). repeat split; [done|done|]. exists x. set_solver. }
    destruct H1 as [H1|H1], IH as [IH|IH]; [left; by etrans| |right|].
    - destruct H1 as [E|Hr]; [right; rewrite <- E; by apply Hmore|].
      destruct IH as (Ha & -> & _). left. right. destruct Ha as [E|E]; by rewrite E in Hr.
    - destruct H1 as (Ha & E & Hx). rewrite E in IH. apply forward_terminal in IH; [|done]. by rewrite IH.
    - destruct H1 as (_ & E & _), IH as ([E'|E'] & _); by rewrite E in E'. }
  split; [done|]. intros Ht. destruct H as [H|H]; [left; by apply forward_terminal|by right].
Qed.
