(* ===== verification/SwapRuns.v ===== *)
(** * What can be relied on of a swap

    The results over runs of concurrent requests, with runs that show what
    cannot be relied on: a cancellation that does not stop the payment, a
    claim that is lost because its output already has a label, a stored claim
    id that is replaced, a cancelled swap that is failed. *)
From S2P Require Import Prelude Prog Bytes RateLimit PyInt Utf8 Json PyJson PyFloat Bolt11 Swap SwapWorld SwapSafety SwapOrder.

(** ** Scenes *)

Definition demo_cfg : config := mkConfig "bitcoin" 16.

Definition demo_dest : ustr := u "bc1qw508d6qejxtdg4y5r3zarvary0c5xw7kv8f3t4".
Definition demo_lockup : ustr := u "bc1plockup".
Definition demo_txid : ustr := u "c1a1".
Definition lockup_txid_hex : ustr := u "00000000000000000000000000000000000000000000000000000000000000aa".

Definition demo_terms : terms :=
  mkTerms (u "swap1") 1000000 (Some 990000) demo_dest (Some (map (fun c => Z.of_N (N_of_ascii c)) demo_invoice))
    (Some demo_lockup) (Some 900000) None.

Definition swap_at (st : SwapStatus) : BoltzSwap :=
  mkSwap demo_terms st (JStr (u "swap.created")) None (Some []) None None None None 0 0 None None None.

Definition boltz_says (st : string) : json :=
  JDict [(u "status", JStr (u st)); (u "transaction", JDict [(u "id", JStr lockup_txid_hex)])].

Definition verified_lockup : json := JDict [(u "vout", JList [JDict [(u "scriptpubkey_address", JStr demo_lockup)]])].

(** Healthy services: Boltz reports [st], LND pays, the claim script prints
    [txid]. *)
Definition healthy (st : string) : choice :=
  mkChoice NoFault 7 (Ok (Some (boltz_says st), None)) (Ok (Some (JDict [(u "hex", JStr (u "0200"))]), None))
    (Ok verified_lockup) (Ok (JDict [(u "confirmations", JInt 1)])) (Ok ([], None))
    (Ok (Some (JDict [(u "payments", JList [])]), None)) (Ok true)
    (Ok (Lines [Some (JDict [(u "result", JDict [(u "status", JStr (u "SUCCEEDED")); (u "payment_hash", JStr (u "ab"))])])] None))
    (Ok Running) (Ok (Exited 0 [] (Some (JDict [(u "txid", JStr demo_txid)])) [] [])) (Ok tt).

(** How each request stands. *)
Definition results (s : system) : list (option (result json)) :=
  map (fun p => match p with Return r => Some r | Call _ _ => None end) (pool s).

Lemma swap_run_some {A} (o : option system) (f : system -> A) a : f <$> o = Some a -> exists s, o = Some s /\ f s = a.
Proof. destruct o as [s|]; [|done]. intros [= <-]. eauto. Qed.

(** ** Claims *)

(** A request that waits for its claim script. *)
Definition waiting (p : rprog json) : bool :=
  match p with Call o _ => match o with N_wait => true | _ => false end | Return _ => false end.

(** C10. Whatever tasks and operator requests work on a swap at once, however
    their calls interleave, whichever statements fail, commits are lost and
    workers die: no two live requests run a claim script at the same time,
    and from the moment a claim's transaction id is stored no further claim
    script is started and the swap keeps a claim's transaction id. *)
Theorem claims_exclusive cfg r labels reqs es es' s s' :
  row_ok r -> run es (start cfg r labels reqs) = Some s -> run es' s = Some s' ->
  (forall i j p q, pool s !! i = Some p -> pool s !! j = Some q -> waiting p = true -> waiting q = true -> i = j) /\
  (nonempty (claim_txid (row (the s))) = true ->
     spawns (the s') = spawns (the s) /\ nonempty (claim_txid (row (the s'))) = true).
Proof.
  intros Hr H1 H2. destruct (run_sound es _ s (start_sound cfg r labels reqs Hr) H1) as [HS _].
  destruct (run_sound es' s s' HS H2) as [_ [G K]]. split.
  - destruct HS as (phs & Hps & HC).
    assert (Hlock : forall i p, pool s !! i = Some p -> waiting p = true -> exists v, lock (the s) = Some (i, v)).
    { intros i p Hi Hw. destruct p as [|X o k]; [done|]. destruct o; try done.
      destruct (Forall2_lookup_r _ _ _ _ _ Hps Hi) as (ph & Hph & [Hm _]). simpl in Hm.
      destruct (in_held _ _ HC i ph Hph) as (v & Hv & _); [by rewrite Hm|]. by exists v. }
    intros i j p q Hi Hj Hp Hq. destruct (Hlock _ _ Hi Hp) as [v Ev], (Hlock _ _ Hj Hq) as [v' Ev']. congruence.
  - intros Hn. split; [by apply K|]. by destruct G as [_ [->|Hg] _ _ _].
Qed.

(** Two tasks and an operator's retry on a swap whose lockup is in the
    mempool. The first task is at its claim script when the second is turned
    away by the lock; the retry comes after the claim is stored. *)
Definition contention : list event :=
  replicate 9 (ERun 0 (healthy "transaction.mempool")) ++ replicate 9 (ERun 1 (healthy "transaction.mempool")) ++
  [ERun 2 (healthy "transaction.mempool")] ++ replicate 5 (ERun 0 (healthy "transaction.mempool")).

Definition contention_start : system :=
  start demo_cfg (swap_at CLAIMING) [] [Process default_fee_percent; Process default_fee_percent; RetryCooperative].

Definition late_retry : list event := replicate 5 (ERun 2 (healthy "transaction.mempool")).

(** The lock's error; the answer to the retry; what is stored. *)
Definition status_result (st : string) (more : list (ustr * json)) : result json := Ok (JDict ((u "status", JStr (u st)) :: more)).

Lemma claims_exclusive_witness :
  exists s s', run contention contention_start = Some s /\ run late_retry s = Some s' /\
    (status (row (the s)), claim_txid (row (the s)), spawns (the s)) = (CLAIMED, Some demo_txid, 1%nat) /\
    results s' = [Some (status_result "claimed" [(u "advance_error", JNull)]);
                  Some (status_result "error" [(u "detail", JStr (u "database"))]); Some (Ok (JStr (u "claimed")))] /\
    spawns (the s') = spawns (the s) /\ nonempty (claim_txid (row (the s'))) = true.
Proof.
  destruct (swap_run_some (run contention contention_start) (fun s => (status (row (the s)), claim_txid (row (the s)), spawns (the s)))
    (CLAIMED, Some demo_txid, 1%nat)) as (s & E & V); [vm_compute; reflexivity|].
  destruct (swap_run_some (run contention contention_start ≫= run late_retry) results
    [Some (status_result "claimed" [(u "advance_error", JNull)]);
     Some (status_result "error" [(u "detail", JStr (u "database"))]); Some (Ok (JStr (u "claimed")))])
    as (s' & E' & V'); [vm_compute; reflexivity|].
  rewrite E in E'. change (run late_retry s = Some s') in E'. exists s, s'. split; [exact E|]. split; [exact E'|]. split; [exact V|]. split; [exact V'|].
  eapply (claims_exclusive demo_cfg (swap_at CLAIMING) []); [by split|exact E|exact E'|].
  injection V as _ V _. by rewrite V.
Defined.

(** ** Rows *)

(** C13. In every such run the stored row keeps its terms, a column that
    once held a transaction id or a broadcast time is never emptied, and each
    stored claim or lockup transaction id comes with a broadcast time. The
    id a column holds may be replaced by another one: see
    [claim_id_is_replaced]. *)
Theorem stored_ids_stamped cfg r labels reqs es es' s s' :
  row_ok r -> run es (start cfg r labels reqs) = Some s -> run es' s = Some s' ->
  row_ok (row (the s)) /\ row_ok (row (the s')) /\ grows r (row (the s)) /\ grows (row (the s)) (row (the s')).
Proof.
  intros Hr H H'. destruct (run_sound es _ s (start_sound cfg r labels reqs Hr) H) as [HS [G _]].
  destruct (run_sound es' s s' HS H') as [HS' [G' _]].
  destruct HS as (phs & _ & HC), HS' as (phs' & _ & HC'). split; [apply HC|]. split; [apply HC'|done].
Qed.

Lemma stored_ids_stamped_witness :
  exists s s', run contention contention_start = Some s /\ run late_retry s = Some s' /\
    (claim_broadcast_at (row (the s)), lockup_broadcast_at (row (the s))) = (Some 7, Some 7) /\ row_ok (row (the s')).
Proof.
  destruct (swap_run_some (run contention contention_start) (fun s => (claim_broadcast_at (row (the s)), lockup_broadcast_at (row (the s))))
    (Some 7, Some 7)) as (s & E & V); [vm_compute; reflexivity|].
  destruct (swap_run_some (run contention contention_start ≫= run late_retry) (fun s => status (row (the s))) CLAIMED)
    as (s' & E' & _); [vm_compute; reflexivity|].
  rewrite E in E'. change (run late_retry s = Some s') in E'.
  exists s, s'. split; [exact E|]. split; [exact E'|]. split; [exact V|].
  apply (stored_ids_stamped demo_cfg (swap_at CLAIMING) []
           [Process default_fee_percent; Process default_fee_percent; RetryCooperative] contention late_retry s s');
    [by split|exact E|exact E'].
Defined.

(** The worker dies at the claim, the recovery claims, Boltz settles; a late
    cancellation finds the swap completed. *)
Lemma lifecycle_forward_witness :
  exists reqs, status (row (one_by_one demo_cfg reqs (fresh (swap_at CREATED) []))) = COMPLETED /\
    forward CREATED (status (row (one_by_one demo_cfg reqs (fresh (swap_at CREATED) [])))).
Proof.
  exists [(Process default_fee_percent, replicate 18 (healthy "transaction.mempool"));
          (Recover, replicate 30 (healthy "transaction.confirmed"));
          (Process default_fee_percent, replicate 30 (healthy "invoice.settled"));
          (Cancel, replicate 30 (healthy "swap.created"))].
  split; [vm_compute; reflexivity|].
  destruct (proj1 (lifecycle_forward demo_cfg
    [(Process default_fee_percent, replicate 18 (healthy "transaction.mempool"));
     (Recover, replicate 30 (healthy "transaction.confirmed"));
     (Process default_fee_percent, replicate 30 (healthy "invoice.settled"));
     (Cancel, replicate 30 (healthy "swap.created"))] (fresh (swap_at CREATED) []) eq_refl)) as [H|[[H|H] _]];
    [exact H|discriminate H..].
Defined.

(** The exception: [_mark_swap_failed] spares COMPLETED and FAILED only. *)
Example cancelled_swap_fails :
  let w := one_by_one demo_cfg [(Cancel, replicate 30 (healthy "swap.created"))] (fresh (swap_at CREATED) []) in
  status (row w) = CANCELLED /\
  status (row (one_by_one demo_cfg [(MarkFailed (u "Max retries exceeded"), replicate 30 (healthy "swap.created"))] w)) = FAILED.
Proof. vm_compute. split; reflexivity. Qed.

(** ** Lost updates *)

(** A cancellation reads the row before the task commits PAYING_INVOICE and
    writes it afterwards. *)
Definition cancel_race : list event :=
  [ERun 1 (healthy "swap.created")] ++ replicate 4 (ERun 0 (healthy "swap.created")) ++
  replicate 4 (ERun 1 (healthy "swap.created")).

(** Requests that overlap can undo each other: a cancellation that
    answers success leaves the row CANCELLED although the invoice's payment
    has been sent to LND, and the task that sent it then moves the cancelled
    swap on to INVOICE_PAID. *)
Example cancelled_swap_is_paid :
  let s0 := start demo_cfg (swap_at CREATED) [] [Process default_fee_percent; Cancel] in
  (fun s => (results s !! 1%nat, status (row (the s)), length (sends (the s)))) <$> run cancel_race s0 =
    Some (Some (Some (Ok (JStr (u "cancelled")))), CANCELLED, 1%nat) /\
  (fun s => status (row (the s))) <$> run (cancel_race ++ replicate 8 (ERun 0 (healthy "swap.created"))) s0 =
    Some INVOICE_PAID.
Proof. vm_compute. split; reflexivity. Qed.

(** The label of a claimed output is added to the transaction that
    stores the claim, outside the [try] that is to keep a failure there from
    breaking the swap: when the output has a label already, the commit fails
    and takes the claim's transaction id with it, although the claim was
    broadcast; the next task starts another claim. *)
Example labelled_claim_is_lost :
  let s0 := start demo_cfg (swap_at INVOICE_PAID) [demo_txid] [Process default_fee_percent; Process default_fee_percent] in
  let tick i := replicate 14 (ERun i (healthy "transaction.confirmed")) in
  (fun s => (results s !! 0%nat, claim_txid (row (the s)), spawns (the s))) <$> run (tick 0%nat) s0 =
    Some (Some (Some (status_result "error" [(u "detail", JStr (u "database"))])), None, 1%nat) /\
  (fun s => (claim_txid (row (the s)), spawns (the s))) <$> run (tick 0%nat ++ tick 1%nat) s0 = Some (None, 2%nat).
Proof. vm_compute. split; reflexivity. Qed.

(** Two tasks that both find the swap created both send its payment: only
    LND's own refusal of a second payment to the same hash keeps it from
    being paid twice. *)
Example two_tasks_both_send :
  let s0 := start demo_cfg (swap_at CREATED) [] [Process default_fee_percent; Process default_fee_percent] in
  (fun s => length (sends (the s))) <$>
    run ([ERun 1 (healthy "swap.created")] ++ replicate 4 (ERun 0 (healthy "swap.created")) ++
         replicate 3 (ERun 1 (healthy "swap.created"))) s0 = Some 2%nat.
Proof. vm_compute. reflexivity. Qed.

(** A task that has read the row before a claim was stored, and finds the
    invoice settled, fills in the id of an output of the wallet at the
    destination, whatever id is stored by now. *)
Definition settled_with (txid : ustr) : choice :=
  mkChoice NoFault 9 (Ok (Some (boltz_says "invoice.settled"), None)) (c_transaction (healthy "invoice.settled"))
    (Ok verified_lockup) (Ok JNull) (Ok ([mkUtxo demo_dest txid], None)) (Ok (None, None)) (Ok true)
    (Ok (Lines [] None)) (Ok Running) (Ok TimedOut) (Ok tt).

Example claim_id_is_replaced :
  let s0 := start demo_cfg (swap_at CLAIMING) [] [Process default_fee_percent; Process default_fee_percent] in
  let claim := [ERun 1 (healthy "transaction.mempool")] ++ replicate 14 (ERun 0 (healthy "transaction.mempool")) in
  (fun s => claim_txid (row (the s))) <$> run claim s0 = Some (Some demo_txid) /\
  (fun s => claim_txid (row (the s))) <$> run (claim ++ replicate 7 (ERun 1 (settled_with (u "bbbb")))) s0 = Some (Some (u "bbbb")).
Proof. vm_compute. split; reflexivity. Qed.
