(* ===== verification/SwapLive.v ===== *)
(** * A paid swap is claimed and completed

    With services that answer and no other request at work, one run of the
    task claims the lockup of a paid swap and a later one, once Boltz reports
    the invoice settled, completes it. *)
From S2P Require Import Prelude Prog Bytes RateLimit PyInt Utf8 Json PyJson PyFloat TxPolicy ScriptPubKey Swap SwapWorld SwapSafety SwapRuns.

(** One program alone, every call answered by [c]. *)
Fixpoint exec {A} (c : choice) (p : Prog.prog call A) (w : world) : A * world :=
  match p with
  | Return a => (a, w)
  | Call o k => let '(r, w') := run_call 0 o c w in exec c (k r) w'
  end.

Lemma exec_bind {A B} c (p : Prog.prog call A) (f : A -> Prog.prog call B) : forall w,
  exec c (pbind p f) w = let '(a, w') := exec c p w in exec c (f a) w'.
Proof.
  induction p as [a|X o k IH]; intros w; cbn [pbind exec]; [done|]. destruct (run_call 0 o c w) as [r w']. apply IH.
Qed.

Lemma exec_rbind {A B} c (p : rprog A) (f : A -> rprog B) w :
  exec c (rbind p f) w =
  match exec c p w with (Ok a, w') => exec c (f a) w' | (Err e, w') => (Err e, w') end.
Proof. unfold rbind. rewrite exec_bind. by destruct (exec c p w) as [[]]. Qed.

Lemma exec_except {A} c (p : rprog A) h w :
  exec c (except p h) w = match exec c p w with (Ok a, w') => (Ok a, w') | (Err e, w') => exec c (h e) w' end.
Proof. unfold except. rewrite exec_bind. by destruct (exec c p w) as [[]]. Qed.

(** ** The surroundings *)

(** The text is the hexadecimal form of a claim of the swap: a version-2
    transaction with one replaceable input and one output, which pays the
    script of the destination no less than the amount of the swap less 25000
    sat and no more than twice that amount. *)
Definition claims_for (cfg : config) (tm : terms) (tx_hex : ustr) : Prop :=
  exists raw t value spk amount,
    fromhex (String.string_of_list_ascii (latin tx_hex)) = Ok raw /\ encodes raw t /\ from_le (tx_version t) = 2 /\
    tx_sequences t = [0xFFFFFFFD] /\ single_output (tx_outputs t) value spk /\
    address_to_script_pubkey (latin (destination_address tm)) (bitcoin_network cfg) = Ok spk /\
    onchain_amount_sats tm = Some amount /\ 0 < amount /\ Z.max 1 (amount - 25000) <= value <= amount * 2.

(** Boltz reports the lockup and hands it out, the chain backend does not
    contradict it, and the script prints a claim's id and, as it is always
    asked to, the claim itself; a script that leaves the claim out is let
    through as well. *)
Record claimable (cfg : config) (c : choice) (tm : terms) (txid : ustr) : Prop := {
  cl_fault : c_fault c = NoFault;
  cl_status : exists d, c_status c = Ok (Some (JDict d), None) /\
    one_of (dget d (u "status")) ["transaction.mempool"; "transaction.confirmed"] = true;
  cl_lockup : exists d, c_transaction c = Ok (Some (JDict d), None) /\ truthy (dget d (u "hex")) = true;
  cl_verify : c_verify c = Ok JNull \/ (exists e, c_verify c = Err e) \/
    exists v, c_verify c = Ok v /\ _tx_pays_address v (default [] (boltz_lockup_address tm)) = Ok true;
  cl_spawn : c_spawn c = Ok Running;
  cl_wait : exists out o lines err, c_wait c = Ok (Exited 0 out (Some (JDict o)) lines err) /\
    dget o (u "txid") = JStr txid /\
    (dget o (u "txHex") = JNull \/ exists tx_hex, dget o (u "txHex") = JStr tx_hex /\ claims_for cfg tm tx_hex);
  cl_txid : txid <> []
}.

Record settled (c : choice) : Prop := {
  st_fault : c_fault c = NoFault;
  st_status : exists d, c_status c = Ok (Some (JDict d), None) /\ dget d (u "status") = JStr (u "invoice.settled")
}.

(** ** Sessions without a fault *)

(** The world of a session that has loaded [b], up to [updated_at]. *)
Record opened (w : world) (b : BoltzSwap) : Prop := {
  op_loaded : loaded w !! 0%nat = Some b;
  op_visible : exists t, visible w 0 = set_updated_at t b;
  op_lock : locked_out w 0 = false
}.

Lemma merge_base t t' b cur : swap_terms cur = swap_terms b ->
  merge t b cur (set_updated_at t' b) = set_updated_at (pick (updated_at b) (updated_at cur) t) cur.
Proof.
  assert (P : forall {A} `{EqDecision A} (x y : A), pick x y x = y) by (intros A ? x y; unfold pick; by case_bool_decide).
  intros E. unfold merge, set_updated_at. simpl. rewrite !P, E. done.
Qed.

Lemma flush_opened w b t cur : opened w b -> swap_terms cur = swap_terms b ->
  exists w', flush 0 t cur w = Some w' /\ opened w' cur /\ labelled w' = labelled w.
Proof.
  intros [HL [t' HV] HK] E. unfold flush, base_of. rewrite HL. cbn [default]. case_bool_decide as Ec.
  - subst. exists w. by repeat split; eauto.
  - rewrite HK. eexists. split; [done|]. split; [|done]. rewrite HV, merge_base by done.
    split; [simpl; by rewrite lookup_insert_eq|by eexists|done].
Qed.

Section calls.
Context (c : choice) (Hf : c_fault c = NoFault).

Lemma exec_commit w b cur labels :
  opened w b -> swap_terms cur = swap_terms b -> Forall (fun l => l ∉ labelled w) labels ->
  exists w', exec c (perform (D_commit cur labels)) w = (Ok tt, w') /\ opened w' cur /\ lock w' = None /\
    exists t, row w' = set_updated_at t cur.
Proof.
  intros Ho E Hl. destruct (flush_opened w b (c_now c) cur Ho E) as (w1 & Hfl & Ho1 & El).
  cbn [exec perform run_call statement]. rewrite Hf. unfold statement, commit. rewrite Hfl, El.
  assert (existsb (fun l => bool_decide (l ∈ labelled w)) labels = false) as ->.
  { induction Hl as [|l ls Hl _ IH]; simpl; [done|]. rewrite IH, orb_false_r. by apply bool_decide_eq_false. }
  eexists. split; [done|]. destruct Ho1 as [HL [t HV] HK].
  assert (Hn : (if holds_lock w1 0 then None else lock w1) = None).
  { unfold locked_out, holds_lock in *. destruct (lock w1) as [[j s]|]; [|done]. by apply negb_false_iff in HK as ->. }
  split; [|simpl; eauto]. split; [done| |]; unfold visible, locked_out; simpl; rewrite Hn; [by exists t|done].
Qed.

Lemma exec_lock w b cur :
  opened w b -> swap_terms cur = swap_terms b ->
  exists w', exec c (perform (D_lock_claim_txid cur)) w = (Ok (claim_txid cur), w') /\ opened w' cur /\ labelled w' = labelled w.
Proof.
  intros Ho E. destruct (flush_opened w b (c_now c) cur Ho E) as (w1 & Hfl & Ho1 & El).
  cbn [exec perform run_call]. rewrite Hf. unfold statement, lock_claim_txid. rewrite Hfl.
  destruct Ho1 as [HL [t HV] HK]. rewrite HK. eexists. split; [by rewrite HV|]. split; [|done].
  split; [done|by exists t|done].
Qed.

Lemma exec_read w b cur :
  opened w b -> swap_terms cur = swap_terms b ->
  exists w', exec c (perform (D_claim_txid cur)) w = (Ok (claim_txid cur), w') /\ opened w' cur /\ labelled w' = labelled w.
Proof.
  intros Ho E. destruct (flush_opened w b (c_now c) cur Ho E) as (w1 & Hfl & Ho1 & El).
  cbn [exec perform run_call]. rewrite Hf. unfold statement, read_claim_txid. rewrite Hfl.
  destruct Ho1 as [HL [t HV] HK]. eexists. split; [by rewrite HV|]. split; [|done]. by split; [|exists t|].
Qed.
End calls.

(** ** The claim *)

Lemma opened_started w b r : opened w b -> opened (started r w) b /\ labelled (started r w) = labelled w.
Proof. intros [H1 H2 H3]. destruct r as [[]|]; (split; [by split|done]). Qed.

(** What the task carries from step to step. *)
Definition carries (s s' : BoltzSwap) : Prop :=
  swap_terms s' = swap_terms s /\ status s' = status s /\ claim_txid s' = claim_txid s.

Lemma exec_record c st s w : exists s', exec c (record_boltz_status st s) w = (Ok s', w) /\ carries s s'.
Proof.
  unfold record_boltz_status. cbn [exec rbind pbind perform run_call value_of].
  destruct (negb _); cbn [exec rbind pbind perform run_call value_of]; eexists; by repeat split.
Qed.

Lemma exec_clock {A} c (f : Z -> rprog A) w : exec c (rbind (perform utc_now) f) w = exec c (f (c_now c)) w.
Proof. done. Qed.

Lemma latin_u t : String.string_of_list_ascii (latin (u t)) = t.
Proof.
  unfold latin, u. rewrite map_map. rewrite <- (String.string_of_list_ascii_of_string t) at 2. f_equal.
  induction (String.list_ascii_of_string t) as [|a l IH]; [done|]. cbn [map]. rewrite IH. f_equal.
  pose proof (N_ascii_bounded a) as Hb. rewrite N2Z.id.
  rewrite (proj2 (Z.leb_le _ _)), (proj2 (Z.ltb_lt _ _)) by lia. apply ascii_N_embedding.
Qed.

Lemma fromhex_truthy t raw : fromhex (String.string_of_list_ascii (latin t)) = Ok raw -> raw <> [] -> truthy (JStr t) = true.
Proof. destruct t; [|done]. by intros [= <-]. Qed.

(** The output check lets a claim of the swap through. *)
Lemma exec_verify_claim cfg c s tx_hex w :
  claims_for cfg (swap_terms s) tx_hex ->
  truthy (JStr tx_hex) = true /\ exec c (_verify_claim_output cfg s (JStr tx_hex)) w = (Ok None, w).
Proof.
  intros (raw & t & value & spk & amount & Hraw & Henc & Hv & Hseq & Hout & Hspk & Ham & Hpos & Hband). split.
  - apply (fromhex_truthy _ _ Hraw). intros ->. pose proof (spend_size _ _ _ Henc Hseq) as Hl. unfold size in Hl. simpl in Hl. lia.
  - unfold _verify_claim_output. rewrite Hspk. cbv zeta. unfold claim_output_ok. rewrite Ham, latin_u. cbn [default from_option id].
    unfold claim_band. rewrite (proj2 (Z.ltb_lt 0 amount)) by done.
    rewrite (claim_encodes _ raw _ _ _ t value spk Hraw Henc Hv Hseq Hout (fromhex_hex spk) Hband). done.
Qed.

Section claim.
Context (cfg : config) (c : choice) (txid : ustr) (s : BoltzSwap).
Context (H : claimable cfg c (swap_terms s) txid).

Lemma exec_verify d w : exists s', exec c (verify_lockup d s) w = (Ok (s', false), w) /\ carries s s'.
Proof.
  unfold verify_lockup. destruct (lockup_id_of d) as [[| | |id| |]|]; try (eexists; split; [done|by repeat split]).
  case_match; [eexists; split; [done|by repeat split]|]. rewrite exec_clock.
  set (s' := if nonempty (lockup_txid s) then s else assign_lockup_txid (Some id) (c_now c) s).
  assert (Hs : carries s s') by (unfold s', assign_lockup_txid; by repeat case_match).
  exists s'. split; [|done]. destruct Hs as (-> & _ & _). clearbody s'. rewrite exec_except, exec_rbind. cbn [exec perform run_call].
  destruct (cl_verify _ _ _ _ H) as [->|[[e ->]|(v & -> & Hv)]]; [done|done|].
  destruct (nonempty (boltz_lockup_address (swap_terms s))); [|by destruct v].
  destruct v; [done|..]; rewrite exec_rbind; unfold lift; cbn [exec]; by rewrite Hv.
Qed.

Lemma exec_cooperative h w : exec c (cooperative_claim cfg s h) w = (Ok (Some txid, None), started (Ok Running) w).
Proof.
  unfold cooperative_claim. rewrite exec_rbind. cbn [exec perform run_call]. rewrite (cl_spawn _ _ _ _ H).
  rewrite exec_rbind. cbn [exec perform run_call].
  destruct (cl_wait _ _ _ _ H) as (out & o & lines & err & -> & H1 & H2). cbn [Z.eqb negb].
  rewrite exec_rbind. unfold getk, lift. cbn [exec py_get]. fold (dget o (u "txid")). rewrite H1.
  pose proof (cl_txid _ _ _ _ H) as Hn.
  assert (truthy (JStr txid) = true) as -> by (by destruct txid). cbn [negb].
  rewrite exec_rbind. cbn [exec py_get]. fold (dget o (u "txHex")). unfold checked_txid. rewrite exec_rbind.
  destruct H2 as [->|(tx_hex & -> & Hc)]; [done|].
  destruct (exec_verify_claim cfg c s tx_hex (started (Ok Running) w) Hc) as [-> ->]. done.
Qed.

Lemma exec_claim w b :
  opened w b -> swap_terms s = swap_terms b -> status s = CLAIMING -> claim_txid s = None ->
  lower_text txid ∉ labelled w ->
  exists s' w', exec c (claim_lockup cfg s) w = (Ok (s', None), w') /\ lock w' = None /\
    status (row w') = CLAIMED /\ claim_txid (row w') = Some txid.
Proof.
  intros Ho Et Es Ec Hlab. pose proof (cl_fault _ _ _ _ H) as Hf. pose proof (cl_txid _ _ _ _ H) as Hn.
  assert (Hnt : nonempty (Some txid) = true) by (by destruct txid).
  unfold claim_lockup. rewrite exec_rbind.
  assert (exists h, exec c (get_lockup_transaction (boltz_swap_id (swap_terms s))) w = (Ok (h, None), w)) as [h ->].
  { unfold get_lockup_transaction. rewrite exec_rbind. cbn [exec perform run_call].
    destruct (cl_lockup _ _ _ _ H) as (d & -> & Hd). cbn [nonempty]. rewrite exec_rbind. unfold getk, lift. cbn [exec py_get].
    fold (dget d (u "hex")). rewrite Hd. by eexists. }
  cbn [nonempty]. rewrite exec_rbind.
  destruct (exec_lock c Hf w b s Ho Et) as (w1 & -> & Ho1 & El1). rewrite Ec. cbn [nonempty].
  rewrite exec_rbind, exec_cooperative. cbn [nonempty].
  destruct (opened_started w1 s (Ok Running) Ho1) as [Ho2 El2]. set (w2 := started (Ok Running) w1) in *. clearbody w2.
  rewrite exec_rbind. destruct (exec_read c Hf w2 s s Ho2 eq_refl) as (w3 & -> & Ho3 & El3). rewrite Ec. cbn [nonempty].
  rewrite exec_clock. unfold finish. rewrite exec_rbind.
  set (s1 := set_status CLAIMED (assign_claim_txid (Some txid) (c_now c) s)).
  assert (E1 : swap_terms s1 = swap_terms s /\ status s1 = CLAIMED /\ claim_txid s1 = Some txid)
    by (unfold s1, assign_claim_txid; by case_match). clearbody s1. destruct E1 as (T1 & T2 & T3).
  destruct (exec_commit c Hf w3 s s1 [lower_text txid] Ho3 T1) as (w4 & -> & _ & Hlk & t & Hrow).
  { constructor; [|done]. by rewrite El3, El2, El1. }
  exists s1, w4. split; [done|]. split; [done|]. by rewrite Hrow.
Qed.
End claim.

(** ** The task *)

Lemma exec_status c d id w :
  c_status c = Ok (Some (JDict d), None) ->
  exec c (get_swap_status_from_boltz id) w = (Ok (dget d (u "status"), JDict d, None), w).
Proof.
  intros E. unfold get_swap_status_from_boltz. rewrite exec_rbind. cbn [exec perform run_call]. rewrite E. done.
Qed.

Lemma lockup_seen v : one_of v ["transaction.mempool"; "transaction.confirmed"] = true ->
  v = JStr (u "transaction.mempool") \/ v = JStr (u "transaction.confirmed").
Proof.
  unfold one_of, is_jstr. cbn [existsb]. destruct v; try done. rewrite orb_false_r, orb_true_iff, !bool_decide_eq_true.
  intros [-> | ->]; eauto.
Qed.

Lemma exec_advance_claim cfg c txid s w :
  claimable cfg c (swap_terms s) txid ->
  opened w s -> status s = INVOICE_PAID \/ status s = CLAIMING -> claim_txid s = None -> lower_text txid ∉ labelled w ->
  exists s' w', exec c (advance_swap cfg s) w = (Ok (s', None), w') /\ lock w' = None /\
    status (row w') = CLAIMED /\ claim_txid (row w') = Some txid.
Proof.
  intros H Ho Hst Hc Hlab. destruct (cl_status _ _ _ _ H) as (d & Ed & Hd).
  unfold advance_swap. rewrite exec_rbind, (exec_status c d) by done. cbn [nonempty]. rewrite exec_rbind.
  destruct (exec_record c (dget d (u "status")) s w) as (s1 & -> & T1 & S1 & C1).
  assert (one_of (dget d (u "status")) ["invoice.expired"; "swap.expired"; "transaction.failed"] = false /\
          is_jstr (dget d (u "status")) (u "transaction.refunded") = false /\
          is_jstr (dget d (u "status")) (u "invoice.settled") = false) as (-> & -> & ->)
    by (destruct (lockup_seen _ Hd) as [-> | ->]; done).
  assert (bool_decide (status s1 = CLAIMED) && nonempty (claim_txid s1) = false) as ->
    by (rewrite C1, Hc; apply andb_false_r).
  rewrite Hd.
  set (s2 := if among (status s1) [INVOICE_PAID; PAYING_INVOICE; CREATED] then set_status CLAIMING (clear_transient s1) else s1).
  assert (E2 : swap_terms s2 = swap_terms s /\ status s2 = CLAIMING /\ claim_txid s2 = None).
  { unfold s2. rewrite S1, <- T1, <- Hc, <- C1. unfold clear_transient.
    destruct Hst as [E|E]; rewrite E.
    - change (among INVOICE_PAID _) with true. cbv iota. split_and!; by destruct (_ && _).
    - change (among CLAIMING _) with false. cbv iota. by rewrite S1. }
  clearbody s2. destruct E2 as (T2 & S2 & C2). rewrite <- T2 in H.
  rewrite exec_rbind. destruct (exec_verify cfg c txid s2 H (JDict d) w) as (s3 & -> & T3 & S3 & C3).
  rewrite S3, S2, C3, C2. cbn [nonempty negb andb bool_decide]. rewrite <- T3 in H.
  rewrite bool_decide_eq_true_2 by done. cbn [andb].
  eapply exec_claim; [exact H|exact Ho|by rewrite T3|by rewrite S3|by rewrite C3|done].
Qed.

Lemma exec_advance_settled cfg c s w :
  settled c -> opened w s -> nonempty (claim_txid s) = true ->
  exists s' w', exec c (advance_swap cfg s) w = (Ok (s', None), w') /\
    status (row w') = COMPLETED /\ claim_txid (row w') = claim_txid s.
Proof.
  intros [Hf (d & Ed & Hd)] Ho Hc.
  unfold advance_swap. rewrite exec_rbind, (exec_status c d) by done. rewrite Hd. cbn [nonempty]. rewrite exec_rbind.
  destruct (exec_record c (JStr (u "invoice.settled")) s w) as (s1 & -> & T1 & _ & C1).
  rewrite (eq_refl : one_of (JStr (u "invoice.settled")) ["invoice.expired"; "swap.expired"; "transaction.failed"] = false).
  rewrite (eq_refl : is_jstr (JStr (u "invoice.settled")) (u "transaction.refunded") = false).
  rewrite (eq_refl : is_jstr (JStr (u "invoice.settled")) (u "invoice.settled") = true).
  rewrite exec_clock. set (s2 := set_completed_at _ _).
  assert (E2 : swap_terms s2 = swap_terms s /\ status s2 = COMPLETED /\ claim_txid s2 = claim_txid s)
    by (unfold s2, clear_transient; rewrite <- T1, <- C1; by case_match).
  clearbody s2. destruct E2 as (T2 & S2 & C2). rewrite C2, Hc, exec_rbind. cbn [exec value_of].
  unfold finish. rewrite exec_rbind.
  destruct (exec_commit c Hf w s s2 [] Ho T2) as (w1 & -> & _ & _ & t & Hrow); [done|].
  exists s2, w1. split; [done|]. by rewrite Hrow.
Qed.

(** The task on a row it has not to pay for: its advance, then the end of the
    session. *)
Lemma exec_process cfg pct c w s' err w' :
  c_fault c = NoFault -> lock w = None -> among (status (row w)) (CREATED :: PAYING_INVOICE :: TERMINAL) = false ->
  exec c (advance_swap cfg (row w)) (with_loaded w 0 (row w)) = (Ok (s', err), w') ->
  snd (exec c (worker cfg (Process pct)) w) = rollback 0 w'.
Proof.
  intros Hf Hl Hs Ha. cbn [worker]. unfold _run_process_swap, in_session. rewrite exec_bind, exec_except, exec_rbind.
  cbn [exec perform run_call]. rewrite Hf. assert (visible w 0 = row w) as -> by (unfold visible; by rewrite Hl).
  unfold among in *. apply bool_decide_eq_false in Hs. rewrite !not_elem_of_cons in Hs. destruct Hs as (H1 & H2 & H3).
  rewrite !bool_decide_eq_false_2 by done. rewrite exec_rbind. cbn [exec value_of]. rewrite exec_rbind. cbn [exec value_of].
  rewrite exec_rbind, Ha. done.
Qed.

Lemma opened_loaded w : lock w = None -> opened (with_loaded w 0 (row w)) (row w).
Proof.
  intros Hl. split; [simpl; by rewrite lookup_insert_eq| |unfold locked_out; simpl; by rewrite Hl].
  exists (updated_at (row w)). unfold visible. simpl. rewrite Hl. by destruct (row w).
Qed.

(** C11. When Boltz reports the lockup of a paid swap and hands it out, the
    chain backend does not contradict it, and the claim script prints an id
    whose output has no label yet together with the transaction that claims
    the swap for its destination, one run of the task checks that
    transaction, stores the id and moves the swap to CLAIMED; a run after
    Boltz has reported the invoice settled completes the swap and keeps the
    claim. Nothing else works on the swap and no call fails. *)
Theorem paid_swap_completes cfg pct pct' c c' txid r labels :
  status r = INVOICE_PAID \/ status r = CLAIMING -> claim_txid r = None ->
  claimable cfg c (swap_terms r) txid -> lower_text txid ∉ labels -> settled c' ->
  let w1 := snd (exec c (worker cfg (Process pct)) (fresh r labels)) in
  let w2 := snd (exec c' (worker cfg (Process pct')) w1) in
  (status (row w1), claim_txid (row w1)) = (CLAIMED, Some txid) /\
  (status (row w2), claim_txid (row w2)) = (COMPLETED, Some txid).
Proof.
  intros Hs Hc H Hlab H'. pose proof (cl_txid _ _ _ _ H) as Hn.
  destruct (exec_advance_claim cfg c txid r (with_loaded (fresh r labels) 0 r) H (opened_loaded (fresh r labels) eq_refl) Hs Hc Hlab)
    as (s1 & w' & E1 & L1 & S1 & C1).
  assert (E : snd (exec c (worker cfg (Process pct)) (fresh r labels)) = w').
  { rewrite (exec_process cfg pct c (fresh r labels) s1 None w' (cl_fault _ _ _ _ H) eq_refl); [| |exact E1].
    - unfold rollback, holds_lock. by rewrite L1.
    - cbn [row fresh]. by destruct Hs as [-> | ->]. }
  cbv zeta. rewrite E. split; [by rewrite S1, C1|].
  destruct (exec_advance_settled cfg c' (row w') (with_loaded w' 0 (row w')) H' (opened_loaded w' L1))
    as (s2 & w2 & E2 & S2 & C2); [rewrite C1; by destruct txid|].
  rewrite (exec_process cfg pct' c' w' s2 None w2 (st_fault _ H') L1); [|by rewrite S1|exact E2].
  by rewrite (proj1 (rollback_row 0 w2)), S2, C2, C1.
Qed.

(** A claim of 985000 of the 990000 sat of the demonstration swap. *)
Definition demo_claim_tx : string :=
  "0200000000010100000000000000000000000000000000000000000000000000000000000000000000000000fdffffff01a8070f0000000000160014751e76e8199196d454941c45d1b3a323f1433bd60101aa00000000".

Definition printing (c : choice) (o : list (ustr * json)) : choice :=
  mkChoice (c_fault c) (c_now c) (c_status c) (c_transaction c) (c_verify c) (c_confs c) (c_unspent c) (c_payments c) (c_send c) (c_stream c)
    (c_spawn c) (Ok (Exited 0 [] (Some (JDict o)) [] [])) (c_done c).

Definition demo_claiming : choice :=
  printing (healthy "transaction.mempool")
    [(u "event", JStr (u "claim_broadcast_complete")); (u "txid", JStr demo_txid); (u "txHex", JStr (u demo_claim_tx))].

Lemma demo_claims_for : claims_for demo_cfg demo_terms (u demo_claim_tx).
Proof.
  destruct (claim_decodes demo_claim_tx (raw_of demo_claim_tx) "0014751e76e8199196d454941c45d1b3a323f1433bd6" 965000 1980000 None)
    as (t & value & script & He & Hv & Hs & Ho & Hk & Hb); [vm_compute; reflexivity|vm_compute; reflexivity|].
  exists (raw_of demo_claim_tx), t, value, script, 990000. rewrite latin_u.
  split; [vm_compute; reflexivity|]. split; [done|]. split; [done|]. split; [exact Hs|]. split; [done|].
  split; [rewrite <- Hk; vm_compute; reflexivity|]. split; [done|]. split; [done|]. exact Hb.
Qed.

Lemma paid_swap_completes_witness :
  let w1 := snd (exec demo_claiming (worker demo_cfg (Process default_fee_percent)) (fresh (swap_at INVOICE_PAID) [])) in
  let w2 := snd (exec (healthy "invoice.settled") (worker demo_cfg (Process default_fee_percent)) w1) in
  (status (row w2), claim_txid (row w2)) = (COMPLETED, Some demo_txid).
Proof.
  refine (proj2 (paid_swap_completes demo_cfg default_fee_percent default_fee_percent demo_claiming
    (healthy "invoice.settled") demo_txid (swap_at INVOICE_PAID) [] _ _ _ _ _)).
  - by left.
  - done.
  - split; [done|eexists; by split|eexists; by split| |done| |done].
    + right; right. eexists. split; [reflexivity|]. vm_compute. reflexivity.
    + do 4 eexists. split; [reflexivity|]. split; [done|]. right. exists (u demo_claim_tx). split; [done|]. exact demo_claims_for.
  - by apply not_elem_of_nil.
  - split; [done|]. eexists. by split.
Defined.

(** A claim that pays someone else is reported and not stored. *)
Example foreign_claim_refused :
  let w := snd (exec (printing (healthy "transaction.mempool") [(u "txid", JStr demo_txid); (u "txHex", JStr (u demo_claim))])
    (worker demo_cfg (Process default_fee_percent)) (fresh (swap_at INVOICE_PAID) [])) in
  (status (row w), claim_txid (row w)) = (CLAIMING, None).
Proof. vm_compute. reflexivity. Qed.
