(* ===== verification/AnonState.v ===== *)
(** * Anonymize sessions: statuses, transition graph and session row

    The enum and the row of models/anonymize_session.py, the transition
    graph of anonymize/state_machine.py, the two status-writing methods of
    [AnonymizeService] (service.py), the reason classifier of
    reconciliation_classify.py and the depth rule of reorg.py.

    Statuses and reasons are text columns, so the graph is a dictionary on
    text as in the source and [value] maps the enum into it. Times are
    microseconds since the epoch. A method that mutates the row and then
    raises returns the mutated row together with the exception. *)
From S2P Require Import Prelude Bytes Utf8 Json PyJson.

Inductive AnonymizeStatus :=
  | CREATED | SOURCING | FUNDING | LN_HOLDING | DELAYING | HOPPING | EXITING | CONFIRMING
  | COMPLETED | COMPLETED_WITH_REORG_UNCERTAINTY | AWAITING_RECONCILIATION | AWAITING_CHANNEL_CLOSE
  | AWAITING_LIQUID_DWELL | CANCELLED | REFUNDING | FAILED.

Global Instance AnonymizeStatus_eq_dec : EqDecision AnonymizeStatus.
Proof. solve_decision. Defined.

Definition value (st : AnonymizeStatus) : ustr :=
  u match st with
    | CREATED => "created"
    | SOURCING => "sourcing"
    | FUNDING => "funding"
    | LN_HOLDING => "ln_holding"
    | DELAYING => "delaying"
    | HOPPING => "hopping"
    | EXITING => "exiting"
    | CONFIRMING => "confirming"
    | COMPLETED => "completed"
    | COMPLETED_WITH_REORG_UNCERTAINTY => "completed_with_reorg_uncertainty"
    | AWAITING_RECONCILIATION => "awaiting_reconciliation"
    | AWAITING_CHANNEL_CLOSE => "awaiting_channel_close"
    | AWAITING_LIQUID_DWELL => "awaiting_liquid_dwell"
    | CANCELLED => "cancelled"
    | REFUNDING => "refunding"
    | FAILED => "failed"
    end.

(** The members of the enum, in declaration order. *)
Definition AnonymizeStatus_values : list AnonymizeStatus :=
  [CREATED; SOURCING; FUNDING; LN_HOLDING; DELAYING; HOPPING; EXITING; CONFIRMING; COMPLETED;
   COMPLETED_WITH_REORG_UNCERTAINTY; AWAITING_RECONCILIATION; AWAITING_CHANNEL_CLOSE;
   AWAITING_LIQUID_DWELL; CANCELLED; REFUNDING; FAILED].

Definition ANONYMIZE_TERMINAL_STATUSES : list ustr :=
  map value [COMPLETED; COMPLETED_WITH_REORG_UNCERTAINTY; CANCELLED; FAILED].

Definition mem (x : ustr) (l : list ustr) : bool := existsb (fun y => bool_decide (x = y)) l.

(** ** The graph (state_machine.py) *)

Definition edges (st : AnonymizeStatus) : list AnonymizeStatus :=
  match st with
  | CREATED => [SOURCING; FUNDING; CANCELLED; FAILED]
  | SOURCING => [FUNDING; LN_HOLDING; CANCELLED; FAILED; AWAITING_RECONCILIATION]
  | FUNDING => [LN_HOLDING; DELAYING; CANCELLED; FAILED; AWAITING_RECONCILIATION]
  | LN_HOLDING => [DELAYING; HOPPING; REFUNDING; FAILED; AWAITING_RECONCILIATION]
  | DELAYING => [HOPPING; EXITING; REFUNDING; FAILED; AWAITING_RECONCILIATION]
  | HOPPING => [DELAYING; EXITING; REFUNDING; FAILED; AWAITING_RECONCILIATION; AWAITING_LIQUID_DWELL]
  | EXITING => [CONFIRMING; FAILED; AWAITING_RECONCILIATION]
  | CONFIRMING => [COMPLETED; COMPLETED_WITH_REORG_UNCERTAINTY; FAILED; AWAITING_RECONCILIATION]
  | AWAITING_RECONCILIATION =>
      [HOPPING; EXITING; CONFIRMING; COMPLETED; COMPLETED_WITH_REORG_UNCERTAINTY; REFUNDING; FAILED; CANCELLED]
  | AWAITING_CHANNEL_CLOSE => [COMPLETED; FAILED]
  | AWAITING_LIQUID_DWELL => [HOPPING; DELAYING; EXITING; REFUNDING; FAILED; AWAITING_RECONCILIATION]
  | REFUNDING => [FAILED; AWAITING_RECONCILIATION]
  | COMPLETED => []
  | COMPLETED_WITH_REORG_UNCERTAINTY => []
  | CANCELLED => []
  | FAILED => []
  end.

Definition _TRANSITIONS : list (ustr * list ustr) :=
  map (fun st => (value st, map value (edges st)))
    [CREATED; SOURCING; FUNDING; LN_HOLDING; DELAYING; HOPPING; EXITING; CONFIRMING;
     AWAITING_RECONCILIATION; AWAITING_CHANNEL_CLOSE; AWAITING_LIQUID_DWELL; REFUNDING;
     COMPLETED; COMPLETED_WITH_REORG_UNCERTAINTY; CANCELLED; FAILED].

Definition is_terminal (st : ustr) : bool := mem st ANONYMIZE_TERMINAL_STATUSES.

Definition legal_next_statuses (from : ustr) : list ustr := default [] (assoc from _TRANSITIONS).

Definition is_legal_transition (from to : ustr) : bool :=
  bool_decide (from = to) || mem to (legal_next_statuses from).

Definition assert_legal_transition (from to : ustr) : result unit :=
  if is_legal_transition from to then Ok tt else Err IllegalStateTransitionError.

(** The startup check; set differences are taken by filtering. *)
Definition assert_graph_covers_every_enum_value : result unit :=
  let known := map fst _TRANSITIONS in
  let enum_values := map value AnonymizeStatus_values in
  match List.filter (fun v => negb (mem v known)) enum_values with
  | _ :: _ => Err (RuntimeError "state machine missing rows for: ")
  | [] =>
      match List.filter (fun v => negb (mem v enum_values)) known with
      | _ :: _ => Err (RuntimeError "state machine has rows for unknown statuses: ")
      | [] => Ok tt
      end
  end.

(** The proposed steps of a batch, as (from, to). *)
Definition validate_attempts (attempts : list (ustr * ustr)) : result unit :=
  (fun _ => tt) <$> mapR (fun a => assert_legal_transition a.1 a.2) attempts.

(** ** The session row *)

Inductive AnonymizeSourceKind := LIGHTNING_SELF | EXT_LIGHTNING | ONCHAIN_SELF | EXT_ONCHAIN.

Definition source_value (k : AnonymizeSourceKind) : ustr :=
  u match k with
    | LIGHTNING_SELF => "lightning-self"
    | EXT_LIGHTNING => "ext-lightning"
    | ONCHAIN_SELF => "onchain-self"
    | EXT_ONCHAIN => "ext-onchain"
    end.

Record AnonymizeSession := mkSession {
  session_id : Z;
  created_at : option Z;
  updated_at : option Z;
  status : ustr;
  source_kind : ustr;
  bin_amount_sat : Z;
  pipeline_json : json;
  pipeline_schema_version : Z;
  claim_broadcast_at_ts : option Z;
  claim_tx_confirmations : Z;
  claim_tx_reorg_observed_count : Z;
  pre_reconciliation_status : option ustr;
  awaiting_reconciliation_reason : option ustr;
  last_reconciliation_attempt_ts : option Z;
  reconciliation_attempts : Z;
  last_error : option ustr;
  completed_at : option Z;
  deleted_at : option Z;
  claim_tx_hex : option ustr;
  claim_txid : option ustr;
  broadcast_deadline_unix_s : option Z;
  reverse_operator_id : option ustr
}.

Definition set_updated_at (s : AnonymizeSession) (v : option Z) : AnonymizeSession :=
  mkSession (session_id s) (created_at s) v (status s) (source_kind s) (bin_amount_sat s) (pipeline_json s)
    (pipeline_schema_version s) (claim_broadcast_at_ts s) (claim_tx_confirmations s)
    (claim_tx_reorg_observed_count s) (pre_reconciliation_status s) (awaiting_reconciliation_reason s)
    (last_reconciliation_attempt_ts s) (reconciliation_attempts s) (last_error s) (completed_at s)
    (deleted_at s) (claim_tx_hex s) (claim_txid s)
    (broadcast_deadline_unix_s s) (reverse_operator_id s).

Definition set_status (s : AnonymizeSession) (v : ustr) : AnonymizeSession :=
  mkSession (session_id s) (created_at s) (updated_at s) v (source_kind s) (bin_amount_sat s) (pipeline_json s)
    (pipeline_schema_version s) (claim_broadcast_at_ts s) (claim_tx_confirmations s)
    (claim_tx_reorg_observed_count s) (pre_reconciliation_status s) (awaiting_reconciliation_reason s)
    (last_reconciliation_attempt_ts s) (reconciliation_attempts s) (last_error s) (completed_at s)
    (deleted_at s) (claim_tx_hex s) (claim_txid s)
    (broadcast_deadline_unix_s s) (reverse_operator_id s).

Definition set_pipeline_json (s : AnonymizeSession) (v : json) : AnonymizeSession :=
  mkSession (session_id s) (created_at s) (updated_at s) (status s) (source_kind s) (bin_amount_sat s) v
    (pipeline_schema_version s) (claim_broadcast_at_ts s) (claim_tx_confirmations s)
    (claim_tx_reorg_observed_count s) (pre_reconciliation_status s) (awaiting_reconciliation_reason s)
    (last_reconciliation_attempt_ts s) (reconciliation_attempts s) (last_error s) (completed_at s)
    (deleted_at s) (claim_tx_hex s) (claim_txid s)
    (broadcast_deadline_unix_s s) (reverse_operator_id s).

Definition set_claim_broadcast (s : AnonymizeSession) (v : option Z) : AnonymizeSession :=
  mkSession (session_id s) (created_at s) (updated_at s) (status s) (source_kind s) (bin_amount_sat s)
    (pipeline_json s) (pipeline_schema_version s) v (claim_tx_confirmations s)
    (claim_tx_reorg_observed_count s) (pre_reconciliation_status s) (awaiting_reconciliation_reason s)
    (last_reconciliation_attempt_ts s) (reconciliation_attempts s) (last_error s) (completed_at s)
    (deleted_at s) (claim_tx_hex s) (claim_txid s)
    (broadcast_deadline_unix_s s) (reverse_operator_id s).

Definition set_pre_status (s : AnonymizeSession) (v : option ustr) : AnonymizeSession :=
  mkSession (session_id s) (created_at s) (updated_at s) (status s) (source_kind s) (bin_amount_sat s)
    (pipeline_json s) (pipeline_schema_version s) (claim_broadcast_at_ts s) (claim_tx_confirmations s)
    (claim_tx_reorg_observed_count s) v (awaiting_reconciliation_reason s)
    (last_reconciliation_attempt_ts s) (reconciliation_attempts s) (last_error s) (completed_at s)
    (deleted_at s) (claim_tx_hex s) (claim_txid s)
    (broadcast_deadline_unix_s s) (reverse_operator_id s).

Definition set_reason (s : AnonymizeSession) (v : option ustr) : AnonymizeSession :=
  mkSession (session_id s) (created_at s) (updated_at s) (status s) (source_kind s) (bin_amount_sat s)
    (pipeline_json s) (pipeline_schema_version s) (claim_broadcast_at_ts s) (claim_tx_confirmations s)
    (claim_tx_reorg_observed_count s) (pre_reconciliation_status s) v (last_reconciliation_attempt_ts s)
    (reconciliation_attempts s) (last_error s) (completed_at s) (deleted_at s) (claim_tx_hex s) (claim_txid s)
    (broadcast_deadline_unix_s s) (reverse_operator_id s).

Definition set_last_attempt (s : AnonymizeSession) (v : option Z) : AnonymizeSession :=
  mkSession (session_id s) (created_at s) (updated_at s) (status s) (source_kind s) (bin_amount_sat s)
    (pipeline_json s) (pipeline_schema_version s) (claim_broadcast_at_ts s) (claim_tx_confirmations s)
    (claim_tx_reorg_observed_count s) (pre_reconciliation_status s) (awaiting_reconciliation_reason s) v
    (reconciliation_attempts s) (last_error s) (completed_at s) (deleted_at s) (claim_tx_hex s) (claim_txid s)
    (broadcast_deadline_unix_s s) (reverse_operator_id s).

Definition set_attempts (s : AnonymizeSession) (v : Z) : AnonymizeSession :=
  mkSession (session_id s) (created_at s) (updated_at s) (status s) (source_kind s) (bin_amount_sat s)
    (pipeline_json s) (pipeline_schema_version s) (claim_broadcast_at_ts s) (claim_tx_confirmations s)
    (claim_tx_reorg_observed_count s) (pre_reconciliation_status s) (awaiting_reconciliation_reason s)
    (last_reconciliation_attempt_ts s) v (last_error s) (completed_at s) (deleted_at s) (claim_tx_hex s) (claim_txid s)
    (broadcast_deadline_unix_s s) (reverse_operator_id s).

Definition set_last_error (s : AnonymizeSession) (v : option ustr) : AnonymizeSession :=
  mkSession (session_id s) (created_at s) (updated_at s) (status s) (source_kind s) (bin_amount_sat s)
    (pipeline_json s) (pipeline_schema_version s) (claim_broadcast_at_ts s) (claim_tx_confirmations s)
    (claim_tx_reorg_observed_count s) (pre_reconciliation_status s) (awaiting_reconciliation_reason s)
    (last_reconciliation_attempt_ts s) (reconciliation_attempts s) v (completed_at s) (deleted_at s) (claim_tx_hex s) (claim_txid s)
    (broadcast_deadline_unix_s s) (reverse_operator_id s).

Definition set_completed_at (s : AnonymizeSession) (v : option Z) : AnonymizeSession :=
  mkSession (session_id s) (created_at s) (updated_at s) (status s) (source_kind s) (bin_amount_sat s)
    (pipeline_json s) (pipeline_schema_version s) (claim_broadcast_at_ts s) (claim_tx_confirmations s)
    (claim_tx_reorg_observed_count s) (pre_reconciliation_status s) (awaiting_reconciliation_reason s)
    (last_reconciliation_attempt_ts s) (reconciliation_attempts s) (last_error s) v (deleted_at s) (claim_tx_hex s) (claim_txid s)
    (broadcast_deadline_unix_s s) (reverse_operator_id s).

Definition set_claim_tx_hex (s : AnonymizeSession) (v : option ustr) : AnonymizeSession :=
  mkSession (session_id s) (created_at s) (updated_at s) (status s) (source_kind s) (bin_amount_sat s)
    (pipeline_json s) (pipeline_schema_version s) (claim_broadcast_at_ts s) (claim_tx_confirmations s)
    (claim_tx_reorg_observed_count s) (pre_reconciliation_status s) (awaiting_reconciliation_reason s)
    (last_reconciliation_attempt_ts s) (reconciliation_attempts s) (last_error s) (completed_at s)
    (deleted_at s) v (claim_txid s) (broadcast_deadline_unix_s s) (reverse_operator_id s).

Definition set_claim_txid (s : AnonymizeSession) (v : option ustr) : AnonymizeSession :=
  mkSession (session_id s) (created_at s) (updated_at s) (status s) (source_kind s) (bin_amount_sat s)
    (pipeline_json s) (pipeline_schema_version s) (claim_broadcast_at_ts s) (claim_tx_confirmations s)
    (claim_tx_reorg_observed_count s) (pre_reconciliation_status s) (awaiting_reconciliation_reason s)
    (last_reconciliation_attempt_ts s) (reconciliation_attempts s) (last_error s) (completed_at s)
    (deleted_at s) (claim_tx_hex s) v (broadcast_deadline_unix_s s) (reverse_operator_id s).

Definition set_deadline (s : AnonymizeSession) (v : option Z) : AnonymizeSession :=
  mkSession (session_id s) (created_at s) (updated_at s) (status s) (source_kind s) (bin_amount_sat s)
    (pipeline_json s) (pipeline_schema_version s) (claim_broadcast_at_ts s) (claim_tx_confirmations s)
    (claim_tx_reorg_observed_count s) (pre_reconciliation_status s) (awaiting_reconciliation_reason s)
    (last_reconciliation_attempt_ts s) (reconciliation_attempts s) (last_error s) (completed_at s)
    (deleted_at s) (claim_tx_hex s) (claim_txid s) v (reverse_operator_id s).

Global Instance AnonymizeSession_eq_dec : EqDecision AnonymizeSession.
Proof. solve_decision. Defined.

(** Writing the row back: SQLAlchemy emits an UPDATE, and with it the
    [onupdate] timestamp, only for a row whose columns changed. *)
Definition flush (now : Z) (before after : AnonymizeSession) : AnonymizeSession :=
  if bool_decide (after = before) then after else set_updated_at after (Some now).

(** ** Status writes (service.py) *)

Definition transition_session (s : AnonymizeSession) (to_status : ustr) : AnonymizeSession * result unit :=
  match assert_legal_transition (status s) to_status with
  | Err e => (s, Err e)
  | Ok _ =>
      if bool_decide (status s = to_status) then (s, Ok tt)
      else (set_status s to_status, Ok tt)
  end.

Definition transition_to_awaiting_reconciliation (s : AnonymizeSession) (reason : ustr)
    : AnonymizeSession * result unit :=
  let target := value AWAITING_RECONCILIATION in
  if bool_decide (status s = target) then (set_reason s (Some reason), Ok tt)
  else
    let s1 := set_reason (set_pre_status s (Some (status s))) (Some reason) in
    transition_session s1 target.

Definition is_session_terminal (s : AnonymizeSession) : bool := is_terminal (status s).

(** ** Reason classes (reconciliation_classify.py) *)

Inductive ReconciliationClass := CLASS_TRANSIENT | CLASS_SEMI | CLASS_TERMINAL.

Definition MAX_RETRIES_SEMI : Z := 3.

Definition _TRANSIENT_REASONS : list ustr :=
  map u ["circuit_rebuild_throttled"; "wall_clock_budget_exceeded"; "bounded_retry_exhausted";
         "external_state_unknown"; "economy_feerate_unavailable"; "inbound_insufficient_at_lockup"]%string.

Definition _SEMI_REASONS : list ustr :=
  map u ["mpp_k_floor_exhausted"; "claim_feerate_outlier"; "stuck_htlc_alarm"]%string.

Definition _TERMINAL_REASONS : list ustr :=
  map u ["operator_signature_mismatch"; "claim_tx_validation_failed"; "clock_skew_exceeds_deadline_margin";
         "pipeline_schema_below_min_supported"]%string.

Definition _CANCELLABLE_REASONS : list ustr :=
  map u ["mpp_k_floor_exhausted"; "circuit_rebuild_throttled"; "bounded_retry_exhausted";
         "wall_clock_budget_exceeded"; "inbound_insufficient_at_lockup"]%string.

Definition classify_reason (reason : option ustr) : ReconciliationClass :=
  match reason with
  | None | Some [] => CLASS_TERMINAL
  | Some r =>
      let r := strip r in
      if mem r _TRANSIENT_REASONS then CLASS_TRANSIENT
      else if mem r _SEMI_REASONS then CLASS_SEMI
      else if mem r _TERMINAL_REASONS then CLASS_TERMINAL
      else CLASS_TERMINAL
  end.

Definition is_cancellable (reason : option ustr) : bool :=
  match reason with
  | None | Some [] => false
  | Some r => mem (strip r) _CANCELLABLE_REASONS
  end.

(** ** Depth rule (reorg.py) *)

Record ConfirmationObservation := mkCO { current_depth : Z; max_depth_seen : Z; reorg_count : Z }.

Inductive ReorgDecision :=
  | stay_confirming | completed | completed_with_reorg_uncertainty | failed_no_chain_record.

Definition decide_terminal_state (min_confirmations giveup_blocks : Z) (obs : ConfirmationObservation)
    : ReorgDecision :=
  if min_confirmations <=? current_depth obs then completed
  else if (max_depth_seen obs =? 0) && (giveup_blocks <=? reorg_count obs) then failed_no_chain_record
  else if (giveup_blocks <=? reorg_count obs) && (1 <=? max_depth_seen obs) then completed_with_reorg_uncertainty
  else stay_confirming.

Definition map_decision_to_status (d : ReorgDecision) : option ustr :=
  match d with
  | stay_confirming => None
  | completed => Some (value COMPLETED)
  | completed_with_reorg_uncertainty => Some (value COMPLETED_WITH_REORG_UNCERTAINTY)
  | failed_no_chain_record => Some (value FAILED)
  end.

(** ** Lemmas *)

Lemma mem_elem x l : mem x l = true <-> x ∈ l.
Proof.
  unfold mem. rewrite existsb_exists. setoid_rewrite bool_decide_eq_true.
  setoid_rewrite <- list_elem_of_In. naive_solver.
Qed.

Lemma value_inj st st' : value st = value st' -> st = st'.
Proof. destruct st, st'; intros H; first [reflexivity | vm_compute in H; discriminate H]. Qed.

(** The dictionary lookup of a known status is its row. *)
Lemma legal_next_value st : legal_next_statuses (value st) = map value (edges st).
Proof. destruct st; reflexivity. Qed.

Lemma mem_value st l : mem (value st) (map value l) = bool_decide (st ∈ l).
Proof.
  apply eq_bool_prop_intro. rewrite !Is_true_true, mem_elem, bool_decide_eq_true. split.
  - intros H. apply list_elem_of_fmap in H as (st' & E & H). apply value_inj in E. by subst.
  - intros H. apply list_elem_of_fmap. by exists st.
Qed.

Lemma legal_value st st' :
  is_legal_transition (value st) (value st') = bool_decide (st = st') || bool_decide (st' ∈ edges st).
Proof.
  unfold is_legal_transition. rewrite legal_next_value, mem_value. f_equal.
  apply bool_decide_ext. split; [apply value_inj|by intros ->].
Qed.

Lemma is_terminal_value st : is_terminal (value st) = bool_decide (edges st = []).
Proof. by destruct st. Qed.

(** A status of the enum. *)
Definition known (v : ustr) : Prop := exists st, v = value st.

(** The successors of any text are statuses of the enum. *)
Lemma legal_next_known v w : w ∈ legal_next_statuses v -> known v /\ known w.
Proof.
  unfold legal_next_statuses. destruct (assoc v _TRANSITIONS) as [l|] eqn:E; simpl; [|by rewrite elem_of_nil].
  assert (Hv : exists st, v = value st /\ l = map value (edges st)).
  { revert E. unfold _TRANSITIONS.
    match goal with |- assoc v (map _ ?k) = _ -> _ => generalize k end.
    induction l0 as [|st k IH]; simpl; [done|]. case_bool_decide; [|done]. intros [= <-]. by exists st. }
  destruct Hv as (st & -> & ->). intros H. apply list_elem_of_fmap in H as (st' & -> & _).
  split; eexists; reflexivity.
Qed.

Lemma transition_session_ok s to :
  is_legal_transition (status s) to = true ->
  exists s', transition_session s to = (s', Ok tt) /\ status s' = to /\
    (s' = s \/ s' = set_status s to).
Proof.
  intros H. unfold transition_session, assert_legal_transition. rewrite H.
  case_bool_decide; eexists; (split; [reflexivity|]); simpl; auto.
Qed.

Lemma transition_to_ar_ok s reason :
  is_legal_transition (status s) (value AWAITING_RECONCILIATION) = true ->
  status s <> value AWAITING_RECONCILIATION ->
  transition_to_awaiting_reconciliation s reason =
    (set_status (set_reason (set_pre_status s (Some (status s))) (Some reason)) (value AWAITING_RECONCILIATION), Ok tt).
Proof.
  intros H Hne. unfold transition_to_awaiting_reconciliation.
  rewrite bool_decide_eq_false_2 by done. unfold transition_session, assert_legal_transition. simpl.
  rewrite H. by rewrite bool_decide_eq_false_2.
Qed.

(** Finite reasoning over the members of the enum: [H] restricts [st] to a
    list, and what is left of the goal is computed. *)
Ltac by_status H st :=
  let P := type of H in let H' := fresh in
  assert (H' : bool_decide P = true) by (by apply bool_decide_eq_true_2); clear H;
  try match goal with |- ?x ∈ ?l => refine (bool_decide_eq_true_1 (x ∈ l) _) end;
  revert H'; destruct st; vm_compute; first [done | congruence | intuition congruence].
