(* ===== verification/AnonTick.v ===== *)
(** * Anonymize sessions: observations and the tick

    anonymize/tick.py ([decide_tick_action]), the observation collectors of
    anonymize/hops/*_observe.py, their router (observation_router.py) and
    [AnonymizeService.tick_session]. What a collector reads outside the row
    (the clock, the paid-invoice lookup of deposit_observe.py, a random
    draw) is an [env], one per tick. *)
From S2P Require Import Prelude Bytes Utf8 Json PyJson PyInt PyTime AnonState.

(** ** Settings the modelled functions read *)

Record anon_settings := mkCfg {
  claim_min_confirmations : Z;
  claim_reorg_giveup_blocks : Z;
  ext_deposit_min_dwell_s : Z;
  onchain_max_interleg_delay_s : Z;
  schema_version_min_supported : Z;
  health_flip_threshold : Z;
  max_retries_transient : Z;
  backoff_base_s : Z;
  backoff_max_s : Z;
  wall_clock_budget_s : Z;
  probe_batch_size : Z
}.

(** The defaults of core/config.py. *)
Definition default_settings : anon_settings :=
  mkCfg 2 12 (2 * 3600) (48 * 3600) 10 2 12 30 3600 14400 20.

(** ** Observations and actions (tick.py) *)

Record TickObservations := mkObs {
  funding_invoice_settled : option bool;
  delay_window_elapsed : option bool;
  hop_completed : option bool;
  is_last_hop : option bool;
  claim_tx_observed_on_chain : option bool;
  claim_tx_min_confirmations_reached : option bool;
  claim_tx_reorg_uncertainty : option bool;
  fatal_error_kind : option ustr;
  reconcile_reason : option ustr;
  user_cancel_requested : option bool;
  user_refund_requested : option bool
}.

Definition no_obs : TickObservations :=
  mkObs None None None None None None None None None None None.

Inductive TickKind := k_noop_terminal | k_wait | k_transition | k_reconcile | k_fail.

Record TickAction := mkAction { kind : TickKind; to_status : option ustr; act_reason : ustr }.

Definition wait : TickAction := mkAction k_wait None [].

Definition transition (st : AnonymizeStatus) (reason : ustr) : TickAction :=
  mkAction k_transition (Some (value st)) reason.

(** [x is True] *)
Definition is_True_ (x : option bool) : bool := default false x.

Definition _can_fail (st : ustr) : bool := is_legal_transition st (value FAILED).
Definition _can_reconcile (st : ustr) : bool := is_legal_transition st (value AWAITING_RECONCILIATION).
Definition _can_cancel (st : ustr) : bool := is_legal_transition st (value CANCELLED).
Definition _can_refund (st : ustr) : bool := is_legal_transition st (value REFUNDING).

Definition eqs (a b : ustr) : bool := bool_decide (a = b).

Definition _forward_dispatch (st : ustr) (obs : TickObservations) (source : ustr) : TickAction :=
  if eqs st (value CREATED) then
    if is_True_ (funding_invoice_settled obs) then transition FUNDING (u "initial_dispatch")
    else if eqs source (source_value ONCHAIN_SELF) || eqs source (source_value EXT_ONCHAIN)
    then transition SOURCING (u "onchain_initial_dispatch")
    else wait
  else if eqs st (value FUNDING) then
    if is_True_ (funding_invoice_settled obs) then transition LN_HOLDING (u "funding_invoice_settled") else wait
  else if eqs st (value LN_HOLDING) then transition DELAYING (u "ln_holding_to_delaying")
  else if eqs st (value DELAYING) then
    if is_True_ (delay_window_elapsed obs)
    then transition (if is_True_ (is_last_hop obs) then EXITING else HOPPING) (u "delay_window_elapsed")
    else wait
  else if eqs st (value HOPPING) then
    if is_True_ (hop_completed obs)
    then transition (if is_True_ (is_last_hop obs) then EXITING else DELAYING) (u "hop_completed")
    else wait
  else if eqs st (value EXITING) then
    if is_True_ (claim_tx_observed_on_chain obs) then transition CONFIRMING (u "claim_tx_observed") else wait
  else if eqs st (value CONFIRMING) then
    if is_True_ (claim_tx_reorg_uncertainty obs)
    then transition COMPLETED_WITH_REORG_UNCERTAINTY (u "reorg_uncertainty")
    else if is_True_ (claim_tx_min_confirmations_reached obs)
    then transition COMPLETED (u "min_confirmations_reached")
    else wait
  else wait.

Definition decide_tick_action (s : AnonymizeSession) (obs : TickObservations) : TickAction :=
  let st := status s in
  if is_terminal st then mkAction k_noop_terminal None []
  else if nonempty (fatal_error_kind obs) then
    mkAction (if _can_fail st then k_fail else k_reconcile)
      (Some (if _can_fail st then value FAILED else value AWAITING_RECONCILIATION))
      (u "hop_failure:" ++ default [] (fatal_error_kind obs))
  else if nonempty (reconcile_reason obs) && _can_reconcile st then
    mkAction k_reconcile (Some (value AWAITING_RECONCILIATION))
      (u "reconcile:" ++ default [] (reconcile_reason obs))
  else if is_True_ (user_cancel_requested obs) && _can_cancel st then transition CANCELLED (u "user_cancel")
  else if is_True_ (user_refund_requested obs) && _can_refund st then transition REFUNDING (u "user_refund_request")
  else _forward_dispatch st obs (source_kind s).

Definition filter_to_legal_target (from candidate : ustr) : option ustr :=
  if mem candidate (legal_next_statuses from) then Some candidate else None.

(** ** tick_session (service.py) *)

Definition _TICK_REASON_PREFIXES : list ustr := [u "reconcile:"; u "hop_failure:"].

Definition _strip_tick_reason_prefix (reason : ustr) : ustr :=
  match List.find (fun p => startswith p reason) _TICK_REASON_PREFIXES with
  | Some p => drop (length p) reason
  | None => reason
  end.

Definition tick_session (s : AnonymizeSession) (obs : TickObservations) : AnonymizeSession * result TickAction :=
  let action := decide_tick_action s obs in
  match kind action with
  | k_transition | k_reconcile | k_fail =>
      match to_status action with
      | None => (s, Err (RuntimeError "tick action missing to_status"))
      | Some to =>
          let '(s', r) :=
            if eqs to (value AWAITING_RECONCILIATION)
            then transition_to_awaiting_reconciliation s (_strip_tick_reason_prefix (act_reason action))
            else transition_session s to in
          (s', (fun _ => action) <$> r)
      end
  | k_noop_terminal | k_wait => (s, Ok action)
  end.

(** ** Collectors *)

Record env := mkEnv {
  now : Z;                     (** [datetime.now(utc)] / [time.time()] *)
  paid_inbound : option Z;     (** [find_paid_inbound_bolt12_invoice_for_session] *)
  uniform_draw : Z             (** [int(rng.uniform(min, max))] *)
}.

Definition usec : Z := 1000000.

(** Shared by the two Lightning collectors, which define it twice. *)
Definition _delay_min_seconds (s : AnonymizeSession) : result Z :=
  let pj := or_dict (pipeline_json s) in
  delay ← (if is_dict pj then py_get pj (u "delay_policy") (JDict []) else Ok (JDict []));
  v ← py_get delay (u "min_seconds") (JInt 0);
  Ok match int_of_json v with Ok n => n | Err _ => 0 end.

(** [session.updated_at or session.created_at] *)
Definition last_advance (s : AnonymizeSession) : option Z :=
  match updated_at s with Some t => Some t | None => created_at s end.

(** [(now - base).total_seconds() >= float(secs)], exact in microseconds *)
Definition elapsed_since (e : env) (s : AnonymizeSession) (secs : Z) : bool :=
  if secs <=? 0 then true
  else match last_advance s with
       | None => false
       | Some base => secs * usec <=? now e - base
       end.

Definition _delay_elapsed (e : env) (s : AnonymizeSession) : result bool :=
  (fun m => elapsed_since e s m) <$> _delay_min_seconds s.

Definition obs_funding (b : option bool) : TickObservations :=
  mkObs b None None None None None None None None None None.

Definition obs_delay (b : bool) : TickObservations :=
  mkObs None (Some b) None (Some true) None None None None None None None.

(** ln_self_pay_observe.py *)
Definition observe_ln_self_pay (e : env) (s : AnonymizeSession) : result TickObservations :=
  if eqs (status s) (value CREATED) then Ok (obs_funding (Some true))
  else if eqs (status s) (value FUNDING) then
    let settled := match or_dict (pipeline_json s) with
                   | JDict d => is_jstr (dget d (u "self_pay_status")) (u "settled")
                   | _ => false
                   end in
    Ok (obs_funding (if settled then Some true else None))
  else if eqs (status s) (value DELAYING) then obs_delay <$> _delay_elapsed e s
  else Ok no_obs.

(** ext_lightning_observe.py *)
Definition _bolt12_deposit_settled (e : env) (s : AnonymizeSession) : option bool :=
  match pipeline_json s with
  | JDict pj =>
      match or_dict (dget pj (u "source")) with
      | JDict src =>
          if negb (is_jstr (dget src (u "deposit_method")) (u "bolt12")) then None
          else if negb (truthy (dget src (u "deposit_offer_id"))) then None
          else Some (match paid_inbound e with Some _ => true | None => false end)
      | _ => None
      end
  | _ => None
  end.

Definition _dwell_and_delay_elapsed (cfg : anon_settings) (e : env) (s : AnonymizeSession) : result bool :=
  (fun m => elapsed_since e s (Z.max (ext_deposit_min_dwell_s cfg) m)) <$> _delay_min_seconds s.

Definition observe_ext_lightning (cfg : anon_settings) (e : env) (s : AnonymizeSession) : result TickObservations :=
  if eqs (status s) (value CREATED) || eqs (status s) (value FUNDING) then
    Ok (obs_funding (Some (default true (_bolt12_deposit_settled e s))))
  else if eqs (status s) (value DELAYING) then obs_delay <$> _dwell_and_delay_elapsed cfg e s
  else Ok no_obs.

(** onchain_observe.py *)
Definition _FALLBACK_INTER_LEG_MIN_S : Z := 6 * 3600.

(** Of a falsy or unreadable value, and of anything but text, [None]. *)
Definition _parse_iso (v : json) : option Z :=
  match v with
  | JStr (c :: s) => timestamp_us <$> fromisoformat (c :: s)
  | _ => None
  end.

Definition _inter_leg_delay_window_s (s : AnonymizeSession) : Z * Z :=
  let leg := match or_dict (pipeline_json s) with
             | JDict pj => dget pj (u "inter_leg_delay")
             | _ => JNull
             end in
  match leg with
  | JDict leg =>
      let read :=
        mn ← int_of_json (default (JInt _FALLBACK_INTER_LEG_MIN_S) (assoc (u "min_seconds") leg));
        mx ← int_of_json (default (JInt mn) (assoc (u "max_seconds") leg));
        Ok (mn, mx) in
      let '(mn, mx) := match read with
                       | Ok w => w
                       | Err _ => (_FALLBACK_INTER_LEG_MIN_S, _FALLBACK_INTER_LEG_MIN_S * 8)
                       end in
      (mn, if mx <? mn then mn else mx)
  | _ => (_FALLBACK_INTER_LEG_MIN_S, _FALLBACK_INTER_LEG_MIN_S * 8)
  end.

Definition _sample_delay_target_s (e : env) (min_s max_s : Z) : Z :=
  if max_s <=? min_s then min_s else uniform_draw e.

Definition settled_status (pj : list (ustr * json)) : bool :=
  is_jstr (dget pj (u "submarine_swap_status")) (u "transaction.claimed") ||
  is_jstr (dget pj (u "submarine_swap_status")) (u "invoice.settled").

Definition observe_onchain_source (e : env) (s : AnonymizeSession) : TickObservations :=
  match or_dict (pipeline_json s) with
  | JDict pj =>
      if eqs (status s) (value SOURCING) then no_obs
      else if eqs (status s) (value FUNDING) then
        if truthy (dget pj (u "submarine_funding_broadcast_at_ts")) then obs_funding (Some true) else no_obs
      else if eqs (status s) (value LN_HOLDING) then
        if settled_status pj then obs_funding (Some true) else no_obs
      else if eqs (status s) (value HOPPING) then
        if settled_status pj
        then mkObs None None (Some true) (Some true) None None None None None None None
        else no_obs
      else if eqs (status s) (value DELAYING) then
        match _parse_iso (dget pj (u "submarine_funding_broadcast_at_ts")) with
        | None => obs_delay true
        | Some start =>
            let elapsed := Z.max 0 (now e - start) in
            let sampled := let '(mn, mx) := _inter_leg_delay_window_s s in _sample_delay_target_s e mn mx in
            let target := match dget pj (u "inter_leg_delay_target_s") with
                          | JInt t => if t <=? 0 then sampled else t
                          | JBool true => 1
                          | _ => sampled
                          end in
            obs_delay (target * usec <=? elapsed)
        end
      else no_obs
  | _ => no_obs
  end.

(** reverse_observe.py *)
Definition _claim_tx_observed (s : AnonymizeSession) : bool :=
  match claim_broadcast_at_ts s with Some _ => true | None => false end.

Definition _read_chain_confirmations (cfg : anon_settings) (s : AnonymizeSession) : Z * bool :=
  (claim_tx_confirmations s, claim_reorg_giveup_blocks cfg <=? claim_tx_reorg_observed_count s).

Definition observe_reverse_exit (cfg : anon_settings) (s : AnonymizeSession) : TickObservations :=
  if eqs (status s) (value EXITING) then
    mkObs None None None None (Some (_claim_tx_observed s)) None None None None None None
  else if eqs (status s) (value CONFIRMING) then
    let '(confs, reorg_uncertain) := _read_chain_confirmations cfg s in
    mkObs None None None None None (Some (claim_min_confirmations cfg <=? confs)) (Some reorg_uncertain)
      None None None None
  else no_obs.

(** ** Router (observation_router.py) *)

Definition later {A} (a b : option A) : option A := match b with Some _ => b | None => a end.

Definition merge2 (a b : TickObservations) : TickObservations :=
  mkObs (later (funding_invoice_settled a) (funding_invoice_settled b))
    (later (delay_window_elapsed a) (delay_window_elapsed b))
    (later (hop_completed a) (hop_completed b)) (later (is_last_hop a) (is_last_hop b))
    (later (claim_tx_observed_on_chain a) (claim_tx_observed_on_chain b))
    (later (claim_tx_min_confirmations_reached a) (claim_tx_min_confirmations_reached b))
    (later (claim_tx_reorg_uncertainty a) (claim_tx_reorg_uncertainty b))
    (later (fatal_error_kind a) (fatal_error_kind b)) (later (reconcile_reason a) (reconcile_reason b))
    (later (user_cancel_requested a) (user_cancel_requested b))
    (later (user_refund_requested a) (user_refund_requested b)).

Definition _merge_obs (l : list TickObservations) : TickObservations := foldl merge2 no_obs l.

Definition set_reconcile_reason (o : TickObservations) (r : option ustr) : TickObservations :=
  mkObs (funding_invoice_settled o) (delay_window_elapsed o) (hop_completed o) (is_last_hop o)
    (claim_tx_observed_on_chain o) (claim_tx_min_confirmations_reached o) (claim_tx_reorg_uncertainty o)
    (fatal_error_kind o) r (user_cancel_requested o) (user_refund_requested o).

Definition is_onchain (source : ustr) : bool :=
  eqs source (source_value ONCHAIN_SELF) || eqs source (source_value EXT_ONCHAIN).

Definition default_observation_fn (cfg : anon_settings) (e : env) (s : AnonymizeSession) : result TickObservations :=
  source_obs ←
    (if eqs (source_kind s) (source_value LIGHTNING_SELF) then observe_ln_self_pay e s
     else if eqs (source_kind s) (source_value EXT_LIGHTNING) then observe_ext_lightning cfg e s
     else if is_onchain (source_kind s) then Ok (observe_onchain_source e s)
     else Ok no_obs);
  let exit_obs :=
    if eqs (status s) (value EXITING) || eqs (status s) (value CONFIRMING)
    then observe_reverse_exit cfg s else no_obs in
  let obs := _merge_obs [source_obs; exit_obs] in
  let reason := stripped (awaiting_reconciliation_reason s) in
  let already_routed := eqs (status s) (value AWAITING_RECONCILIATION) in
  Ok (if bool_decide (reason <> []) && negb (nonempty (reconcile_reason obs)) && negb already_routed &&
         negb (is_terminal (status s))
      then set_reconcile_reason obs (Some reason) else obs).

(** ** Lemmas *)

Lemma eqs_value a b : eqs (value a) (value b) = bool_decide (a = b).
Proof. unfold eqs. apply bool_decide_ext. split; [apply value_inj|by intros ->]. Qed.

Lemma eqs_refl a : eqs a a = true.
Proof. unfold eqs. by apply bool_decide_eq_true_2. Qed.

(** Evaluate comparisons of members of the enum. *)
Ltac eval_status :=
  repeat match goal with
    | |- context [bool_decide (?a = ?b :> AnonymizeStatus)] =>
        let r := eval vm_compute in (bool_decide (a = b)) in
        change (bool_decide (a = b)) with r
    end; cbn match.

(** What the forward dispatch does from a known status. *)
Lemma forward_legal st obs src :
  let a := _forward_dispatch (value st) obs src in
  a = wait \/
  (kind a = k_transition /\ exists st', to_status a = Some (value st') /\ st' ∈ edges st /\
     st' <> AWAITING_RECONCILIATION /\ st' <> AWAITING_LIQUID_DWELL).
Proof.
  cbn zeta. unfold _forward_dispatch, transition. rewrite !eqs_value.
  destruct st; eval_status; repeat case_match; first [by left | right; split; [done|]; eexists;
    split; [reflexivity|]; split; [cbn [edges]; set_solver|done]].
Qed.

(** ... and the decision as a whole. *)
Lemma decide_legal s st obs :
  status s = value st ->
  let a := decide_tick_action s obs in
  (kind a = k_noop_terminal /\ edges st = []) \/
  a = wait \/
  (exists st', to_status a = Some (value st') /\ is_legal_transition (value st) (value st') = true /\
     kind a <> k_noop_terminal /\ kind a <> k_wait /\
     (st' = AWAITING_RECONCILIATION -> kind a = k_reconcile) /\ st' <> AWAITING_LIQUID_DWELL).
Proof.
  intros Hs. cbn zeta. unfold decide_tick_action. rewrite Hs, is_terminal_value.
  case_bool_decide as Hterm; [by left|]. right.
  assert (Hfail : _can_fail (value st) = true).
  { unfold _can_fail. rewrite legal_value. destruct st; done. }
  rewrite Hfail. destruct (nonempty (fatal_error_kind obs)).
  { right. exists FAILED. repeat split; try done. }
  destruct (nonempty (reconcile_reason obs)), (_can_reconcile (value st)) eqn:Hr; cbn [andb].
  1: { right. exists AWAITING_RECONCILIATION. repeat split; done. }
  all: destruct (is_True_ (user_cancel_requested obs)), (_can_cancel (value st)) eqn:Hc; cbn [andb].
  all: try (right; exists CANCELLED; repeat split; done).
  all: destruct (is_True_ (user_refund_requested obs)), (_can_refund (value st)) eqn:Hf; cbn [andb].
  all: try (right; exists REFUNDING; repeat split; done).
  all: destruct (forward_legal st obs (source_kind s)) as [->|(Hk & st' & Ht & Hin & Hne & Hnd)]; [by left|].
  all: right; exists st'; rewrite Hk; repeat split; try done.
  all: rewrite legal_value, (bool_decide_eq_true_2 (st' ∈ edges st)) by done; apply orb_true_r.
Qed.

(** A tick on a known status succeeds, follows an edge of the graph, and
    leaves a terminal row alone. *)
Lemma tick_known s st obs :
  status s = value st ->
  exists s' a st', tick_session s obs = (s', Ok a) /\ status s' = value st' /\
    is_legal_transition (value st) (value st') = true /\
    (edges st = [] -> s' = s) /\ (st' = AWAITING_LIQUID_DWELL -> st = st') /\
    (s' = s \/ s' = set_status s (value st') /\ st' <> AWAITING_RECONCILIATION \/
     exists r, s' = fst (transition_to_awaiting_reconciliation s r) /\ st' = AWAITING_RECONCILIATION).
Proof.
  intros Hs. pose proof (decide_legal s st obs Hs) as D. cbn zeta in D. unfold tick_session.
  destruct D as [[Hk Ht]|[Hw|(st' & Hto & Hl & Hk1 & Hk2 & Har & Hnd)]].
  - rewrite Hk. exists s, (decide_tick_action s obs), st. repeat split; auto.
    rewrite legal_value, bool_decide_eq_true_2 by done. done.
  - rewrite Hw. exists s, wait, st. repeat split; auto.
    rewrite legal_value, bool_decide_eq_true_2 by done. done.
  - rewrite Hto.
    assert (Hne : edges st = [] -> False).
    { intros He. revert Hk1. unfold decide_tick_action. rewrite Hs, is_terminal_value.
      rewrite bool_decide_eq_true_2 by done. done. }
    rewrite eqs_value. case_bool_decide as E.
    + subst st'. destruct (transition_to_awaiting_reconciliation s _) as [s' r] eqn:T.
      assert (status s' = value AWAITING_RECONCILIATION /\ r = Ok tt) as [Hst ->].
      { revert T. destruct (decide (status s = value AWAITING_RECONCILIATION)) as [E|E].
        - unfold transition_to_awaiting_reconciliation. rewrite bool_decide_eq_true_2 by done.
          intros [= <- <-]. done.
        - rewrite transition_to_ar_ok by (rewrite Hs in *; done). intros [= <- <-]. done. }
      destruct (kind _) eqn:Hkk; try done; eexists _, _, _; (split; [reflexivity|]);
        (split; [done|]); (split; [done|]); (split; [done|]); (split; [done|]); right; right; eexists; (split; [by rewrite T|done]).
    + destruct (transition_session_ok s (value st')) as (s' & T & Hst & Hs'); [by rewrite Hs|].
      rewrite T. destruct (kind _) eqn:Hkk; try done; eexists _, _, _; (split; [reflexivity|]);
        (split; [done|]); (split; [done|]); (split; [done|]); (split; [done|]); destruct Hs' as [->| ->]; auto.
Qed.
