(* ===== verification/AnonProbe.v ===== *)
(** * Anonymize sessions: reconciliation

    anonymize/reconciliation_probe.py, the probe run function of
    tick_runners.py, startup_reconciliation.py and the session endpoints of
    dashboard/api.py. The [anonymize_session] table is a list of rows with
    distinct ids; a commit writes a row back through [flush]. Elapsed times
    compare [total_seconds()] with whole seconds, which is exact in
    microseconds over the ranges a deployment sees. *)
From S2P Require Import Prelude Bytes Utf8 Json PyJson PyInt AnonState AnonTick.

Record AnonymizeSessionEvent := mkEvent {
  ev_session : Z; ev_ts : Z; ev_kind : ustr; ev_detail : json
}.

(** ** Backoff *)

Definition compute_backoff_s (cfg : anon_settings) (attempts : Z) : Z :=
  if attempts <=? 0 then 0
  else
    let exp := Z.min (attempts - 1) 30 in
    Z.min (backoff_max_s cfg) (backoff_base_s cfg * 2 ^ exp).

Definition is_in_cooldown (cfg : anon_settings) (now : Z) (s : AnonymizeSession) : bool :=
  let attempts := reconciliation_attempts s in
  if attempts <=? 0 then false
  else match last_reconciliation_attempt_ts s with
       | None => false
       | Some last => now - last <? compute_backoff_s cfg attempts * usec
       end.

Definition compute_next_retry_at_unix_s (cfg : anon_settings) (now : Z) (s : AnonymizeSession) : option Z :=
  if negb (eqs (status s) (value AWAITING_RECONCILIATION)) then None
  else match classify_reason (awaiting_reconciliation_reason s) with
       | CLASS_TERMINAL => None
       | _ =>
           match last_reconciliation_attempt_ts s with
           | None => None
           | Some last =>
               let attempts := reconciliation_attempts s in
               if attempts <=? 0 then None
               else
                 let next_at := last + compute_backoff_s cfg attempts * usec in
                 if next_at <=? now then None else Some next_at
           end
       end.

(** ** One attempt *)

Inductive OutcomeKind := retried | escalated | deferred | noop.

Record AttemptOutcome := mkOutcome { out_kind : OutcomeKind; target_status : option ustr; out_reason : ustr }.

Definition max_retries_for_class (cfg : anon_settings) (cls : ReconciliationClass) : Z :=
  match cls with
  | CLASS_TRANSIENT => max_retries_transient cfg
  | CLASS_SEMI => MAX_RETRIES_SEMI
  | CLASS_TERMINAL => 0
  end.

Definition class_text (cls : ReconciliationClass) : ustr :=
  u match cls with CLASS_TRANSIENT => "A" | CLASS_SEMI => "B" | CLASS_TERMINAL => "C" end.

Definition event (s : AnonymizeSession) (now : Z) (k : string) (d : list (ustr * json)) : AnonymizeSessionEvent :=
  mkEvent (session_id s) now (u k) (JDict d).

Definition opt_str (s : option ustr) : json := match s with Some s => JStr s | None => JNull end.

Definition attempt_started (s : AnonymizeSession) (now attempts : Z) (reason : ustr) (cls : ReconciliationClass)
    (target : option ustr) : AnonymizeSessionEvent :=
  event s now "reconciliation_attempt_started"
    [(u "attempts", JInt attempts); (u "reason", JStr reason); (u "class", JStr (class_text cls));
     (u "target_status", opt_str target)].

Definition attempt_completed (s : AnonymizeSession) (now attempts : Z) (outcome : string) : AnonymizeSessionEvent :=
  event s now "reconciliation_attempt_completed" [(u "attempts", JInt attempts); (u "outcome", JStr (u outcome))].

Definition _escalate (s : AnonymizeSession) (cls : ReconciliationClass) (reason : ustr) (now : Z) (why : string)
    : AnonymizeSession * list AnonymizeSessionEvent * AttemptOutcome :=
  match transition_session s (value FAILED) with
  | (s', Err _) => (s', [], mkOutcome noop None (u "escalate_illegal_transition:" ++ u why))
  | (s', Ok _) =>
      (s', [event s now "reconciliation_escalated"
              [(u "final_attempts", JInt (reconciliation_attempts s)); (u "from_class", JStr (class_text cls));
               (u "to_status", JStr (value FAILED)); (u "why", JStr (u why)); (u "reason", JStr reason)];
            attempt_completed s now (reconciliation_attempts s) "escalated"],
       mkOutcome escalated (Some (value FAILED)) (u why))
  end.

Definition attempt_reconciliation (cfg : anon_settings) (now : Z) (s : AnonymizeSession)
    : AnonymizeSession * list AnonymizeSessionEvent * result AttemptOutcome :=
  let reason := stripped (awaiting_reconciliation_reason s) in
  let cls := classify_reason (Some reason) in
  match cls with
  | CLASS_TERMINAL =>
      (set_last_attempt s (Some now),
       [attempt_started s now (reconciliation_attempts s) reason cls None;
        attempt_completed s now (reconciliation_attempts s) "deferred"],
       Ok (mkOutcome deferred None (u "class_c_operator_action")))
  | _ =>
      let next_attempts := reconciliation_attempts s + 1 in
      let s := set_last_attempt (set_attempts s next_attempts) (Some now) in
      let target := pre_reconciliation_status s in
      let budget := max_retries_for_class cfg cls in
      let started := attempt_started s now next_attempts reason cls target in
      if budget <? next_attempts then
        let '(s', evs, o) := _escalate s cls reason now "budget_exhausted" in (s', started :: evs, Ok o)
      else
        match target with
        | Some ((_ :: _) as t) =>
            if is_legal_transition (value AWAITING_RECONCILIATION) t then
              match transition_session s t with
              | (s', Err e) => (s', [started], Err e)
              | (s', Ok _) =>
                  (s', [started; attempt_completed s now next_attempts "retried"],
                   Ok (mkOutcome retried (Some t) reason))
              end
            else
              let '(s', evs, o) := _escalate s cls reason now "no_pre_reconciliation_status" in
              (s', started :: evs, Ok o)
        | _ =>
            let '(s', evs, o) := _escalate s cls reason now "no_pre_reconciliation_status" in
            (s', started :: evs, Ok o)
        end
  end.

(** ** Queries *)

Abbreviation table := (list AnonymizeSession).

(** NULLs first *)
Definition ts_le (a b : option Z) : Prop :=
  match a, b with
  | None, _ => True
  | Some _, None => False
  | Some x, Some y => x <= y
  end.

Global Instance ts_le_dec a b : Decision (ts_le a b).
Proof. destruct a, b; simpl; apply _. Defined.

Definition by_last_attempt (a b : AnonymizeSession) : Prop :=
  ts_le (last_reconciliation_attempt_ts a) (last_reconciliation_attempt_ts b).
Definition by_updated (a b : AnonymizeSession) : Prop := ts_le (updated_at a) (updated_at b).
Definition by_created (a b : AnonymizeSession) : Prop := ts_le (created_at a) (created_at b).

Global Instance by_last_attempt_dec a b : Decision (by_last_attempt a b).
Proof. unfold by_last_attempt. apply _. Defined.
Global Instance by_updated_dec a b : Decision (by_updated a b).
Proof. unfold by_updated. apply _. Defined.
Global Instance by_created_dec a b : Decision (by_created a b).
Proof. unfold by_created. apply _. Defined.

Definition live (s : AnonymizeSession) : bool := match deleted_at s with None => true | Some _ => false end.

(** [locked]: the ids another transaction holds ([FOR UPDATE SKIP LOCKED]) *)
Definition fetch_awaiting_reconciliation_sessions (db : table) (locked : Z -> bool) (limit : Z) : table :=
  take (Z.to_nat limit) (merge_sort by_last_attempt (List.filter (fun s =>
    eqs (status s) (value AWAITING_RECONCILIATION) && live s && negb (locked (session_id s))) db)).

Definition wedged (now budget_s : Z) (s : AnonymizeSession) : bool :=
  negb (mem (status s) (ANONYMIZE_TERMINAL_STATUSES ++ [value AWAITING_RECONCILIATION])) && live s &&
  match updated_at s with None => true | Some t => t <? now - budget_s * usec end.

Definition fetch_wedged_active_sessions (db : table) (locked : Z -> bool) (now budget_s limit : Z) : table :=
  take (Z.to_nat limit) (merge_sort by_updated
    (List.filter (fun s => wedged now budget_s s && negb (locked (session_id s))) db)).

Definition fetch_legacy_ar_rows_missing_pre_status (db : table) (limit : Z) : table :=
  take (Z.to_nat limit) (merge_sort by_created (List.filter (fun s =>
    eqs (status s) (value AWAITING_RECONCILIATION) && live s &&
    match pre_reconciliation_status s with None => true | Some _ => false end) db)).

(** UPDATE by primary key *)
Definition put (db : table) (s : AnonymizeSession) : table :=
  map (fun r => if session_id r =? session_id s then s else r) db.

(** ** Wedge detector and startup heuristic *)

Definition _PRE_STATUS_HEURISTIC : list (ustr * ustr) := [(u "mpp_k_floor_exhausted", value EXITING)].

Definition heuristic_pre_status_for (reason : option ustr) : option ustr :=
  match reason with
  | None | Some [] => None
  | Some r => assoc (strip r) _PRE_STATUS_HEURISTIC
  end.

Definition heuristic_row (now : Z) (s : AnonymizeSession) : option (AnonymizeSession * AnonymizeSessionEvent) :=
  match heuristic_pre_status_for (awaiting_reconciliation_reason s) with
  | None => None
  | Some target =>
      if is_legal_transition (value AWAITING_RECONCILIATION) target then
        Some (set_pre_status s (Some target),
              event s now "reconciliation_pre_status_heuristic_applied"
                [(u "reason", JStr (default [] (awaiting_reconciliation_reason s)));
                 (u "inferred_pre_status", JStr target)])
      else None
  end.

Definition apply_startup_pre_status_heuristic (db : table) (now limit : Z)
    : table * list AnonymizeSessionEvent * Z :=
  foldl (fun '(db, evs, count) s =>
    match heuristic_row now s with
    | None => (db, evs, count)
    | Some (s', ev) => (put db (flush now s s'), evs ++ [ev], count + 1)
    end) (db, [], 0) (fetch_legacy_ar_rows_missing_pre_status db limit).

Definition idle_us (now : Z) (s : AnonymizeSession) : Z :=
  match last_advance s with None => 0 | Some t => Z.max 0 (now - t) end.

(** One row of the detector: the row as it is flushed, and the event when
    the transition went through. *)
Definition wedge_row (now : Z) (s : AnonymizeSession) : AnonymizeSession * option AnonymizeSessionEvent :=
  match transition_to_awaiting_reconciliation s (u "wall_clock_budget_exceeded") with
  | (s', Err _) => (flush now s s', None)
  | (s', Ok _) =>
      (flush now s s',
       Some (event s now "reconciliation_wall_clock_flipped"
         [(u "from_status", JStr (status s)); (u "idle_s", JInt (idle_us now s / usec))]))
  end.

Definition apply_wedge_detector (cfg : anon_settings) (db : table) (locked : Z -> bool) (now limit : Z)
    : table * list AnonymizeSessionEvent * Z :=
  foldl (fun '(db, evs, count) s =>
    match wedge_row now s with
    | (s', None) => (put db s', evs, count)
    | (s', Some ev) => (put db s', evs ++ [ev], count + 1)
    end) (db, [], 0) (fetch_wedged_active_sessions db locked now (wall_clock_budget_s cfg) limit).

(** ** The probe run (tick_runners.py) *)

(** One row of the sweep: committed row, events, whether a driver is
    re-armed. An attempt that raises is rolled back. *)
Definition probe_row (cfg : anon_settings) (now : Z) (running : Z -> bool) (s : AnonymizeSession)
    : AnonymizeSession * list AnonymizeSessionEvent * bool :=
  if is_in_cooldown cfg now s then (s, [], false)
  else match attempt_reconciliation cfg now s with
       | (_, _, Err _) => (s, [], false)
       | (s', evs, Ok o) =>
           (flush now s s', evs,
            match out_kind o with retried => negb (running (session_id s)) | _ => false end)
       end.

Definition reconciliation_probe_run (cfg : anon_settings) (db : table) (locked running : Z -> bool) (now : Z)
    : table * list AnonymizeSessionEvent * list Z :=
  let '(db, evs, _) := apply_wedge_detector cfg db locked now 50 in
  foldl (fun '(db, evs, spawned) s =>
    let '(s', evs', arm) := probe_row cfg now running s in
    (put db s', evs ++ evs', if arm then spawned ++ [session_id s] else spawned))
    (db, evs, []) (fetch_awaiting_reconciliation_sessions db locked (probe_batch_size cfg)).

(** ** Startup pass (startup_reconciliation.py) *)

Definition _max_wallclock_budget_s (cfg : anon_settings) : Z :=
  2 * Z.max (onchain_max_interleg_delay_s cfg) 86400.

Inductive ReconciliationDisposition := resume | reconcile.

Record ReconciliationOutcome := mkRO { ro_session : Z; disposition : ReconciliationDisposition; ro_reason : ustr }.

Definition classify_session (cfg : anon_settings) (now : Z) (s : AnonymizeSession) : ReconciliationOutcome :=
  let sid := session_id s in
  let idle := match last_advance s with
              | Some t => _max_wallclock_budget_s cfg * usec <? now - t
              | None => false
              end in
  if mem (status s) ANONYMIZE_TERMINAL_STATUSES then mkRO sid resume (u "terminal_already_no_op")
  else if pipeline_schema_version s <? schema_version_min_supported cfg
  then mkRO sid reconcile (u "pipeline_schema_below_min_supported")
  else if idle then mkRO sid reconcile (u "wall_clock_budget_exceeded")
  else if eqs (status s) (value AWAITING_RECONCILIATION)
  then mkRO sid reconcile (u "already_awaiting_reconciliation")
  else mkRO sid resume (u "healthy").

Definition fetch_non_terminal_sessions (db : table) (limit : Z) : table :=
  take (Z.to_nat limit) (merge_sort by_created (List.filter (fun s =>
    negb (mem (status s) ANONYMIZE_TERMINAL_STATUSES) && live s) db)).

Definition classify_all_non_terminal (cfg : anon_settings) (now : Z) (db : table) : list ReconciliationOutcome :=
  map (classify_session cfg now) (fetch_non_terminal_sessions db 1000).

Record ReconciliationSummary := mkRS {
  resumed_count : Z; reconciled_count : Z; outcomes : list ReconciliationOutcome
}.

(** One row of the pass: the row as the final commit writes it, and what
    became of it; [None] for a transition that raised. *)
Definition startup_row (cfg : anon_settings) (now : Z) (s : AnonymizeSession)
    : AnonymizeSession * option ReconciliationDisposition :=
  match disposition (classify_session cfg now s) with
  | reconcile =>
      if eqs (status s) (value AWAITING_RECONCILIATION) then (s, Some reconcile)
      else match transition_to_awaiting_reconciliation s (ro_reason (classify_session cfg now s)) with
           | (s', Ok _) => (flush now s s', Some reconcile)
           | (s', Err _) => (flush now s s', None)
           end
  | resume => (s, Some resume)
  end.

(** The table, the sessions a driver is spawned for, and the summary. *)
Definition run_startup_reconciliation (cfg : anon_settings) (db : table) (now : Z)
    : table * list Z * ReconciliationSummary :=
  foldl (fun '(db, spawned, sm) s =>
    let outs := outcomes sm ++ [classify_session cfg now s] in
    match startup_row cfg now s with
    | (s', Some reconcile) => (put db s', spawned, mkRS (resumed_count sm) (reconciled_count sm + 1) outs)
    | (s', Some resume) =>
        (put db s', spawned ++ [session_id s], mkRS (resumed_count sm + 1) (reconciled_count sm) outs)
    | (s', None) => (put db s', spawned, mkRS (resumed_count sm) (reconciled_count sm) outs)
    end) (db, [], mkRS 0 0 []) (fetch_non_terminal_sessions db 1000).

(** ** Endpoints (dashboard/api.py)

    [sid] is [None] for an id that is not a UUID. The result is the table
    after the request and the HTTP status. *)

Definition find_session (db : table) (sid : Z) : option AnonymizeSession :=
  List.find (fun s => (session_id s =? sid) && live s) db.

Definition with_session (db : table) (sid : option Z) (k : AnonymizeSession -> table * Z) : table * Z :=
  match sid with
  | None => (db, 404)
  | Some sid => match find_session db sid with None => (db, 404) | Some s => k s end
  end.

(** [_transition_session_endpoint], and its two callers *)
Definition _transition_session_endpoint (db : table) (sid : option Z) (now : Z) (to_status : AnonymizeStatus)
    : table * Z :=
  with_session db sid (fun s =>
    match transition_session s (value to_status) with
    | (_, Err _) => (db, 409)
    | (s', Ok _) => (put db (flush now s s'), 200)
    end).

Definition dash_anonymize_cancel_session (enabled : bool) (db : table) (sid : option Z) (now : Z) : table * Z :=
  if negb enabled then (db, 404) else _transition_session_endpoint db sid now CANCELLED.

Definition dash_anonymize_refund_session (enabled : bool) (db : table) (sid : option Z) (now : Z) : table * Z :=
  if negb enabled then (db, 404) else _transition_session_endpoint db sid now REFUNDING.

Definition in_reconciliation (db : table) (s : AnonymizeSession) (k : table * Z) : table * Z :=
  if eqs (status s) (value AWAITING_RECONCILIATION) then k else (db, 409).

Definition _reconciliation_retry (db : table) (sid : option Z) (now : Z) : table * Z :=
  with_session db sid (fun s => in_reconciliation db s
    match pre_reconciliation_status s with
    | None | Some [] => (db, 409)
    | Some target =>
        match transition_session s target with
        | (_, Err _) => (db, 409)
        | (s', Ok _) => (put db (flush now s (set_last_attempt (set_attempts s' 0) None)), 200)
        end
    end).

Definition _reconciliation_terminal (db : table) (sid : option Z) (now : Z) (to_status : AnonymizeStatus)
    (require_cancellable : bool) : table * Z :=
  with_session db sid (fun s => in_reconciliation db s
    (if require_cancellable && negb (is_cancellable (Some (default [] (awaiting_reconciliation_reason s))))
     then (db, 409)
     else match transition_session s (value to_status) with
          | (_, Err _) => (db, 409)
          | (s', Ok _) => (put db (flush now s s'), 200)
          end)).

(** [nonce]: the request's step-up nonce; [verify]: [verify_stepup_nonce] *)
Definition _reconciliation_refund (db : table) (sid : option Z) (now : Z) (nonce : ustr) (verify : Z -> ustr -> bool)
    : table * Z :=
  match sid with
  | None => (db, 404)
  | Some i =>
      let nonce := strip nonce in
      match nonce with
      | [] => (db, 400)
      | _ =>
          with_session db (Some i) (fun s => in_reconciliation db s
            (if negb (verify i nonce) then (db, 403)
             else match transition_session s (value REFUNDING) with
                  | (_, Err _) => (db, 409)
                  | (s', Ok _) => (put db (flush now s s'), 200)
                  end))
      end
  end.

(** [_finalize_liquid_submarine_refund]: what the Liquid refund endpoint
    does to the session once the refund is broadcast. *)
Definition _finalize_liquid_submarine_refund (s : AnonymizeSession) (txid : ustr) : result AnonymizeSession :=
  match or_dict (pipeline_json s) with
  | JDict pj =>
      let s := set_pipeline_json s (JDict (dset pj (u "liquid_submarine_refund_txid") (JStr txid))) in
      let s := set_last_error s (Some (u "Liquid round-trip leg refunded to your wallet; the mix was aborted.")) in
      Ok (transition_session s (value FAILED)).1
  | _ => Err (TypeError "cannot convert dictionary update sequence")
  end.
