(* ===== verification/HopLog.v ===== *)
(** * Hop attempts: idempotency keys, the event log, and a crash model

    anonymize/hop_idempotency.py and the [_key_for] of the hop bodies, over
    a store that has a durable and a working copy. A hop body is a
    computation in [M]: it reads and writes the working copy, commits it,
    and calls adapters, whose calls are logged outside the store. Every
    adapter call and every commit is a point where the process may die; the
    working copy is then lost and the calls made so far are not. *)
From S2P Require Import Prelude Bytes Sha256 Blake2b PyInt Utf8 Json PyJson AnonState.

(** ** Keys *)

Definition _NONCE_BYTES : nat := 16.

Inductive hop_payload := P_none | P_bytes (b : bytes) | P_dict (d : list (ustr * json)).

(** Members separated by a bare comma in front of a closing bracket. *)
Fixpoint compact_members (close : ascii) (rest : string) (fs : list (string -> string)) : string :=
  match fs with
  | [] => String close rest
  | [f] => f (String close rest)
  | f :: fs => f (String "," (compact_members close rest fs))
  end.

(** [json.dumps(v, sort_keys=True, separators=(",", ":"))] in front of [rest] *)
Fixpoint dump_compact (v : json) (rest : string) : string :=
  match v with
  | JNull => "null" +:+ rest
  | JBool true => "true" +:+ rest
  | JBool false => "false" +:+ rest
  | JInt n => str_of_int n +:+ rest
  | JStr s => quote s rest
  | JList l => String "[" (compact_members "]" rest (map dump_compact l))
  | JDict d =>
      String "{" (compact_members "}" rest
        (map (fun kf => fun r => quote kf.1 (String ":" (kf.2 r)))
           (sort_items (map (fun kv => (kv.1, dump_compact kv.2)) d))))
  end.

Definition canonicalize_payload (p : hop_payload) : bytes :=
  match p with
  | P_none => []
  | P_bytes b => b
  | P_dict d => ascii_bytes (dump_compact (JDict d) "")
  end.

Definition make_hop_idempotency_key (key_bytes nonce session_id : bytes) (hop_index : Z) (hop_kind : ustr)
    (attempt : Z) (p : hop_payload) : result ustr :=
  if negb (length key_bytes =? 32)%nat then Err (ValueError "key_bytes must be 32 bytes")
  else if negb (length nonce =? _NONCE_BYTES)%nat then Err (ValueError "nonce must be 16 bytes")
  else if negb (length session_id =? 16)%nat then Err (ValueError "session_id must be a 16-byte UUID value")
  else if hop_index <? 0 then Err (ValueError "hop_index must be non-negative")
  else if attempt <? 0 then Err (ValueError "attempt must be non-negative")
  else
    idx ← to_bytes hop_index 4;
    k ← utf8_encode hop_kind;
    att ← to_bytes attempt 4;
    Ok (u (hex (hmac_sha256 key_bytes
      (nonce ++ session_id ++ idx ++ k ++ [x00] ++ att ++ canonicalize_payload p)))).

Record HopAttemptKey := mkKey {
  hk_session : Z; hop_index : Z; hop_kind : ustr; hop_attempt : Z;
  idempotency_key : ustr; hop_nonce : bytes; key_generation : Z
}.

(** [session.id.bytes] *)
Definition uuid_bytes (id : Z) : bytes := be_bytes 16 id.

(** [_key_for] of the submarine, self-pay, reverse and BOLT 12 bodies, which
    reads only the id of the session *)
Definition key_for_id (id : Z) (kind : string) (attempt : Z) : result HopAttemptKey :=
  let sid := uuid_bytes id in
  let nonce := blake2b 16 (sid ++ ascii_bytes "|" ++ ascii_bytes kind ++ ascii_bytes "|" ++
                           ascii_bytes (str_of_int attempt)) in
  key ← make_hop_idempotency_key (replicate 32 x00) nonce sid 0 (u kind) attempt P_none;
  Ok (mkKey id 0 (u kind) attempt key nonce 0).

Definition _key_for (s : AnonymizeSession) (kind : string) (attempt : Z) : result HopAttemptKey :=
  key_for_id (session_id s) kind attempt.

(** The key Python computes for the same arguments. *)
Example key_for_id_ex :
  idempotency_key <$> key_for_id 0x123e4567e89b12d3a456426614174000 "submarine_fund_lockup" 1 =
    Ok (u "d7aedd8b13fbcf023e09b870dbec9a8169ed8a11c8e411eff9a1ca4e2c9ca6b1").
Proof. vm_compute. reflexivity. Qed.

(** ** The event log *)

Record hop_event := mkHop { he_session : Z; he_kind : ustr; he_key : option ustr; he_detail : list (ustr * json) }.

Definition k_started : ustr := u "hop_attempt_started".
Definition k_completed : ustr := u "hop_attempt_completed".

Definition with_key (log : list hop_event) (key : ustr) : list hop_event :=
  List.filter (fun e => bool_decide (he_key e = Some key)) log.

Definition fetch_existing_hop_attempt (log : list hop_event) (key : ustr) : option hop_event :=
  head (with_key log key).

Definition record_hop_attempt_started (log : list hop_event) (key : HopAttemptKey) (detail : list (ustr * json))
    : list hop_event :=
  match fetch_existing_hop_attempt log (idempotency_key key) with
  | Some _ => log
  | None => log ++ [mkHop (hk_session key) k_started (Some (idempotency_key key)) detail]
  end.

Inductive dispatch := issue_side_effect | verify_remote_state | completed_idempotent_no_op.

Definition dispatcher_decision (started_event completed_event : option hop_event) : dispatch :=
  match started_event, completed_event with
  | None, _ => issue_side_effect
  | Some _, None => verify_remote_state
  | Some _, Some _ => completed_idempotent_no_op
  end.

Definition of_kind (log : list hop_event) (key kind : ustr) : option hop_event :=
  List.find (fun e => bool_decide (he_kind e = kind)) (with_key log key).

Definition fetch_completed_hop_attempt (log : list hop_event) (key : ustr) : option hop_event :=
  of_kind log key k_completed.

Definition dispatch_hop_attempt (log : list hop_event) (key : ustr) : dispatch :=
  dispatcher_decision (of_kind log key k_started) (of_kind log key k_completed).

Definition record_hop_attempt_completed (log : list hop_event) (key : HopAttemptKey) (detail : list (ustr * json))
    : list hop_event :=
  log ++ [mkHop (hk_session key) k_completed (Some (idempotency_key key)) detail].

Definition has_hop_attempt_completed (log : list hop_event) (key : ustr) : bool :=
  match fetch_completed_hop_attempt log key with Some _ => true | None => false end.

(** ** Store, calls and computations *)

Record store := mkStore { row : AnonymizeSession; log : list hop_event }.

(** Adapter calls with the arguments that matter outside the process. *)
Inductive call :=
  | C_add_invoice (amount_sat : Z)
  | C_create_submarine (invoice : ustr)
  | C_fund (address : json) (amount_sat : Z)
  | C_check_inbound (amount_sat : Z)
  | C_swap_status (swap_id : json)
  | C_refund (swap_id : json)
  | C_broadcast (tx_hex : ustr)
  | C_lookup_invoice (payment_hash : ustr)
  | C_route
  | C_send_self (payment_request : ustr)
  | C_pay_offer (offer : ustr) (amount_msat : Z)
  | C_circuits
  | C_create_reverse (request_body : json)
  | C_pay_reverse (invoice : json) (max_parts : Z)
  | C_reverse_status (swap_id operator_id : json)
  | C_feerate
  | C_claim_reverse (swap_id lockup_tx : json)
  | C_broadcast_claim (tx_hex : ustr).

Record world := mkWorld {
  durable : store;
  working : store;
  calls : list call;
  life : nat               (** points until the process dies *)
}.

Inductive outcome (A : Type) := Done (a : A) | Raised (e : exn) | Died.
Arguments Done {A} a.
Arguments Raised {A} e.
Arguments Died {A}.

Definition M (A : Type) : Type := world -> world * outcome A.

Definition ret {A} (a : A) : M A := fun w => (w, Done a).

Definition bind {A B} (m : M A) (f : A -> M B) : M B := fun w =>
  match m w with
  | (w', Done a) => f a w'
  | (w', Raised e) => (w', Raised e)
  | (w', Died) => (w', Died)
  end.

Declare Scope hop_scope.
Delimit Scope hop_scope with hop.
Notation "'let*' x ':=' m 'in' k" := (bind m (fun x => k))
  (at level 10, x name, m at level 100, k at level 200) : hop_scope.
Notation "'do*' m 'in' k" := (bind m (fun _ => k))
  (at level 10, m at level 100, k at level 200) : hop_scope.
Open Scope hop_scope.

Definition lift {A} (r : result A) : M A := fun w =>
  (w, match r with Ok a => Done a | Err e => Raised e end).

Definition get : M store := fun w => (w, Done (working w)).

Definition put_store (s : store) : M unit := fun w =>
  (mkWorld (durable w) s (calls w) (life w), Done tt).

Definition set_row (r : AnonymizeSession) : M unit := fun w =>
  (mkWorld (durable w) (mkStore r (log (working w))) (calls w) (life w), Done tt).

Definition set_log (l : list hop_event) : M unit := fun w =>
  (mkWorld (durable w) (mkStore (row (working w)) l) (calls w) (life w), Done tt).

Definition point : M unit := fun w =>
  match life w with
  | O => (w, Died)
  | S n => (mkWorld (durable w) (working w) (calls w) n, Done tt)
  end.

(** An adapter call: the process may die before the call goes out and
    before its reply is used. [reply] may depend on the calls made so far. *)
Definition call_adapter {A} (c : call) (reply : list call -> A) : M A := fun w =>
  (do* point in
   do* (fun w => (mkWorld (durable w) (working w) (calls w ++ [c]) (life w), Done tt)) in
   do* point in
   ret (reply (calls w))) w.

(** [await db.commit()] *)
Definition commit (now : Z) : M unit :=
  do* point in
  (fun w =>
     let s := working w in
     let s := mkStore (flush now (row (durable w)) (row s)) (log s) in
     (mkWorld s s (calls w) (life w), Done tt)).

(** The end of a transaction block that did not commit. *)
Definition rollback (w : world) : world := mkWorld (durable w) (durable w) (calls w) (life w).
