(* ===== verification/AnonHops.v ===== *)
(** * Hop bodies: submarine funding, Lightning self-pay, BOLT 12 exit

    anonymize/hops/submarine.py, ln_self_pay.py and bolt12_pay.py in the
    crash model of [HopLog]. The adapters of the [...Deps] records are
    parameters; their replies may depend on every call made before. Writes
    to other tables (the mirror onto the BoltzSwap row, the coin label) and
    log output are left out. *)
From S2P Require Import Prelude Bytes PyInt Utf8 Json PyJson AnonState HopLog.

Record HopStepOutcome := mkHS { hs_kind : string; hs_detail : ustr }.

Definition _NOOP : HopStepOutcome := mkHS "noop" [].
Definition hop_noop (d : string) : HopStepOutcome := mkHS "noop" (u d).
Definition hop_error (d : ustr) : HopStepOutcome := mkHS "error" d.

(** [f"{err}"] *)
Definition fmt_opt (e : option ustr) : ustr := default (u "None") e.

(** [err or "..."] *)
Definition or_text (e : option ustr) (dflt : string) : ustr :=
  match e with Some ((_ :: _) as e) => e | _ => u dflt end.

(** A pair [(result, error)] of an adapter. *)
Abbreviation reply A := (option A * option ustr)%type.

(** [err is not None or result is None] *)
Definition ok_reply {A} (r : reply A) : option A :=
  match r with (Some a, None) => Some a | _ => None end.

Record invoice_data := mkInv { payment_request : ustr; r_hash : ustr }.

Definition get_row : M AnonymizeSession := let* st := get in ret (row st).
Definition get_log : M (list hop_event) := let* st := get in ret (log st).
Definition get_calls : M (list call) := fun w => (w, Done (calls w)).

Definition log_started (key : HopAttemptKey) (detail : list (ustr * json)) : M unit :=
  let* l := get_log in set_log (record_hop_attempt_started l key detail).

Definition log_completed (key : HopAttemptKey) (detail : list (ustr * json)) : M unit :=
  let* l := get_log in set_log (record_hop_attempt_completed l key detail).

Definition add_event (s : AnonymizeSession) (kind : string) (detail : list (ustr * json)) : M unit :=
  let* l := get_log in set_log (l ++ [mkHop (session_id s) (u kind) None detail]).

(** [pj = dict(session.pipeline_json or {}); ...; session.pipeline_json = pj] *)
Definition update_pj (f : list (ustr * json) -> list (ustr * json)) : M unit :=
  let* s := get_row in
  let* pj := lift (py_dict (pipeline_json s)) in
  set_row (set_pipeline_json s (JDict (f pj))).

(** The shared reconciliation helper, called from a body. *)
Definition route_to_reconciliation (reason : string) : M unit :=
  let* s := get_row in
  let '(s', r) := transition_to_awaiting_reconciliation s (u reason) in
  do* set_row s' in lift r.

Definition jstr_opt (s : option ustr) : json := match s with Some s => JStr s | None => JNull end.

(** ** submarine.py *)

Record swap_data := mkSwap { boltz_swap_id : ustr; boltz_lockup_address : ustr; timeout_block_height : Z }.
Record funding_data := mkFunding { tx_hex : ustr; txid : option ustr }.

Record SubmarineHopDeps := mkSubmarine {
  boltz_create_submarine_swap : list call -> reply swap_data;
  sub_get_swap_status : list call -> option ustr * option ustr;
  sub_add_invoice : list call -> reply invoice_data;
  build_and_broadcast_funding_tx : list call -> reply funding_data;
  run_refund_subprocess : list call -> reply ustr;
  chain_broadcast_tx : list call -> reply ustr;
  check_inbound_sufficient : option (list call -> option ustr);
  refund_lockdown_enabled : bool;
  clock_iso : list call -> ustr            (** [datetime.now(timezone.utc).isoformat()] *)
}.

Definition sub_has_issued_swap (s : AnonymizeSession) : bool :=
  match or_dict (pipeline_json s) with
  | JDict pj => truthy (dget pj (u "submarine_swap_id"))
  | _ => false
  end.

Definition sub_step_issue_swap (d : SubmarineHopDeps) : M HopStepOutcome :=
  let* s := get_row in
  if sub_has_issued_swap s then ret (hop_noop "submarine_swap_already_issued")
  else
    let* key := lift (_key_for s "submarine_create" 1) in
    let* l := get_log in
    if has_hop_attempt_completed l (idempotency_key key) then ret (hop_noop "submarine_create_already_completed")
    else if bin_amount_sat s <=? 0 then ret (hop_error (u "bin_amount_sat must be positive"))
    else
      do* log_started key [(u "step", JStr (u "submarine_add_invoice"))] in
      let* r := call_adapter (C_add_invoice (bin_amount_sat s)) (sub_add_invoice d) in
      match ok_reply r with
      | None => ret (hop_error (u "add_invoice_failed:" ++ fmt_opt (snd r)))
      | Some inv =>
          match payment_request inv with
          | [] => ret (hop_error (u "add_invoice_returned_no_payment_request"))
          | invoice =>
              let* r := call_adapter (C_create_submarine invoice) (boltz_create_submarine_swap d) in
              match ok_reply r with
              | None => ret (hop_error (u "submarine_create_failed:" ++ fmt_opt (snd r)))
              | Some swap =>
                  do* update_pj (fun pj =>
                        dset (dset (dset (dset pj (u "submarine_swap_id") (JStr (boltz_swap_id swap)))
                          (u "submarine_lockup_address") (JStr (boltz_lockup_address swap)))
                          (u "submarine_timeout_block_height") (JInt (timeout_block_height swap)))
                          (u "submarine_invoice") (JStr invoice)) in
                  do* log_completed key [(u "swap_id", JStr (boltz_swap_id swap))] in
                  ret (mkHS "issued_swap" (boltz_swap_id swap))
              end
          end
      end.

(** After the guards: the inbound re-check, the durable marker, the
    broadcast. *)
Definition sub_broadcast (d : SubmarineHopDeps) (now : Z) (key : HopAttemptKey) (address : json) (s : AnonymizeSession)
    : M HopStepOutcome :=
  do* log_started key [(u "step", JStr (u "fund_lockup"))] in
  do* commit now in
  let* r := call_adapter (C_fund address (bin_amount_sat s)) (build_and_broadcast_funding_tx d) in
  match ok_reply r with
  | None => ret (hop_error (u "funding_failed:" ++ fmt_opt (snd r)))
  | Some f =>
      let* made := get_calls in
      do* update_pj (fun pj =>
            dset (dset (dset pj (u "submarine_funding_tx_hex") (JStr (tx_hex f)))
              (u "submarine_funding_txid") (jstr_opt (txid f)))
              (u "submarine_funding_broadcast_at_ts") (JStr (clock_iso d made))) in
      do* log_completed key [(u "funding_txid", JStr (default [] (txid f)))] in
      ret (mkHS "funded" (default [] (txid f)))
  end.

Definition sub_step_fund_lockup (d : SubmarineHopDeps) (now : Z) : M HopStepOutcome :=
  let* s := get_row in
  match or_dict (pipeline_json s) with
  | JDict pj =>
      let address := dget pj (u "submarine_lockup_address") in
      if negb (truthy address) then ret (hop_error (u "missing_lockup_address"))
      else if truthy (dget pj (u "submarine_funding_tx_hex")) then ret _NOOP
      else
        let* key := lift (_key_for s "submarine_fund_lockup" 1) in
        let* l := get_log in
        match dispatch_hop_attempt l (idempotency_key key) with
        | completed_idempotent_no_op => ret (hop_noop "lockup_funding_already_completed")
        | verify_remote_state =>
            do* route_to_reconciliation "submarine_funding_in_doubt" in
            ret (hop_error (u "submarine_funding_in_doubt"))
        | issue_side_effect =>
            let* refusal :=
              match check_inbound_sufficient d with
              | None => ret None
              | Some f => call_adapter (C_check_inbound (bin_amount_sat s)) f
              end in
            if nonempty refusal then
              do* add_event s "inbound_insufficient_at_lockup" [(u "receive_sats", JInt (bin_amount_sat s))] in
              do* route_to_reconciliation "inbound_insufficient_at_lockup" in
              ret (hop_error (u "inbound_insufficient_at_lockup"))
            else sub_broadcast d now key address s
        end
  | _ => ret (hop_error (u "malformed_pipeline_json"))
  end.

Definition sub_step_refund (d : SubmarineHopDeps) : M HopStepOutcome :=
  let* s := get_row in
  let* key := lift (_key_for s "submarine_refund" 1) in
  let* l := get_log in
  if has_hop_attempt_completed l (idempotency_key key) then ret (hop_noop "submarine_refund_already_completed")
  else
    let* swap_id := lift (py_get (or_dict (pipeline_json s)) (u "submarine_swap_id") JNull) in
    if negb (truthy swap_id) then ret (hop_error (u "missing_submarine_swap_id"))
    else
      do* log_started key [(u "step", JStr (u "submarine_refund"))] in
      let* r := call_adapter (C_refund swap_id) (run_refund_subprocess d) in
      match ok_reply r with
      | None | Some [] => ret (hop_error (u "refund_subprocess:" ++ or_text (snd r) "no_hex"))
      | Some refund_tx =>
          let* b := call_adapter (C_broadcast refund_tx) (chain_broadcast_tx d) in
          match snd b with
          | Some e => ret (hop_error (u "refund_broadcast:" ++ e))
          | None =>
              do* (if nonempty (fst b) && refund_lockdown_enabled d
                   then add_event s "anonymize_refund_locked"
                          [(u "outpoint", JStr (default [] (fst b) ++ u ":0")); (u "reason", JStr (u "timeout"))]
                   else ret tt) in
              do* log_completed key [(u "refund_broadcast", JBool true); (u "refund_txid", JStr (default [] (fst b)))] in
              ret (mkHS "refund_broadcast" (match swap_id with JStr t => t | _ => [] end))
          end
      end.

Definition sub_step_observe_settlement (d : SubmarineHopDeps) : M HopStepOutcome :=
  let* s := get_row in
  let* swap_id := lift (py_get (or_dict (pipeline_json s)) (u "submarine_swap_id") JNull) in
  if negb (truthy swap_id) then ret (hop_error (u "missing_submarine_swap_id"))
  else
    let* r := call_adapter (C_swap_status swap_id) (sub_get_swap_status d) in
    match snd r with
    | Some e => ret (hop_error (u "poll_status:" ++ e))
    | None =>
        let st := default [] (fst r) in
        do* update_pj (fun pj => dset pj (u "submarine_swap_status") (JStr st)) in
        if mem st [u "transaction.claimed"; u "invoice.settled"] then ret (mkHS "observed_settlement" st)
        else if mem st [u "swap.expired"; u "invoice.failedToPay"] then sub_step_refund d
        else ret (mkHS "noop" (u "awaiting_settlement:" ++ fmt_opt (fst r)))
    end.

Definition execute_submarine_hop_step (d : SubmarineHopDeps) (now : Z) : M HopStepOutcome :=
  let* s := get_row in
  if bool_decide (status s = value SOURCING) then sub_step_issue_swap d
  else if bool_decide (status s = value FUNDING) then sub_step_fund_lockup d now
  else if bool_decide (status s = value LN_HOLDING) then sub_step_observe_settlement d
  else ret _NOOP.

(** ** ln_self_pay.py *)

Inductive self_pay_mode := pinned (outgoing_chan_id : Z) | split (max_parts : Z).

Definition mode_text (m : self_pay_mode) : ustr := u match m with pinned _ => "pinned" | split _ => "split" end.

Record LnSelfPayHopDeps := mkSelfPay {
  lnd_add_invoice : list call -> reply invoice_data;
  lnd_send_self_payment : list call -> reply unit;
  lnd_lookup_invoice : list call -> reply bool;      (** [settled] of the invoice *)
  resolve_self_pay_route : list call -> reply self_pay_mode;
  self_clock_iso : list call -> ustr
}.

Definition _mark_settled (d : LnSelfPayHopDeps) : M unit :=
  let* made := get_calls in
  update_pj (fun pj =>
    let pj := dset pj (u "self_pay_status") (JStr (u "settled")) in
    match assoc (u "self_pay_fired_at_ts") pj with
    | Some _ => pj
    | None => dset pj (u "self_pay_fired_at_ts") (JStr (self_clock_iso d made))
    end).

(** [str(pj.get(k) or "")], for a key the bodies store text under *)
Definition text_of (v : json) : ustr := match v with JStr s => s | _ => [] end.

(** Route and send, once the invoice and its hash are durable. *)
Definition self_pay_send (d : LnSelfPayHopDeps) (key : HopAttemptKey) (invoice : ustr) : M HopStepOutcome :=
  let* rt := call_adapter C_route (resolve_self_pay_route d) in
  match ok_reply rt with
  | None => ret (hop_error (u "self_pay_route:" ++ or_text (snd rt) "unresolved"))
  | Some mode =>
      do* update_pj (fun pj =>
            let pj := dset pj (u "self_pay_mode") (JStr (mode_text mode)) in
            match mode with
            | pinned c => dset pj (u "self_pay_outgoing_chan_id") (JInt c)
            | split n => dset pj (u "self_pay_max_parts") (JInt n)
            end) in
      do* log_started key [(u "step", JStr (u "fire_self_pay")); (u "mode", JStr (mode_text mode))] in
      let* r := call_adapter (C_send_self invoice) (lnd_send_self_payment d) in
      match ok_reply r with
      | None => ret (hop_error (u "self_pay_send:" ++ or_text (snd r) "no_result"))
      | Some _ =>
          do* _mark_settled d in
          do* log_completed key [(u "mode", JStr (mode_text mode))] in
          ret (mkHS "fired_self_pay" (mode_text mode))
      end
  end.

(** A new invoice, made durable before it is paid. *)
Definition self_pay_new_invoice (d : LnSelfPayHopDeps) (now : Z) (key : HopAttemptKey) (amount : Z)
    : M HopStepOutcome :=
  let* r := call_adapter (C_add_invoice amount) (lnd_add_invoice d) in
  match ok_reply r with
  | None => ret (hop_error (u "add_invoice_failed:" ++ fmt_opt (snd r)))
  | Some inv =>
      match payment_request inv, r_hash inv with
      | _ :: _, _ :: _ =>
          do* update_pj (fun pj =>
                dset (dset pj (u "self_pay_invoice") (JStr (payment_request inv)))
                  (u "self_pay_payment_hash_hex") (JStr (r_hash inv))) in
          do* commit now in
          self_pay_send d key (payment_request inv)
      | _, _ => ret (hop_error (u "add_invoice_returned_incomplete"))
      end
  end.

Definition self_pay_mint (d : LnSelfPayHopDeps) (now : Z) (key : HopAttemptKey) (amount : Z) (invoice hash : ustr)
    : M HopStepOutcome :=
  match invoice, hash with
  | _ :: _, _ :: _ => self_pay_send d key invoice
  | _, _ => self_pay_new_invoice d now key amount
  end.

Definition _step_fire_self_pay (d : LnSelfPayHopDeps) (now : Z) : M HopStepOutcome :=
  let* s := get_row in
  match or_dict (pipeline_json s) with
  | JDict pj =>
      if is_jstr (dget pj (u "self_pay_status")) (u "settled") then ret (hop_noop "self_pay_already_settled")
      else if bin_amount_sat s <=? 0 then ret (hop_error (u "bin_amount_sat must be positive"))
      else
        let* key := lift (_key_for s "ln_self_pay_fire" 1) in
        let* l := get_log in
        if has_hop_attempt_completed l (idempotency_key key) then
          do* _mark_settled d in ret (hop_noop "self_pay_already_completed")
        else
          let invoice := text_of (dget pj (u "self_pay_invoice")) in
          let hash := text_of (dget pj (u "self_pay_payment_hash_hex")) in
          let* settled :=
            match hash with
            | [] => ret false
            | _ =>
                let* r := call_adapter (C_lookup_invoice hash) (lnd_lookup_invoice d) in
                ret (default false (ok_reply r))
            end in
          if settled : bool then
            do* _mark_settled d in
            do* log_completed key [(u "resolved", JStr (u "lookup_settled"))] in
            ret (mkHS "fired_self_pay" (u "resolved_settled"))
          else self_pay_mint d now key (bin_amount_sat s) invoice hash
  | _ => ret (hop_error (u "malformed_pipeline_json"))
  end.

Definition execute_ln_self_pay_hop_step (d : LnSelfPayHopDeps) (now : Z) : M HopStepOutcome :=
  let* s := get_row in
  if bool_decide (status s = value FUNDING) then _step_fire_self_pay d now
  else if bool_decide (status s = value LN_HOLDING) then ret (hop_noop "ln_holding")
  else ret _NOOP.

(** ** bolt12_pay.py *)

Record pay_result := mkPay {
  pr_status : ustr; pr_payment_hash : ustr; pr_preimage : option ustr; pr_error : option ustr
}.

Record Bolt12PayHopDeps := mkB12 { pay_bolt12_offer : list call -> reply pay_result }.

(** [(v or "").strip()] *)
Definition offer_text (v : json) : result ustr :=
  if negb (truthy v) then Ok []
  else match v with JStr s => Ok (strip s) | _ => Err AttributeError end.

Definition pay_outcome (fields : list (string * json)) : list (ustr * json) -> list (ustr * json) :=
  fun pj => dset pj (u "bolt12_pay_outcome") (JDict (map (fun kv => (u kv.1, kv.2)) fields)).

Definition b12_finish (now : Z) (key : HopAttemptKey) (r : pay_result) : M HopStepOutcome :=
  let st := lower_text (pr_status r) in
  do* update_pj (pay_outcome
        [("status", JStr st); ("payment_hash_hex", JStr (pr_payment_hash r)); ("preimage_hex", jstr_opt (pr_preimage r));
         ("recorded_at_unix_s", JInt (now / 1000000))]%string) in
  if bool_decide (st = u "paid") then
    do* log_completed key [(u "status", JStr (u "paid")); (u "payment_hash_hex", JStr (pr_payment_hash r))] in
    let* s := get_row in
    let s := set_status s (value COMPLETED) in
    do* set_row (match completed_at s with None => set_completed_at s (Some now) | Some _ => s end) in
    ret (mkHS "paid" (pr_payment_hash r))
  else if bool_decide (st = u "in_flight") then ret (mkHS "in_flight" (pr_payment_hash r))
  else
    do* log_completed key [(u "status", JStr st); (u "payment_hash_hex", JStr (pr_payment_hash r))] in
    let* s := get_row in
    do* set_row (set_status s (value FAILED)) in
    ret (mkHS "failed" (match pr_error r with Some ((_ :: _) as e) => e | _ => st end)).

Definition b12_pay (d : Bolt12PayHopDeps) (now : Z) (offer : ustr) : M HopStepOutcome :=
  let* s := get_row in
  if bin_amount_sat s <=? 0 then ret (hop_error (u "bolt12_pay_exit_missing_bin_amount"))
  else
    let* key := lift (_key_for s "bolt12_pay" 1) in
    let* l := get_log in
    if has_hop_attempt_completed l (idempotency_key key) then ret (hop_noop "bolt12_pay_already_completed")
    else
      do* log_started key [(u "step", JStr (u "bolt12_pay")); (u "amount_sat", JInt (bin_amount_sat s))] in
      let* r := call_adapter (C_pay_offer offer (bin_amount_sat s * 1000)) (pay_bolt12_offer d) in
      match ok_reply r with
      | None =>
          let err := fmt_opt (snd r) in
          do* update_pj (pay_outcome
                [("status", JStr (u "failed")); ("error", JStr err); ("recorded_at_unix_s", JInt (now / 1000000))]%string) in
          do* log_completed key [(u "status", JStr (u "failed")); (u "error", JStr err)] in
          let* s := get_row in
          do* set_row (set_status s (value FAILED)) in
          ret (mkHS "failed" err)
      | Some r => b12_finish now key r
      end.

Definition b12_step_exiting (d : Bolt12PayHopDeps) (now : Z) : M HopStepOutcome :=
  let* s := get_row in
  let pj := or_dict (pipeline_json s) in
  let* ex := lift (py_get pj (u "exit") JNull) in
  let* ov := lift (py_get (or_dict ex) (u "bolt12_offer") JNull) in
  let* offer := lift (offer_text ov) in
  match offer with
  | [] => ret (hop_error (u "bolt12_pay_exit_missing_offer"))
  | _ =>
      let* ev := lift (py_get pj (u "bolt12_pay_outcome") JNull) in
      let* st := lift (py_get (or_dict ev) (u "status") JNull) in
      if is_jstr st (u "paid") then ret _NOOP
      else if is_jstr st (u "in_flight") then ret (mkHS "in_flight" (u "awaiting_reconciliation"))
      else b12_pay d now offer
  end.

Definition execute_bolt12_pay_hop_step (d : Bolt12PayHopDeps) (now : Z) : M HopStepOutcome :=
  let* s := get_row in
  if bool_decide (status s = value EXITING) then b12_step_exiting d now else ret _NOOP.
