(* ===== verification/AnonReverse.v ===== *)
(** * The reverse-swap exit

    anonymize/hops/reverse.py in the crash model of [HopLog], with the helpers
    of cooperative_claim.py and boltz_request.py it calls and the exit-relay
    check of tor.py. The adapters of [ReverseHopDeps], the Tor control port and
    the fee estimate are parameters. A [db.flush()] is not durable and leaves
    no trace here; the counter of misbehaving operators, which is written in a
    transaction of its own, the alarm for stuck payments and the random pause
    before a broadcast are left out. Error details that quote a float or an
    exception stop where the quotation starts. *)
From S2P Require Import Prelude Bytes PyInt PyFloat Utf8 Json PyJson TxPolicy ScriptPubKey AnonState HopLog AnonHops.

Record rev_settings := mkRevSettings {
  bitcoin_network : string;
  require_exit_diversity : ustr;
  listeners_configured : bool;         (** both SOCKS ports of [anonymize_tor_socks_ports_dict] are there *)
  mpp_fallback_mode : string;
  mpp_k_min_executed : Z;
  claim_feerate_tolerance_lo : float;
  claim_feerate_tolerance_hi : float;
  reverse_max_total_fee_pct : float;
  boltz_broadcast_grace_s : Z;
  broadcast_via : ustr
}.

(** ** tor.py: exit-relay diversity *)

Record CircuitExitInfo := mkCircuit {
  circuit_id : ustr; exit_fingerprint : ustr; exit_ip : ustr; asn : option ustr; country : option ustr
}.

(** [s.split(c)] for a single character *)
Fixpoint split_char (c : Z) (s : ustr) : list ustr :=
  match s with
  | [] => [[]]
  | x :: s =>
      match split_char c s with
      | [] => [[]]
      | p :: ps => if x =? c then [] :: p :: ps else (x :: p) :: ps
      end
  end.

Fixpoint join_char (c : Z) (ps : list ustr) : ustr :=
  match ps with
  | [] => []
  | [p] => p
  | p :: ps => p ++ c :: join_char c ps
  end.

Definition _ip_slash_16 (ip : ustr) : ustr :=
  if infix (u ":") ip then join_char 58 (take 4 (split_char 58 ip))
  else
    let parts := split_char 46 ip in
    if negb (length parts =? 4)%nat then ip else join_char 46 (take 2 parts).

Definition or_key (a : option ustr) (k : ustr) : ustr := match a with Some ((_ :: _) as a) => a | _ => k end.

Definition _exit_diversity_key (info : CircuitExitInfo) (mode : ustr) : ustr :=
  if bool_decide (mode = u "off") then circuit_id info
  else if bool_decide (mode = u "country") then or_key (country info) (or_key (asn info) (_ip_slash_16 (exit_ip info)))
  else or_key (asn info) (_ip_slash_16 (exit_ip info)).

Definition assert_exit_relay_diversity (a b : CircuitExitInfo) (mode : ustr) : option ustr :=
  if bool_decide (mode = u "off") then None
  else
    let sub_key := _exit_diversity_key a mode in
    if bool_decide (sub_key = _exit_diversity_key b mode) then
      Some (u "submarine + reverse legs share the same exit-relay diversity key (" ++ mode ++ u "='" ++ sub_key ++
            u "'); rebuild the reverse circuit before issuing the second leg")
    else None.

(** The loops over pairs of circuits, in their order. *)
Fixpoint clash_with (c : CircuitExitInfo) (cs : list CircuitExitInfo) (mode : ustr) : option ustr :=
  match cs with
  | [] => None
  | c' :: cs =>
      let k := _exit_diversity_key c mode in
      if nonempty (Some k) && bool_decide (k = _exit_diversity_key c' mode) then
        match assert_exit_relay_diversity c c' mode with Some e => Some e | None => clash_with c cs mode end
      else clash_with c cs mode
  end.

Fixpoint find_clash (cs : list CircuitExitInfo) (mode : ustr) : option ustr :=
  match cs with
  | [] => None
  | c :: cs => match clash_with c cs mode with Some e => Some e | None => find_clash cs mode end
  end.

(** ** Adapters *)

(** What the body reads of the object a created swap is, and of the data of
    a status reply: [float(data.get("claimFeeRate", 0) or 0)] and
    [data.get("transaction", {})]. *)
Record reverse_swap := mkReverse { rev_swap_id : ustr; rev_invoice : option ustr }.
Record status_data := mkStatusData { claim_fee_rate : result float; lockup_transaction : json }.

Record ReverseHopDeps := mkReverseDeps {
  tor_circuits : list call -> list CircuitExitInfo * option ustr;
  boltz_create_reverse_swap : list call -> reply reverse_swap;
  boltz_get_swap_status : list call -> option ustr * option status_data * option ustr;
  lnd_send_payment : list call -> json * option ustr;
  economy_feerate : list call -> reply float;
  run_claim_subprocess : list call -> reply ustr;
  rev_chain_broadcast_tx : list call -> reply ustr
}.

Definition _check_exit_relay_diversity (cfg : rev_settings) (d : ReverseHopDeps) : M (option ustr) :=
  let* r := call_adapter C_circuits (tor_circuits d) in
  match r with
  | (circuits, None) =>
      if (length circuits <? 2)%nat then ret None
      else if negb (listeners_configured cfg) then ret None
      else
        let mode := or_key (Some (require_exit_diversity cfg)) (u "asn") in
        if bool_decide (mode = u "off") then ret None else ret (find_clash circuits mode)
  | (_, Some _) => ret None
  end.

(** ** boltz_request.py *)

Definition _PAD_BUCKETS_BYTES : list Z := [512; 1024; 2048; 4096; 8192; 16384].

Fixpoint next_bucket (caps : list Z) (n : Z) : Z :=
  match caps with
  | [] => 16384
  | cap :: caps => if n <=? cap then cap else next_bucket caps n
  end.

Definition _next_bucket_size (n : Z) : Z := next_bucket _PAD_BUCKETS_BYTES n.

(** For the default chains and padding. The order of the members does not
    change the length of the text. *)
Definition make_reverse_create_request (preimage_hash_hex claim_public_key_hex : ustr) (invoice_amount_sats : Z)
    (destination_address : json) : json :=
  let out := [(u "from", JStr (u "BTC")); (u "to", JStr (u "BTC")); (u "preimageHash", JStr preimage_hash_hex);
              (u "claimPublicKey", JStr claim_public_key_hex); (u "invoiceAmount", JInt invoice_amount_sats)] ++
             match destination_address with JNull => [] | a => [(u "claimAddress", a)] end in
  let n := Z.of_nat (String.length (dump_compact (JDict out) "")) in
  let overhead := 10 in
  let pad_len := Z.max 0 (_next_bucket_size (n + overhead) - n - overhead) in
  JDict (out ++ [(u "_pad", JStr (replicate (Z.to_nat pad_len) 120))]).

(** ** cooperative_claim.py *)

Definition resolve_mpp_k (pipeline_json : json) : Z :=
  match pipeline_json with
  | JDict pj =>
      match int_of_json (default (JInt 1) (assoc (u "reverse_payment_chunks_k_requested") pj)) with
      | Ok k => if k <? 1 then 1 else k
      | Err _ => 1
      end
  | _ => 1
  end.

Definition sf_zero : float := S754_zero false.

Definition assert_claim_feerate_sane (cfg : rev_settings) (quoted economy : float) : bool :=
  let scaled := SFmul 53 1024 economy (claim_feerate_tolerance_lo cfg) in
  let lower_bound := if SFltb sf_zero scaled then scaled else sf_zero in
  let upper_bound := SFmul 53 1024 economy (claim_feerate_tolerance_hi cfg) in
  SFleb lower_bound quoted && SFleb quoted upper_bound.

(** The first of two probes that succeeds. *)
Definition probe_economy_feerate_with_retry (d : ReverseHopDeps) : M (option float) :=
  let* r := call_adapter C_feerate (economy_feerate d) in
  match ok_reply r with
  | Some v => ret (Some v)
  | None => let* r := call_adapter C_feerate (economy_feerate d) in ret (ok_reply r)
  end.

(** ** reverse.py *)

Definition rev_has_issued_swap (s : AnonymizeSession) : bool :=
  match or_dict (pipeline_json s) with
  | JDict pj => truthy (dget pj (u "reverse_swap_id"))
  | _ => false
  end.

Definition rev_is_onchain (s : AnonymizeSession) : bool :=
  mem (lower_text (source_kind s)) [source_value ONCHAIN_SELF; source_value EXT_ONCHAIN].

Definition zeros (n : nat) : ustr := replicate n 48.

(** The swap is created. *)
Definition rev_create (d : ReverseHopDeps) (key : HopAttemptKey) : M HopStepOutcome :=
  do* log_started key [(u "step", JStr (u "reverse_create_swap"))] in
  let* s := get_row in
  let* ex := lift (py_get (or_dict (pipeline_json s)) (u "exit") (JDict [])) in
  let* destination := lift (py_get ex (u "destination_address") (JStr [])) in
  let request_body := make_reverse_create_request (zeros 64) (u "02" ++ zeros 64) (bin_amount_sat s) destination in
  let* r := call_adapter (C_create_reverse request_body) (boltz_create_reverse_swap d) in
  let failed := ret (hop_error (u "create_swap_failed:" ++ fmt_opt (snd r))) in
  if nonempty (snd r) then failed
  else match fst r with
       | None => failed
       | Some swap =>
           do* update_pj (fun pj =>
                 dset (dset pj (u "reverse_swap_id") (JStr (rev_swap_id swap)))
                   (u "reverse_swap_invoice") (JStr (default [] (rev_invoice swap)))) in
           do* log_completed key [(u "swap_id", JStr (rev_swap_id swap))] in
           ret (mkHS "issued_swap" (rev_swap_id swap))
       end.

Definition _issue_reverse_swap (cfg : rev_settings) (d : ReverseHopDeps) : M HopStepOutcome :=
  let* s := get_row in
  let* diversity_err := (if rev_is_onchain s then _check_exit_relay_diversity cfg d else ret None) in
  match diversity_err with
  | Some e => ret (hop_error (u "exit_relay_diversity:" ++ e))
  | None =>
      let* key := lift (_key_for s "reverse_create" 1) in
      let* l := get_log in
      if has_hop_attempt_completed l (idempotency_key key) then ret (hop_noop "reverse_create_already_completed")
      else rev_create d key
  end.

(** An error after which the payment may still be on its way. *)
Definition looks_transient (err : ustr) : bool :=
  let low := lower_text err in
  negb (startswith (u "Payment failed:") err) &&
  (infix (u "in transition") low || infix (u "connection failed") low || infix (u "request failed") low ||
   infix (u "did not reach a terminal state") low || startswith (u "lnd error (5") low).

Definition k_floor (cfg : rev_settings) : Z := Z.max 1 (mpp_k_min_executed cfg).

Definition can_decrement (cfg : rev_settings) (last_attempted_k decrements_used : Z) : bool :=
  (k_floor cfg <=? last_attempted_k - 1) &&
  (String.eqb (mpp_fallback_mode cfg) "legacy" ||
   (String.eqb (mpp_fallback_mode cfg) "strict" && (decrements_used <? 1))).

(** After a payment LND reports as failed: one part less, or reconciliation. *)
Definition rev_fall_back (cfg : rev_settings) (requested_k last_attempted_k decrements_used : Z) : M HopStepOutcome :=
  if can_decrement cfg last_attempted_k decrements_used then
    do* update_pj (fun pj =>
          dset (dset pj (u "reverse_payment_chunks_k_decrements_used") (JInt (decrements_used + 1)))
            (u "reverse_payment_chunks_k_last_attempted") (JInt (last_attempted_k - 1))) in
    ret (hop_error (u "pay_invoice_will_retry_at_k_" ++ u (str_of_int (last_attempted_k - 1))))
  else
    let* s := get_row in
    do* add_event s "mpp_k_floor_exhausted"
          [(u "requested_k", JInt requested_k); (u "last_attempted_k", JInt last_attempted_k);
           (u "decrements_used", JInt decrements_used); (u "mode", JStr (u (mpp_fallback_mode cfg)))] in
    do* route_to_reconciliation "mpp_k_floor_exhausted" in
    ret (hop_error (u "mpp_k_floor_exhausted")).

(** The payment; [None] when it has been made. *)
Definition rev_pay (cfg : rev_settings) (d : ReverseHopDeps) (pj invoice : json) : M (option HopStepOutcome) :=
  let requested_k := resolve_mpp_k pj in
  let* v := lift (py_get pj (u "reverse_payment_chunks_k_decrements_used") (JInt 0)) in
  let* decrements_used := lift (int_of_json v) in
  let* v := lift (py_get pj (u "reverse_payment_chunks_k_last_attempted") (JInt requested_k)) in
  let* last_attempted_k := lift (int_of_json v) in
  let* s := get_row in
  let* key := lift (_key_for s "reverse_pay_invoice" (decrements_used + 1)) in
  let* l := get_log in
  if has_hop_attempt_completed l (idempotency_key key) then ret None
  else
    do* log_started key [(u "step", JStr (u "pay_invoice")); (u "mpp_k", JInt last_attempted_k)] in
    let* r := call_adapter (C_pay_reverse invoice last_attempted_k) (lnd_send_payment d) in
    match r with
    | (_, Some err) =>
        if looks_transient err then ret (Some (hop_noop "ln_payment_in_flight"))
        else let* o := rev_fall_back cfg requested_k last_attempted_k decrements_used in ret (Some o)
    | (result, None) =>
        let* parts := lift (py_get (or_dict result) (u "max_parts") (JInt 1)) in
        do* log_completed key [(u "executed_k", parts)] in ret None
    end.

(** [tx_hex] as the functions of [TxPolicy] read it. *)
Definition hex_text (s : ustr) : string := String.string_of_list_ascii (latin s).

(** [str(v or "")]; a list or a dict prints with a bracket, which no address
    has. *)
Definition address_text (v : json) : ustr :=
  match v with
  | JStr s => s
  | JInt n => if n =? 0 then [] else u (str_of_int n)
  | JBool b => if b then u "True" else []
  | JNull => []
  | JList l => match l with [] => [] | _ => u "[" end
  | JDict d => match d with [] => [] | _ => u "{" end
  end.

Definition exit_destination (s : AnonymizeSession) : result ustr :=
  ex ← py_get (or_dict (pipeline_json s)) (u "exit") (JDict []);
  a ← py_get ex (u "destination_address") (JStr []);
  Ok (address_text a).

(** The script the claim has to pay, where it can be derived. *)
Definition expected_script (cfg : rev_settings) (s : AnonymizeSession) : result bytes :=
  a ← exit_destination s; address_to_script_pubkey (latin a) (bitcoin_network cfg).

Definition claim_slack_sat : Z := 2000.

Definition exit_band (cfg : rev_settings) (bin_amount : Z) : result (Z * Z) :=
  f ← mul_int_float bin_amount (reverse_max_total_fee_pct cfg);
  fee_ceiling ← int_of_float (SFdiv 53 1024 f (literal 100 1));
  let floor := bin_amount - fee_ceiling - claim_slack_sat in
  Ok (if 0 <? bin_amount then (Z.max 1 floor, bin_amount * 2) else (1, 21000000 * 100000000)).

(** The checks on the claim transaction: the detail of the error they end
    in, [None] when it may be kept. *)
Definition check_claim (cfg : rev_settings) (s : AnonymizeSession) (tx : ustr) : result (option ustr) :=
  match assert_envelope_policy (hex_text tx) None ANONYMIZE_TX_NSEQUENCE with
  | Err (TxEnvelopePolicyError _) => Ok (Some (u "envelope_policy_violation:"))
  | Err e => Err e
  | Ok _ =>
      match expected_script cfg s with
      | Err _ => Ok None
      | Ok spk =>
          band ← exit_band cfg (bin_amount_sat s);
          match validate_cooperative_claim_tx (hex_text tx) (hex spk) band None with
          | Err (ClaimTxValidationError _) => Ok (Some (u "claim_output_validation:"))
          | Err e => Err e
          | Ok _ => Ok None
          end
      end
  end.

(** The row with the claim written on it. *)
Definition with_claim (cfg : rev_settings) (now : Z) (tx : ustr) (s : AnonymizeSession) : AnonymizeSession :=
  let s := set_claim_broadcast (set_claim_tx_hex s (Some tx)) (Some now) in
  let s := match compute_txid_from_hex (hex_text tx) with Ok h => set_claim_txid s (Some (u h)) | Err _ => s end in
  set_deadline s (Some (now / 1000000 + boltz_broadcast_grace_s cfg)).

Definition rev_persist (cfg : rev_settings) (now : Z) (tx : ustr) : M unit :=
  let* s := get_row in set_row (with_claim cfg now tx s).

Definition rev_broadcast (cfg : rev_settings) (d : ReverseHopDeps) (key : HopAttemptKey) (swap_id : json) (tx : ustr)
    : M HopStepOutcome :=
  let via_boltz := bool_decide (lower_text (broadcast_via cfg) = u "boltz") in
  let* err := (if via_boltz then ret None
               else let* r := call_adapter (C_broadcast_claim tx) (rev_chain_broadcast_tx d) in ret (snd r)) in
  match err with
  | Some e => ret (hop_error (u "self_broadcast:" ++ e))
  | None =>
      do* log_completed key [(u "broadcast_via", JStr (u (if via_boltz then "boltz" else "self")))] in
      ret (mkHS "claim_broadcast" (address_text swap_id))
  end.

(** The claim of a lockup Boltz reports, and its checks. *)
Definition rev_claim (cfg : rev_settings) (d : ReverseHopDeps) (now : Z) (swap_id : json) (data : status_data)
    : M HopStepOutcome :=
  let* s := get_row in
  let* key := lift (_key_for s "reverse_claim" 1) in
  let* l := get_log in
  if has_hop_attempt_completed l (idempotency_key key) then ret (hop_noop "claim_already_completed")
  else
    do* log_started key [(u "step", JStr (u "cooperative_claim"))] in
    let* quoted := lift (claim_fee_rate data) in
    if SFleb quoted sf_zero then ret (hop_error (u "claim_feerate_missing"))
    else
      let* probed := probe_economy_feerate_with_retry d in
      match probed with
      | None => ret (hop_error (u "claim_feerate_probe_unavailable"))
      | Some economy =>
          if negb (assert_claim_feerate_sane cfg quoted economy) then ret (hop_error (u "feerate_outlier:"))
          else
            let* r := call_adapter (C_claim_reverse swap_id (lockup_transaction data)) (run_claim_subprocess d) in
            match ok_reply r with
            | Some ((_ :: _) as tx) =>
                let* s := get_row in
                let* verdict := lift (check_claim cfg s tx) in
                match verdict with
                | Some detail => ret (hop_error detail)
                | None => do* rev_persist cfg now tx in rev_broadcast cfg d key swap_id tx
                end
            | _ => ret (hop_error (u "claim_subprocess:" ++ or_text (snd r) "no_hex"))
            end
      end.

Definition no_data : status_data := mkStatusData (Ok sf_zero) (JDict []).

Definition _poll_and_claim (cfg : rev_settings) (d : ReverseHopDeps) (now : Z) : M HopStepOutcome :=
  let* s := get_row in
  let pj := or_dict (pipeline_json s) in
  let* swap_id := lift (py_get pj (u "reverse_swap_id") JNull) in
  let* invoice := lift (py_get pj (u "reverse_swap_invoice") JNull) in
  if negb (truthy swap_id) || negb (truthy invoice) then ret (hop_error (u "missing_swap_state"))
  else
    let* paid := rev_pay cfg d pj invoice in
    match paid with
    | Some o => ret o
    | None =>
        let* s := get_row in
        let* op := (match reverse_operator_id s with
                    | Some ((_ :: _) as o) => ret (JStr o)
                    | _ => lift (py_get (or_dict (pipeline_json s)) (u "reverse_operator_id") JNull)
                    end) in
        let* r := call_adapter (C_reverse_status swap_id op) (boltz_get_swap_status d) in
        match r with
        | (_, _, Some err) => ret (hop_error (u "poll_status:" ++ err))
        | (status, data, None) =>
            if negb (mem (fmt_opt status) [u "transaction.mempool"; u "transaction.confirmed"])
            then ret (mkHS "noop" (u "awaiting_lockup:" ++ fmt_opt status))
            else rev_claim cfg d now swap_id (default no_data data)
        end
    end.

Definition rev_step_exiting (cfg : rev_settings) (d : ReverseHopDeps) (now : Z) : M HopStepOutcome :=
  let* s := get_row in
  if negb (rev_has_issued_swap s) then _issue_reverse_swap cfg d
  else match claim_broadcast_at_ts s with
       | Some _ => ret _NOOP
       | None => _poll_and_claim cfg d now
       end.

Definition execute_reverse_hop_step (cfg : rev_settings) (d : ReverseHopDeps) (now : Z) : M HopStepOutcome :=
  let* s := get_row in
  if bool_decide (status s = value EXITING) then rev_step_exiting cfg d now
  else if bool_decide (status s = value CONFIRMING) then ret (hop_noop "confirming_waiting_for_chain_poll")
  else ret _NOOP.
