(* ===== verification/HopLogic.v ===== *)
(** * Reasoning about hop bodies

    Triples for the computations of [HopLog]: from a world satisfying the
    precondition, a computation that returns satisfies [Q] of its value,
    and one that raises or dies leaves a world satisfying [E]. *)
From S2P Require Import Prelude Bytes Utf8 Json PyJson AnonState HopLog AnonHops.

Definition triple {A} (P : world -> Prop) (m : M A) (Q : A -> world -> Prop) (E : world -> Prop) : Prop :=
  forall w, P w -> match m w with
                   | (w', Done a) => Q a w'
                   | (w', _) => E w'
                   end.

(** A computation that keeps [P] whatever happens. *)
Definition keeps {A} (P : world -> Prop) (m : M A) : Prop := triple P m (fun _ => P) P.

Section rules.
Context {A B : Type}.
Implicit Types (P E : world -> Prop).

Lemma triple_bind P E (m : M A) (R : A -> world -> Prop) (f : A -> M B) Q :
  triple P m R E -> (forall a, triple (R a) (f a) Q E) -> triple P (bind m f) Q E.
Proof.
  intros Hm Hf w Hw. unfold bind. specialize (Hm w Hw). destruct (m w) as [w' [a|e|]]; [|done..].
  exact (Hf a w' Hm).
Qed.

Lemma triple_ret P E (a : A) (Q : A -> world -> Prop) : (forall w, P w -> Q a w) -> triple P (ret a) Q E.
Proof. intros H w Hw. exact (H w Hw). Qed.

Lemma triple_weaken P P' E E' (m : M A) (Q Q' : A -> world -> Prop) :
  triple P' m Q' E' -> (forall w, P w -> P' w) -> (forall a w, Q' a w -> Q a w) -> (forall w, E' w -> E w) ->
  triple P m Q E.
Proof.
  intros H HP HQ HE w Hw. specialize (H w (HP w Hw)). destruct (m w) as [w' [a|e|]]; auto.
Qed.

Lemma triple_lift P E (r : result A) (Q : A -> world -> Prop) :
  (forall a w, r = Ok a -> P w -> Q a w) -> (forall w, P w -> E w) -> triple P (lift r) Q E.
Proof. intros HQ HE w Hw. unfold lift. destruct r as [a|e]; auto. Qed.

Lemma triple_call P E c (reply : list call -> A) (Q : A -> world -> Prop) :
  (forall w, P w -> E w) ->
  (forall w n, P w ->
     let w' := mkWorld (durable w) (working w) (calls w ++ [c]) n in E w' /\ Q (reply (calls w)) w') ->
  triple P (call_adapter c reply) Q E.
Proof.
  intros HE HQ w Hw. unfold call_adapter, bind, point, ret.
  destruct (life w) as [|n] eqn:Hl; [by apply HE|]. cbn [life].
  destruct n as [|n]; cbn.
  - by apply (HQ w 0%nat).
  - by apply (HQ w n).
Qed.
End rules.

Lemma triple_get_row P E Q :
  (forall w, P w -> Q (row (working w)) w) -> triple P get_row Q E.
Proof. intros H w Hw. exact (H w Hw). Qed.

Lemma triple_get_log P E Q :
  (forall w, P w -> Q (log (working w)) w) -> triple P get_log Q E.
Proof. intros H w Hw. exact (H w Hw). Qed.

Lemma triple_get_calls P E Q :
  (forall w, P w -> Q (calls w) w) -> triple P get_calls Q E.
Proof. intros H w Hw. exact (H w Hw). Qed.

Lemma triple_set_row P E r (Q : unit -> world -> Prop) :
  (forall w, P w -> Q tt (mkWorld (durable w) (mkStore r (log (working w))) (calls w) (life w))) ->
  triple P (set_row r) Q E.
Proof. intros H w Hw. exact (H w Hw). Qed.

Lemma triple_set_log P E l (Q : unit -> world -> Prop) :
  (forall w, P w -> Q tt (mkWorld (durable w) (mkStore (row (working w)) l) (calls w) (life w))) ->
  triple P (set_log l) Q E.
Proof. intros H w Hw. exact (H w Hw). Qed.

(** The state a commit leaves. *)
Definition committed (now : Z) (w : world) (n : nat) : world :=
  let s := mkStore (flush now (row (durable w)) (row (working w))) (log (working w)) in
  mkWorld s s (calls w) n.

Lemma commit_run now w :
  commit now w = match life w with O => (w, Died) | S n => (committed now w n, Done tt) end.
Proof. unfold commit, bind, point. by destruct (life w). Qed.

Lemma triple_commit P E now (Q : unit -> world -> Prop) :
  (forall w, P w -> E w) -> (forall w n, P w -> Q tt (committed now w n)) -> triple P (commit now) Q E.
Proof.
  intros HE HQ w Hw. rewrite commit_run. destruct (life w) as [|n]; [by apply HE|by apply HQ].
Qed.

Lemma keeps_bind {A B} P (m : M A) (f : A -> M B) : keeps P m -> (forall a, keeps P (f a)) -> keeps P (bind m f).
Proof. intros Hm Hf. eapply triple_bind; [exact Hm|exact Hf]. Qed.

Lemma keeps_ret {A} P (a : A) : keeps P (ret a).
Proof. by apply triple_ret. Qed.

Lemma keeps_lift {A} P (r : result A) : keeps P (lift r).
Proof. by apply triple_lift. Qed.

Lemma keeps_get_row P : keeps P get_row.
Proof. by apply triple_get_row. Qed.

Lemma keeps_get_log P : keeps P get_log.
Proof. by apply triple_get_log. Qed.

Lemma keeps_get_calls P : keeps P get_calls.
Proof. by apply triple_get_calls. Qed.

(** Flushing changes only the timestamp. *)
Lemma flush_cases now s s' : flush now s s' = s' \/ flush now s s' = set_updated_at s' (Some now).
Proof. unfold flush. case_bool_decide; auto. Qed.

(** Reading steps, as rewrites. *)
Lemma bind_get_row {A} (f : AnonymizeSession -> M A) w : bind get_row f w = f (row (working w)) w.
Proof. done. Qed.

Lemma bind_get_log {A} (f : list hop_event -> M A) w : bind get_log f w = f (log (working w)) w.
Proof. done. Qed.

Lemma bind_lift_Ok {A B} (a : A) (f : A -> M B) w : bind (lift (Ok a)) f w = f a w.
Proof. done. Qed.

Lemma py_dict_Ok v d : py_dict v = Ok d <-> or_dict v = JDict d.
Proof. unfold py_dict. destruct (or_dict v); naive_solver. Qed.

Lemma triple_update P E f (Q : unit -> world -> Prop) :
  (forall w, P w -> E w) ->
  (forall w pj, P w -> or_dict (pipeline_json (row (working w))) = JDict pj ->
     let s := set_pipeline_json (row (working w)) (JDict (f pj)) in
     Q tt (mkWorld (durable w) (mkStore s (log (working w))) (calls w) (life w))) ->
  triple P (update_pj f) Q E.
Proof.
  intros HE HQ w Hw. unfold update_pj, get_row, get, bind, ret, lift, set_row.
  destruct (py_dict _) as [pj|e] eqn:Hd; [|by apply HE]. apply py_dict_Ok in Hd. by apply HQ.
Qed.
