(* ===== verification/HopSafety.v ===== *)
(** * Crash safety of the hop bodies

    What the idempotency log and the commits before a side effect buy:
    however often the process dies and restarts, and whatever the adapters
    answer, the submarine body broadcasts at most one funding transaction
    and the self-pay body pays at most one invoice. The BOLT 12 body, which
    has no commit before its payment, can pay twice. *)
From S2P Require Import Prelude Bytes PyInt Utf8 Json PyJson AnonState HopLog AnonHops HopLogic.

(** ** Runs

    A run of one session: ticks of a body that die after a chosen number of
    points, and steps of everybody else, who may rewrite the row (not its
    id), append events under other keys and make other calls. *)

Definition with_life (w : world) (n : nat) : world := mkWorld (durable w) (durable w) (calls w) n.

(** A tick of [hop] alone: on a normal return the loop commits. *)
Definition hop_tick (hop : Z -> M HopStepOutcome) (now : Z) (n : nat) (w : world) : world :=
  match (do* hop now in commit now) (with_life w n) with
  | (w', Done _) => w'
  | (w', _) => rollback w'
  end.

Section runs.
Context (hop : Z -> M HopStepOutcome).
(** What the others may do to the row, the log and the calls. *)
Context (other : store -> list call -> store -> list call -> Prop).

Inductive run : world -> world -> Prop :=
  | run_refl w : run w w
  | run_tick w now n w' : run (hop_tick hop now n w) w' -> run w w'
  | run_other w s cs w' :
      other (durable w) (calls w) s cs -> run (mkWorld s s cs 0) w' -> run w w'.

(** An invariant that holds between ticks. *)
Lemma run_invariant (I : world -> Prop) :
  (forall w now n, I w -> I (hop_tick hop now n w)) ->
  (forall w s cs, I w -> other (durable w) (calls w) s cs -> I (mkWorld s s cs 0)) ->
  forall w w', run w w' -> I w -> I w'.
Proof. intros Ht Ho w w' R. induction R; eauto. Qed.
End runs.

(** From an invariant that every prefix of the body keeps to the tick. *)
Lemma hop_tick_invariant hop (I : world -> Prop) now n w :
  keeps I (hop now) ->
  (forall w m, I w -> I (with_life w m)) -> (forall w, I w -> I (rollback w)) ->
  (forall w m, I w -> I (committed now w m)) ->
  I w -> I (hop_tick hop now n w).
Proof.
  intros Hk Hl Hr Hc Hw. unfold hop_tick.
  assert (H : keeps I (do* hop now in commit now)).
  { apply keeps_bind; [exact Hk|]. intros _. apply triple_commit; auto. }
  specialize (H _ (Hl _ n Hw)). destruct (bind _ _ _) as [w' [a|e|]]; auto.
Qed.

(** ** The log *)

Definition has_start (l : list hop_event) (k : ustr) : Prop :=
  exists e, e ∈ l /\ he_key e = Some k /\ he_kind e = k_started.

(** The events under [k] include a started one. *)
Definition ordered (k : ustr) (l : list hop_event) : Prop :=
  forall e, e ∈ l -> he_key e = Some k -> has_start l k.

Lemma has_start_app l k ev : has_start l k -> has_start (l ++ ev) k.
Proof. intros (e & H & ?). exists e. set_solver. Qed.

Lemma in_with_key l k e : e ∈ with_key l k <-> e ∈ l /\ he_key e = Some k.
Proof.
  unfold with_key. rewrite list_elem_of_In, filter_In, bool_decide_eq_true, <- list_elem_of_In. done.
Qed.

Lemma not_started l k : of_kind l k k_started = None -> ~ has_start l k.
Proof.
  intros H (e & Hin & Hk & Hs). eapply List.find_none in H.
  - rewrite bool_decide_eq_true_2 in H by exact Hs. discriminate H.
  - apply list_elem_of_In. apply in_with_key. done.
Qed.

(** Appending events under other keys, or once a start is there. *)
Lemma ordered_app k l ev :
  ordered k l -> (forall e, e ∈ ev -> he_key e = Some k -> has_start (l ++ ev) k) -> ordered k (l ++ ev).
Proof.
  intros Ho Hev e He Hk. apply elem_of_app in He as [He|He]; [|by eapply Hev].
  apply has_start_app. by eapply Ho.
Qed.

Lemma ordered_snoc k l e : ordered k l -> (he_key e = Some k -> has_start l k) -> ordered k (l ++ [e]).
Proof.
  intros Ho He. apply ordered_app; [done|]. intros e' He' Hk. apply list_elem_of_singleton in He' as ->.
  apply has_start_app. auto.
Qed.

Lemma started_recorded k l key d :
  ordered k l ->
  ordered k (record_hop_attempt_started l key d) /\
  (idempotency_key key = k -> has_start (record_hop_attempt_started l key d) k) /\
  exists ev, record_hop_attempt_started l key d = l ++ ev.
Proof.
  intros Ho. unfold record_hop_attempt_started, fetch_existing_hop_attempt.
  destruct (head (with_key l (idempotency_key key))) as [e|] eqn:E.
  - split; [done|]. split; [|by exists []; rewrite app_nil_r].
    intros <-. apply head_Some_elem_of in E. apply in_with_key in E as [? ?]. by eapply Ho.
  - assert (Hs : forall e', e' = mkHop (hk_session key) k_started (Some (idempotency_key key)) d ->
      he_key e' = Some k -> has_start (l ++ [e']) k).
    { intros e' -> Hk. eexists. split; [apply elem_of_app; right; by apply list_elem_of_singleton|]. done. }
    split; [|split; [|by eexists]].
    + apply ordered_app; [done|]. intros e He Hk. apply list_elem_of_singleton in He as ->. by apply Hs.
    + intros <-. by apply Hs.
Qed.

(** ** At most one funding broadcast *)

Definition is_fund (c : call) : bool := match c with C_fund _ _ => true | _ => false end.
Definition funds (cs : list call) : nat := length (List.filter is_fund cs).

Lemma funds_snoc cs c : funds (cs ++ [c]) = (funds cs + if is_fund c then 1 else 0)%nat.
Proof. unfold funds. rewrite List.filter_app, length_app. simpl. by destruct (is_fund c). Qed.

Section funding.
Context (d : SubmarineHopDeps) (i : Z) (key : HopAttemptKey).
Context (Hkey : key_for_id i "submarine_fund_lockup" 1 = Ok key).

Let K := idempotency_key key.

Definition one_store (s : store) : Prop := session_id (row s) = i /\ ordered K (log s).

Definition funded_once (w : world) : Prop :=
  one_store (durable w) /\ one_store (working w) /\
  (funds (calls w) = 0%nat \/
   funds (calls w) = 1%nat /\ has_start (log (durable w)) K /\ has_start (log (working w)) K).

(** ... with an attempt under [k] recorded in the working copy *)
Definition recorded (k : ustr) (w : world) : Prop :=
  funded_once w /\ (k = K -> has_start (log (working w)) K).

Lemma fund_life w n : funded_once w -> funded_once (with_life w n).
Proof. unfold funded_once. simpl. naive_solver. Qed.

Lemma fund_rollback w : funded_once w -> funded_once (rollback w).
Proof. unfold funded_once. simpl. naive_solver. Qed.

Lemma session_id_flush now s s' : session_id (flush now s s') = session_id s'.
Proof. by destruct (flush_cases now s s') as [->| ->]. Qed.

Lemma fund_committed now w n : funded_once w -> funded_once (committed now w n).
Proof.
  intros (Hd & Hw & Hf). unfold funded_once, one_store in *. simpl. rewrite session_id_flush. naive_solver.
Qed.

Lemma fund_row w r :
  funded_once w -> session_id r = i ->
  funded_once (mkWorld (durable w) (mkStore r (log (working w))) (calls w) (life w)).
Proof. unfold funded_once, one_store. simpl. naive_solver. Qed.

Lemma fund_log w l ev :
  funded_once w -> ordered K l -> l = log (working w) ++ ev ->
  funded_once (mkWorld (durable w) (mkStore (row (working w)) l) (calls w) (life w)).
Proof.
  intros (Hd & [Hi _] & Hf) Ho ->. unfold funded_once, one_store. simpl.
  repeat split; [apply Hd..|done|done|]. destruct Hf as [?|(? & ? & ?)]; [by left|right].
  repeat split; [done|done|by apply has_start_app].
Qed.

Lemma fund_call w n c :
  is_fund c = false -> funded_once w -> funded_once (mkWorld (durable w) (working w) (calls w ++ [c]) n).
Proof.
  intros Hc. unfold funded_once. simpl. rewrite funds_snoc, Hc, Nat.add_0_r. done.
Qed.

(** Steps that keep both forms of the invariant. *)
Lemma keeps_call {A} k c (reply : list call -> A) :
  is_fund c = false -> keeps funded_once (call_adapter c reply) /\ keeps (recorded k) (call_adapter c reply).
Proof.
  intros Hc. split; apply triple_call; auto; intros w n H; cbn zeta; [by split; apply fund_call|].
  destruct H as [H ?]. split; (split; [by apply fund_call|done]).
Qed.

Lemma keeps_update k f : keeps funded_once (update_pj f) /\ keeps (recorded k) (update_pj f).
Proof.
  split; intros w Hw; unfold update_pj, get_row, get, bind, ret, lift, set_row;
    destruct (py_dict _) as [pj|e]; exact Hw.
Qed.

Lemma triple_started key' dt :
  triple funded_once (log_started key' dt) (fun _ => recorded (idempotency_key key')) funded_once.
Proof.
  intros w Hw. unfold log_started, get_log, get, bind, ret, set_log.
  destruct (started_recorded K (log (working w)) key' dt) as (Ho & Hs & ev & E); [apply Hw|].
  split; [|exact Hs]. by eapply fund_log.
Qed.

Lemma triple_completed key' dt :
  triple (recorded (idempotency_key key')) (log_completed key' dt) (fun _ => funded_once) funded_once.
Proof.
  intros w [Hw Hs]. unfold log_completed, get_log, get, bind, ret, set_log.
  eapply fund_log; [done| |reflexivity]. apply ordered_snoc; [apply Hw|]. intros [= E]. auto.
Qed.

Lemma keeps_route reason : keeps funded_once (route_to_reconciliation reason).
Proof.
  intros w Hw. unfold route_to_reconciliation, get_row, get, bind, ret.
  destruct (transition_to_awaiting_reconciliation _ _) as [s r] eqn:E.
  assert (session_id s = i).
  { assert (session_id s = session_id (row (working w))) as ->; [|apply Hw].
    revert E. unfold transition_to_awaiting_reconciliation, transition_session.
    case_bool_decide; [by intros [= <- <-]|]. destruct (assert_legal_transition _ _); [case_bool_decide|];
      by intros [= <- <-]. }
  unfold set_row, lift. destruct r; by apply fund_row.
Qed.

Lemma keeps_event s kind dt : keeps funded_once (add_event s kind dt).
Proof.
  intros w Hw. unfold add_event, get_log, get, bind, ret, set_log.
  eapply fund_log; [done| |reflexivity]. apply ordered_snoc; [apply Hw|done].
Qed.

Lemma recorded_weaken {A} k (m : M A) : keeps (recorded k) m -> triple (recorded k) m (fun _ => recorded k) funded_once.
Proof. intros H. eapply triple_weaken; [exact H|done..|]. by intros w [? _]. Qed.

(** The body, part by part. *)
Ltac fund_step := first
  [ exact (keeps_ret _ _) | exact (keeps_lift _ _) | exact (keeps_get_row _) | exact (keeps_get_log _)
  | exact (keeps_get_calls _) | exact (proj1 (keeps_update [] _)) | solve [refine (proj1 (keeps_call [] _ _ _)); reflexivity]
  | exact (keeps_route _) | exact (keeps_event _ _ _) ].

Lemma issue_keeps : keeps funded_once (sub_step_issue_swap d).
Proof.
  unfold sub_step_issue_swap. apply keeps_bind; [fund_step|intros s].
  destruct (sub_has_issued_swap s); [fund_step|]. apply keeps_bind; [fund_step|intros key'].
  apply keeps_bind; [fund_step|intros l]. destruct (has_hop_attempt_completed _ _); [fund_step|].
  destruct (_ <=? _); [fund_step|].
  eapply triple_bind; [apply triple_started|intros ?].
  eapply triple_bind; [apply recorded_weaken, keeps_call; reflexivity|intros r].
  assert (Hret : forall o : HopStepOutcome, triple (recorded (idempotency_key key')) (ret o) (fun _ => funded_once) funded_once).
  { intros o. apply triple_ret. by intros w [? _]. }
  destruct (ok_reply r) as [inv|]; [|apply Hret]. destruct (payment_request inv) as [|c t]; [apply Hret|].
  eapply triple_bind; [apply recorded_weaken, keeps_call; reflexivity|intros r'].
  destruct (ok_reply r') as [swap|]; [|apply Hret].
  eapply triple_bind; [apply recorded_weaken, keeps_update|intros ?].
  eapply triple_bind; [apply triple_completed|intros ?]. apply keeps_ret.
Qed.

Lemma refund_keeps : keeps funded_once (sub_step_refund d).
Proof.
  unfold sub_step_refund. apply keeps_bind; [fund_step|intros s].
  apply keeps_bind; [fund_step|intros key']. apply keeps_bind; [fund_step|intros l].
  destruct (has_hop_attempt_completed _ _); [fund_step|]. apply keeps_bind; [fund_step|intros sid].
  destruct (negb _); [fund_step|].
  eapply triple_bind; [apply triple_started|intros ?].
  eapply triple_bind; [apply recorded_weaken, keeps_call; reflexivity|intros r].
  assert (Hret : forall o : HopStepOutcome, triple (recorded (idempotency_key key')) (ret o) (fun _ => funded_once) funded_once).
  { intros o. apply triple_ret. by intros w [? _]. }
  destruct (ok_reply r) as [[|c t]|]; try apply Hret.
  eapply triple_bind; [apply recorded_weaken, keeps_call; reflexivity|intros b].
  destruct (snd b); [apply Hret|].
  eapply triple_bind.
  { instantiate (1 := fun _ => recorded (idempotency_key key')).
    destruct (_ && _); [|apply triple_ret; done].
    intros w [Hw Hs]. unfold add_event, get_log, get, bind, ret, set_log. split; [|intros E; apply has_start_app; auto].
    eapply fund_log; [done| |reflexivity]. apply ordered_snoc; [apply Hw|done]. }
  intros ?. eapply triple_bind; [apply triple_completed|intros ?]. apply keeps_ret.
Qed.

Lemma settle_keeps : keeps funded_once (sub_step_observe_settlement d).
Proof.
  unfold sub_step_observe_settlement. apply keeps_bind; [fund_step|intros s].
  apply keeps_bind; [fund_step|intros sid]. destruct (negb _); [fund_step|].
  apply keeps_bind; [fund_step|intros r]. destruct (snd r); [fund_step|].
  apply keeps_bind; [fund_step|intros ?]. destruct (mem _ _); [fund_step|].
  destruct (mem _ _); [apply refund_keeps|fund_step].
Qed.

(** The broadcast, entered when no attempt is recorded. *)
Lemma broadcast_keeps now address s :
  triple (fun w => funded_once w /\ funds (calls w) = 0%nat) (sub_broadcast d now key address s)
    (fun _ => funded_once) funded_once.
Proof.
  unfold sub_broadcast.
  eapply triple_bind.
  { instantiate (1 := fun _ w => recorded K w /\ funds (calls w) = 0%nat).
    intros w [Hw H0]. pose proof (triple_started key [(u "step", JStr (u "fund_lockup"))] w Hw) as T.
    unfold log_started, get_log, get, bind, ret, set_log in *. by split. }
  intros ?. eapply triple_bind.
  { instantiate (1 := fun _ w => recorded K w /\ has_start (log (durable w)) K /\ funds (calls w) = 0%nat).
    apply triple_commit; [by intros w [[? _] _]|].
    intros w n [[Hw Hs] H0]. split; [split; [by apply fund_committed|exact Hs]|]. split; [exact (Hs eq_refl)|exact H0]. }
  intros ?. eapply triple_bind.
  { instantiate (1 := fun _ => recorded K). apply triple_call.
    - by intros w [[? _] _].
    - intros w n ([(Hd & Hw & _) Hs] & Hsd & H0). cbn zeta.
      assert (Hf : funded_once (mkWorld (durable w) (working w) (calls w ++ [C_fund address (bin_amount_sat s)]) n)).
      { split; [exact Hd|]. split; [exact Hw|]. right. cbn [calls]. rewrite funds_snoc, H0. auto. }
      split; [exact Hf|]. by split. }
  intros r. destruct (ok_reply r) as [f|].
  2: { apply triple_ret. by intros w [? _]. }
  eapply triple_bind; [apply recorded_weaken, keeps_get_calls|intros made].
  eapply triple_bind; [apply recorded_weaken, keeps_update|intros ?].
  eapply triple_bind; [apply triple_completed|intros ?]. apply keeps_ret.
Qed.

Lemma fund_keeps now : keeps funded_once (sub_step_fund_lockup d now).
Proof.
  unfold sub_step_fund_lockup. eapply triple_bind.
  { instantiate (1 := fun s w => funded_once w /\ session_id s = i). apply triple_get_row. intros w Hw.
    split; [done|apply Hw]. }
  intros s w [Hw Hi]. revert w Hw.
  match goal with |- forall w, funded_once w -> match ?m w with _ => _ end => change (keeps funded_once m) end.
  destruct (or_dict (pipeline_json s)) as [| | | | |pj]; try fund_step. cbn zeta.
  destruct (negb _); [fund_step|]. destruct (truthy _); [fund_step|].
  unfold _key_for. rewrite Hi, Hkey.
  eapply triple_bind.
  { instantiate (1 := fun k w => funded_once w /\ k = key). apply triple_lift; [|done]. intros a w [= <-]. done. }
  intros k w [Hw ->]. revert w Hw.
  match goal with |- forall w, funded_once w -> match ?m w with _ => _ end => change (keeps funded_once m) end.
  eapply triple_bind.
  { instantiate (1 := fun l w => funded_once w /\ l = log (working w)). by apply triple_get_log. }
  intros l. unfold dispatch_hop_attempt, dispatcher_decision.
  destruct (of_kind l (idempotency_key key) k_started) as [e|] eqn:Hst.
  - assert (Hw : forall m : M HopStepOutcome, keeps funded_once m ->
      triple (fun w => funded_once w /\ l = log (working w)) m (fun _ => funded_once) funded_once).
    { intros m Hm. eapply triple_weaken; [exact Hm| |done..]. by intros w [? _]. }
    destruct (of_kind l (idempotency_key key) k_completed); apply Hw; [fund_step|].
    apply keeps_bind; [fund_step|intros ?; fund_step].
  - apply (triple_weaken _ (fun w => funded_once w /\ funds (calls w) = 0%nat) _ funded_once _ _ (fun _ => funded_once)).
    2: { intros w [Hw ->]. split; [done|]. destruct Hw as (_ & _ & [?|(_ & _ & Hs)]); [done|].
         by apply not_started in Hst. }
    2, 3: done.
    eapply triple_bind with (R := fun _ w => funded_once w /\ funds (calls w) = 0%nat).
    { destruct (check_inbound_sufficient d) as [f|]; [|by apply triple_ret].
      apply triple_call; [by intros w [? _]|]. intros w n [Hw H0]. cbn zeta.
      assert (Hc := fund_call w n (C_check_inbound (bin_amount_sat s)) eq_refl Hw).
      split; [done|]. split; [done|]. simpl. by rewrite funds_snoc, H0. }
    intros refusal. destruct (nonempty refusal); [|apply broadcast_keeps].
    apply (triple_weaken _ funded_once _ funded_once _ _ (fun _ => funded_once)); [|by intros w [? _]|done..].
    apply keeps_bind; [fund_step|intros ?]. apply keeps_bind; [fund_step|intros ?; fund_step].
Qed.

Lemma submarine_keeps now : keeps funded_once (execute_submarine_hop_step d now).
Proof.
  unfold execute_submarine_hop_step. apply keeps_bind; [fund_step|intros s].
  case_bool_decide; [apply issue_keeps|]. case_bool_decide; [apply fund_keeps|].
  case_bool_decide; [apply settle_keeps|fund_step].
Qed.
End funding.

(** The others: the id stays, and neither a funding call nor an event under
    the funding key is theirs. *)
Definition others (i : Z) (k : ustr) (s : store) (cs : list call) (s' : store) (cs' : list call) : Prop :=
  session_id (row s') = i /\
  (exists ev, log s' = log s ++ ev /\ forall e, e ∈ ev -> he_key e <> Some k) /\
  exists more, cs' = cs ++ more /\ funds more = 0%nat.

(** C1. However often the process dies inside a tick of the submarine body
    and is restarted, whatever the adapters answer, and whatever the rest of
    the system does to the row in between, at most one funding transaction
    is broadcast: once the broadcast has been called, its started marker is
    durable, and no later tick gets past it. *)
Theorem funding_at_most_once d i key s w :
  key_for_id i "submarine_fund_lockup" 1 = Ok key -> session_id s = i ->
  run (execute_submarine_hop_step d) (others i (idempotency_key key))
    (mkWorld (mkStore s []) (mkStore s []) [] 0) w ->
  (funds (calls w) <= 1)%nat /\
  (funds (calls w) = 1%nat -> has_start (log (durable w)) (idempotency_key key)).
Proof.
  intros Hkey Hi R.
  assert (H : funded_once i key w).
  { refine (run_invariant _ _ (funded_once i key) _ _ _ _ R _).
    - intros w0 now n Hw. apply hop_tick_invariant; [by apply submarine_keeps| | | |done].
      + intros; by apply fund_life.
      + intros; by apply fund_rollback.
      + intros; by apply fund_committed.
    - intros w0 s' cs ((Hd & Ho) & _ & Hf) (Hs & (ev & Hlog & Hev) & more & -> & Hm).
      assert (Hord : ordered (idempotency_key key) (log s')).
      { rewrite Hlog. apply ordered_app; [done|]. intros e He Hk. by destruct (Hev e He). }
      split; [by split|]. split; [by split|]. cbn [calls durable working].
      unfold funds in *. rewrite List.filter_app, length_app, Hm, Nat.add_0_r.
      destruct Hf as [?|(? & Hs' & _)]; [by left|right]. rewrite Hlog. split; [done|]. split; by apply has_start_app.
    - assert (Hnil : ordered (idempotency_key key) []) by (intros e He; by apply elem_of_nil in He).
      split; [by split|]. split; [by split|]. by left. }
  destruct H as (_ & _ & [H0|(H1 & Hs & _)]); split; try lia. done.
Qed.

(** ** At most one invoice paid *)

Definition is_send (c : call) : bool := match c with C_send_self _ => true | _ => false end.

Definition k_invoice : ustr := u "self_pay_invoice".
Definition k_hash : ustr := u "self_pay_payment_hash_hex".

(** The invoice and a payment hash are in the row's pipeline. *)
Definition minted (p : ustr) (s : AnonymizeSession) : Prop :=
  exists pj h, or_dict (pipeline_json s) = JDict pj /\ dget pj k_invoice = JStr p /\
    dget pj k_hash = JStr h /\ p <> [] /\ h <> [].

Definition only_sent (p : ustr) (cs : list call) : Prop := forall q, C_send_self q ∈ cs -> q = p.

Definition ready (p : ustr) (w : world) : Prop :=
  minted p (row (durable w)) /\ minted p (row (working w)) /\ only_sent p (calls w).

Definition unsent (w : world) : Prop := forall q, C_send_self q ∉ calls w.

Definition paid_one (w : world) : Prop := unsent w \/ exists p, ready p w.

Lemma minted_agree p q s : minted p s -> minted q s -> p = q.
Proof. intros (pj & h & E & Hp & _) (pj' & h' & E' & Hq & _). rewrite E in E'. injection E' as <-. congruence. Qed.

(** Writes under other keys leave the invoice and the hash alone. *)
Definition other_keys (f : list (ustr * json) -> list (ustr * json)) : Prop :=
  forall pj, dget (f pj) k_invoice = dget pj k_invoice /\ dget (f pj) k_hash = dget pj k_hash.

Lemma minted_update p s f :
  other_keys f -> minted p s ->
  forall pj, or_dict (pipeline_json s) = JDict pj -> minted p (set_pipeline_json s (JDict (f pj))).
Proof.
  intros Hf (pj & h & E & Hp & Hh & ?) pj' E'. rewrite E in E'. injection E' as <-.
  exists (f pj), h. simpl. rewrite or_dict_nonempty. destruct (Hf pj) as [-> ->]. done.
Qed.

Lemma only_sent_snoc p cs c : only_sent p cs -> (is_send c = true -> c = C_send_self p) -> only_sent p (cs ++ [c]).
Proof.
  intros H Hc q Hq. apply elem_of_app in Hq as [Hq|Hq]; [auto|]. apply list_elem_of_singleton in Hq.
  subst c. specialize (Hc eq_refl). congruence.
Qed.

Lemma unsent_snoc w c n : is_send c = false -> unsent w -> unsent (mkWorld (durable w) (working w) (calls w ++ [c]) n).
Proof.
  intros Hc H q Hq. simpl in Hq. apply elem_of_app in Hq as [Hq|Hq]; [by destruct (H q)|].
  apply list_elem_of_singleton in Hq. by subst c.
Qed.

Lemma pipeline_flush now s s' : pipeline_json (flush now s s') = pipeline_json s'.
Proof. by destruct (flush_cases now s s') as [->| ->]. Qed.

Lemma minted_json p s s' : pipeline_json s' = pipeline_json s -> minted p s -> minted p s'.
Proof. intros E. unfold minted. by rewrite E. Qed.

Lemma ready_committed now w n p : minted p (row (working w)) -> only_sent p (calls w) -> ready p (committed now w n).
Proof.
  intros Hm Hs. split; [|split; [|done]]; simpl; (eapply minted_json; [|exact Hm]); apply pipeline_flush.
Qed.

Lemma keeps_update_ready p f : other_keys f -> keeps (ready p) (update_pj f).
Proof.
  intros Hf. apply triple_update; [done|]. intros w pj (Hd & Hw & Hs) E. split; [done|]. split; [|done].
  by eapply minted_update.
Qed.

Section self_pay.
Context (d : LnSelfPayHopDeps).

Lemma settled_keys made : other_keys (fun pj =>
  let pj := dset pj (u "self_pay_status") (JStr (u "settled")) in
  match assoc (u "self_pay_fired_at_ts") pj with
  | Some _ => pj
  | None => dset pj (u "self_pay_fired_at_ts") (JStr (self_clock_iso d made))
  end).
Proof. intros pj. cbn zeta. destruct (assoc _ _); by rewrite !dget_dset_ne by done. Qed.

(** Marking and logging keep [ready] and [unsent]. *)
Lemma keeps_mark_ready p : keeps (ready p) (_mark_settled d).
Proof.
  unfold _mark_settled. apply keeps_bind; [exact (keeps_get_calls _)|intros made].
  apply keeps_update_ready, settled_keys.
Qed.

Lemma keeps_mark_unsent : keeps unsent (_mark_settled d).
Proof.
  unfold _mark_settled. apply keeps_bind; [exact (keeps_get_calls _)|intros made]. by apply triple_update.
Qed.

Lemma keeps_mark : keeps paid_one (_mark_settled d).
Proof.
  intros w [H|[p H]].
  - pose proof (keeps_mark_unsent w H) as K. destruct (_mark_settled d w) as [w' [a|e|]]; by left.
  - pose proof (keeps_mark_ready p w H) as K. destruct (_mark_settled d w) as [w' [a|e|]]; right; by exists p.
Qed.

(** The log is no part of the invariants. *)
Definition log_free (P : world -> Prop) : Prop := forall w l,
  P w -> P (mkWorld (durable w) (mkStore (row (working w)) l) (calls w) (life w)).

Lemma keeps_log P key dt : log_free P -> keeps P (log_started key dt) /\ keeps P (log_completed key dt).
Proof. intros HP. split; intros w Hw; unfold log_started, log_completed, get_log, get, bind, ret, set_log; by apply HP. Qed.

Lemma log_free_ready p : log_free (ready p).
Proof. intros w l H. exact H. Qed.

Lemma log_free_paid : log_free paid_one.
Proof. intros w l H. exact H. Qed.

Lemma keeps_call_ready {A} p c (reply : list call -> A) :
  (is_send c = true -> c = C_send_self p) -> keeps (ready p) (call_adapter c reply).
Proof.
  intros Hc. apply triple_call; [done|]. intros w n (Hd & Hw & Hs). cbn zeta.
  assert (ready p (mkWorld (durable w) (working w) (calls w ++ [c]) n)) by (split; [|split; [|apply only_sent_snoc]]; done).
  done.
Qed.

Lemma send_keeps key p : keeps (ready p) (self_pay_send d key p).
Proof.
  unfold self_pay_send. apply keeps_bind; [by apply keeps_call_ready|intros rt].
  destruct (ok_reply rt) as [mode|]; [|exact (keeps_ret _ _)].
  apply keeps_bind.
  { apply keeps_update_ready. intros pj. destruct mode; by rewrite !dget_dset_ne by done. }
  intros ?. apply keeps_bind; [exact (proj1 (keeps_log _ _ _ (log_free_ready p)))|intros ?].
  apply keeps_bind; [by apply keeps_call_ready|intros r].
  destruct (ok_reply r); [|exact (keeps_ret _ _)].
  apply keeps_bind; [apply keeps_mark_ready|intros ?].
  apply keeps_bind; [exact (proj2 (keeps_log _ _ _ (log_free_ready p)))|intros ?]. exact (keeps_ret _ _).
Qed.
Lemma send_paid key p : triple (ready p) (self_pay_send d key p) (fun _ => paid_one) paid_one.
Proof.
  apply (triple_weaken _ (ready p) _ (ready p) _ _ (fun _ => ready p));
    [apply send_keeps|done|intros _ w H; right; by exists p|intros w H; right; by exists p].
Qed.

Lemma new_invoice_keeps now key amount :
  triple unsent (self_pay_new_invoice d now key amount) (fun _ => paid_one) paid_one.
Proof.
  unfold self_pay_new_invoice.
  assert (Hret : forall o : HopStepOutcome, triple unsent (ret o) (fun _ => paid_one) paid_one).
  { intros o. apply triple_ret. intros w H. by left. }
  eapply triple_bind with (R := fun _ => unsent).
  { apply triple_call; [by left|]. intros w n Hw. cbn zeta.
    pose proof (unsent_snoc w (C_add_invoice amount) n eq_refl Hw). split; [by left|done]. }
  intros r. destruct (ok_reply r) as [inv|]; [|apply Hret].
  destruct (payment_request inv) as [|c t] eqn:Ep; [apply Hret|].
  destruct (r_hash inv) as [|c' t'] eqn:Eh; [apply Hret|].
  eapply triple_bind with (R := fun _ w => unsent w /\ minted (c :: t) (row (working w))).
  { apply triple_update; [by left|]. intros w pj' Hw E. cbn zeta. split; [done|].
    eexists _, (c' :: t'). simpl. rewrite or_dict_nonempty. split; [reflexivity|].
    rewrite dget_dset_ne by done. rewrite !dget_dset. done. }
  intros ?. eapply triple_bind with (R := fun _ => ready (c :: t)); [|intros ?; apply send_paid].
  apply triple_commit; [by intros w [? _]; left|]. intros w n [Hw Hm]. apply ready_committed; [done|].
  intros q Hq. by destruct (Hw q).
Qed.

(** The start of a tick: both copies agree, and [s] is the row. *)
Definition fresh_read (s : AnonymizeSession) (w : world) : Prop :=
  paid_one w /\ working w = durable w /\ row (working w) = s.

Lemma recorded_ready s pj invoice hash w :
  or_dict (pipeline_json s) = JDict pj -> invoice = text_of (dget pj k_invoice) ->
  hash = text_of (dget pj k_hash) -> invoice <> [] -> hash <> [] -> fresh_read s w -> ready invoice w.
Proof.
  intros Hpj Hi Hh Hin Hha (Hw & Hwd & Hs).
  assert (Hm : minted invoice s).
  { exists pj, hash. split; [done|]. subst invoice hash. destruct (dget pj k_invoice), (dget pj k_hash); done. }
  rewrite <- Hs in Hm. split; [by rewrite <- Hwd|]. split; [done|].
  destruct Hw as [Hu|(p & _ & Hmp & Hsent)]; [by intros q Hq; destruct (Hu q)|].
  by rewrite (minted_agree _ _ _ Hm Hmp).
Qed.

Lemma missing_unsent s pj invoice hash w :
  or_dict (pipeline_json s) = JDict pj -> invoice = text_of (dget pj k_invoice) ->
  hash = text_of (dget pj k_hash) -> invoice = [] \/ hash = [] -> fresh_read s w -> unsent w.
Proof.
  intros Hpj Hi Hh Hnil (Hw & Hwd & Hs).
  destruct Hw as [Hu|(p & _ & (pj' & h & E & Hp & Hhh & Hne & Hneh) & _)]; [done|].
  rewrite Hs, Hpj in E. injection E as <-. rewrite Hp in Hi. rewrite Hhh in Hh. simpl in Hi, Hh.
  destruct Hnil; congruence.
Qed.

Lemma mint_keeps now key amount s invoice hash pj :
  or_dict (pipeline_json s) = JDict pj ->
  invoice = text_of (dget pj k_invoice) -> hash = text_of (dget pj k_hash) ->
  triple (fresh_read s) (self_pay_mint d now key amount invoice hash) (fun _ => paid_one) paid_one.
Proof.
  intros Hpj Hi Hh. unfold self_pay_mint.
  destruct invoice as [|ci ti]; [|destruct hash as [|ch th]].
  - apply (triple_weaken _ unsent _ paid_one _ _ (fun _ => paid_one)); [apply new_invoice_keeps| |done..].
    intros w. apply (missing_unsent _ pj _ _ w Hpj Hi Hh); auto.
  - apply (triple_weaken _ unsent _ paid_one _ _ (fun _ => paid_one)); [apply new_invoice_keeps| |done..].
    intros w. apply (missing_unsent _ pj _ _ w Hpj Hi Hh); auto.
  - apply (triple_weaken _ (ready (ci :: ti)) _ paid_one _ _ (fun _ => paid_one)); [apply send_paid| |done..].
    intros w. by apply (recorded_ready _ pj _ _ w Hpj Hi Hh).
Qed.

Lemma fire_keeps now :
  triple (fun w => paid_one w /\ working w = durable w) (_step_fire_self_pay d now) (fun _ => paid_one) paid_one.
Proof.
  unfold _step_fire_self_pay. eapply triple_bind with (R := fresh_read).
  { apply triple_get_row. intros w [? ?]. by split. }
  intros s.
  assert (Hout : forall m : M HopStepOutcome, keeps paid_one m -> triple (fresh_read s) m (fun _ => paid_one) paid_one).
  { intros m Hm. eapply triple_weaken; [exact Hm| |done..]. by intros w [? _]. }
  destruct (or_dict (pipeline_json s)) as [| | | | |pj] eqn:Hpj; try exact (Hout _ (keeps_ret _ _)).
  destruct (is_jstr _ _); [exact (Hout _ (keeps_ret _ _))|].
  destruct (_ <=? _); [exact (Hout _ (keeps_ret _ _))|].
  eapply triple_bind with (R := fun _ => fresh_read s).
  { apply triple_lift; [done|]. by intros w [? _]. }
  intros key. eapply triple_bind with (R := fun _ => fresh_read s); [by apply triple_get_log|intros l].
  destruct (has_hop_attempt_completed _ _).
  { apply Hout. apply keeps_bind; [apply keeps_mark|intros ?; exact (keeps_ret _ _)]. }
  cbn zeta. eapply triple_bind with (R := fun _ => fresh_read s).
  { destruct (text_of _); [by apply triple_ret|].
    eapply triple_bind with (R := fun _ => fresh_read s); [|intros r; by apply triple_ret].
    apply triple_call; [by intros w [? _]|]. intros w n (Hw & Hwd & Hs). cbn zeta.
    match goal with |- context [C_lookup_invoice ?h] =>
      assert (Hp : paid_one (mkWorld (durable w) (working w) (calls w ++ [C_lookup_invoice h]) n)) end.
    { destruct Hw as [Hu|(p & Hd & Hwk & Hsent)]; [left; by apply unsent_snoc|right].
      exists p. split; [done|]. split; [done|]. by apply only_sent_snoc. }
    split; [done|]. by split. }
  intros [].
  - apply Hout. apply keeps_bind; [apply keeps_mark|intros ?].
    apply keeps_bind; [exact (proj2 (keeps_log _ _ _ log_free_paid))|intros ?; exact (keeps_ret _ _)].
  - by apply (mint_keeps _ _ _ _ _ _ pj).
Qed.
End self_pay.

(** The others keep the pipeline and make no self-payment. *)
Definition payers (s : store) (cs : list call) (s' : store) (cs' : list call) : Prop :=
  pipeline_json (row s') = pipeline_json (row s) /\ exists more, cs' = cs ++ more /\ forallb (fun c => negb (is_send c)) more = true.

(** C2. The self-pay body never pays two different invoices, however often
    the process dies inside a tick and whatever the adapters answer: an
    invoice is paid only after it is durable in the row, and every later
    tick pays that one again, which the node deduplicates by its hash. *)
Theorem self_pay_one_invoice d s w p q :
  run (execute_ln_self_pay_hop_step d) payers (mkWorld (mkStore s []) (mkStore s []) [] 0) w ->
  C_send_self p ∈ calls w -> C_send_self q ∈ calls w -> p = q.
Proof.
  intros R Hp Hq.
  assert (H : paid_one w).
  { refine (run_invariant _ _ paid_one _ _ _ _ R _).
    - intros w0 now n Hw. unfold hop_tick.
      assert (H0 : paid_one (with_life w0 n)).
      { destruct Hw as [?|(r & ? & ? & ?)]; [by left|right]. exists r. by split. }
      assert (T : triple (fun w => paid_one w /\ working w = durable w)
        (do* execute_ln_self_pay_hop_step d now in commit now) (fun _ => paid_one) paid_one).
      { eapply triple_bind with (R := fun _ => paid_one).
        - unfold execute_ln_self_pay_hop_step.
          eapply triple_bind with (R := fun _ w => paid_one w /\ working w = durable w); [by apply triple_get_row|].
          intros r. case_bool_decide; [apply fire_keeps|]. case_bool_decide; apply triple_ret; by intros ? [? _].
        - intros ?. apply triple_commit; [done|]. intros w1 m [?|(r & Hd & Hw1 & Hs)]; [by left|right].
          exists r. by apply ready_committed. }
      specialize (T (with_life w0 n)). destruct (bind _ _ _) as [w' [a|e|]]; [by apply T|..].
      all: assert (paid_one w') as [?|(r & ? & ? & ?)] by (by apply T); [by left|right; exists r; by split].
    - intros w0 s' cs Hw (Hpj & more & -> & Hm).
      assert (Hno : forall r, C_send_self r ∉ more).
      { intros r Hr. rewrite forallb_forall in Hm. apply list_elem_of_In in Hr. by specialize (Hm _ Hr). }
      destruct Hw as [Hu|(r & Hd & _ & Hs)]; [left|right; exists r].
      + intros r Hr. apply elem_of_app in Hr as [Hr|Hr]; [by destruct (Hu r)|by destruct (Hno r)].
      + split; [by eapply minted_json|]. split; [by eapply minted_json|].
        intros r' Hr. apply elem_of_app in Hr as [Hr|Hr]; [auto|by destruct (Hno r')].
    - left. intros r Hr. by apply elem_of_nil in Hr. }
  destruct H as [Hu|(r & _ & _ & Hs)]; [by destruct (Hu p)|]. by rewrite (Hs p), (Hs q).
Qed.

(** ** The BOLT 12 exit *)

(** An exiting session whose pipeline names an offer and records no payment
    that was made or is in flight. *)
Definition pays_offer (s : AnonymizeSession) (offer : ustr) : Prop :=
  status s = value EXITING /\ 0 < bin_amount_sat s /\ offer <> [] /\
  exists pj ex out,
    or_dict (pipeline_json s) = JDict pj /\ or_dict (dget pj (u "exit")) = JDict ex /\
    offer_text (dget ex (u "bolt12_offer")) = Ok offer /\
    or_dict (dget pj (u "bolt12_pay_outcome")) = JDict out /\
    is_jstr (dget out (u "status")) (u "paid") = false /\ is_jstr (dget out (u "status")) (u "in_flight") = false.

Definition fresh (s : AnonymizeSession) (cs : list call) : world := mkWorld (mkStore s []) (mkStore s []) cs 0.

(** A tick of the body whose process dies on the reply of the payment. *)
Lemma b12_dies d s offer key now cs :
  pays_offer s offer -> key_for_id (session_id s) "bolt12_pay" 1 = Ok key ->
  hop_tick (execute_bolt12_pay_hop_step d) now 1 (fresh s cs) =
    fresh s (cs ++ [C_pay_offer offer (bin_amount_sat s * 1000)]).
Proof.
  intros (Hs & Hamt & Hne & pj & ex & out & Hpj & Hex & Hof & Hout & H1 & H2) Hkey.
  unfold hop_tick. unfold execute_bolt12_pay_hop_step at 1. unfold bind at 1. rewrite bind_get_row.
  cbn [with_life fresh working durable row]. rewrite bool_decide_eq_true_2 by done.
  unfold b12_step_exiting. rewrite bind_get_row. cbn [with_life fresh working durable row]. cbn zeta.
  rewrite Hpj. unfold py_get.
  rewrite bind_lift_Ok. fold (dget pj (u "exit")). rewrite Hex, bind_lift_Ok.
  fold (dget ex (u "bolt12_offer")). rewrite Hof, bind_lift_Ok. destruct offer as [|c t]; [done|].
  rewrite bind_lift_Ok. fold (dget pj (u "bolt12_pay_outcome")). rewrite Hout, bind_lift_Ok.
  fold (dget out (u "status")). rewrite H1, H2.
  unfold b12_pay. rewrite bind_get_row. cbn [with_life fresh working durable row].
  destruct (Z.leb_spec (bin_amount_sat s) 0); [lia|].
  unfold _key_for. rewrite Hkey, bind_lift_Ok, bind_get_log. reflexivity.
Qed.

(** The BOLT 12 exit makes nothing durable before it pays: a process
    that dies on the reply of the payment leaves the row and the log as they
    were, and the next tick requests and pays another invoice of the same
    offer. *)
Theorem bolt12_may_pay_twice d s offer key now now' :
  pays_offer s offer -> key_for_id (session_id s) "bolt12_pay" 1 = Ok key ->
  let tick t := hop_tick (execute_bolt12_pay_hop_step d) t 1 in
  let paid := C_pay_offer offer (bin_amount_sat s * 1000) in
  durable (tick now (fresh s [])) = mkStore s [] /\
  calls (tick now' (tick now (fresh s []))) = [paid; paid].
Proof.
  intros Hs Hkey. cbv beta zeta. rewrite (b12_dies d s offer key now []) by done.
  split; [done|]. by rewrite (b12_dies d s offer key now').
Qed.

(** ** Concrete runs *)

Definition demo_session (st : AnonymizeStatus) (source : AnonymizeSourceKind) (pj : json) : AnonymizeSession :=
  mkSession 0x123e4567e89b12d3a456426614174000 (Some 0) (Some 0) (value st) (source_value source) 50000 pj 10
    None 0 0 None None None 0 None None None None None None None.

Definition demo_submarine : SubmarineHopDeps :=
  mkSubmarine (fun _ => (None, None)) (fun _ => (None, None)) (fun _ => (None, None))
    (fun _ => (Some (mkFunding (u "0200") (Some (u "ab"))), None)) (fun _ => (None, None)) (fun _ => (None, None))
    None false (fun _ => u "2026-01-01T00:00:00+00:00").

Definition demo_funding : AnonymizeSession :=
  demo_session FUNDING ONCHAIN_SELF (JDict [(u "submarine_lockup_address", JStr (u "bc1q"))]).

(** The process dies on the reply of the broadcast; the next tick parks the
    session, and the one after does nothing. *)
Definition demo_fund_run : world :=
  let t := hop_tick (execute_submarine_hop_step demo_submarine) in
  t 2 9%nat (t 1 9%nat (t 0 2%nat (fresh demo_funding []))).

Lemma demo_fund_is_run k : run (execute_submarine_hop_step demo_submarine) (others (session_id demo_funding) k)
  (fresh demo_funding []) demo_fund_run.
Proof.
  unfold demo_fund_run. cbv zeta.
  apply (run_tick _ _ _ 0 2%nat), (run_tick _ _ _ 1 9%nat), (run_tick _ _ _ 2 9%nat). exact (run_refl _ _ _).
Qed.

Lemma funding_at_most_once_witness :
  funds (calls demo_fund_run) = 1%nat /\
  status (row (durable demo_fund_run)) = value AWAITING_RECONCILIATION /\
  match key_for_id (session_id demo_funding) "submarine_fund_lockup" 1 with
  | Ok key => has_start (log (durable demo_fund_run)) (idempotency_key key)
  | Err _ => False
  end.
Proof.
  split; [vm_compute; reflexivity|]. split; [vm_compute; reflexivity|].
  destruct (key_for_id (session_id demo_funding) "submarine_fund_lockup" 1) as [key|e] eqn:Hk.
  - apply (proj2 (funding_at_most_once demo_submarine _ key demo_funding _ Hk eq_refl (demo_fund_is_run _))).
    vm_compute. reflexivity.
  - vm_compute in Hk. discriminate Hk.
Defined.

Definition demo_self_pay : LnSelfPayHopDeps :=
  mkSelfPay (fun cs => (Some (mkInv (u "lnbc" ++ [48 + Z.of_nat (length cs)]) (u "aa")), None))
    (fun _ => (Some tt, None)) (fun _ => (Some false, None)) (fun _ => (Some (pinned 1), None))
    (fun _ => u "2026-01-01T00:00:00+00:00").

(** Minted, routed and sent, and dead on the reply; then sent again. *)
Definition demo_pay_run : world :=
  let t := hop_tick (execute_ln_self_pay_hop_step demo_self_pay) in
  t 1 9%nat (t 0 6%nat (fresh (demo_session FUNDING LIGHTNING_SELF (JDict [])) [])).

Lemma self_pay_one_invoice_witness :
  List.filter is_send (calls demo_pay_run) = [C_send_self (u "lnbc0"); C_send_self (u "lnbc0")] /\
  forall p, p = u "lnbc0" \/ ~ C_send_self p ∈ calls demo_pay_run.
Proof.
  split; [vm_compute; reflexivity|]. intros p.
  destruct (decide (p = u "lnbc0")) as [|Hne]; [by left|right]. intros Hp. apply Hne.
  apply (self_pay_one_invoice demo_self_pay (demo_session FUNDING LIGHTNING_SELF (JDict [])) demo_pay_run p (u "lnbc0")).
  - unfold demo_pay_run. cbv zeta. apply (run_tick _ _ _ 0 6%nat), (run_tick _ _ _ 1 9%nat). exact (run_refl _ _ _).
  - exact Hp.
  - apply list_elem_of_In. vm_compute. tauto.
Defined.

Definition demo_exit : AnonymizeSession :=
  demo_session EXITING EXT_LIGHTNING
    (JDict [(u "exit", JDict [(u "kind", JStr (u "bolt12_pay")); (u "bolt12_offer", JStr (u "lno1abc"))])]).

Lemma bolt12_may_pay_twice_witness :
  let tick t := hop_tick (execute_bolt12_pay_hop_step (mkB12 (fun _ => (None, None)))) t 1 in
  calls (tick 5 (tick 0 (fresh demo_exit []))) =
    [C_pay_offer (u "lno1abc") 50000000; C_pay_offer (u "lno1abc") 50000000].
Proof.
  destruct (key_for_id (session_id demo_exit) "bolt12_pay" 1) as [key|e] eqn:Hk; [|vm_compute in Hk; discriminate Hk].
  apply (bolt12_may_pay_twice (mkB12 (fun _ => (None, None))) demo_exit (u "lno1abc") key 0 5); [|exact Hk].
  repeat split; try done. eexists _, _, []. repeat split; reflexivity.
Defined.
