(* ===== verification/ReverseSafety.v ===== *)
(** * What the reverse exit pays and where its claim goes

    Over runs of the reverse body in which the process dies anywhere: all its
    payments pay one invoice with a number of parts the fallback allows, and
    a claim it stores or broadcasts pays the session's destination. With the
    adapter the dispatcher binds, which hands over a transaction id in place
    of the transaction, no claim is ever stored. *)
From S2P Require Import Prelude Bytes PyInt PyFloat Utf8 Json PyJson TxPolicy ScriptPubKey AnonState HopLog AnonHops.
From S2P Require Import AnonReverse HopLogic HopSafety.

(** ** Invariants on the rows and the calls *)

(** The columns the body's own data lives in. *)
Definition exit_columns (s : AnonymizeSession) :=
  (pipeline_json s, bin_amount_sat s, claim_tx_hex s, claim_broadcast_at_ts s).

Definition inv (R : AnonymizeSession -> Prop) (G : call -> Prop) (w : world) : Prop :=
  R (row (durable w)) /\ R (row (working w)) /\ Forall G (calls w).

(** [f] may be applied to the pipeline. *)
Definition admits (R : AnonymizeSession -> Prop) (f : list (ustr * json) -> list (ustr * json)) : Prop :=
  forall s pj, R s -> or_dict (pipeline_json s) = JDict pj -> R (set_pipeline_json s (JDict (f pj))).

Section inv.
Context (R : AnonymizeSession -> Prop) (G : call -> Prop).
Context (HR : forall s s', exit_columns s' = exit_columns s -> R s -> R s').

Lemma flush_columns now s s' : exit_columns (flush now s s') = exit_columns s'.
Proof. by destruct (flush_cases now s s') as [->| ->]. Qed.

Lemma inv_committed now w n : inv R G w -> inv R G (committed now w n).
Proof.
  intros (_ & Hw & Hc). assert (R (flush now (row (durable w)) (row (working w)))) by (by eapply HR; [apply flush_columns|]).
  by split.
Qed.

Lemma inv_call {A} c (reply : list call -> A) : G c -> keeps (inv R G) (call_adapter c reply).
Proof.
  intros Hc. apply triple_call; [done|]. intros w n (Hd & Hw & Hcs). cbv zeta.
  assert (inv R G (mkWorld (durable w) (working w) (calls w ++ [c]) n)); [|done].
  split; [done|]. split; [done|]. cbn [calls]. apply Forall_app. by repeat constructor.
Qed.

Lemma inv_update f : admits R f -> keeps (inv R G) (update_pj f).
Proof. intros Hf. apply triple_update; [done|]. intros w pj (Hd & Hw & Hc) Hpj. by split; [|split; [apply Hf|]]. Qed.

Lemma inv_set_row r : R r -> keeps (inv R G) (set_row r).
Proof. intros Hr. apply triple_set_row. intros w (Hd & _ & Hc). by split. Qed.

Lemma inv_persist cfg now tx : (forall s, R s -> R (with_claim cfg now tx s)) -> keeps (inv R G) (rev_persist cfg now tx).
Proof. intros Hp w (Hd & Hw & Hc). unfold rev_persist. rewrite bind_get_row. by split; [|split; [apply Hp|]]. Qed.

Lemma inv_log key dt : keeps (inv R G) (log_started key dt) /\ keeps (inv R G) (log_completed key dt).
Proof. by split; intros w Hw. Qed.

Lemma inv_event s kind dt : keeps (inv R G) (add_event s kind dt).
Proof. by intros w Hw. Qed.

Lemma inv_route reason : keeps (inv R G) (route_to_reconciliation reason).
Proof.
  intros w (Hd & Hw & Hc). unfold route_to_reconciliation. rewrite bind_get_row.
  destruct (transition_to_awaiting_reconciliation _ _) as [s r] eqn:E.
  assert (R s).
  { eapply HR; [|exact Hw]. revert E. unfold transition_to_awaiting_reconciliation, transition_session.
    case_bool_decide; [by intros [= <- <-]|]. destruct (assert_legal_transition _ _); [case_bool_decide|];
      by intros [= <- <-]. }
  unfold set_row, bind, lift. by destruct r.
Qed.
End inv.

(** Walk through a body; what is left are the calls and updates that need an
    argument. *)
Ltac inv_body := repeat (cbn zeta; match goal with
  | |- keeps _ (ret _) => exact (keeps_ret _ _)
  | |- keeps _ (lift _) => exact (keeps_lift _ _)
  | |- keeps _ get_row => exact (keeps_get_row _)
  | |- keeps _ get_log => exact (keeps_get_log _)
  | |- keeps _ (update_pj _) => apply inv_update
  | |- keeps _ (call_adapter _ _) => apply inv_call; try done
  | |- keeps _ (rev_persist _ _ _) => apply inv_persist
  | |- keeps _ (log_started _ _) => exact (proj1 (inv_log _ _ _ _))
  | |- keeps _ (log_completed _ _) => exact (proj2 (inv_log _ _ _ _))
  | |- keeps _ (add_event _ _ _) => exact (inv_event _ _ _ _ _)
  | |- keeps _ (route_to_reconciliation _) => apply inv_route; assumption
  | |- keeps _ (bind _ _) => apply keeps_bind; [|intros ?]
  | |- keeps _ (match ?x with _ => _ end) => destruct x
  end).

(** From the tick to the run. What the others may do: not touch the pipeline
    and the amount, erase the claim or broadcast the stored one again. *)
Definition others (s : store) (cs : list call) (s' : store) (cs' : list call) : Prop :=
  pipeline_json (row s') = pipeline_json (row s) /\ bin_amount_sat (row s') = bin_amount_sat (row s) /\
  (claim_tx_hex (row s') = claim_tx_hex (row s) \/ claim_tx_hex (row s') = None) /\
  claim_broadcast_at_ts (row s') = claim_broadcast_at_ts (row s) /\
  exists more, cs' = cs ++ more /\
    Forall (fun c => match c with
                     | C_pay_reverse _ _ => False
                     | C_broadcast_claim tx => claim_tx_hex (row s) = Some tx
                     | _ => True
                     end) more.

Lemma reverse_run cfg d (I : world -> Prop) :
  (forall w n, I w -> I (with_life w n)) -> (forall w, I w -> I (rollback w)) ->
  (forall now w n, I w -> I (committed now w n)) ->
  (forall now, triple (fun w => I w /\ working w = durable w) (execute_reverse_hop_step cfg d now) (fun _ => I) I) ->
  (forall w s cs, I w -> others (durable w) (calls w) s cs -> I (mkWorld s s cs 0)) ->
  forall w w', run (execute_reverse_hop_step cfg d) others w w' -> I w -> I w'.
Proof.
  intros Hl Hr Hc Ht Ho w w' Hrun Hw. refine (run_invariant _ _ I _ Ho _ _ Hrun Hw). clear w w' Hrun Hw.
  intros w now n Hw. unfold hop_tick.
  assert (T : triple (fun w => I w /\ working w = durable w) (do* execute_reverse_hop_step cfg d now in commit now) (fun _ => I) I).
  { eapply triple_bind; [apply Ht|]. intros ?. by apply triple_commit; [|intros; apply Hc]. }
  specialize (T (with_life w n)). destruct (bind _ _ _) as [w' [a|e|]]; auto.
Qed.

(** ** Payments *)

Definition k_id : ustr := u "reverse_swap_id".
Definition k_inv : ustr := u "reverse_swap_invoice".
Definition k_dec : ustr := u "reverse_payment_chunks_k_decrements_used".
Definition k_last : ustr := u "reverse_payment_chunks_k_last_attempted".

(** Parts a payment may be split into when [r] were requested. *)
Definition allowed (cfg : rev_settings) (r k : Z) : Prop :=
  k = r \/ k_floor cfg <= k < r /\
    (mpp_fallback_mode cfg = "legacy"%string \/ mpp_fallback_mode cfg = "strict"%string /\ k = r - 1).

Section payments.
Context (cfg : rev_settings) (d : ReverseHopDeps) (r : Z).

(** The counters of the fallback after [n] decrements. *)
Definition counters (pj : list (ustr * json)) (n : Z) : Prop :=
  0 <= n /\ int_of_json (default (JInt 0) (assoc k_dec pj)) = Ok n /\
  int_of_json (default (JInt r) (assoc k_last pj)) = Ok (r - n) /\ allowed cfg r (r - n).

Definition pay_row (p : option json) (s : AnonymizeSession) : Prop :=
  exists pj n, or_dict (pipeline_json s) = JDict pj /\ resolve_mpp_k (JDict pj) = r /\ counters pj n /\
    match p with Some i => truthy (dget pj k_id) = true /\ dget pj k_inv = i | None => True end.

Definition pay_call (p : option json) (c : call) : Prop :=
  match c with C_pay_reverse i k => p = Some i /\ allowed cfg r k | _ => True end.

Abbreviation paying p := (inv (pay_row p) (pay_call p)).

Lemma pay_row_columns p s s' : exit_columns s' = exit_columns s -> pay_row p s -> pay_row p s'.
Proof. unfold exit_columns, pay_row. intros [= -> _ _ _]. done. Qed.

(** Updates of other members. *)
Lemma resolve_assoc pj pj' :
  assoc (u "reverse_payment_chunks_k_requested") pj' = assoc (u "reverse_payment_chunks_k_requested") pj ->
  resolve_mpp_k (JDict pj') = resolve_mpp_k (JDict pj).
Proof. intros E. unfold resolve_mpp_k. by rewrite E. Qed.

Lemma issue_pays : keeps (paying None) (_issue_reverse_swap cfg d).
Proof.
  unfold _issue_reverse_swap, _check_exit_relay_diversity, rev_create. inv_body.
  intros s pj (pj0 & n & E & Hr & (H0 & Hd & Hl & Ha) & _) Hpj. rewrite E in Hpj. injection Hpj as ->.
  eexists _, n. split; [apply dset_truthy|]. split; [rewrite <- Hr; apply resolve_assoc; by rewrite !assoc_dset_ne by done|].
  split; [|done]. split; [done|]. by rewrite !assoc_dset_ne by done.
Qed.

Lemma fall_back_pays p n :
  0 <= n -> allowed cfg r (r - n) -> keeps (paying p) (rev_fall_back cfg r (r - n) n).
Proof.
  intros H0 Ha. pose proof (pay_row_columns p) as HR. unfold rev_fall_back.
  destruct (can_decrement cfg (r - n) n) eqn:Hc; [|inv_body]. inv_body.
  intros s pj (pj0 & n' & E & Hr & _ & Hp) Hpj. rewrite E in Hpj. injection Hpj as ->.
  eexists _, (n + 1). split; [apply dset_truthy|].
  split; [rewrite <- Hr; apply resolve_assoc; by rewrite !assoc_dset_ne by done|]. split.
  - split; [lia|]. rewrite assoc_dset_ne, !assoc_dset by done. cbn [default from_option id int_of_json].
    split; [done|]. split; [f_equal; lia|].
    apply andb_prop in Hc as [Hf%Z.leb_le Hm]. right. split; [lia|].
    apply orb_prop in Hm as [Hm%String.eqb_eq|[Hm%String.eqb_eq Hn%Z.ltb_lt]%andb_prop]; [by left|right]. split; [done|lia].
  - destruct p as [i|]; [|done]. by rewrite !dget_dset_ne by done.
Qed.

Lemma rev_pay_pays pj n invoice :
  resolve_mpp_k (JDict pj) = r -> counters pj n ->
  keeps (paying (Some invoice)) (rev_pay cfg d (JDict pj) invoice).
Proof.
  intros Hr (H0 & Hd & Hl & Ha). unfold rev_pay. rewrite Hr. cbv zeta. cbn [py_get]. fold k_dec; fold k_last.
  intros w Hw. rewrite bind_lift_Ok, Hd, bind_lift_Ok, bind_lift_Ok, Hl, bind_lift_Ok. revert w Hw.
  match goal with |- forall w, _ -> match ?m w with _ => _ end => change (keeps (paying (Some invoice)) m) end.
  inv_body. by apply fall_back_pays.
Qed.

Lemma rev_claim_pays p now id data : keeps (paying p) (rev_claim cfg d now id data).
Proof.
  unfold rev_claim, probe_economy_feerate_with_retry, rev_broadcast. inv_body.
  all: intros s' (pj & n & Hs); exists pj, n; unfold with_claim; by destruct (compute_txid_from_hex _).
Qed.

Definition pays_one (w : world) : Prop := exists p, paying p w.

Lemma keeps_pays_one {A} p (m : M A) : keeps (paying p) m -> triple (paying p) m (fun _ => pays_one) pays_one.
Proof. intros H. eapply triple_weaken; [exact H|done|intros ?|]; intros w Hw; by exists p. Qed.

Lemma poll_pays now :
  triple (fun w => pays_one w /\ working w = durable w) (_poll_and_claim cfg d now) (fun _ => pays_one) pays_one.
Proof.
  intros w [[p (Hd & Hw & Hc)] Hwd]. pose proof Hw as (pj & n & E & Hr & Hn & Hp).
  unfold _poll_and_claim. rewrite bind_get_row, E. cbn [py_get]. rewrite !bind_lift_Ok.
  fold (dget pj k_id) (dget pj k_inv).
  destruct (_ || _) eqn:Hi; [apply (keeps_pays_one p _ (keeps_ret _ _)); by split|].
  apply orb_false_elim in Hi as [Hi%negb_false_iff _].
  assert (H : paying (Some (dget pj k_inv)) w).
  { assert (pay_row (Some (dget pj k_inv)) (row (working w))) by (by exists pj, n).
    split; [by rewrite <- Hwd|]. split; [done|]. eapply Forall_impl; [exact Hc|]. intros c Hx. destruct c; try done.
    destruct Hx as [-> Hk]. split; [|done]. destruct Hp as [_ <-]. done. }
  revert w Hd Hw Hc Hwd E H. intros w _ _ _ _ _. revert w.
  match goal with |- forall w, _ -> match ?m w with _ => _ end =>
    change (triple (paying (Some (dget pj k_inv))) m (fun _ => pays_one) pays_one) end.
  apply keeps_pays_one. apply keeps_bind; [by eapply rev_pay_pays|]. intros [o|]; inv_body. all: apply rev_claim_pays.
Qed.

Lemma reverse_pays now :
  triple (fun w => pays_one w /\ working w = durable w) (execute_reverse_hop_step cfg d now) (fun _ => pays_one) pays_one.
Proof.
  intros w [Hw Hwd]. unfold execute_reverse_hop_step. rewrite bind_get_row.
  assert (Hret : forall o : HopStepOutcome, match ret o w with (w', Done _) => pays_one w' | (w', _) => pays_one w' end) by done.
  case_bool_decide; [|by case_bool_decide; apply Hret]. unfold rev_step_exiting. rewrite bind_get_row.
  destruct (rev_has_issued_swap _) eqn:Hi; cbn [negb].
  - destruct (claim_broadcast_at_ts _); [apply Hret|by apply poll_pays].
  - destruct Hw as [p Hp]. assert (p = None) as ->.
    { destruct p as [i|]; [|done]. destruct Hp as (_ & (pj & n & E & _ & _ & Ht & _) & _).
      unfold rev_has_issued_swap in Hi. rewrite E in Hi. unfold k_id in Ht. congruence. }
    by apply (keeps_pays_one None _ issue_pays).
Qed.
End payments.

(** C4. Whatever the adapters answer and however often the process dies, all
    Lightning payments of a session's reverse exit pay one and the same
    invoice, each split into at most the requested number of parts; fewer
    than requested only within the fallback mode and never below the floor. *)
Theorem reverse_payments cfg d s pj w i k i' k' :
  or_dict (pipeline_json s) = JDict pj -> assoc k_dec pj = None -> assoc k_last pj = None ->
  run (execute_reverse_hop_step cfg d) others (fresh s []) w ->
  C_pay_reverse i k ∈ calls w -> C_pay_reverse i' k' ∈ calls w ->
  i' = i /\ allowed cfg (resolve_mpp_k (JDict pj)) k.
Proof.
  intros Hpj Hd Hl R H1 H2. set (r := resolve_mpp_k (JDict pj)) in *.
  assert (H : pays_one cfg r w).
  { refine (reverse_run cfg d (pays_one cfg r) _ _ _ _ _ _ _ R _).
    - intros w0 n [p (? & ? & ?)]. by exists p.
    - intros w0 [p (? & ? & ?)]. by exists p.
    - intros now w0 n [p Hp]. exists p. apply inv_committed; [apply pay_row_columns|done].
    - intros now. apply reverse_pays.
    - intros w0 s' cs [p (Hp & _ & Hc)] (E & _ & _ & _ & more & -> & Hm). exists p.
      assert (pay_row cfg r p (row s')) by (unfold pay_row in *; by rewrite E).
      split; [done|]. split; [done|]. cbn [calls]. apply Forall_app. split; [done|].
      eapply Forall_impl; [exact Hm|]. by intros [].
    - exists None. assert (pay_row cfg r None s).
      { exists pj, 0. split; [done|]. split; [done|]. split; [|done]. unfold counters. rewrite Hd, Hl. cbn. rewrite Z.sub_0_r.
        split; [done|]. split; [done|]. split; [done|by left]. }
      by repeat split. }
  destruct H as [p (_ & _ & Hc)]. rewrite Forall_forall in Hc.
  destruct (Hc _ H1) as [-> Ha], (Hc _ H2) as [[= ->] _]. done.
Qed.

(** ** The destination *)

Lemma exit_assoc s s' pj pj' :
  or_dict (pipeline_json s) = JDict pj -> or_dict (pipeline_json s') = JDict pj' ->
  assoc (u "exit") pj' = assoc (u "exit") pj -> exit_destination s' = exit_destination s.
Proof. intros E E' H. unfold exit_destination. rewrite E, E'. cbn [py_get]. by rewrite H. Qed.

Section destination.
Context (cfg : rev_settings) (d : ReverseHopDeps) (spk : bytes) (bin lo hi : Z).
Context (Hband : exit_band cfg bin = Ok (lo, hi)).

Definition pays_exit (tx : ustr) : Prop := validate_cooperative_claim_tx (hex_text tx) (hex spk) (lo, hi) None = Ok tt.

Definition exit_row (s : AnonymizeSession) : Prop :=
  expected_script cfg s = Ok spk /\ bin_amount_sat s = bin /\ (forall tx, claim_tx_hex s = Some tx -> pays_exit tx).

Definition exit_call (c : call) : Prop := match c with C_broadcast_claim tx => pays_exit tx | _ => True end.

Abbreviation exiting := (inv exit_row exit_call).

Lemma exit_row_columns s s' : exit_columns s' = exit_columns s -> exit_row s -> exit_row s'.
Proof.
  unfold exit_columns, exit_row, expected_script, exit_destination. intros [= -> -> -> _]. done.
Qed.

Lemma exit_row_update f :
  (forall pj, assoc (u "exit") (f pj) = assoc (u "exit") pj) -> (forall pj, or_dict (JDict (f pj)) = JDict (f pj)) ->
  admits exit_row f.
Proof.
  intros Hf Ht s pj (He & Hb & Hc) Hpj. split; [|by split]. rewrite <- He. unfold expected_script.
  by rewrite (exit_assoc s (set_pipeline_json s (JDict (f pj))) pj (f pj) Hpj (Ht pj) (Hf pj)).
Qed.

(** What passes the checks pays the destination. *)
Lemma check_claim_pays s tx : exit_row s -> check_claim cfg s tx = Ok None -> pays_exit tx.
Proof.
  intros (He & Hb & _). unfold check_claim, pays_exit. rewrite He, Hb, Hband.
  destruct (assert_envelope_policy _ _ _) as [|[]]; try done. cbn [mbind result_bind].
  destruct (validate_cooperative_claim_tx _ _ _ _) as [[]|[]]; done.
Qed.

Lemma exit_keeps_issue : keeps exiting (_issue_reverse_swap cfg d).
Proof.
  unfold _issue_reverse_swap, _check_exit_relay_diversity, rev_create. inv_body.
  apply exit_row_update; [intros ?; by rewrite !assoc_dset_ne by done|intros ?; apply dset_truthy].
Qed.

Lemma exit_keeps_pay pj i : keeps exiting (rev_pay cfg d pj i).
Proof.
  pose proof exit_row_columns. unfold rev_pay, rev_fall_back. inv_body.
  apply exit_row_update; [intros ?; by rewrite !assoc_dset_ne by done|intros ?; apply dset_truthy].
Qed.

Lemma exit_keeps_claim now id data : keeps exiting (rev_claim cfg d now id data).
Proof.
  pose proof exit_row_columns. unfold rev_claim, probe_economy_feerate_with_retry, rev_broadcast.
  do 3 (apply keeps_bind; [inv_body|intros ?]). destruct (has_hop_attempt_completed _ _); [inv_body|].
  do 2 (apply keeps_bind; [inv_body|intros ?]). destruct (SFleb _ _); [inv_body|].
  apply keeps_bind; [inv_body|intros [economy|]]; [|inv_body]. destruct (negb _); [inv_body|].
  apply keeps_bind; [inv_body|intros r]. destruct (ok_reply r) as [[|c tx]|]; [inv_body| |inv_body].
  set (t := c :: tx). clearbody t. intros w Hw. rewrite bind_get_row.
  destruct (check_claim cfg (row (working w)) t) as [[detail|]|e] eqn:Hck; [done| |done].
  rewrite bind_lift_Ok. assert (Ht : pays_exit t) by (eapply check_claim_pays; [apply Hw|done]).
  revert w Hw Hck. intros w Hw _. revert w Hw.
  match goal with |- forall w, _ -> match ?m w with _ => _ end => change (keeps exiting m) end.
  inv_body. intros s (He & Hb & Hc). split; [|split].
  - rewrite <- He. unfold with_claim. by destruct (compute_txid_from_hex _).
  - rewrite <- Hb. unfold with_claim. by destruct (compute_txid_from_hex _).
  - intros tx' Hx. assert (claim_tx_hex (with_claim cfg now t s) = Some t) as Hy
      by (unfold with_claim; by destruct (compute_txid_from_hex _)). congruence.
Qed.

Lemma exit_keeps now : keeps exiting (execute_reverse_hop_step cfg d now).
Proof.
  unfold execute_reverse_hop_step, rev_step_exiting, _poll_and_claim. inv_body.
  all: first [apply exit_keeps_issue|apply exit_keeps_pay|apply exit_keeps_claim].
Qed.
End destination.

(** C3. Once the session's destination has a script on the network, every
    claim the reverse exit stores or broadcasts, whatever crashes occur and
    whatever the claim script returns, is a version-2 transaction with one
    replaceable input and one output, which pays that script an amount
    between the fairness floor and twice the session's amount. *)
Theorem exit_pays_destination cfg d s spk lo hi w tx :
  expected_script cfg s = Ok spk -> exit_band cfg (bin_amount_sat s) = Ok (lo, hi) -> claim_tx_hex s = None ->
  run (execute_reverse_hop_step cfg d) others (fresh s []) w ->
  claim_tx_hex (row (durable w)) = Some tx \/ C_broadcast_claim tx ∈ calls w ->
  exists raw t value, fromhex (hex_text tx) = Ok raw /\ encodes raw t /\ from_le (tx_version t) = 2 /\
    tx_sequences t = [ANONYMIZE_TX_NSEQUENCE] /\ single_output (tx_outputs t) value spk /\ lo <= value <= hi.
Proof.
  intros He Hb Hc R Htx.
  assert (H : inv (exit_row cfg spk (bin_amount_sat s) lo hi) (exit_call spk lo hi) w).
  { refine (reverse_run cfg d (inv (exit_row cfg spk (bin_amount_sat s) lo hi) (exit_call spk lo hi)) _ _ _ _ _ _ _ R _).
    - by intros w0 n (? & ? & ?).
    - by intros w0 (? & ? & ?).
    - intros now w0 n H. apply inv_committed; [apply exit_row_columns|done].
    - intros now. eapply triple_weaken; [by apply exit_keeps|by intros ? [? _]|by intros ? ?|by intros ?].
    - intros w0 s' cs ((H1 & H2 & H3) & _ & Hcs) (E1 & E2 & E3 & _ & more & -> & Hm).
      assert (exit_row cfg spk (bin_amount_sat s) lo hi (row s')).
      { split; [|split].
        - unfold expected_script, exit_destination in *. by rewrite E1.
        - congruence.
        - intros tx' Hx. destruct E3 as [E3|E3]; rewrite E3 in Hx; [by apply H3|done]. }
      split; [done|]. split; [done|]. cbn [calls]. apply Forall_app. split; [done|].
      eapply Forall_impl; [exact Hm|]. intros c Hx. destruct c; try done. by apply H3.
    - assert (exit_row cfg spk (bin_amount_sat s) lo hi s); [|by split; [|split; [|constructor]]].
      split; [done|]. split; [done|]. intros tx'. by rewrite Hc. }
  destruct H as ((_ & _ & H1) & _ & H2). assert (Hp : pays_exit spk lo hi tx).
  { destruct Htx as [Ht|Ht]; [by apply H1|]. rewrite Forall_forall in H2. apply (H2 _ Ht). }
  destruct (claim_is_hex _ _ _ _ Hp) as [raw Hraw].
  destruct (claim_decodes _ raw _ _ _ _ Hraw Hp) as (t & value & script & ? & ? & ? & ? & Hs & ?).
  rewrite fromhex_hex in Hs. injection Hs as ->. by exists raw, t, value.
Qed.

(** ** A claim that is only an identifier *)

Lemma check_claim_txid cfg s spk tx raw :
  expected_script cfg s = Ok spk -> fromhex (hex_text tx) = Ok raw -> size raw = 32 -> check_claim cfg s tx <> Ok None.
Proof.
  intros He Hraw Hsize H. unfold check_claim in H. rewrite He in H.
  destruct (assert_envelope_policy _ _ _) as [|[]]; try done. apply bind_Ok in H as ([lo hi] & _ & H).
  destruct (validate_cooperative_claim_tx _ _ _ _) as [[]|[]] eqn:Hv; try done.
  destruct (claim_decodes _ raw _ _ _ _ Hraw Hv) as (t & value & script & Henc & _ & Hseq & _).
  pose proof (spend_size raw t _ Henc Hseq). lia.
Qed.

(** ** Concrete runs *)

Definition demo_rev_settings : rev_settings :=
  mkRevSettings "bitcoin" (u "asn") true "strict" 2 (literal 6 10) (literal 15 10) (literal 5 1) 60 (u "self").

Definition demo_exit_session (pj : list (ustr * json)) : AnonymizeSession :=
  demo_session EXITING EXT_LIGHTNING
    (JDict ([(u "exit", JDict [(u "destination_address", JStr (u "bc1qw508d6qejxtdg4y5r3zarvary0c5xw7kv8f3t4"))]);
             (u "reverse_payment_chunks_k_requested", JInt 3)] ++ pj)).

(** A claim of 49000 sat to that address. *)
Definition demo_exit_claim : ustr :=
  u "020000000001010000000000000000000000000000000000000000000000000000000000000000" ++
  u "0000000000fdffffff0168bf000000000000160014751e76e8199196d454941c45d1b3a323f1433bd60000000000".

(** The first payment is refused, later ones succeed; Boltz reports the lockup. *)
Definition demo_reverse : ReverseHopDeps :=
  mkReverseDeps (fun _ => ([], None)) (fun _ => (Some (mkReverse (u "swap1") (Some (u "lnbc1"))), None))
    (fun _ => (Some (u "transaction.mempool"), Some (mkStatusData (Ok (literal 10 1)) (JDict [])), None))
    (fun cs => if (length cs <? 2)%nat then (JNull, Some (u "Payment failed: FAILURE_REASON_NO_ROUTE")) else (JDict [], None))
    (fun _ => (Some (literal 10 1), None)) (fun _ => (Some demo_exit_claim, None)) (fun _ => (Some [], None)).

Example demo_exit_checks :
  expected_script demo_rev_settings (demo_exit_session []) = Ok (raw_of "0014751e76e8199196d454941c45d1b3a323f1433bd6") /\
  exit_band demo_rev_settings 50000 = Ok (45500, 100000) /\
  check_claim demo_rev_settings (demo_exit_session []) demo_exit_claim = Ok None.
Proof. vm_compute. repeat split. Qed.

Definition demo_reverse_tick (n : nat) : world -> world :=
  hop_tick (execute_reverse_hop_step demo_rev_settings demo_reverse) 1000000 n.

(** The swap is issued; the payment of three parts is refused, the one of two
    parts is made and the process dies on its reply; it is sent again. *)
Definition demo_exit_run : world :=
  demo_reverse_tick 99 (demo_reverse_tick 1 (demo_reverse_tick 99 (demo_reverse_tick 99 (fresh (demo_exit_session []) [])))).

Lemma demo_exit_run_ok : run (execute_reverse_hop_step demo_rev_settings demo_reverse) others (fresh (demo_exit_session []) []) demo_exit_run.
Proof.
  unfold demo_exit_run, demo_reverse_tick.
  apply (run_tick _ _ _ 1000000 99%nat), (run_tick _ _ _ 1000000 99%nat), (run_tick _ _ _ 1000000 1%nat), (run_tick _ _ _ 1000000 99%nat).
  apply run_refl.
Qed.

Definition reverse_parts (c : call) : option Z := match c with C_pay_reverse _ k => Some k | _ => None end.

Lemma reverse_payments_witness :
  omap reverse_parts (calls demo_exit_run) = [3; 2; 2] /\
  forall i k, C_pay_reverse i k ∈ calls demo_exit_run -> i = JStr (u "lnbc1") /\ (k = 3 \/ 2 <= k < 3).
Proof.
  split; [vm_compute; reflexivity|]. intros i k Hk.
  assert (H3 : C_pay_reverse (JStr (u "lnbc1")) 3 ∈ calls demo_exit_run) by (apply list_elem_of_In; vm_compute; tauto).
  destruct (reverse_payments demo_rev_settings demo_reverse (demo_exit_session []) _ demo_exit_run i k (JStr (u "lnbc1")) 3
    eq_refl eq_refl eq_refl demo_exit_run_ok Hk H3) as [-> [->|[[Hl Hr] _]]]; split; auto.
Defined.

Lemma exit_pays_destination_witness :
  claim_tx_hex (row (durable demo_exit_run)) = Some demo_exit_claim /\
  exists raw t value, fromhex (hex_text demo_exit_claim) = Ok raw /\ encodes raw t /\ 45500 <= value <= 100000 /\
    single_output (tx_outputs t) value (raw_of "0014751e76e8199196d454941c45d1b3a323f1433bd6").
Proof.
  split; [vm_compute; reflexivity|].
  destruct (exit_pays_destination demo_rev_settings demo_reverse (demo_exit_session [])
    (raw_of "0014751e76e8199196d454941c45d1b3a323f1433bd6") 45500 100000 demo_exit_run demo_exit_claim)
    as (raw & t & v & ? & ? & _ & _ & ? & ?).
  - vm_compute. reflexivity.
  - vm_compute. reflexivity.
  - reflexivity.
  - exact demo_exit_run_ok.
  - left. vm_compute. reflexivity.
  - by exists raw, t, v.
Defined.

(** The claim is flushed, not committed, before it is broadcast: a process
    that dies on the reply of the broadcast leaves no trace of it. *)
Example broadcast_before_durable :
  let w := demo_reverse_tick 9 (demo_reverse_tick 99 (demo_reverse_tick 99 (fresh (demo_exit_session []) []))) in
  C_broadcast_claim demo_exit_claim ∈ calls w /\ claim_tx_hex (row (durable w)) = None.
Proof. split; [apply list_elem_of_In; vm_compute; tauto|vm_compute; reflexivity]. Qed.

(** Nor is a payment recorded before the tick ends. LND then answers the next
    attempt that the invoice is already paid, which the body takes for a
    failed payment: the parts are lowered, and at the floor the session is
    parked although its invoice has been paid. *)
Definition demo_already_paid : ReverseHopDeps :=
  mkReverseDeps (tor_circuits demo_reverse) (boltz_create_reverse_swap demo_reverse) (boltz_get_swap_status demo_reverse)
    (fun cs => if existsb (fun c => match c with C_pay_reverse _ _ => true | _ => false end) cs
               then (JNull, Some (u "invoice is already paid")) else (JDict [], None))
    (economy_feerate demo_reverse) (run_claim_subprocess demo_reverse) (rev_chain_broadcast_tx demo_reverse).

Example paid_invoice_is_parked :
  let t n := hop_tick (execute_reverse_hop_step demo_rev_settings demo_already_paid) 1000000 n in
  let w := t 99%nat (t 99%nat (t 1%nat (t 99%nat (fresh (demo_exit_session []) [])))) in
  (status (row (durable w)), awaiting_reconciliation_reason (row (durable w))) =
    (value AWAITING_RECONCILIATION, Some (u "mpp_k_floor_exhausted")).
Proof. vm_compute. reflexivity. Qed.

(** The circuits the control-port probe reports carry neither an address nor
    an AS number nor a country, so their diversity keys are empty and the
    check passes whatever exits they share. *)
Definition probed_circuit (id fingerprint : ustr) : CircuitExitInfo := mkCircuit id fingerprint [] None None.

Lemma probed_never_clash cs mode :
  mode <> u "off" -> find_clash (map (fun c => probed_circuit c.1 c.2) cs) mode = None.
Proof.
  intros Hm.
  assert (Hk : forall c, _exit_diversity_key (probed_circuit c.1 c.2) mode = []).
  { intros c. unfold _exit_diversity_key. rewrite bool_decide_eq_false_2 by done. by case_bool_decide. }
  induction cs as [|c cs IH]; [done|]. cbn [map find_clash].
  assert (clash_with (probed_circuit c.1 c.2) (map (fun c => probed_circuit c.1 c.2) cs) mode = None) as ->; [|done].
  clear IH. induction cs as [|c' cs IH]; [done|]. cbn [map clash_with]. rewrite Hk. cbn [nonempty andb]. exact IH.
Qed.
