(* ===== verification/AnonLoop.v ===== *)
(** * The per-session loop and the interface of hop bodies

    anonymize/per_session_loop.py and the dispatch of hop_dispatcher.py.
    [HopBody] states what the loop relies on: a body may write anything but
    the columns of the state machine, which it changes only by routing the
    session into reconciliation or, from EXITING and with an exit of kind
    bolt12_pay, by writing COMPLETED or FAILED. The dispatcher is an instance,
    as are the submarine, self-pay and reverse bodies it runs; the Liquid
    body is a parameter. *)
From S2P Require Import Prelude Bytes Utf8 Json PyJson PyInt AnonState AnonTick AnonProbe HopLog AnonHops AnonReverse.
From S2P Require Import HopLogic.

(** ** hop_dispatcher.py *)

Record hop_bodies := mkBodies {
  reverse_settings : rev_settings;
  reverse_deps : ReverseHopDeps;
  liquid_body : option (M HopStepOutcome);     (** [None]: the Liquid hop is disabled *)
  submarine_deps : SubmarineHopDeps;
  self_pay_deps : LnSelfPayHopDeps;
  bolt12_deps : Bolt12PayHopDeps
}.

(** [((pj.get("exit") or {}).get("kind") or "reverse").lower()] *)
Definition exit_kind (pj : json) : result ustr :=
  ex ← py_get pj (u "exit") JNull;
  k ← py_get (or_dict ex) (u "kind") JNull;
  if negb (truthy k) then Ok (u "reverse")
  else match k with JStr s => Ok (lower_text s) | _ => Err AttributeError end.

Definition default_hop_step_fn (b : hop_bodies) (now : Z) : M HopStepOutcome :=
  let* s := get_row in
  let source := lower_text (source_kind s) in
  let st := lower_text (status s) in
  let pj := or_dict (pipeline_json s) in
  let* uses := lift (py_get pj (u "uses_liquid") (JBool false)) in
  let* ek := lift (exit_kind pj) in
  let rest :=
    if eqs ek (u "bolt12_pay") && eqs st (value EXITING) then execute_bolt12_pay_hop_step (bolt12_deps b) now
    else if eqs source (source_value LIGHTNING_SELF) && mem st [value FUNDING; value LN_HOLDING]
    then execute_ln_self_pay_hop_step (self_pay_deps b) now
    else if is_onchain source && mem st [value SOURCING; value FUNDING; value LN_HOLDING]
    then execute_submarine_hop_step (submarine_deps b) now
    else execute_reverse_hop_step (reverse_settings b) (reverse_deps b) now in
  match liquid_body b with
  | Some liquid =>
      if eqs st (value AWAITING_LIQUID_DWELL) then liquid
      else if eqs st (value HOPPING) && truthy uses then liquid
      else rest
  | None => rest
  end.

(** ** One iteration (per_session_loop.py) *)

Definition record_error (o : HopStepOutcome) : M unit :=
  let* s := get_row in
  if String.eqb (hs_kind o) "error" then
    set_row (set_last_error s (Some (match hs_detail o with [] => u "hop step failed" | d => d end)))
  else if String.eqb (hs_kind o) "noop" then ret tt
  else set_row (set_last_error s None).

(** The transaction of one iteration; [true] when the loop exits. *)
Definition loop_body (cfg : anon_settings) (e : env) (hop : M HopStepOutcome) : M bool :=
  let* s := get_row in
  if negb (live s) then ret true
  else if is_session_terminal s then ret true
  else
    let* o := hop in
    do* record_error o in
    let* s := get_row in
    let* obs := lift (default_observation_fn cfg e s) in
    let '(s', r) := tick_session s obs in
    do* set_row s' in
    let* a := lift r in
    do* commit (now e) in
    let* s := get_row in
    ret (match kind a with k_noop_terminal => true | _ => is_session_terminal s end).

Definition bounded_retry_threshold (cfg : anon_settings) : Z := Z.max 2 (health_flip_threshold cfg * 3).

(** The fresh transaction that parks a session whose ticks keep raising. *)
Definition park (now : Z) : M unit :=
  let* s := get_row in
  if live s && negb (is_session_terminal s) &&
     is_legal_transition (status s) (value AWAITING_RECONCILIATION)
  then do* route_to_reconciliation "bounded_retry_exhausted" in commit now
  else ret tt.

Definition run_park (now : Z) (w : world) : world :=
  match park now w with
  | (w', Done _) => w'
  | (w', _) => rollback w'
  end.

(** One iteration: the world, the failure counter, and whether the loop is
    over. The process may die at any point; the loop is then over too. *)
Definition loop_tick (cfg : anon_settings) (e : env) (hop : M HopStepOutcome) (w : world) (failures : Z)
    : world * Z * bool :=
  match loop_body cfg e hop w with
  | (w', Done stop) => (rollback w', 0, stop)
  | (w', Died) => (rollback w', failures, true)
  | (w', Raised _) =>
      let w' := rollback w' in
      if bounded_retry_threshold cfg <=? failures + 1 then (run_park (now e) w', failures + 1, true)
      else (w', failures + 1, false)
  end.

(** ** What a hop body may do to the row *)

(** How the session leaves, as the dispatcher reads it. *)
Definition exit_of (s : AnonymizeSession) : result ustr := exit_kind (or_dict (pipeline_json s)).

(** The columns of the state machine, and the exit. *)
Definition control (s : AnonymizeSession) :=
  (session_id s, source_kind s, status s, pre_reconciliation_status s, awaiting_reconciliation_reason s,
   reconciliation_attempts s, deleted_at s, exit_of s).

Definition blank (r : ustr) : bool := bool_decide (strip r = []).

(** The session is about to pay an offer. *)
Definition pays_offer (s : AnonymizeSession) : Prop :=
  status s = value EXITING /\ exit_of s = Ok (u "bolt12_pay").

(** [s'] differs from [s] in other columns, or was routed into
    reconciliation with a reason, or ended with the payment of an offer. *)
Definition moved (s s' : AnonymizeSession) : Prop :=
  control s' = control s \/
  (exists r, blank r = false /\ is_legal_transition (status s) (value AWAITING_RECONCILIATION) = true /\
     status s <> value AWAITING_RECONCILIATION /\
     control s' = control (set_status (set_reason (set_pre_status s (Some (status s))) (Some r))
                             (value AWAITING_RECONCILIATION))) \/
  (pays_offer s /\ exists st, st ∈ [COMPLETED; FAILED] /\ control s' = control (set_status s (value st))).

Class HopBody (hop : M HopStepOutcome) : Prop :=
  hop_moves : forall w w' o, working w = durable w -> hop w = (w', o) ->
    moved (row (durable w)) (row (working w')) /\ moved (row (durable w)) (row (durable w')).

(** ** The modelled bodies keep the contract *)

Section contract.
Context (s0 : AnonymizeSession).

Definition untouched (w : world) : Prop :=
  control (row (working w)) = control s0 /\ control (row (durable w)) = control s0.

Definition only_moved (w : world) : Prop := moved s0 (row (working w)) /\ moved s0 (row (durable w)).

Lemma untouched_moved w : untouched w -> only_moved w.
Proof. intros [? ?]. split; by left. Qed.

Lemma control_flush now s s' : control (flush now s s') = control s'.
Proof. by destruct (flush_cases now s s') as [->| ->]. Qed.

Lemma untouched_call {A} c (reply : list call -> A) : keeps untouched (call_adapter c reply).
Proof. apply triple_call; [done|]. intros w n Hw. done. Qed.

(** An update of the pipeline that leaves the exit alone. *)
Definition spares_exit (f : list (ustr * json) -> list (ustr * json)) : Prop :=
  forall pj, assoc (u "exit") (f pj) = assoc (u "exit") pj.

Lemma exit_update f s pj :
  spares_exit f -> or_dict (pipeline_json s) = JDict pj ->
  exit_of (set_pipeline_json s (JDict (f pj))) = exit_of s.
Proof.
  intros Hf Hpj. unfold exit_of. cbn [pipeline_json set_pipeline_json]. rewrite Hpj, or_dict_nonempty.
  unfold exit_kind. cbn [py_get]. by rewrite Hf.
Qed.

Lemma untouched_update f : spares_exit f -> keeps untouched (update_pj f).
Proof.
  intros Hf. apply triple_update; [done|]. intros w pj [Hw Hd] Hpj. split; [|exact Hd].
  rewrite <- Hw. unfold control. cbn [row working]. rewrite exit_update by done. done.
Qed.

Lemma untouched_commit now : keeps untouched (commit now).
Proof.
  apply triple_commit; [done|]. intros w n [Hw Hd]. unfold untouched. simpl. by rewrite !control_flush.
Qed.

Lemma untouched_log key dt : keeps untouched (log_started key dt) /\ keeps untouched (log_completed key dt).
Proof. by split; intros w Hw. Qed.

Lemma untouched_event s kind dt : keeps untouched (add_event s kind dt).
Proof. by intros w Hw. Qed.

Lemma untouched_mark d : keeps untouched (_mark_settled d).
Proof.
  unfold _mark_settled. apply keeps_bind; [exact (keeps_get_calls _)|intros ?; apply untouched_update].
  intros pj. cbn zeta. destruct (assoc _ (dset _ _ _)); by rewrite !assoc_dset_ne by done.
Qed.
End contract.

Ltac spare_exit := intros ?; unfold pay_outcome; repeat case_match; by rewrite !assoc_dset_ne by done.

(** Walk through a body whose steps all leave the columns alone. *)
Ltac untouched_body := repeat (cbn zeta; match goal with
  | |- keeps _ (ret _) => exact (keeps_ret _ _)
  | |- keeps _ (lift _) => exact (keeps_lift _ _)
  | |- keeps _ get_row => exact (keeps_get_row _)
  | |- keeps _ get_log => exact (keeps_get_log _)
  | |- keeps _ get_calls => exact (keeps_get_calls _)
  | |- keeps _ (update_pj _) => apply untouched_update; spare_exit
  | |- keeps _ (call_adapter _ _) => exact (untouched_call _ _ _)
  | |- keeps _ (commit _) => exact (untouched_commit _ _)
  | |- keeps _ (log_started _ _) => exact (proj1 (untouched_log _ _ _))
  | |- keeps _ (log_completed _ _) => exact (proj2 (untouched_log _ _ _))
  | |- keeps _ (add_event _ _ _) => exact (untouched_event _ _ _ _)
  | |- keeps _ (_mark_settled _) => exact (untouched_mark _ _)
  | |- keeps _ (bind _ _) => apply keeps_bind; [|intros ?]
  | |- keeps _ (match ?x with _ => _ end) => destruct x
  end).

Lemma issue_untouched s0 d : keeps (untouched s0) (sub_step_issue_swap d).
Proof. unfold sub_step_issue_swap. untouched_body. Qed.

Lemma refund_untouched s0 d : keeps (untouched s0) (sub_step_refund d).
Proof.
  unfold sub_step_refund. untouched_body.
Qed.

Lemma settle_untouched s0 d : keeps (untouched s0) (sub_step_observe_settlement d).
Proof. unfold sub_step_observe_settlement. untouched_body. apply refund_untouched. Qed.

Lemma broadcast_untouched s0 d now key a s : keeps (untouched s0) (sub_broadcast d now key a s).
Proof. unfold sub_broadcast. untouched_body. Qed.

Lemma send_untouched s0 d key p : keeps (untouched s0) (self_pay_send d key p).
Proof. unfold self_pay_send. untouched_body. Qed.

Lemma mint_untouched s0 d now key amount i h : keeps (untouched s0) (self_pay_mint d now key amount i h).
Proof. unfold self_pay_mint, self_pay_new_invoice. untouched_body; apply send_untouched. Qed.

Lemma fire_untouched s0 d now : keeps (untouched s0) (_step_fire_self_pay d now).
Proof.
  unfold _step_fire_self_pay. untouched_body; apply mint_untouched.
Qed.

Lemma self_pay_untouched s0 d now : keeps (untouched s0) (execute_ln_self_pay_hop_step d now).
Proof. unfold execute_ln_self_pay_hop_step. untouched_body. apply fire_untouched. Qed.

Lemma untouched_post {A} s0 (m : M A) :
  keeps (untouched s0) m -> triple (untouched s0) m (fun _ => only_moved s0) (only_moved s0).
Proof. intros H. eapply triple_weaken; [exact H|done|intros ?|]; apply untouched_moved. Qed.

Lemma control_status s s' : control s = control s' -> status s = status s'.
Proof. unfold control. congruence. Qed.

(** Routing into reconciliation from a status that has the edge. *)
Lemma route_moves s0 reason :
  blank (u reason) = false -> is_legal_transition (status s0) (value AWAITING_RECONCILIATION) = true ->
  status s0 <> value AWAITING_RECONCILIATION ->
  triple (untouched s0) (route_to_reconciliation reason) (fun _ => only_moved s0) (only_moved s0).
Proof.
  intros Hb Hl Hne w [Hw Hd]. unfold route_to_reconciliation. rewrite bind_get_row.
  pose proof (control_status _ _ Hw) as Hst.
  rewrite transition_to_ar_ok by (rewrite Hst; done). unfold bind, set_row, lift.
  split; cbn [row working durable]; [right; left|by left].
  exists (u reason). split; [done|]. split; [done|]. split; [done|].
  unfold control, exit_of in *. simpl. congruence.
Qed.

(** A part of a body that leaves the columns alone or ends in a routing. *)
Definition moves {A} s0 (m : M A) : Prop := triple (untouched s0) m (fun _ => only_moved s0) (only_moved s0).

Lemma moves_ret {A} s0 (a : A) : moves s0 (ret a).
Proof. apply untouched_post, keeps_ret. Qed.

Lemma moves_bind {A B} s0 (m : M A) (f : A -> M B) :
  keeps (untouched s0) m -> (forall a, moves s0 (f a)) -> moves s0 (bind m f).
Proof.
  intros Hm Hf. eapply triple_bind with (R := fun _ => untouched s0); [|done].
  eapply triple_weaken; [exact Hm|done|done|apply untouched_moved].
Qed.

Lemma moves_route {A} s0 reason (o : A) :
  blank (u reason) = false -> is_legal_transition (status s0) (value AWAITING_RECONCILIATION) = true ->
  status s0 <> value AWAITING_RECONCILIATION ->
  moves s0 (do* route_to_reconciliation reason in ret o).
Proof. intros Hb Hl Hs. eapply triple_bind; [by apply route_moves|]. intros ?. by apply triple_ret. Qed.

Lemma fund_moves s0 d now : status s0 = value FUNDING -> moves s0 (sub_step_fund_lockup d now).
Proof.
  intros Hs. unfold sub_step_fund_lockup. apply moves_bind; [untouched_body|intros s].
  destruct (or_dict (pipeline_json s)); try apply moves_ret. cbn zeta.
  destruct (negb _); [apply moves_ret|]. destruct (truthy _); [apply moves_ret|].
  apply moves_bind; [untouched_body|intros key]. apply moves_bind; [untouched_body|intros l].
  destruct (dispatch_hop_attempt _ _); [|by apply moves_route; rewrite ?Hs|apply moves_ret].
  apply moves_bind; [untouched_body|intros refusal]. destruct (nonempty refusal).
  - apply moves_bind; [untouched_body|intros ?]. by apply moves_route; rewrite ?Hs.
  - apply untouched_post, broadcast_untouched.
Qed.

(** *** The reverse body *)

Lemma diversity_untouched s0 cfg d : keeps (untouched s0) (_check_exit_relay_diversity cfg d).
Proof. unfold _check_exit_relay_diversity. untouched_body. Qed.

Lemma issue_reverse_untouched s0 cfg d : keeps (untouched s0) (_issue_reverse_swap cfg d).
Proof. unfold _issue_reverse_swap, rev_create. untouched_body. apply diversity_untouched. Qed.

Lemma persist_untouched s0 cfg now tx : keeps (untouched s0) (rev_persist cfg now tx).
Proof. intros w Hw. unfold rev_persist. rewrite bind_get_row. unfold with_claim. by destruct (TxPolicy.compute_txid_from_hex _). Qed.

Lemma rev_claim_untouched s0 cfg d now id data : keeps (untouched s0) (rev_claim cfg d now id data).
Proof.
  unfold rev_claim, probe_economy_feerate_with_retry, rev_broadcast. untouched_body; apply persist_untouched.
Qed.

Lemma fall_back_moves s0 cfg r l n : status s0 = value EXITING -> moves s0 (rev_fall_back cfg r l n).
Proof.
  intros Hs. unfold rev_fall_back. destruct (can_decrement cfg l n); [apply untouched_post; untouched_body|].
  apply moves_bind; [untouched_body|intros s]. apply moves_bind; [untouched_body|intros ?].
  by apply moves_route; rewrite ?Hs.
Qed.

(** A payment that ends the step may have routed; one that was made has not. *)
Lemma pay_moves s0 cfg d pj invoice :
  status s0 = value EXITING ->
  triple (untouched s0) (rev_pay cfg d pj invoice)
    (fun o w => match o with Some _ => only_moved s0 w | None => untouched s0 w end) (only_moved s0).
Proof.
  intros Hs.
  assert (Hb : forall A B (m : M A) (f : A -> M (option B)), keeps (untouched s0) m ->
    (forall a, triple (untouched s0) (f a)
       (fun o w => match o with Some _ => only_moved s0 w | None => untouched s0 w end) (only_moved s0)) ->
    triple (untouched s0) (bind m f)
      (fun o w => match o with Some _ => only_moved s0 w | None => untouched s0 w end) (only_moved s0)).
  { intros A B m f Hm Hf. eapply triple_bind with (R := fun _ => untouched s0); [|done].
    eapply triple_weaken; [exact Hm|done|done|apply untouched_moved]. }
  unfold rev_pay. do 7 (apply Hb; [untouched_body|intros ?]). destruct (has_hop_attempt_completed _ _); [by apply triple_ret|].
  apply Hb; [untouched_body|intros ?]. apply Hb; [untouched_body|intros [result [err|]]].
  - destruct (looks_transient err); [apply triple_ret, untouched_moved|].
    eapply triple_bind; [by apply fall_back_moves|]. intros o. by apply triple_ret.
  - apply Hb; [untouched_body|intros parts]. apply Hb; [untouched_body|intros ?]. by apply triple_ret.
Qed.

Lemma poll_moves s0 cfg d now : status s0 = value EXITING -> moves s0 (_poll_and_claim cfg d now).
Proof.
  intros Hs. unfold _poll_and_claim. apply moves_bind; [untouched_body|intros s].
  do 2 (apply moves_bind; [untouched_body|intros ?]). destruct (_ || _); [apply moves_ret|].
  eapply triple_bind; [by apply pay_moves|]. intros [o|]; [by apply triple_ret|].
  apply untouched_post. untouched_body; apply rev_claim_untouched.
Qed.

Lemma hop_of_triple hop :
  (forall s0, triple (untouched s0) hop (fun _ => only_moved s0) (only_moved s0)) -> HopBody hop.
Proof.
  intros H w w' o Hwd Hh. specialize (H (row (durable w)) w). rewrite Hh in H.
  assert (only_moved (row (durable w)) w').
  { destruct o; apply H; split; by rewrite ?Hwd. }
  done.
Qed.

#[export] Instance self_pay_HopBody d now : HopBody (execute_ln_self_pay_hop_step d now).
Proof. apply hop_of_triple. intros s0. apply untouched_post, self_pay_untouched. Qed.

#[export] Instance submarine_HopBody d now : HopBody (execute_submarine_hop_step d now).
Proof.
  apply hop_of_triple. intros s0 w Hw. unfold execute_submarine_hop_step. rewrite bind_get_row.
  pose proof (control_status _ _ (proj1 Hw)) as Hst. rewrite Hst.
  case_bool_decide; [by apply (untouched_post _ _ (issue_untouched s0 d))|].
  case_bool_decide; [by apply fund_moves|].
  case_bool_decide; [by apply (untouched_post _ _ (settle_untouched s0 d))|].
  by apply (untouched_post _ _ (keeps_ret _ _)).
Qed.

#[export] Instance reverse_HopBody cfg d now : HopBody (execute_reverse_hop_step cfg d now).
Proof.
  apply hop_of_triple. intros s0 w Hw. unfold execute_reverse_hop_step. rewrite bind_get_row.
  pose proof (control_status _ _ (proj1 Hw)) as Hst. rewrite Hst.
  case_bool_decide as Hs; [|by case_bool_decide; apply moves_ret].
  unfold rev_step_exiting. rewrite bind_get_row. destruct (negb _); [by apply (untouched_post _ _ (issue_reverse_untouched s0 cfg d))|].
  destruct (claim_broadcast_at_ts _); [by apply moves_ret|by apply poll_moves].
Qed.

(** A body that does nothing. *)
#[export] Instance ret_HopBody o : HopBody (ret o).
Proof. apply hop_of_triple. intros s0. apply untouched_post, keeps_ret. Qed.

(** *** The BOLT 12 body and the dispatch *)

Lemma lower_value st : lower_text (value st) = value st.
Proof. by destruct st. Qed.

(** The body writes the status it ends with directly. *)
Lemma moves_end s0 (g : AnonymizeSession -> AnonymizeSession) st (o : HopStepOutcome) :
  pays_offer s0 -> st ∈ [COMPLETED; FAILED] ->
  (forall s, control (g s) = control (set_status s (value st))) ->
  moves s0 (let* s := get_row in do* set_row (g s) in ret o).
Proof.
  intros Hp Hst Hg w [Hw Hd]. rewrite bind_get_row. unfold bind, set_row, ret.
  split; cbn [row working durable]; [|by left]. right. right. split; [done|]. exists st. split; [done|].
  rewrite Hg. unfold control, exit_of in *. simpl. congruence.
Qed.

Lemma b12_finish_moves s0 now key r : pays_offer s0 -> moves s0 (b12_finish now key r).
Proof.
  intros Hp. unfold b12_finish. cbn zeta. apply moves_bind; [untouched_body|intros ?].
  case_bool_decide; [|case_bool_decide; [apply moves_ret|]]; (apply moves_bind; [untouched_body|intros ?]).
  - apply (moves_end s0 (fun s => _) COMPLETED); [done|set_solver|]. intros s. by destruct (completed_at _).
  - apply (moves_end s0 (fun s => set_status s (value FAILED)) FAILED); [done|set_solver|done].
Qed.

Lemma b12_pay_moves s0 d now offer : pays_offer s0 -> moves s0 (b12_pay d now offer).
Proof.
  intros Hp. unfold b12_pay. apply moves_bind; [untouched_body|intros s]. destruct (_ <=? _); [apply moves_ret|].
  do 2 (apply moves_bind; [untouched_body|intros ?]). destruct (has_hop_attempt_completed _ _); [apply moves_ret|].
  do 2 (apply moves_bind; [untouched_body|intros ?]). destruct (ok_reply _); [by apply b12_finish_moves|].
  cbn zeta. do 2 (apply moves_bind; [untouched_body|intros ?]).
  apply (moves_end s0 (fun s => set_status s (value FAILED)) FAILED); [done|set_solver|done].
Qed.

Lemma b12_moves s0 d now : exit_of s0 = Ok (u "bolt12_pay") -> moves s0 (execute_bolt12_pay_hop_step d now).
Proof.
  intros Hk w Hw. unfold execute_bolt12_pay_hop_step. rewrite bind_get_row.
  rewrite (control_status _ _ (proj1 Hw)). case_bool_decide as Hs; [|by apply moves_ret].
  assert (Hp : pays_offer s0) by done. revert w Hw.
  match goal with |- forall w, _ -> match ?m w with _ => _ end => change (moves s0 m) end.
  unfold b12_step_exiting. do 4 (apply moves_bind; [untouched_body|intros ?]). case_match; [apply moves_ret|].
  do 2 (apply moves_bind; [untouched_body|intros ?]). destruct (is_jstr _ _); [apply moves_ret|].
  destruct (is_jstr _ _); [apply moves_ret|by apply b12_pay_moves].
Qed.

(** Whatever body the dispatcher chooses, the step keeps the contract. *)
#[export] Instance dispatch_HopBody b t :
  (forall l, liquid_body b = Some l -> HopBody l) -> HopBody (default_hop_step_fn b t).
Proof.
  intros Hl w w' o Hwd H. unfold default_hop_step_fn in H. rewrite bind_get_row in H. revert H.
  destruct (py_get _ _ _) as [uses|e]; [|intros [= <- <-]; rewrite Hwd; split; by left].
  rewrite bind_lift_Ok. destruct (exit_kind _) as [ek|e] eqn:Hk; [|intros [= <- <-]; rewrite Hwd; split; by left].
  rewrite bind_lift_Ok. cbv zeta.
  assert (Hb : eqs ek (u "bolt12_pay") = true -> execute_bolt12_pay_hop_step (bolt12_deps b) t w = (w', o) ->
    moved (row (durable w)) (row (working w')) /\ moved (row (durable w)) (row (durable w'))).
  { intros E Hh. unfold eqs in E. bool_to_prop. subst ek. rewrite Hwd in Hk.
    pose proof (b12_moves (row (durable w)) (bolt12_deps b) t Hk w) as Hm. rewrite Hh in Hm.
    assert (only_moved (row (durable w)) w') by (destruct o; apply Hm; by rewrite <- ?Hwd; split; rewrite ?Hwd). done. }
  destruct (eqs ek (u "bolt12_pay")); cbn [andb]; destruct (liquid_body b) as [l|];
    repeat (match goal with |- context [if ?c then _ else _] => destruct c end);
    intros Hh; first [ exact (reverse_HopBody _ _ _ _ _ _ Hwd Hh) | exact (Hl _ eq_refl _ _ _ Hwd Hh)
                     | exact (self_pay_HopBody _ _ _ _ _ Hwd Hh) | exact (submarine_HopBody _ _ _ _ _ Hwd Hh)
                     | exact (Hb eq_refl Hh) ].
Qed.
