(* ===== verification/AnonSafety.v ===== *)
(** * Anonymize sessions: what the orchestrator guarantees

    One session under everything that writes its status: the per-session
    loop, the reconciliation probe, the wedge detector, the startup pass and
    the endpoints, as a step relation on the row; invariants of its runs by
    rule induction. *)
From S2P Require Import Prelude Bytes PyInt Utf8 Json PyJson AnonState AnonTick AnonProbe HopLog AnonHops.
From S2P Require Import HopLogic HopSafety AnonReverse ReverseSafety AnonLoop.

(** ** The effect of one iteration of the loop *)

Lemma moved_control s s1 s2 : control s1 = control s2 -> moved s s1 -> moved s s2.
Proof. intros E. unfold moved. by rewrite E. Qed.

Lemma record_error_effect o w :
  exists w', record_error o w = (w', Done tt) /\ durable w' = durable w /\
    control (row (working w')) = control (row (working w)).
Proof.
  unfold record_error. rewrite bind_get_row. destruct (String.eqb _ _); [by eexists|].
  destruct (String.eqb _ _); by eexists.
Qed.

(** The row a session may be parked from. *)
Definition parkable (s : AnonymizeSession) : Prop :=
  is_terminal (status s) = false /\
  is_legal_transition (status s) (value AWAITING_RECONCILIATION) = true.

Definition parked (s s' : AnonymizeSession) : Prop :=
  parkable s /\ control s' = control (fst (transition_to_awaiting_reconciliation s (u "bounded_retry_exhausted"))).

Lemma park_effect now w :
  working w = durable w ->
  let s := row (durable w) in let s' := row (durable (run_park now w)) in
  control s' = control s \/ parked s s'.
Proof.
  intros Hwd. cbn zeta. remember (run_park now w) as w' eqn:E.
  unfold run_park, park in E. rewrite bind_get_row, Hwd in E.
  destruct (live _ && negb (is_session_terminal _) && is_legal_transition _ _) eqn:Hc.
  2: { left. by subst w'. }
  bool_to_prop. unfold bind at 1, route_to_reconciliation in E. rewrite bind_get_row, Hwd in E.
  destruct (transition_to_awaiting_reconciliation _ _) as [s' r] eqn:T. unfold bind, set_row, lift in E.
  destruct r as [?|ex]; [|subst w'; by left]. rewrite commit_run in E. cbn [life] in E.
  destruct (life w); subst w'; [by left|]. right. split; [by split|].
  cbn [committed durable row working]. rewrite control_flush, T. done.
Qed.

(** What an iteration does to the committed row, for a hop body that keeps
    its contract in this world. *)
Inductive loop_effect (cfg : anon_settings) (e : env) (s s' : AnonymizeSession) : Prop :=
  | le_moved : moved s s' -> loop_effect cfg e s s'
  | le_parked s1 : moved s s1 -> parked s1 s' -> loop_effect cfg e s s'
  | le_tick s1 obs s2 a :
      moved s s1 -> default_observation_fn cfg e s1 = Ok obs -> tick_session s1 obs = (s2, Ok a) ->
      control s' = control s2 -> loop_effect cfg e s s'.

Lemma loop_tick_effect cfg e hop w f w' f' stop :
  working w = durable w ->
  (forall w1 o, hop w = (w1, o) ->
     moved (row (durable w)) (row (working w1)) /\ moved (row (durable w)) (row (durable w1))) ->
  loop_tick cfg e hop w f = (w', f', stop) ->
  loop_effect cfg e (row (durable w)) (row (durable w')).
Proof.
  intros Hwd Hhop. unfold loop_tick, loop_body. rewrite bind_get_row, Hwd.
  assert (Hfail : forall w1, moved (row (durable w)) (row (durable w1)) ->
    (let w1 := rollback w1 in
     if bounded_retry_threshold cfg <=? f + 1 then (run_park (now e) w1, f + 1, true) else (w1, f + 1, false)) =
      (w', f', stop) -> loop_effect cfg e (row (durable w)) (row (durable w'))).
  { intros w1 Hm. cbn zeta. destruct (_ <=? _); intros [= <- <- <-].
    - destruct (park_effect (now e) (rollback w1) eq_refl) as [E|E].
      + apply le_moved. by eapply moved_control.
      + by eapply le_parked.
    - by apply le_moved. }
  destruct (negb (live _)); [intros [= <- <- <-]; apply le_moved; by left|].
  destruct (is_session_terminal _); [intros [= <- <- <-]; apply le_moved; by left|].
  unfold bind at 1. destruct (hop w) as [w1 [o|ex|]] eqn:Hh; destruct (Hhop _ _ eq_refl) as [Hm1 Hm2].
  2: { by apply Hfail. }
  2: { intros [= <- <- <-]. by apply le_moved. }
  destruct (record_error_effect o w1) as (w2 & E2 & Hd2 & Hc2). unfold bind at 1. rewrite E2, bind_get_row.
  destruct (default_observation_fn cfg e (row (working w2))) as [obs|ex] eqn:Ho.
  2: { cbn [lift]. unfold bind at 1. apply Hfail. by rewrite Hd2. }
  rewrite bind_lift_Ok. destruct (tick_session (row (working w2)) obs) as [s2 r] eqn:Ht.
  unfold bind at 1. cbn [set_row]. destruct r as [a|ex].
  2: { unfold bind at 1. cbn [lift]. apply Hfail. simpl. by rewrite Hd2. }
  rewrite bind_lift_Ok. unfold bind at 1. rewrite commit_run. cbn [life]. destruct (life w2) as [|n].
  { intros [= <- <- <-]. apply le_moved. simpl. by rewrite Hd2. }
  intros [= <- <- <-]. cbn [row durable working rollback]. eapply le_tick; [|exact Ho|exact Ht|apply control_flush].
  eapply moved_control; [symmetry; exact Hc2|exact Hm1].
Qed.

(** ** What the router reports *)

(** The collectors say nothing about errors, cancellation or refunds. *)
Definition quiet (o : TickObservations) : Prop :=
  fatal_error_kind o = None /\ reconcile_reason o = None /\ user_cancel_requested o = None /\
  user_refund_requested o = None.

Lemma quiet_merge a b : quiet a -> quiet b -> quiet (merge2 a b).
Proof. unfold quiet. simpl. intros (-> & -> & -> & ->) (-> & -> & -> & ->). done. Qed.

Lemma quiet_ln e s o : observe_ln_self_pay e s = Ok o -> quiet o.
Proof.
  unfold observe_ln_self_pay, _delay_elapsed. intros H. repeat case_hyp H; inv_ok; by subst.
Qed.

Lemma quiet_ext cfg e s o : observe_ext_lightning cfg e s = Ok o -> quiet o.
Proof.
  unfold observe_ext_lightning, _dwell_and_delay_elapsed. intros H. repeat case_hyp H; inv_ok; by subst.
Qed.

Lemma quiet_onchain e s : quiet (observe_onchain_source e s).
Proof. unfold observe_onchain_source. repeat case_match; done. Qed.

Lemma quiet_reverse cfg s : quiet (observe_reverse_exit cfg s).
Proof. unfold observe_reverse_exit. repeat case_match; done. Qed.

Lemma router_fields cfg e s o :
  default_observation_fn cfg e s = Ok o ->
  fatal_error_kind o = None /\ user_cancel_requested o = None /\ user_refund_requested o = None /\
  reconcile_reason o =
    if bool_decide (stripped (awaiting_reconciliation_reason s) <> []) &&
       negb (eqs (status s) (value AWAITING_RECONCILIATION)) && negb (is_terminal (status s))
    then Some (stripped (awaiting_reconciliation_reason s)) else None.
Proof.
  unfold default_observation_fn. intros H. apply bind_Ok in H as (src & Hsrc & H).
  assert (Hq : quiet src).
  { destruct (eqs (source_kind s) (source_value LIGHTNING_SELF)); [by eapply quiet_ln|].
    destruct (eqs (source_kind s) (source_value EXT_LIGHTNING)); [by eapply quiet_ext|].
    destruct (is_onchain _); injection Hsrc as <-; [apply quiet_onchain|done]. }
  set (ex := if _ || _ then _ else _) in H.
  assert (Hm : quiet (_merge_obs [src; ex])).
  { unfold _merge_obs. simpl. repeat apply quiet_merge; [done|done|].
    unfold ex. destruct (_ || _); [apply quiet_reverse|done]. }
  clearbody ex. cbn zeta in H. destruct Hm as (Hf & Hr & Hc & Hu). rewrite Hr in H. cbn [nonempty negb] in H.
  rewrite andb_true_r in H. revert H. destruct (_ && _ && _); intros [= <-]; done.
Qed.

(** A session in reconciliation is left alone by its loop. *)
Lemma tick_in_reconciliation cfg e s o s' r :
  status s = value AWAITING_RECONCILIATION ->
  default_observation_fn cfg e s = Ok o -> tick_session s o = (s', r) -> s' = s.
Proof.
  intros Hs Ho. destruct (router_fields _ _ _ _ Ho) as (Hf & Hc & Hu & Hr).
  rewrite Hs, eqs_refl, andb_false_r in Hr. cbn [andb] in Hr. unfold tick_session, decide_tick_action.
  rewrite Hs, Hf, Hr, Hc, Hu. unfold _forward_dispatch. rewrite !eqs_value. eval_status.
  cbn. by intros [= <- _].
Qed.

Lemma startswith_app p t : startswith p (p ++ t) = true.
Proof. induction p as [|c p IH]; simpl; [done|]. by rewrite Z.eqb_refl. Qed.

Lemma strip_reconcile_prefix t : _strip_tick_reason_prefix (u "reconcile:" ++ t) = t.
Proof.
  unfold _strip_tick_reason_prefix, _TICK_REASON_PREFIXES. cbn [List.find].
  rewrite startswith_app. apply drop_app_length.
Qed.

(** A session that carries a reason and has the edge is sent back into
    reconciliation, whatever else was observed. *)
Lemma tick_stale cfg e s o s' r :
  stripped (awaiting_reconciliation_reason s) <> [] -> status s <> value AWAITING_RECONCILIATION ->
  is_terminal (status s) = false -> is_legal_transition (status s) (value AWAITING_RECONCILIATION) = true ->
  default_observation_fn cfg e s = Ok o -> tick_session s o = (s', r) ->
  s' = set_status (set_reason (set_pre_status s (Some (status s)))
         (Some (stripped (awaiting_reconciliation_reason s)))) (value AWAITING_RECONCILIATION).
Proof.
  intros Hne Hs Ht Hl Ho. destruct (router_fields _ _ _ _ Ho) as (Hf & Hc & Hu & Hr).
  rewrite bool_decide_eq_true_2, Ht in Hr by done. unfold eqs in Hr. rewrite bool_decide_eq_false_2 in Hr by done.
  cbn [andb negb] in Hr. unfold tick_session, decide_tick_action.
  rewrite Ht, Hf, Hr. cbn [nonempty]. unfold _can_reconcile. rewrite Hl.
  destruct (stripped (awaiting_reconciliation_reason s)) as [|c t] eqn:Er; [done|].
  cbn [andb kind to_status act_reason default]. rewrite eqs_refl, transition_to_ar_ok by done.
  rewrite strip_reconcile_prefix. by intros [= <- _].
Qed.

(** ** Everything else that writes the row *)

Inductive request :=
  | R_cancel | R_refund
  | R_reconciliation_retry | R_reconciliation_fail | R_reconciliation_cancel
  | R_reconciliation_refund (nonce : ustr) (verify : Z -> ustr -> bool).

Definition handle (r : request) (db : table) (sid : option Z) (now : Z) : table * Z :=
  match r with
  | R_cancel => dash_anonymize_cancel_session true db sid now
  | R_refund => dash_anonymize_refund_session true db sid now
  | R_reconciliation_retry => _reconciliation_retry db sid now
  | R_reconciliation_fail => _reconciliation_terminal db sid now FAILED false
  | R_reconciliation_cancel => _reconciliation_terminal db sid now CANCELLED true
  | R_reconciliation_refund nonce verify => _reconciliation_refund db sid now nonce verify
  end.

(** [allow]: the requests that may arrive *)
Inductive step_with (allow : request -> Prop) (cfg : anon_settings) (hop : Z -> M HopStepOutcome) (s : AnonymizeSession)
    : AnonymizeSession -> Prop :=
  | st_loop e w f w' f' stop :
      working w = durable w -> row (durable w) = s ->
      loop_tick cfg e (hop (now e)) w f = (w', f', stop) -> step_with allow cfg hop s (row (durable w'))
  | st_wedge t : wedged t (wall_clock_budget_s cfg) s = true -> step_with allow cfg hop s (wedge_row t s).1
  | st_probe t running :
      status s = value AWAITING_RECONCILIATION -> step_with allow cfg hop s (probe_row cfg t running s).1.1
  | st_startup t : is_terminal (status s) = false -> step_with allow cfg hop s (startup_row cfg t s).1
  | st_heuristic t s' ev :
      status s = value AWAITING_RECONCILIATION -> pre_reconciliation_status s = None ->
      heuristic_row t s = Some (s', ev) -> step_with allow cfg hop s (flush t s s')
  | st_request r sid t s' code : allow r -> handle r [s] sid t = ([s'], code) -> step_with allow cfg hop s s'
  | st_liquid_refund t txid s' :
      _finalize_liquid_submarine_refund s txid = Ok s' -> step_with allow cfg hop s (flush t s s').

Abbreviation step := (step_with (fun _ => True)).

(** The ways a step outside the loop changes the columns. *)
Inductive admin (s s' : AnonymizeSession) : Prop :=
  | ad_same :
      status s' = status s -> pre_reconciliation_status s' = pre_reconciliation_status s ->
      awaiting_reconciliation_reason s' = awaiting_reconciliation_reason s -> admin s s'
  | ad_marked r :           (** the transition raised after the columns were written *)
      is_legal_transition (status s) (value AWAITING_RECONCILIATION) = false ->
      status s' = status s -> pre_reconciliation_status s' = Some (status s) ->
      awaiting_reconciliation_reason s' = Some r -> blank r = false -> admin s s'
  | ad_routed r :
      is_terminal (status s) = false -> status s <> value AWAITING_RECONCILIATION -> is_legal_transition (status s) (value AWAITING_RECONCILIATION) = true ->
      status s' = value AWAITING_RECONCILIATION -> pre_reconciliation_status s' = Some (status s) ->
      awaiting_reconciliation_reason s' = Some r -> blank r = false -> admin s s'
  | ad_resumed t :
      status s = value AWAITING_RECONCILIATION -> pre_reconciliation_status s = Some t ->
      is_legal_transition (value AWAITING_RECONCILIATION) t = true -> status s' = t ->
      pre_reconciliation_status s' = pre_reconciliation_status s ->
      awaiting_reconciliation_reason s' = awaiting_reconciliation_reason s -> admin s s'
  | ad_ended st :
      st ∈ [FAILED; CANCELLED; REFUNDING] -> is_legal_transition (status s) (value st) = true ->
      status s' = value st -> pre_reconciliation_status s' = pre_reconciliation_status s ->
      awaiting_reconciliation_reason s' = awaiting_reconciliation_reason s -> admin s s'
  | ad_inferred :
      status s = value AWAITING_RECONCILIATION -> pre_reconciliation_status s = None ->
      status s' = status s -> pre_reconciliation_status s' = Some (value EXITING) ->
      awaiting_reconciliation_reason s' = awaiting_reconciliation_reason s -> admin s s'.

(** The flushed row has the columns of the row. *)
Lemma admin_control s s1 s2 : control s2 = control s1 -> admin s s1 -> admin s s2.
Proof.
  unfold control. intros [= _ _ Es Ep Er _ _ _] H. destruct H.
  - apply ad_same; congruence.
  - eapply ad_marked; eauto; congruence.
  - eapply ad_routed; eauto; congruence.
  - eapply ad_resumed; eauto; congruence.
  - eapply ad_ended; eauto; congruence.
  - apply ad_inferred; congruence.
Qed.

Lemma admin_flush now s s' : admin s s' -> admin s (flush now s s').
Proof. apply admin_control, control_flush. Qed.

(** A fresh entry into reconciliation, or its failure. *)
Lemma entry_admin s reason s' r :
  is_terminal (status s) = false -> status s <> value AWAITING_RECONCILIATION -> blank reason = false ->
  transition_to_awaiting_reconciliation s reason = (s', r) -> admin s s'.
Proof.
  intros Ht Hne Hb. destruct (is_legal_transition (status s) (value AWAITING_RECONCILIATION)) eqn:Hl.
  - rewrite transition_to_ar_ok by done. intros [= <- _]. by eapply ad_routed.
  - unfold transition_to_awaiting_reconciliation. rewrite bool_decide_eq_false_2 by done.
    unfold transition_session, assert_legal_transition. cbn [status set_reason set_pre_status]. rewrite Hl.
    intros [= <- _]. by eapply ad_marked.
Qed.

Lemma ended_admin s st s' :
  st ∈ [FAILED; CANCELLED; REFUNDING] -> transition_session s (value st) = (s', Ok tt) -> admin s s'.
Proof.
  intros Hin. unfold transition_session, assert_legal_transition.
  destruct (is_legal_transition _ _) eqn:Hl; [|done]. case_bool_decide; intros [= <-].
  - by apply ad_same.
  - by eapply ad_ended.
Qed.

Lemma wedge_admin now budget s : wedged now budget s = true -> admin s (wedge_row now s).1.
Proof.
  unfold wedged, wedge_row. intros H. bool_to_prop.
  assert (Hn : mem (status s) (ANONYMIZE_TERMINAL_STATUSES ++ [value AWAITING_RECONCILIATION]) = false) by done.
  unfold mem in Hn. rewrite existsb_app in Hn. apply orb_false_elim in Hn as [Ht Ha].
  simpl in Ha. rewrite orb_false_r in Ha. apply bool_decide_eq_false in Ha.
  destruct (transition_to_awaiting_reconciliation _ _) as [s' r] eqn:T.
  assert (A : admin s s') by (eapply entry_admin; eauto; done).
  destruct r; by apply admin_flush.
Qed.

Lemma startup_admin cfg now s : is_terminal (status s) = false -> admin s (startup_row cfg now s).1.
Proof.
  intros Ht. unfold startup_row. destruct (disposition _) eqn:Hd; [by apply ad_same|].
  unfold eqs. case_bool_decide; [by apply ad_same|].
  destruct (transition_to_awaiting_reconciliation _ _) as [s' r] eqn:T.
  assert (A : admin s s').
  { eapply entry_admin; eauto. revert Hd. unfold classify_session. repeat case_match; done. }
  destruct r; by apply admin_flush.
Qed.

Lemma admin_src s s1 s' :
  status s1 = status s -> pre_reconciliation_status s1 = pre_reconciliation_status s ->
  awaiting_reconciliation_reason s1 = awaiting_reconciliation_reason s -> admin s1 s' -> admin s s'.
Proof.
  intros Es Ep Er H. destruct H.
  - apply ad_same; congruence.
  - eapply ad_marked; eauto; congruence.
  - eapply ad_routed; eauto; congruence.
  - eapply ad_resumed; eauto; congruence.
  - eapply ad_ended; eauto; congruence.
  - apply ad_inferred; congruence.
Qed.

Lemma escalate_admin s cls reason now why s' evs o : _escalate s cls reason now why = (s', evs, o) -> admin s s'.
Proof.
  unfold _escalate. destruct (transition_session s (value FAILED)) as [s1 r] eqn:T. destruct r as [[]|e].
  - intros [= <- _ _]. eapply ended_admin; [|exact T]. set_solver.
  - intros [= <- _ _]. revert T. unfold transition_session. destruct (assert_legal_transition _ _).
    + case_bool_decide; done.
    + intros [= <- _]. by apply ad_same.
Qed.

Lemma attempt_admin cfg now s s' evs o :
  status s = value AWAITING_RECONCILIATION -> attempt_reconciliation cfg now s = (s', evs, Ok o) -> admin s s'.
Proof.
  intros Hs. unfold attempt_reconciliation. cbn zeta.
  destruct (classify_reason _) eqn:Hc; [| |intros [= <- _ _]; by apply ad_same].
  all: match goal with |- context [_escalate ?x _ _ _ _] => set (s1 := x) end.
  all: assert (Hesc : forall why ev, (let '(s2, evs, o) := _escalate s1 (classify_reason (Some (stripped (awaiting_reconciliation_reason s))))
         (stripped (awaiting_reconciliation_reason s)) now why in (s2, ev :: evs, Ok o)) = (s', evs, Ok o) -> admin s s').
  1, 3: intros why ev; destruct (_escalate _ _ _ _ _) as [[s2 evs'] o'] eqn:Ee; intros [= <- _ _];
    apply (admin_src s s1); [done..|]; by eapply escalate_admin.
  all: rewrite Hc in Hesc.
  all: destruct (_ <? _); [apply Hesc|].
  all: cbn [pre_reconciliation_status s1 set_last_attempt set_attempts].
  all: destruct (pre_reconciliation_status s) as [[|c t]|] eqn:Hp; try apply Hesc.
  all: destruct (is_legal_transition (value AWAITING_RECONCILIATION) (c :: t)) eqn:Hl; [|apply Hesc].
  all: destruct (transition_session s1 (c :: t)) as [s2 r] eqn:T; destruct r; [|done]; intros [= <- _ _].
  all: revert T; unfold transition_session, assert_legal_transition.
  all: replace (status s1) with (value AWAITING_RECONCILIATION) by done; rewrite Hl.
  all: case_bool_decide as E; intros [= <-].
  1, 3: apply ad_same; done.
  all: apply (ad_resumed s _ (c :: t)); try done.
Qed.

Lemma probe_admin cfg now running s :
  status s = value AWAITING_RECONCILIATION -> admin s (probe_row cfg now running s).1.1.
Proof.
  intros Hs. unfold probe_row. destruct (is_in_cooldown _ _ _); [by apply ad_same|].
  destruct (attempt_reconciliation cfg now s) as [[s' evs] [o|e]] eqn:A; [|by apply ad_same].
  apply admin_flush. by eapply attempt_admin.
Qed.

Lemma heuristic_admin now s s' ev :
  status s = value AWAITING_RECONCILIATION -> pre_reconciliation_status s = None ->
  heuristic_row now s = Some (s', ev) -> admin s s'.
Proof.
  intros Hs Hp. unfold heuristic_row, heuristic_pre_status_for.
  destruct (awaiting_reconciliation_reason s) as [[|c t]|] eqn:Hr; try done.
  cbn [_PRE_STATUS_HEURISTIC assoc]. case_bool_decide; [|done].
  destruct (is_legal_transition _ _); [|done]. intros [= <- _]. apply ad_inferred; try done.
Qed.

Lemma liquid_refund_admin s txid s' : _finalize_liquid_submarine_refund s txid = Ok s' -> admin s s'.
Proof.
  unfold _finalize_liquid_submarine_refund. destruct (or_dict _); try done. cbn zeta. intros [= <-].
  match goal with |- context [transition_session ?x _] => set (s1 := x) end.
  apply (admin_src s s1); [done..|]. destruct (transition_session s1 (value FAILED)) as [s2 [[]|e]] eqn:T; cbn [fst].
  - eapply ended_admin; [|exact T]. set_solver.
  - revert T. unfold transition_session. destruct (assert_legal_transition _ _); [case_bool_decide; done|].
    intros [= <- _]. by apply ad_same.
Qed.

(** On a one-row table a request reaches that row or none. *)
Lemma with_session_one s sid k t c :
  with_session [s] sid k = (t, c) -> k s = (t, c) \/ t = [s].
Proof.
  unfold with_session, find_session. destruct sid as [i|]; [|intros [= <- _]; by right].
  cbn [List.find]. destruct (_ && _); [by left|]. intros [= <- _]. by right.
Qed.

Lemma put_one s s' : session_id s' = session_id s -> put [s] s' = [s'].
Proof. intros E. unfold put. cbn [map]. by rewrite E, Z.eqb_refl. Qed.

Lemma session_id_transition s to s' r : transition_session s to = (s', r) -> session_id s' = session_id s.
Proof.
  unfold transition_session. destruct (assert_legal_transition _ _); [case_bool_decide|]; by intros [= <- _].
Qed.

Lemma request_ended s now st s' c :
  st ∈ [FAILED; CANCELLED; REFUNDING] ->
  match transition_session s (value st) with
  | (_, Err _) => ([s], 409)
  | (s1, Ok _) => (put [s] (flush now s s1), 200)
  end = ([s'], c) -> admin s s'.
Proof.
  intros Hin. destruct (transition_session s (value st)) as [s1 r] eqn:T.
  destruct r as [[]|e]; [|intros [= <- _]; by apply ad_same].
  rewrite put_one by (rewrite session_id_flush; by eapply session_id_transition).
  intros [= <- _]. apply admin_flush. by eapply ended_admin.
Qed.

Lemma request_admin r s sid now s' c : handle r [s] sid now = ([s'], c) -> admin s s'.
Proof.
  assert (Hsame : [s] = [s'] -> admin s s') by (intros [= <-]; by apply ad_same).
  destruct r; cbn [handle]; unfold dash_anonymize_cancel_session, dash_anonymize_refund_session; cbn [negb].
  - intros H. apply with_session_one in H as [H|H]; [|auto]. eapply request_ended; [|exact H]. set_solver.
  - intros H. apply with_session_one in H as [H|H]; [|auto]. eapply request_ended; [|exact H]. set_solver.
  - intros H. apply with_session_one in H as [H|H]; [|auto]. revert H. unfold in_reconciliation, eqs.
    case_bool_decide as Hs; [|intros [= <- _]; auto].
    destruct (pre_reconciliation_status s) as [[|x t]|] eqn:Hp; try (intros [= <- _]; auto; fail).
    destruct (transition_session s (x :: t)) as [s1 [[]|e]] eqn:T; [|intros [= <- _]; auto].
    rewrite put_one by (rewrite session_id_flush; simpl; by eapply session_id_transition).
    intros [= <- _]. apply admin_flush. revert T. unfold transition_session, assert_legal_transition.
    destruct (is_legal_transition _ _) eqn:Hl; [|done].
    rewrite Hs in *. case_bool_decide; intros [= <-]; [by apply ad_same|].
    apply (ad_resumed s _ (x :: t)); done.
  - intros H. apply with_session_one in H as [H|H]; [|auto]. revert H. unfold in_reconciliation.
    destruct (eqs _ _); [|intros [= <- _]; auto]. cbn [andb]. intros H. eapply request_ended; [|exact H]. set_solver.
  - intros H. apply with_session_one in H as [H|H]; [|auto]. revert H. unfold in_reconciliation.
    destruct (eqs _ _); [|intros [= <- _]; auto]. destruct (_ && _); [intros [= <- _]; auto|].
    intros H. eapply request_ended; [|exact H]. set_solver.
  - unfold _reconciliation_refund. destruct sid as [i|]; [|intros [= <- _]; auto].
    destruct (strip nonce); [intros [= <- _]; auto|].
    intros H. apply with_session_one in H as [H|H]; [|auto]. revert H. unfold in_reconciliation.
    destruct (eqs _ _); [|intros [= <- _]; auto]. destruct (negb _); [intros [= <- _]; auto|].
    intros H. eapply request_ended; [|exact H]. set_solver.
Qed.

(** None of them touches what identifies the session, nor its exit. *)
Definition fixed (s : AnonymizeSession) := (session_id s, source_kind s, deleted_at s, exit_of s).

Lemma fixed_flush now s s' : fixed (flush now s s') = fixed s'.
Proof. by destruct (flush_cases now s s') as [->| ->]. Qed.

Lemma fixed_transition s to : fixed (transition_session s to).1 = fixed s.
Proof. unfold transition_session. destruct (assert_legal_transition _ _); [case_bool_decide|]; done. Qed.

Lemma fixed_entry s r : fixed (transition_to_awaiting_reconciliation s r).1 = fixed s.
Proof.
  unfold transition_to_awaiting_reconciliation. case_bool_decide; [done|]. by rewrite fixed_transition.
Qed.

Lemma fixed_wedge now s : fixed (wedge_row now s).1 = fixed s.
Proof.
  unfold wedge_row. pose proof (fixed_entry s (u "wall_clock_budget_exceeded")) as H.
  destruct (transition_to_awaiting_reconciliation _ _) as [s' [?|?]]; cbn [fst] in *; by rewrite fixed_flush.
Qed.

Lemma fixed_startup cfg now s : fixed (startup_row cfg now s).1 = fixed s.
Proof.
  unfold startup_row. destruct (disposition _); [done|]. destruct (eqs _ _); [done|].
  pose proof (fixed_entry s (ro_reason (classify_session cfg now s))) as H.
  destruct (transition_to_awaiting_reconciliation _ _) as [s' [?|?]]; cbn [fst] in *; by rewrite fixed_flush.
Qed.

Lemma fixed_escalate s cls reason now why : fixed (_escalate s cls reason now why).1.1 = fixed s.
Proof.
  unfold _escalate. pose proof (fixed_transition s (value FAILED)) as H.
  by destruct (transition_session _ _) as [s' [?|?]].
Qed.

Lemma fixed_attempt cfg now s : fixed (attempt_reconciliation cfg now s).1.1 = fixed s.
Proof.
  assert (H : forall x cls r why, fixed x = fixed s -> forall ev (f : AttemptOutcome -> result AttemptOutcome),
    fixed (let '(s', evs, o) := _escalate x cls r now why in (s', ev :: evs, f o)).1.1 = fixed s).
  { intros x cls r why E ev f. pose proof (fixed_escalate x cls r now why) as H.
    destruct (_escalate _ _ _ _ _) as [[s' evs] o]. simpl in *. congruence. }
  unfold attempt_reconciliation. cbn zeta. destruct (classify_reason _); [| |done].
  all: destruct (_ <? _); [by apply H|].
  all: cbn [pre_reconciliation_status set_last_attempt set_attempts].
  all: destruct (pre_reconciliation_status s) as [[|c t]|]; try by apply H.
  all: destruct (is_legal_transition _ _); [|by apply H].
  all: pose proof (fixed_transition (set_last_attempt (set_attempts s (reconciliation_attempts s + 1)) (Some now)) (c :: t)) as E.
  all: by destruct (transition_session _ _) as [s' [?|?]].
Qed.

Lemma fixed_probe cfg now running s : fixed (probe_row cfg now running s).1.1 = fixed s.
Proof.
  unfold probe_row. destruct (is_in_cooldown _ _ _); [done|]. pose proof (fixed_attempt cfg now s) as E.
  destruct (attempt_reconciliation cfg now s) as [[s' evs] [o|x]]; [|done]. cbn [fst] in *. by rewrite fixed_flush.
Qed.

Lemma fixed_heuristic now s s' ev : heuristic_row now s = Some (s', ev) -> fixed s' = fixed s.
Proof.
  unfold heuristic_row. destruct (heuristic_pre_status_for _); [|done]. destruct (is_legal_transition _ _); [|done].
  by intros [= <- _].
Qed.

Lemma fixed_ended s now to s' c (g : AnonymizeSession -> AnonymizeSession) :
  (forall x, fixed (g x) = fixed x) ->
  match transition_session s to with
  | (_, Err _) => ([s], 409)
  | (s1, Ok _) => (put [s] (flush now s (g s1)), 200)
  end = ([s'], c) -> fixed s' = fixed s.
Proof.
  intros Hg. pose proof (fixed_transition s to) as E. destruct (transition_session s to) as [s1 [?|?]]; cbn [fst] in E.
  - rewrite put_one; [intros [= <- _]; by rewrite fixed_flush, Hg|].
    assert (Hf : fixed (flush now s (g s1)) = fixed s) by (by rewrite fixed_flush, Hg).
    unfold fixed in Hf. congruence.
  - by intros [= <- _].
Qed.

Lemma fixed_request r s sid now s' c : handle r [s] sid now = ([s'], c) -> fixed s' = fixed s.
Proof.
  assert (Hsame : forall l c', l = [s] -> (l, c') = ([s'], c) -> fixed s' = fixed s) by (intros ? ? ->; by intros [= <- _]).
  assert (Hid : forall now to, match transition_session s to with
    | (_, Err _) => ([s], 409) | (s1, Ok _) => (put [s] (flush now s s1), 200) end = ([s'], c) -> fixed s' = fixed s)
    by (intros now' to; by apply (fixed_ended s now' to s' c (fun x => x))).
  destruct r; cbn [handle]; unfold dash_anonymize_cancel_session, dash_anonymize_refund_session; cbn [negb].
  6: unfold _reconciliation_refund; destruct sid as [i|]; [|by apply Hsame]; destruct (strip nonce); [by apply Hsame|].
  all: intros H; apply with_session_one in H as [H|H]; [|by injection H as <-].
  all: revert H; unfold in_reconciliation; try (destruct (eqs _ _); [|by apply Hsame]).
  - apply Hid.
  - apply Hid.
  - destruct (pre_reconciliation_status s) as [[|x t]|]; try by apply Hsame.
    by apply (fixed_ended s now (x :: t) s' c (fun x => set_last_attempt (set_attempts x 0) None)).
  - apply Hid.
  - destruct (_ && _); [by apply Hsame|apply Hid].
  - destruct (negb _); [by apply Hsame|apply Hid].
Qed.

Lemma fixed_liquid_refund s txid s' : _finalize_liquid_submarine_refund s txid = Ok s' -> fixed s' = fixed s.
Proof.
  unfold _finalize_liquid_submarine_refund. destruct (or_dict _) as [| | | | |pj] eqn:Hpj; try done. cbn zeta. intros [= <-].
  rewrite fixed_transition. unfold fixed. f_equal. rewrite <- (exit_update (fun pj => dset pj (u "liquid_submarine_refund_txid") (JStr txid)) s pj); [done| |done].
  intros d. by rewrite assoc_dset_ne.
Qed.

(** ** Steps as effects *)

Inductive effect (cfg : anon_settings) (s s' : AnonymizeSession) : Prop :=
  | ef_loop e : loop_effect cfg e s s' -> effect cfg s s'
  | ef_admin : fixed s' = fixed s -> admin s s' -> effect cfg s s'.

Lemma step_effect allow cfg hop s s' : (forall t, HopBody (hop t)) -> step_with allow cfg hop s s' -> effect cfg s s'.
Proof.
  intros Hhop H. destruct H.
  - apply (ef_loop _ _ _ e). subst s. eapply loop_tick_effect; [done| |done].
    intros w1 o Hh. by eapply hop_moves.
  - apply ef_admin; [apply fixed_wedge|by eapply wedge_admin].
  - apply ef_admin; [apply fixed_probe|by apply probe_admin].
  - apply ef_admin; [apply fixed_startup|by apply startup_admin].
  - apply ef_admin; [rewrite fixed_flush; by eapply fixed_heuristic|apply admin_flush; by eapply heuristic_admin].
  - apply ef_admin; [by eapply fixed_request|by eapply request_admin].
  - apply ef_admin; [rewrite fixed_flush; by eapply fixed_liquid_refund|apply admin_flush; by eapply liquid_refund_admin].
Qed.

Lemma moved_status s s' :
  moved s s' -> status s' = status s \/
  (status s' = value AWAITING_RECONCILIATION /\
   is_legal_transition (status s) (value AWAITING_RECONCILIATION) = true) \/
  (pays_offer s /\ exists st, st ∈ [COMPLETED; FAILED] /\ status s' = value st).
Proof.
  intros [E|[(r & _ & Hl & _ & E)|(Hp & st & Hin & E)]]; apply control_status in E; auto.
  right. right. split; [done|]. by exists st.
Qed.

Lemma moved_exit s s' : moved s s' -> exit_of s' = exit_of s.
Proof.
  assert (H : forall x y, control x = control y -> exit_of x = exit_of y) by (unfold control; congruence).
  intros [E|[(r & _ & _ & _ & E)|(_ & st & _ & E)]]; by rewrite (H _ _ E).
Qed.

Lemma parked_status s s' : parked s s' -> status s' = value AWAITING_RECONCILIATION.
Proof.
  intros [[_ Hl] E]. apply control_status in E. rewrite E.
  destruct (decide (status s = value AWAITING_RECONCILIATION)) as [Ea|Ea].
  - unfold transition_to_awaiting_reconciliation. by rewrite bool_decide_eq_true_2.
  - by rewrite transition_to_ar_ok.
Qed.

Lemma legal_refl v : is_legal_transition v v = true.
Proof. unfold is_legal_transition. by rewrite bool_decide_eq_true_2. Qed.

Lemma legal_known v w : known v -> is_legal_transition v w = true -> known w.
Proof.
  intros Hv. unfold is_legal_transition. rewrite orb_true_iff. intros [E|E].
  - bool_to_prop. by subst.
  - apply mem_elem in E. by apply legal_next_known in E as [_ ?].
Qed.

Lemma terminal_final v w : is_terminal v = true -> is_legal_transition v w = true -> w = v.
Proof.
  intros Ht. unfold is_legal_transition. rewrite orb_true_iff. intros [E|E]; [by bool_to_prop|].
  apply mem_elem in Ht. unfold ANONYMIZE_TERMINAL_STATUSES in Ht.
  apply list_elem_of_fmap in Ht as (st & -> & Hin). rewrite legal_next_value in E.
  assert (edges st = []) as E0 by (revert Hin; destruct st; set_solver). by rewrite E0 in E.
Qed.

(** A step of the graph, or the one the BOLT 12 exit takes outside it. *)
Definition orchestrated (ek : result ustr) (v w : ustr) : Prop :=
  is_legal_transition v w = true \/ (ek = Ok (u "bolt12_pay") /\ v = value EXITING /\ w = value COMPLETED).

(** A body that has ended the session leaves nothing to the tick. *)
Lemma ended_legal s st :
  pays_offer s -> st ∈ [COMPLETED; FAILED] -> orchestrated (exit_of s) (status s) (value st).
Proof.
  intros [Hs Hk] Hin. unfold orchestrated. rewrite Hs, Hk. apply elem_of_cons in Hin as [->|Hin]; [by right|].
  apply list_elem_of_singleton in Hin as ->. by left.
Qed.

Lemma ended_terminal st : st ∈ [COMPLETED; FAILED] -> edges st = [] /\ is_terminal (value st) = true.
Proof. intros [->|[->|H%elem_of_nil]%elem_of_cons]%elem_of_cons; done. Qed.

Lemma effect_legal cfg s s' :
  known (status s) -> effect cfg s s' -> orchestrated (exit_of s) (status s) (status s').
Proof.
  intros [st Hst] [e [Hm|s1 Hm Hp|s1 obs s2 a Hm Ho Ht Hc]|_ Ha].
  - destruct (moved_status _ _ Hm) as [->|[[-> Hl]|(Hp & st' & Hin & ->)]]; [left; apply legal_refl|by left|by apply ended_legal].
  - rewrite (parked_status _ _ Hp). destruct Hp as [[Ht Hl] _].
    destruct (moved_status _ _ Hm) as [E|[[_ Hl']|(_ & st' & Hin & E)]]; [left; by rewrite E in Hl|by left|].
    rewrite E, (proj2 (ended_terminal st' Hin)) in Ht. done.
  - apply control_status in Hc. destruct (moved_status _ _ Hm) as [E|[[E Hl]|(Hp & st' & Hin & E)]].
    + left. destruct (tick_known s1 st obs) as (s3 & a' & st' & T & Hs3 & Hl & _ & _); [congruence|].
      rewrite T in Ht. injection Ht as <- _. congruence.
    + left. assert (s2 = s1) as -> by (by eapply tick_in_reconciliation). congruence.
    + destruct (tick_known s1 st' obs E) as (s3 & a' & st3 & T & _ & _ & Hterm & _).
      rewrite T in Ht. injection Ht as <- _. rewrite Hterm in Hc by (by apply ended_terminal).
      rewrite Hc, E. by apply ended_legal.
  - left. destruct Ha; try congruence; try (replace (status s') with (status s) by done; apply legal_refl).
Qed.

Lemma effect_exit cfg s s' : known (status s) -> effect cfg s s' -> exit_of s' = exit_of s.
Proof.
  assert (Hx : forall x y, control x = control y -> exit_of x = exit_of y) by (unfold control; congruence).
  assert (Hf : forall x y, fixed x = fixed y -> exit_of x = exit_of y) by (unfold fixed; congruence).
  intros [st Hst] [e [Hm|s1 Hm [_ Hp]|s1 obs s2 a Hm Ho Ht Hc]|Ha _].
  - by apply moved_exit.
  - rewrite (Hx _ _ Hp), (Hf _ _ (fixed_entry _ _)). by apply moved_exit.
  - rewrite (Hx _ _ Hc). rewrite <- (moved_exit _ _ Hm).
    assert (exists st1, status s1 = value st1) as [st1 Hs1].
    { destruct (moved_status _ _ Hm) as [E|[[E _]|(_ & st' & _ & E)]]; rewrite E; eauto. }
    destruct (tick_known s1 st1 obs Hs1) as (s3 & a' & st3 & T & _ & _ & _ & _ & Hshape).
    rewrite T in Ht. injection Ht as <- _. destruct Hshape as [->|[[-> _]|(r & -> & _)]]; [done|done|].
    by apply Hf, fixed_entry.
  - by apply Hf.
Qed.

Lemma orchestrated_known ek v w : known v -> orchestrated ek v w -> known w.
Proof. intros Hv [Hl|(_ & _ & ->)]; [by eapply legal_known|by exists COMPLETED]. Qed.

Lemma orchestrated_terminal ek v w : is_terminal v = true -> orchestrated ek v w -> w = v.
Proof. intros Ht [Hl|(_ & -> & _)]; [by apply terminal_final|done]. Qed.


(** ** A concrete run *)

(** One iteration of the loop of [hop] on a row, at time [t]. *)
Definition demo_loop (cfg : anon_settings) (hop : Z -> M HopStepOutcome) (t : Z) (s : AnonymizeSession) : AnonymizeSession :=
  row (durable (loop_tick cfg (mkEnv t None 0) (hop t) (mkWorld (mkStore s []) (mkStore s []) [] 9) 0).1.1).

Lemma demo_loop_step cfg hop t s : step cfg hop s (demo_loop cfg hop t s).
Proof.
  unfold demo_loop. destruct (loop_tick _ _ _ _ _) as [[w' f'] stop] eqn:E. cbn [fst].
  by apply (st_loop _ cfg hop s (mkEnv t None 0) (mkWorld (mkStore s []) (mkStore s []) [] 9) 0 w' f' stop).
Qed.

(** A session that pays an offer is completed by the tick that pays it, and
    a request to cancel it comes too late. *)
Definition demo_offer_bodies (t : Z) : hop_bodies :=
  mkBodies demo_rev_settings demo_reverse None demo_submarine demo_self_pay
    (mkB12 (fun _ => (Some (mkPay (u "paid") (u "00ff") None None), None))).

Definition demo_offer : AnonymizeSession :=
  demo_session EXITING LIGHTNING_SELF
    (JDict [(u "exit", JDict [(u "kind", JStr (u "bolt12_pay")); (u "bolt12_offer", JStr (u "lno1"))])]).

Definition demo_offer_hop (t : Z) : M HopStepOutcome := default_hop_step_fn (demo_offer_bodies t) t.

Definition demo_offer_paid : AnonymizeSession := demo_loop default_settings demo_offer_hop 1 demo_offer.

Definition demo_cancelled : AnonymizeSession :=
  match handle R_cancel [demo_offer_paid] (Some (session_id demo_offer_paid)) 2 with
  | ([s], _) => s
  | _ => demo_offer
  end.

