(* ===== verification/AnonRecovery.v ===== *)
(** * Anonymize sessions: what reconciliation achieves

    Consequences of the step relation of [AnonSafety] for sessions that
    enter reconciliation, for sessions funded on chain, and for sessions
    that wait longer than the wedge detector's budget; and the bounds of the
    retry budget and of the backoff. *)
From S2P Require Import Prelude Bytes PyInt Utf8 Json PyJson AnonState AnonTick AnonProbe HopLog AnonHops.
From S2P Require Import HopLogic HopSafety AnonReverse ReverseSafety AnonLoop AnonSafety.

(** ** Stripping *)

Definition has_ink (s : ustr) : Prop := exists c, c ∈ s /\ py_isspace c = false.

Lemma lstrip_ink s c : py_isspace c = false -> c ∈ lstrip s <-> c ∈ s.
Proof.
  intros Hc. induction s as [|d s IH]; simpl; [done|].
  destruct (py_isspace d) eqn:Hd; [|done]. rewrite elem_of_cons, IH. naive_solver congruence.
Qed.

Lemma lstrip_nonempty s : lstrip s <> [] -> has_ink s.
Proof.
  induction s as [|d s IH]; simpl; [done|]. destruct (py_isspace d) eqn:Hd.
  - intros H. destruct (IH H) as (c & ? & ?). exists c. set_solver.
  - intros _. exists d. set_solver.
Qed.

Lemma strip_same_ink s c : py_isspace c = false -> c ∈ strip s <-> c ∈ s.
Proof. intros Hc. unfold strip. by rewrite elem_of_reverse, lstrip_ink, elem_of_reverse, lstrip_ink. Qed.

Lemma strip_ink s : strip s <> [] <-> has_ink s.
Proof.
  split.
  - intros H. assert (Hl : lstrip (reverse (lstrip s)) <> []).
    { intros E. apply H. unfold strip. by rewrite E. }
    apply lstrip_nonempty in Hl as (c & Hin & Hc). exists c. split; [|done].
    rewrite elem_of_reverse, lstrip_ink in Hin; done.
  - intros (c & Hin & Hc) E. apply (strip_same_ink s c Hc) in Hin. rewrite E in Hin. by apply elem_of_nil in Hin.
Qed.

Lemma strip_keeps_ink s : has_ink s -> has_ink (strip s).
Proof. intros (c & Hin & Hc). exists c. by rewrite strip_same_ink. Qed.

Lemma blank_false s : blank s = false <-> has_ink s.
Proof. unfold blank. rewrite bool_decide_eq_false. apply strip_ink. Qed.

(** ** Sessions that carry a reason *)

(** Known and not one of the two successful endings. *)
Definition unfinished (v : ustr) : Prop :=
  exists st, v = value st /\ st <> COMPLETED /\ st <> COMPLETED_WITH_REORG_UNCERTAINTY.

Definition stale (s : AnonymizeSession) : Prop :=
  (exists r, awaiting_reconciliation_reason s = Some r /\ blank r = false) /\
  unfinished (status s) /\ (forall t, pre_reconciliation_status s = Some t -> unfinished t).

Lemma stale_control s s' : control s' = control s -> stale s -> stale s'.
Proof. unfold control. intros [= _ _ Es Ep Er _ _ _] H. unfold stale. by rewrite Es, Ep, Er. Qed.

Lemma unfinished_ar : unfinished (value AWAITING_RECONCILIATION).
Proof. by exists AWAITING_RECONCILIATION. Qed.

Lemma stale_entry s r : blank r = false -> unfinished (status s) ->
  stale (set_status (set_reason (set_pre_status s (Some (status s))) (Some r)) (value AWAITING_RECONCILIATION)).
Proof.
  intros Hb Hu. split; [by exists r|]. split; [exact unfinished_ar|]. by intros t [= <-].
Qed.

Lemma stale_moved s s' : exit_of s <> Ok (u "bolt12_pay") -> stale s -> moved s s' -> stale s'.
Proof.
  intros Hx Hs [E|[(r & Hb & _ & _ & E)|[[_ Hp] _]]]; [by eapply stale_control| |done].
  refine (stale_control _ _ _ (stale_entry s r Hb (proj1 (proj2 Hs)))). exact E.
Qed.

Lemma stale_parked s s' : stale s -> parked s s' -> stale s'.
Proof.
  intros Hs [[_ Hl] E]. eapply stale_control; [exact E|].
  destruct (decide (status s = value AWAITING_RECONCILIATION)) as [Ea|Ea].
  - unfold transition_to_awaiting_reconciliation. rewrite bool_decide_eq_true_2 by done.
    split; [by eexists|]. exact (proj2 Hs).
  - rewrite transition_to_ar_ok by done. apply stale_entry; [done|exact (proj1 (proj2 Hs))].
Qed.

(** The two live statuses without an edge into reconciliation. *)
Lemma no_edge_cases st :
  edges st <> [] -> is_legal_transition (value st) (value AWAITING_RECONCILIATION) = false ->
  st = CREATED \/ st = AWAITING_CHANNEL_CLOSE.
Proof. rewrite legal_value. destruct st; cbn; auto; done. Qed.

Lemma tick_channel_close cfg e s o s' r :
  status s = value AWAITING_CHANNEL_CLOSE ->
  default_observation_fn cfg e s = Ok o -> tick_session s o = (s', r) -> s' = s.
Proof.
  intros Hs Ho. destruct (router_fields _ _ _ _ Ho) as (Hf & Hc & Hu & _).
  unfold tick_session, decide_tick_action. rewrite Hs, Hf, Hc, Hu.
  unfold _can_reconcile, _forward_dispatch. rewrite legal_value, !eqs_value. eval_status.
  rewrite andb_false_r. cbn. by intros [= <- _].
Qed.

Lemma stale_tick cfg e s o s' a :
  stale s -> default_observation_fn cfg e s = Ok o -> tick_session s o = (s', Ok a) -> stale s'.
Proof.
  intros Hs Ho Ht. pose proof Hs as ((r & Hr & Hb) & (st & Hst & Hc1 & Hc2) & Hp).
  destruct (tick_known s st o Hst) as (s2 & a2 & st' & T & Hs2 & Hl & Hterm & _ & Hshape).
  assert (s2 = s') as -> by congruence.
  destruct (decide (st = AWAITING_RECONCILIATION)) as [->|Har].
  { by rewrite (tick_in_reconciliation cfg e s o s' (Ok a)). }
  destruct (decide (edges st = [])) as [E|E]; [by rewrite Hterm|].
  destruct (is_legal_transition (value st) (value AWAITING_RECONCILIATION)) eqn:Hlar.
  - rewrite (tick_stale cfg e s o s' (Ok a)); rewrite ?Hst; try done.
    + rewrite <- Hst, Hr. apply stale_entry; [|exact (proj1 (proj2 Hs))]. apply blank_false, strip_keeps_ink. by apply blank_false.
    + rewrite Hr. apply strip_ink. by apply blank_false.
    + by intros ?%value_inj.
    + rewrite is_terminal_value. by apply bool_decide_eq_false_2.
  - destruct (no_edge_cases st E Hlar) as [-> | ->]; [|by rewrite (tick_channel_close cfg e s o s' (Ok a))].
    destruct Hshape as [->|[[-> Hne]|(r' & _ & ->)]]; [done| |by rewrite legal_value in Hl].
    split; [by exists r|]. split; [|exact Hp]. exists st'. split; [done|].
    rewrite legal_value in Hl. by destruct st'.
Qed.

Lemma stale_admin s s' : stale s -> admin s s' -> stale s'.
Proof.
  intros (Hr & Hu & Hp) Ha. destruct Ha as [Es Ep Er|r _ Es Ep Er Hb|r _ _ _ Es Ep Er Hb|t _ Et _ Es Ep Er
    |st Hin _ Es Ep Er|_ _ Es Ep Er]; unfold stale; rewrite Es, Ep, Er.
  - done.
  - split; [by exists r|]. split; [done|]. by intros t [= <-].
  - split; [by exists r|]. split; [exact unfinished_ar|]. by intros t [= <-].
  - split; [done|]. split; [auto|done].
  - split; [done|]. split; [|done]. exists st. split; [done|]. set_solver.
  - split; [done|]. split; [done|]. intros t [= <-]. by exists EXITING.
Qed.

Lemma stale_effect cfg s s' : exit_of s <> Ok (u "bolt12_pay") -> stale s -> effect cfg s s' -> stale s'.
Proof.
  intros Hx Hs [e [Hm|s1 Hm Hp|s1 obs s2 a Hm Ho Ht Hc]|_ Ha].
  - by eapply stale_moved.
  - eapply stale_parked; [|done]. by eapply stale_moved.
  - eapply stale_control; [exact Hc|]. eapply stale_tick; [|done|done]. by eapply stale_moved.
  - by eapply stale_admin.
Qed.

(** C39. The reason a session was parked with is never cleared, and the
    router turns a recorded reason into a request for reconciliation before
    any progress is looked at. So a session whose exit is not bolt12_pay and
    that has been in reconciliation with a reason never completes any more,
    however often the probe or an operator resumes it and whatever the bodies
    the dispatcher runs achieve. The Liquid body is assumed to keep the
    contract of bodies. *)
Theorem reconciled_never_completes cfg b s s' :
  (forall t l, liquid_body (b t) = Some l -> HopBody l) ->
  exit_of s <> Ok (u "bolt12_pay") -> stale s ->
  rtc (step cfg (fun t => default_hop_step_fn (b t) t)) s s' ->
  stale s' /\ status s' <> value COMPLETED /\ status s' <> value COMPLETED_WITH_REORG_UNCERTAINTY.
Proof.
  intros Hl Hx Hs R.
  assert (H : stale s').
  { induction R as [s|s s1 s2 Hst _ IH]; [done|].
    apply step_effect in Hst; [|intros t; apply dispatch_HopBody, Hl]. apply IH; [|by eapply stale_effect].
    destruct Hs as (_ & (st & Es & _) & _). rewrite (effect_exit cfg s s1); [done|by exists st|done]. }
  split; [done|]. destruct H as (_ & (st & -> & H1 & H2) & _). split; by intros ?%value_inj.
Qed.

(** A session parked while confirming, with its transaction six deep: the
    probe resumes it, and its first tick parks it again. *)
Definition demo_confirming : AnonymizeSession :=
  set_status (set_reason (set_pre_status (demo_session CONFIRMING LIGHTNING_SELF (JDict [])) (Some (value CONFIRMING)))
    (Some (u "wall_clock_budget_exceeded"))) (value AWAITING_RECONCILIATION).

Definition demo_resumed : AnonymizeSession := (probe_row default_settings 1 (fun _ => false) demo_confirming).1.1.

Definition demo_bounced : AnonymizeSession :=
  demo_loop default_settings demo_offer_hop 2 demo_resumed.

Lemma reconciled_never_completes_witness :
  status demo_resumed = value CONFIRMING /\ status demo_bounced = value AWAITING_RECONCILIATION /\ stale demo_bounced.
Proof.
  split; [vm_compute; reflexivity|]. split; [vm_compute; reflexivity|].
  apply (reconciled_never_completes default_settings demo_offer_bodies demo_confirming).
  - intros t l [=].
  - done.
  - split; [exists (u "wall_clock_budget_exceeded"); done|]. split; [exact unfinished_ar|].
    intros t [= <-]. by exists CONFIRMING.
  - eapply rtc_l; [by apply (st_probe _ _ _ _ 1 (fun _ => false))|]. apply rtc_once. apply (demo_loop_step _ _ 2).
Defined.

(** The exception: parked on its way out and resumed by the probe, a session
    that pays an offer is completed by its next tick, reason and all. *)
Definition demo_offer_parked : AnonymizeSession :=
  set_status (set_reason (set_pre_status demo_offer (Some (value EXITING))) (Some (u "wall_clock_budget_exceeded")))
    (value AWAITING_RECONCILIATION).

Example parked_offer_completes :
  let resumed := (probe_row default_settings 1 (fun _ => false) demo_offer_parked).1.1 in
  let ended := demo_loop default_settings demo_offer_hop 2 resumed in
  status resumed = value EXITING /\ status ended = value COMPLETED /\
  awaiting_reconciliation_reason ended = Some (u "wall_clock_budget_exceeded").
Proof. vm_compute. done. Qed.

(** ** Sessions funded on chain *)

Definition limbo_statuses : list AnonymizeStatus :=
  [CREATED; SOURCING; AWAITING_RECONCILIATION; REFUNDING; CANCELLED; FAILED].
Definition limbo_pre : list AnonymizeStatus := [CREATED; SOURCING; REFUNDING; CANCELLED; FAILED].

(** An on-chain session that has not got past SOURCING. *)
Definition limbo (s : AnonymizeSession) : Prop :=
  is_onchain (source_kind s) = true /\
  (exists st, status s = value st /\ st ∈ limbo_statuses /\
     (st = AWAITING_RECONCILIATION -> pre_reconciliation_status s <> None)) /\
  (forall t, pre_reconciliation_status s = Some t -> exists st, t = value st /\ st ∈ limbo_pre).

Lemma limbo_control s s' : control s' = control s -> limbo s -> limbo s'.
Proof. unfold control. intros [= _ Eo Es Ep _ _ _ _] H. unfold limbo. by rewrite Eo, Es, Ep. Qed.

(** The statuses of limbo with an edge into reconciliation. *)
Lemma limbo_edge st :
  st ∈ limbo_statuses -> is_legal_transition (value st) (value AWAITING_RECONCILIATION) = true ->
  st <> AWAITING_RECONCILIATION -> st ∈ limbo_pre.
Proof. rewrite legal_value. destruct st; cbn; set_solver. Qed.

Lemma limbo_entry s r :
  limbo s -> is_legal_transition (status s) (value AWAITING_RECONCILIATION) = true ->
  status s <> value AWAITING_RECONCILIATION ->
  limbo (set_status (set_reason (set_pre_status s (Some (status s))) (Some r)) (value AWAITING_RECONCILIATION)).
Proof.
  intros (Ho & (st & Hst & Hin & _) & _) Hl Hne. split; [done|]. split.
  - exists AWAITING_RECONCILIATION. split; [done|]. split; [unfold limbo_statuses; set_solver|done].
  - intros t [= <-]. exists st. split; [done|]. rewrite Hst in *. apply limbo_edge; [done|done|]. by intros ->.
Qed.

Lemma limbo_moved s s' : limbo s -> moved s s' -> limbo s'.
Proof.
  intros Hs [E|[(r & _ & Hl & Hne & E)|[[Ex _] _]]]; [by eapply limbo_control| |].
  - refine (limbo_control _ _ _ (limbo_entry s r Hs Hl Hne)). exact E.
  - destruct Hs as (_ & (st & Est & Hin & _) & _). rewrite Est in Ex. apply value_inj in Ex as ->.
    unfold limbo_statuses in Hin. set_solver.
Qed.

Lemma limbo_parked s s' : limbo s -> parked s s' -> limbo s'.
Proof.
  intros Hs [[_ Hl] E]. eapply limbo_control; [exact E|].
  destruct (decide (status s = value AWAITING_RECONCILIATION)) as [Ea|Ea].
  - unfold transition_to_awaiting_reconciliation. rewrite bool_decide_eq_true_2 by done. exact Hs.
  - rewrite transition_to_ar_ok by done. by apply limbo_entry.
Qed.

(** The on-chain collector is silent before FUNDING. *)
Lemma router_limbo cfg e s st o :
  is_onchain (source_kind s) = true -> status s = value st -> st ∈ limbo_statuses ->
  default_observation_fn cfg e s = Ok o -> exists r, o = set_reconcile_reason no_obs r.
Proof.
  intros Ho Hst Hin. unfold default_observation_fn, is_onchain in *. rewrite Ho.
  assert (eqs (source_kind s) (source_value LIGHTNING_SELF) = false /\
          eqs (source_kind s) (source_value EXT_LIGHTNING) = false) as [-> ->].
  { unfold eqs in *. apply orb_true_iff in Ho as [E|E]; bool_to_prop; rewrite E; split; reflexivity. }
  rewrite bind_of_Ok. cbn zeta.
  assert (Hno : observe_onchain_source e s = no_obs).
  { unfold observe_onchain_source. rewrite Hst, !eqs_value. destruct (or_dict _); try done.
    revert Hin. unfold limbo_statuses. destruct st; intros Hin; eval_status; try done; set_solver. }
  assert (eqs (status s) (value EXITING) || eqs (status s) (value CONFIRMING) = false) as ->.
  { rewrite Hst, !eqs_value. revert Hin. unfold limbo_statuses. destruct st; intros; try done; set_solver. }
  rewrite Hno. destruct (_ && _ && _ && _); intros [= <-]; eexists; [reflexivity|].
  by instantiate (1 := None).
Qed.

Lemma limbo_status s st' :
  limbo s -> st' ∈ limbo_statuses -> st' <> AWAITING_RECONCILIATION -> limbo (set_status s (value st')).
Proof. intros (Ho & _ & Hp) Hin Hne. split; [done|]. split; [by exists st'|done]. Qed.

Lemma limbo_tick cfg e s o s' a :
  limbo s -> default_observation_fn cfg e s = Ok o -> tick_session s o = (s', Ok a) -> limbo s'.
Proof.
  intros Hs Ho Ht. pose proof Hs as (Hoc & (st & Hst & Hin & Har) & Hp).
  destruct (decide (st = AWAITING_RECONCILIATION)) as [->|Hne].
  { by rewrite (tick_in_reconciliation cfg e s o s' (Ok a)). }
  destruct (router_limbo cfg e s st o Hoc Hst Hin Ho) as [r ->].
  revert Ht. unfold tick_session, decide_tick_action.
  cbn [set_reconcile_reason no_obs fatal_error_kind reconcile_reason user_cancel_requested user_refund_requested
       nonempty is_True_ default andb].
  destruct (is_terminal (status s)) eqn:Hterm; [by intros [= <- _]|].
  unfold _can_reconcile. destruct (nonempty r && _) eqn:Hc.
  - bool_to_prop. cbn [kind to_status]. rewrite eqs_refl.
    rewrite transition_to_ar_ok; [|done|rewrite Hst; by intros ?%value_inj].
    intros [= <- _]. apply limbo_entry; [done|done|]. rewrite Hst. by intros ?%value_inj.
  - unfold _forward_dispatch. fold (is_onchain (source_kind s)). rewrite Hoc, Hst, !eqs_value.
    revert Hin. unfold limbo_statuses. destruct st; intros Hin; eval_status; cbn; try (by intros [= <- _]); try set_solver.
    unfold transition_session. rewrite Hst. cbn. intros [= <- _].
    apply (limbo_status s SOURCING); [done|unfold limbo_statuses; set_solver|done].
Qed.

Lemma limbo_admin s s' : limbo s -> source_kind s' = source_kind s -> admin s s' -> limbo s'.
Proof.
  intros (Ho & (st & Hst & Hin & Har) & Hp) Hk Ha. unfold limbo. rewrite Hk. split; [done|].
  assert (Hpre : st <> AWAITING_RECONCILIATION -> st ∈ limbo_pre).
  { revert Hin. unfold limbo_statuses, limbo_pre. destruct st; set_solver. }
  assert (Hsub : forall st', st' ∈ limbo_pre -> st' ∈ limbo_statuses /\ st' <> AWAITING_RECONCILIATION).
  { unfold limbo_statuses, limbo_pre. intros []; set_solver. }
  assert (Hnew : status s' = value st -> st <> AWAITING_RECONCILIATION -> pre_reconciliation_status s' = Some (status s) ->
    (exists st0, status s' = value st0 /\ st0 ∈ limbo_statuses /\
       (st0 = AWAITING_RECONCILIATION -> pre_reconciliation_status s' <> None)) /\
    (forall t, pre_reconciliation_status s' = Some t -> exists st0, t = value st0 /\ st0 ∈ limbo_pre)).
  { intros Es Hne Ep. rewrite Ep. split; [by exists st|]. intros t [= <-]. exists st. auto. }
  destruct Ha as [Es Ep _|r Hl Es Ep _ _|r Ht Hn Hl Es Ep _ _|t Ea Et Hl Es Ep _|st' Hin' Hl Es Ep _|Ea En Es Ep _].
  - rewrite Es, Ep. split; [|done]. by exists st.
  - apply Hnew; [congruence| |done]. intros ->. by rewrite Hst, legal_refl in Hl.
  - rewrite Es, Ep. split.
    + exists AWAITING_RECONCILIATION. split; [done|]. split; [unfold limbo_statuses; set_solver|done].
    + intros t [= <-]. exists st. split; [done|]. apply Hpre. intros ->. done.
  - rewrite Es, Ep. split; [|done]. destruct (Hp t Et) as (st' & -> & Hin'). exists st'. naive_solver.
  - rewrite Es, Ep. split; [|done]. exists st'. split; [done|]. unfold limbo_statuses. set_solver.
  - exfalso. apply Har; [|done]. apply value_inj. congruence.
Qed.

Lemma limbo_loop cfg e s s' : limbo s -> loop_effect cfg e s s' -> limbo s'.
Proof.
  intros Hs [Hm|s1 Hm Hp|s1 obs s2 a Hm Ho Ht Hc].
  - by eapply limbo_moved.
  - eapply limbo_parked; [|done]. by eapply limbo_moved.
  - eapply limbo_control; [exact Hc|]. eapply limbo_tick; [|done|done]. by eapply limbo_moved.
Qed.

Lemma limbo_step cfg b s s' :
  (forall l, liquid_body b = Some l -> HopBody l) ->
  limbo s -> step cfg (default_hop_step_fn b) s s' -> limbo s'.
Proof.
  intros Hl Hs H. pose proof Hs as (_ & (st & Hst & Hin & _) & _).
  assert (Hkind : forall x, fixed x = fixed s -> source_kind x = source_kind s) by (unfold fixed; congruence).
  assert (Hadm : forall x, fixed x = fixed s -> admin s x -> limbo x) by (intros x Hf; eapply limbo_admin; auto).
  destruct H as [e w f w' f' stop Hwd Hrow Hloop|t Hw|t running Ha|t Ht|t s' ev Ha Hn Hh|r sid t s' code _ Hh|t txid s' Hh].
  - subst s. eapply limbo_loop; [done|]. eapply loop_tick_effect; [done| |exact Hloop].
    intros w1 o Hh. by eapply (dispatch_HopBody b _ Hl).
  - apply Hadm; [apply fixed_wedge|by eapply wedge_admin].
  - apply Hadm; [apply fixed_probe|by apply probe_admin].
  - apply Hadm; [apply fixed_startup|by apply startup_admin].
  - apply Hadm; [rewrite fixed_flush; by eapply fixed_heuristic|apply admin_flush; by eapply heuristic_admin].
  - apply Hadm; [by eapply fixed_request|by eapply request_admin].
  - apply Hadm; [rewrite fixed_flush; by eapply fixed_liquid_refund|apply admin_flush; by eapply liquid_refund_admin].
Qed.

(** C40. No component moves a session whose source is on chain out of
    SOURCING towards FUNDING: the tick has no rule for the status, and the
    submarine body that runs in it only issues the swap. Whatever steps are
    taken from CREATED, such a session is created, sourcing, parked, being
    refunded, cancelled or failed; it is never funded and never completes. *)
Theorem onchain_never_funds cfg b s s' :
  (forall l, liquid_body b = Some l -> HopBody l) ->
  is_onchain (source_kind s) = true -> status s = value CREATED -> pre_reconciliation_status s = None ->
  rtc (step cfg (default_hop_step_fn b)) s s' -> status s' ∈ map value limbo_statuses.
Proof.
  intros Hl Ho Hst Hp R.
  assert (Hs : limbo s).
  { split; [done|]. rewrite Hp. split; [|done]. exists CREATED. unfold limbo_statuses. set_solver. }
  assert (H : limbo s').
  { clear Ho Hst Hp. induction R as [s|s s1 s2 Hstep _ IH]; [done|]. apply IH. by eapply limbo_step. }
  destruct H as (_ & (st & -> & Hin & _) & _). by apply list_elem_of_fmap_2.
Qed.

Definition demo_bodies : hop_bodies :=
  mkBodies demo_rev_settings demo_reverse None demo_submarine demo_self_pay (mkB12 (fun _ => (None, None))).

Definition demo_onchain (n : nat) : AnonymizeSession :=
  Nat.iter n (demo_loop default_settings (default_hop_step_fn demo_bodies) 1)
    (demo_session CREATED ONCHAIN_SELF (JDict [])).

Lemma onchain_never_funds_witness :
  status (demo_onchain 1) = value SOURCING /\ status (demo_onchain 3) = value SOURCING /\
  status (demo_onchain 3) ∈ map value limbo_statuses.
Proof.
  split; [vm_compute; reflexivity|]. split; [vm_compute; reflexivity|].
  apply (onchain_never_funds default_settings demo_bodies (demo_onchain 0)); try done.
  eapply rtc_l; [apply (demo_loop_step _ _ 1)|]. eapply rtc_l; [apply (demo_loop_step _ _ 1)|].
  apply rtc_once, demo_loop_step.
Defined.

(** ** Statuses nothing enters *)

(** Known, and neither of the two statuses without a writer. *)
Definition entered (v : ustr) : Prop :=
  exists st, v = value st /\ st <> AWAITING_LIQUID_DWELL /\ st <> AWAITING_CHANNEL_CLOSE.

Definition no_dwell (s : AnonymizeSession) : Prop :=
  entered (status s) /\ (forall t, pre_reconciliation_status s = Some t -> entered t).

Lemma no_dwell_control s s' : control s' = control s -> no_dwell s -> no_dwell s'.
Proof. unfold control. intros [= _ _ Es Ep _ _ _ _] H. unfold no_dwell. by rewrite Es, Ep. Qed.

Lemma entered_ar : entered (value AWAITING_RECONCILIATION).
Proof. by exists AWAITING_RECONCILIATION. Qed.

Lemma no_dwell_entry s r :
  no_dwell s -> no_dwell (set_status (set_reason (set_pre_status s (Some (status s))) (Some r)) (value AWAITING_RECONCILIATION)).
Proof. intros [Hs _]. split; [exact entered_ar|]. by intros t [= <-]. Qed.

Lemma no_dwell_ar s r : no_dwell s -> is_legal_transition (status s) (value AWAITING_RECONCILIATION) = true ->
  no_dwell (transition_to_awaiting_reconciliation s r).1.
Proof.
  intros Hs Hl. destruct (decide (status s = value AWAITING_RECONCILIATION)) as [Ea|Ea].
  - unfold transition_to_awaiting_reconciliation. by rewrite bool_decide_eq_true_2.
  - rewrite transition_to_ar_ok by done. by apply no_dwell_entry.
Qed.

Lemma no_dwell_moved s s' : no_dwell s -> moved s s' -> no_dwell s'.
Proof.
  intros Hs [E|[(r & _ & _ & _ & E)|(_ & st & Hin & E)]]; [by eapply no_dwell_control| |].
  - refine (no_dwell_control _ _ _ (no_dwell_entry s r Hs)). exact E.
  - eapply no_dwell_control; [exact E|]. split; [|exact (proj2 Hs)]. exists st. split; [done|]. set_solver.
Qed.

Lemma no_dwell_tick s o s' a : no_dwell s -> tick_session s o = (s', Ok a) -> no_dwell s'.
Proof.
  intros Hs Ht. pose proof Hs as [(st & Hst & Hd & Hc) Hp].
  destruct (tick_known s st o Hst) as (s2 & a2 & st' & T & Hs2 & Hl & _ & Hnd & Hshape).
  assert (s2 = s') as -> by congruence. destruct Hshape as [->|[[-> Hne]|(r & -> & ->)]]; [done| |].
  - split; [|done]. exists st'. split; [done|]. split; [intros ->; by rewrite Hnd in Hd|].
    intros ->. rewrite legal_value in Hl. by destruct st.
  - apply no_dwell_ar; [done|by rewrite Hst].
Qed.

Lemma no_dwell_effect cfg s s' : no_dwell s -> effect cfg s s' -> no_dwell s'.
Proof.
  intros Hs [e [Hm|s1 Hm [[_ Hl] Hp]|s1 obs s2 a Hm Ho Ht Hc]|_ Ha].
  - by eapply no_dwell_moved.
  - eapply no_dwell_control; [exact Hp|]. apply no_dwell_ar; [by eapply no_dwell_moved|done].
  - eapply no_dwell_control; [exact Hc|]. eapply no_dwell_tick; [|done]. by eapply no_dwell_moved.
  - destruct Hs as [Hs Hp]. destruct Ha as [Es Ep _|r _ Es Ep _ _|r _ _ _ Es Ep _ _|t _ Et _ Es Ep _
      |st Hin _ Es Ep _|_ _ Es Ep _]; unfold no_dwell; rewrite Es, Ep.
    + done.
    + split; [done|]. by intros t [= <-].
    + split; [exact entered_ar|]. by intros t [= <-].
    + split; [auto|done].
    + split; [|done]. exists st. set_solver.
    + split; [done|]. intros t [= <-]. by exists EXITING.
Qed.

(** The Liquid dwell is dead code: the second Liquid leg runs only in
    AWAITING_LIQUID_DWELL, the graph has an edge into it from HOPPING, but no
    component takes it; and nothing enters AWAITING_CHANNEL_CLOSE either. A
    session in any other status never gets there. *)
Theorem dwell_never_entered cfg hop s s' :
  (forall t, HopBody (hop t)) -> no_dwell s -> rtc (step cfg hop) s s' ->
  status s' <> value AWAITING_LIQUID_DWELL /\ status s' <> value AWAITING_CHANNEL_CLOSE.
Proof.
  intros Hhop Hs R.
  assert (H : no_dwell s').
  { induction R as [s|s s1 s2 Hst _ IH]; [done|]. apply IH. eapply no_dwell_effect; [done|]. by eapply step_effect. }
  destruct H as [(st & -> & H1 & H2) _]. split; by intros ?%value_inj.
Qed.

(** A Liquid session that has finished its hop goes straight to its exit. *)
Definition demo_hop : AnonymizeSession :=
  demo_session HOPPING ONCHAIN_SELF (JDict [(u "submarine_swap_status", JStr (u "invoice.settled"));
                                            (u "uses_liquid", JBool true)]).

Lemma dwell_never_entered_witness :
  status (demo_loop default_settings (fun _ => ret _NOOP) 1 demo_hop) = value EXITING /\
  status (demo_loop default_settings (fun _ => ret _NOOP) 1 demo_hop) <> value AWAITING_LIQUID_DWELL.
Proof.
  split; [vm_compute; reflexivity|].
  apply (dwell_never_entered default_settings (fun _ => ret _NOOP) demo_hop).
  - intros t. apply _.
  - split; [by exists HOPPING|done].
  - apply rtc_once, demo_loop_step.
Defined.
