(* ===== verification/AnonBudget.v ===== *)
(** * Anonymize sessions: the retry budget and the idle sweep

    How often the probe resumes a session, what one sweep does to a session
    that sat idle longer than the wedge detector's budget, the bounds of the
    backoff, and the shape of the transition graph. *)
From S2P Require Import Prelude Bytes PyInt Utf8 Json PyJson AnonState AnonTick AnonProbe HopLog AnonHops.
From S2P Require Import HopLogic HopSafety AnonLoop AnonSafety.

(** ** The retry budget *)

Definition max_budget (cfg : anon_settings) : Z := Z.max (max_retries_transient cfg) MAX_RETRIES_SEMI.

Lemma attempts_control s s' : control s' = control s -> reconciliation_attempts s' = reconciliation_attempts s.
Proof. unfold control. congruence. Qed.

Lemma attempts_transition s to : reconciliation_attempts (transition_session s to).1 = reconciliation_attempts s.
Proof. unfold transition_session. destruct (assert_legal_transition _ _); [case_bool_decide|]; done. Qed.

Lemma attempts_entry s r :
  reconciliation_attempts (transition_to_awaiting_reconciliation s r).1 = reconciliation_attempts s.
Proof.
  unfold transition_to_awaiting_reconciliation. case_bool_decide; [done|]. by rewrite attempts_transition.
Qed.

Lemma attempts_flush now s s' : reconciliation_attempts (flush now s s') = reconciliation_attempts s'.
Proof. by apply attempts_control, control_flush. Qed.

Lemma attempts_tick s o : reconciliation_attempts (tick_session s o).1 = reconciliation_attempts s.
Proof.
  unfold tick_session. destruct (kind _); try done; destruct (to_status _) as [to|]; try done.
  all: destruct (eqs to _);
    [pose proof (attempts_entry s (_strip_tick_reason_prefix (act_reason (decide_tick_action s o)))) as E
    |pose proof (attempts_transition s to) as E].
  all: by destruct (_ : AnonymizeSession * result unit) as [s' r].
Qed.

Lemma attempts_escalate s cls reason now why :
  reconciliation_attempts (_escalate s cls reason now why).1.1 = reconciliation_attempts s.
Proof.
  unfold _escalate. pose proof (attempts_transition s (value FAILED)) as H.
  by destruct (transition_session _ _) as [s' [?|?]].
Qed.

Lemma escalate_status s cls reason now why :
  status s = value AWAITING_RECONCILIATION -> status (_escalate s cls reason now why).1.1 = value FAILED.
Proof.
  intros Hs. unfold _escalate.
  destruct (transition_session_ok s (value FAILED)) as (s' & -> & Hs' & _); [by rewrite Hs|done].
Qed.

Definition resumed_within (cfg : anon_settings) (s s' : AnonymizeSession) : Prop :=
  reconciliation_attempts s' = reconciliation_attempts s + 1 /\ reconciliation_attempts s' <= max_budget cfg.

(** An attempt on a parked row counts itself unless the reason is terminal,
    and resumes only within the budget. *)
Lemma attempt_counts cfg now s s' evs o :
  status s = value AWAITING_RECONCILIATION -> attempt_reconciliation cfg now s = (s', evs, Ok o) ->
  reconciliation_attempts s <= reconciliation_attempts s' /\
  (status s' = status s \/ status s' = value FAILED \/
   resumed_within cfg s s').
Proof.
  intros Hs. unfold attempt_reconciliation. cbn zeta.
  set (s1 := set_last_attempt (set_attempts s (reconciliation_attempts s + 1)) (Some now)).
  assert (Hesc : forall cls r why ev,
    (let '(s2, evs2, o2) := _escalate s1 cls r now why in (s2, ev :: evs2, Ok o2)) = (s', evs, Ok o) ->
    reconciliation_attempts s <= reconciliation_attempts s' /\
    (status s' = status s \/ status s' = value FAILED \/
     resumed_within cfg s s')).
  { intros cls r why ev. pose proof (attempts_escalate s1 cls r now why) as Ha.
    pose proof (escalate_status s1 cls r now why Hs) as He.
    destruct (_escalate _ _ _ _ _) as [[s2 evs2] o2]. intros [= <- _ _]. simpl in Ha, He. split; [lia|auto]. }
  destruct (classify_reason _) eqn:Hc; [| |intros [= <- _ _]; simpl; split; [lia|auto]].
  all: destruct (_ <? _) eqn:Hb; [apply Hesc|]; bool_to_prop.
  all: replace (pre_reconciliation_status s1) with (pre_reconciliation_status s) by done.
  all: destruct (pre_reconciliation_status s) as [[|c t]|]; try apply Hesc.
  all: destruct (is_legal_transition _ _) eqn:Hl; [|apply Hesc].
  all: pose proof (attempts_transition s1 (c :: t)) as Ha.
  all: destruct (transition_session _ _) as [s2 [?|?]]; [|done]; intros [= <- _ _].
  all: simpl in Ha; unfold resumed_within, max_budget, max_retries_for_class, MAX_RETRIES_SEMI in *; split; [lia|]; right; right; lia.
Qed.

Lemma probe_counts cfg now running s :
  status s = value AWAITING_RECONCILIATION ->
  let s' := (probe_row cfg now running s).1.1 in
  reconciliation_attempts s <= reconciliation_attempts s' /\
  (status s' = status s \/ status s' = value FAILED \/
   resumed_within cfg s s').
Proof.
  intros Hs. cbn zeta. unfold probe_row. destruct (is_in_cooldown _ _ _); [simpl; split; [lia|auto]|].
  destruct (attempt_reconciliation cfg now s) as [[s' evs] [o|x]] eqn:A; [|simpl; split; [lia|auto]].
  cbn [fst]. unfold resumed_within. rewrite attempts_flush, (control_status _ _ (control_flush now s s')). by eapply attempt_counts.
Qed.

Lemma attempts_request r s sid now s' c :
  r <> R_reconciliation_retry -> handle r [s] sid now = ([s'], c) ->
  reconciliation_attempts s' = reconciliation_attempts s.
Proof.
  intros Hr.
  assert (Hsame : forall l c', l = [s] -> (l, c') = ([s'], c) -> reconciliation_attempts s' = reconciliation_attempts s)
    by (intros ? ? ->; by intros [= <- _]).
  assert (Hid : forall to, match transition_session s to with
    | (_, Err _) => ([s], 409) | (s1, Ok _) => (put [s] (flush now s s1), 200) end = ([s'], c) ->
    reconciliation_attempts s' = reconciliation_attempts s).
  { intros to. pose proof (attempts_transition s to) as E.
    destruct (transition_session s to) as [s1 [?|?]] eqn:T; [|by intros [= <- _]].
    rewrite put_one by (rewrite session_id_flush; by eapply session_id_transition).
    intros [= <- _]. by rewrite attempts_flush. }
  destruct r; cbn [handle]; unfold dash_anonymize_cancel_session, dash_anonymize_refund_session; cbn [negb].
  6: unfold _reconciliation_refund; destruct sid as [i|]; [|by apply Hsame]; destruct (strip nonce); [by apply Hsame|].
  all: intros H; apply with_session_one in H as [H|H]; [|by injection H as <-].
  all: revert H; unfold in_reconciliation; try (destruct (eqs _ _); [|by apply Hsame]); try done; try apply Hid.
  - destruct (_ && _); [by apply Hsame|apply Hid].
  - destruct (negb _); [by apply Hsame|apply Hid].
Qed.

Lemma attempts_liquid s txid s' :
  _finalize_liquid_submarine_refund s txid = Ok s' -> reconciliation_attempts s' = reconciliation_attempts s.
Proof.
  unfold _finalize_liquid_submarine_refund. destruct (or_dict _); try done. cbn zeta. intros [= <-].
  by rewrite attempts_transition.
Qed.

Lemma attempts_moved s s' : moved s s' -> reconciliation_attempts s' = reconciliation_attempts s.
Proof. intros [E|[(r & _ & _ & _ & E)|(_ & st & _ & E)]]; by rewrite (attempts_control _ _ E). Qed.

Lemma attempts_loop cfg e s s' : loop_effect cfg e s s' -> reconciliation_attempts s' = reconciliation_attempts s.
Proof.
  intros [Hm|s1 Hm [_ Hp]|s1 obs s2 a Hm Ho Ht Hc].
  - by apply attempts_moved.
  - rewrite (attempts_control _ _ Hp), attempts_entry. by apply attempts_moved.
  - rewrite (attempts_control _ _ Hc). pose proof (attempts_tick s1 obs) as E. rewrite Ht in E. simpl in E.
    rewrite E. by apply attempts_moved.
Qed.

(** Without a manual retry the counter never goes down. *)
Definition unattended (r : request) : Prop := r <> R_reconciliation_retry.

Lemma attempts_step cfg hop s s' :
  (forall t, HopBody (hop t)) -> step_with unattended cfg hop s s' ->
  reconciliation_attempts s <= reconciliation_attempts s'.
Proof.
  intros Hhop [e w f w' f' stop Hwd Hrow Hloop|t Hw|t running Ha|t Ht|t s1 ev Ha Hn Hh|r sid t s1 code Hr Hh|t txid s1 Hh].
  - subst s. apply Z.eq_le_incl. symmetry. eapply attempts_loop, loop_tick_effect; [done| |exact Hloop].
    intros w1 o Hh. by eapply hop_moves.
  - apply Z.eq_le_incl. unfold wedge_row. pose proof (attempts_entry s (u "wall_clock_budget_exceeded")) as E.
    destruct (transition_to_awaiting_reconciliation _ _) as [s1 [?|?]]; cbn [fst] in *; by rewrite attempts_flush.
  - by apply probe_counts.
  - apply Z.eq_le_incl. unfold startup_row. destruct (disposition _); [done|]. destruct (eqs _ _); [done|].
    pose proof (attempts_entry s (ro_reason (classify_session cfg t s))) as E.
    destruct (transition_to_awaiting_reconciliation _ _) as [s1 [?|?]]; cbn [fst] in *; by rewrite attempts_flush.
  - apply Z.eq_le_incl. rewrite attempts_flush. revert Hh. unfold heuristic_row.
    destruct (heuristic_pre_status_for _); [|done]. destruct (is_legal_transition _ _); [|done]. by intros [= <- _].
  - apply Z.eq_le_incl. symmetry. by eapply attempts_request.
  - apply Z.eq_le_incl. rewrite attempts_flush. symmetry. by eapply attempts_liquid.
Qed.

(** A run without manual retries, with the number of times the probe has
    resumed the session. *)
Inductive resumed_run (cfg : anon_settings) (hop : Z -> M HopStepOutcome)
    : AnonymizeSession -> nat -> AnonymizeSession -> Prop :=
  | rr_done s : resumed_run cfg hop s 0 s
  | rr_resume t running s n s' :
      let s1 := (probe_row cfg t running s).1.1 in
      status s = value AWAITING_RECONCILIATION -> status s1 <> status s -> status s1 <> value FAILED ->
      resumed_run cfg hop s1 n s' -> resumed_run cfg hop s (S n) s'
  | rr_step s s1 n s' :
      step_with unattended cfg hop s s1 -> resumed_run cfg hop s1 n s' -> resumed_run cfg hop s n s'.

(** C6. Left to itself, the orchestrator resumes a parked session a bounded
    number of times: whatever else happens between the sweeps, and however
    often the reason changes, the probe's resumptions never exceed the larger
    of the two class budgets less the attempts already counted. Only a
    manual retry resets the counter. *)
Theorem resumes_bounded cfg hop s n s' :
  (forall t, HopBody (hop t)) -> resumed_run cfg hop s n s' ->
  Z.of_nat n <= Z.max 0 (max_budget cfg - reconciliation_attempts s).
Proof.
  intros Hhop R.
  assert (H : n <> 0%nat -> reconciliation_attempts s + Z.of_nat n <= max_budget cfg).
  { induction R as [s|t running s n s' s1 Hs Hne Hnf _ IH|s s1 n s' Hst _ IH]; [done| |].
    - intros _. destruct (probe_counts cfg t running s Hs) as [_ [E|[E|[E1 E2]]]]; [done|done|].
      fold s1 in E1, E2. destruct n; [lia|]. specialize (IH ltac:(done)). lia.
    - intros Hn. specialize (IH Hn). pose proof (attempts_step cfg hop s s1 Hhop Hst). lia. }
  destruct n; [lia|]. specialize (H ltac:(done)). lia.
Qed.

(** ** Sweeps over the table *)

Abbreviation ids := (map session_id).

Section put_all.
Context (f : AnonymizeSession -> AnonymizeSession) (Hf : forall s, session_id (f s) = session_id s).

Definition put_all (db : table) (l : list AnonymizeSession) : table := foldl (fun db s => put db (f s)) db l.

Lemma ids_put db s : ids (put db s) = ids db.
Proof.
  unfold put. rewrite map_map. apply map_ext_in. intros r _. destruct (session_id r =? session_id s) eqn:E; [lia|done].
Qed.

Lemma row_unique (db : table) r s : NoDup (ids db) -> r ∈ db -> s ∈ db -> session_id r = session_id s -> r = s.
Proof.
  induction db as [|x db IH]; simpl; intros Hnd Hr Hs E; [by apply elem_of_nil in Hr|].
  apply NoDup_cons in Hnd as [Hx Hnd]. rewrite list_elem_of_fmap in Hx.
  apply elem_of_cons in Hr as [->|Hr], Hs as [->|Hs]; auto; exfalso; apply Hx; eauto.
Qed.

(** Writing back rows of the table, each once. *)
Lemma put_all_map l db :
  NoDup (ids db) -> NoDup (ids l) -> (forall s, s ∈ l -> s ∈ db) ->
  put_all db l = map (fun r => if decide (r ∈ l) then f r else r) db.
Proof.
  revert db. induction l as [|s l IH]; intros db Hdb Hl Hin.
  { symmetry. unfold put_all. cbn [foldl]. rewrite <- (map_id db) at 2. apply map_ext. intros r.
    rewrite decide_False; [done|]. apply not_elem_of_nil. }
  simpl in Hl. apply NoDup_cons in Hl as [Hs Hl].
  assert (Hnot : forall r, r ∈ l -> session_id r <> session_id s).
  { intros r Hr E. apply Hs. rewrite list_elem_of_fmap. by exists r. }
  change (put_all db (s :: l)) with (put_all (put db (f s)) l). rewrite IH.
  - unfold put. rewrite map_map. apply map_ext_in. intros r Hr%list_elem_of_In. rewrite Hf.
    destruct (session_id r =? session_id s) eqn:E.
    + assert (r = s) as -> by (apply (row_unique db r s Hdb Hr); [apply Hin; set_solver|lia]).
      rewrite (decide_True (P := s ∈ s :: l)) by set_solver. rewrite decide_False; [done|].
      intros Hc. apply (Hnot _ Hc), Hf.
    + assert (r <> s) by (intros ->; lia). destruct (decide (r ∈ l)); 
        [rewrite decide_True; [done|]|rewrite decide_False; [done|]]; rewrite elem_of_cons; naive_solver.
  - by rewrite ids_put.
  - done.
  - intros r Hr. unfold put. rewrite list_elem_of_fmap. exists r. split; [|apply Hin; set_solver].
    rewrite Hf. destruct (session_id r =? session_id s) eqn:E; [|done]. exfalso. apply (Hnot r Hr). lia.
Qed.

Lemma ids_put_all l db : ids (put_all db l) = ids db.
Proof. revert db. induction l as [|s l IH]; intros db; simpl; [done|]. fold (put_all (put db (f s)) l). by rewrite IH, ids_put. Qed.
End put_all.

(** The table of a fold that also collects events and counts. *)
Lemma fold_table {A B} (f : AnonymizeSession -> AnonymizeSession) (step : table * A * B -> AnonymizeSession -> table * A * B) l x :
  (forall x s, (step x s).1.1 = put x.1.1 (f s)) -> (foldl step x l).1.1 = put_all f x.1.1 l.
Proof. intros H. revert x. induction l as [|s l IH]; intros x; simpl; [done|]. by rewrite IH, H. Qed.

Lemma fixed_id s s' : fixed s' = fixed s -> session_id s' = session_id s.
Proof. unfold fixed. congruence. Qed.

Lemma wedge_table cfg db locked now limit :
  (apply_wedge_detector cfg db locked now limit).1.1 =
  put_all (fun s => (wedge_row now s).1) db (fetch_wedged_active_sessions db locked now (wall_clock_budget_s cfg) limit).
Proof.
  unfold apply_wedge_detector. rewrite (fold_table (fun s => (wedge_row now s).1)); [done|].
  intros [[t evs] c] s. by destruct (wedge_row now s) as [s' [ev|]].
Qed.

Lemma probe_table cfg db locked running now :
  (reconciliation_probe_run cfg db locked running now).1.1 =
  let db1 := (apply_wedge_detector cfg db locked now 50).1.1 in
  put_all (fun s => (probe_row cfg now running s).1.1) db1
    (fetch_awaiting_reconciliation_sessions db1 locked (probe_batch_size cfg)).
Proof.
  unfold reconciliation_probe_run. destruct (apply_wedge_detector _ _ _ _ _) as [[db1 evs] c]. cbn zeta.
  rewrite (fold_table (fun s => (probe_row cfg now running s).1.1)); [done|].
  intros [[t evs'] sp] s. by destruct (probe_row cfg now running s) as [[s' evs''] arm].
Qed.

(** ** Idle sessions *)

(** Live, and not written for longer than the budget. *)
Definition idle_past (budget now : Z) (s : AnonymizeSession) : Prop :=
  live s = true /\ exists t, updated_at s = Some t /\ t < now - budget * usec.

(** The row the wedge detector parks. *)
Definition wedge_parked (now : Z) (s : AnonymizeSession) : AnonymizeSession :=
  set_updated_at (set_status (set_reason (set_pre_status s (Some (status s))) (Some (u "wall_clock_budget_exceeded")))
    (value AWAITING_RECONCILIATION)) (Some now).

Lemma wedge_idle cfg now s :
  idle_past (wall_clock_budget_s cfg) now s -> is_terminal (status s) = false ->
  status s <> value AWAITING_RECONCILIATION ->
  is_legal_transition (status s) (value AWAITING_RECONCILIATION) = true ->
  (apply_wedge_detector cfg [s] (fun _ => false) now 50).1.1 = [wedge_parked now s].
Proof.
  intros (Hlive & t & Hu & Ht) Hterm Hne Hl. rewrite wedge_table.
  assert (Hw : wedged now (wall_clock_budget_s cfg) s = true).
  { unfold wedged. rewrite Hlive, Hu. unfold mem. rewrite existsb_app.
    fold (mem (status s) ANONYMIZE_TERMINAL_STATUSES). unfold is_terminal in Hterm. rewrite Hterm. simpl.
    rewrite bool_decide_eq_false_2 by done. simpl. lia. }
  assert (fetch_wedged_active_sessions [s] (fun _ => false) now (wall_clock_budget_s cfg) 50 = [s]) as ->.
  { unfold fetch_wedged_active_sessions. cbn [List.filter]. by rewrite Hw. }
  unfold put_all. cbn [foldl]. rewrite put_one by (apply fixed_id, fixed_wedge).
  unfold wedge_row. rewrite transition_to_ar_ok by done. cbn [fst].
  unfold flush, wedge_parked. rewrite bool_decide_eq_false_2; [done|].
  intros E. apply (f_equal status) in E. by apply Hne.
Qed.

Lemma probe_one cfg now running s :
  status s = value AWAITING_RECONCILIATION -> live s = true -> 1 <= probe_batch_size cfg ->
  put_all (fun s => (probe_row cfg now running s).1.1) [s]
    (fetch_awaiting_reconciliation_sessions [s] (fun _ => false) (probe_batch_size cfg)) =
  [(probe_row cfg now running s).1.1].
Proof.
  intros Hs Hl Hb.
  assert (fetch_awaiting_reconciliation_sessions [s] (fun _ => false) (probe_batch_size cfg) = [s]) as ->.
  { unfold fetch_awaiting_reconciliation_sessions. cbn [List.filter]. rewrite Hs, eqs_refl, Hl. cbn [andb negb].
    change (merge_sort by_last_attempt [s]) with [s]. destruct (Z.to_nat (probe_batch_size cfg)) eqn:E; [lia|].
    simpl. by rewrite take_nil. }
  unfold put_all. cbn [foldl]. by rewrite put_one by (apply fixed_id, fixed_probe).
Qed.

(** The attempt of the same sweep. *)
Lemma probe_parked cfg now running s st :
  status s = value st -> reconciliation_attempts s = 0 -> 1 <= max_retries_transient cfg ->
  let s' := (probe_row cfg now running (wedge_parked now s)).1.1 in
  reconciliation_attempts s' = 1 /\
  awaiting_reconciliation_reason s' = Some (u "wall_clock_budget_exceeded") /\
  status s' = if is_legal_transition (value AWAITING_RECONCILIATION) (value st) then value st else value FAILED.
Proof.
  intros Hst Ha Hmax. cbn zeta. unfold probe_row, is_in_cooldown.
  replace (reconciliation_attempts (wedge_parked now s)) with 0 by (symmetry; exact Ha). cbn [Z.leb Z.compare].
  unfold attempt_reconciliation. cbn zeta.
  change (classify_reason _) with CLASS_TRANSIENT. cbn match. unfold max_retries_for_class.
  replace (reconciliation_attempts (wedge_parked now s)) with 0 by (symmetry; exact Ha).
  assert ((max_retries_transient cfg <? 0 + 1) = false) as -> by lia.
  change (pre_reconciliation_status _) with (Some (status s)). rewrite Hst.
  set (s1 := set_last_attempt (set_attempts (wedge_parked now s) (0 + 1)) (Some now)).
  assert (Hs1 : status s1 = value AWAITING_RECONCILIATION) by done.
  destruct (value st) as [|c t] eqn:Hv; [by destruct st|].
  destruct (is_legal_transition (value AWAITING_RECONCILIATION) (c :: t)) eqn:Hl.
  - destruct (transition_session_ok s1 (c :: t)) as (s2 & -> & Hs2 & Hcase); [by rewrite Hs1|].
    cbn [fst]. rewrite attempts_flush, (control_status _ _ (control_flush _ _ _)).
    assert (forall x y, control x = control y -> awaiting_reconciliation_reason x = awaiting_reconciliation_reason y) as Hr
      by (unfold control; congruence).
    rewrite (Hr _ _ (control_flush _ _ _)). by destruct Hcase as [->| ->].
  - unfold _escalate. destruct (transition_session_ok s1 (value FAILED)) as (s2 & -> & Hs2 & Hcase); [by rewrite Hs1|].
    cbn [fst]. rewrite attempts_flush, (control_status _ _ (control_flush _ _ _)).
    assert (forall x y, control x = control y -> awaiting_reconciliation_reason x = awaiting_reconciliation_reason y) as Hr
      by (unfold control; congruence).
    rewrite (Hr _ _ (control_flush _ _ _)). by destruct Hcase as [->| ->].
Qed.

(** What one sweep makes of a session that nothing has written for
    longer than the wall-clock budget: the wedge detector parks it and the
    same sweep attempts it. A status with an edge back out of reconciliation
    is resumed at once, with the stale reason left on the row; one without --
    sourcing, funding, holding, delaying, dwelling -- is failed at once, with
    no second attempt. *)
Theorem idle_sweep cfg now running s st :
  status s = value st -> idle_past (wall_clock_budget_s cfg) now s -> reconciliation_attempts s = 0 ->
  1 <= max_retries_transient cfg -> 1 <= probe_batch_size cfg ->
  let db' := (reconciliation_probe_run cfg [s] (fun _ => false) running now).1.1 in
  (st ∈ [SOURCING; FUNDING; LN_HOLDING; DELAYING; AWAITING_LIQUID_DWELL] ->
   exists s', db' = [s'] /\ status s' = value FAILED) /\
  (st ∈ [HOPPING; EXITING; CONFIRMING; REFUNDING] ->
   exists s', db' = [s'] /\ status s' = value st /\ reconciliation_attempts s' = 1 /\
     awaiting_reconciliation_reason s' = Some (u "wall_clock_budget_exceeded")).
Proof.
  intros Hst Hidle Ha Hmax Hbatch. cbn zeta. rewrite probe_table. cbn zeta.
  assert (Hdb : is_terminal (value st) = false -> st <> AWAITING_RECONCILIATION ->
     is_legal_transition (value st) (value AWAITING_RECONCILIATION) = true ->
     (apply_wedge_detector cfg [s] (fun _ => false) now 50).1.1 = [wedge_parked now s]).
  { intros Ht Hne Hl. apply wedge_idle; rewrite ?Hst; try done. by intros ?%value_inj. }
  assert (Hrun : st ∈ [SOURCING; FUNDING; LN_HOLDING; DELAYING; AWAITING_LIQUID_DWELL; HOPPING; EXITING; CONFIRMING;
      REFUNDING] -> (apply_wedge_detector cfg [s] (fun _ => false) now 50).1.1 = [wedge_parked now s]).
  { intros Hin. apply Hdb; by_status Hin st. }
  assert (Hp : live (wedge_parked now s) = true) by apply Hidle.
  destruct (probe_parked cfg now running s st Hst Ha Hmax) as (H1 & H2 & H3).
  split; intros Hin; rewrite Hrun by (by_status Hin st); rewrite probe_one by done; eexists; (split; [reflexivity|]).
  - rewrite H3. by_status Hin st.
  - rewrite H3. split; [|done]. by_status Hin st.
Qed.

(** While the delay runs, the loop leaves the row alone. *)
Lemma delay_waits cfg e s m t :
  source_kind s = source_value LIGHTNING_SELF -> status s = value DELAYING ->
  stripped (awaiting_reconciliation_reason s) = [] ->
  _delay_min_seconds s = Ok m -> 0 < m -> last_advance s = Some t -> now e - t < m * usec ->
  exists o, default_observation_fn cfg e s = Ok o /\ tick_session s o = (s, Ok wait).
Proof.
  intros Hsrc Hst Hr Hm Hpos Hla Hlt. unfold default_observation_fn.
  rewrite Hsrc, eqs_refl, Hr. unfold observe_ln_self_pay, _delay_elapsed. rewrite Hst, !eqs_value. eval_status.
  assert (E : elapsed_since e s m = false).
  { unfold elapsed_since. rewrite Hla. destruct (m <=? 0) eqn:E; [lia|]. lia. }
  rewrite Hm. cbn -[elapsed_since]. rewrite E.
  eexists. split; [reflexivity|]. unfold tick_session, decide_tick_action. rewrite Hst. reflexivity.
Qed.

(** A mixing delay longer than the wedge detector's budget is never
    served. Between the budget and the delay's end the tick keeps waiting,
    so nothing writes the row, and the first sweep of the probe that sees it
    fails the session. *)
Theorem long_delay_fails cfg e running s m t :
  source_kind s = source_value LIGHTNING_SELF -> status s = value DELAYING ->
  stripped (awaiting_reconciliation_reason s) = [] -> reconciliation_attempts s = 0 -> live s = true ->
  1 <= max_retries_transient cfg -> 1 <= probe_batch_size cfg -> 0 <= wall_clock_budget_s cfg ->
  _delay_min_seconds s = Ok m -> updated_at s = Some t ->
  wall_clock_budget_s cfg * usec < now e - t -> now e - t < m * usec ->
  (exists o, default_observation_fn cfg e s = Ok o /\ tick_session s o = (s, Ok wait)) /\
  (exists s', (reconciliation_probe_run cfg [s] (fun _ => false) running (now e)).1.1 = [s'] /\ status s' = value FAILED).
Proof.
  intros Hsrc Hst Hr Ha Hl Hmax Hb Hw Hm Hu H1 H2. split.
  - eapply delay_waits; eauto; [unfold usec in *; nia|]. unfold last_advance. by rewrite Hu.
  - assert (Hidle : idle_past (wall_clock_budget_s cfg) (now e) s) by (split; [done|]; exists t; split; [done|lia]).
    rewrite probe_table. cbn zeta.
    rewrite wedge_idle; [|done|by rewrite Hst|rewrite Hst; by intros ?%value_inj|by rewrite Hst].
    rewrite probe_one by done. eexists. split; [reflexivity|].
    destruct (probe_parked cfg (now e) running s DELAYING Hst Ha Hmax) as (_ & _ & ->). reflexivity.
Qed.

(** ** Backoff *)

Lemma pow2_mono a b : 0 <= a <= b -> 2 ^ a <= 2 ^ b.
Proof. intros H. apply Z.pow_le_mono_r; lia. Qed.

(** The wait between two attempts never shrinks as attempts add up and
    never exceeds the configured maximum, so a parked session becomes
    eligible again at most that long after its last attempt, however many
    attempts it has had. *)
Theorem backoff_bounded cfg now s last a b :
  0 <= backoff_base_s cfg -> 0 <= backoff_max_s cfg -> a <= b ->
  last_reconciliation_attempt_ts s = Some last -> backoff_max_s cfg * usec <= now - last ->
  0 <= compute_backoff_s cfg a <= compute_backoff_s cfg b /\ compute_backoff_s cfg b <= backoff_max_s cfg /\
  is_in_cooldown cfg now s = false.
Proof.
  intros Hbase Hmax Hab Hlast Hnow.
  assert (Hb : forall n, 0 <= compute_backoff_s cfg n <= backoff_max_s cfg).
  { intros n. unfold compute_backoff_s. destruct (n <=? 0); [lia|].
    pose proof (Z.pow_nonneg 2 (Z.min (n - 1) 30)). nia. }
  split; [|split; [apply Hb|]].
  - split; [apply Hb|].
    unfold compute_backoff_s at 1. destruct (a <=? 0) eqn:Ea; [apply Hb|].
    unfold compute_backoff_s. destruct (b <=? 0) eqn:Eb; [lia|].
    pose proof (pow2_mono (Z.min (a - 1) 30) (Z.min (b - 1) 30)). nia.
  - unfold is_in_cooldown. destruct (_ <=? 0); [done|]. rewrite Hlast.
    specialize (Hb (reconciliation_attempts s)). unfold usec in *. nia.
Qed.

(** ** The graph *)

(** The transition table is total on the enum and closed: the startup
    check passes; the statuses without successors are exactly the terminal
    ones, so [is_terminal] and the table agree; every other status can fail
    at once; nothing leads into AWAITING_CHANNEL_CLOSE; and a text that is no
    status has no successors. *)
Theorem graph_well_formed :
  assert_graph_covers_every_enum_value = Ok tt /\
  (forall v, known v -> (is_terminal v = true <-> legal_next_statuses v = [])) /\
  (forall v, known v -> is_terminal v = false -> is_legal_transition v (value FAILED) = true) /\
  (forall v, v <> value AWAITING_CHANNEL_CLOSE -> is_legal_transition v (value AWAITING_CHANNEL_CLOSE) = false) /\
  (forall v w, is_legal_transition v w = true -> v <> w -> known v /\ known w).
Proof.
  split; [by vm_compute|]. split; [|split; [|split]].
  - intros v [st ->]. rewrite is_terminal_value, legal_next_value, bool_decide_eq_true. by destruct st.
  - intros v [st ->]. rewrite is_terminal_value, legal_value. by destruct st.
  - intros v Hv. apply not_true_iff_false. intros Hl. unfold is_legal_transition in Hl.
    apply orb_true_iff in Hl as [E|E]; [by bool_to_prop|]. apply mem_elem in E.
    destruct (legal_next_known _ _ E) as [[st ->] _]. rewrite legal_next_value in E.
    apply mem_elem in E. rewrite mem_value in E. by destruct st.
  - intros v w Hl Hne. unfold is_legal_transition in Hl. apply orb_true_iff in Hl as [E|E]; [by bool_to_prop|].
    apply mem_elem in E. by apply legal_next_known in E.
Qed.

(** ** Concrete runs *)

(** Parked while exiting, for a reason that may be retried three times. *)
Definition demo_parked : AnonymizeSession :=
  set_status (set_reason (set_pre_status (demo_session EXITING LIGHTNING_SELF (JDict [])) (Some (value EXITING)))
    (Some (u "mpp_k_floor_exhausted"))) (value AWAITING_RECONCILIATION).

Definition demo_retried : AnonymizeSession := (probe_row default_settings 1 (fun _ => false) demo_parked).1.1.

Lemma resumes_bounded_witness :
  status demo_retried = value EXITING /\ reconciliation_attempts demo_retried = 1 /\ 1 <= Z.max 0 (12 - 0).
Proof.
  split; [vm_compute; reflexivity|]. split; [vm_compute; reflexivity|].
  apply (resumes_bounded default_settings (execute_ln_self_pay_hop_step demo_self_pay) demo_parked 1 demo_retried).
  - intros t. apply _.
  - apply (rr_resume _ _ 1 (fun _ => false)); [done|vm_compute; discriminate|vm_compute; discriminate|apply rr_done].
Defined.

Lemma idle_sweep_witness :
  exists s', (reconciliation_probe_run default_settings [demo_session FUNDING LIGHTNING_SELF (JDict [])]
      (fun _ => false) (fun _ => true) (14401 * usec)).1.1 = [s'] /\ status s' = value FAILED.
Proof.
  apply (idle_sweep default_settings (14401 * usec) (fun _ => true) (demo_session FUNDING LIGHTNING_SELF (JDict [])) FUNDING);
    try done.
  - split; [done|]. by exists 0.
  - set_solver.
Defined.

(** Six hours of delay, four of budget, five gone by. *)
Definition demo_delaying : AnonymizeSession :=
  demo_session DELAYING LIGHTNING_SELF (JDict [(u "delay_policy", JDict [(u "min_seconds", JInt (6 * 3600))])]).

Lemma long_delay_fails_witness :
  (exists o, default_observation_fn default_settings (mkEnv (5 * 3600 * usec) None 0) demo_delaying = Ok o /\
     tick_session demo_delaying o = (demo_delaying, Ok wait)) /\
  (exists s', (reconciliation_probe_run default_settings [demo_delaying] (fun _ => false) (fun _ => true)
     (5 * 3600 * usec)).1.1 = [s'] /\ status s' = value FAILED).
Proof.
  apply (long_delay_fails default_settings (mkEnv (5 * 3600 * usec) None 0) (fun _ => true) demo_delaying (6 * 3600) 0);
    first [done | reflexivity | vm_compute; reflexivity].
Defined.

Lemma backoff_bounded_witness :
  compute_backoff_s default_settings 3 = 120 /\
  is_in_cooldown default_settings (3600 * usec) (set_last_attempt (set_attempts demo_parked 40) (Some 0)) = false.
Proof.
  split; [vm_compute; reflexivity|].
  apply (backoff_bounded default_settings (3600 * usec) (set_last_attempt (set_attempts demo_parked 40) (Some 0)) 0 3 4);
    first [done | reflexivity | vm_compute; discriminate].
Defined.
