(* ===== verification/AnonSweep.v ===== *)
(** * Anonymize sessions: one sweep over the table

    What a run of the reconciliation probe does to the whole table, against a
    specification that names the rows it may touch and what each of them
    becomes: which sessions are overdue, which of them are picked, and the
    decision on each parked session that is picked. *)
From S2P Require Import Prelude Bytes PyInt Utf8 Json PyJson AnonState AnonTick AnonProbe HopLog AnonHops.
From S2P Require Import HopLogic HopSafety AnonLoop AnonSafety AnonBudget.

(** ** The specification *)

(** A query with a limit: rows that are due, all of them or as many as the
    limit allows, and none passed over for a younger one. *)
Record picked (n : nat) (due : AnonymizeSession -> Prop) (age : AnonymizeSession -> option Z) (db l : table) : Prop := {
  pk_due s : s ∈ l -> s ∈ db /\ due s;
  pk_nodup : NoDup l;
  pk_limit : (length l <= n)%nat;
  pk_full s : s ∈ db -> due s -> s ∉ l -> length l = n;
  pk_oldest s s' : s ∈ l -> s' ∈ db -> due s' -> s' ∉ l -> ts_le (age s) (age s')
}.

(** The statuses reconciliation may be left for, and its own. *)
Definition resumable : list AnonymizeStatus :=
  [AWAITING_RECONCILIATION; HOPPING; EXITING; CONFIRMING; COMPLETED; COMPLETED_WITH_REORG_UNCERTAINTY; REFUNDING;
   FAILED; CANCELLED].

Section spec.
Context (cfg : anon_settings) (locked running : Z -> bool) (now : Z).

(** Active, not deleted, held by no one, and not written since the cutoff. *)
Definition overdue (s : AnonymizeSession) : Prop :=
  (status s ∉ map value [COMPLETED; COMPLETED_WITH_REORG_UNCERTAINTY; CANCELLED; FAILED; AWAITING_RECONCILIATION]) /\
  deleted_at s = None /\ locked (session_id s) = false /\
  (forall t, updated_at s = Some t -> t < now - wall_clock_budget_s cfg * usec).

(** What becomes of an overdue row. A status without an edge into
    reconciliation stays, but the columns of the failed transition do too. *)
Definition flipped (s : AnonymizeSession) : AnonymizeSession :=
  let marked := set_reason (set_pre_status s (Some (status s))) (Some (u "wall_clock_budget_exceeded")) in
  if is_legal_transition (status s) (value AWAITING_RECONCILIATION)
  then set_updated_at (set_status marked (value AWAITING_RECONCILIATION)) (Some now)
  else flush now s marked.

(** Parked, not deleted, held by no one. *)
Definition waiting (s : AnonymizeSession) : Prop :=
  status s = value AWAITING_RECONCILIATION /\ deleted_at s = None /\ locked (session_id s) = false.

Inductive verdict := v_cooling | v_deferred | v_failed | v_resumed.

(** How often a reason is retried; [None] for one the operator decides. *)
Definition retries (reason : ustr) : option Z :=
  if decide (reason ∈ _TRANSIENT_REASONS) then Some (max_retries_transient cfg)
  else if decide (reason ∈ _SEMI_REASONS) then Some 3 else None.

Definition cooling (s : AnonymizeSession) : Prop :=
  let n := reconciliation_attempts s in
  0 < n /\ exists t, last_reconciliation_attempt_ts s = Some t /\
    now < t + Z.min (backoff_max_s cfg) (backoff_base_s cfg * 2 ^ Z.min (n - 1) 30) * usec.

Definition counted (s : AnonymizeSession) : AnonymizeSession :=
  set_last_attempt (set_attempts s (reconciliation_attempts s + 1)) (Some now).

(** The decision on a parked row and the row it leaves. *)
Inductive decided (s : AnonymizeSession) : verdict -> AnonymizeSession -> Prop :=
  | d_cooling : cooling s -> decided s v_cooling s
  | d_deferred :
      ~ cooling s -> retries (stripped (awaiting_reconciliation_reason s)) = None ->
      decided s v_deferred (flush now s (set_last_attempt s (Some now)))
  | d_failed n :
      ~ cooling s -> retries (stripped (awaiting_reconciliation_reason s)) = Some n ->
      (n <= reconciliation_attempts s \/ forall st, pre_reconciliation_status s = Some (value st) ->
         st ∉ resumable) ->
      decided s v_failed (set_updated_at (set_status (counted s) (value FAILED)) (Some now))
  | d_resumed n st :
      ~ cooling s -> retries (stripped (awaiting_reconciliation_reason s)) = Some n ->
      reconciliation_attempts s < n -> pre_reconciliation_status s = Some (value st) ->
      st ∈ resumable ->
      decided s v_resumed (set_updated_at (set_status (counted s) (value st)) (Some now)).

(** The sweep: at most fifty overdue rows are flipped, then a batch of parked
    rows is decided; no other row changes, and a driver is armed for exactly
    the resumed sessions that have none. *)
Definition sweep (db db' : table) (armed : list Z) : Prop :=
  exists overdues batch,
    let mid := map (fun s => if decide (s ∈ overdues) then flipped s else s) db in
    picked 50 overdue updated_at db overdues /\
    picked (Z.to_nat (probe_batch_size cfg)) waiting last_reconciliation_attempt_ts mid batch /\
    Forall2 (fun s s' => if decide (s ∈ batch) then exists v, decided s v s' else s' = s) mid db' /\
    (forall i, i ∈ armed <-> running i = false /\ exists s s', s ∈ batch /\ session_id s = i /\ decided s v_resumed s').
End spec.

(** ** Queries *)

Section query.
Context (R : AnonymizeSession -> AnonymizeSession -> Prop) `{!forall a b, Decision (R a b)} `{!Transitive R, !Total R}.

Lemma filter_ids (P : AnonymizeSession -> bool) (db : table) : NoDup (ids db) -> NoDup (ids (List.filter P db)).
Proof.
  induction db as [|s db IH]; simpl; [done|]. rewrite !NoDup_cons.
  intros [Hn Hd]. destruct (P s); [|auto]. simpl. apply NoDup_cons. split; [|auto].
  rewrite !list_elem_of_fmap in *. intros (x & E & Hx). apply Hn. exists x. split; [done|].
  rewrite list_elem_of_In in *. by apply filter_In in Hx as [? _].
Qed.

(** Filter, order and limit pick the oldest rows that are due. *)
Lemma fetch_picked n (P : AnonymizeSession -> bool) (due : AnonymizeSession -> Prop) age (db : table) :
  NoDup (ids db) -> (forall s, P s = true <-> due s) -> (forall s s', R s s' -> ts_le (age s) (age s')) ->
  let l := take n (merge_sort R (List.filter P db)) in
  picked n due age db l /\ NoDup (ids l).
Proof.
  intros Hnd HP HR. cbn zeta. set (m := merge_sort R (List.filter P db)).
  assert (Hp : m ≡ₚ List.filter P db) by apply merge_sort_Permutation.
  assert (Hids : NoDup (ids m)).
  { assert (E : ids m ≡ₚ ids (List.filter P db)) by (by apply Permutation_map). rewrite E. by apply filter_ids. }
  assert (Hin : forall s, s ∈ m <-> s ∈ db /\ due s).
  { intros s. by rewrite Hp, list_elem_of_In, filter_In, <- list_elem_of_In, HP. }
  assert (Hm : take n m ++ drop n m = m) by apply take_drop.
  assert (Hnl : NoDup (ids (take n m))).
  { eapply (NoDup_app (ids (take n m)) (ids (drop n m))). by rewrite <- map_app, Hm. }
  split; [|done]. split.
  - intros s Hs. apply Hin. rewrite <- Hm. set_solver.
  - by eapply NoDup_fmap_1.
  - rewrite length_take. lia.
  - intros s Hs Hd Hn. assert (Hs' : s ∈ m) by (by apply Hin). rewrite <- Hm in Hs'.
    apply elem_of_app in Hs' as [?|Hs']; [done|]. rewrite length_take. apply Nat.min_l.
    destruct (decide (n <= length m)%nat); [done|]. rewrite drop_ge in Hs' by lia. by apply elem_of_nil in Hs'.
  - intros s s' Hs Hs' Hd Hn. apply HR. assert (Hx : s' ∈ m) by (by apply Hin). rewrite <- Hm in Hx.
    apply elem_of_app in Hx as [?|Hx]; [done|].
    eapply (StronglySorted_app_1_elem_of R (take n m) (drop n m)); [|done|done]. rewrite Hm.
    apply StronglySorted_merge_sort; apply _.
Qed.
End query.

Lemma ts_le_trans a b c : ts_le a b -> ts_le b c -> ts_le a c.
Proof. destruct a, b, c; simpl; try done. lia. Qed.

Lemma ts_le_total a b : ts_le a b \/ ts_le b a.
Proof. destruct a, b; simpl; auto. lia. Qed.

#[local] Instance by_updated_trans : Transitive by_updated.
Proof. intros a b c. apply ts_le_trans. Qed.
#[local] Instance by_updated_total : Total by_updated.
Proof. intros a b. apply ts_le_total. Qed.
#[local] Instance by_last_attempt_trans : Transitive by_last_attempt.
Proof. intros a b c. apply ts_le_trans. Qed.
#[local] Instance by_last_attempt_total : Total by_last_attempt.
Proof. intros a b. apply ts_le_total. Qed.

Lemma live_iff s : live s = true <-> deleted_at s = None.
Proof. unfold live. destruct (deleted_at s); naive_solver. Qed.

Lemma wedged_overdue cfg locked now s :
  wedged now (wall_clock_budget_s cfg) s && negb (locked (session_id s)) = true <-> overdue cfg locked now s.
Proof.
  unfold wedged, overdue. rewrite !andb_true_iff, !negb_true_iff, live_iff, <- not_true_iff_false, <- mem_elem.
  change (ANONYMIZE_TERMINAL_STATUSES ++ [value AWAITING_RECONCILIATION]) with
    (map value [COMPLETED; COMPLETED_WITH_REORG_UNCERTAINTY; CANCELLED; FAILED; AWAITING_RECONCILIATION]).
  destruct (updated_at s) as [t|]; [rewrite Z.ltb_lt|]; naive_solver.
Qed.

Lemma fetched_waiting locked s :
  eqs (status s) (value AWAITING_RECONCILIATION) && live s && negb (locked (session_id s)) = true <-> waiting locked s.
Proof. unfold waiting, eqs. rewrite !andb_true_iff, negb_true_iff, live_iff, bool_decide_eq_true. tauto. Qed.

(** ** Rows *)

Lemma flush_changed now s s' : status s' <> status s -> flush now s s' = set_updated_at s' (Some now).
Proof. intros H. unfold flush. rewrite bool_decide_eq_false_2; [done|]. by intros ->. Qed.

Lemma flush_counted now s x : flush now s (set_status (counted now s) x) = set_updated_at (set_status (counted now s) x) (Some now).
Proof.
  unfold flush. rewrite bool_decide_eq_false_2; [done|]. intros E. apply (f_equal reconciliation_attempts) in E.
  simpl in E. lia.
Qed.

Lemma wedge_flips cfg locked now s : overdue cfg locked now s -> (wedge_row now s).1 = flipped now s.
Proof.
  intros (Hs & _). assert (Hne : status s <> value AWAITING_RECONCILIATION) by (intros E; apply Hs; rewrite E; set_solver).
  unfold wedge_row, flipped. destruct (is_legal_transition _ _) eqn:Hl.
  - rewrite transition_to_ar_ok by done. cbn [fst]. by apply flush_changed.
  - unfold transition_to_awaiting_reconciliation. rewrite bool_decide_eq_false_2 by done.
    unfold transition_session, assert_legal_transition. cbn [status set_reason set_pre_status]. by rewrite Hl.
Qed.

Lemma cooldown_cooling cfg now s : is_in_cooldown cfg now s = true <-> cooling cfg now s.
Proof.
  unfold is_in_cooldown, cooling, compute_backoff_s. cbn zeta. destruct (_ <=? 0) eqn:E.
  - split; [done|]. lia.
  - destruct (last_reconciliation_attempt_ts s) as [t|]; [|naive_solver]. rewrite Z.ltb_lt. split.
    + intros H. split; [lia|]. exists t. split; [done|lia].
    + intros (_ & t' & [= <-] & H). lia.
Qed.

(** *** Stripping twice *)

Definition unpadded (s : ustr) : Prop := forall c t, s = c :: t -> py_isspace c = false.

Lemma lstrip_unpadded s : unpadded (lstrip s).
Proof. induction s as [|c s IH]; simpl; [by intros ? ?|]. destruct (py_isspace c) eqn:E; [done|]. by intros ? ? [= <- _]. Qed.

Lemma unpadded_lstrip s : unpadded s -> lstrip s = s.
Proof. destruct s as [|c s]; [done|]. intros H. simpl. by rewrite (H c s eq_refl). Qed.

Lemma lstrip_suffix s : lstrip s `suffix_of` s.
Proof. induction s as [|c s IH]; simpl; [done|]. destruct (py_isspace c); [by apply suffix_cons_r|done]. Qed.

Lemma strip_strip s : strip (strip s) = strip s.
Proof.
  unfold strip at 1. rewrite (unpadded_lstrip (strip s)).
  - unfold strip. rewrite reverse_involutive, (unpadded_lstrip (lstrip _)) by apply lstrip_unpadded. done.
  - unfold strip. destruct (lstrip_suffix (reverse (lstrip s))) as [k E]. apply (f_equal reverse) in E.
    rewrite reverse_involutive, reverse_app in E. intros c t Hc. rewrite Hc in E.
    by apply (lstrip_unpadded s c (t ++ reverse k)).
Qed.

(** *** The decision *)

Lemma class_retries cfg r :
  match classify_reason (Some (strip r)) with
  | CLASS_TERMINAL => retries cfg (strip r) = None
  | cls => retries cfg (strip r) = Some (max_retries_for_class cfg cls)
  end.
Proof.
  unfold classify_reason. destruct (strip r) as [|c t] eqn:E; [by vm_compute|]. rewrite <- E, strip_strip. cbv zeta.
  unfold retries. destruct (mem (strip r) _TRANSIENT_REASONS) eqn:M1.
  { by rewrite decide_True by (by apply mem_elem). }
  rewrite decide_False by (intros ?%mem_elem; congruence). destruct (mem (strip r) _SEMI_REASONS) eqn:M2.
  { by rewrite decide_True by (by apply mem_elem). }
  rewrite decide_False by (intros ?%mem_elem; congruence). by destruct (mem (strip r) _TERMINAL_REASONS).
Qed.

Lemma legal_resumable t :
  is_legal_transition (value AWAITING_RECONCILIATION) t = true <-> exists st, t = value st /\ st ∈ resumable.
Proof.
  split.
  - intros H. destruct (legal_known (value AWAITING_RECONCILIATION) t) as [st ->]; [by exists AWAITING_RECONCILIATION|done|].
    exists st. split; [done|]. rewrite legal_value in H. unfold resumable.
    destruct st; first [vm_compute in H; discriminate H | set_solver].
  - intros (st & -> & Hin). rewrite legal_value. unfold resumable in Hin.
    destruct st; first [vm_compute; reflexivity | set_solver].
Qed.

Lemma decided_verdict cfg now s v v' s1 s2 : decided cfg now s v s1 -> decided cfg now s v' s2 -> v = v'.
Proof.
  intros [Hc|Hc Hr|n Hc Hr Hw|n st Hc Hr Hn Hp Hin] [Hc'|Hc' Hr'|n' Hc' Hr' Hw'|n' st' Hc' Hr' Hn' Hp' Hin'];
    try done; try congruence.
  - assert (n = n') as -> by congruence. destruct Hw as [Hw|Hw]; [lia|]. by destruct (Hw st').
  - assert (n = n') as -> by congruence. destruct Hw' as [Hw'|Hw']; [lia|]. by destruct (Hw' st).
Qed.

(** From a parked row, every target of the transition is reached. *)
Lemma counted_transition now s to :
  status s = value AWAITING_RECONCILIATION -> is_legal_transition (value AWAITING_RECONCILIATION) to = true ->
  transition_session (counted now s) to = (set_status (counted now s) to, Ok tt).
Proof.
  intros Hs Hl. unfold transition_session, assert_legal_transition. cbn [counted status set_last_attempt set_attempts].
  rewrite Hs, Hl. case_bool_decide as E; [|done]. f_equal. rewrite <- E, <- Hs. by destruct s.
Qed.

(** An attempt on a parked row out of its cooldown never raises. *)
Lemma attempt_decided cfg now s :
  status s = value AWAITING_RECONCILIATION -> ~ cooling cfg now s ->
  exists v s' evs o, attempt_reconciliation cfg now s = (s', evs, Ok o) /\ decided cfg now s v (flush now s s') /\
    (out_kind o = retried <-> v = v_resumed).
Proof.
  intros Hs Hnc. pose proof (class_retries cfg (default [] (awaiting_reconciliation_reason s))) as Hcls.
  fold (stripped (awaiting_reconciliation_reason s)) in Hcls. unfold attempt_reconciliation. cbv zeta. fold (counted now s).
  assert (Hf : forall n cls r why ev,
    retries cfg (stripped (awaiting_reconciliation_reason s)) = Some n ->
    (n <= reconciliation_attempts s \/ forall st, pre_reconciliation_status s = Some (value st) -> st ∉ resumable) ->
    exists v s' evs o, (let '(s', evs, o) := _escalate (counted now s) cls r now why in (s', ev :: evs, Ok o)) = (s', evs, Ok o) /\
      decided cfg now s v (flush now s s') /\ (out_kind o = retried <-> v = v_resumed)).
  { intros n cls r why ev Hr Hw. exists v_failed. unfold _escalate. rewrite counted_transition by done.
    eexists _, _, _. split; [reflexivity|]. rewrite flush_counted. split; [by eapply d_failed|done]. }
  destruct (classify_reason _) eqn:Hk.
  3: { exists v_deferred. eexists _, _, _. split; [reflexivity|]. split; [by apply d_deferred|done]. }
  all: destruct (_ <? _) eqn:Hb; [apply (Hf _ _ _ _ _ Hcls); left; cbn in *; lia|].
  all: replace (pre_reconciliation_status (counted now s)) with (pre_reconciliation_status s) by done.
  all: destruct (pre_reconciliation_status s) as [[|c t]|] eqn:Hp;
    [apply (Hf _ _ _ _ _ Hcls); right; intros st [= E]; by destruct st| |apply (Hf _ _ _ _ _ Hcls); right; done].
  all: destruct (is_legal_transition _ _) eqn:Hl;
    [|apply (Hf _ _ _ _ _ Hcls); right; intros st [= E] Hin;
      assert (is_legal_transition (value AWAITING_RECONCILIATION) (c :: t) = true) by (apply legal_resumable; eauto); congruence].
  all: rewrite counted_transition by done; exists v_resumed; eexists _, _, _; split; [reflexivity|]; rewrite flush_counted.
  all: pose proof Hl as (st & Est & Hin)%legal_resumable; rewrite Est in *; split; [|done].
  all: eapply d_resumed; eauto; cbn in *; lia.
Qed.

Lemma row_decided cfg now running s :
  status s = value AWAITING_RECONCILIATION ->
  exists v, decided cfg now s v (probe_row cfg now running s).1.1 /\
    ((probe_row cfg now running s).2 = true <-> v = v_resumed /\ running (session_id s) = false).
Proof.
  intros Hs. unfold probe_row. destruct (is_in_cooldown cfg now s) eqn:Hc.
  { exists v_cooling. split; [apply d_cooling; by apply cooldown_cooling|]. naive_solver. }
  destruct (attempt_decided cfg now s Hs) as (v & s' & evs & o & -> & Hd & Hk); [rewrite <- cooldown_cooling; congruence|].
  exists v. split; [done|]. cbn [snd]. rewrite <- Hk. destruct (out_kind o); rewrite ?negb_true_iff; naive_solver.
Qed.

(** ** The sweep *)

(** The drivers a sweep arms. *)
Lemma probe_armed cfg db locked running now i :
  i ∈ (reconciliation_probe_run cfg db locked running now).2 <->
  exists s, s ∈ fetch_awaiting_reconciliation_sessions (apply_wedge_detector cfg db locked now 50).1.1 locked (probe_batch_size cfg) /\
    session_id s = i /\ (probe_row cfg now running s).2 = true.
Proof.
  unfold reconciliation_probe_run. destruct (apply_wedge_detector _ _ _ _ _) as [[db1 evs] c]. cbn [fst].
  set (l := fetch_awaiting_reconciliation_sessions _ _ _). clearbody l.
  assert (H : forall x, i ∈ (foldl (fun '(db, evs, spawned) s =>
      let '(s', evs', arm) := probe_row cfg now running s in
      (put db s', evs ++ evs', if arm then spawned ++ [session_id s] else spawned)) x l).2 <->
    i ∈ x.2 \/ exists s, s ∈ l /\ session_id s = i /\ (probe_row cfg now running s).2 = true).
  { induction l as [|s l IH]; intros [[t e] sp]; cbn [foldl].
    - setoid_rewrite elem_of_nil. naive_solver.
    - rewrite IH. destruct (probe_row cfg now running s) as [[s' evs'] arm] eqn:E. cbn [snd].
      setoid_rewrite elem_of_cons. destruct arm; rewrite ?elem_of_app, ?list_elem_of_singleton; split.
      + intros [[?| ->]|(x & ? & ? & ?)]; [by left|right; exists s; rewrite E; auto|right; exists x; auto].
      + intros [?|(x & [-> |?] & ? & ?)]; [by left; left|by left; right|right; exists x; auto].
      + intros [?|(x & ? & ? & ?)]; [by left|right; exists x; auto].
      + intros [?|(x & [-> |?] & ? & Ha)]; [by left|rewrite E in Ha; done|right; exists x; auto]. }
  rewrite H. cbn [snd]. rewrite elem_of_nil. tauto.
Qed.

(** C7. One sweep of the reconciliation probe, over a whole table that
    nothing else writes meanwhile and with a database that answers, does
    exactly what its specification says. Of the active rows that are live,
    held by no one and unwritten for longer than the budget, the fifty
    oldest are parked with the wall-clock reason; then, of the parked rows
    that are live and held by no one, the batch with the oldest last
    attempts is decided: a row in its backoff is left alone, one whose
    reason only an operator may decide gets a new timestamp, one whose budget is spent or
    whose former status cannot be returned to is failed, any other is
    resumed and counted. No other row changes, and a driver is started for
    exactly the resumed sessions that have none. *)
Theorem probe_run_correct cfg db locked running now :
  NoDup (ids db) ->
  let '(db', _, armed) := reconciliation_probe_run cfg db locked running now in
  ids db' = ids db /\ sweep cfg locked running now db db' armed.
Proof.
  intros Hnd. pose proof (probe_table cfg db locked running now) as Ht.
  pose proof (probe_armed cfg db locked running now) as Ha.
  destruct (reconciliation_probe_run cfg db locked running now) as [[db' evs] armed]. cbn [fst snd] in *.
  rewrite wedge_table in Ht, Ha. cbv zeta in Ht. set (l1 := fetch_wedged_active_sessions _ _ _ _ _) in *.
  destruct (fetch_picked by_updated 50 _ _ updated_at db Hnd (wedged_overdue cfg locked now) (fun _ _ H => H)) as [Hp1 Hn1].
  change (take _ _) with l1 in Hp1, Hn1.
  assert (Hmid : put_all (fun s => (wedge_row now s).1) db l1 = map (fun s => if decide (s ∈ l1) then flipped now s else s) db).
  { rewrite put_all_map; [|intros s; apply fixed_id, fixed_wedge|done|done|by apply Hp1].
    apply map_ext. intros r. case_decide as Hr; [|done]. eapply wedge_flips. by eapply Hp1. }
  assert (Hids : ids (put_all (fun s => (wedge_row now s).1) db l1) = ids db).
  { apply ids_put_all. }
  rewrite Hmid in Ht, Ha, Hids.
  set (mid := map (fun s => if decide (s ∈ l1) then flipped now s else s) db) in *.
  assert (Hnd2 : NoDup (ids mid)) by (by rewrite Hids).
  set (l2 := fetch_awaiting_reconciliation_sessions mid locked _) in *.
  destruct (fetch_picked by_last_attempt (Z.to_nat (probe_batch_size cfg)) _ _ last_reconciliation_attempt_ts mid Hnd2
    (fetched_waiting locked) (fun _ _ H => H)) as [Hp2 Hn2].
  change (take _ _) with l2 in Hp2, Hn2.
  assert (Hl2 : forall s, s ∈ l2 -> status s = value AWAITING_RECONCILIATION) by (intros s Hs; by apply (pk_due _ _ _ _ _ Hp2)).
  split.
  { by rewrite Ht, ids_put_all. }
  exists l1, l2. cbv zeta. fold mid. split; [done|]. split; [done|]. split.
  - rewrite Ht, put_all_map; [|intros s; apply fixed_id, fixed_probe|done|done|by apply Hp2].
    apply Forall2_fmap_r, Forall_Forall2_diag, Forall_forall. intros s _. cbn. case_decide as Hs; [|done].
    destruct (row_decided cfg now running s (Hl2 s Hs)) as (v & Hv & _). by exists v.
  - intros i. rewrite Ha. split.
    + intros (s & Hs & <- & Harm). destruct (row_decided cfg now running s (Hl2 s Hs)) as (v & Hv & Hiff).
      destruct (proj1 Hiff Harm) as [Ev ?]. subst v. split; [done|]. by eexists s, _.
    + intros (Hr & s & s' & Hs & <- & Hd). exists s. split; [done|]. split; [done|].
      destruct (row_decided cfg now running s (Hl2 s Hs)) as (v & Hv & Hiff). apply Hiff. split; [|done].
      by eapply decided_verdict.
Qed.

(** A parked session that is retried beside one that sat idle past the
    budget and is failed at once. *)
Definition demo_idle : AnonymizeSession :=
  mkSession 7 (Some 0) (Some 0) (value DELAYING) (source_value LIGHTNING_SELF) 1 (JDict [])
     10 None 0 0 None None None 0 None None None None None None None.

Definition demo_swept : table * list AnonymizeSessionEvent * list Z :=
  reconciliation_probe_run default_settings [demo_parked; demo_idle] (fun _ => false) (fun _ => false) (14401 * usec).

Lemma probe_run_correct_witness :
  map status demo_swept.1.1 = [value EXITING; value FAILED] /\ demo_swept.2 = [session_id demo_parked] /\
  sweep default_settings (fun _ => false) (fun _ => false) (14401 * usec) [demo_parked; demo_idle] demo_swept.1.1 demo_swept.2.
Proof.
  split; [vm_compute; reflexivity|]. split; [vm_compute; reflexivity|].
  pose proof (probe_run_correct default_settings [demo_parked; demo_idle] (fun _ => false) (fun _ => false) (14401 * usec)) as H.
  unfold demo_swept. destruct (reconciliation_probe_run _ _ _ _ _) as [[db' evs] armed]. apply H.
  apply (bool_decide_unpack _). vm_compute. exact I.
Defined.
