(* ===== verification/AnonExit.v ===== *)
(** * The exit as the dispatcher wires it

    hop_dispatcher.py binds [run_claim_subprocess] to the wallet's
    cooperative claim, which returns the id of the transaction it has
    broadcast, not the transaction. Under that binding the loop never sees a
    claim: a session that exits through a reverse swap is not confirmed. *)
From S2P Require Import Prelude Bytes PyInt PyFloat Utf8 Json PyJson TxPolicy ScriptPubKey AnonState AnonTick AnonProbe HopLog AnonHops.
From S2P Require Import AnonReverse HopLogic HopSafety ReverseSafety AnonLoop AnonSafety.

(** Where such a session can be. *)
Definition unconfirmed : list AnonymizeStatus := [EXITING; AWAITING_RECONCILIATION; FAILED; CANCELLED; REFUNDING].

(** Ticks of the loop, each with the life its process has left and the
    failures counted so far. *)
Definition loops (cfg : anon_settings) (hop : Z -> M HopStepOutcome) (ticks : list (env * nat * Z)) (w : world) : world :=
  foldl (fun w x => (loop_tick cfg x.1.1 (hop (now x.1.1)) (with_life w x.1.2) x.2).1.1) w ticks.

Section txid.
Context (cfg : anon_settings) (b : hop_bodies) (spk : bytes).

(** The adapter's answers are ids: 32 bytes in hexadecimal. *)
Context (Hid : forall cs tx, ok_reply (run_claim_subprocess (reverse_deps b) cs) = Some tx ->
  exists raw, fromhex (hex_text tx) = Ok raw /\ size raw = 32).

Definition stuck (s : AnonymizeSession) : Prop :=
  expected_script (reverse_settings b) s = Ok spk /\ exit_kind (or_dict (pipeline_json s)) = Ok (u "reverse") /\
  claim_broadcast_at_ts s = None /\ exists st, status s = value st /\ st ∈ unconfirmed.

Abbreviation unclaimed := (inv stuck (fun _ => True)).

Lemma stuck_update f :
  (forall pj, assoc (u "exit") (f pj) = assoc (u "exit") pj) -> (forall pj, or_dict (JDict (f pj)) = JDict (f pj)) ->
  admits stuck f.
Proof.
  intros Hf Ht s pj (He & Hk & Hc) Hpj. split; [|split].
  - rewrite <- He. unfold expected_script.
    by rewrite (exit_assoc s (set_pipeline_json s (JDict (f pj))) pj (f pj) Hpj (Ht pj) (Hf pj)).
  - rewrite <- Hk, Hpj. cbn [pipeline_json set_pipeline_json]. rewrite Ht. unfold exit_kind. cbn [py_get]. by rewrite Hf.
  - exact Hc.
Qed.

(** A row that differs in other columns, with a status of the list. *)
Lemma stuck_row s s' st :
  stuck s -> pipeline_json s' = pipeline_json s -> claim_broadcast_at_ts s' = claim_broadcast_at_ts s ->
  status s' = value st -> st ∈ unconfirmed -> stuck s'.
Proof.
  intros (He & Hk & Hc & _) Ep Eb Es Hin. unfold stuck, expected_script, exit_destination in *. rewrite Ep, Eb. eauto 6.
Qed.

Lemma stuck_route s reason : stuck s -> stuck (transition_to_awaiting_reconciliation s reason).1.
Proof.
  intros Hs. pose proof Hs as (_ & _ & _ & st & Est & Hst).
  unfold transition_to_awaiting_reconciliation, transition_session.
  case_bool_decide as E; [by eapply (stuck_row s); [|..|exact E|unfold unconfirmed; set_solver]|]. cbn [status set_reason set_pre_status].
  destruct (assert_legal_transition _ _); [case_bool_decide|]; cbn [fst].
  - by eapply (stuck_row s).
  - by eapply (stuck_row s _ AWAITING_RECONCILIATION); [done..|unfold unconfirmed; set_solver].
  - by eapply (stuck_row s).
Qed.

Lemma unclaimed_route reason : keeps unclaimed (route_to_reconciliation reason).
Proof.
  intros w (Hd & Hw & Hc). unfold route_to_reconciliation. rewrite bind_get_row.
  pose proof (stuck_route (row (working w)) (u reason) Hw) as Hr.
  destruct (transition_to_awaiting_reconciliation _ _) as [s r]. unfold set_row, bind, lift. by destruct r.
Qed.

Ltac exit_body := repeat (inv_body; try match goal with
  | |- keeps _ (route_to_reconciliation _) => apply unclaimed_route
  | |- admits _ _ => apply stuck_update; [intros ?; by rewrite !assoc_dset_ne by done|intros ?; apply dset_truthy]
  end).

Lemma unclaimed_claim now id data : keeps unclaimed (rev_claim (reverse_settings b) (reverse_deps b) now id data).
Proof.
  unfold rev_claim, probe_economy_feerate_with_retry.
  do 3 (apply keeps_bind; [inv_body|intros ?]). destruct (has_hop_attempt_completed _ _); [inv_body|].
  do 2 (apply keeps_bind; [inv_body|intros ?]). destruct (SFleb _ _); [inv_body|].
  apply keeps_bind; [inv_body|intros [economy|]]; [|inv_body]. destruct (negb _); [inv_body|].
  eapply triple_bind with (R := fun r w => unclaimed w /\ exists cs, r = run_claim_subprocess (reverse_deps b) cs).
  { apply triple_call; [done|]. intros w n (Hd & Hw & Hc). cbv zeta.
    assert (unclaimed (mkWorld (durable w) (working w) (calls w ++ [C_claim_reverse id (lockup_transaction data)]) n)); [|eauto].
    split; [done|]. split; [done|]. cbn [calls]. apply Forall_app. by repeat constructor. }
  intros r w [Hw [cs ->]]. destruct (ok_reply _) as [[|c tx]|] eqn:Hr; [done| |done].
  destruct (Hid _ _ Hr) as (raw & Hraw & Hsize). set (t := c :: tx) in *. rewrite bind_get_row.
  destruct Hw as (Hd & Hw & Hc).
  pose proof (check_claim_txid (reverse_settings b) (row (working w)) spk t raw (proj1 Hw) Hraw Hsize) as Hno.
  destruct (check_claim _ _ _) as [[detail|]|e]; [by split|done|by split].
Qed.

Lemma unclaimed_reverse now : keeps unclaimed (execute_reverse_hop_step (reverse_settings b) (reverse_deps b) now).
Proof.
  unfold execute_reverse_hop_step, rev_step_exiting, _poll_and_claim, rev_pay, rev_fall_back, _issue_reverse_swap,
    _check_exit_relay_diversity, rev_create. exit_body.
  all: apply unclaimed_claim.
Qed.

(** *** The dispatcher and the loop *)

Lemma unclaimed_dispatch now : keeps unclaimed (default_hop_step_fn b now).
Proof.
  intros w Hw. unfold default_hop_step_fn. rewrite bind_get_row.
  destruct Hw as (Hd & Hs & Hc). pose proof Hs as (_ & Hk & _ & st & Est & Hst).
  destruct (py_get _ _ _) as [uses|e]; [|done]. rewrite bind_lift_Ok, Hk, bind_lift_Ok, Est, lower_value.
  change (eqs (u "reverse") (u "bolt12_pay")) with false. cbn [andb]. cbv zeta.
  assert (mem (value st) [value FUNDING; value LN_HOLDING] = false /\
          mem (value st) [value SOURCING; value FUNDING; value LN_HOLDING] = false /\
          eqs (value st) (value AWAITING_LIQUID_DWELL) = false /\ eqs (value st) (value HOPPING) = false)
    as (-> & -> & -> & ->).
  { unfold unconfirmed in Hst. rewrite !elem_of_cons in Hst. destruct Hst as [->|[->|[->|[->|[->|Hn]]]]];
      [vm_compute; done..|by apply elem_of_nil in Hn]. }
  rewrite !andb_false_r. cbn [andb]. destruct (liquid_body b); by apply unclaimed_reverse.
Qed.

Lemma stuck_transition s st : stuck s -> st ∈ unconfirmed -> stuck (transition_session s (value st)).1.
Proof.
  intros Hs Hst. unfold transition_session. destruct (assert_legal_transition _ _); [case_bool_decide|]; [done| |done].
  by eapply (stuck_row s).
Qed.

(** The observations of an exiting session without a claim. *)
Lemma no_claim_observed e s obs :
  status s = value EXITING -> claim_broadcast_at_ts s = None -> default_observation_fn cfg e s = Ok obs ->
  is_True_ (claim_tx_observed_on_chain obs) = false.
Proof.
  intros Hs Hc H. unfold default_observation_fn in H. apply bind_Ok in H as (src & _ & [= <-]).
  unfold observe_reverse_exit, _claim_tx_observed. rewrite Hs, Hc.
  change (eqs (value EXITING) (value EXITING)) with true. cbn [orb]. by case_match.
Qed.

Lemma stuck_tick e s obs : stuck s -> default_observation_fn cfg e s = Ok obs -> stuck (tick_session s obs).1.
Proof.
  intros Hs Ho. pose proof Hs as (_ & _ & Hc & st & Est & Hst).
  assert (Hto : forall to, to_status (decide_tick_action s obs) = Some to -> exists st', to = value st' /\ st' ∈ unconfirmed).
  { intros to. unfold decide_tick_action. destruct (is_terminal _); [done|].
    case_match; [intros [= <-]; case_match; eexists; (split; [reflexivity|unfold unconfirmed; set_solver])|].
    case_match; [intros [= <-]; eexists; (split; [reflexivity|unfold unconfirmed; set_solver])|].
    case_match; [intros [= <-]; eexists; (split; [reflexivity|unfold unconfirmed; set_solver])|].
    case_match; [intros [= <-]; eexists; (split; [reflexivity|unfold unconfirmed; set_solver])|].
    pose proof (fun E => no_claim_observed e s obs E Hc Ho) as Hno. rewrite Est in *.
    unfold unconfirmed in Hst. rewrite !elem_of_cons in Hst.
    destruct Hst as [->|[->|[->|[->|[->|Hn]]]]]; [|done..|by apply elem_of_nil in Hn].
    unfold _forward_dispatch. cbn -[is_True_]. rewrite (Hno eq_refl). done. }
  unfold tick_session. destruct (kind _); [done|done|..];
    (destruct (to_status _) as [to|] eqn:E; [|done]; destruct (Hto _ eq_refl) as (st' & -> & Hin)).
  all: destruct (eqs _ _); [pose proof (stuck_route s (_strip_tick_reason_prefix (act_reason (decide_tick_action s obs))) Hs) as Hr;
         destruct (transition_to_awaiting_reconciliation _ _)|
         pose proof (stuck_transition s st' Hs Hin) as Hr; destruct (transition_session _ _)]; exact Hr.
Qed.

Lemma stuck_flush t s s' : stuck s' -> stuck (flush t s s').
Proof. intros Hs. destruct (flush_cases t s s') as [->| ->]; [done|exact Hs]. Qed.

Lemma unclaimed_commit t : keeps unclaimed (commit t).
Proof.
  apply triple_commit; [done|]. intros w n (Hd & Hw & Hc). cbn [committed]. split; [|split]; try done; by apply stuck_flush.
Qed.

Lemma unclaimed_loop e : keeps unclaimed (loop_body cfg e (default_hop_step_fn b (now e))).
Proof.
  unfold loop_body. apply keeps_bind; [inv_body|intros s]. destruct (negb _); [inv_body|].
  destruct (is_session_terminal s); [inv_body|]. apply keeps_bind; [apply unclaimed_dispatch|intros o].
  apply keeps_bind.
  { intros w (Hd & Hw & Hc). unfold record_error. rewrite bind_get_row. do 2 (destruct (String.eqb _ _); [done|]). done. }
  intros _ w Hw. rewrite bind_get_row. destruct (default_observation_fn _ _ _) as [obs|ex] eqn:Ho; [|exact Hw].
  rewrite bind_lift_Ok. pose proof (stuck_tick e _ _ (proj1 (proj2 Hw)) Ho) as Ht.
  destruct (tick_session _ _) as [s' r]. revert w Hw Ho. intros w Hw _. revert w Hw.
  match goal with |- forall w, _ -> match ?m w with _ => _ end => change (keeps unclaimed m) end.
  apply keeps_bind; [by apply inv_set_row|intros _]. inv_body. apply unclaimed_commit.
Qed.

Lemma unclaimed_park t : keeps unclaimed (park t).
Proof.
  unfold park. apply keeps_bind; [inv_body|intros s]. destruct (_ && _); [|inv_body].
  apply keeps_bind; [apply unclaimed_route|intros _; apply unclaimed_commit].
Qed.

Lemma unclaimed_tick e n f w : unclaimed w -> unclaimed (loop_tick cfg e (default_hop_step_fn b (now e)) (with_life w n) f).1.1.
Proof.
  assert (Hroll : forall w, unclaimed w -> unclaimed (rollback w)) by (by intros ? (? & ? & ?)).
  intros (Hd & Hw & Hc). assert (H0 : unclaimed (with_life w n)) by done. unfold loop_tick.
  pose proof (unclaimed_loop e _ H0) as H. destruct (loop_body _ _ _ _) as [w' [stop|ex|]]; [by apply Hroll| |by apply Hroll].
  cbv zeta. destruct (_ <=? _); [|by apply Hroll]. cbn [fst]. unfold run_park.
  pose proof (unclaimed_park (now e) _ (Hroll _ H)) as Hp. destruct (park _ _) as [w2 [?|?|]]; auto.
Qed.
End txid.

(** C38. As the dispatcher binds it, the claim adapter answers with the id of
    a transaction. A session that exits through a reverse swap to an address
    with a script is then never seen to have broadcast its claim: whatever
    ticks of its loop are run and wherever its process dies, it is exiting,
    parked, failed, cancelled or being refunded, and never confirming or
    completed, although the claim pays it. *)
Theorem exit_never_confirms cfg b s spk ticks :
  (forall cs tx, ok_reply (run_claim_subprocess (reverse_deps b) cs) = Some tx ->
     exists raw, fromhex (hex_text tx) = Ok raw /\ size raw = 32) ->
  expected_script (reverse_settings b) s = Ok spk -> exit_kind (or_dict (pipeline_json s)) = Ok (u "reverse") ->
  claim_broadcast_at_ts s = None -> status s = value EXITING ->
  let s' := row (durable (loops cfg (default_hop_step_fn b) ticks (fresh s []))) in
  status s' ∈ map value unconfirmed /\ claim_broadcast_at_ts s' = None.
Proof.
  intros Hid He Hk Hc Hst. cbv zeta.
  assert (H : inv (stuck b spk) (fun _ => True) (loops cfg (default_hop_step_fn b) ticks (fresh s []))).
  { assert (H0 : inv (stuck b spk) (fun _ => True) (fresh s [])).
    { assert (stuck b spk s); [|by split; [|split; [|constructor]]].
      split; [done|]. split; [done|]. split; [done|]. exists EXITING. split; [done|]. unfold unconfirmed. set_solver. }
    revert H0. generalize (fresh s []). unfold loops. induction ticks as [|[[e n] f] ticks IH]; intros w Hw; [done|].
    cbn [foldl]. apply IH. by apply unclaimed_tick. }
  destruct H as ((_ & _ & Hc' & st & -> & Hin) & _). split; [|done]. by apply list_elem_of_fmap_2.
Qed.

(** The adapter of hop_dispatcher.py on a claim that was broadcast. *)
Definition demo_txid_deps : ReverseHopDeps :=
  mkReverseDeps (tor_circuits demo_reverse) (boltz_create_reverse_swap demo_reverse) (boltz_get_swap_status demo_reverse)
    (lnd_send_payment demo_reverse) (economy_feerate demo_reverse)
    (fun _ => (Some (u "4a5e1e4baab89f3a32518a88c31bc87f618f76673e2cc77ab2127b7afdeda33b"), None))
    (rev_chain_broadcast_tx demo_reverse).

Definition demo_txid_bodies : hop_bodies :=
  mkBodies demo_rev_settings demo_txid_deps None demo_submarine demo_self_pay (mkB12 (fun _ => (None, None))).

Definition demo_txid_run : world :=
  loops default_settings (default_hop_step_fn demo_txid_bodies) (replicate 5 (mkEnv 1 None 0, 99%nat, 0))
    (fresh (demo_exit_session []) []).

Definition is_claim (c : call) : bool := match c with C_claim_reverse _ _ => true | _ => false end.

(** Three claims are broadcast and the session is still exiting. *)
Lemma exit_never_confirms_witness :
  length (List.filter is_claim (calls demo_txid_run)) = 3%nat /\ status (row (durable demo_txid_run)) = value EXITING /\
  claim_broadcast_at_ts (row (durable demo_txid_run)) = None.
Proof.
  split; [vm_compute; reflexivity|]. split; [vm_compute; reflexivity|].
  apply (exit_never_confirms default_settings demo_txid_bodies (demo_exit_session [])
    (raw_of "0014751e76e8199196d454941c45d1b3a323f1433bd6") (replicate 5 (mkEnv 1 None 0, 99%nat, 0))).
  - intros cs tx [= <-]. eexists. split; vm_compute; reflexivity.
  - vm_compute. reflexivity.
  - vm_compute. reflexivity.
  - reflexivity.
  - reflexivity.
Defined.
